(* ===== verification/_CoqProject ===== *)
-Q . S2P
Prelude.v
Glob.v
Capability.v
JsNumber.v
Paths.v
Policy.v
Json.v
Redact.v
JsonParse.v
AuditChain.v
AuditFile.v
Attest.v
Mesh.v
Manifest.v
Resources.v
Registry.v
Secrets.v
Hosts.v
Url.v
Page.v
WebFetch.v
Db.v
Framing.v
Utf8.v
Trace.v
Egress.v
GithubBroker.v
Tunnel.v
Postgres.v
Mysql.v
Governance.v
Rpc.v
FileLock.v
LineRpc.v
EnvFile.v
Container.v
Git.v
Agent.v
AgentFacts.v
Providers.v
Explain.v
RunAudit.v
McpCall.v
BootSession.v
Cancellation.v
Stores.v
BootEvidence.v
Doctor.v
Vm.v
VmSandbox.v
Crew.v
CrewFacts.v
Wp.v
Ready.v
Computer.v
Fleet.v
Network.v
Snapshot.v
ImageCache.v
Stage.v
Lockfile.v
ImageBuild.v
AppLists.v
Knowledge.v
Daemons.v
AppRuntime.v
Connector.v
Terminal.v
