(* ===== verification/Prelude.v ===== *)
(** * BerthOS: verification of the program's own logic

    BerthOS runs an agent's tools ("apps") in a sandbox. Each app has a manifest
    that lists what it may touch; the manifest is validated, compiled into a
    kernel policy and into container limits; the app's secrets are delivered to
    it alone; what it does is written to a hash-chained audit log, from which an
    attestation record can be made and verified; apps are published to a
    registry, and peers find one another through a mesh coordinator. This
    library translates the TypeScript of those parts into Rocq functions and
    step relations and proves what makes them correct.

    ** Files and what they model (paths under src/)

    - [Prelude]: results, tactics, JavaScript strings, [Set], [Map] and objects,
      executions of a step relation.
    - [Glob]: the regular expressions built from globs (manifest-schema, mesh
      coordinator, the apps' hosts.ts).
    - [Capability]: packages/manifest-schema/src/capability.ts and the grant
      check of packages/sdk/src/capabilities.ts.
    - [JsNumber]: JavaScript numbers as the code reads them ([Number(text)],
      rounding, sums).
    - [Paths]: Node's path functions and apps/filesystem/src/paths.ts.
    - [Policy]: packages/sdk/src/generate-capability-policy.ts, the compiler
      from capabilities to the kernel policy, with the dependency scan.
    - [Json], [JsonParse]: JSON values, canonical text (audit/src/sink.ts),
      [JSON.stringify] and a reader for it.
    - [Redact]: packages/audit/src/redact.ts over a heap of objects.
    - [AuditChain]: hashing and verification of chains (audit/src/sink.ts);
      [AuditFile]: the file sink as a step relation of several writers with
      crashes and rotation, down to the bytes of the segments;
      [Attest]: packages/audit/src/attest.ts.
    - [Mesh]: packages/mesh-coordinator/src (db.ts, routes.ts, glob.ts);
      [Registry]: packages/registry-server/src (db.ts, routes.ts, storage.ts),
      publishes as interleaved steps.
    - [Manifest], [Resources]: packages/manifest-schema/src (schema.ts,
      validate.ts, migrations.ts; resources.ts).
    - [Secrets]: packages/docker-orchestrator/src/secrets.ts, with the shell's
      reading of the files it writes.
    - [Hosts], [Url], [Page], [WebFetch]: the apps' hosts.ts, and
      apps/web-fetch/src (page.ts, index.ts) against an arbitrary network.
    - [Db]: what apps/postgres and apps/mysql share (the route, values, the
      capped collector); [Postgres], [Mysql]: their index.ts, a whole query from
      the pool to the rows; [Tunnel]: their tunnel.ts, a stream over the proxy.
    - [Framing]: cutting messages off a byte stream; [Utf8]: decoding a chunk.
    - [Egress], [GithubBroker]: packages/docker-orchestrator/docker
      (egress-broker.cjs, github-api-broker.cjs), the only ways out of a sandbox.
    - [Governance]: experimental/agents/src (governance.ts, tools.ts);
      [Rpc]: packages/sdk/src (governance-gate.ts, rpc.ts, http-rpc.ts), every
      call of an app's export from its bytes to the answer.
    - [FileLock]: packages/audit/src/file-lock.ts, the system calls of
      interleaving processes that may die.
    - [LineRpc]: packages/docker-orchestrator/src/stdio-rpc.ts, a client with
      many calls over one connection.
    - [EnvFile]: packages/cli/src/util/env-args.ts.
    - [Container]: packages/docker-orchestrator/src/container.ts and the cgroup
      verdict of doctor.ts, what Docker is asked for.
    - [Git]: apps/git/src/index.ts, the commands given to git.
    - [Trace]: computations that leave a trace, and a logic of them whose
      invariant holds after every event.
    - [Agent]: experimental/agents/src (agent.ts, context.ts, guardrails.ts,
      structured-output.ts), the tool-use loop; [AgentFacts]: its theorems, by
      one rule for the loop ([AgentFacts.Invariant]) and four invariants.
    - [Providers]: experimental/agents/src (errors.ts, providers/fallback.ts).
    - [Explain], [RunAudit], [McpCall], [BootSession]: packages/cli/src/util
      (capability-errors.ts, run-audit.ts, mcp-call.ts, mcp-sandbox.ts), a
      session of berth mcp: the calls running at once, what each is answered and
      recorded as, and the sandbox that several sessions look for and boot.
    - [Cancellation], [Stores]: experimental/agents/src (cancellation.ts;
      session.ts, checkpoint.ts), what ends a run and what it is resumed from.
    - [BootEvidence]: docker-orchestrator/src/attest.ts, cli/src/vm/evidence.ts and
      guest-lines.ts, what an attestation reads out of the logs of a boot, in
      which apps print too, and what an ACTIVE verdict over it stands on.
    - [Doctor]: docker-orchestrator/src/doctor.ts and docker-host.ts, which daemon is
      asked, the probe of the kernel, the report of berth doctor, and the cached
      answer a boot, its banner, its cgroups and an attestation go by.
    - [Vm]: cli/src/vm (pins.ts, config.ts, artifacts.ts), which kernel, rootfs and
      berth-vmm are pinned, which sandbox a command uses, and how a pinned
      artifact gets to where berth-vmm looks for it, past sources that fail or lie.
    - [VmSandbox]: cli/src/vm (secrets.ts, control.ts, sandbox.ts) and guest-lines.ts,
      a microVM on the host: the disk its environment travels on, the boot as its
      control port tells it, its log, and the run directory that commands find it
      and stop it by.
    - [Crew]: experimental/agents/src/crew.ts, the compositions of agents and the
      checkpoints they resume from; [CrewFacts] is what a crew that is stopped and
      run again promises.
    - [Wp]: one run of a computation that leaves a trace, with what a failing run
      leaves behind.
    - [Ready]: the polling of experimental/agents/src/computer.ts, with its clock.
    - [Computer]: computer.ts and resolve-apps.ts, booting, joining and stopping a
      computer.
    - [Fleet]: packages/adapters (Kubernetes, E2B, Daytona) behind one interface,
      and fleet-computer.ts, which brings a computer up through any of them.
    - [Network]: network.ts, the peer that is an app of its own computer.
    - [Snapshot]: docker-orchestrator/src/snapshot.ts over a disk whose calls may
      all fail.
    - [ImageCache], [Stage], [Lockfile], [ImageBuild]:
      docker-orchestrator/src/image.ts and app-runtime.ts. The build cache with its
      references and the removal of what a build replaces; what is staged and what
      is left out; the workspace's lockfile under overlapping deploys, a state
      machine; and the build from its staging directory to its removal.
    - [AppLists]: packages/cli/src/util, the apps that share a container and what
      of the host is mounted for them.
    - [Knowledge]: experimental/agents/src/retrieval.ts, eval.ts and tracing.ts over
      the files of [Stores].
    - [Daemons]: packages/sdk/src/semantic-fs and context-bus, the clients of the
      sandbox's daemons: frames, calls and subscriptions.
    - [AppRuntime]: packages/sdk/src, what an app registers, what its process checks
      before it listens, and the check of its exports.
    - [Connector]: connector.ts, apps made from the description of an API.
    - [Terminal]: apps/terminal/src/tmux-controller.ts, the shell's environment, the
      session a human and an agent share, and the output of a command.

    ** How the code is represented

    - A JavaScript string is a [string] of 8-bit code units; text is changed in
      case only for ASCII letters. A number read from text is a [JsNumber.jsnum]
      with its rounding; a number that is always a small integer is a [Z].
      JSON numbers are integers.
    - An object used as a map is its list of own entries ([JsMap], [JsObj]: an
      assignment to [__proto__] adds nothing, [in] and plain reads also find the
      names every object inherits).
    - A thrown error is a constructor of an error type that carries what the
      message names; [option] or [result] marks what can throw.
    - Concurrent code (writers of one audit file, processes at one lock,
      overlapping publishes, calls on one connection) is a step relation whose
      steps are the stretches between two points where another process can run;
      [Prelude.star] is its executions.
    - A loop that is not structural takes fuel, and a lemma or property states
      that enough fuel gives the result (the dependency scan, redaction, the
      page reader, the agent loop, whose fuel is the turns left and two).

    ** Parameters

    The hash function, the reader of YAML and the shape check of zod, SQLite's
    storage, the platform's URL parser, the drivers of the databases, Docker, git,
    the kernel and the network are parameters of the definitions that use them. What is assumed of them is stated as
    hypotheses of the theorem (a hash without collisions on the texts at hand, a
    parser that reads back what was written) and instantiated in its witness.

    ** What is not modelled

    Processes, containers and virtual machines themselves: what Docker, the
    hypervisor, the kernel or a remote provider does with what it is asked is a
    function of the model. The kernel probe, the microVM runtime and the bundle it
    boots, the Rust and Go daemons, the command-line commands but for their
    environment flags, lists of apps and MCP bridge, the Python SDK, the wire
    formats of model providers, the agents' HTTP and A2A servers, and the apps
    that only drive a browser or an interpreter: their code is calls into
    child processes, sockets or services, and the manifest lists each with its
    reason. *)

From Stdlib Require Export Ascii ZArith.
From stdpp Require Export base strings gmap option list.

(** ** Results: a value, or the error a JavaScript function throws *)

Inductive result (E A : Type) : Type :=
| Ok (a : A)
| Err (e : E).
Arguments Ok {E A} a.
Arguments Err {E A} e.

Definition rbind {E A B} (r : result E A) (f : A -> result E B) : result E B :=
  match r with Ok a => f a | Err e => Err e end.

Declare Scope berth_scope.
Delimit Scope berth_scope with berth.
Notation "'let?' x ':=' r 'in' k" := (rbind r (fun x => k))
  (at level 10, x pattern, r at level 100, k at level 200) : berth_scope.
Open Scope berth_scope.

Definition is_ok {E A} (r : result E A) : bool :=
  match r with Ok _ => true | Err _ => false end.

(** ** Automation shared by every component *)

Create HintDb berth.
Create Rewrite HintDb berth_str.

(** Case analysis on every [if] and [match] scrutinee of the goal or a hypothesis. *)
Ltac break_match :=
  match goal with
  | |- context [match ?x with _ => _ end] => destruct x eqn:?
  | H : context [match ?x with _ => _ end] |- _ => destruct x eqn:?
  end.

(** Boolean hypotheses and goals turned into the propositions they decide. *)
Ltac bools :=
  repeat match goal with
  | H : _ && _ = true |- _ => apply andb_true_iff in H; destruct H
  | H : _ || _ = false |- _ => apply orb_false_iff in H; destruct H
  | H : negb _ = true |- _ => apply negb_true_iff in H
  | H : negb _ = false |- _ => apply negb_false_iff in H
  | H : bool_decide _ = true |- _ => apply bool_decide_eq_true in H
  | H : bool_decide _ = false |- _ => apply bool_decide_eq_false in H
  | H : String.eqb _ _ = true |- _ => apply String.eqb_eq in H
  | H : String.eqb _ _ = false |- _ => apply String.eqb_neq in H
  | H : Ascii.eqb _ _ = true |- _ => apply Ascii.eqb_eq in H
  | H : Ascii.eqb _ _ = false |- _ => apply Ascii.eqb_neq in H
  end.

#[global] Arguments Ascii.eqb : simpl never.
#[global] Arguments String.eqb : simpl never.
#[global] Arguments nat_of_ascii : simpl never.
#[global] Arguments String.append : simpl nomatch.

(** ** JavaScript strings *)

(** A JavaScript string is a sequence of 16-bit code units. The development
    keeps the ones below 256, so that a string is Rocq's [string]. *)
Module Str.

Fixpoint all (p : ascii -> bool) (s : string) : bool :=
  match s with
  | EmptyString => true
  | String c s' => p c && all p s'
  end.

Fixpoint any (p : ascii -> bool) (s : string) : bool :=
  match s with
  | EmptyString => false
  | String c s' => p c || any p s'
  end.

Fixpoint map (f : ascii -> ascii) (s : string) : string :=
  match s with
  | EmptyString => EmptyString
  | String c s' => String (f c) (map f s')
  end.

(** [s.slice(n)] and [s.slice(0, n)] for a non-negative [n]. *)
Fixpoint drop (n : nat) (s : string) : string :=
  match n, s with
  | O, _ => s
  | S n', String _ s' => drop n' s'
  | S _, EmptyString => EmptyString
  end.

Fixpoint take (n : nat) (s : string) : string :=
  match n, s with
  | O, _ => EmptyString
  | S n', String c s' => String c (take n' s')
  | S _, EmptyString => EmptyString
  end.

Fixpoint starts_with (p s : string) : bool :=
  match p, s with
  | EmptyString, _ => true
  | String c p', String d s' => Ascii.eqb c d && starts_with p' s'
  | String _ _, EmptyString => false
  end.

Definition ends_with (p s : string) : bool :=
  (String.length p <=? String.length s)
  && String.eqb (drop (String.length s - String.length p) s) p.

(** [s.includes(t)] *)
Fixpoint includes (t s : string) : bool :=
  starts_with t s ||
  match s with
  | EmptyString => false
  | String _ s' => includes t s'
  end.

(** [s.split(c)] for a one-character separator: never the empty list. *)
Fixpoint split (c : ascii) (s : string) : list string :=
  match s with
  | EmptyString => [EmptyString]
  | String d s' =>
      if Ascii.eqb d c then EmptyString :: split c s'
      else match split c s' with
           | w :: ws => String d w :: ws
           | [] => [String d EmptyString]
           end
  end.

(** [ws.join(sep)] *)
Fixpoint join (sep : string) (ws : list string) : string :=
  match ws with
  | [] => EmptyString
  | [w] => w
  | w :: ws' => w +:+ sep +:+ join sep ws'
  end.

(** [s.indexOf(c)], [None] for -1. *)
Fixpoint index_of (c : ascii) (s : string) : option nat :=
  match s with
  | EmptyString => None
  | String d s' => if Ascii.eqb d c then Some 0 else S <$> index_of c s'
  end.

(** [s.lastIndexOf(c)], [None] for -1. *)
Fixpoint last_index_of (c : ascii) (s : string) : option nat :=
  match s with
  | EmptyString => None
  | String d s' =>
      match last_index_of c s' with
      | Some i => Some (S i)
      | None => if Ascii.eqb d c then Some 0 else None
      end
  end.

(** Code units and character classes. *)
Definition code (c : ascii) : nat := nat_of_ascii c.
Definition in_range (lo hi : nat) (c : ascii) : bool :=
  (lo <=? code c) && (code c <=? hi).
Definition is_digit : ascii -> bool := in_range 48 57.
Definition is_lower : ascii -> bool := in_range 97 122.
Definition is_upper : ascii -> bool := in_range 65 90.
Definition is_lower_hex (c : ascii) : bool := is_digit c || in_range 97 102 c.
(** The characters a regular expression's [.] does not match (no [s] flag). *)
Definition is_line_terminator (c : ascii) : bool :=
  (code c =? 10) || (code c =? 13).
(** The white space and line terminators [trim] removes and [\s] matches. *)
Definition is_space (c : ascii) : bool :=
  in_range 9 13 c || (code c =? 32) || (code c =? 160).

(** [toLowerCase] and [toUpperCase] on ASCII letters; see the header for the
    other 8-bit letters. *)
Definition lower_char (c : ascii) : ascii :=
  if is_upper c then ascii_of_nat (code c + 32) else c.
Definition upper_char (c : ascii) : ascii :=
  if is_lower c then ascii_of_nat (code c - 32) else c.
Definition to_lower : string -> string := map lower_char.
Definition to_upper : string -> string := map upper_char.

Fixpoint trim_start (s : string) : string :=
  match s with
  | String c s' => if is_space c then trim_start s' else s
  | EmptyString => EmptyString
  end.
Fixpoint trim_end (s : string) : string :=
  match s with
  | EmptyString => EmptyString
  | String c s' =>
      match trim_end s' with
      | EmptyString => if is_space c then EmptyString else String c EmptyString
      | t => String c t
      end
  end.
Definition trim (s : string) : string := trim_end (trim_start s).

(** The order of [<] on strings: code unit by code unit. *)
Fixpoint ltb (s t : string) : bool :=
  match s, t with
  | EmptyString, String _ _ => true
  | _, EmptyString => false
  | String c s', String d t' =>
      (code c <? code d) || ((code c =? code d) && ltb s' t')
  end.
End Str.

(** *** Lemmas on strings *)

Lemma app_nil_r_str (s : string) : s +:+ "" = s.
Proof. induction s as [|c s IH]; [done|]. change (String c (s +:+ "") = String c s). by rewrite IH. Qed.

Lemma app_assoc_str (s t u : string) : (s +:+ t) +:+ u = s +:+ (t +:+ u).
Proof.
  induction s as [|c s IH]; [done|].
  change (String c ((s +:+ t) +:+ u) = String c (s +:+ (t +:+ u))). by rewrite IH.
Qed.

Lemma app_cons_str c (s t : string) : String c s +:+ t = String c (s +:+ t).
Proof. done. Qed.

Lemma app_empty_str (t : string) : "" +:+ t = t.
Proof. done. Qed.

#[export] Hint Rewrite app_nil_r_str app_assoc_str app_cons_str app_empty_str : berth_str.

Lemma app_inj_r_str (s t u : string) : s +:+ t = s +:+ u -> t = u.
Proof. induction s as [|c s IH]; [done|]. rewrite !app_cons_str. intros [=]; auto. Qed.

Lemma length_app_str (s t : string) :
  String.length (s +:+ t) = String.length s + String.length t.
Proof. induction s as [|c s IH]; [done|]. rewrite app_cons_str; cbn. by rewrite IH. Qed.

Lemma app_inj_length_str (s s' t t' : string) :
  String.length s = String.length s' -> s +:+ t = s' +:+ t' -> s = s' /\ t = t'.
Proof.
  revert s'; induction s as [|c s IH]; intros [|c' s'] Hl; try done; cbn in Hl.
  rewrite !app_cons_str; intros [= -> He].
  destruct (IH s') as [-> ->]; auto.
Qed.

Lemma cons_inj_str c d (s t : string) : String c s = String d t -> s = t.
Proof. by intros [= _ ->]. Qed.

Lemma length_0_str (s : string) : String.length s = 0 -> s = "".
Proof. by destruct s. Qed.

Module StrFacts.
Import Str.

Lemma drop_app s t : drop (String.length s) (s +:+ t) = t.
Proof. induction s as [|c s IH]; [by destruct t|]. rewrite app_cons_str; cbn. apply IH. Qed.

Lemma take_drop n s : take n s +:+ drop n s = s.
Proof.
  revert n; induction s as [|c s IH]; intros [|n]; try done.
  cbn [take drop]. rewrite app_cons_str. by rewrite IH.
Qed.

Lemma take_app s t : take (String.length s) (s +:+ t) = s.
Proof. induction s as [|c s IH]; [by destruct t|]. rewrite app_cons_str; cbn. by rewrite IH. Qed.

Lemma take_app_le n s t : n <= String.length s -> take n (s +:+ t) = take n s.
Proof.
  revert n; induction s as [|c s IH]; intros [|n] Hn; rewrite ?app_cons_str; cbn in *; try done; [lia|].
  by rewrite IH by lia.
Qed.

Lemma take_ge n s : String.length s <= n -> take n s = s.
Proof.
  revert n; induction s as [|c s IH]; intros [|n] Hn; cbn in *; try done; [lia|].
  by rewrite IH by lia.
Qed.

Lemma length_take n s : String.length (take n s) = min n (String.length s).
Proof. revert n; induction s as [|c s IH]; intros [|n]; cbn; auto. Qed.

Lemma length_drop n s : String.length (drop n s) = String.length s - n.
Proof. revert n; induction s as [|c s IH]; intros [|n]; cbn; auto. Qed.

Lemma starts_with_spec p s : starts_with p s = true <-> exists t, s = p +:+ t.
Proof.
  revert s; induction p as [|c p IH]; intros s.
  - split; [by exists s|done].
  - destruct s as [|d s]; cbn [starts_with].
    + split; [done|by intros [t Ht]].
    + rewrite andb_true_iff, IH, Ascii.eqb_eq. split.
      * intros [-> [t ->]]. by exists t.
      * intros [t [= -> ->]]. eauto.
Qed.

Lemma starts_with_refl s t : starts_with s (s +:+ t) = true.
Proof. apply starts_with_spec; eauto. Qed.

Lemma ends_with_spec p s : ends_with p s = true <-> exists t, s = t +:+ p.
Proof.
  unfold ends_with. rewrite andb_true_iff, Nat.leb_le, String.eqb_eq. split.
  - intros [Hle He]. exists (take (String.length s - String.length p) s).
    rewrite <- He at 2. by rewrite take_drop.
  - intros [t ->]. rewrite length_app_str. split; [lia|].
    replace (String.length t + String.length p - String.length p)
      with (String.length t) by lia.
    apply drop_app.
Qed.

Lemma includes_spec t s : includes t s = true <-> exists a b, s = a +:+ t +:+ b.
Proof.
  induction s as [|c s IH]; cbn [includes]; rewrite orb_true_iff, starts_with_spec.
  - split.
    + intros [[b Hb]|?]; [by exists "", b|done].
    + intros (a & b & Hab). destruct a as [|? a]; [left; by exists b|done].
  - rewrite IH. split.
    + intros [[b Hb]|(a & b & ->)]; [by exists "", b|by exists (String c a), b].
    + intros (a & b & Hab). destruct a as [|d a]; [left; by exists b|].
      rewrite app_cons_str in Hab. injection Hab as -> ->. eauto.
Qed.

Lemma all_app p s t : all p (s +:+ t) = all p s && all p t.
Proof. induction s as [|c s IH]; [done|]. rewrite app_cons_str; cbn. by rewrite IH, andb_assoc. Qed.

Lemma any_app p s t : any p (s +:+ t) = any p s || any p t.
Proof. induction s as [|c s IH]; [done|]. rewrite app_cons_str; cbn. by rewrite IH, orb_assoc. Qed.

Lemma any_negb_all p s : any p s = negb (all (fun c => negb (p c)) s).
Proof. induction s as [|c s IH]; cbn; [done|]. rewrite IH. by destruct (p c). Qed.

Lemma all_impl (p q : ascii -> bool) s :
  (forall c, p c = true -> q c = true) -> all p s = true -> all q s = true.
Proof.
  intros Hpq; induction s as [|c s IH]; cbn; [done|].
  rewrite !andb_true_iff. intros [? ?]; auto.
Qed.

Lemma split_nonempty c s : split c s <> [].
Proof. induction s as [|d s IH]; cbn; [done|]. by repeat case_match. Qed.

(** [s.split(c).join(c) === s]. *)
Lemma join_split c s : join (String c "") (split c s) = s.
Proof.
  induction s as [|d s IH]; [done|]. cbn [split].
  destruct (split c s) as [|w ws] eqn:E; [by destruct (split_nonempty c s)|].
  destruct (Ascii.eqb_spec d c) as [->|Hne].
  - change (String c (join (String c "") (w :: ws)) = String c s). by rewrite IH.
  - destruct ws as [|w' ws]; cbn [join] in *; rewrite ?app_cons_str, <- IH; done.
Qed.

(** No piece of a split contains the separator. *)
Lemma split_pieces c s : Forall (fun w => any (Ascii.eqb c) w = false) (split c s).
Proof.
  induction s as [|d s IH]; cbn [split]; [by constructor|].
  destruct (Ascii.eqb_spec d c) as [->|Hne]; [by constructor|].
  destruct (split c s) as [|w ws]; inversion_clear IH; constructor; auto; cbn.
  - apply orb_false_iff; split; [by apply Ascii.eqb_neq|done].
  - apply orb_false_iff; split; [by apply Ascii.eqb_neq|done].
Qed.

(** A string without the separator is split into itself. *)
Lemma split_single c s : any (Ascii.eqb c) s = false -> split c s = [s].
Proof.
  induction s as [|d s IH]; cbn; [done|]. rewrite orb_false_iff. intros [Hd Hs].
  rewrite Ascii.eqb_sym, Hd, IH; done.
Qed.

Lemma split_app c s t :
  any (Ascii.eqb c) s = false -> split c (s +:+ String c t) = s :: split c t.
Proof.
  induction s as [|d s IH]; intros Hs.
  - rewrite app_empty_str. cbn. by rewrite Ascii.eqb_refl.
  - rewrite app_cons_str. cbn in *. apply orb_false_iff in Hs as [Hd Hs].
    by rewrite Ascii.eqb_sym, Hd, IH.
Qed.

Lemma split_sep c s t : split c (s +:+ String c t) = split c s ++ split c t.
Proof.
  induction s as [|d s IH]; [rewrite app_empty_str; cbn; by rewrite Ascii.eqb_refl|].
  rewrite app_cons_str. cbn [split]. rewrite IH. destruct (Ascii.eqb d c); [done|].
  destruct (split c s) as [|w ws] eqn:E; [by apply split_nonempty in E|done].
Qed.

Lemma split_join c ws :
  ws <> [] -> Forall (fun w => any (Ascii.eqb c) w = false) ws ->
  split c (join (String c "") ws) = ws.
Proof.
  intros Hne H. induction H as [|w ws Hw Hws IH]; [done|].
  destruct ws as [|w' ws]; [by apply split_single|].
  change (join (String c "") (w :: w' :: ws))
    with (w +:+ String c (join (String c "") (w' :: ws))).
  rewrite split_app by done. f_equal. by apply IH.
Qed.

End StrFacts.

(** ** JavaScript [Set]: values in insertion order, each once *)
Module JsSet.
Section jsset.
Context {A : Type} `{EqDecision A}.

Definition add (x : A) (l : list A) : list A :=
  if decide (x ∈ l) then l else l ++ [x].

(** [new Set(xs)], and adding each of [xs] in turn. *)
Definition add_all (l xs : list A) : list A := foldl (fun acc x => add x acc) l xs.
Definition of_list (xs : list A) : list A := add_all [] xs.

Lemma elem_of_add x y l : y ∈ add x l <-> y = x \/ y ∈ l.
Proof. unfold add. case_decide; set_solver. Qed.

Lemma elem_of_add_all y l xs : y ∈ add_all l xs <-> y ∈ l \/ y ∈ xs.
Proof.
  revert l; induction xs as [|x xs IH]; intros l; cbn; [set_solver|].
  unfold add_all in IH. rewrite IH, elem_of_add. set_solver.
Qed.

Lemma elem_of_of_list y xs : y ∈ of_list xs <-> y ∈ xs.
Proof. unfold of_list. rewrite elem_of_add_all. set_solver. Qed.

Lemma NoDup_add x l : NoDup l -> NoDup (add x l).
Proof.
  intros H. unfold add. case_decide; [done|].
  apply NoDup_app. split_and!; [done|set_solver|apply NoDup_singleton].
Qed.

Lemma NoDup_add_all l xs : NoDup l -> NoDup (add_all l xs).
Proof. revert l; induction xs as [|x xs IH]; intros l H; cbn; [done|]. by apply IH, NoDup_add. Qed.

Lemma NoDup_of_list xs : NoDup (of_list xs).
Proof. apply NoDup_add_all, NoDup_nil_2. Qed.

Lemma Forall_add (P : A -> Prop) x l : P x -> Forall P l -> Forall P (add x l).
Proof. intros. unfold add. case_decide; [done|]. by apply Forall_app_2; [|apply Forall_singleton]. Qed.

Lemma Forall_add_all (P : A -> Prop) l xs : Forall P l -> Forall P xs -> Forall P (add_all l xs).
Proof. rewrite !Forall_forall. intros ?? x. rewrite elem_of_add_all. naive_solver. Qed.
End jsset.
End JsSet.

#[export] Hint Resolve JsSet.NoDup_add JsSet.NoDup_add_all JsSet.NoDup_of_list
  JsSet.Forall_add JsSet.Forall_add_all : berth.

(** ** JavaScript [Map]: entries in insertion order, a key at most once *)
Module JsMap.
Section jsmap.
Context {K A : Type} `{EqDecision K}.

Fixpoint get (k : K) (m : list (K * A)) : option A :=
  match m with
  | [] => None
  | (k', v) :: m' => if decide (k = k') then Some v else get k m'
  end.

(** [m.set(k, v)]: in place if the key is there, else appended. *)
Fixpoint put (k : K) (v : A) (m : list (K * A)) : list (K * A) :=
  match m with
  | [] => [(k, v)]
  | (k', v') :: m' => if decide (k = k') then (k, v) :: m' else (k', v') :: put k v m'
  end.

Definition remove (k : K) (m : list (K * A)) : list (K * A) :=
  filter (fun kv => kv.1 <> k) m.

Definition has (k : K) (m : list (K * A)) : bool :=
  match get k m with Some _ => true | None => false end.

Lemma get_put_eq k v m : get k (put k v m) = Some v.
Proof.
  induction m as [|[k' v'] m IH]; cbn; [by rewrite decide_True|].
  case_decide; cbn; [by rewrite decide_True|by rewrite decide_False].
Qed.

Lemma get_put_ne k k' v m : k <> k' -> get k (put k' v m) = get k m.
Proof.
  intros Hne. induction m as [|[k'' v''] m IH]; cbn; [by rewrite decide_False|].
  destruct (decide (k' = k'')) as [->|]; cbn.
  - by destruct (decide (k = k'')).
  - by rewrite IH.
Qed.

Lemma get_put k k' v m :
  get k (put k' v m) = if decide (k = k') then Some v else get k m.
Proof. case_decide; subst; auto using get_put_eq, get_put_ne. Qed.

Lemma keys_put k v m : (put k v m).*1 = if decide (k ∈ m.*1) then m.*1 else m.*1 ++ [k].
Proof.
  induction m as [|[k' v'] m IH]; cbn; [done|].
  destruct (decide (k = k')) as [->|Hne].
  - rewrite decide_True by set_solver. done.
  - cbn. rewrite IH. destruct (decide (k ∈ m.*1)).
    + by rewrite decide_True by set_solver.
    + by rewrite decide_False by set_solver.
Qed.

Lemma NoDup_put k v m : NoDup m.*1 -> NoDup (put k v m).*1.
Proof.
  intros H. rewrite keys_put. case_decide; [done|].
  apply NoDup_app. split_and!; [done|set_solver|apply NoDup_singleton].
Qed.

Lemma get_elem_of k v m : get k m = Some v -> (k, v) ∈ m.
Proof.
  induction m as [|[k' v'] m IH]; cbn; [done|].
  case_decide; [intros [= ->]; subst; apply list_elem_of_here|].
  intros; apply list_elem_of_further; auto.
Qed.

Lemma elem_of_get k v m : NoDup m.*1 -> (k, v) ∈ m -> get k m = Some v.
Proof.
  induction m as [|[k' v'] m IH]; cbn; [set_solver|].
  rewrite NoDup_cons, elem_of_cons. intros [Hk Hnd] [[= -> ->]|Hin].
  - by rewrite decide_True.
  - rewrite decide_False; [auto|]. intros ->. apply Hk.
    apply list_elem_of_fmap. by exists (k', v).
Qed.

Lemma get_None k m : get k m = None <-> k ∉ m.*1.
Proof.
  induction m as [|[k' v'] m IH]; cbn; [set_solver|].
  destruct (decide (k = k')) as [->|]; [set_solver|]. rewrite IH. set_solver.
Qed.

Lemma get_remove_eq k m : get k (remove k m) = None.
Proof.
  apply get_None. intros ([k' v] & -> & Hin)%list_elem_of_fmap.
  by apply list_elem_of_filter in Hin as [? _].
Qed.

Lemma get_remove_ne k k' m : k <> k' -> get k (remove k' m) = get k m.
Proof.
  intros Hne. unfold remove. induction m as [|[k'' v] m IH]; [done|].
  rewrite filter_cons. cbn [fst].
  destruct (decide (k'' <> k')) as [H|H]; cbn [get].
  - by rewrite IH.
  - rewrite IH. rewrite decide_False; [done|]. apply dec_stable in H. congruence.
Qed.

Lemma NoDup_remove k m : NoDup m.*1 -> NoDup (remove k m).*1.
Proof.
  unfold remove. induction m as [|[k' v] m IH]; [done|].
  cbn [fmap list_fmap fst]. rewrite NoDup_cons. intros [Hk Hnd].
  rewrite filter_cons. case_decide; [|by apply IH].
  cbn [fmap list_fmap fst]. apply NoDup_cons. split; [|by apply IH].
  intros (kv & -> & Hin)%list_elem_of_fmap. apply Hk.
  apply list_elem_of_fmap. exists kv. split; [done|].
  by apply list_elem_of_filter in Hin as [_ ?].
Qed.
End jsmap.
End JsMap.

#[export] Hint Resolve JsMap.NoDup_put JsMap.NoDup_remove : berth.
#[export] Hint Resolve NoDup_nil_2 : berth.

(** ** JavaScript objects used as string maps

    An object's own entries are a [JsMap]. Two differences from a [Map] matter
    to code that writes keys it did not choose: assigning to ["__proto__"]
    reaches the accessor on [Object.prototype] and adds no entry, and [in] (like
    a plain read) also finds the names every object inherits. *)
Module JsObj.
Definition inherited : list string :=
  ["constructor"; "__defineGetter__"; "__defineSetter__"; "hasOwnProperty";
   "__lookupGetter__"; "__lookupSetter__"; "isPrototypeOf";
   "propertyIsEnumerable"; "toString"; "valueOf"; "__proto__"; "toLocaleString"].

Definition assign {A} (k : string) (v : A) (o : list (string * A)) : list (string * A) :=
  if String.eqb k "__proto__" then o else JsMap.put k v o.

(** [k in o] *)
Definition inb {A} (k : string) (o : list (string * A)) : bool :=
  JsMap.has k o || bool_decide (k ∈ inherited).

Lemma get_assign {A} k k' (v : A) o :
  k' <> "__proto__" ->
  JsMap.get k (assign k' v o) = if decide (k = k') then Some v else JsMap.get k o.
Proof. intros H. unfold assign. apply String.eqb_neq in H as ->. apply JsMap.get_put. Qed.
End JsObj.

(** ** Options *)

Definition or_default {A} (d : A) (o : option A) : A :=
  match o with Some a => a | None => d end.

(** ** Lists *)

Lemma filter_Forall {A} (P : A -> Prop) `{forall x, Decision (P x)} (l : list A) :
  Forall P l -> filter P l = l.
Proof. induction 1 as [|x l Hx Hl IH]; [done|]. by rewrite filter_cons_True, IH. Qed.

(** ** Executions of a step relation *)
Section star.
Context {S : Type} (step : S -> S -> Prop).

Inductive star : S -> S -> Prop :=
| star_refl s : star s s
| star_cons s1 s2 s3 : step s1 s2 -> star s2 s3 -> star s1 s3.

Lemma star_invariant (Inv : S -> Prop) s s' :
  (forall s1 s2, Inv s1 -> step s1 s2 -> Inv s2) -> Inv s -> star s s' -> Inv s'.
Proof. intros Hstep Hs Hst. induction Hst; eauto. Qed.

Lemma star_trans s1 s2 s3 : star s1 s2 -> star s2 s3 -> star s1 s3.
Proof. induction 1; eauto using star. Qed.

Lemma star_one s1 s2 : step s1 s2 -> star s1 s2.
Proof. eauto using star. Qed.
End star.
