(* ===== verification/Glob.v ===== *)
(** * Globs as the regular expressions the code builds from them

    Four places turn a glob into a [RegExp] and test a whole string against it:
    [globToRegExp] in packages/manifest-schema/src/capability.ts, its mirror in
    packages/mesh-coordinator/src/glob.ts, and the two copies in
    apps/web-fetch/src/hosts.ts and apps/mysql/src/hosts.ts (apps/postgres has
    a third). The first two do not escape [?], so a [?] in a glob is a
    quantifier of the regular expression; the last ones escape it.

    [compile] is the fragment of the regular-expression grammar those patterns
    stay in, [matches] the full-string test [^...$], and [glob_matches] the
    declarative meaning a glob is documented to have ("only * is a wildcard"). *)
From S2P Require Import Prelude.

Module Glob.

(** What one item of the built pattern matches: a literal (escaped or not),
    an optional literal [c?] (greedy or lazy), or [.*]. *)
Inductive ratom : Type :=
| RLit (c : ascii)
| ROpt (c : ascii)
| RDots.

(** [new RegExp] throws a SyntaxError on a quantifier with nothing to repeat. *)
Inductive regexp_error : Type := NothingToRepeat.

Definition star_char : ascii := "*".
Definition quest_char : ascii := "?".

(** The RegExp built from a glob whose [?] is left unescaped: [?] right after
    [^], or right after a quantifier that is already complete, has nothing to
    repeat; [c??] and [.*?] are the lazy forms. *)
Fixpoint compile (g : string) : result regexp_error (list ratom) :=
  match g with
  | EmptyString => Ok []
  | String c g1 =>
      if Ascii.eqb c quest_char then Err NothingToRepeat
      else if Ascii.eqb c star_char then
        match g1 with
        | String d g2 =>
            if Ascii.eqb d quest_char
            then let? p := compile g2 in Ok (RDots :: p)
            else let? p := compile g1 in Ok (RDots :: p)
        | EmptyString => Ok [RDots]
        end
      else
        match g1 with
        | String d g2 =>
            if Ascii.eqb d quest_char then
              match g2 with
              | String e g3 =>
                  if Ascii.eqb e quest_char
                  then let? p := compile g3 in Ok (ROpt c :: p)
                  else let? p := compile g2 in Ok (ROpt c :: p)
              | EmptyString => Ok [ROpt c]
              end
            else let? p := compile g1 in Ok (RLit c :: p)
        | EmptyString => Ok [RLit c]
        end
  end.

(** The RegExp built from a glob whose [?] is escaped: it always compiles. *)
Fixpoint compile_escaped (g : string) : list ratom :=
  match g with
  | EmptyString => []
  | String c g' =>
      (if Ascii.eqb c star_char then RDots else RLit c) :: compile_escaped g'
  end.

(** [re.test(s)] for the anchored pattern: is there a match of all of [s]? *)
Fixpoint matches (p : list ratom) (s : string) : bool :=
  match p with
  | [] => match s with EmptyString => true | _ => false end
  | RLit c :: p' =>
      match s with String d s' => Ascii.eqb c d && matches p' s' | EmptyString => false end
  | ROpt c :: p' =>
      matches p' s ||
      match s with String d s' => Ascii.eqb c d && matches p' s' | EmptyString => false end
  | RDots :: p' =>
      (fix dots (s : string) : bool :=
         matches p' s ||
         match s with
         | String d s' => negb (Str.is_line_terminator d) && dots s'
         | EmptyString => false
         end) s
  end.

(** The glob's documented meaning: [*] stands for any run of characters (of
    one line), every other character for itself. *)
Inductive glob_matches : string -> string -> Prop :=
| gm_nil : glob_matches "" ""
| gm_char c g s : c <> star_char -> glob_matches g s -> glob_matches (String c g) (String c s)
| gm_star t g s :
    Str.all (fun c => negb (Str.is_line_terminator c)) t = true ->
    glob_matches g s -> glob_matches (String star_char g) (t +:+ s).

Definition no_quest (g : string) : bool := negb (Str.any (Ascii.eqb quest_char) g).
Definition one_line (s : string) : bool := Str.all (fun c => negb (Str.is_line_terminator c)) s.

(** ** Lemmas *)

Lemma no_quest_cons c g :
  no_quest (String c g) = true <-> c <> quest_char /\ no_quest g = true.
Proof.
  unfold no_quest; cbn. rewrite negb_orb, andb_true_iff, negb_true_iff, Ascii.eqb_neq.
  naive_solver.
Qed.

Lemma compile_no_quest g : no_quest g = true -> compile g = Ok (compile_escaped g).
Proof.
  induction g as [|c g IH]; [done|]. intros [Hc Hg]%no_quest_cons.
  specialize (IH Hg). cbn [compile compile_escaped].
  apply Ascii.eqb_neq in Hc as ->.
  destruct g as [|d g]; [by destruct (Ascii.eqb c star_char)|].
  apply no_quest_cons in Hg as [Hd _]. apply Ascii.eqb_neq in Hd.
  rewrite Hd, IH. by destruct (Ascii.eqb c star_char).
Qed.

Lemma matches_dots p s :
  matches (RDots :: p) s = true <->
  exists t u, s = t +:+ u /\ one_line t = true /\ matches p u = true.
Proof.
  change (matches (RDots :: p) s) with
    ((fix dots (s : string) : bool :=
        matches p s ||
        match s with
        | String d s' => negb (Str.is_line_terminator d) && dots s'
        | EmptyString => false
        end) s).
  induction s as [|d s IH]; rewrite orb_true_iff.
  - split.
    + intros [H|H]; [exists "", ""; by rewrite app_empty_str|done].
    + intros (t & u & Htu & _ & Hu). left. destruct t; [|done]. by destruct u.
  - rewrite andb_true_iff, IH. split.
    + intros [H|(Hd & t & u & -> & Ht & Hu)]; [exists "", (String d s); by rewrite app_empty_str|].
      exists (String d t), u. unfold one_line in *; cbn. by rewrite Hd.
    + intros (t & u & Htu & Ht & Hu). destruct t as [|d' t].
      * left. rewrite app_empty_str in Htu. by subst.
      * rewrite app_cons_str in Htu. injection Htu as -> ->. right.
        unfold one_line in *; cbn in Ht. apply andb_true_iff in Ht as [? ?].
      split; [done|]. by exists t, u.
Qed.

Lemma compile_escaped_spec g s :
  matches (compile_escaped g) s = true <-> glob_matches g s.
Proof.
  revert s; induction g as [|c g IH]; intros s; cbn [compile_escaped].
  - split.
    + destruct s; [constructor|done].
    + by inversion 1.
  - destruct (Ascii.eqb_spec c star_char) as [->|Hc].
    + rewrite matches_dots. split.
      * intros (t & u & -> & Ht & Hu). constructor; [done|by apply IH].
      * inversion 1; subst; [done|]. eexists _, _. split_and!; [done..|by apply IH].
    + cbn [matches]. split.
      * destruct s as [|d s]; [done|]. intros [Hd Hs]%andb_true_iff.
        apply Ascii.eqb_eq in Hd as ->. constructor; [done|by apply IH].
      * inversion 1; subst; [|done]. by rewrite Ascii.eqb_refl, (proj2 (IH _)).
Qed.

(** A glob of one line matches itself read as a plain string. *)
Lemma glob_matches_refl g : one_line g = true -> glob_matches g g.
Proof.
  unfold one_line. induction g as [|c g IH]; cbn; [constructor|].
  rewrite andb_true_iff. intros [Hc Hg]. destruct (decide (c = star_char)) as [->|Hne].
  - apply (gm_star (String star_char "") g g); [done|auto].
  - by constructor; auto.
Qed.

Lemma glob_matches_no_star g s :
  Str.any (Ascii.eqb star_char) g = false -> glob_matches g s <-> s = g.
Proof.
  revert s; induction g as [|c g IH]; intros s; cbn.
  - intros _. split; [by inversion 1|intros ->; constructor].
  - rewrite orb_false_iff. intros [Hc Hg]. apply Ascii.eqb_neq in Hc. split.
    + inversion 1; subst; [|done]. f_equal. by apply IH.
    + intros ->. constructor; [done|by apply IH].
Qed.

(** [*suffix] covers exactly the one-line strings that end in the suffix. *)
Lemma glob_matches_star_prefix g s :
  Str.any (Ascii.eqb star_char) g = false ->
  glob_matches (String star_char g) s <-> exists t, s = t +:+ g /\ one_line t = true.
Proof.
  intros Hg. split.
  - inversion 1 as [|c g' s' Hc|t g' u Ht Hu]; subst; [done|].
    apply (glob_matches_no_star _ _ Hg) in Hu as ->. eauto.
  - intros (t & -> & Ht). constructor; [done|by apply glob_matches_no_star].
Qed.

End Glob.

#[export] Hint Resolve Glob.glob_matches_refl : berth.
