(* ===== verification/Capability.v ===== *)
(** * Capability strings

    packages/manifest-schema/src/capability.ts (the parser, the filesystem-scope
    rules and the matcher), the [CapabilityString] grammar of
    packages/manifest-schema/src/schema.ts, and packages/sdk/src/capabilities.ts
    ([requestCapability]). *)
From S2P Require Import Prelude Glob.

Module Capability.

Record ParsedCapability : Type := {
  namespace : string;
  action : string;
  scope : string;
}.

(** What the code throws: [parseCapability]'s Error, or the SyntaxError of a
    RegExp built from a glob. *)
Inductive capability_error : Type :=
| InvalidCapabilityString (capability : string)
| InvalidRegExp (e : Glob.regexp_error).

Definition colon : ascii := ":".
Definition slash : ascii := "/".

Definition parseCapability (capability : string) : result capability_error ParsedCapability :=
  match Str.split colon capability with
  | ns :: act :: scopeParts =>
      if length scopeParts <? 1 then Err (InvalidCapabilityString capability)
      else Ok {| namespace := ns; action := act; scope := Str.join ":" scopeParts |}
  | _ => Err (InvalidCapabilityString capability)
  end.

(** The inverse, for the round trip below. *)
Definition print_capability (p : ParsedCapability) : string :=
  namespace p +:+ ":" +:+ action p +:+ ":" +:+ scope p.

(** ** The [CapabilityString] grammar:
    [/^[a-z0-9_-]+:[a-z0-9_-]+:.+$/]. The two classes hold no colon, so the
    first two colons are where the match splits. *)
Definition name_char (c : ascii) : bool :=
  Str.is_lower c || Str.is_digit c || Ascii.eqb c "_" || Ascii.eqb c "-".

Definition nonempty (s : string) : bool :=
  match s with EmptyString => false | _ => true end.

Definition CapabilityString (s : string) : bool :=
  match parseCapability s with
  | Ok p =>
      nonempty (namespace p) && Str.all name_char (namespace p)
      && nonempty (action p) && Str.all name_char (action p)
      && nonempty (scope p) && Glob.one_line (scope p)
  | Err _ => false
  end.

(** ** Filesystem scopes *)

Definition ALLOWED_FILESYSTEM_SCOPE_PREFIXES : list string :=
  ["/workspace"; "/context"; "/tmp"; "/app"].

(** Why a scope is refused, one constructor per message of the code. *)
Inductive issue : Type :=
| NullByte
| NotAbsolute (scope : string)
| StrayGlob (scope : string)
| EntireFilesystem
| NotCanonical (scope : string)
| OutsideAllowed (scope : string)
| InsideNodeModules (scope : string)
| Malformed (capability : string).

(** [scope.endsWith("/*") ? scope.slice(0, -2) : scope] *)
Definition stripTrailingGlob (scope : string) : string :=
  if Str.ends_with "/*" scope then Str.take (String.length scope - 2) scope else scope.

Definition isWithin (path dir : string) : bool :=
  String.eqb path dir || Str.starts_with (dir +:+ "/") path.

(** The segments refused: empty, dot and dot-dot. *)
Definition bad_segment (w : string) : bool :=
  String.eqb w "" || String.eqb w "." || String.eqb w "..".

Definition filesystemScopeIssue (scope : string) : option issue :=
  if Str.any (Ascii.eqb "000") scope then Some NullByte
  else if negb (Str.starts_with "/" scope) then Some (NotAbsolute scope)
  else
    let path := stripTrailingGlob scope in
    if Str.any (Ascii.eqb "*") path then Some (StrayGlob scope)
    else if String.eqb path "/" then Some EntireFilesystem
    else
      let segments := Str.split slash (Str.drop 1 path) in
      if existsb bad_segment segments then Some (NotCanonical scope)
      else
        let allowed := existsb (fun prefix => isWithin path prefix)
                         ALLOWED_FILESYSTEM_SCOPE_PREFIXES in
        if negb allowed then Some (OutsideAllowed scope) else None.

Definition filesystemWriteScopeIssue (scope : string) : option issue :=
  match filesystemScopeIssue scope with
  | Some i => Some i
  | None =>
      let path := stripTrailingGlob scope in
      if existsb (String.eqb "node_modules") (Str.split slash path)
      then Some (InsideNodeModules scope) else None
  end.

Definition capabilityIssue (capability : string) : option issue :=
  match parseCapability capability with
  | Err _ => Some (Malformed capability)
  | Ok parsed =>
      if String.eqb (namespace parsed) "filesystem" && String.eqb (action parsed) "write"
      then filesystemWriteScopeIssue (scope parsed)
      else if String.eqb (namespace parsed) "filesystem" && String.eqb (action parsed) "read"
      then filesystemScopeIssue (scope parsed)
      else None
  end.

(** ** Matching *)

(** [globToRegExp(glob).test(s)] *)
Definition globToRegExp_test (glob s : string) : result capability_error bool :=
  match Glob.compile glob with
  | Ok p => Ok (Glob.matches p s)
  | Err e => Err (InvalidRegExp e)
  end.

Definition matchesCapability (granted requested : string) : result capability_error bool :=
  let? g := parseCapability granted in
  let? r := parseCapability requested in
  if negb (String.eqb (namespace g) (namespace r)) || negb (String.eqb (action g) (action r))
  then Ok false
  else globToRegExp_test (scope g) (scope r).

(** ** [requestCapability] (packages/sdk/src/capabilities.ts)

    [policy] is what [readPolicyDeclaredCapabilities] read ([None] for no
    usable policy file), [manifest] what [loadManifest] resolves or rejects
    with. The promise is created on the first call and kept for the life of
    the process, a rejected one included. *)
Section requestCapability.
Context {E : Type}.

Inductive request_error : Type :=
| ManifestError (e : E)
| MatchError (e : capability_error).

Definition declaredCapabilities
    (cache : option (result E (list string)))
    (policy : option (list string)) (manifest : result E (list string))
    : result E (list string) * option (result E (list string)) :=
  match cache with
  | Some r => (r, cache)
  | None =>
      let r := match policy with Some l => Ok l | None => manifest end in
      (r, Some r)
  end.

(** [declared.some((g) => matchesCapability(g, capability))]: stops at the
    first match, and a throw propagates. *)
Fixpoint some_matches (declared : list string) (capability : string)
    : result capability_error bool :=
  match declared with
  | [] => Ok false
  | g :: gs =>
      let? b := matchesCapability g capability in
      if b then Ok true else some_matches gs capability
  end.

Definition requestCapability cache policy manifest (capability : string)
    : result request_error bool * option (result E (list string)) :=
  let '(declared, cache') := declaredCapabilities cache policy manifest in
  (match declared with
   | Err e => Err (ManifestError e)
   | Ok l =>
       match some_matches l capability with
       | Ok granted => Ok granted
       | Err e => Err (MatchError e)
       end
   end, cache').
End requestCapability.

(** ** What an accepted filesystem scope means *)

Definition good_segment (w : string) : Prop :=
  w <> "" /\ w <> "." /\ w <> ".." /\
  Str.any (Ascii.eqb slash) w = false /\
  Str.any (Ascii.eqb "*") w = false /\ Str.any (Ascii.eqb "000") w = false.

(** An absolute path with at least one segment and nothing to resolve away. *)
Definition canonical (p : string) : Prop :=
  exists segments, segments <> [] /\ p = "/" +:+ Str.join "/" segments /\
    Forall good_segment segments.

Definition beneath (dir p : string) : Prop := p = dir \/ exists r, p = dir +:+ "/" +:+ r.

Definition under_allowed (p : string) : Prop :=
  exists prefix, prefix ∈ ALLOWED_FILESYSTEM_SCOPE_PREFIXES /\ beneath prefix p.

(** ** Lemmas *)

Lemma isWithin_spec path dir : isWithin path dir = true <-> beneath dir path.
Proof.
  unfold isWithin, beneath. rewrite orb_true_iff, String.eqb_eq, StrFacts.starts_with_spec.
  setoid_rewrite app_assoc_str. done.
Qed.

Lemma stripTrailingGlob_cases s :
  (s = stripTrailingGlob s +:+ "/*") \/
  (s = stripTrailingGlob s /\ forall t, s <> t +:+ "/*").
Proof.
  unfold stripTrailingGlob. destruct (Str.ends_with "/*" s) eqn:E.
  - left. apply StrFacts.ends_with_spec in E as [t ->].
    rewrite length_app_str. cbn [String.length].
    replace (String.length t + 2 - 2) with (String.length t) by lia.
    by rewrite StrFacts.take_app.
  - right. split; [done|]. intros t ->.
    assert (Str.ends_with "/*" (t +:+ "/*") = true) by (apply StrFacts.ends_with_spec; eauto).
    congruence.
Qed.

Lemma stripTrailingGlob_app p : stripTrailingGlob (p +:+ "/*") = p.
Proof.
  destruct (stripTrailingGlob_cases (p +:+ "/*")) as [H|[_ H]]; [|by edestruct H].
  assert (String.length p = String.length (stripTrailingGlob (p +:+ "/*"))).
  { apply (f_equal String.length) in H. rewrite !length_app_str in H.
    cbn [String.length] in H. lia. }
  by destruct (app_inj_length_str _ _ _ _ H0 H).
Qed.

Lemma any_join p sep ws :
  Str.any p sep = false ->
  Str.any p (Str.join sep ws) = existsb (Str.any p) ws.
Proof.
  intros Hs. induction ws as [|w ws IH]; [done|].
  destruct ws as [|w' ws]; [by destruct (Str.any p w) eqn:E; cbn; rewrite E|].
  change (Str.join sep (w :: w' :: ws)) with (w +:+ sep +:+ Str.join sep (w' :: ws)).
  rewrite !StrFacts.any_app, Hs, IH. done.
Qed.

Lemma existsb_false_Forall {A} (f : A -> bool) l :
  existsb f l = false <-> Forall (fun x => f x = false) l.
Proof.
  induction l as [|x l IH]; cbn; [by split; [constructor|]|].
  by rewrite orb_false_iff, IH, Forall_cons.
Qed.

Lemma existsb_elem_of {A} (f : A -> bool) l :
  existsb f l = true <-> exists x, x ∈ l /\ f x = true.
Proof.
  rewrite existsb_exists. split; intros (x & Hx & Hf); exists x;
    split; auto; by apply list_elem_of_In.
Qed.

Lemma bad_segment_false w : bad_segment w = false <-> w <> "" /\ w <> "." /\ w <> "..".
Proof. unfold bad_segment. rewrite !orb_false_iff, !String.eqb_neq. naive_solver. Qed.

Lemma canonical_of_segments p :
  Str.any (Ascii.eqb "*") p = false -> Str.any (Ascii.eqb "000") p = false ->
  existsb bad_segment (Str.split slash p) = false ->
  canonical ("/" +:+ p).
Proof.
  intros Hstar Hnul Hseg. exists (Str.split slash p). split_and!.
  - apply StrFacts.split_nonempty.
  - by rewrite (StrFacts.join_split slash).
  - rewrite <- (StrFacts.join_split slash p), any_join, existsb_false_Forall in Hstar by done.
    rewrite <- (StrFacts.join_split slash p), any_join, existsb_false_Forall in Hnul by done.
    apply existsb_false_Forall in Hseg. pose proof (StrFacts.split_pieces slash p) as Hsl.
    rewrite Forall_forall in *. intros w Hw. unfold good_segment.
    specialize (Hseg w Hw). apply bad_segment_false in Hseg. naive_solver.
Qed.

Lemma canonical_facts p :
  canonical p ->
  exists q, p = "/" +:+ q /\ Str.any (Ascii.eqb "*") p = false /\
    Str.any (Ascii.eqb "000") p = false /\
    existsb bad_segment (Str.split slash q) = false /\ q <> "".
Proof.
  intros (segs & Hne & -> & Hall). exists (Str.join "/" segs).
  assert (existsb (Str.any (Ascii.eqb "*")) segs = false /\
          existsb (Str.any (Ascii.eqb "000")) segs = false /\
          existsb bad_segment segs = false /\
          Forall (fun w => Str.any (Ascii.eqb slash) w = false) segs) as (H1 & H2 & H3 & H4).
  { rewrite !existsb_false_Forall. rewrite !Forall_forall in *.
    split_and!; intros w Hw; specialize (Hall w Hw) as (?&?&?&?&?&?); try done.
    by apply bad_segment_false. }
  rewrite app_cons_str, app_empty_str. cbn [Str.any].
  rewrite !any_join by done. rewrite H1, H2, (StrFacts.split_join slash) by done.
  split_and!; try done. destruct segs as [|w segs]; [done|].
  inversion_clear Hall as [|?? [Hw _] _]. destruct w; [done|]. by destruct segs.
Qed.

Lemma path_of_scope scope :
  Str.starts_with "/" scope = true -> stripTrailingGlob scope <> "" ->
  exists q, stripTrailingGlob scope = String slash q.
Proof.
  intros [t Ht]%StrFacts.starts_with_spec Hne.
  destruct (stripTrailingGlob_cases scope) as [H|[H _]];
    destruct (stripTrailingGlob scope) as [|c q]; try done; subst;
    injection H as <- _; by exists q.
Qed.

Lemma canonical_no_trailing_glob p : canonical p -> stripTrailingGlob p = p.
Proof.
  intros (q & Hq & Hstar & _)%canonical_facts.
  destruct (stripTrailingGlob_cases p) as [H|[H _]]; [|done].
  rewrite H, StrFacts.any_app in Hstar. apply orb_false_iff in Hstar as [_ ?]. done.
Qed.

Lemma glob_scope_cases scope p :
  canonical p -> scope = p \/ scope = p +:+ "/*" -> stripTrailingGlob scope = p.
Proof. intros Hp [->| ->]; [by apply canonical_no_trailing_glob|apply stripTrailingGlob_app]. Qed.

Lemma filesystemScopeIssue_sound scope :
  filesystemScopeIssue scope = None ->
  canonical (stripTrailingGlob scope) /\ under_allowed (stripTrailingGlob scope).
Proof.
  unfold filesystemScopeIssue.
  destruct (Str.any (Ascii.eqb "000") scope) eqn:Hnul; [done|].
  destruct (Str.starts_with "/" scope) eqn:Habs; [|done]. cbn [negb].
  destruct (Str.any (Ascii.eqb "*") (stripTrailingGlob scope)) eqn:Hstar; [done|].
  destruct (String.eqb (stripTrailingGlob scope) "/") eqn:Hroot; [done|].
  destruct (existsb bad_segment _) eqn:Hseg; [done|].
  destruct (existsb _ ALLOWED_FILESYSTEM_SCOPE_PREFIXES) eqn:Hal; [|done]. intros _.
  assert (Str.any (Ascii.eqb "000") (stripTrailingGlob scope) = false) as Hnul'.
  { destruct (stripTrailingGlob_cases scope) as [H|[H _]]; [|congruence].
    rewrite H, StrFacts.any_app in Hnul. by apply orb_false_iff in Hnul as [? _]. }
  destruct (path_of_scope scope) as [q Hq]; [done|by intros E; rewrite E in Hseg|].
  rewrite Hq in *. split.
  - apply (canonical_of_segments q); [by apply orb_false_iff in Hstar as [_ ?]
                                     |by apply orb_false_iff in Hnul' as [_ ?]|].
    cbn [Str.drop] in Hseg. by destruct q.
  - apply existsb_elem_of in Hal as (pre & Hin & Hpre).
    exists pre. split; [done|by apply isWithin_spec].
Qed.

Lemma filesystemScopeIssue_complete scope p :
  scope = p \/ scope = p +:+ "/*" -> canonical p -> under_allowed p ->
  filesystemScopeIssue scope = None.
Proof.
  intros Hs Hc (pre & Hin & Hpre).
  assert (Hp := glob_scope_cases _ _ Hc Hs).
  apply canonical_facts in Hc as (q & -> & Hstar & Hnul & Hseg & Hne).
  unfold filesystemScopeIssue. rewrite Hp.
  assert (Str.any (Ascii.eqb "000") scope = false) as ->.
  { destruct Hs as [->| ->]; [done|]. rewrite StrFacts.any_app. by rewrite Hnul. }
  assert (Str.starts_with "/" scope = true) as ->.
  { apply StrFacts.starts_with_spec. destruct Hs as [->| ->]; [eauto|].
    rewrite app_assoc_str. eauto. }
  rewrite Hstar. cbn [negb].
  assert (String.eqb ("/" +:+ q) "/" = false) as ->.
  { apply String.eqb_neq. intros [= ->]. done. }
  assert (Str.drop 1 ("/" +:+ q) = q) as -> by (by destruct q).
  rewrite Hseg.
  assert (existsb (fun prefix => isWithin ("/" +:+ q) prefix)
            ALLOWED_FILESYSTEM_SCOPE_PREFIXES = true) as ->; [|done].
  apply existsb_elem_of. exists pre. split; [done|by apply isWithin_spec].
Qed.

Lemma split2_spec s ns act parts :
  Str.split colon s = ns :: act :: parts -> parts <> [] ->
  s = ns +:+ ":" +:+ act +:+ ":" +:+ Str.join ":" parts /\
  Str.any (Ascii.eqb colon) ns = false /\ Str.any (Ascii.eqb colon) act = false.
Proof.
  intros E Hne. pose proof (StrFacts.split_pieces colon s) as Hp. rewrite E in Hp.
  inversion_clear Hp as [|?? Hns Hp']. inversion_clear Hp' as [|?? Hact _].
  split; [|done]. rewrite <- (StrFacts.join_split colon s), E.
  by destruct parts.
Qed.

(** The parser and the printer of capability strings agree:
    [parseCapability] returns a record exactly when the string is the printed
    form of that record with a namespace and an action that hold no colon (the
    scope may hold any number of them, all kept); every other string throws. *)
Theorem parseCapability_spec s p :
  parseCapability s = Ok p <->
  s = print_capability p /\
  Str.any (Ascii.eqb colon) (namespace p) = false /\
  Str.any (Ascii.eqb colon) (action p) = false.
Proof.
  unfold parseCapability, print_capability. split.
  - destruct (Str.split colon s) as [|ns [|act parts]] eqn:E; try done.
    destruct parts as [|w ws]; [done|]. intros [= <-].
    by apply split2_spec in E.
  - destruct p as [ns act sc]; cbn [namespace action scope]. intros (-> & Hns & Hact).
    change (ns +:+ ":" +:+ act +:+ ":" +:+ sc)
      with (ns +:+ String colon (act +:+ String colon sc)).
    rewrite !StrFacts.split_app by done.
    destruct (Str.split colon sc) as [|w ws] eqn:E; [by destruct (StrFacts.split_nonempty colon sc)|].
    cbn [length Nat.ltb Nat.leb]. do 2 f_equal. rewrite <- E. apply (StrFacts.join_split colon).
Qed.

(** [C33] [filesystemScopeIssue] accepts exactly the scopes it documents: a
    canonical absolute path (at least one segment, none of them empty, ["."],
    [".."] or holding a glob or NUL), equal to or beneath one of the four
    allowed prefixes, optionally followed by ["/*"]. *)
Theorem filesystemScopeIssue_spec scope :
  filesystemScopeIssue scope = None <->
  exists p, (scope = p \/ scope = p +:+ "/*") /\ canonical p /\ under_allowed p.
Proof.
  split.
  - intros [Hc Hu]%filesystemScopeIssue_sound. exists (stripTrailingGlob scope).
    split; [|done]. destruct (stripTrailingGlob_cases scope) as [?|[? _]]; auto.
  - intros (p & Hs & Hc & Hu). by eapply filesystemScopeIssue_complete.
Qed.

(** A write scope is accepted exactly when the scope is and no segment
    of its path is [node_modules]. *)
Theorem filesystemWriteScopeIssue_spec scope :
  filesystemWriteScopeIssue scope = None <->
  filesystemScopeIssue scope = None /\
  "node_modules" ∉ Str.split slash (stripTrailingGlob scope).
Proof.
  unfold filesystemWriteScopeIssue.
  destruct (filesystemScopeIssue scope); [naive_solver|].
  destruct (existsb _ _) eqn:E.
  - apply existsb_elem_of in E as (w & Hw & <-%String.eqb_eq). naive_solver.
  - split; [|done]. intros _. split; [done|]. intros Hin.
    apply not_true_iff_false in E. apply E, existsb_elem_of.
    eexists; split; [done|apply String.eqb_refl].
Qed.

Lemma CapabilityString_parse c :
  CapabilityString c = true ->
  exists p, parseCapability c = Ok p /\ Glob.one_line (scope p) = true /\
    nonempty (scope p) = true.
Proof.
  unfold CapabilityString. destruct (parseCapability c) as [p|]; [|done].
  intros H. bools. eauto.
Qed.

Lemma matchesCapability_ok g r gp rp :
  parseCapability g = Ok gp -> parseCapability r = Ok rp ->
  Glob.no_quest (scope gp) = true ->
  matchesCapability g r =
    Ok (String.eqb (namespace gp) (namespace rp) && String.eqb (action gp) (action rp)
        && Glob.matches (Glob.compile_escaped (scope gp)) (scope rp)).
Proof.
  intros Hg Hr Hq. unfold matchesCapability, globToRegExp_test.
  rewrite Hg, Hr. cbn [rbind]. rewrite Glob.compile_no_quest by done.
  by destruct (String.eqb (namespace gp) _), (String.eqb (action gp) _).
Qed.

(** On a granted capability whose scope holds no [?], [matchesCapability]
    never throws and means what it documents: same namespace, same action,
    and the granted scope covers the requested one as a glob in which only
    [*] is a wildcard. *)
Theorem matchesCapability_spec g r gp rp :
  parseCapability g = Ok gp -> parseCapability r = Ok rp ->
  Glob.no_quest (scope gp) = true ->
  exists b, matchesCapability g r = Ok b /\
    (b = true <-> namespace gp = namespace rp /\ action gp = action rp /\
                  Glob.glob_matches (scope gp) (scope rp)).
Proof.
  intros Hg Hr Hq. eexists; split; [by apply matchesCapability_ok|].
  rewrite !andb_true_iff, !String.eqb_eq, Glob.compile_escaped_spec. naive_solver.
Qed.

(** A capability the manifest accepts covers itself, unless its scope has a [?]. *)
Lemma matchesCapability_refl c p :
  CapabilityString c = true -> parseCapability c = Ok p ->
  Glob.no_quest (scope p) = true -> matchesCapability c c = Ok true.
Proof.
  intros (p' & Hp' & Hl & _)%CapabilityString_parse Hp Hq.
  assert (p' = p) as -> by congruence.
  erewrite matchesCapability_ok by done. rewrite !String.eqb_refl. f_equal.
  by apply Glob.compile_escaped_spec, Glob.glob_matches_refl.
Qed.

(** With a [?] in a granted scope the matcher departs from its
    documentation: [?] is not escaped, so it acts as a quantifier of the
    regular expression. The accepted capability [browser:navigate:a?] does not
    cover itself, does cover a host it never names, and the accepted
    [browser:navigate:?a] makes every check against it throw. *)
Theorem matchesCapability_question_mark :
  CapabilityString "browser:navigate:a?" = true /\
  matchesCapability "browser:navigate:a?" "browser:navigate:a?" = Ok false /\
  matchesCapability "browser:navigate:example.comm?" "browser:navigate:example.com" = Ok true /\
  CapabilityString "browser:navigate:?a" = true /\
  forall r, is_ok (matchesCapability "browser:navigate:?a" ("browser:navigate:" +:+ r)) = false.
Proof.
  split_and!; [by vm_compute..|]. intros r.
  unfold matchesCapability.
  rewrite (proj2 (parseCapability_spec ("browser:navigate:" +:+ r)
             {| namespace := "browser"; action := "navigate"; scope := r |})) by done.
  by vm_compute.
Qed.

Lemma some_matches_spec l cap capp :
  parseCapability cap = Ok capp ->
  Forall (fun g => exists gp, parseCapability g = Ok gp /\ Glob.no_quest (scope gp) = true) l ->
  exists b, some_matches l cap = Ok b /\
    (b = true <-> exists g, g ∈ l /\ matchesCapability g cap = Ok true).
Proof.
  intros Hc H. induction H as [|g l (gp & Hg & Hq) Hl (b & Hb & IH)]; cbn [some_matches].
  - exists false. split; [done|]. split; [done|]. by intros (g & ?%elem_of_nil & _).
  - assert (Hm := matchesCapability_ok g cap gp capp Hg Hc Hq).
    destruct (_ && _ && _) eqn:E in Hm; rewrite Hm; cbn [rbind].
    + exists true. split; [done|]. split; [|done]. intros _. exists g. split; [left|done].
    + exists b. split; [done|]. rewrite IH. split; intros (g' & Hin & Hg').
      * exists g'. split; [by right|done].
      * apply elem_of_cons in Hin as [->|Hin]; [congruence|eauto].
Qed.

(** [requestCapability] reports a grant exactly when one of the
    capabilities compiled into this boot's policy covers the request; the
    policy file is used whenever it is there, and the answer of the first
    call decides which list every later call of the process uses. *)
Theorem requestCapability_spec {E : Type} l (manifest : result E (list string)) cap capp :
  parseCapability cap = Ok capp ->
  Forall (fun g => exists gp, parseCapability g = Ok gp /\ Glob.no_quest (scope gp) = true) l ->
  exists b, requestCapability None (Some l) manifest cap = (Ok b, Some (Ok l)) /\
    (b = true <-> exists g, g ∈ l /\ matchesCapability g cap = Ok true) /\
    forall policy' (manifest' : result E (list string)),
      requestCapability (Some (Ok l)) policy' manifest' cap = (Ok b, Some (Ok l)).
Proof.
  intros Hc Hl. destruct (some_matches_spec l cap capp Hc Hl) as (b & Hb & Hspec).
  exists b. unfold requestCapability, declaredCapabilities. rewrite Hb. done.
Qed.

(** ** Witnesses *)

Lemma matchesCapability_spec_witness :
  exists b, matchesCapability "browser:navigate:*.github.com" "browser:navigate:api.github.com" = Ok b /\
    (b = true <-> ("browser" = "browser" /\ "navigate" = "navigate" /\
                   Glob.glob_matches "*.github.com" "api.github.com")).
Proof.
  apply (matchesCapability_spec "browser:navigate:*.github.com" "browser:navigate:api.github.com"
           {| namespace := "browser"; action := "navigate"; scope := "*.github.com" |}
           {| namespace := "browser"; action := "navigate"; scope := "api.github.com" |});
    by vm_compute.
Defined.

Lemma requestCapability_spec_witness :
  exists b, requestCapability (E := unit) None (Some ["network:host:*"]) (Err tt) "network:host:a.b"
              = (Ok b, Some (Ok ["network:host:*"])) /\
    (b = true <-> exists g, g ∈ ["network:host:*"] /\ matchesCapability g "network:host:a.b" = Ok true) /\
    forall policy' manifest',
      requestCapability (E := unit) (Some (Ok ["network:host:*"])) policy' manifest' "network:host:a.b"
        = (Ok b, Some (Ok ["network:host:*"])).
Proof.
  apply (requestCapability_spec ["network:host:*"] (Err tt) "network:host:a.b"
           {| namespace := "network"; action := "host"; scope := "a.b" |}); [by vm_compute|].
  apply Forall_singleton.
  exists {| namespace := "network"; action := "host"; scope := "*" |}. by vm_compute.
Defined.

End Capability.
