(* ===== verification/JsNumber.v ===== *)
(** * JavaScript numbers: IEEE 754 doubles, as far as the code needs them

    [Number(string)] (the StringToNumber grammar, decimal, hexadecimal, octal
    and binary), [Number.isInteger], and the product, sum and [Math.floor] that
    the cgroup arithmetic uses. A finite double is a dyadic number [m * 2^e],
    rounded to 53 bits, ties to even, with the exponent range of binary64; the
    sign of zero, which nothing here observes, is not kept.

    Used by the policy compiler (ports), the cgroup limits (fractional cores),
    the lock files (pids) and the registry (versions). *)
From S2P Require Import Prelude.

Module JsNumber.
Local Open Scope Z_scope.

Inductive jsnum : Type :=
| NaN
| Inf (negative : bool)
| Fin (m e : Z).

(** Quotient rounded to the nearest integer, ties to even ([den > 0]). *)
Definition div_nearest_even (num den : Z) : Z :=
  let q := num / den in
  let r := num mod den in
  if 2 * r <? den then q
  else if den <? 2 * r then q + 1
  else if Z.even q then q else q + 1.

(** The double nearest to [n / d], for [n >= 0] and [d > 0]. *)
Definition scaled (n d e : Z) : Z * Z :=
  (n * 2 ^ Z.max (- e) 0, d * 2 ^ Z.max e 0).

Definition round_pos (n d : Z) : jsnum :=
  if n =? 0 then Fin 0 0
  else
    let e0 := Z.log2 n - Z.log2 d - 52 in
    let '(num0, den0) := scaled n d e0 in
    let e1 := if num0 <? 2 ^ 52 * den0 then e0 - 1 else e0 in
    let e := Z.max e1 (-1074) in
    let '(num, den) := scaled n d e in
    let q := div_nearest_even num den in
    if (0 <=? e) && (2 ^ 1024 <=? q * 2 ^ e) then Inf false else Fin q e.

Definition negate (x : jsnum) : jsnum :=
  match x with NaN => NaN | Inf b => Inf (negb b) | Fin m e => Fin (- m) e end.

(** The double nearest to the rational [n / d]. *)
Definition round (n d : Z) : jsnum :=
  if n <? 0 then negate (round_pos (- n) d) else round_pos n d.

(** An exact dyadic number, rounded. *)
Definition round_dyadic (m e : Z) : jsnum :=
  if 0 <=? e then round (m * 2 ^ e) 1 else round m (2 ^ (- e)).

(** ** [Number(s)] on a string *)

Definition digit_value (c : ascii) : Z := Z.of_nat (Str.code c) - 48.

Definition hex_value (c : ascii) : Z :=
  let n := Z.of_nat (Str.code c) in
  if Str.is_digit c then n - 48
  else if Str.is_lower c then n - 87 else n - 55.

Fixpoint span (p : ascii -> bool) (s : string) : string * string :=
  match s with
  | EmptyString => (EmptyString, EmptyString)
  | String c s' => if p c then let '(a, b) := span p s' in (String c a, b) else (EmptyString, s)
  end.

Fixpoint value_in (base : Z) (val : ascii -> Z) (acc : Z) (s : string) : Z :=
  match s with
  | EmptyString => acc
  | String c s' => value_in base val (acc * base + val c) s'
  end.

Definition decimal_value : string -> Z := value_in 10 digit_value 0.

(** [ExponentPart], absent or complete: [None] when the text is neither. *)
Definition exponent_part (s : string) : option Z :=
  match s with
  | EmptyString => Some 0
  | String c s1 =>
      if Ascii.eqb c "e" || Ascii.eqb c "E" then
        let '(neg, s2) :=
          match s1 with
          | String d s2 =>
              if Ascii.eqb d "-" then (true, s2)
              else if Ascii.eqb d "+" then (false, s2) else (false, s1)
          | EmptyString => (false, s1)
          end in
        let '(ds, rest) := span Str.is_digit s2 in
        match ds, rest with
        | String _ _, EmptyString =>
            Some (if neg : bool then - decimal_value ds else decimal_value ds)
        | _, _ => None
        end
      else None
  end.

(** [StrUnsignedDecimalLiteral], without [Infinity]. *)
Definition unsigned_decimal (s : string) : jsnum :=
  let '(ip, r1) := span Str.is_digit s in
  let '(fp, r2) :=
    match r1 with
    | String c r => if Ascii.eqb c "." then span Str.is_digit r else (EmptyString, r1)
    | EmptyString => (EmptyString, r1)
    end in
  match ip +:+ fp with
  | EmptyString => NaN
  | ds =>
      match exponent_part r2 with
      | None => NaN
      | Some x =>
          let n := decimal_value ds in
          let k := x - Z.of_nat (String.length fp) in
          if 0 <=? k then round_pos (n * 10 ^ k) 1 else round_pos n (10 ^ (- k))
      end
  end.

Definition signed_decimal (s : string) : jsnum :=
  match s with
  | String c s' =>
      if Ascii.eqb c "-"
      then negate (if String.eqb s' "Infinity" then Inf false else unsigned_decimal s')
      else if Ascii.eqb c "+"
      then if String.eqb s' "Infinity" then Inf false else unsigned_decimal s'
      else if String.eqb s "Infinity" then Inf false else unsigned_decimal s
  | EmptyString => Fin 0 0
  end.

Definition radix_literal (base : Z) (digit : ascii -> bool) (s : string) : jsnum :=
  match s with
  | EmptyString => NaN
  | _ => if Str.all digit s then round_pos (value_in base hex_value 0 s) 1 else NaN
  end.

Definition is_hex (c : ascii) : bool :=
  Str.is_digit c || Str.in_range 97 102 c || Str.in_range 65 70 c.

Definition Number (text : string) : jsnum :=
  let s := Str.trim text in
  match s with
  | String z (String x rest) =>
      if Ascii.eqb z "0" && (Ascii.eqb x "x" || Ascii.eqb x "X") then radix_literal 16 is_hex rest
      else if Ascii.eqb z "0" && (Ascii.eqb x "o" || Ascii.eqb x "O")
      then radix_literal 8 (Str.in_range 48 55) rest
      else if Ascii.eqb z "0" && (Ascii.eqb x "b" || Ascii.eqb x "B")
      then radix_literal 2 (Str.in_range 48 49) rest
      else signed_decimal s
  | _ => signed_decimal s
  end.

(** ** Integers *)

(** The integer a number is, if it is one: [Number.isInteger(x)], and its value. *)
Definition to_integer (x : jsnum) : option Z :=
  match x with
  | Fin m e =>
      if 0 <=? e then Some (m * 2 ^ e)
      else if m mod 2 ^ (- e) =? 0 then Some (m / 2 ^ (- e)) else None
  | _ => None
  end.

Definition isInteger (x : jsnum) : bool :=
  match to_integer x with Some _ => true | None => false end.

Definition of_Z (z : Z) : jsnum := round z 1.

(** ** Arithmetic *)

Definition mul (x y : jsnum) : jsnum :=
  match x, y with
  | Fin m1 e1, Fin m2 e2 => round_dyadic (m1 * m2) (e1 + e2)
  | NaN, _ | _, NaN => NaN
  | Inf b, Fin m _ | Fin m _, Inf b =>
      if m =? 0 then NaN else Inf (xorb b (m <? 0))
  | Inf b, Inf c => Inf (xorb b c)
  end.

Definition add (x y : jsnum) : jsnum :=
  match x, y with
  | Fin m1 e1, Fin m2 e2 =>
      let e := Z.min e1 e2 in
      round_dyadic (m1 * 2 ^ (e1 - e) + m2 * 2 ^ (e2 - e)) e
  | NaN, _ | _, NaN => NaN
  | Inf b, Fin _ _ | Fin _ _, Inf b => Inf b
  | Inf b, Inf c => if eqb b c then Inf b else NaN
  end.

(** [Math.floor] of a finite number. *)
Definition floor (m e : Z) : Z := if 0 <=? e then m * 2 ^ e else m / 2 ^ (- e).

(** Is the number positive (zod's [positive()])? *)
Definition positive (x : jsnum) : bool :=
  match x with Fin m _ => 0 <? m | Inf b => negb b | NaN => false end.

(** ** Decimal digits of a natural number: [String(n)] *)
Fixpoint digits_aux (fuel : nat) (z : Z) (acc : string) : string :=
  let acc' := String (ascii_of_nat (Z.to_nat (48 + z mod 10))) acc in
  match fuel with
  | O => acc'
  | S fuel' => if z <? 10 then acc' else digits_aux fuel' (z / 10) acc'
  end.

(** [Z.log2 z] bounds the number of decimal digits. *)
Definition to_string (z : Z) : string :=
  if z <? 0 then "-" +:+ digits_aux (Z.to_nat (Z.log2 (- z))) (- z) ""
  else digits_aux (Z.to_nat (Z.log2 z)) z "".

(** ** Lemmas *)

Lemma value_in_app base val acc s t :
  value_in base val acc (s +:+ t) = value_in base val (value_in base val acc s) t.
Proof. revert acc; induction s as [|c s IH]; intros acc; [done|]. apply IH. Qed.

Lemma code_ascii_of_nat n : (n < 256)%nat -> Str.code (ascii_of_nat n) = n.
Proof. intros. unfold Str.code. by apply nat_ascii_embedding. Qed.

Lemma digit_char d :
  0 <= d < 10 ->
  Str.is_digit (ascii_of_nat (Z.to_nat (48 + d))) = true /\
  digit_value (ascii_of_nat (Z.to_nat (48 + d))) = d.
Proof.
  intros Hd. unfold Str.is_digit, Str.in_range, digit_value.
  rewrite code_ascii_of_nat by lia. rewrite andb_true_iff, !Nat.leb_le. lia.
Qed.

Lemma digits_aux_spec fuel z acc :
  0 <= z < 10 ^ Z.of_nat (S fuel) ->
  exists ds, digits_aux fuel z acc = ds +:+ acc /\ ds <> "" /\
    Str.all Str.is_digit ds = true /\ decimal_value ds = z.
Proof.
  revert z acc; induction fuel as [|fuel IH]; intros z acc Hz; cbn [digits_aux].
  - assert (z mod 10 = z) as -> by (apply Z.mod_small; cbn in Hz; lia).
    destruct (digit_char z) as [H1 H2]; [cbn in Hz; lia|].
    exists (String (ascii_of_nat (Z.to_nat (48 + z))) ""). split_and!; [done..| |].
    + cbn. by rewrite H1.
    + unfold decimal_value; cbn [value_in]. lia.
  - destruct (digit_char (z mod 10)) as [H1 H2]; [apply Z.mod_pos_bound; lia|].
    destruct (Z.ltb_spec z 10) as [Hlt|Hge].
    + exists (String (ascii_of_nat (Z.to_nat (48 + z mod 10))) ""). split_and!; [done..| |].
      * cbn. by rewrite H1.
      * unfold decimal_value; cbn [value_in]. rewrite H2, Z.mod_small; lia.
    + destruct (IH (z / 10) (String (ascii_of_nat (Z.to_nat (48 + z mod 10))) acc))
        as (ds & -> & Hne & Hall & Hv).
      { rewrite (Nat2Z.inj_succ (S fuel)), Z.pow_succ_r in Hz by lia.
        split; [by apply Z.div_pos; lia|]. apply Z.div_lt_upper_bound; lia. }
      exists (ds +:+ String (ascii_of_nat (Z.to_nat (48 + z mod 10))) "").
      split_and!.
      * by rewrite app_assoc_str.
      * by destruct ds.
      * rewrite StrFacts.all_app, Hall. cbn. by rewrite H1.
      * unfold decimal_value in *. rewrite value_in_app, Hv. cbn [value_in]. rewrite H2.
        pose proof (Z.div_mod z 10). lia.
Qed.

Lemma to_string_spec z :
  0 <= z ->
  to_string z <> "" /\ Str.all Str.is_digit (to_string z) = true /\
  decimal_value (to_string z) = z.
Proof.
  intros Hz. unfold to_string. destruct (Z.ltb_spec z 0); [lia|].
  destruct (digits_aux_spec (Z.to_nat (Z.log2 z)) z "") as (ds & -> & ? & ? & ?).
  - split; [done|]. destruct (Z.eq_dec z 0) as [->|]; [done|].
    pose proof (Z.log2_spec z). pose proof (Z.log2_nonneg z).
    rewrite Nat2Z.inj_succ, Z2Nat.id by done.
    assert (2 ^ Z.succ (Z.log2 z) <= 10 ^ Z.succ (Z.log2 z)) by (apply Z.pow_le_mono_l; lia). lia.
  - by rewrite app_nil_r_str.
Qed.

Lemma div_nearest_even_1 n : div_nearest_even n 1 = n.
Proof. unfold div_nearest_even. by rewrite Z.mod_1_r, Z.div_1_r. Qed.

Lemma to_integer_shifted n k : 0 <= k -> to_integer (Fin (n * 2 ^ k) (- k)) = Some n.
Proof.
  intros Hk. cbn [to_integer]. destruct (Z.leb_spec 0 (- k)).
  - assert (k = 0) as -> by lia. cbn. by rewrite !Z.mul_1_r.
  - rewrite Z.opp_involutive, Z.mod_mul, Z.eqb_refl, Z.div_mul; [done|lia..].
Qed.

(** Integers below [2^53] are represented exactly. *)
Lemma round_pos_integer n : 0 <= n < 2 ^ 53 -> to_integer (round_pos n 1) = Some n.
Proof.
  intros Hn. unfold round_pos. destruct (Z.eqb_spec n 0) as [->|Hne]; [done|].
  change (Z.log2 1) with 0. rewrite Z.sub_0_r.
  assert (Hl : 0 <= Z.log2 n < 53) by (split; [apply Z.log2_nonneg|by apply Z.log2_lt_pow2; lia]).
  pose proof (Z.log2_spec n ltac:(lia)) as [Hlo _].
  set (k := 52 - Z.log2 n). replace (Z.log2 n - 52) with (- k) by lia.
  unfold scaled. replace (Z.max (- k) 0) with 0 by lia.
  replace (Z.max (- - k) 0) with k by lia. change (2 ^ 0) with 1. rewrite !Z.mul_1_r.
  destruct (Z.ltb_spec (n * 2 ^ k) (2 ^ 52)) as [Hlt|_].
  - exfalso. assert (2 ^ 52 = 2 ^ Z.log2 n * 2 ^ k) as E by (rewrite <- Z.pow_add_r by lia; f_equal; lia).
    rewrite E in Hlt. assert (0 < 2 ^ k) by (apply Z.pow_pos_nonneg; lia). nia.
  - replace (Z.max (- k) (-1074)) with (- k) by lia.
    replace (Z.max (- k) 0) with 0 by lia. replace (Z.max (- - k) 0) with k by lia.
    change (1 * 2 ^ 0) with 1. rewrite div_nearest_even_1.
    destruct (Z.leb_spec 0 (- k)); cbn [andb]; [|by apply to_integer_shifted; lia].
    assert (E0 : k = 0) by lia. clearbody k. subst k.
    rewrite (Z.pow_0_r 2). change (2 ^ (- 0)) with 1. rewrite !Z.mul_1_r.
    assert (2 ^ 53 < 2 ^ 1024) by (apply Z.pow_lt_mono_r; lia).
    destruct (Z.leb_spec (2 ^ 1024) n); [lia|].
    pose proof (to_integer_shifted n 0 ltac:(lia)) as H2. by rewrite Z.mul_1_r in H2.
Qed.

Lemma to_integer_of_Z z : Z.abs z < 2 ^ 53 -> to_integer (of_Z z) = Some z.
Proof.
  intros Hz. unfold of_Z, round. destruct (Z.ltb_spec z 0); [|apply round_pos_integer; lia].
  pose proof (round_pos_integer (- z) ltac:(lia)) as H1.
  destruct (round_pos (- z) 1) as [| |m e]; try done. cbn [negate to_integer] in *.
  destruct (0 <=? e); [f_equal; injection H1; lia|].
  destruct (Z.eqb_spec (m mod 2 ^ (- e)) 0) as [Hm|]; [|done].
  destruct (Z.eq_dec (2 ^ (- e)) 0) as [E0|]; [rewrite E0 in *; by rewrite !Z.div_0_r in *; injection H1; lia|].
  rewrite Z.mod_opp_l_z, Z.eqb_refl, Z.div_opp_l_z by done. f_equal. injection H1. lia.
Qed.

Lemma digit_not_space c : Str.is_digit c = true -> Str.is_space c = false.
Proof.
  unfold Str.is_digit, Str.is_space, Str.in_range. rewrite andb_true_iff, !Nat.leb_le. intros [??].
  rewrite !orb_false_iff, andb_false_iff, !Nat.leb_gt, !Nat.eqb_neq. lia.
Qed.

Lemma trim_no_space s : Str.all (fun c => negb (Str.is_space c)) s = true -> Str.trim s = s.
Proof.
  assert (He : forall s, Str.all (fun c => negb (Str.is_space c)) s = true -> Str.trim_end s = s).
  { intros t; induction t as [|c t IH]; cbn; [done|]. intros [Hc Ht]%andb_true_iff.
    rewrite IH by done. apply negb_true_iff in Hc. rewrite Hc. by destruct t. }
  intros H. unfold Str.trim. destruct s as [|c s]; [done|]. cbn in H.
  apply andb_true_iff in H as [Hc Hs]. cbn [Str.trim_start].
  apply negb_true_iff in Hc. rewrite Hc. apply He. cbn. by rewrite Hc.
Qed.

Lemma span_all p s : Str.all p s = true -> span p s = (s, "").
Proof. induction s as [|c s IH]; cbn; [done|]. intros [-> Hs]%andb_true_iff. by rewrite IH. Qed.

Lemma span_prefix p s t : Str.all p s = true -> span p (s +:+ t) = (s +:+ fst (span p t), snd (span p t)).
Proof.
  induction s as [|c s IH]; [intros _; rewrite app_empty_str; by destruct (span p t)|].
  cbn [Str.all]. rewrite andb_true_iff. intros [Hc Hs]. rewrite !app_cons_str. cbn [span]. rewrite Hc, (IH Hs). done.
Qed.

Lemma span_stops p s d t : Str.all p s = true -> p d = false -> span p (s +:+ String d t) = (s, String d t).
Proof. intros Hs Hd. rewrite span_prefix by done. cbn [span]. rewrite Hd. cbn. by rewrite app_nil_r_str. Qed.

Lemma digit_code c : Str.is_digit c = true -> (48 <= Str.code c <= 57)%nat.
Proof. unfold Str.is_digit, Str.in_range. rewrite andb_true_iff, !Nat.leb_le. lia. Qed.

Lemma digit_neq c d :
  Str.is_digit c = true -> Str.is_digit d = false -> Ascii.eqb c d = false.
Proof. intros Hc Hd. apply Ascii.eqb_neq. congruence. Qed.

Lemma Number_digits s :
  s <> "" -> Str.all Str.is_digit s = true -> decimal_value s < 2 ^ 53 ->
  0 <= decimal_value s -> to_integer (Number s) = Some (decimal_value s).
Proof.
  intros Hne Hall Hlt Hge. unfold Number.
  rewrite trim_no_space by (eapply StrFacts.all_impl; [|done]; intros c Hc; by rewrite digit_not_space).
  assert (Hs : signed_decimal s = round_pos (decimal_value s) 1).
  { destruct s as [|c s']; [done|]. pose proof Hall as Hall'. cbn in Hall'.
    apply andb_true_iff in Hall' as [Hc _].
    unfold signed_decimal. rewrite (digit_neq c "-"), (digit_neq c "+") by done.
    assert (String.eqb (String c s') "Infinity" = false) as ->.
    { apply String.eqb_neq. intros [= -> _]. done. }
    unfold unsigned_decimal. rewrite span_all by done.
    rewrite app_nil_r_str. cbn [exponent_part]. by rewrite Z.mul_1_r. }
  assert (Hgoal : to_integer (signed_decimal s) = Some (decimal_value s))
    by (rewrite Hs; by apply round_pos_integer).
  destruct s as [|z [|x rest]]; try done.
  cbn in Hall. apply andb_true_iff in Hall as [Hz Hall]. apply andb_true_iff in Hall as [Hx _].
  rewrite !(digit_neq x) by done. cbn [orb]. by rewrite !andb_false_r.
Qed.

(** [Number(String(z)) === z] for every safe natural number [z]. *)
Lemma Number_to_string z : 0 <= z < 2 ^ 53 -> to_integer (Number (to_string z)) = Some z.
Proof.
  intros Hz. destruct (to_string_spec z) as (Hne & Hall & Hv); [lia|].
  rewrite Number_digits; rewrite ?Hv; auto; lia.
Qed.

Lemma to_string_inj a b : 0 <= a -> 0 <= b -> to_string a = to_string b -> a = b.
Proof.
  intros (_ & _ & Ha)%to_string_spec (_ & _ & Hb)%to_string_spec E. congruence.
Qed.

(** *** Exact arithmetic on integers *)

Lemma round_pos_dyadic n j : 0 <= j -> 0 <= n -> round_pos (n * 2 ^ j) (2 ^ j) = round_pos n 1.
Proof.
  intros Hj Hn. unfold round_pos. assert (0 < 2 ^ j) by (apply Z.pow_pos_nonneg; lia).
  destruct (Z.eqb_spec n 0) as [->|Hne]; [done|].
  destruct (Z.eqb_spec (n * 2 ^ j) 0); [nia|].
  rewrite Z.log2_mul_pow2, Z.log2_pow2 by lia. change (Z.log2 1) with 0.
  replace (j + Z.log2 n - j - 52) with (Z.log2 n - 0 - 52) by lia.
  set (e0 := Z.log2 n - 0 - 52). unfold scaled.
  assert (Hc : forall a b, (n * 2 ^ j * a <? b * (2 ^ j * 1)) = (n * a <? b * 1)).
  { intros a b. destruct (Z.ltb_spec (n * a) (b * 1)), (Z.ltb_spec (n * 2 ^ j * a) (b * (2 ^ j * 1))); nia || done. }
  assert (Hc2 : forall a b c, (n * 2 ^ j * a <? c * (2 ^ j * b)) = (n * a <? c * (1 * b))).
  { intros a b c. destruct (Z.ltb_spec (n * a) (c * (1 * b))), (Z.ltb_spec (n * 2 ^ j * a) (c * (2 ^ j * b))); nia || done. }
  rewrite Hc2. set (e := Z.max _ _). clearbody e.
  assert (Hd : forall a b, 0 < b -> div_nearest_even (n * 2 ^ j * a) (2 ^ j * b) = div_nearest_even (n * a) (1 * b)).
  { intros a b Hb. unfold div_nearest_even. rewrite Z.mul_1_l.
    replace (n * 2 ^ j * a) with (2 ^ j * (n * a)) by ring.
    rewrite Z.div_mul_cancel_l, Z.mul_mod_distr_l by lia.
    set (r := (n * a) mod b). replace (2 * (2 ^ j * r)) with (2 ^ j * (2 * r)) by ring.
    assert (E1 : (2 ^ j * (2 * r) <? 2 ^ j * b) = (2 * r <? b)).
    { destruct (Z.ltb_spec (2 * r) b), (Z.ltb_spec (2 ^ j * (2 * r)) (2 ^ j * b)); nia || done. }
    assert (E2 : (2 ^ j * b <? 2 ^ j * (2 * r)) = (b <? 2 * r)).
    { destruct (Z.ltb_spec b (2 * r)), (Z.ltb_spec (2 ^ j * b) (2 ^ j * (2 * r))); nia || done. }
    by rewrite E1, E2. }
  rewrite Hd by (apply Z.pow_pos_nonneg; lia). done.
Qed.

Lemma round_dyadic_integer m e z :
  to_integer (Fin m e) = Some z -> Z.abs z < 2 ^ 53 -> to_integer (round_dyadic m e) = Some z.
Proof.
  intros Hz Hb. cbn in Hz. unfold round_dyadic. destruct (Z.leb_spec 0 e) as [He|He].
  - injection Hz as <-. by apply to_integer_of_Z.
  - destruct (Z.eqb_spec (m mod 2 ^ (- e)) 0) as [Hm|]; [|done]. injection Hz as Hz.
    assert (0 < 2 ^ (- e)) by (apply Z.pow_pos_nonneg; lia).
    assert (Em : m = z * 2 ^ (- e)) by (rewrite (Z.div_mod m (2 ^ (- e))) by lia; lia).
    rewrite <- (to_integer_of_Z z Hb). f_equal. rewrite Em. unfold of_Z, round.
    destruct (Z.ltb_spec z 0) as [Hneg|Hpos], (Z.ltb_spec (z * 2 ^ (- e)) 0); try nia.
    + f_equal. replace (- (z * 2 ^ (- e))) with (- z * 2 ^ (- e)) by ring. apply round_pos_dyadic; lia.
    + apply round_pos_dyadic; lia.
Qed.

(** A number as an integer scaled by any power of two below its exponent. *)
Lemma to_integer_scaled m e k z :
  k <= e -> k <= 0 -> to_integer (Fin m e) = Some z -> m * 2 ^ (e - k) = z * 2 ^ (- k).
Proof.
  intros Hk Hk0 Hz. cbn in Hz. destruct (Z.leb_spec 0 e).
  - injection Hz as <-. rewrite <- Z.mul_assoc, <- Z.pow_add_r by lia. by repeat (f_equal; try lia).
  - destruct (Z.eqb_spec (m mod 2 ^ (- e)) 0) as [Hm|]; [|done]. injection Hz as Hz.
    assert (0 < 2 ^ (- e)) by (apply Z.pow_pos_nonneg; lia).
    assert (Em : m = z * 2 ^ (- e)) by (rewrite (Z.div_mod m (2 ^ (- e))) by lia; lia).
    rewrite Em, <- Z.mul_assoc, <- Z.pow_add_r by lia. by repeat (f_equal; try lia).
Qed.

Lemma to_integer_exact m k z : k <= 0 -> m = z * 2 ^ (- k) -> to_integer (Fin m k) = Some z.
Proof.
  intros Hk ->. pose proof (to_integer_shifted z (- k) ltac:(lia)) as H. by rewrite Z.opp_involutive in H.
Qed.

Lemma add_integer x y a b :
  to_integer x = Some a -> to_integer y = Some b -> Z.abs (a + b) < 2 ^ 53 ->
  to_integer (add x y) = Some (a + b).
Proof.
  destruct x as [| |m1 e1], y as [| |m2 e2]; try done. intros Ha Hb Hlt. cbn [add]. cbv zeta.
  set (e := Z.min e1 e2). apply round_dyadic_integer; [|done].
  destruct (Z.leb_spec e 0) as [He|He].
  - apply to_integer_exact; [done|].
    rewrite (to_integer_scaled m1 e1 e a), (to_integer_scaled m2 e2 e b) by (done || lia). ring.
  - cbn [to_integer] in *. destruct (Z.leb_spec 0 e1), (Z.leb_spec 0 e2), (Z.leb_spec 0 e); try lia.
    injection Ha as <-. injection Hb as <-. f_equal. rewrite Z.mul_add_distr_r.
    rewrite <- !Z.mul_assoc, <- !Z.pow_add_r by lia. f_equal; f_equal; f_equal; lia.
Qed.

Lemma mul_integer x y a b :
  to_integer x = Some a -> to_integer y = Some b -> Z.abs (a * b) < 2 ^ 53 ->
  to_integer (mul x y) = Some (a * b).
Proof.
  destruct x as [| |m1 e1], y as [| |m2 e2]; try done. intros Ha Hb Hlt. cbn [mul].
  apply round_dyadic_integer; [|done].
  pose proof (to_integer_scaled m1 e1 (Z.min e1 0) a ltac:(lia) ltac:(lia) Ha) as H1.
  pose proof (to_integer_scaled m2 e2 (Z.min e2 0) b ltac:(lia) ltac:(lia) Hb) as H2.
  set (k1 := Z.min e1 0) in *. set (k2 := Z.min e2 0) in *.
  assert (Hp : m1 * m2 * 2 ^ (e1 - k1 + (e2 - k2)) = a * b * 2 ^ (- (k1 + k2))).
  { replace (- (k1 + k2)) with (- k1 + - k2) by lia. rewrite !Z.pow_add_r by lia.
    transitivity ((m1 * 2 ^ (e1 - k1)) * (m2 * 2 ^ (e2 - k2))); [ring|]. rewrite H1, H2. ring. }
  cbn [to_integer]. destruct (Z.leb_spec 0 (e1 + e2)) as [He|He].
  - f_equal. apply (Z.mul_cancel_r _ _ (2 ^ (- (k1 + k2)))); [apply Z.pow_nonzero; lia|].
    rewrite <- Hp, <- (Z.mul_assoc (m1 * m2)), <- Z.pow_add_r by lia. by repeat (f_equal; try lia).
  - assert (E : m1 * m2 = a * b * 2 ^ (- (e1 + e2))).
    { apply (Z.mul_cancel_r _ _ (2 ^ (e1 - k1 + (e2 - k2)))); [apply Z.pow_nonzero; lia|].
      rewrite Hp, <- (Z.mul_assoc (a * b)), <- Z.pow_add_r by lia. by repeat (f_equal; try lia). }
    rewrite E, Z.mod_mul, Z.eqb_refl, Z.div_mul by (apply Z.pow_nonzero; lia). done.
Qed.

Lemma negate_integer x a : to_integer x = Some a -> to_integer (negate x) = Some (- a).
Proof.
  destruct x as [| |m e]; try done. cbn. destruct (Z.leb_spec 0 e); [intros [= <-]; f_equal; ring|].
  assert (0 < 2 ^ (- e)) by (apply Z.pow_pos_nonneg; lia).
  destruct (Z.eqb_spec (m mod 2 ^ (- e)) 0) as [Hm|]; [|done]. intros [= <-].
  rewrite Z.mod_opp_l_z, Z.eqb_refl, Z.div_opp_l_z by lia. done.
Qed.

(** The sign of an integer shows in its mantissa. *)
Lemma to_integer_sign m e z : to_integer (Fin m e) = Some z -> (m = 0 <-> z = 0) /\ (0 < m <-> 0 < z).
Proof.
  intros Hz. pose proof (to_integer_scaled m e (Z.min e 0) z ltac:(lia) ltac:(lia) Hz) as E.
  assert (0 < 2 ^ (e - Z.min e 0)) by (apply Z.pow_pos_nonneg; lia).
  assert (0 < 2 ^ (- Z.min e 0)) by (apply Z.pow_pos_nonneg; lia). nia.
Qed.

(** [x === y] *)
Definition eqb (x y : jsnum) : bool :=
  match x, y with
  | Fin m1 e1, Fin m2 e2 =>
      let e := Z.min e1 e2 in m1 * 2 ^ (e1 - e) =? m2 * 2 ^ (e2 - e)
  | Inf b, Inf c => Bool.eqb b c
  | _, _ => false
  end.

(** [!x] for a number: zero and NaN are falsy. *)
Definition falsy (x : jsnum) : bool :=
  match x with NaN => true | Inf _ => false | Fin m _ => m =? 0 end.

Lemma to_integer_value m e z k :
  0 <= k + e -> 0 <= k -> to_integer (Fin m e) = Some z <-> m * 2 ^ (k + e) = z * 2 ^ k.
Proof.
  intros Hk Hk0. unfold to_integer. destruct (Z.leb_spec 0 e) as [He|He].
  - rewrite Z.pow_add_r by lia. pose proof (Z.pow_pos_nonneg 2 k ltac:(lia) Hk0). split.
    + intros [= <-]. ring.
    + intros E. f_equal. nia.
  - assert (Hpow : 2 ^ k = 2 ^ (k + e) * 2 ^ (- e)) by (rewrite <- Z.pow_add_r by lia; f_equal; lia).
    pose proof (Z.pow_pos_nonneg 2 (k + e) ltac:(lia) Hk). pose proof (Z.pow_pos_nonneg 2 (- e) ltac:(lia) ltac:(lia)).
    rewrite Hpow. pose proof (Z.div_mod m (2 ^ (- e)) ltac:(lia)) as Hd.
    destruct (Z.eqb_spec (m mod 2 ^ (- e)) 0) as [Hz0|Hz0]; split.
    + intros [= <-]. nia.
    + intros E. f_equal. assert (m = z * 2 ^ (- e)) by nia. subst m. by rewrite Z.div_mul by lia.
    + done.
    + intros E. destruct Hz0. assert (m = z * 2 ^ (- e)) by nia. subst m. by apply Z.mod_mul; lia.
Qed.

(** Comparing with an integer is reading the number as that integer. *)
Lemma eqb_to_integer x y p : to_integer y = Some p -> eqb x y = true <-> to_integer x = Some p.
Proof.
  destruct y as [| |m2 e2]; try done. destruct x as [| |m1 e1]; try done. intros Hy. unfold eqb.
  set (e := Z.min e1 e2). set (k := Z.abs e1 + Z.abs e2).
  rewrite (to_integer_value m1 e1 p k) by lia. apply (to_integer_value m2 e2 p k) in Hy; [|lia..].
  rewrite Z.eqb_eq, <- Hy.
  replace (k + e1) with ((e1 - e) + (k + e)) by lia. replace (k + e2) with ((e2 - e) + (k + e)) by lia.
  rewrite !(Z.pow_add_r 2 (_ - e)) by lia. pose proof (Z.pow_pos_nonneg 2 (k + e) ltac:(lia) ltac:(lia)).
  rewrite !Z.mul_assoc. split; [by intros ->|]. intros E. by apply Z.mul_cancel_r in E; [|lia].
Qed.

End JsNumber.
