(* ===== verification/Paths.v ===== *)
(** * POSIX paths as Node resolves them, and the filesystem app's use of them

    [NodePath] models the part of Node's [path.posix] the code uses
    ([normalize], [join], [resolve], [relative], [dirname]), segment by segment.
    [FsApp] is apps/filesystem/src/paths.ts. *)
From S2P Require Import Prelude.

Module NodePath.

Definition slash : ascii := "/".
Definition isAbsolute (p : string) : bool := Str.starts_with "/" p.

(** One step of [normalizeString], on the stack of segments kept so far:
    [allow] is [allowAboveRoot]. *)
Definition push (allow : bool) (stack : list string) (seg : string) : list string :=
  if String.eqb seg "" || String.eqb seg "." then stack
  else if String.eqb seg ".." then
    match stack with
    | top :: rest =>
        if String.eqb top ".." then (if allow then ".." :: stack else stack) else rest
    | [] => if allow then [".."] else []
    end
  else seg :: stack.

Definition norm_segs (allow : bool) (segs : list string) : list string :=
  reverse (foldl (push allow) [] segs).

Definition normalizeString (allow : bool) (p : string) : string :=
  Str.join "/" (norm_segs allow (Str.split slash p)).

Definition normalize (path : string) : string :=
  if String.eqb path "" then "."
  else
    let abs := isAbsolute path in
    let trailing := Str.ends_with "/" path in
    let p := normalizeString (negb abs) path in
    if String.eqb p "" then (if abs then "/" else if trailing then "./" else ".")
    else
      let p' := if trailing then p +:+ "/" else p in
      if abs then "/" +:+ p' else p'.

(** [join(...args)]: empty arguments are skipped. *)
Definition join (args : list string) : string :=
  match filter (fun a => a <> "") args with
  | [] => "."
  | l => normalize (Str.join "/" l)
  end.

(** [resolve(...args)]: from the right, until an absolute argument (the working
    directory comes last, and is absolute). *)
Fixpoint resolve_loop (rargs : list string) (acc : string) (abs : bool) : string * bool :=
  match rargs with
  | [] => (acc, abs)
  | path :: rest =>
      if abs then (acc, abs)
      else if String.eqb path "" then resolve_loop rest acc abs
      else resolve_loop rest (path +:+ "/" +:+ acc) (isAbsolute path)
  end.

Definition resolve (cwd : string) (args : list string) : string :=
  let '(resolved, abs) := resolve_loop (reverse args ++ [cwd]) "" false in
  let p := normalizeString (negb abs) resolved in
  if abs then "/" +:+ p else if String.eqb p "" then "." else p.

(** The segments of a resolved absolute path. *)
Definition segments (p : string) : list string :=
  filter (fun w => w <> "") (Str.split slash p).

Fixpoint drop_common (a b : list string) : list string * list string :=
  match a, b with
  | x :: a', y :: b' => if String.eqb x y then drop_common a' b' else (a, b)
  | _, _ => (a, b)
  end.

(** [relative(from, to)] *)
Definition relative (cwd from to : string) : string :=
  if String.eqb from to then ""
  else
    let '(up, down) := drop_common (segments (resolve cwd [from])) (segments (resolve cwd [to])) in
    Str.join "/" (replicate (length up) ".." ++ down).

(** [dirname(path)]: the index of the slash to cut at, scanning from the end
    down to index 1 past any trailing slashes. *)
Fixpoint dirname_end (path : string) (i : nat) (matchedSlash : bool) : option nat :=
  match i with
  | O => None
  | S i' =>
      match String.get i path with
      | Some c =>
          if Ascii.eqb c slash
          then if matchedSlash then dirname_end path i' true else Some i
          else dirname_end path i' false
      | None => dirname_end path i' matchedSlash
      end
  end.

Definition dirname (path : string) : string :=
  match path with
  | EmptyString => "."
  | _ =>
      let hasRoot := isAbsolute path in
      match dirname_end path (String.length path - 1) true with
      | None => if hasRoot then "/" else "."
      | Some e => if hasRoot && (e =? 1) then "//" else Str.take e path
      end
  end.

(** ** Normal forms *)

Definition good (w : string) : Prop :=
  w <> "" /\ w <> "." /\ w <> ".." /\ Str.any (Ascii.eqb slash) w = false.

(** The absolute path with these segments. *)
Definition abs_path (segs : list string) : string := "/" +:+ Str.join "/" segs.

(** ** Lemmas *)

Lemma split_app_sep a b : Str.split slash (a +:+ "/" +:+ b) = Str.split slash a ++ Str.split slash b.
Proof. apply StrFacts.split_sep. Qed.

Lemma push_good allow st w : good w -> push allow st w = w :: st.
Proof.
  intros (H1 & H2 & H3 & _). apply String.eqb_neq in H1, H2, H3.
  unfold push. by rewrite H1, H2, H3.
Qed.

Lemma foldl_push_good allow st l : Forall good l -> foldl (push allow) st l = reverse l ++ st.
Proof.
  intros H; revert st; induction H as [|w l Hw Hl IH]; intros st; [done|].
  cbn [foldl]. rewrite push_good, IH, reverse_cons, <- app_assoc by done. done.
Qed.

Lemma push_inv st w :
  Str.any (Ascii.eqb slash) w = false -> Forall good st -> Forall good (push false st w).
Proof.
  intros Hw Hst. unfold push.
  destruct (String.eqb_spec w ""); [done|]. destruct (String.eqb_spec w "."); [done|]. cbn [orb].
  destruct (String.eqb_spec w "..").
  - destruct Hst as [|t st Ht Hst]; [constructor|].
    destruct (String.eqb t ".."); [by constructor|done].
  - constructor; [by split_and!|done].
Qed.

Lemma foldl_push_inv st l :
  Forall (fun w => Str.any (Ascii.eqb slash) w = false) l -> Forall good st ->
  Forall good (foldl (push false) st l).
Proof. intros H; revert st; induction H; intros st Hst; [done|]. cbn. auto using push_inv. Qed.

Lemma norm_segs_good l :
  Forall (fun w => Str.any (Ascii.eqb slash) w = false) l -> Forall good (norm_segs false l).
Proof. intros H. apply Forall_reverse, foldl_push_inv; [done|constructor]. Qed.

Lemma norm_segs_id allow l : Forall good l -> norm_segs allow l = l.
Proof.
  intros H. unfold norm_segs. rewrite foldl_push_good by done.
  by rewrite app_nil_r, reverse_involutive.
Qed.

Lemma norm_segs_empty allow l l' : norm_segs allow (l ++ "" :: l') = norm_segs allow (l ++ l').
Proof. unfold norm_segs. by rewrite !foldl_app. Qed.

Lemma norm_segs_nil_end allow l : norm_segs allow (l ++ [""]) = norm_segs allow l.
Proof. by rewrite norm_segs_empty, app_nil_r. Qed.

Lemma norm_segs_app_norm l l' :
  Forall (fun w => Str.any (Ascii.eqb slash) w = false) l ->
  norm_segs false (norm_segs false l ++ l') = norm_segs false (l ++ l').
Proof.
  intros H. unfold norm_segs at 1 3. rewrite !foldl_app.
  rewrite (foldl_push_good _ _ (norm_segs false l)) by by apply norm_segs_good.
  unfold norm_segs. by rewrite reverse_involutive, app_nil_r.
Qed.

Lemma split_join_good segs : Forall good segs -> segs <> [] -> Str.split slash (Str.join "/" segs) = segs.
Proof.
  intros H Hne. apply (StrFacts.split_join slash); [done|].
  eapply Forall_impl; [done|]. by intros w (_ & _ & _ & ?).
Qed.

Lemma segments_abs_path segs : Forall good segs -> segments (abs_path segs) = segs.
Proof.
  intros H. unfold segments, abs_path. rewrite app_cons_str, app_empty_str. cbn [Str.split].
  change (Ascii.eqb "/" slash) with true. cbn [filter].
  rewrite filter_cons_False by (intros E; by apply E).
  destruct segs as [|w segs]; [done|].
  rewrite split_join_good by done. apply filter_Forall.
  eapply Forall_impl; [done|]. by intros x (? & _).
Qed.

Lemma abs_path_inj a b : Forall good a -> Forall good b -> abs_path a = abs_path b -> a = b.
Proof.
  intros Ha Hb E. rewrite <- (segments_abs_path a), <- (segments_abs_path b) by done. by rewrite E.
Qed.

Lemma split_abs_path segs :
  Forall good segs -> norm_segs false (Str.split slash (abs_path segs)) = segs.
Proof.
  intros H. unfold abs_path. rewrite app_cons_str, app_empty_str. cbn [Str.split].
  change (Ascii.eqb "/" slash) with true. cbv iota.
  transitivity (norm_segs false (Str.split slash (Str.join "/" segs))); [done|].
  destruct segs as [|w segs]; [done|]. rewrite split_join_good by done. by apply norm_segs_id.
Qed.

Lemma isAbsolute_abs_path segs : isAbsolute (abs_path segs) = true.
Proof. done. Qed.

(** [resolve] of one absolute path. *)
Lemma resolve_abs cwd p :
  isAbsolute p = true -> resolve cwd [p] = abs_path (norm_segs false (Str.split slash p)).
Proof.
  intros Hp. unfold resolve. cbn [reverse rev_append app resolve_loop].
  assert (String.eqb p "" = false) as -> by (apply String.eqb_neq; by intros ->).
  rewrite Hp. cbn [resolve_loop negb]. unfold normalizeString, abs_path.
  rewrite split_app_sep. cbn [Str.split]. by rewrite norm_segs_nil_end.
Qed.

Lemma resolve_abs_second cwd root p :
  isAbsolute p = true -> resolve cwd [root; p] = resolve cwd [p].
Proof.
  intros Hp. unfold resolve. cbn [reverse rev_append app resolve_loop].
  assert (String.eqb p "" = false) as -> by (apply String.eqb_neq; by intros ->).
  rewrite Hp. by destruct root.
Qed.

Lemma resolve_rel_second cwd root p :
  isAbsolute root = true -> isAbsolute p = false ->
  resolve cwd [root; p] = abs_path (norm_segs false (Str.split slash root ++ Str.split slash p)).
Proof.
  intros Hr Hp. unfold resolve. cbn [reverse rev_append app resolve_loop].
  assert (String.eqb root "" = false) as Hr' by (apply String.eqb_neq; by intros ->).
  unfold normalizeString, abs_path.
  destruct (String.eqb_spec p "") as [->|Hne]; rewrite Hr', ?Hp, Hr; cbn [negb resolve_loop];
    rewrite !split_app_sep; cbn [Str.split]; rewrite ?app_assoc, norm_segs_nil_end; done.
Qed.

Lemma no_slash_split p : Forall (fun w => Str.any (Ascii.eqb slash) w = false) (Str.split slash p).
Proof. apply StrFacts.split_pieces. Qed.

(** Every resolution from an absolute root is an absolute path in normal form. *)
Lemma resolve_normal cwd root p :
  isAbsolute root = true ->
  exists segs, resolve cwd [root; p] = abs_path segs /\ Forall good segs.
Proof.
  intros Hr. destruct (isAbsolute p) eqn:Hp.
  - rewrite resolve_abs_second, resolve_abs by done. eexists; split; [done|].
    apply norm_segs_good, no_slash_split.
  - rewrite resolve_rel_second by done. eexists; split; [done|].
    apply norm_segs_good, Forall_app_2; apply no_slash_split.
Qed.

Lemma resolve_abs_path cwd segs : Forall good segs -> resolve cwd [abs_path segs] = abs_path segs.
Proof. intros H. rewrite resolve_abs by done. by rewrite split_abs_path. Qed.

Lemma drop_common_spec a b :
  exists c, a = c ++ (drop_common a b).1 /\ b = c ++ (drop_common a b).2 /\
    ((drop_common a b).1 = [] \/ (drop_common a b).2 = [] \/
     head (drop_common a b).1 <> head (drop_common a b).2).
Proof.
  revert b; induction a as [|x a IH]; intros b; [by exists []; cbn; auto|].
  destruct b as [|y b]; [by exists []; cbn; auto|]. cbn [drop_common].
  destruct (String.eqb_spec x y) as [->|Hne].
  - destruct (IH b) as (c & Ha & Hb & Hh). exists (y :: c). cbn. by rewrite <- Ha, <- Hb.
  - exists []. cbn. split_and!; try done. right; right. congruence.
Qed.

Lemma relative_abs cwd a b :
  Forall good a -> Forall good b ->
  relative cwd (abs_path a) (abs_path b) =
    Str.join "/" (replicate (length (drop_common a b).1) ".." ++ (drop_common a b).2).
Proof.
  intros Ha Hb. unfold relative.
  rewrite !resolve_abs_path, !segments_abs_path by done.
  destruct (String.eqb_spec (abs_path a) (abs_path b)) as [E|].
  - apply abs_path_inj in E as ->; [|done..].
    assert (drop_common b b = ([], [])) as ->; [|done].
    clear. induction b as [|x b IH]; cbn; [done|]. by rewrite String.eqb_refl.
  - by destruct (drop_common a b).
Qed.

(** [dirname] strictly shortens every absolute path but the root, and stays absolute. *)
Lemma dirname_end_bound p i m e :
  dirname_end p i m = Some e -> 1 <= e <= i /\ (m = true -> e < i).
Proof.
  revert m; induction i as [|i IH]; intros m; [done|]. cbn [dirname_end].
  destruct (String.get (S i) p) as [c|].
  - destruct (Ascii.eqb c slash).
    + destruct m; [intros H; apply IH in H; naive_solver lia|intros [= <-]; lia].
    + intros H. apply IH in H. naive_solver lia.
  - intros H. apply IH in H. naive_solver lia.
Qed.

Lemma dirname_absolute p :
  isAbsolute p = true ->
  isAbsolute (dirname p) = true /\ (p <> "/" -> String.length (dirname p) < String.length p).
Proof.
  intros Hp. destruct p as [|c p]; [done|]. unfold dirname. rewrite Hp.
  apply StrFacts.starts_with_spec in Hp as [t [= -> _]].
  destruct (dirname_end _ _ true) as [e|] eqn:E.
  - apply dirname_end_bound in E as [He1 He2]. specialize (He2 eq_refl).
    destruct (Nat.eqb_spec e 1) as [->|Hne]; cbn [andb].
    + cbn [String.length] in *. split; [done|]. lia.
    + destruct e as [|e]; [lia|]. cbn [Str.take String.length] in *.
      split; [done|]. rewrite StrFacts.length_take. lia.
  - split; [done|]. destruct p; [done|]. cbn [String.length]. lia.
Qed.

(** [join] of a normal absolute path and one more segment. *)
Lemma join_abs_path segs f :
  Forall good segs -> good f -> join [abs_path segs; f] = abs_path (segs ++ [f]).
Proof.
  intros Hs Hf. assert (Hsf : Forall good (segs ++ [f])) by (apply Forall_app_2; auto).
  assert (Hne : segs ++ [f] <> []) by by destruct segs.
  unfold join. rewrite !filter_cons_True, filter_nil by (apply Hf || done).
  change (Str.join "/" [abs_path segs; f]) with (abs_path segs +:+ "/" +:+ f).
  assert (Hsplit : Str.split slash (abs_path segs +:+ "/" +:+ f) = Str.split slash (abs_path segs) ++ [f]).
  { rewrite split_app_sep. f_equal. apply StrFacts.split_single, Hf. }
  assert (Hp : normalizeString false (abs_path segs +:+ "/" +:+ f) = Str.join "/" (segs ++ [f])).
  { unfold normalizeString. rewrite Hsplit, <- norm_segs_app_norm, split_abs_path by auto using no_slash_split.
    by rewrite norm_segs_id. }
  unfold normalize. rewrite (proj2 (String.eqb_neq _ "")) by done.
  change (isAbsolute (abs_path segs +:+ "/" +:+ f)) with true. cbn [negb].
  assert (Str.ends_with "/" (abs_path segs +:+ "/" +:+ f) = false) as ->.
  { apply not_true_iff_false. intros [t Ht]%StrFacts.ends_with_spec. apply (f_equal (Str.split slash)) in Ht.
    change (t +:+ "/") with (t +:+ "/" +:+ "") in Ht. rewrite Hsplit, split_app_sep in Ht.
    apply app_inj_tail in Ht as [_ Ht]. by destruct Hf. }
  rewrite Hp. rewrite (proj2 (String.eqb_neq _ "")); [done|]. intros E.
  assert (Hj := split_join_good _ Hsf Hne). rewrite E in Hj. cbn in Hj.
  destruct segs as [|w segs]; injection Hj as Hw; [by destruct Hf|by destruct segs].
Qed.

End NodePath.

(** ** apps/filesystem/src/paths.ts *)
Module FsApp.
Import NodePath.

(** What a [catch] clause receives: an Error with its [code], or anything else. *)
Inductive thrown : Type :=
| ErrorObj (message : string) (code : option string)
| NotAnError (value : string).

Definition dq : string := String (ascii_of_nat 34) "".

Section paths.
(** [process.cwd()], an absolute path. *)
Context (cwd : string).

Definition resolveUnder (root path : string) : string := resolve cwd [root; path].

Definition isInside (root absolutePath : string) : bool :=
  let rel := relative cwd (resolve cwd [root]) absolutePath in
  negb (String.eqb rel "..") && negb (Str.starts_with "../" rel) && negb (isAbsolute rel).

Definition withContext (err : thrown) (root path absolutePath : string) : thrown :=
  match err with
  | NotAnError _ => err
  | ErrorObj message code =>
      if isInside root absolutePath then err
      else
        ErrorObj
          (dq +:+ path +:+ dq +:+ " resolves to " +:+ absolutePath +:+ ", which is outside " +:+ root
           +:+ ". " +:+ "Relative paths are relative to " +:+ root
           +:+ ", and an absolute path is used as written, so " +:+ dq +:+ "/notes.txt" +:+ dq
           +:+ " means /notes.txt, not " +:+ root +:+ "/notes.txt. " +:+ "(" +:+ message +:+ ")")
          code
  end.

Definition relativeUnder (root path : string) : result string string :=
  let absolutePath := resolveUnder root path in
  if negb (isInside root absolutePath) then
    Err (dq +:+ path +:+ dq +:+ " resolves to " +:+ absolutePath +:+ ", which is outside " +:+ root
         +:+ ". Relative paths are relative to " +:+ root +:+ ".")
  else
    let rel := relative cwd (resolve cwd [root]) absolutePath in
    if String.eqb rel ""
    then Err (dq +:+ path +:+ dq +:+ " is " +:+ root +:+ " itself, not a file under it.")
    else Ok rel.

(** The reads and writes, over the operating system's file operations: each
    takes the state of the disk and returns it, changed or not, with its result. *)
Section io.
Context {disk : Type}.
Context (mkdir_recursive : string -> disk -> result thrown unit * disk).
Context (writeFile : string -> string -> disk -> result thrown unit * disk).
Context (readFile : string -> disk -> result thrown string).

Definition writeFileUnder (root path content : string) (d : disk) : result thrown unit * disk :=
  let absolutePath := resolveUnder root path in
  match mkdir_recursive (dirname absolutePath) d with
  | (Err err, d1) => (Err (withContext err root path absolutePath), d1)
  | (Ok _, d1) =>
      match writeFile absolutePath content d1 with
      | (Err err, d2) => (Err (withContext err root path absolutePath), d2)
      | (Ok _, d2) => (Ok tt, d2)
      end
  end.

Definition readFileUnder (root path : string) (d : disk) : result thrown string :=
  let absolutePath := resolveUnder root path in
  match readFile absolutePath d with
  | Err err => Err (withContext err root path absolutePath)
  | Ok content => Ok content
  end.
End io.

(** ** Lemmas *)

Lemma join_segs_eq a b : Forall good a -> Forall good b -> Str.join "/" a = Str.join "/" b -> a = b.
Proof.
  intros Ha Hb E. apply abs_path_inj; [done..|]. unfold abs_path. by rewrite E.
Qed.

Lemma join_good_cases l :
  Forall good l ->
  Str.join "/" l <> ".." /\ Str.starts_with "../" (Str.join "/" l) = false /\
  isAbsolute (Str.join "/" l) = false.
Proof.
  intros H. destruct l as [|w l]; [done|].
  assert (Hs := split_join_good _ H ltac:(done)).
  inversion_clear H as [|?? (Hw & _ & Hdd & _) _].
  split_and!.
  - intros E. rewrite E in Hs. by injection Hs as <- _.
  - apply not_true_iff_false. intros [t E]%StrFacts.starts_with_spec. rewrite E in Hs.
    change ("../" +:+ t) with (".." +:+ "/" +:+ t) in Hs. rewrite split_app_sep in Hs.
    by injection Hs as <- _.
  - apply not_true_iff_false. intros [t E]%StrFacts.starts_with_spec. rewrite E in Hs.
    by injection Hs as <- _.
Qed.

Lemma join_dots n l :
  (0 < n)%nat ->
  Str.join "/" (replicate n ".." ++ l) = ".." \/
  Str.starts_with "../" (Str.join "/" (replicate n ".." ++ l)) = true.
Proof.
  intros Hn. destruct n as [|n]; [lia|]. cbn [replicate app].
  destruct (replicate n ".." ++ l) as [|w ws] eqn:E; [by left|]. by right.
Qed.

Lemma isInside_abs root r a :
  isAbsolute root = true -> resolve cwd [root] = abs_path r -> Forall good r -> Forall good a ->
  isInside root (abs_path a) = true <-> exists s, a = r ++ s.
Proof.
  intros Hroot Hr Hgr Hga. unfold isInside. rewrite Hr, relative_abs by done.
  destruct (drop_common_spec r a) as (c & Hc1 & Hc2 & Hhd).
  destruct (drop_common r a) as [up down]; cbn [fst snd] in *.
  rewrite !andb_true_iff, !negb_true_iff, String.eqb_neq.
  assert (Hgd : Forall good down) by (subst a; by apply Forall_app in Hga as [_ ?]).
  destruct up as [|u up]; cbn [length replicate app].
  - rewrite app_nil_r in Hc1. subst c. split; [eauto|]. intros _.
    by destruct (join_good_cases down Hgd) as (?&?&?).
  - split.
    + intros [[Hnd Hns] _]. destruct (join_dots (S (length up)) down ltac:(lia)) as [E|E];
        cbn [replicate app] in E; congruence.
    + intros [s Hs]. exfalso. subst r a. rewrite <- app_assoc in Hs.
      apply app_inv_head in Hs. subst down. by destruct Hhd as [?|[?|?]].
Qed.

Lemma relative_beneath r s :
  Forall good (r ++ s) -> relative cwd (abs_path r) (abs_path (r ++ s)) = Str.join "/" s.
Proof.
  intros Hg. pose proof Hg as [Hr Hs]%Forall_app. rewrite relative_abs by done.
  assert (drop_common r (r ++ s) = ([], s)) as ->; [|done].
  clear. induction r as [|x r IH]; cbn; [by destruct s|]. by rewrite String.eqb_refl.
Qed.

(** The segments of the root and of a path resolved under it. *)
Lemma resolve_root_cases root path :
  isAbsolute root = true ->
  exists r a, resolve cwd [root] = abs_path r /\ resolveUnder root path = abs_path a /\
    Forall good r /\ Forall good a.
Proof.
  intros Hroot. destruct (resolve_normal cwd root path Hroot) as (a & Ha & Hga).
  exists (norm_segs false (Str.split slash root)), a.
  split_and!; [by apply resolve_abs|done|apply norm_segs_good, no_slash_split|done].
Qed.

Lemma resolveUnder_join root r s :
  isAbsolute root = true -> resolve cwd [root] = abs_path r -> Forall good (r ++ s) ->
  resolveUnder root (Str.join "/" s) = abs_path (r ++ s).
Proof.
  intros Hroot Hr Hg. pose proof Hg as [Hgr Hgs]%Forall_app. unfold resolveUnder.
  rewrite resolve_rel_second; [|done|by apply join_good_cases].
  rewrite resolve_abs in Hr by done.
  apply abs_path_inj in Hr; [|apply norm_segs_good, no_slash_split|done].
  rewrite <- norm_segs_app_norm, Hr by apply no_slash_split. f_equal.
  destruct s as [|w s].
  - cbn. rewrite norm_segs_nil_end, app_nil_r. by apply norm_segs_id.
  - rewrite split_join_good by done. by apply norm_segs_id.
Qed.

(** [relativeUnder] succeeds exactly on the paths that resolve strictly
    beneath the root, and then returns the segments below the root joined by
    slashes: no dot, dot-dot or empty segment survives. A path outside the root
    and the root itself are both refused. *)
Theorem relativeUnder_spec root path rel :
  isAbsolute root = true ->
  relativeUnder root path = Ok rel <->
  exists r s, resolve cwd [root] = abs_path r /\ s <> [] /\ Forall good (r ++ s) /\
    resolveUnder root path = abs_path (r ++ s) /\ rel = Str.join "/" s.
Proof.
  intros Hroot. destruct (resolve_root_cases root path Hroot) as (r & a & Hr & Ha & Hgr & Hga).
  unfold relativeUnder. rewrite Ha. destruct (isInside root (abs_path a)) eqn:Hin; cbn [negb].
  - apply (isInside_abs root r a Hroot Hr Hgr Hga) in Hin as [s ->].
    rewrite Hr, relative_beneath by done.
    destruct (String.eqb_spec (Str.join "/" s) "") as [E|E].
    + split; [done|]. intros (r' & s' & Hr' & Hs' & Hg' & Ha' & ->). exfalso. apply Hs'.
      pose proof Hg' as [Hgr' Hgs']%Forall_app.
      apply abs_path_inj in Hr' as <-; [|done..].
      apply abs_path_inj in Ha'; [|done..]. apply app_inv_head in Ha' as ->.
      apply (join_segs_eq _ []) in E; [done|done|constructor].
    + split.
      * intros [= <-]. exists r, s. split_and!; try done. by intros ->.
      * intros (r' & s' & Hr' & _ & Hg' & Ha' & ->). pose proof Hg' as [Hgr' Hgs']%Forall_app.
        apply abs_path_inj in Hr' as <-; [|done..].
        apply abs_path_inj in Ha'; [|done..]. by apply app_inv_head in Ha' as ->.
  - split; [done|]. intros (r' & s' & Hr' & _ & Hg' & Ha' & _). exfalso.
    pose proof Hg' as [Hgr' Hgs']%Forall_app. rewrite Hr in Hr'.
    apply abs_path_inj in Hr' as <-; [|done..].
    apply abs_path_inj in Ha' as ->; [|done..].
    apply not_true_iff_false in Hin. apply Hin, (isInside_abs root r); eauto.
Qed.

(** The key [relativeUnder] gives a file is the one spelling of it: it
    resolves to the same file, is its own key, and two paths get the same key
    exactly when they name the same file. *)
Theorem relativeUnder_canonical root p q relp relq :
  isAbsolute root = true -> relativeUnder root p = Ok relp -> relativeUnder root q = Ok relq ->
  resolveUnder root relp = resolveUnder root p /\
  relativeUnder root relp = Ok relp /\
  (relp = relq <-> resolveUnder root p = resolveUnder root q).
Proof.
  intros Hroot Hp Hq.
  apply relativeUnder_spec in Hp as (r & s & Hr & Hne & Hg & Hp & ->); [|done].
  apply relativeUnder_spec in Hq as (r' & s' & Hr' & Hne' & Hg' & Hq & ->); [|done].
  pose proof Hg as [Hgr Hgs]%Forall_app. pose proof Hg' as [Hgr' Hgs']%Forall_app.
  rewrite Hr in Hr'. apply abs_path_inj in Hr' as <-; [|done..].
  assert (Hj := resolveUnder_join root r s Hroot Hr Hg). split_and!.
  - congruence.
  - apply relativeUnder_spec; [done|]. exists r, s. by split_and!.
  - rewrite Hp, Hq. split.
    + intros E. by apply join_segs_eq in E as ->.
    + intros E. apply abs_path_inj in E; [|done..]. by apply app_inv_head in E as ->.
Qed.

(** An error explained to the agent keeps its code, and an error from inside
    the root is passed on as it is. *)
Lemma withContext_code message code root path absolutePath :
  exists message', withContext (ErrorObj message code) root path absolutePath = ErrorObj message' code.
Proof. unfold withContext. case_match; eauto. Qed.

(** [writeFileUnder] touches the disk through exactly one directory
    creation and then one write, both at the resolved path, and fails with the
    operating system's own error code: if the directory cannot be created the
    file is never written. *)
Theorem writeFileUnder_effects {disk : Type}
    (mkdir : string -> disk -> result thrown unit * disk)
    (writeFile : string -> string -> disk -> result thrown unit * disk) root path content d :
  let target := resolveUnder root path in
  match mkdir (dirname target) d with
  | (Err (ErrorObj m c), d1) =>
      exists m', writeFileUnder mkdir writeFile root path content d = (Err (ErrorObj m' c), d1)
  | (Err (NotAnError v), d1) =>
      writeFileUnder mkdir writeFile root path content d = (Err (NotAnError v), d1)
  | (Ok _, d1) =>
      match writeFile target content d1 with
      | (Ok _, d2) => writeFileUnder mkdir writeFile root path content d = (Ok tt, d2)
      | (Err (ErrorObj m c), d2) =>
          exists m', writeFileUnder mkdir writeFile root path content d = (Err (ErrorObj m' c), d2)
      | (Err (NotAnError v), d2) =>
          writeFileUnder mkdir writeFile root path content d = (Err (NotAnError v), d2)
      end
  end.
Proof.
  intros target. unfold writeFileUnder. fold target.
  destruct (mkdir (dirname target) d) as [[[]|[m c|v]] d1]; [|destruct (withContext_code m c root path target) as [m' ->]; eauto|done].
  destruct (writeFile target content d1) as [[[]|[m c|v]] d2]; [done|destruct (withContext_code m c root path target) as [m' ->]; eauto|done].
Qed.
End paths.

(** ** Witnesses *)

Lemma relativeUnder_spec_witness :
  relativeUnder "/" "/context" "./x/../a.txt" = Ok "a.txt" <->
  exists r s, resolve "/" ["/context"] = abs_path r /\ s <> [] /\ Forall good (r ++ s) /\
    resolveUnder "/" "/context" "./x/../a.txt" = abs_path (r ++ s) /\ "a.txt" = Str.join "/" s.
Proof. apply (relativeUnder_spec "/" "/context" "./x/../a.txt" "a.txt"). vm_compute. reflexivity. Defined.

Lemma relativeUnder_canonical_witness :
  resolveUnder "/" "/context" "a.txt" = resolveUnder "/" "/context" "./a.txt" /\
  relativeUnder "/" "/context" "a.txt" = Ok "a.txt" /\
  ("a.txt" = "a.txt" <->
   resolveUnder "/" "/context" "./a.txt" = resolveUnder "/" "/context" "/context/a.txt").
Proof.
  apply (relativeUnder_canonical "/" "/context" "./a.txt" "/context/a.txt" "a.txt" "a.txt");
    vm_compute; reflexivity.
Defined.
End FsApp.
