(* ===== verification/Policy.v ===== *)
(** * The capability-policy compiler

    packages/sdk/src/generate-capability-policy.ts: what a berth.yml's
    capabilities mean to the kernel. The operating system's answers about the
    app's dependency tree (realpath, readdir, stat, lstat) are a record of
    functions, and the process environment is a set of arguments. *)
From S2P Require Import Prelude JsNumber Paths Capability.

Module Policy.
Import NodePath Capability.

(** What [realpathSync], [readdirSync], [statSync(..).isFile()] and
    [lstatSync(..).isSymbolicLink()] answer; the code's wrappers turn a throw
    into "no path", "no entries" and [false]. *)
Record FS : Type := {
  safeRealpath : string -> option string;
  safeReaddir : string -> list string;
  isFile : string -> bool;
  isSymlink : string -> bool;
}.

(** ** Baselines *)

Definition appTmpDir (appName : string) : string := "/tmp/" +:+ appName.
Definition appRunDir (appName : string) : string := "/run/berth/" +:+ appName.
Definition baselineWritePaths (appName : string) : list string :=
  ["/dev/null"; appTmpDir appName; appRunDir appName].
Definition TERMINAL_WRITE_PATHS : list string := ["/dev/pts"; "/dev/ptmx"].
Definition GITHUB_BROKER_CERT_DIR : string := "/run/berth/github-api-broker".
Definition baselineReadPaths (cwd appName : string) : list string :=
  ["/usr"; "/bin"; "/sbin"; "/lib"; "/etc"; "/proc"; "/dev"; "/tmp"; appRunDir appName; cwd].

(** ** Dependencies of an app *)

Definition isUnderPrefix (path : string) (prefixes : list string) : bool :=
  negb (String.eqb path "/")
  && existsb (fun prefix => negb (String.eqb prefix "/") && isWithin path prefix) prefixes.

Definition WORKSPACE_LIBRARY_DIRS : list string := ["packages"; "packages/adapters"; "experimental"].

Inductive dependency_kind : Type := Store | Package.

Section dependencies.
Context (fs : FS).

Definition acceptedDependency (target workspace : string) : option (string * dependency_kind) :=
  let store := join [workspace; "node_modules"; ".pnpm"] in
  if isWithin target store && negb (String.eqb target store) then Some (store, Store)
  else
    let parent := dirname target in
    let isLibrary := existsb (fun dir => String.eqb parent (join [workspace; dir])) WORKSPACE_LIBRARY_DIRS in
    if isLibrary && isFile fs (join [target; "package.json"])
       && negb (isFile fs (join [target; "berth.yml"]))
    then Some (target, Package) else None.

(** The loop of [findWorkspaceRoot] from [current] up; [fuel] bounds the number
    of ancestors looked at. *)
Fixpoint findWorkspaceRoot_from (fuel : nat) (current : string) : option (option string) :=
  match fuel with
  | O => None
  | S fuel' =>
      if negb (String.eqb current "/") && isFile fs (join [current; "pnpm-workspace.yaml"])
      then Some (Some current)
      else if String.eqb current "/" then Some None
      else findWorkspaceRoot_from fuel' (dirname current)
  end.

Definition findWorkspaceRoot (fuel : nat) (dir : string) : option (option string) :=
  findWorkspaceRoot_from fuel (dirname dir).

(** Why a link grants nothing (the warning printed). *)
Inductive refusal : Type :=
| NotWorkspaceDependency (linkPath target : string)
| OutsidePrefixes (linkPath target : string).

Record scan_state : Type := {
  visited : list string;
  out : list string;
  warnings : list refusal;
}.

(** The package names below one node_modules directory. *)
Definition entry_names (modules entry : string) : list string :=
  if Str.starts_with "." entry then []
  else if Str.starts_with "@" entry
  then (fun n => join [entry; n]) <$> safeReaddir fs (join [modules; entry])
  else [entry].

Section scan.
Context (appReal : string) (workspace : option string) (allowedPrefixes : list string).

(** One link of a node_modules directory; [rec] is the recursive [scan]. *)
Definition scan_link (rec : string -> scan_state -> option scan_state)
    (modules : string) (name : string) (st : scan_state) : option scan_state :=
  let linkPath := join [modules; name] in
  if negb (isSymlink fs linkPath) then Some st
  else
    match safeRealpath fs linkPath with
    | None => Some st
    | Some target =>
        if isWithin target appReal then Some st
        else
          match (match workspace with Some w => acceptedDependency target w | None => None end) with
          | None =>
              Some {| visited := visited st; out := out st;
                      warnings := warnings st ++ [NotWorkspaceDependency linkPath target] |}
          | Some (path, kind) =>
              if negb (isUnderPrefix path allowedPrefixes)
              then Some {| visited := visited st; out := out st;
                           warnings := warnings st ++ [OutsidePrefixes linkPath target] |}
              else
                let st' := {| visited := visited st; out := JsSet.add path (out st);
                              warnings := warnings st |} in
                match kind with Package => rec target st' | Store => Some st' end
          end
    end.

Fixpoint scan_links (rec : string -> scan_state -> option scan_state)
    (modules : string) (names : list string) (st : scan_state) : option scan_state :=
  match names with
  | [] => Some st
  | name :: rest => st' ← scan_link rec modules name st; scan_links rec modules rest st'
  end.

(** [scan(packageDir)]; [fuel] bounds the depth of the recursion. *)
Fixpoint scan (fuel : nat) (packageDir : string) (st : scan_state) : option scan_state :=
  match fuel with
  | O => None
  | S fuel' =>
      let modules := join [packageDir; "node_modules"] in
      if bool_decide (modules ∈ visited st) then Some st
      else
        scan_links (scan fuel') modules (mbind (entry_names modules) (safeReaddir fs modules))
          {| visited := visited st ++ [modules]; out := out st; warnings := warnings st |}
  end.
End scan.

Definition dependencyReadPaths (fuel : nat) (appDir : string) (allowedPrefixes : list string)
    : option (list string * list refusal) :=
  let appReal := or_default appDir (safeRealpath fs appDir) in
  workspace ← findWorkspaceRoot fuel appReal;
  st ← scan appReal workspace allowedPrefixes fuel appDir {| visited := []; out := []; warnings := [] |};
  Some (out st, warnings st).
End dependencies.

(** ** Compiling capabilities *)

Record CapabilityPolicy : Type := {
  appName : string;
  declaredCapabilities : list string;
  writePaths : list string;
  readPaths : list string;
  networkPorts : list JsNumber.jsnum;
  networkUnrestricted : bool;
  meshPeers : list string;
  bindPorts : list JsNumber.jsnum;
}.

#[global] Instance jsnum_eq_dec : EqDecision JsNumber.jsnum.
Proof. solve_decision. Defined.

(** [Number(scope)], if it is an integer from 1 to 65535. *)
Definition port_of_scope (scope : string) : option JsNumber.jsnum :=
  let port := JsNumber.Number scope in
  match JsNumber.to_integer port with
  | Some z => if ((0 <? z) && (z <=? 65535))%Z then Some port else None
  | None => None
  end.

(** The variables [compileCapabilityPolicy] fills. *)
Record acc : Type := {
  effectiveCapabilities : list string;
  a_writePaths : list string;
  declaredReadPaths : list string;
  a_networkPorts : list JsNumber.jsnum;
  a_meshPeers : list string;
  a_networkUnrestricted : bool;
  declaredBindPorts : list JsNumber.jsnum;
  needsGithubBrokerCa : bool;
}.

Definition add_effective (c : string) (a : acc) : acc :=
  {| effectiveCapabilities := effectiveCapabilities a ++ [c]; a_writePaths := a_writePaths a;
     declaredReadPaths := declaredReadPaths a; a_networkPorts := a_networkPorts a;
     a_meshPeers := a_meshPeers a; a_networkUnrestricted := a_networkUnrestricted a;
     declaredBindPorts := declaredBindPorts a; needsGithubBrokerCa := needsGithubBrokerCa a |}.
Definition set_writePaths (f : list string -> list string) (a : acc) : acc :=
  {| effectiveCapabilities := effectiveCapabilities a; a_writePaths := f (a_writePaths a);
     declaredReadPaths := declaredReadPaths a; a_networkPorts := a_networkPorts a;
     a_meshPeers := a_meshPeers a; a_networkUnrestricted := a_networkUnrestricted a;
     declaredBindPorts := declaredBindPorts a; needsGithubBrokerCa := needsGithubBrokerCa a |}.
Definition set_readPaths (f : list string -> list string) (a : acc) : acc :=
  {| effectiveCapabilities := effectiveCapabilities a; a_writePaths := a_writePaths a;
     declaredReadPaths := f (declaredReadPaths a); a_networkPorts := a_networkPorts a;
     a_meshPeers := a_meshPeers a; a_networkUnrestricted := a_networkUnrestricted a;
     declaredBindPorts := declaredBindPorts a; needsGithubBrokerCa := needsGithubBrokerCa a |}.
Definition set_network (ports : list JsNumber.jsnum) (peers : list string) (unrestricted : bool)
    (a : acc) : acc :=
  {| effectiveCapabilities := effectiveCapabilities a; a_writePaths := a_writePaths a;
     declaredReadPaths := declaredReadPaths a; a_networkPorts := ports;
     a_meshPeers := peers; a_networkUnrestricted := unrestricted;
     declaredBindPorts := declaredBindPorts a; needsGithubBrokerCa := needsGithubBrokerCa a |}.
Definition set_bindPorts (f : list JsNumber.jsnum -> list JsNumber.jsnum) (a : acc) : acc :=
  {| effectiveCapabilities := effectiveCapabilities a; a_writePaths := a_writePaths a;
     declaredReadPaths := declaredReadPaths a; a_networkPorts := a_networkPorts a;
     a_meshPeers := a_meshPeers a; a_networkUnrestricted := a_networkUnrestricted a;
     declaredBindPorts := f (declaredBindPorts a); needsGithubBrokerCa := needsGithubBrokerCa a |}.
Definition set_github (a : acc) : acc :=
  {| effectiveCapabilities := effectiveCapabilities a; a_writePaths := a_writePaths a;
     declaredReadPaths := declaredReadPaths a; a_networkPorts := a_networkPorts a;
     a_meshPeers := a_meshPeers a; a_networkUnrestricted := a_networkUnrestricted a;
     declaredBindPorts := declaredBindPorts a; needsGithubBrokerCa := true |}.

Section compile.
(** [Number(process.env.BERTH_MESH_COORDINATOR_PORT ?? 4875)] and [process.cwd()]. *)
Context (MESH_COORDINATOR_PORT : JsNumber.jsnum) (cwd : string).

(** What one accepted capability adds. *)
Definition grant (parsed : ParsedCapability) (a : acc) : acc :=
  let ns := namespace parsed in
  let act := action parsed in
  let sc := scope parsed in
  if String.eqb ns "filesystem" && String.eqb act "write"
  then set_writePaths (JsSet.add (stripTrailingGlob sc)) a
  else if String.eqb ns "filesystem" && String.eqb act "read"
  then set_readPaths (JsSet.add (stripTrailingGlob sc)) a
  else if String.eqb ns "network" && String.eqb act "connect" then
    if String.eqb sc "*" then set_network (a_networkPorts a) (a_meshPeers a) true a
    else
      match port_of_scope sc with
      | Some port => set_network (JsSet.add port (a_networkPorts a)) (a_meshPeers a)
                       (a_networkUnrestricted a) a
      | None => a
      end
  else if String.eqb ns "network" && String.eqb act "bind" then
    match port_of_scope sc with
    | Some bindPort => set_bindPorts (JsSet.add bindPort) a
    | None => a
    end
  else if String.eqb ns "network" && String.eqb act "peer"
  then set_network (JsSet.add MESH_COORDINATOR_PORT (a_networkPorts a))
         (JsSet.add sc (a_meshPeers a)) (a_networkUnrestricted a) a
  else if String.eqb ns "terminal"
  then set_writePaths (fun l => JsSet.add_all l TERMINAL_WRITE_PATHS) a
  else if String.eqb ns "github" then set_github a
  else a.

(** One turn of the loop over [rawCapabilities]: anything malformed or
    semantically refused is skipped (with a warning), never thrown. *)
Definition compile_one (a : acc) (capability : string) : acc :=
  if negb (CapabilityString capability) then a
  else
    match parseCapability capability with
    | Err _ => a
    | Ok parsed =>
        match capabilityIssue capability with
        | Some _ => a
        | None => grant parsed (add_effective capability a)
        end
    end.

Definition init_acc (name : string) : acc :=
  {| effectiveCapabilities := []; a_writePaths := JsSet.of_list (baselineWritePaths name);
     declaredReadPaths := []; a_networkPorts := []; a_meshPeers := [];
     a_networkUnrestricted := false; declaredBindPorts := []; needsGithubBrokerCa := false |}.

Definition covered_by (granted : list string) (path : string) : bool :=
  existsb (fun b => isWithin path b) granted.

(** [dependencies] is [cachedDependencyReadPaths(process.cwd())]. *)
Definition compileCapabilityPolicy (dependencies : list string) (name : string)
    (rawCapabilities : list string) : CapabilityPolicy :=
  let a := foldl compile_one (init_acc name) rawCapabilities in
  let baseline := baselineReadPaths cwd name in
  {| appName := name;
     declaredCapabilities := effectiveCapabilities a;
     writePaths := a_writePaths a;
     readPaths := JsSet.of_list
       (baseline ++ dependencies
        ++ filter (fun path => covered_by baseline path = false) (a_writePaths a)
        ++ (if needsGithubBrokerCa a then [GITHUB_BROKER_CERT_DIR] else [])
        ++ declaredReadPaths a);
     networkPorts := a_networkPorts a;
     networkUnrestricted := a_networkUnrestricted a;
     meshPeers := a_meshPeers a;
     bindPorts := declaredBindPorts a |}.

(** ** Orchestration-level grants *)

Record RpcEnv : Type := {
  BERTH_HTTP_RPC_PORT : option string;
  BERTH_HTTP_RPC_APP : option string;
  BERTH_HTTP_RPC_TLS_CERT : option string;
  BERTH_HTTP_RPC_TLS_KEY : option string;
}.

Definition TERMINAL_BIND_PORT : JsNumber.jsnum := JsNumber.of_Z 7681.

(** A variable that is set and not the empty string. *)
Definition truthy (v : option string) : option string :=
  match v with Some s => if String.eqb s "" then None else Some s | None => None end.

Definition truthy_number (x : JsNumber.jsnum) : bool :=
  match x with JsNumber.NaN => false | JsNumber.Inf _ => true | JsNumber.Fin m _ => negb (m =? 0)%Z end.

(** [!v || v === name] *)
Definition unset_or_equal (v : option string) (name : string) : bool :=
  match truthy v with None => true | Some a => String.eqb a name end.

Definition computeBindPorts (name : string) (env : RpcEnv) (capabilities : list string)
    : list JsNumber.jsnum :=
  let http :=
    match truthy (BERTH_HTTP_RPC_PORT env) with
    | Some p =>
        let port := JsNumber.Number p in
        if truthy_number port && unset_or_equal (BERTH_HTTP_RPC_APP env) name then [port] else []
    | None => []
    end in
  JsSet.of_list
    (http ++ if existsb (Str.starts_with "terminal:") capabilities then [TERMINAL_BIND_PORT] else []).

(** [path ? dirname(path) : undefined], kept unless it is the root. *)
Definition tls_dir (path : option string) : list string :=
  match truthy path with
  | Some f => let dir := dirname f in
              if String.eqb dir "" || String.eqb dir "/" then [] else [dir]
  | None => []
  end.

(** The directories one TLS file contributes: as given, and where it really is. *)
Definition tls_file_dirs (fs : FS) (file : option string) : list string :=
  match truthy file with
  | None => []
  | Some f => if negb (isAbsolute f) then [] else tls_dir (Some f) ++ tls_dir (safeRealpath fs f)
  end.

Definition httpRpcTlsReadPaths (fs : FS) (name : string) (env : RpcEnv) : list string :=
  match truthy (BERTH_HTTP_RPC_PORT env) with
  | None => []
  | Some _ =>
      if negb (unset_or_equal (BERTH_HTTP_RPC_APP env) name) then []
      else
        JsSet.of_list
          (mbind (tls_file_dirs fs) [BERTH_HTTP_RPC_TLS_CERT env; BERTH_HTTP_RPC_TLS_KEY env])
  end.

(** What [main] writes, without the cgroup limits (see [Resources]). *)
Definition main_policy (fs : FS) (dependencies : list string) (name : string)
    (capabilities : list string) (env : RpcEnv) : CapabilityPolicy :=
  let policy := compileCapabilityPolicy dependencies name capabilities in
  {| appName := appName policy;
     declaredCapabilities := declaredCapabilities policy;
     writePaths := writePaths policy;
     readPaths := readPaths policy
       ++ filter (fun dir => covered_by (readPaths policy) dir = false) (httpRpcTlsReadPaths fs name env);
     networkPorts := networkPorts policy;
     networkUnrestricted := networkUnrestricted policy;
     meshPeers := meshPeers policy;
     bindPorts := JsSet.of_list (bindPorts policy ++ computeBindPorts name env capabilities) |}.
End compile.

(** ** Lemmas *)

(** The capability an entry of the raw list is compiled as, if it is. *)
Definition accepted (c : string) : option ParsedCapability :=
  if CapabilityString c then
    match parseCapability c with
    | Ok p => match capabilityIssue c with None => Some p | Some _ => None end
    | Err _ => None
    end
  else None.

Lemma compile_one_accepted mesh a c :
  compile_one mesh a c =
    match accepted c with Some p => grant mesh p (add_effective c a) | None => a end.
Proof.
  unfold compile_one, accepted. destruct (CapabilityString c); [|done]. cbn [negb].
  destruct (parseCapability c); [|done]. by destruct (capabilityIssue c).
Qed.

(** What a fold over the raw list collects in one of its variables. *)
Lemma compile_collect {A} mesh (proj : acc -> list A) (contributes : ParsedCapability -> A -> Prop) :
  (forall p a c x, x ∈ proj (grant mesh p (add_effective c a)) <-> contributes p x \/ x ∈ proj a) ->
  forall raw a x,
    x ∈ proj (foldl (compile_one mesh) a raw) <->
    x ∈ proj a \/ exists c p, c ∈ raw /\ accepted c = Some p /\ contributes p x.
Proof.
  intros Hg raw; induction raw as [|c raw IH]; intros a x; cbn [foldl].
  - set_solver.
  - rewrite IH, compile_one_accepted. destruct (accepted c) as [p|] eqn:E.
    + rewrite Hg. split.
      * intros [[?|?]|(c' & p' & ? & ? & ?)]; [right; exists c, p; set_solver|set_solver|].
        right; exists c', p'; set_solver.
      * intros [?|(c' & p' & [->|?]%elem_of_cons & ? & ?)]; [set_solver| |right; eauto].
        left; left. naive_solver.
    + split; [set_solver|]. intros [?|(c' & p' & [->|?]%elem_of_cons & ? & ?)];
        [set_solver|congruence|right; eauto].
Qed.

(** A capability of this namespace and action. *)
Definition is_cap (ns act : string) (p : ParsedCapability) : Prop :=
  namespace p = ns /\ action p = act.

Ltac grant_cases :=
  intros [ns act sc] a c x; unfold grant, is_cap; cbn [namespace action scope];
  repeat (match goal with
  | |- context [String.eqb ?s ?t] => destruct (String.eqb_spec s t)
  | |- context [match port_of_scope ?s with _ => _ end] => destruct (port_of_scope s) eqn:?
  end; simplify_eq/=);
  rewrite ?JsSet.elem_of_add, ?JsSet.elem_of_add_all; unfold TERMINAL_WRITE_PATHS;
  set_unfold; intuition congruence.

Lemma grant_writePaths mesh p a c x :
  x ∈ a_writePaths (grant mesh p (add_effective c a)) <->
  ((is_cap "filesystem" "write" p /\ x = stripTrailingGlob (scope p)) \/
   (namespace p = "terminal" /\ x ∈ TERMINAL_WRITE_PATHS)) \/ x ∈ a_writePaths a.
Proof. revert p a c x. grant_cases. Qed.

Lemma grant_readPaths mesh p a c x :
  x ∈ declaredReadPaths (grant mesh p (add_effective c a)) <->
  (is_cap "filesystem" "read" p /\ x = stripTrailingGlob (scope p)) \/ x ∈ declaredReadPaths a.
Proof. revert p a c x. grant_cases. Qed.

Lemma grant_networkPorts mesh p a c x :
  x ∈ a_networkPorts (grant mesh p (add_effective c a)) <->
  ((is_cap "network" "connect" p /\ scope p <> "*" /\ port_of_scope (scope p) = Some x) \/
   (is_cap "network" "peer" p /\ x = mesh)) \/ x ∈ a_networkPorts a.
Proof. revert p a c x. grant_cases. Qed.

Lemma grant_bindPorts mesh p a c x :
  x ∈ declaredBindPorts (grant mesh p (add_effective c a)) <->
  (is_cap "network" "bind" p /\ port_of_scope (scope p) = Some x) \/ x ∈ declaredBindPorts a.
Proof. revert p a c x. grant_cases. Qed.

Lemma grant_meshPeers mesh p a c x :
  x ∈ a_meshPeers (grant mesh p (add_effective c a)) <->
  (is_cap "network" "peer" p /\ x = scope p) \/ x ∈ a_meshPeers a.
Proof. revert p a c x. grant_cases. Qed.

Lemma grant_unrestricted mesh p a c (x : unit) :
  a_networkUnrestricted (grant mesh p (add_effective c a)) = true <->
  (is_cap "network" "connect" p /\ scope p = "*") \/ a_networkUnrestricted a = true.
Proof. revert p a c x. grant_cases. Qed.

Lemma grant_github mesh p a c (x : unit) :
  needsGithubBrokerCa (grant mesh p (add_effective c a)) = true <->
  namespace p = "github" \/ needsGithubBrokerCa a = true.
Proof. revert p a c x. grant_cases. Qed.

Lemma grant_effective mesh p a c :
  effectiveCapabilities (grant mesh p (add_effective c a)) = effectiveCapabilities a ++ [c].
Proof. unfold grant. by repeat case_match. Qed.

(** A boolean variable of the fold, seen as a list of at most one element. *)
Lemma compile_flag mesh (flag : acc -> bool) (sets : ParsedCapability -> Prop) :
  (forall p a c, flag (grant mesh p (add_effective c a)) = true <-> sets p \/ flag a = true) ->
  forall raw a,
    flag (foldl (compile_one mesh) a raw) = true <->
    flag a = true \/ exists c p, c ∈ raw /\ accepted c = Some p /\ sets p.
Proof.
  intros Hg raw a.
  pose proof (compile_collect mesh (fun a => if flag a then [tt] else []) (fun p _ => sets p)) as H.
  assert (Hu : forall b : bool, tt ∈ (if b then [tt] else []) <-> b = true) by (intros []; set_solver).
  specialize (H ltac:(intros p a' c []; rewrite !Hu; apply Hg) raw a tt).
  rewrite !Hu in H. exact H.
Qed.

Lemma accepted_spec c p :
  accepted c = Some p ->
  CapabilityString c = true /\ parseCapability c = Ok p /\ capabilityIssue c = None.
Proof. unfold accepted. repeat case_match; naive_solver. Qed.

Lemma compile_effective mesh raw a :
  effectiveCapabilities (foldl (compile_one mesh) a raw) =
  effectiveCapabilities a ++ filter (fun c => is_Some (accepted c)) raw.
Proof.
  revert a; induction raw as [|c raw IH]; intros a; cbn [foldl]; [by rewrite app_nil_r|].
  rewrite IH, compile_one_accepted, filter_cons. destruct (accepted c) as [p|] eqn:E.
  - rewrite decide_True by eauto. by rewrite grant_effective, <- app_assoc.
  - rewrite decide_False; [done|]. by intros [? ?].
Qed.

Lemma compile_filter mesh raw a :
  foldl (compile_one mesh) a (filter (fun c => is_Some (accepted c)) raw) =
  foldl (compile_one mesh) a raw.
Proof.
  revert a; induction raw as [|c raw IH]; intros a; [done|].
  rewrite filter_cons. cbn [foldl]. destruct (accepted c) as [p|] eqn:E.
  - rewrite decide_True by eauto. cbn [foldl]. apply IH.
  - rewrite decide_False by (by intros [? ?]). by rewrite IH, compile_one_accepted, E.
Qed.

Lemma port_of_scope_spec sc x :
  port_of_scope sc = Some x ->
  x = JsNumber.Number sc /\ exists z, JsNumber.to_integer x = Some z /\ (0 < z <= 65535)%Z.
Proof.
  unfold port_of_scope. destruct (JsNumber.to_integer _) as [z|] eqn:E; [|done].
  destruct (_ && _)%bool eqn:Hb; [|done]. intros [= <-]. split; [done|].
  exists z. split; [done|]. apply andb_true_iff in Hb. lia.
Qed.

(** What an accepted filesystem:write scope compiles to. *)
Definition safe_write_path (p : string) : Prop :=
  canonical p /\ under_allowed p /\ "node_modules" ∉ Str.split Capability.slash p.

Lemma accepted_write c p :
  accepted c = Some p -> is_cap "filesystem" "write" p ->
  safe_write_path (stripTrailingGlob (scope p)).
Proof.
  intros (_ & Hp & Hi)%accepted_spec [Hns Hact].
  unfold capabilityIssue in Hi. rewrite Hp, Hns, Hact in Hi.
  apply filesystemWriteScopeIssue_spec in Hi as [[Hc Hu]%filesystemScopeIssue_sound Hn].
  by split_and!.
Qed.

Lemma isWithin_refl p : isWithin p p = true.
Proof. unfold isWithin. by rewrite String.eqb_refl. Qed.

Lemma covered_by_elem l p : p ∈ l -> covered_by l p = true.
Proof. intros H. apply existsb_elem_of. exists p. split; [done|apply isWithin_refl]. Qed.

Lemma covered_by_mono l l' p : l ⊆ l' -> covered_by l p = true -> covered_by l' p = true.
Proof.
  intros Hs (d & Hd & Hp)%existsb_elem_of. apply existsb_elem_of. exists d. split; [by apply Hs|done].
Qed.

Section policy.
Context (mesh : JsNumber.jsnum) (cwd : string) (deps : list string) (name : string).
Context (raw : list string).
Abbreviation policy := (compileCapabilityPolicy mesh cwd deps name raw).

(** [C12] What a compiled policy lets an app write: its own three baseline
    paths, the pty devices when a terminal capability is accepted, and the paths
    of the accepted filesystem:write capabilities. Each of those is canonical,
    under one of the four allowed prefixes and outside node_modules, whatever
    strings the compiler was given. *)
Theorem compile_writePaths x :
  x ∈ writePaths policy <->
  x ∈ baselineWritePaths name \/
  (x ∈ TERMINAL_WRITE_PATHS /\
   exists c p, c ∈ raw /\ accepted c = Some p /\ namespace p = "terminal") \/
  (safe_write_path x /\
   exists c p, c ∈ raw /\ accepted c = Some p /\ is_cap "filesystem" "write" p /\
     x = stripTrailingGlob (scope p)).
Proof.
  unfold compileCapabilityPolicy; cbn [writePaths].
  rewrite (compile_collect mesh a_writePaths _ (grant_writePaths mesh)).
  cbn [init_acc a_writePaths]. rewrite JsSet.elem_of_of_list. split.
  - intros [?|(c & p & ? & ? & [[? ->]|[? ?]])]; [by left| |right; left; eauto 6].
    right; right. split; [by eapply accepted_write|eauto 7].
  - intros [?|[[? (c & p & ? & ? & ?)]|[_ (c & p & ? & ? & ? & ->)]]]; [by left|right..].
    + exists c, p. auto.
    + exists c, p. auto.
Qed.

(** The network is denied by default: a policy is unrestricted exactly
    when network:connect with scope * is accepted, and otherwise lists exactly
    the declared ports, each an integer from 1 to 65535, plus the mesh
    coordinator's port when some network:peer is accepted. *)
Theorem compile_network :
  (networkUnrestricted policy = true <->
   exists c p, c ∈ raw /\ accepted c = Some p /\ is_cap "network" "connect" p /\ scope p = "*") /\
  (forall x, x ∈ networkPorts policy <->
    exists c p, c ∈ raw /\ accepted c = Some p /\
      ((is_cap "network" "connect" p /\ scope p <> "*" /\ x = JsNumber.Number (scope p) /\
        exists z, JsNumber.to_integer x = Some z /\ (0 < z <= 65535)%Z) \/
       (is_cap "network" "peer" p /\ x = mesh))).
Proof.
  unfold compileCapabilityPolicy; cbn [networkUnrestricted networkPorts]. split.
  - rewrite (compile_flag mesh a_networkUnrestricted
               (fun p => is_cap "network" "connect" p /\ scope p = "*")).
    + cbn. split; [intros [?|?]; [done|]|]; naive_solver.
    + intros p a c. apply (grant_unrestricted mesh p a c tt).
  - intros x. rewrite (compile_collect mesh a_networkPorts _ (grant_networkPorts mesh)).
    cbn [init_acc a_networkPorts]. split.
    + intros [?%elem_of_nil|(c & p & ? & ? & [(? & ? & Hx)|?])]; [done| |eauto 8].
      apply port_of_scope_spec in Hx as [? ?]. exists c, p. eauto 8.
    + intros (c & p & ? & ? & [(? & ? & -> & z & Hz & Hr)|?]); right; exists c, p; [|by eauto].
      split_and!; try done. left. split_and!; try done. unfold port_of_scope. rewrite Hz.
      assert ((0 <? z) && (z <=? 65535) = true)%Z as -> by (apply andb_true_iff; lia). done.
Qed.

(** Whatever the policy lets an app write it also lets it read: every
    write path is one of the read paths or beneath one. *)
Theorem compile_write_readable x :
  x ∈ writePaths policy -> covered_by (readPaths policy) x = true.
Proof.
  unfold compileCapabilityPolicy; cbn [writePaths readPaths]. intros Hx.
  set (a := foldl _ _ _) in *.
  destruct (covered_by (baselineReadPaths cwd name) x) eqn:E.
  - eapply covered_by_mono; [|done]. intros d Hd. apply JsSet.elem_of_of_list. set_solver.
  - apply covered_by_elem, JsSet.elem_of_of_list. rewrite !elem_of_app, list_elem_of_filter. auto.
Qed.

(** The recorded list of capabilities is exactly the accepted ones, in
    their order, and it determines the policy: compiling the record again gives
    the same policy. *)
Theorem compile_declared_fixpoint :
  declaredCapabilities policy = filter (fun c => is_Some (accepted c)) raw /\
  compileCapabilityPolicy mesh cwd deps name (declaredCapabilities policy) = policy.
Proof.
  assert (H : declaredCapabilities policy = filter (fun c => is_Some (accepted c)) raw)
    by apply compile_effective.
  split; [done|]. rewrite H. unfold compileCapabilityPolicy. by rewrite compile_filter.
Qed.

(** Ports an app may bind: those it declares with network:bind, the HTTP
    RPC port when this app serves the bridge (no app named, or this one), and
    ttyd's port when it declares a terminal capability. *)
Theorem main_bindPorts fs env x :
  x ∈ bindPorts (main_policy mesh cwd fs deps name raw env) <->
  (exists c p, c ∈ raw /\ accepted c = Some p /\ is_cap "network" "bind" p /\
     port_of_scope (scope p) = Some x) \/
  (exists v, truthy (BERTH_HTTP_RPC_PORT env) = Some v /\ x = JsNumber.Number v /\
     truthy_number x = true /\ unset_or_equal (BERTH_HTTP_RPC_APP env) name = true) \/
  (x = TERMINAL_BIND_PORT /\ exists c, c ∈ raw /\ Str.starts_with "terminal:" c = true).
Proof.
  unfold main_policy, compileCapabilityPolicy; cbn [bindPorts].
  rewrite JsSet.elem_of_of_list, elem_of_app,
    (compile_collect mesh declaredBindPorts _ (grant_bindPorts mesh)).
  cbn [init_acc declaredBindPorts].
  assert (Hc : x ∈ computeBindPorts name env raw <->
    (exists v, truthy (BERTH_HTTP_RPC_PORT env) = Some v /\ x = JsNumber.Number v /\
       truthy_number x = true /\ unset_or_equal (BERTH_HTTP_RPC_APP env) name = true) \/
    (x = TERMINAL_BIND_PORT /\ exists c, c ∈ raw /\ Str.starts_with "terminal:" c = true)).
  { unfold computeBindPorts. rewrite JsSet.elem_of_of_list, elem_of_app, <- existsb_elem_of.
    apply Morphisms_Prop.or_iff_morphism.
    - destruct (truthy (BERTH_HTTP_RPC_PORT env)) as [v|].
      + destruct (truthy_number (JsNumber.Number v) && _) eqn:E.
        * apply andb_true_iff in E as [??]. rewrite list_elem_of_singleton. naive_solver.
        * apply andb_false_iff in E. split; [by intros ?%elem_of_nil|].
          intros (v' & [= <-] & -> & ? & ?). destruct E; congruence.
      + split; [by intros ?%elem_of_nil|naive_solver].
    - destruct (existsb _ raw); [rewrite list_elem_of_singleton; naive_solver|].
      split; [by intros ?%elem_of_nil|naive_solver]. }
  rewrite Hc. split.
  - intros [[H%elem_of_nil|H]|H]; [done|by left|by right].
  - intros [H|H]; [by left; right|by right].
Qed.
End policy.

(** ** The dependency scan *)

Section deps.
Context (fs : FS) (appReal : string) (workspace : option string) (prefixes : list string).

(** What a granted dependency path is. *)
Definition safe_dependency (x : string) : Prop :=
  isUnderPrefix x prefixes = true /\
  exists w, workspace = Some w /\
    (x = join [w; "node_modules"; ".pnpm"] \/
     ((exists dir, dir ∈ WORKSPACE_LIBRARY_DIRS /\ dirname x = join [w; dir]) /\
      isFile fs (join [x; "package.json"]) = true /\
      isFile fs (join [x; "berth.yml"]) = false /\ isWithin x appReal = false)).

Lemma acceptedDependency_spec target w path kind :
  acceptedDependency fs target w = Some (path, kind) ->
  (kind = Store /\ path = join [w; "node_modules"; ".pnpm"]) \/
  (kind = Package /\ path = target /\
   (exists dir, dir ∈ WORKSPACE_LIBRARY_DIRS /\ dirname target = join [w; dir]) /\
   isFile fs (join [target; "package.json"]) = true /\
   isFile fs (join [target; "berth.yml"]) = false).
Proof.
  unfold acceptedDependency. destruct (_ && _); [intros [= <- <-]; by left|].
  destruct (_ && _ && _) eqn:E; [|done]. intros [= <- <-]. right. bools.
  match goal with H : existsb _ _ = true |- _ =>
    apply existsb_elem_of in H as (dir & Hd & He) end.
  apply String.eqb_eq in He. split_and!; eauto.
Qed.

(** A property of the scan's state that adding safe paths keeps is kept by the scan. *)
Lemma scan_links_inv (P : scan_state -> Prop) rec modules names st st' :
  (forall name st st', scan_link fs appReal workspace prefixes rec modules name st = Some st' ->
     P st -> P st') ->
  scan_links fs appReal workspace prefixes rec modules names st = Some st' -> P st -> P st'.
Proof.
  intros Hl. revert st; induction names as [|n names IH]; intros st; cbn [scan_links].
  - by intros [= ->].
  - intros (st1 & H1 & H2)%bind_Some Hst. eauto.
Qed.

Lemma scan_out fuel dir st st' :
  scan fs appReal workspace prefixes fuel dir st = Some st' ->
  Forall safe_dependency (out st) -> Forall safe_dependency (out st').
Proof.
  revert dir st st'; induction fuel as [|fuel IH]; intros dir st st'; [done|]. cbn [scan].
  case_bool_decide; [by intros [= ->]|]. intros H1 H2.
  refine (scan_links_inv (fun st => Forall safe_dependency (out st)) _ _ _ _ _ _ H1 H2).
  clear -IH. intros name st st'. unfold scan_link.
  destruct (isSymlink fs _); cbn [negb]; [|by intros [= ->]].
  destruct (safeRealpath fs _) as [target|]; [|by intros [= ->]].
  destruct (isWithin target appReal) eqn:Hin; [by intros [= ->]|].
  destruct workspace as [w|] eqn:Hw; [|by intros [= <-]].
  destruct (acceptedDependency fs target w) as [[path kind]|] eqn:Ha; [|by intros [= <-]].
  destruct (isUnderPrefix path prefixes) eqn:Hp; cbn [negb]; [|by intros [= <-]].
  assert (Hsafe : safe_dependency path).
  { split; [done|]. exists w. split; [done|].
    apply acceptedDependency_spec in Ha as [[-> ->]|(-> & -> & ? & ? & ?)]; [by left|right].
    by split_and!. }
  intros Hst Hout. destruct kind.
  - injection Hst as <-. cbn. by apply JsSet.Forall_add.
  - eapply IH; [exact Hst|]. cbn. by apply JsSet.Forall_add.
Qed.

(** *** Termination: the node_modules directories not yet visited *)

Definition modules_of (t : string) : string := join [t; "node_modules"].
Definition remaining (M : list string) (st : scan_state) : nat :=
  length (filter (fun m => m ∉ visited st) M).

Lemma filter_length_le {A} (P Q : A -> Prop) `{forall x, Decision (P x), forall x, Decision (Q x)} l :
  (forall x, P x -> Q x) -> length (filter P l) <= length (filter Q l).
Proof.
  intros HPQ. induction l as [|x l IH]; [done|]. rewrite !filter_cons.
  repeat case_decide; cbn; naive_solver lia.
Qed.

Lemma remaining_mono M st st' : visited st ⊆ visited st' -> remaining M st' <= remaining M st.
Proof. intros H. apply filter_length_le. set_solver. Qed.

Lemma remaining_visit M st m o w :
  m ∉ visited st -> m ∈ M ->
  remaining M {| visited := visited st ++ [m]; out := o; warnings := w |} < remaining M st.
Proof.
  intros Hm Hin. unfold remaining. cbn [visited].
  induction M as [|x M IH]; [by apply elem_of_nil in Hin|].
  rewrite !filter_cons. apply elem_of_cons in Hin as [<-|Hin].
  - rewrite decide_False by set_solver. rewrite decide_True by done. cbn.
    apply Nat.lt_succ_r, filter_length_le. set_solver.
  - specialize (IH Hin). repeat case_decide; cbn; try lia. set_solver.
Qed.

Context (U : list string).
Hypothesis U_packages : forall w link target path,
  workspace = Some w -> safeRealpath fs link = Some target ->
  acceptedDependency fs target w = Some (path, Package) -> target ∈ U.
Let M : list string := modules_of <$> U.

Lemma scan_links_total rec modules names st k :
  (forall target st, target ∈ U -> remaining M st <= k ->
     exists st', rec target st = Some st' /\ visited st ⊆ visited st') ->
  remaining M st <= k ->
  exists st', scan_links fs appReal workspace prefixes rec modules names st = Some st' /\
    visited st ⊆ visited st'.
Proof using U_packages.
  intros Hrec. revert st; induction names as [|n names IH]; intros st Hk; cbn [scan_links]; [by exists st|].
  assert (Hl : exists st1, scan_link fs appReal workspace prefixes rec modules n st = Some st1 /\
                 visited st ⊆ visited st1).
  { unfold scan_link. destruct (isSymlink fs _); cbn [negb]; [|by eauto].
    destruct (safeRealpath fs _) as [target|] eqn:Hreal; [|by eauto].
    destruct (isWithin target appReal); [by eauto|].
    destruct workspace as [w|] eqn:Hw; [|by eauto].
    destruct (acceptedDependency fs target w) as [[path kind]|] eqn:Ha; [|by eauto].
    destruct (isUnderPrefix path prefixes); cbn [negb]; [|by eauto].
    destruct kind; [by eauto|].
    match goal with |- context [rec target ?s] =>
      destruct (Hrec target s) as (st1 & H1 & H2); [by eapply U_packages|exact Hk|by exists st1]
    end. }
  destruct Hl as (st1 & -> & Hv). cbn [mbind option_bind].
  destruct (IH st1) as (st2 & H2 & Hv2); [pose proof (remaining_mono M st st1 Hv); lia|].
  exists st2. split; [done|]. by etrans.
Qed.

Lemma scan_total fuel dir st :
  remaining M st + (if decide (modules_of dir ∈ M) then 0 else 1) < fuel ->
  exists st', scan fs appReal workspace prefixes fuel dir st = Some st' /\ visited st ⊆ visited st'.
Proof using U_packages.
  revert dir st; induction fuel as [|fuel IH]; intros dir st Hf; [lia|]. cbn [scan].
  change (join [dir; "node_modules"]) with (modules_of dir).
  case_bool_decide as Hv; [by exists st|].
  edestruct (scan_links_total (scan fs appReal workspace prefixes fuel) (modules_of dir)
      (mbind (entry_names fs (modules_of dir)) (safeReaddir fs (modules_of dir)))
      {| visited := visited st ++ [modules_of dir]; out := out st; warnings := warnings st |}
      (pred fuel)) as (st' & H1 & H2).
  - intros target st1 Ht Hk. apply IH. rewrite decide_True by by apply list_elem_of_fmap_2.
    case_decide as Hm; [|lia]. pose proof (remaining_visit M st (modules_of dir) [] [] Hv Hm). lia.
  - case_decide as Hm.
    + pose proof (remaining_visit M st (modules_of dir) (out st) (warnings st) Hv Hm). lia.
    + transitivity (remaining M st); [apply remaining_mono; cbn; set_solver|lia].
  - exists st'. split; [done|]. cbn [visited] in H2. set_solver.
Qed.
End deps.

Lemma findWorkspaceRoot_total fs fuel p :
  isAbsolute p = true -> String.length p < fuel ->
  exists r, findWorkspaceRoot_from fs fuel p = Some r.
Proof.
  revert p; induction fuel as [|fuel IH]; intros p Hp Hf; [lia|]. cbn [findWorkspaceRoot_from].
  destruct (negb _ && _); [by eauto|]. destruct (String.eqb_spec p "/"); [by eauto|].
  destruct (dirname_absolute p Hp) as [Ha Hl]. apply IH; [done|]. specialize (Hl n). lia.
Qed.

(** What the dependency scan grants for reading: only paths under the
    allowed prefixes, and each either the pnpm store of the workspace that
    contains the app or a package directly inside one of the workspace's library
    directories, with a package.json, without a berth.yml and not inside the app
    itself. No link an app plants in its own node_modules grants anything else. *)
Theorem dependencyReadPaths_safe fs fuel appDir prefixes paths refused :
  dependencyReadPaths fs fuel appDir prefixes = Some (paths, refused) ->
  exists workspace,
    findWorkspaceRoot fs fuel (or_default appDir (safeRealpath fs appDir)) = Some workspace /\
    Forall (safe_dependency fs (or_default appDir (safeRealpath fs appDir)) workspace prefixes) paths.
Proof.
  unfold dependencyReadPaths. intros (w & Hw & (st & Hs & [= <- <-])%bind_Some)%bind_Some.
  exists w. split; [done|]. eapply scan_out; [done|]. by constructor.
Qed.

(** The dependency scan terminates: on an app whose real path is absolute
    and with finitely many packages reachable by accepted links, any fuel above
    the path's length and the number of packages gives an answer. Links that
    form a cycle do not stop it. *)
Theorem dependencyReadPaths_total fs fuel appDir prefixes packages :
  isAbsolute (or_default appDir (safeRealpath fs appDir)) = true ->
  (forall w link target path,
     findWorkspaceRoot fs fuel (or_default appDir (safeRealpath fs appDir)) = Some (Some w) ->
     safeRealpath fs link = Some target ->
     acceptedDependency fs target w = Some (path, Package) -> target ∈ packages) ->
  String.length (or_default appDir (safeRealpath fs appDir)) + 1 < fuel ->
  length packages + 1 < fuel ->
  is_Some (dependencyReadPaths fs fuel appDir prefixes).
Proof.
  intros Habs HU Hf1 Hf2. unfold dependencyReadPaths.
  set (appReal := or_default _ _) in *.
  destruct (dirname_absolute appReal Habs) as [Hd Hl].
  destruct (findWorkspaceRoot_total fs fuel (dirname appReal) Hd) as [w Hw].
  { destruct (String.eqb_spec appReal "/") as [E|E].
    - rewrite E in *. change (String.length (dirname "/")) with 1.
      change (String.length "/") with 1 in Hf1. lia.
    - specialize (Hl E). lia. }
  assert (Hw' : findWorkspaceRoot fs fuel appReal = Some w) by exact Hw.
  rewrite Hw'. cbn [mbind option_bind].
  destruct (scan_total fs appReal w prefixes packages) with (fuel := fuel) (dir := appDir)
    (st := {| visited := []; out := []; warnings := [] |}) as (st & -> & _).
  - intros w' link target path -> Hr Ha. by eapply HU.
  - assert (remaining (modules_of <$> packages) {| visited := []; out := []; warnings := [] |}
            <= length packages).
    { unfold remaining. etrans; [apply length_filter|]. by rewrite length_fmap. }
    case_decide; lia.
  - eauto.
Qed.

(** ** Witnesses *)

(** A workspace /ws with the app /ws/apps/a, whose node_modules links to a
    library package (which links back to itself), to the store, to a sibling
    app, and to the root directory. *)
Definition demo_fs : FS := {|
  safeRealpath := fun p =>
    if String.eqb p "/workspace/apps/a" then Some "/workspace/apps/a"
    else if String.eqb p "/workspace/apps/a/node_modules/lib" then Some "/workspace/packages/lib"
    else if String.eqb p "/workspace/packages/lib/node_modules/self" then Some "/workspace/packages/lib"
    else if String.eqb p "/workspace/apps/a/node_modules/zod" then Some "/workspace/node_modules/.pnpm/zod"
    else if String.eqb p "/workspace/apps/a/node_modules/evil" then Some "/"
    else if String.eqb p "/workspace/apps/a/node_modules/sibling" then Some "/workspace/apps/b"
    else None;
  safeReaddir := fun p =>
    if String.eqb p "/workspace/apps/a/node_modules" then ["lib"; "zod"; "evil"; "sibling"; ".bin"]
    else if String.eqb p "/workspace/packages/lib/node_modules" then ["self"] else [];
  isFile := fun p =>
    existsb (String.eqb p) ["/workspace/pnpm-workspace.yaml"; "/workspace/packages/lib/package.json"];
  isSymlink := fun _ => true;
|}.

Lemma dependencyReadPaths_safe_witness :
  exists workspace,
    findWorkspaceRoot demo_fs 40 "/workspace/apps/a" = Some workspace /\
    Forall (safe_dependency demo_fs "/workspace/apps/a" workspace ALLOWED_FILESYSTEM_SCOPE_PREFIXES)
      ["/workspace/packages/lib"; "/workspace/node_modules/.pnpm"].
Proof.
  apply (dependencyReadPaths_safe demo_fs 40 "/workspace/apps/a" ALLOWED_FILESYSTEM_SCOPE_PREFIXES
    ["/workspace/packages/lib"; "/workspace/node_modules/.pnpm"]
    [NotWorkspaceDependency "/workspace/apps/a/node_modules/evil" "/";
     NotWorkspaceDependency "/workspace/apps/a/node_modules/sibling" "/workspace/apps/b"]).
  vm_compute. reflexivity.
Defined.

Lemma dependencyReadPaths_total_witness :
  is_Some (dependencyReadPaths demo_fs 40 "/workspace/apps/a" ALLOWED_FILESYSTEM_SCOPE_PREFIXES).
Proof.
  apply (dependencyReadPaths_total demo_fs 40 "/workspace/apps/a" ALLOWED_FILESYSTEM_SCOPE_PREFIXES
           ["/workspace/packages/lib"]); [done| |vm_compute; lia|vm_compute; lia].
  intros w link target path [= <-] Hr. cbn [safeRealpath demo_fs] in Hr.
  repeat match type of Hr with (if ?b then _ else _) = _ => destruct b end;
    try discriminate Hr; injection Hr as <-; vm_compute; intros [= <-]; left.
Defined.

Lemma compile_write_readable_witness :
  covered_by (readPaths (compileCapabilityPolicy (JsNumber.of_Z 4875) "/app" [] "notes"
     ["filesystem:write:/workspace/*"])) "/workspace" = true.
Proof.
  apply (compile_write_readable (JsNumber.of_Z 4875) "/app" [] "notes"
           ["filesystem:write:/workspace/*"] "/workspace").
  vm_compute. do 3 right. left.
Defined.

End Policy.
