(* ===== verification/Json.v ===== *)
(** * JSON values and their canonical text

    The values the audit package hashes, [JSON.stringify] on strings and
    [canonicalize] (packages/audit/src/sink.ts). A number is an integer: the
    fields the code itself writes (sequence numbers, durations, counts) are. *)
From S2P Require Import Prelude JsNumber.

Module Json.

Inductive json : Type :=
| JUndef
| JNull
| JBool (b : bool)
| JNum (z : Z)
| JStr (s : string)
| JArr (l : list json)
| JObj (o : list (string * json)).

(** Induction through the lists of arrays and objects. *)
Section induction.
Context (P : json -> Prop).
Hypothesis (Hundef : P JUndef) (Hnull : P JNull).
Hypothesis (Hbool : forall b, P (JBool b)) (Hnum : forall z, P (JNum z)).
Hypothesis (Hstr : forall s, P (JStr s)).
Hypothesis (Harr : forall l, Forall P l -> P (JArr l)).
Hypothesis (Hobj : forall o, Forall (fun kv => P kv.2) o -> P (JObj o)).

Fixpoint json_ind' (v : json) : P v :=
  match v with
  | JUndef => Hundef
  | JNull => Hnull
  | JBool b => Hbool b
  | JNum z => Hnum z
  | JStr s => Hstr s
  | JArr l =>
      Harr l ((fix go l := match l return Forall P l with
                           | [] => Forall_nil_2 P
                           | x :: l' => Forall_cons_2 P x l' (json_ind' x) (go l')
                           end) l)
  | JObj o =>
      Hobj o ((fix go o := match o return Forall (fun kv => P kv.2) o with
                           | [] => Forall_nil_2 _
                           | kv :: o' => Forall_cons_2 _ kv o' (json_ind' kv.2) (go o')
                           end) o)
  end.
End induction.

(** ** [JSON.stringify] of a string *)

Definition dq_char : ascii := ascii_of_nat 34.
Definition backslash : ascii := ascii_of_nat 92.

Definition hex_digit (n : nat) : ascii := ascii_of_nat (if n <? 10 then 48 + n else 87 + n).

Definition esc_char (c : ascii) : string :=
  let n := Str.code c in
  if n =? 34 then String backslash (String dq_char "")
  else if n =? 92 then String backslash (String backslash "")
  else if n =? 8 then String backslash "b"
  else if n =? 12 then String backslash "f"
  else if n =? 10 then String backslash "n"
  else if n =? 13 then String backslash "r"
  else if n =? 9 then String backslash "t"
  else if n <? 32
  then String backslash ("u00" +:+ String (hex_digit (n / 16)) (String (hex_digit (n mod 16)) ""))
  else String c "".

Fixpoint escape (s : string) : string :=
  match s with
  | EmptyString => EmptyString
  | String c s' => esc_char c +:+ escape s'
  end.

Definition quote (s : string) : string := String dq_char (escape s +:+ String dq_char "").

(** ** [canonicalize] *)

Definition is_undef (v : json) : bool := match v with JUndef => true | _ => false end.

(** Sorting entries by key, with the code's comparison. *)
Section sort.
Context {A : Type}.

Fixpoint insert (kv : string * A) (l : list (string * A)) : list (string * A) :=
  match l with
  | [] => [kv]
  | kv' :: l' => if Str.ltb kv'.1 kv.1 then kv' :: insert kv l' else kv :: l
  end.

Definition sort_entries (l : list (string * A)) : list (string * A) := foldr insert [] l.
End sort.

(** The defined values of an object's entries. *)
Definition defined {A} (o : list (string * option A)) : list (string * A) :=
  omap (fun kv => match kv.2 with Some v => Some (kv.1, v) | None => None end) o.

Fixpoint canonicalize (v : json) : string :=
  match v with
  | JUndef | JNull => "null"
  | JBool b => if b then "true" else "false"
  | JNum z => JsNumber.to_string z
  | JStr s => quote s
  | JArr l => "[" +:+ Str.join "," (map canonicalize l) +:+ "]"
  | JObj o =>
      let entries :=
        sort_entries (defined (map (fun kv =>
          (kv.1, if is_undef kv.2 then None else Some (canonicalize kv.2))) o)) in
      "{" +:+ Str.join "," (map (fun kv => quote kv.1 +:+ ":" +:+ kv.2) entries) +:+ "}"
  end.

(** ** The value a canonical text stands for: undefined is null (and absent
    from objects), and an object's entries are in key order. *)
Fixpoint norm (v : json) : json :=
  match v with
  | JUndef | JNull => JNull
  | JArr l => JArr (map norm l)
  | JObj o =>
      JObj (sort_entries (defined (map (fun kv =>
        (kv.1, if is_undef kv.2 then None else Some (norm kv.2))) o)))
  | _ => v
  end.

(** The text of a value that is already in normal form. *)
Fixpoint render (v : json) : string :=
  match v with
  | JUndef | JNull => "null"
  | JBool b => if b then "true" else "false"
  | JNum z => JsNumber.to_string z
  | JStr s => quote s
  | JArr l => "[" +:+ Str.join "," (map render l) +:+ "]"
  | JObj o => "{" +:+ Str.join "," (map (fun kv => quote kv.1 +:+ ":" +:+ render kv.2) o) +:+ "}"
  end.

(** ** Reading JSON data the way JavaScript does *)

(** [v.k]; [None] when it throws. No name the code reads is one that arrays,
    strings or [Object.prototype] have. *)
Definition prop (k : string) (v : json) : option json :=
  match v with
  | JUndef | JNull => None
  | JObj o => Some (or_default JUndef (JsMap.get k o))
  | _ => Some JUndef
  end.

(** [v?.k] *)
Definition oprop (k : string) (v : json) : json := or_default JUndef (prop k v).

(** [String(v)], as a template literal converts; [None] when it throws (an
    object whose own [toString] hides the inherited one). *)
Fixpoint js_string (v : json) : option string :=
  match v with
  | JUndef => Some "undefined"
  | JNull => Some "null"
  | JBool b => Some (if b then "true" else "false")
  | JNum z => Some (JsNumber.to_string z)
  | JStr s => Some s
  | JArr l =>
      ws ← (fix go l := match l with
                        | [] => Some []
                        | x :: l' =>
                            w ← match x with JUndef | JNull => Some "" | _ => js_string x end;
                            ws ← go l'; Some (w :: ws)
                        end) l;
      Some (Str.join "," ws)
  | JObj o => if JsMap.has "toString" o then None else Some "[object Object]"
  end.

(** ** Lemmas *)

Lemma insert_map {A B} (f : A -> B) kv l :
  insert (prod_map id f kv) (map (prod_map id f) l) = map (prod_map id f) (insert kv l).
Proof.
  destruct kv as [k v]. induction l as [|[k' v'] l IH]; [done|].
  cbn. cbn in IH. destruct (Str.ltb k' k); [|done]. cbn. f_equal. exact IH.
Qed.

Lemma sort_entries_map {A B} (f : A -> B) l :
  sort_entries (map (prod_map id f) l) = map (prod_map id f) (sort_entries l).
Proof.
  induction l as [|kv l IH]; [done|].
  change (insert (prod_map id f kv) (sort_entries (map (prod_map id f) l))
          = map (prod_map id f) (insert kv (sort_entries l))).
  by rewrite IH, insert_map.
Qed.

Lemma canonicalize_render v : canonicalize v = render (norm v).
Proof.
  induction v as [| | | | |l IH|o IH] using json_ind'; try done; cbn [canonicalize norm render].
  - do 2 f_equal. f_equal. rewrite List.map_map.
    induction IH as [|v l Hv Hl IH]; cbn; by rewrite ?Hv, ?IH.
  - f_equal. f_equal. f_equal.
    set (o1 := defined _). set (o2 := defined _).
    assert (o1 = map (prod_map id render) o2) as ->.
    { subst o1 o2. clear -IH. induction IH as [|[k v] o Hv Ho IH]; [done|].
      cbn. cbn in Hv. destruct (is_undef v); cbn; [exact IH|]. f_equal; [|exact IH].
      unfold prod_map; cbn. by rewrite Hv. }
    rewrite sort_entries_map, List.map_map. by apply map_ext.
Qed.

(** *** Strings are a prefix code *)

Definition hex_val (c : ascii) : nat :=
  let n := Str.code c in if n <? 58 then n - 48 else n - 87.

(** Reads one escaped character back; [None] at the closing quote. *)
Definition unesc (s : string) : option (ascii * string) :=
  match s with
  | EmptyString => None
  | String c s1 =>
      if Str.code c =? 34 then None
      else if Str.code c =? 92 then
        match s1 with
        | String d s2 =>
            let n := Str.code d in
            if n =? 98 then Some (ascii_of_nat 8, s2)
            else if n =? 102 then Some (ascii_of_nat 12, s2)
            else if n =? 110 then Some (ascii_of_nat 10, s2)
            else if n =? 114 then Some (ascii_of_nat 13, s2)
            else if n =? 116 then Some (ascii_of_nat 9, s2)
            else if n =? 117 then
              match s2 with
              | String _ (String _ (String a (String b s3))) =>
                  Some (ascii_of_nat (16 * hex_val a + hex_val b), s3)
              | _ => None
              end
            else Some (d, s2)
        | EmptyString => None
        end
      else Some (c, s1)
  end.

Lemma unesc_esc c x : unesc (esc_char c +:+ x) = Some (c, x).
Proof. destruct c as [[] [] [] [] [] [] [] []]; reflexivity. Qed.

Lemma escape_inj s t x y :
  escape s +:+ String dq_char x = escape t +:+ String dq_char y -> s = t /\ x = y.
Proof.
  assert (Hq : forall z, unesc (String dq_char z) = None) by done.
  revert t; induction s as [|c s IH]; intros [|d t]; cbn [escape]; rewrite ?app_assoc_str, ?app_empty_str.
  - intros [= ->]. done.
  - intros E. apply (f_equal unesc) in E. by rewrite unesc_esc, Hq in E.
  - intros E. apply (f_equal unesc) in E. by rewrite unesc_esc, Hq in E.
  - intros E. apply (f_equal unesc) in E. rewrite !unesc_esc in E.
    injection E as -> E. by apply IH in E as [-> ->].
Qed.

Lemma quote_inj s t x y : quote s +:+ x = quote t +:+ y -> s = t /\ x = y.
Proof.
  unfold quote. rewrite !app_cons_str, !app_assoc_str. intros [= E].
  by apply escape_inj in E.
Qed.

(** *** Numbers end where their digits do *)

Definition ends_number (r : string) : Prop :=
  match r with EmptyString => True | String c _ => Str.is_digit c = false end.

Lemma span_digits ds r :
  Str.all Str.is_digit ds = true -> ends_number r ->
  JsNumber.span Str.is_digit (ds +:+ r) = (ds, r).
Proof.
  intros Hd Hr. induction ds as [|c ds IH].
  - rewrite app_empty_str. destruct r as [|c r]; [done|]. cbn in *. by rewrite Hr.
  - rewrite app_cons_str. cbn in *. apply andb_true_iff in Hd as [-> Hd]. by rewrite IH.
Qed.

Lemma digits_inj a b x y :
  (0 <= a)%Z -> (0 <= b)%Z -> ends_number x -> ends_number y ->
  JsNumber.to_string a +:+ x = JsNumber.to_string b +:+ y -> a = b /\ x = y.
Proof.
  intros Ha Hb Hx Hy E.
  destruct (JsNumber.to_string_spec a Ha) as (_ & Hda & Hva).
  destruct (JsNumber.to_string_spec b Hb) as (_ & Hdb & Hvb).
  apply (f_equal (JsNumber.span Str.is_digit)) in E.
  rewrite !span_digits in E by done. injection E as E ->. split; [|done]. congruence.
Qed.

Lemma to_string_neg z : (z < 0)%Z -> JsNumber.to_string z = String "-" (JsNumber.to_string (- z)).
Proof.
  intros Hz. unfold JsNumber.to_string. destruct (Z.ltb_spec z 0); [|lia].
  by destruct (Z.ltb_spec (- z) 0); [lia|].
Qed.

Lemma to_string_head z :
  (0 <= z)%Z -> exists c s, JsNumber.to_string z = String c s /\ Str.is_digit c = true.
Proof.
  intros Hz. destruct (JsNumber.to_string_spec z Hz) as (Hne & Hd & _).
  destruct (JsNumber.to_string z) as [|c s]; [done|]. cbn in Hd.
  apply andb_true_iff in Hd as [? _]. eauto.
Qed.

Lemma number_inj a b x y :
  ends_number x -> ends_number y ->
  JsNumber.to_string a +:+ x = JsNumber.to_string b +:+ y -> a = b /\ x = y.
Proof.
  intros Hx Hy E.
  destruct (Z.ltb_spec a 0) as [Ha|Ha], (Z.ltb_spec b 0) as [Hb|Hb].
  - rewrite (to_string_neg a), (to_string_neg b), !app_cons_str in E by done. injection E as E.
    apply digits_inj in E as [E ->]; try lia; try done. split; [lia|done].
  - rewrite to_string_neg in E by done.
    destruct (to_string_head b Hb) as (c & s & Hs & Hc). rewrite Hs in E.
    rewrite !app_cons_str in E. by injection E as <- _.
  - rewrite (to_string_neg b) in E by done.
    destruct (to_string_head a Ha) as (c & s & Hs & Hc). rewrite Hs in E.
    rewrite !app_cons_str in E. by injection E as -> _.
  - by apply digits_inj.
Qed.

(** *** Canonical texts determine the value *)

(** No [undefined] anywhere in the value. *)
Fixpoint no_undef (v : json) : bool :=
  match v with
  | JUndef => false
  | JArr l => forallb no_undef l
  | JObj o => forallb (fun kv => no_undef kv.2) o
  | _ => true
  end.

(** What can follow a value inside a canonical text. *)
Definition delimiter (c : ascii) : bool :=
  Ascii.eqb c "," || Ascii.eqb c "]" || Ascii.eqb c "}".
Definition delimited (r : string) : Prop :=
  match r with EmptyString => True | String c _ => delimiter c = true end.

Lemma delimited_ends_number r : delimited r -> ends_number r.
Proof.
  destruct r as [|c r]; [done|]. cbn. unfold delimiter.
  rewrite !orb_true_iff, !Ascii.eqb_eq. by intros [[-> | ->] | ->].
Qed.

(** The kind of a value shows in the first character of its text. *)
Definition head_kind (c : ascii) : nat :=
  if Ascii.eqb c "n" then 0
  else if Ascii.eqb c "t" || Ascii.eqb c "f" then 1
  else if Ascii.eqb c "-" || Str.is_digit c then 2
  else if Ascii.eqb c dq_char then 3
  else if Ascii.eqb c "[" then 4
  else if Ascii.eqb c "{" then 5
  else 6.

Definition kind (v : json) : nat :=
  match v with
  | JUndef | JNull => 0
  | JBool _ => 1
  | JNum _ => 2
  | JStr _ => 3
  | JArr _ => 4
  | JObj _ => 5
  end.

Lemma digit_kind c : Str.is_digit c = true -> head_kind c = 2.
Proof. by destruct c as [[] [] [] [] [] [] [] []]. Qed.

Lemma render_head v : exists c s, render v = String c s /\ head_kind c = kind v.
Proof.
  destruct v as [| |[]|z|s|l|o]; cbn; eauto.
  - destruct (Z.ltb_spec z 0).
    + rewrite to_string_neg by done. eauto.
    + destruct (to_string_head z) as (c & s & -> & Hc); [lia|]. eauto using digit_kind.
Qed.

Lemma render_kind a b x y : render a +:+ x = render b +:+ y -> kind a = kind b.
Proof.
  destruct (render_head a) as (c & s & -> & <-), (render_head b) as (d & t & -> & <-).
  rewrite !app_cons_str. by intros [= -> _].
Qed.

Lemma delimiter_kind c : delimiter c = true -> head_kind c = 6.
Proof. by destruct c as [[] [] [] [] [] [] [] []]. Qed.

Lemma kind_lt v : kind v < 6.
Proof. destruct v; cbn; lia. Qed.

(** Comma-separated lists closed by a delimiter are determined by their text
    when their elements are. *)
Section lists.
Context {A : Type} (text : A -> string) (valid : A -> bool) (close : ascii).
Hypothesis close_delimiter : delimiter close = true.
Hypothesis close_not_comma : close <> ","%char.
Hypothesis text_head : forall a, exists c s, text a = String c s /\ head_kind c < 6.

Definition text_inj_at (a : A) : Prop :=
  forall b x y, valid b = true -> delimited x -> delimited y ->
    text a +:+ x = text b +:+ y -> a = b /\ x = y.

Definition after (l : list A) (x : string) : string :=
  match l with
  | [] => String close x
  | _ => String "," (Str.join "," (map text l) +:+ String close x)
  end.

Lemma join_after a l x :
  Str.join "," (map text (a :: l)) +:+ String close x = text a +:+ after l x.
Proof. destruct l as [|b l]; [done|]. cbn [map Str.join after]. by autorewrite with berth_str. Qed.

Lemma after_delimited l x : delimited (after l x).
Proof. by destruct l. Qed.

Lemma not_closed a s x : text a +:+ s = String close x -> False.
Proof.
  destruct (text_head a) as (c & t & -> & Hc). rewrite app_cons_str. intros [= -> _].
  rewrite delimiter_kind in Hc by done. lia.
Qed.

Lemma join_inj l l' x y :
  Forall text_inj_at l -> forallb valid l' = true ->
  Str.join "," (map text l) +:+ String close x = Str.join "," (map text l') +:+ String close y ->
  l = l' /\ x = y.
Proof.
  intros Hl. revert l'. induction Hl as [|a l Ha Hl IH]; intros [|b l'] Hv E.
  - by injection E as ->.
  - rewrite join_after in E. symmetry in E. by apply not_closed in E.
  - rewrite join_after in E. by apply not_closed in E.
  - rewrite !join_after in E. cbn in Hv. bools.
    apply Ha in E as [-> E]; auto using after_delimited.
    destruct l as [|a' l], l' as [|b' l']; cbn [after] in E.
    + by injection E as ->.
    + by injection E.
    + by injection E.
    + apply cons_inj_str in E. apply IH in E as [-> ->]; auto.
Qed.
End lists.

Lemma render_inj a : forall b x y, no_undef a = true -> no_undef b = true ->
  delimited x -> delimited y -> render a +:+ x = render b +:+ y -> a = b /\ x = y.
Proof.
  induction a as [| |ba|z|s|l IH|o IH] using json_ind'; intros b x y Ha Hb Hx Hy E;
    pose proof (render_kind _ _ _ _ E) as Hk; destruct b as [| |bb|z'|s'|l'|o']; try done.
  - by injection E as ->.
  - by destruct ba, bb; cbn in E; simplify_eq.
  - apply number_inj in E as [-> ->]; auto using delimited_ends_number.
  - by apply quote_inj in E as [-> ->].
  - cbn [render] in E. autorewrite with berth_str in E. apply cons_inj_str in E.
    apply (join_inj render no_undef "]") in E as [-> ->]; auto.
    + intros v. destruct (render_head v) as (c & t & -> & Hc). exists c, t.
      rewrite Hc. auto using kind_lt.
    + clear E Hk. cbn in Ha. induction IH as [|v l Hv IH IHl]; constructor; cbn in Ha; bools; auto.
      intros c x' y'. by apply Hv.
  - cbn [render] in E. autorewrite with berth_str in E. apply cons_inj_str in E.
    apply (join_inj (fun kv => quote kv.1 +:+ ":" +:+ render kv.2)
             (fun kv => no_undef kv.2) "}") in E as [-> ->]; auto.
    + intros kv. eexists _, _; split; [reflexivity|]. vm_compute. lia.
    + clear E Hk. cbn in Ha. induction IH as [|[k v] l Hv IH IHl]; constructor; cbn in Ha; bools; auto.
      intros [k' v'] x' y' Hv' Hx' Hy' E'. cbn [fst snd] in *. autorewrite with berth_str in E'.
      apply quote_inj in E' as [-> E']. apply cons_inj_str in E'.
      by apply Hv in E' as [-> ->].
Qed.

Lemma forallb_insert {A} (p : A -> bool) kv l :
  forallb (fun kv => p kv.2) (insert kv l) = p kv.2 && forallb (fun kv => p kv.2) l.
Proof.
  induction l as [|kv' l IH]; [done|]. cbn. destruct (Str.ltb kv'.1 kv.1); [|done].
  cbn. rewrite IH. by destruct (p kv.2), (p kv'.2).
Qed.

Lemma forallb_sort {A} (p : A -> bool) l :
  forallb (fun kv => p kv.2) (sort_entries l) = forallb (fun kv => p kv.2) l.
Proof.
  induction l as [|kv l IH]; [done|].
  change (forallb (fun kv => p kv.2) (insert kv (sort_entries l))
          = p kv.2 && forallb (fun kv => p kv.2) l).
  by rewrite forallb_insert, IH.
Qed.

Lemma norm_no_undef v : no_undef (norm v) = true.
Proof.
  induction v as [| | | | |l IH|o IH] using json_ind'; try done; cbn [norm no_undef].
  - induction IH as [|v l Hv Hl IH]; [done|]. cbn. by rewrite Hv, IH.
  - rewrite forallb_sort. induction IH as [|[k v] o Hv Ho IH]; [done|].
    cbn. cbn in Hv. destruct (is_undef v); cbn; [exact IH|]. by rewrite Hv.
Qed.

(** The canonical text the hash chain covers determines the value: two
    events have the same text exactly when they agree up to the order of
    object keys and the presence of undefined members. *)
Theorem canonicalize_inj a b : canonicalize a = canonicalize b <-> norm a = norm b.
Proof.
  rewrite !canonicalize_render. split; [|by intros ->].
  intros E. apply (f_equal (fun s => s +:+ "")) in E.
  apply render_inj in E as [? _]; auto using norm_no_undef; done.
Qed.

End Json.
