(* ===== verification/Redact.v ===== *)
(** * Redaction of audit payloads (packages/audit/src/redact.ts)

    A payload is a JavaScript value: primitives, and references into a heap of
    arrays, plain objects, dates, errors and buffers, so that sharing and
    cycles are what they are in the program. [redact] yields JSON data. *)
From S2P Require Import Prelude JsNumber Json.

Module Redact.
Import Json.

Inductive val : Type :=
| VUndef
| VNull
| VBool (b : bool)
| VNum (z : Z)
| VStr (s : string)
| VBigint (z : Z)
| VFunction
| VSymbol (description : string)
| VRef (l : nat).

(** The objects the code tells apart; [ODate None] is an invalid date, whose
    [toISOString] throws. *)
Inductive obj : Type :=
| ODate (iso : option string)
| OError (name message : string)
| OBuffer (byteLength : nat)
| OArray (items : list val)
| OObject (entries : list (string * val)).

Definition heap : Type := nat -> obj.

Definition SECRET_KEY_PATTERNS : list string :=
  ["password"; "passwd"; "secret"; "token"; "apikey"; "api_key"; "authorization";
   "auth"; "credential"; "private_key"; "privatekey"; "session"; "cookie"; "signature"].

Definition REDACTED : string := "[redacted]".
Definition DEFAULT_MAX_STRING : nat := 2048.
Definition DEFAULT_MAX_ARRAY : nat := 50.
Definition MAX_DEPTH : nat := 8.

Record RedactOptions := {
  maxStringLength : option nat;
  maxArrayLength : option nat;
  additionalSecretKeys : option (list string)
}.

Definition no_options : RedactOptions :=
  {| maxStringLength := None; maxArrayLength := None; additionalSecretKeys := None |}.

(** [.replace(/[-\s]/g, "_")] *)
Definition underscore (c : ascii) : ascii :=
  if Ascii.eqb c "-" || Str.is_space c then "_"%char else c.

Definition isSecretKey (key : string) (extra : list string) : bool :=
  let lower := Str.map underscore (Str.to_lower key) in
  existsb (fun p => Str.includes p lower) SECRET_KEY_PATTERNS
  || existsb (fun p => Str.includes (Str.to_lower p) lower) extra.

(** [toFixed(1)] of a quotient by 1024 picks the nearest tenth, upwards on a tie. *)
Definition formatBytes (bytes : nat) : string :=
  if bytes <? 1024 then JsNumber.to_string (Z.of_nat bytes) +:+ "B"
  else
    let tenths := Z.div (Z.of_nat bytes * 10 + 512) 1024 in
    JsNumber.to_string (Z.div tenths 10) +:+ "." +:+ JsNumber.to_string (Z.modulo tenths 10) +:+ "KB".

(** [Buffer.byteLength(s)]: UTF-8 takes two bytes for a code unit from 128 to 255. *)
Fixpoint byteLength (s : string) : nat :=
  match s with
  | EmptyString => 0
  | String c s' => (if Str.code c <? 128 then 1 else 2) + byteLength s'
  end.

Section redact.
Context (options : RedactOptions) (h : heap).

Definition maxString : nat := or_default DEFAULT_MAX_STRING (maxStringLength options).
Definition maxArray : nat := or_default DEFAULT_MAX_ARRAY (maxArrayLength options).
Definition extraKeys : list string := or_default [] (additionalSecretKeys options).

(** [items.map(f)] and the loop over an object's entries, threading the set of
    objects already visited. *)
Section loops.
Context (f : val -> list nat -> option (json * list nat)).

Fixpoint walk_items (items : list val) (seen : list nat) : option (list json * list nat) :=
  match items with
  | [] => Some ([], seen)
  | v :: items' =>
      '(r, seen1) ← f v seen;
      '(rs, seen2) ← walk_items items' seen1;
      Some (r :: rs, seen2)
  end.

Fixpoint walk_entries (entries : list (string * val)) (out : list (string * json)) (seen : list nat) :
    option (list (string * json) * list nat) :=
  match entries with
  | [] => Some (out, seen)
  | (key, child) :: entries' =>
      '(r, seen1) ← (if isSecretKey key extraKeys then Some (JStr REDACTED, seen) else f child seen);
      walk_entries entries' (JsObj.assign key r out) seen1
  end.
End loops.

(** [walk node (MAX_DEPTH - fuel)]; [None] when it throws. *)
Fixpoint walk (fuel : nat) (node : val) (seen : list nat) : option (json * list nat) :=
  match node with
  | VUndef => Some (JUndef, seen)
  | VNull => Some (JNull, seen)
  | VStr s =>
      Some (JStr (if maxString <? String.length s
                  then "<" +:+ formatBytes (byteLength s) +:+ " string, not captured>"
                  else s), seen)
  | VNum z => Some (JNum z, seen)
  | VBool b => Some (JBool b, seen)
  | VBigint z => Some (JStr (JsNumber.to_string z +:+ "n"), seen)
  | VFunction => Some (JStr "<function>", seen)
  | VSymbol d => Some (JStr ("Symbol(" +:+ d +:+ ")"), seen)
  | VRef l =>
      match fuel with
      | O => Some (JStr "<max depth>", seen)
      | S fuel' =>
          match h l with
          | ODate iso => iso ← iso; Some (JStr iso, seen)
          | OError name message => Some (JObj [("name", JStr name); ("message", JStr message)], seen)
          | OBuffer n => Some (JStr ("<" +:+ formatBytes n +:+ " buffer, not captured>"), seen)
          | OArray items =>
              if decide (l ∈ seen) then Some (JStr "<circular>", seen)
              else
                '(head, seen') ← walk_items (walk fuel') (take maxArray items) (l :: seen);
                Some (JArr (if maxArray <? length items
                            then head ++ [JStr ("<" +:+ JsNumber.to_string (Z.of_nat (length items - maxArray))
                                                +:+ " more items>")]
                            else head), seen')
          | OObject entries =>
              if decide (l ∈ seen) then Some (JStr "<circular>", seen)
              else
                '(out, seen') ← walk_entries (walk fuel') entries [] (l :: seen);
                Some (JObj out, seen')
          end
      end
  end.

Definition redact (value : val) : option json := fst <$> walk MAX_DEPTH value [].
End redact.

(** ** What a redacted value may contain *)

Section safe.
Context (extra : list string).

Definition is_redacted (v : json) : bool :=
  match v with JStr s => String.eqb s REDACTED | _ => false end.

(** Every member with a secret-looking name holds the marker. *)
Fixpoint masked (v : json) : bool :=
  match v with
  | JArr l => forallb masked l
  | JObj o =>
      forallb (fun kv => masked kv.2 && (negb (isSecretKey kv.1 extra) || is_redacted kv.2)) o
  | _ => true
  end.

(** Nesting at most [d], arrays at most [n] long. *)
Fixpoint bounded (n d : nat) (v : json) {struct v} : bool :=
  match v with
  | JArr l => match d with O => false | S d' => (length l <=? n) && forallb (bounded n d') l end
  | JObj o => match d with O => false | S d' => forallb (fun kv => bounded n d' kv.2) o end
  | _ => true
  end.
End safe.

Definition member_masked (extra : list string) (kv : string * json) : bool :=
  masked extra kv.2 && (negb (isSecretKey kv.1 extra) || is_redacted kv.2).

Lemma forallb_put {A} (p : string * A -> bool) k v o :
  p (k, v) = true -> forallb p o = true -> forallb p (JsMap.put k v o) = true.
Proof.
  intros Hk. induction o as [|[k' v'] o IH]; cbn; [by rewrite Hk|].
  intros Ho. bools. case_decide; cbn; rewrite ?Hk; [done|]. rewrite H. auto.
Qed.

Lemma forallb_assign {A} (p : string * A -> bool) k v o :
  p (k, v) = true -> forallb p o = true -> forallb p (JsObj.assign k v o) = true.
Proof. unfold JsObj.assign. destruct (String.eqb k _); auto using forallb_put. Qed.

(** An invariant of the values the recursive call yields holds of the loops' results. *)
Section loop_invariants.
Context (f : val -> list nat -> option (json * list nat)) (P : json -> bool).
Hypothesis Hf : forall v seen r seen', f v seen = Some (r, seen') -> P r = true.

Lemma walk_items_all items seen rs seen' :
  walk_items f items seen = Some (rs, seen') ->
  forallb P rs = true /\ length rs = length items.
Proof.
  revert seen rs seen'. induction items as [|v items IH]; cbn; intros seen rs seen' E.
  - by injection E as <- <-.
  - destruct (f v seen) as [[r s1]|] eqn:Ev; [|done]. cbn in E.
    destruct (walk_items f items s1) as [[rs' s2]|] eqn:Er; [|done]. cbn in E.
    injection E as <- <-. cbn. apply IH in Er as [-> ->]. by rewrite (Hf _ _ _ _ Ev).
Qed.

Lemma walk_entries_all options (Q : string * json -> bool) entries out seen out' seen' :
  (forall k v, isSecretKey k (extraKeys options) = false -> P v = true -> Q (k, v) = true) ->
  (forall k, isSecretKey k (extraKeys options) = true -> Q (k, JStr REDACTED) = true) ->
  forallb Q out = true ->
  walk_entries options f entries out seen = Some (out', seen') -> forallb Q out' = true.
Proof.
  intros HQ HR. revert out seen. induction entries as [|[k c] entries IH]; cbn; intros out seen Ho E.
  - by injection E as <- _.
  - destruct (isSecretKey k (extraKeys options)) eqn:Ek; cbn in E.
    + eapply IH, E. by apply forallb_assign; auto.
    + destruct (f c seen) as [[r s1]|] eqn:Ev; [|done]. cbn in E.
      eapply IH, E. apply forallb_assign; [|done]. eauto.
Qed.
End loop_invariants.

(** One step of [walk] on an object, inverted. *)
Lemma walk_ref options h fuel l seen r seen' :
  walk options h (S fuel) (VRef l) seen = Some (r, seen') ->
  (exists s, r = JStr s) \/
  (exists name message, r = JObj [("name", JStr name); ("message", JStr message)]) \/
  (exists items head, walk_items (walk options h fuel) (take (maxArray options) items) (l :: seen) = Some (head, seen')
     /\ (r = JArr head \/ exists s, r = JArr (head ++ [JStr s]))) \/
  (exists entries out, walk_entries options (walk options h fuel) entries [] (l :: seen) = Some (out, seen')
     /\ r = JObj out).
Proof.
  cbn [walk]. destruct (h l) as [iso|name message|n|items|entries].
  - destruct iso; cbn; intros E; simplify_eq; eauto.
  - intros [= <- <-]. eauto.
  - intros [= <- <-]. eauto.
  - case_decide; [intros [= <- <-]; eauto|].
    destruct (walk_items _ _ _) as [[head s']|] eqn:E; [|done]. cbn. intros [= <- <-].
    right; right; left. exists items, head. split; [done|]. case_match; eauto.
  - case_decide; [intros [= <- <-]; eauto|].
    destruct (walk_entries _ _ _ _ _) as [[out s']|] eqn:E; [|done]. cbn. intros [= <- <-].
    eauto 10.
Qed.

Lemma walk_prim options h fuel v seen r seen' :
  walk options h fuel v seen = Some (r, seen') -> (forall l, v <> VRef l) ->
  forall n d extra, bounded n d r = true /\ masked extra r = true.
Proof.
  intros E Hv n d extra.
  destruct v as [| | | | | | | |l]; [..|by destruct (Hv l)]; destruct fuel; cbn in E; by simplify_eq.
Qed.

Lemma masked_member extra k v :
  isSecretKey k extra = false -> masked extra v = true -> member_masked extra (k, v) = true.
Proof. unfold member_masked. cbn. by intros -> ->. Qed.

Lemma masked_obj extra o : masked extra (JObj o) = forallb (member_masked extra) o.
Proof. done. Qed.

Lemma walk_masked options h fuel :
  isSecretKey "name" (extraKeys options) = false ->
  isSecretKey "message" (extraKeys options) = false ->
  forall v seen r seen', walk options h fuel v seen = Some (r, seen') ->
  masked (extraKeys options) r = true.
Proof.
  intros Hn Hm. induction fuel as [|fuel IH]; intros v seen r seen' E;
    destruct v; try (refine (proj2 (walk_prim _ _ _ _ _ _ _ E _ 0 0 _)); done); [by cbn in E; simplify_eq|].
  apply walk_ref in E as [[s ->]|[(n & m & ->)|[(items & head & E & Hr)|(entries & out & E & ->)]]].
  - done.
  - cbn. by rewrite Hn, Hm.
  - apply (walk_items_all _ _ IH) in E as [E _].
    destruct Hr as [->|[s ->]]; cbn; [done|]. by rewrite forallb_app, E.
  - rewrite masked_obj. eapply walk_entries_all in E; eauto using masked_member.
    intros k Hk. unfold member_masked. cbn. by rewrite orb_true_r.
Qed.

Lemma walk_bounded options h fuel v seen r seen' :
  walk options h fuel v seen = Some (r, seen') ->
  bounded (S (maxArray options)) fuel r = true.
Proof.
  revert v seen r seen'. induction fuel as [|fuel IH]; intros v seen r seen' E;
    destruct v; try (refine (proj1 (walk_prim _ _ _ _ _ _ _ E _ _ _ [])); done); [by cbn in E; simplify_eq|].
  apply walk_ref in E as [[s ->]|[(n & m & ->)|[(items & head & E & Hr)|(entries & out & E & ->)]]]; try done.
  - apply (walk_items_all _ _ IH) in E as [E Hlen]. rewrite length_take in Hlen.
    destruct Hr as [->|[s ->]]; cbn [bounded]; rewrite ?length_app, ?forallb_app, E; cbn [length forallb].
    + rewrite andb_true_r. apply Nat.leb_le. lia.
    + destruct fuel; rewrite ?andb_true_r; apply Nat.leb_le; lia.
  - cbn [bounded]. eapply (walk_entries_all _ _ IH _ (fun kv => bounded _ _ kv.2)) in E; eauto.
Qed.


Definition ex_heap (l : nat) : obj :=
  match l with
  | 0 => OObject [("user", VStr "bob"); ("Api-Key", VStr "sk-123"); ("nested", VRef 1); ("self", VRef 0)]
  | 1 => OArray [VRef 2; VNum 7]
  | 2 => OObject [("session_id", VRef 0); ("at", VRef 3)]
  | _ => ODate (Some "2026-01-01T00:00:00.000Z")
  end.


(** ** Redaction does not read what it hides *)

(** Two heaps that differ only in the children of secret-looking members. *)
Definition same_entry (extra : list string) (e1 e2 : string * val) : Prop :=
  e1.1 = e2.1 /\ (isSecretKey e1.1 extra = true \/ e1.2 = e2.2).

Definition same_obj (extra : list string) (o1 o2 : obj) : Prop :=
  match o1, o2 with
  | OObject e1, OObject e2 => Forall2 (same_entry extra) e1 e2
  | _, _ => o1 = o2
  end.

Lemma walk_items_ext (f g : val -> list nat -> option (json * list nat)) items seen :
  (forall v s, f v s = g v s) -> walk_items f items seen = walk_items g items seen.
Proof.
  intros Hfg. revert seen. induction items as [|v items IH]; intros seen; cbn; [done|].
  rewrite Hfg. destruct (g v seen) as [[r s]|]; [|done]. cbn. by rewrite IH.
Qed.

Lemma walk_entries_same options (f g : val -> list nat -> option (json * list nat)) e1 e2 out seen :
  (forall v s, f v s = g v s) -> Forall2 (same_entry (extraKeys options)) e1 e2 ->
  walk_entries options f e1 out seen = walk_entries options g e2 out seen.
Proof.
  intros Hfg He. revert out seen.
  induction He as [|[k c] [k' c'] e1 e2 [Hk Hc] He IH]; intros out seen; cbn; [done|].
  cbn in Hk, Hc. subst k'. destruct (isSecretKey k (extraKeys options)); cbn; [apply IH|].
  destruct Hc as [|<-]; [done|]. rewrite Hfg. destruct (g c seen) as [[r s]|]; [|done]. cbn. apply IH.
Qed.

Lemma walk_same options h1 h2 fuel :
  (forall l, same_obj (extraKeys options) (h1 l) (h2 l)) ->
  forall v seen, walk options h1 fuel v seen = walk options h2 fuel v seen.
Proof.
  intros Hh. induction fuel as [|fuel IH]; intros v seen; destruct v as [| | | | | | | |l]; try done.
  cbn [walk]. specialize (Hh l). destruct (h1 l), (h2 l); cbn in Hh; try done; simplify_eq; try done.
  - case_decide; [done|]. by rewrite (walk_items_ext _ _ _ _ IH).
  - case_decide; [done|]. by rewrite (walk_entries_same _ _ _ _ _ _ _ IH Hh).
Qed.

(** What a redacted payload shows is independent of the values under
    secret-looking names: two payloads that differ only there have the same
    redaction (objects reachable only through such a member included). *)
Theorem redact_noninterference options h1 h2 value :
  (forall l, same_obj (extraKeys options) (h1 l) (h2 l)) ->
  redact options h1 value = redact options h2 value.
Proof. intros Hh. unfold redact. by rewrite (walk_same _ _ _ _ Hh). Qed.

Definition ex_heap' (l : nat) : obj :=
  match l with
  | 0 => OObject [("user", VStr "bob"); ("Api-Key", VNum 0); ("nested", VRef 1); ("self", VRef 0)]
  | 2 => OObject [("session_id", VNull); ("at", VRef 3)]
  | l => ex_heap l
  end.

Lemma redact_noninterference_witness :
  redact no_options ex_heap (VRef 0) = redact no_options ex_heap' (VRef 0).
Proof.
  apply redact_noninterference. intros [|[|[|l]]]; cbn; try reflexivity;
    repeat constructor; cbn; auto; left; vm_compute; reflexivity.
Defined.

(** ** Totality *)

Lemma walk_items_total (f : val -> list nat -> option (json * list nat)) items seen :
  (forall v s, is_Some (f v s)) -> is_Some (walk_items f items seen).
Proof.
  intros Hf. revert seen. induction items as [|v items IH]; intros seen; cbn; [eauto|].
  destruct (Hf v seen) as [[r s] ->]. cbn. destruct (IH s) as [[rs s'] ->]. cbn. eauto.
Qed.

Lemma walk_entries_total options (f : val -> list nat -> option (json * list nat)) e out seen :
  (forall v s, is_Some (f v s)) -> is_Some (walk_entries options f e out seen).
Proof.
  intros Hf. revert out seen. induction e as [|[k c] e IH]; intros out seen; cbn; [eauto|].
  destruct (isSecretKey k (extraKeys options)); cbn; [apply IH|].
  destruct (Hf c seen) as [[r s] ->]. cbn. apply IH.
Qed.

(** On a heap without invalid dates redaction always returns, cyclic
    payloads included. *)
Theorem redact_total options h value :
  (forall l, h l <> ODate None) -> is_Some (redact options h value).
Proof.
  intros Hd. unfold redact. apply fmap_is_Some. generalize (@nil nat) as seen. revert value.
  generalize MAX_DEPTH as fuel.
  induction fuel as [|fuel IH]; intros v seen; destruct v as [| | | | | | | |l]; cbn [walk]; eauto.
  specialize (Hd l). destruct (h l) as [[iso|]|?|?|items|entries]; cbn; eauto; [done|..].
  - case_decide; [eauto|].
    destruct (walk_items_total (walk options h fuel) (take (maxArray options) items) (l :: seen) IH)
      as [[? ?] ->]. cbn. eauto.
  - case_decide; [eauto|].
    destruct (walk_entries_total options (walk options h fuel) entries [] (l :: seen) IH)
      as [[? ?] ->]. cbn. eauto.
Qed.

Lemma redact_total_witness : is_Some (redact no_options (fun l => OArray [VRef (S l); VRef 0]) (VRef 0)).
Proof. apply redact_total. intros l [=]. Defined.

(** ** Extra secret names with a dash *)

Lemma any_map p f s : Str.any p (Str.map f s) = Str.any (fun c => p (f c)) s.
Proof. induction s as [|c s IH]; cbn; [done|]. by rewrite IH. Qed.

Lemma any_false (p : ascii -> bool) s : (forall c, p c = false) -> Str.any p s = false.
Proof. intros Hp. induction s as [|c s IH]; cbn; [done|]. by rewrite Hp. Qed.

Lemma underscore_dash c : Ascii.eqb "-" (underscore c) = false.
Proof. by destruct c as [[] [] [] [] [] [] [] []]. Qed.

Lemma lower_dash c : Ascii.eqb "-" c = true -> Ascii.eqb "-" (Str.lower_char c) = true.
Proof. rewrite Ascii.eqb_eq. by intros <-. Qed.

(** A name given in [additionalSecretKeys] that contains a dash hides
    nothing: keys are compared with their dashes turned into underscores, the
    extra names are not. *)
Theorem extra_dash_never_matches (p : string) (key : string) (extra : list string) :
  Str.any (Ascii.eqb "-") p = true ->
  isSecretKey key (p :: extra) = isSecretKey key extra.
Proof.
  intros Hp. unfold isSecretKey. cbn [existsb].
  destruct (Str.includes (Str.to_lower p) _) eqn:E; [|done]. exfalso.
  apply StrFacts.includes_spec in E as (a & b & E).
  apply (f_equal (Str.any (Ascii.eqb "-"))) in E.
  rewrite any_map, (any_false _ _ underscore_dash), !StrFacts.any_app in E.
  symmetry in E. apply orb_false_iff in E as [_ E]. apply orb_false_iff in E as [E _].
  unfold Str.to_lower in E. rewrite any_map in E. clear -Hp E.
  induction p as [|c p IH]; [done|]. cbn in Hp, E. apply orb_false_iff in E as [Ec E].
  apply orb_true_iff in Hp as [Hc|Hp]; [|auto].
  apply lower_dash in Hc. unfold Str.lower_char in *. by rewrite Hc in Ec.
Qed.

Lemma extra_dash_never_matches_witness :
  isSecretKey "x-internal-id" ["x-internal"] = false.
Proof. rewrite (extra_dash_never_matches "x-internal"); reflexivity. Defined.

End Redact.
