(* ===== verification/JsonParse.v ===== *)
(** * JSON text: [JSON.stringify] and a reader for what it writes

    [stringify] is [JSON.stringify] of JSON data; [parse] reads the texts it
    writes back and rejects every torn (cut short) object. The components that
    read JSON take the reader as a parameter, with these two facts as
    hypotheses; [parse] is the instance that shows they can hold. *)
From S2P Require Import Prelude JsNumber Json.

Module JsonParse.
Import Json.

(** ** Writing *)

Fixpoint stringify (v : json) : string :=
  match v with
  | JUndef | JNull => "null"
  | JBool b => if b then "true" else "false"
  | JNum z => JsNumber.to_string z
  | JStr s => quote s
  | JArr l => "[" +:+ Str.join "," (map stringify l) +:+ "]"
  | JObj o =>
      "{" +:+ Str.join "," (map (fun kv => quote kv.1 +:+ ":" +:+ kv.2)
        (defined (map (fun kv => (kv.1, if is_undef kv.2 then None else Some (stringify kv.2))) o)))
      +:+ "}"
  end.

(** What is read back: undefined members are gone, undefined items are null. *)
Fixpoint clean (v : json) : json :=
  match v with
  | JUndef | JNull => JNull
  | JArr l => JArr (map clean l)
  | JObj o =>
      JObj (defined (map (fun kv => (kv.1, if is_undef kv.2 then None else Some (clean kv.2))) o))
  | _ => v
  end.

Definition clean_fields (o : list (string * json)) : list (string * json) :=
  defined (map (fun kv => (kv.1, if is_undef kv.2 then None else Some (clean kv.2))) o).

(** ** Reading *)

Fixpoint parse_chars (fuel : nat) (s : string) : option (string * string) :=
  match fuel with
  | O => None
  | S fuel' =>
      match unesc s with
      | Some (c, r) => '(t, r') ← parse_chars fuel' r; Some (String c t, r')
      | None =>
          match s with
          | String c r => if Ascii.eqb c dq_char then Some (EmptyString, r) else None
          | EmptyString => None
          end
      end
  end.

Definition expect (c : ascii) (s : string) : option string :=
  match s with String d r => if Ascii.eqb c d then Some r else None | EmptyString => None end.

Fixpoint literal (p s : string) : option string :=
  match p with
  | EmptyString => Some s
  | String c p' => r ← expect c s; literal p' r
  end.

(** A number ends where its digits do, and something must follow it: a number
    at the very end of the text may have been cut short. *)
Definition parse_number (s : string) : option (json * string) :=
  let '(neg, s1) := match s with
                    | String c r => if Ascii.eqb c "-" then (true, r) else (false, s)
                    | EmptyString => (false, s)
                    end in
  match JsNumber.span Str.is_digit s1 with
  | (String d ds, String c r) =>
      let n := JsNumber.decimal_value (String d ds) in
      Some (JNum (if neg : bool then - n else n)%Z, String c r)
  | _ => None
  end.

(** The items after the opening bracket, with [item] reading one of them. *)
Fixpoint parse_list {A} (item : string -> option (A * string)) (close : ascii) (fuel : nat) (s : string) :
    option (list A * string) :=
  match fuel with
  | O => None
  | S fuel' =>
      '(a, r) ← item s;
      match r with
      | String c r' =>
          if Ascii.eqb c close then Some ([a], r')
          else if Ascii.eqb c "," then
            '(l, r'') ← parse_list item close fuel' r'; Some (a :: l, r'')
          else None
      | EmptyString => None
      end
  end.

Definition parse_seq {A} (item : string -> option (A * string)) (close : ascii) (s : string) :
    option (list A * string) :=
  match expect close s with
  | Some r => Some ([], r)
  | None => parse_list item close (String.length s) s
  end.

Definition parse_member (value : string -> option (json * string)) (s : string) :
    option ((string * json) * string) :=
  r1 ← expect dq_char s;
  '(k, r2) ← parse_chars (String.length r1) r1;
  r3 ← expect ":" r2;
  '(v, r4) ← value r3;
  Some ((k, v), r4).

Fixpoint parse_value (fuel : nat) (s : string) : option (json * string) :=
  match fuel with
  | O => None
  | S fuel' =>
      match s with
      | EmptyString => None
      | String c r =>
          if Ascii.eqb c "n" then r ← literal "null" s; Some (JNull, r)
          else if Ascii.eqb c "t" then r ← literal "true" s; Some (JBool true, r)
          else if Ascii.eqb c "f" then r ← literal "false" s; Some (JBool false, r)
          else if Ascii.eqb c dq_char then '(t, r') ← parse_chars (String.length r) r; Some (JStr t, r')
          else if Ascii.eqb c "[" then
            '(l, r') ← parse_seq (parse_value fuel') "]" r; Some (JArr l, r')
          else if Ascii.eqb c "{" then
            '(o, r') ← parse_seq (parse_member (parse_value fuel')) "}" r; Some (JObj o, r')
          else parse_number s
      end
  end.

(** An object text, and nothing after it. *)
Definition parse (s : string) : option json :=
  match parse_value (S (String.length s)) s with
  | Some (JObj o, EmptyString) => Some (JObj o)
  | _ => None
  end.

(** ** Strings *)

Lemma parse_chars_escape t x fuel :
  String.length t < fuel -> parse_chars fuel (escape t +:+ String dq_char x) = Some (t, x).
Proof.
  revert fuel. induction t as [|c t IH]; intros [|fuel] Hf; cbn in Hf; try lia.
  - done.
  - cbn [parse_chars escape]. rewrite app_assoc_str, unesc_esc. cbn.
    rewrite IH by lia. done.
Qed.

Lemma length_escape t : String.length t <= String.length (escape t).
Proof.
  induction t as [|c t IH]; [done|]. cbn [escape]. rewrite length_app_str.
  assert (1 <= String.length (esc_char c)); [|cbn; lia].
  unfold esc_char. repeat case_match; cbn; lia.
Qed.

Lemma parse_chars_quote t x :
  parse_chars (String.length (escape t +:+ String dq_char x)) (escape t +:+ String dq_char x) = Some (t, x).
Proof. apply parse_chars_escape. rewrite length_app_str. pose proof (length_escape t). cbn. lia. Qed.

(** ** What is written is read back *)

(** A number must be followed by something that is not a digit. *)
Definition follows (v : json) (x : string) : Prop :=
  match v with
  | JNum _ => exists c r, x = String c r /\ Str.is_digit c = false
  | _ => True
  end.

Definition reads (v : json) : Prop :=
  forall fuel x, String.length (stringify v) < fuel -> follows v x ->
    parse_value fuel (stringify v +:+ x) = Some (clean v, x).

Lemma parse_number_to_string z x :
  follows (JNum z) x -> parse_number (JsNumber.to_string z +:+ x) = Some (JNum z, x).
Proof.
  intros (c & r & -> & Hc). unfold parse_number.
  assert (Hpos : forall n, (0 <= n)%Z ->
    JsNumber.span Str.is_digit (JsNumber.to_string n +:+ String c r) = (JsNumber.to_string n, String c r)
    /\ JsNumber.decimal_value (JsNumber.to_string n) = n).
  { intros n Hn. destruct (JsNumber.to_string_spec n Hn) as (_ & Hd & Hv).
    split; [by apply span_digits|done]. }
  destruct (Z.ltb_spec z 0) as [Hz|Hz].
  - rewrite to_string_neg, app_cons_str by done. cbv beta iota. rewrite Ascii.eqb_refl.
    destruct (Hpos (- z)%Z) as [-> Hv]; [lia|].
    destruct (to_string_head (- z)) as (d & ds & E & _); [lia|]. rewrite E in *. rewrite Hv.
    do 3 f_equal. lia.
  - destruct (Hpos z) as [Hs Hv]; [lia|].
    destruct (to_string_head z) as (d & ds & E & Hd); [lia|]. rewrite E in *. rewrite app_cons_str in *.
    destruct (Ascii.eqb_spec d "-") as [->|]; [done|]. by rewrite Hs, Hv.
Qed.

Lemma expect_eq c x : expect c (String c x) = Some x.
Proof. unfold expect. by rewrite Ascii.eqb_refl. Qed.

Lemma expect_ne c d x : c <> d -> expect c (String d x) = None.
Proof. unfold expect. intros H. by apply Ascii.eqb_neq in H as ->. Qed.

Lemma stringify_head v : exists c s, stringify v = String c s /\ head_kind c = kind v.
Proof.
  destruct v as [| |[]|z|s|l|o]; cbn; eauto.
  destruct (Z.ltb_spec z 0).
  - rewrite to_string_neg by done. eauto.
  - destruct (to_string_head z) as (c & s & -> & Hc); [lia|]. eauto using digit_kind.
Qed.

Lemma join_cons2 sep w w' ws : Str.join sep (w :: w' :: ws) = w +:+ sep +:+ Str.join sep (w' :: ws).
Proof. done. Qed.

Lemma length_join_ge {A} (text : A -> string) l :
  (forall a, 1 <= String.length (text a)) ->
  length l <= String.length (Str.join "," (map text l)).
Proof.
  intros Ht. induction l as [|a [|b l] IH]; [done|cbn; pose proof (Ht a); lia|].
  cbn [map] in *. rewrite join_cons2, !length_app_str. cbn [length String.length] in *.
  pose proof (Ht a). lia.
Qed.

Lemma length_join_elem {A} (text : A -> string) l a :
  a ∈ l -> String.length (text a) <= String.length (Str.join "," (map text l)).
Proof.
  induction l as [|b [|c l] IH]; intros Ha; [by apply not_elem_of_nil in Ha|..];
    apply elem_of_cons in Ha as [->|Ha]; cbn [map] in *; rewrite ?join_cons2, ?length_app_str; try done; try lia.
  - by apply not_elem_of_nil in Ha.
  - specialize (IH Ha). lia.
Qed.

(** Reading a comma-separated list of texts that are read one by one. *)
Section lists.
Context {A B : Type} (text : A -> string) (val : A -> B) (item : string -> option (B * string)).
Context (close : ascii).
Hypothesis close_not_comma : close <> ","%char.
Hypothesis close_not_digit : Str.is_digit close = false.
Hypothesis text_head : forall a, exists c s, text a = String c s /\ c <> close.

Definition item_reads (a : A) : Prop :=
  forall c r, Str.is_digit c = false -> item (text a +:+ String c r) = Some (val a, String c r).

Lemma parse_list_join a l x fuel :
  Forall item_reads (a :: l) -> length l < fuel ->
  parse_list item close fuel (Str.join "," (map text (a :: l)) +:+ String close x)
  = Some (map val (a :: l), x).
Proof.
  revert a fuel. induction l as [|b l IH]; intros a [|fuel] Hl Hf; cbn [length] in Hf; try lia;
    inversion_clear Hl as [|? ? Ha Hl']; cbn [parse_list].
  - cbn [map Str.join]. rewrite Ha by done. cbn. by rewrite Ascii.eqb_refl.
  - cbn [map]. rewrite join_cons2. rewrite !app_assoc_str, app_cons_str, app_empty_str, Ha by done.
    cbn [mbind option_bind].
    destruct (Ascii.eqb_spec "," close) as [?|_]; [congruence|].
    rewrite Ascii.eqb_refl. specialize (IH b fuel Hl'). cbn [map] in IH. rewrite IH by lia. done.
Qed.

Lemma parse_seq_join l x :
  Forall item_reads l ->
  parse_seq item close (Str.join "," (map text l) +:+ String close x) = Some (map val l, x).
Proof.
  intros Hl. unfold parse_seq. destruct l as [|a l].
  - cbn [map Str.join]. by rewrite app_empty_str, expect_eq.
  - assert (expect close (Str.join "," (map text (a :: l)) +:+ String close x) = None) as ->.
    { destruct (text_head a) as (c & s & E & Hc).
      destruct l; cbn [map]; [cbn [Str.join]|rewrite join_cons2]; rewrite E, !app_cons_str;
        by apply expect_ne. }
    apply parse_list_join; [done|]. rewrite length_app_str.
    pose proof (length_join_ge text (a :: l)) as Hlen. cbn [length] in Hlen.
    enough (S (length l) <= String.length (Str.join "," (map text (a :: l)))) by lia.
    apply Hlen. intros b. destruct (text_head b) as (c & s & -> & _). cbn. lia.
Qed.
End lists.

Lemma parse_value_arr fuel r :
  parse_value (S fuel) (String "[" r) = '(l, r') ← parse_seq (parse_value fuel) "]" r; Some (JArr l, r').
Proof. done. Qed.

Lemma parse_value_obj fuel r :
  parse_value (S fuel) (String "{" r)
  = '(o, r') ← parse_seq (parse_member (parse_value fuel)) "}" r; Some (JObj o, r').
Proof. done. Qed.

Lemma parse_value_str fuel t x :
  parse_value (S fuel) (quote t +:+ x) = Some (JStr t, x).
Proof.
  unfold quote. rewrite app_cons_str, app_assoc_str, app_cons_str, app_empty_str.
  cbn [parse_value]. rewrite parse_chars_quote. done.
Qed.

Lemma parse_value_number fuel s :
  (exists c r, s = String c r /\ head_kind c = 2) -> parse_value (S fuel) s = parse_number s.
Proof.
  intros (c & r & -> & Hc). cbn [parse_value].
  destruct c as [[] [] [] [] [] [] [] []]; try discriminate Hc; done.
Qed.

Lemma reads_arr l : Forall reads l -> reads (JArr l).
Proof.
  intros Hl [|fuel] x Hf _; [lia|]. cbn [stringify clean] in *.
  rewrite !app_assoc_str, !app_cons_str, !app_empty_str, parse_value_arr.
  rewrite !length_app_str in Hf. cbn in Hf.
  rewrite (parse_seq_join stringify clean); [done|done|done|..].
  - intros a. destruct (stringify_head a) as (c & s & -> & Hk). exists c, s. split; [done|].
    intros ->. pose proof (kind_lt a). assert (head_kind "]" = 6) by reflexivity. lia.
  - rewrite Forall_forall in *. intros v Hv c r Hc. apply Hl; [done|..].
    + apply length_join_elem with (text := stringify) in Hv. lia.
    + destruct v; cbn; eauto.
Qed.

(** The members of an object that are written, with their texts and values. *)
Definition member_text (kv : string * json) : string := quote kv.1 +:+ ":" +:+ stringify kv.2.
Definition present (o : list (string * json)) : list (string * json) :=
  List.filter (fun kv => negb (is_undef kv.2)) o.

Lemma stringify_obj o :
  stringify (JObj o) = "{" +:+ Str.join "," (map member_text (present o)) +:+ "}".
Proof.
  cbn [stringify]. do 3 f_equal. induction o as [|[k v] o IH]; [done|]. cbn. destruct (is_undef v); cbn; [exact IH|]. f_equal; exact IH.
Qed.

Lemma clean_fields_present o :
  clean_fields o = map (fun kv => (kv.1, clean kv.2)) (present o).
Proof.
  unfold clean_fields, present. induction o as [|[k v] o IH]; [done|]. cbn.
  destruct (is_undef v); cbn; [exact IH|]. f_equal; exact IH.
Qed.

Lemma reads_member fuel kv :
  reads kv.2 -> String.length (stringify kv.2) < fuel ->
  item_reads member_text (fun kv => (kv.1, clean kv.2)) (parse_member (parse_value fuel)) kv.
Proof.
  intros Hv Hf c r Hc. unfold member_text, quote, parse_member.
  autorewrite with berth_str. rewrite expect_eq. cbn [mbind option_bind].
  rewrite parse_chars_quote. cbn [mbind option_bind]. rewrite expect_eq. cbn [mbind option_bind].
  rewrite Hv; [done|done|]. destruct kv.2; cbn; eauto.
Qed.

Lemma reads_obj o fuel x :
  Forall (fun kv => reads kv.2) o -> String.length (stringify (JObj o)) < fuel ->
  parse_value fuel (stringify (JObj o) +:+ x) = Some (JObj (clean_fields o), x).
Proof.
  rewrite stringify_obj, clean_fields_present. intros Ho Hf. destruct fuel as [|fuel]; [lia|].
  rewrite !app_assoc_str, !app_cons_str, !app_empty_str, parse_value_obj.
  rewrite !length_app_str in Hf. cbn in Hf.
  rewrite (parse_seq_join member_text (fun kv => (kv.1, clean kv.2))); [done|done|done|..].
  - intros kv. exists dq_char. eexists. split; [reflexivity|done].
  - rewrite Forall_forall in *. intros kv Hkv. apply reads_member.
    + apply Ho. apply list_elem_of_In in Hkv. apply list_elem_of_In.
      by apply filter_In in Hkv as [? _].
    + apply length_join_elem with (text := member_text) in Hkv.
      unfold member_text at 1 in Hkv. rewrite !length_app_str in Hkv. lia.
Qed.

Lemma reads_all v : reads v.
Proof.
  induction v as [| |b|z|s|l IH|o IH] using json_ind'.
  - intros [|fuel] x Hf Hx; [lia|done].
  - intros [|fuel] x Hf Hx; [lia|done].
  - intros [|fuel] x Hf Hx; [lia|by destruct b].
  - intros [|fuel] x Hf Hx; [lia|]. rewrite parse_value_number; [by apply parse_number_to_string|].
    destruct (stringify_head (JNum z)) as (c & s & -> & Hk). exists c. eauto.
  - intros [|fuel] x Hf Hx; [lia|apply parse_value_str].
  - by apply reads_arr.
  - intros fuel x Hf _. by apply reads_obj.
Qed.

(** The text of an object is read back as the object, its undefined members gone. *)
Lemma parse_stringify o : parse (stringify (JObj o)) = Some (JObj (clean_fields o)).
Proof.
  unfold parse. rewrite <- (app_nil_r_str (stringify (JObj o))) at 2.
  rewrite reads_obj; [done| |lia]. apply Forall_true. intros. apply reads_all.
Qed.

(** ** A text cut short is not read *)

Definition extends {A} (p p' : string -> option (A * string)) : Prop :=
  forall s a r q, p s = Some (a, r) -> p' (s +:+ q) = Some (a, r +:+ q).

Lemma unesc_extends : extends unesc unesc.
Proof.
  intros s a r q. unfold unesc. destruct s as [|c s]; [done|]. rewrite app_cons_str.
  destruct (Str.code c =? 34); [done|]. destruct (Str.code c =? 92); [|by intros [= <- <-]].
  destruct s as [|d s]; [done|]. rewrite app_cons_str.
  repeat (match goal with |- context [if ?b then _ else _] => destruct b end;
          [try (by intros [= <- <-])|try (by intros [= <- <-])]).
  destruct s as [|? [|? [|? [|? s]]]]; try done. rewrite !app_cons_str. by intros [= <- <-].
Qed.

Lemma unesc_None_dq r q : unesc (String dq_char r +:+ q) = None.
Proof. done. Qed.

Lemma parse_chars_extends n n' : n <= n' -> extends (parse_chars n) (parse_chars n').
Proof.
  revert n'. induction n as [|n IH]; intros [|n'] Hn s a r q; cbn [parse_chars]; try done; try lia.
  destruct (unesc s) as [[c s']|] eqn:E.
  - apply (unesc_extends _ _ _ q) in E. rewrite E. cbn.
    destruct (parse_chars n s') as [[t r']|] eqn:E'; [|done]. cbn. intros [= <- <-].
    erewrite IH; [|lia|exact E']. done.
  - destruct s as [|c s]; [done|]. destruct (Ascii.eqb_spec c dq_char) as [->|]; [|done].
    intros [= <- <-]. by rewrite unesc_None_dq, app_cons_str, Ascii.eqb_refl.
Qed.

Lemma expect_extends c s r q : expect c s = Some r -> expect c (s +:+ q) = Some (r +:+ q).
Proof.
  unfold expect. destruct s as [|d s]; [done|]. rewrite app_cons_str.
  destruct (Ascii.eqb c d); [|done]. by intros [= ->].
Qed.

Lemma literal_extends p s r q : literal p s = Some r -> literal p (s +:+ q) = Some (r +:+ q).
Proof.
  revert s. induction p as [|c p IH]; intros s; cbn [literal]; [by intros [= ->]|].
  destruct (expect c s) as [s'|] eqn:E; [|done]. cbn. apply (expect_extends _ _ _ q) in E as ->.
  cbn. apply IH.
Qed.

Lemma parse_list_extends {A} (f g : string -> option (A * string)) close n n' :
  extends f g -> n <= n' -> extends (parse_list f close n) (parse_list g close n').
Proof.
  intros Hfg. revert n'. induction n as [|n IH]; intros [|n'] Hn s a r q; cbn [parse_list]; try done; try lia.
  destruct (f s) as [[x s']|] eqn:E; [|done]. apply (Hfg _ _ _ q) in E. rewrite E. cbn.
  destruct s' as [|c s']; [done|]. rewrite app_cons_str.
  destruct (Ascii.eqb c close); [by intros [= <- <-]|].
  destruct (Ascii.eqb c ","); [|done].
  destruct (parse_list f close n s') as [[l r']|] eqn:E'; [|done]. cbn. intros [= <- <-].
  erewrite IH; [|lia|exact E']. done.
Qed.

Lemma parse_seq_extends {A} (f g : string -> option (A * string)) close :
  extends f g -> extends (parse_seq f close) (parse_seq g close).
Proof.
  intros Hfg s a r q. unfold parse_seq. destruct (expect close s) as [s'|] eqn:E.
  - apply (expect_extends _ _ _ q) in E as ->. by intros [= <- <-].
  - intros Hl. destruct s as [|c s]; [done|].
    assert (expect close (String c s +:+ q) = None) as ->.
    { rewrite app_cons_str. unfold expect in *. by destruct (Ascii.eqb close c). }
    eapply parse_list_extends in Hl; [exact Hl|done|]. rewrite length_app_str. lia.
Qed.

Lemma parse_member_extends f g : extends f g -> extends (parse_member f) (parse_member g).
Proof.
  intros Hfg s a r q. unfold parse_member.
  destruct (expect dq_char s) as [r1|] eqn:E1; [|done]. apply (expect_extends _ _ _ q) in E1 as ->.
  cbn [mbind option_bind].
  destruct (parse_chars (String.length r1) r1) as [[k r2]|] eqn:E2; [|done]. cbn [mbind option_bind].
  eapply (parse_chars_extends _ (String.length (r1 +:+ q))) in E2 as ->;
    [|rewrite length_app_str; lia].
  cbn [mbind option_bind].
  destruct (expect ":" r2) as [r3|] eqn:E3; [|done]. apply (expect_extends _ _ _ q) in E3 as ->.
  cbn [mbind option_bind]. destruct (f r3) as [[v r4]|] eqn:E4; [|done]. apply (Hfg _ _ _ q) in E4.
  rewrite E4. cbn [mbind option_bind]. by intros [= <- <-].
Qed.

Lemma span_extends p s d c r q :
  JsNumber.span p s = (d, String c r) -> JsNumber.span p (s +:+ q) = (d, String c r +:+ q).
Proof.
  revert d. induction s as [|x s IH]; intros d; cbn [JsNumber.span]; [done|]. rewrite app_cons_str.
  cbn [JsNumber.span]. destruct (p x); [|by intros [= <- <- <-]].
  destruct (JsNumber.span p s) as [a b]. intros [= <- ->]. by rewrite (IH a).
Qed.

Lemma parse_number_extends : extends parse_number parse_number.
Proof.
  intros s a r q. unfold parse_number. destruct s as [|c s]; [done|]. rewrite app_cons_str.
  assert (Hsp : forall s1 (neg : bool),
    match JsNumber.span Str.is_digit s1 with
    | (String d ds, String c' r') =>
        Some (JNum (if neg then - JsNumber.decimal_value (String d ds)
                    else JsNumber.decimal_value (String d ds))%Z, String c' r')
    | _ => None
    end = Some (a, r) ->
    match JsNumber.span Str.is_digit (s1 +:+ q) with
    | (String d ds, String c' r') =>
        Some (JNum (if neg then - JsNumber.decimal_value (String d ds)
                    else JsNumber.decimal_value (String d ds))%Z, String c' r')
    | _ => None
    end = Some (a, r +:+ q)).
  { intros s1 neg. destruct (JsNumber.span Str.is_digit s1) as [[|d ds] [|c' r']] eqn:E; try done.
    apply (span_extends _ _ _ _ _ q) in E as ->. rewrite app_cons_str. by intros [= <- <-]. }
  destruct (Ascii.eqb c "-"); [apply (Hsp s true)|apply (Hsp (String c s) false)].
Qed.

Lemma parse_value_extends n n' : n <= n' -> extends (parse_value n) (parse_value n').
Proof.
  revert n'. induction n as [|n IH]; intros [|n'] Hn s a r q; try done; try lia.
  assert (Hx : extends (parse_value n) (parse_value n')) by (apply IH; lia).
  destruct s as [|c s]; [done|]. rewrite app_cons_str. cbn [parse_value].
  rewrite <- !app_cons_str.
  destruct (Ascii.eqb c "n").
  { destruct (literal "null" _) as [s'|] eqn:E; [|done]. apply (literal_extends _ _ _ q) in E as ->.
    cbn. by intros [= <- <-]. }
  destruct (Ascii.eqb c "t").
  { destruct (literal "true" _) as [s'|] eqn:E; [|done]. apply (literal_extends _ _ _ q) in E as ->.
    cbn. by intros [= <- <-]. }
  destruct (Ascii.eqb c "f").
  { destruct (literal "false" _) as [s'|] eqn:E; [|done]. apply (literal_extends _ _ _ q) in E as ->.
    cbn. by intros [= <- <-]. }
  destruct (Ascii.eqb c dq_char).
  { destruct (parse_chars _ s) as [[t s']|] eqn:E; [|done].
    eapply (parse_chars_extends _ (String.length (s +:+ q))) in E as ->; [|rewrite length_app_str; lia].
    cbn. by intros [= <- <-]. }
  destruct (Ascii.eqb c "[").
  { destruct (parse_seq _ _ s) as [[l s']|] eqn:E; [|done].
    eapply parse_seq_extends in E as ->; [|done]. cbn. by intros [= <- <-]. }
  destruct (Ascii.eqb c "{").
  { destruct (parse_seq _ _ s) as [[l s']|] eqn:E; [|done].
    eapply parse_seq_extends in E as ->; [|by apply parse_member_extends]. cbn. by intros [= <- <-]. }
  apply parse_number_extends.
Qed.

(** A proper prefix of an object's text is not read as anything. *)
Lemma parse_torn o p q : p +:+ q = stringify (JObj o) -> q <> "" -> parse p = None.
Proof.
  intros E Hq. unfold parse.
  destruct (parse_value (S (String.length p)) p) as [[[| | | | | |o'] [|c r]]|] eqn:Ep; try done.
  exfalso. apply Hq.
  assert (Hle : S (String.length p) <= S (String.length (stringify (JObj o))))
    by (rewrite <- E, length_app_str; lia).
  apply (parse_value_extends _ _ Hle _ _ _ q) in Ep.
  rewrite E, app_empty_str in Ep. rewrite <- (app_nil_r_str (stringify (JObj o))) in Ep at 2.
  rewrite reads_obj in Ep; [by injection Ep| |lia]. apply Forall_true. intros. apply reads_all.
Qed.

(** ** The text of a value has no control characters *)

Definition text_char (c : ascii) : bool := 32 <=? Str.code c.
Definition text_only (s : string) : Prop := Str.all text_char s = true.

Lemma text_only_app s t : text_only s -> text_only t -> text_only (s +:+ t).
Proof. unfold text_only. rewrite StrFacts.all_app. by intros -> ->. Qed.

Lemma text_only_join l : Forall text_only l -> text_only (Str.join "," l).
Proof.
  induction 1 as [|s l Hs Hl IH]; [done|]. destruct l as [|t l]; [done|]. rewrite join_cons2.
  auto using text_only_app.
Qed.

Lemma text_only_quote s : text_only (quote s).
Proof.
  unfold quote. apply (text_only_app (String dq_char "")); [done|]. apply text_only_app; [|done].
  induction s as [|c s IH]; [done|]. cbn [escape]. apply text_only_app; [|done].
  by destruct c as [[] [] [] [] [] [] [] []].
Qed.

Lemma text_only_digits s : Str.all Str.is_digit s = true -> text_only s.
Proof. intros H. apply (StrFacts.all_impl _ _ s) with (2 := H). by intros [[] [] [] [] [] [] [] []]. Qed.

Lemma text_only_number z : text_only (JsNumber.to_string z).
Proof.
  destruct (Z.ltb_spec z 0) as [Hz|Hz].
  - rewrite to_string_neg by done. destruct (JsNumber.to_string_spec (- z)) as (_ & Hd & _); [lia|].
    apply (text_only_app "-"); [done|]. by apply text_only_digits.
  - destruct (JsNumber.to_string_spec z) as (_ & Hd & _); [lia|]. by apply text_only_digits.
Qed.

Lemma text_only_stringify v : text_only (stringify v).
Proof.
  induction v as [| |b|z|s|l IH|o IH] using json_ind'; try done.
  - by destruct b.
  - apply text_only_number.
  - apply text_only_quote.
  - cbn [stringify]. apply text_only_app; [done|]. apply text_only_app; [|done].
    apply text_only_join, Forall_map. exact IH.
  - rewrite stringify_obj. apply text_only_app; [done|]. apply text_only_app; [|done].
    apply text_only_join, Forall_map. rewrite Forall_forall in *. intros kv Hkv.
    apply list_elem_of_In, filter_In in Hkv as [Hkv _]. apply list_elem_of_In in Hkv.
    unfold member_text. apply text_only_app; [apply text_only_quote|].
    apply (text_only_app ":"); [done|]. by apply IH.
Qed.

(** In particular none of a given one. *)
Lemma text_only_free c s : text_char c = false -> text_only s -> Str.any (Ascii.eqb c) s = false.
Proof.
  intros Hc Hs. rewrite StrFacts.any_negb_all. apply negb_false_iff. apply (StrFacts.all_impl _ _ s) with (2 := Hs).
  intros d Hd. apply negb_true_iff, Ascii.eqb_neq. intros ->. congruence.
Qed.

Definition newline : ascii := ascii_of_nat 10.
Definition one_line (s : string) : Prop := Str.any (Ascii.eqb newline) s = false.

Lemma one_line_app_inv s t : one_line (s +:+ t) -> one_line s /\ one_line t.
Proof. unfold one_line. rewrite StrFacts.any_app. apply orb_false_iff. Qed.

Lemma one_line_stringify v : one_line (stringify v).
Proof. apply text_only_free; [done|apply text_only_stringify]. Qed.

(** ** Reading back does not change the canonical text *)

Lemma norm_clean v : norm (clean v) = norm v.
Proof.
  induction v as [| | | | |l IH|o IH] using json_ind'; try done; cbn [clean norm].
  - f_equal. rewrite List.map_map. induction IH as [|v l Hv Hl IH]; cbn; by rewrite ?Hv, ?IH.
  - do 2 f_equal. induction IH as [|[k v] o Hv Ho IH]; [done|]. cbn. cbn in Hv.
    destruct (is_undef v) eqn:E; cbn; [exact IH|].
    assert (is_undef (clean v) = false) as -> by (by destruct v). cbn. rewrite Hv. f_equal. exact IH.
Qed.

Lemma canonicalize_clean o : canonicalize (JObj (clean_fields o)) = canonicalize (JObj o).
Proof. rewrite !canonicalize_render. f_equal. apply (norm_clean (JObj o)). Qed.

End JsonParse.
