(* ===== verification/AuditChain.v ===== *)
(** * The audit chain (packages/audit/src/sink.ts)

    Hashing of records, the sinks that write them and the functions that check
    them. The hash is a parameter [H]; a record is the JSON object it is on
    disk. The file sink works on the bytes of its segments. *)
From S2P Require Import Prelude JsNumber Json JsonParse Redact.

Module AuditChain.
Import Json JsonParse.

Abbreviation fields := (list (string * json)).

(** [CHAIN_GENESIS = "0".repeat(64)] *)
Fixpoint repeat_char (c : ascii) (n : nat) : string :=
  match n with O => EmptyString | S n' => String c (repeat_char c n') end.
Definition CHAIN_GENESIS : string := repeat_char "0" 64.

(** [const { prevHash, hash, ...event } = record]: what is left over. *)
Definition rest_event (v : json) : fields :=
  match v with
  | JObj o => JsMap.remove "hash" (JsMap.remove "prevHash" o)
  | _ => []
  end.

Inductive BrokenReason : Type :=
| PrevMismatch (prevHash : string) (expected : string)
| HashMismatch (recomputed : string) (stored : string).

Record ChainVerification := {
  valid : bool;
  brokenAt : Z;
  reason : option BrokenReason;
  endHash : string
}.

Record SegmentInput := { segment : string; seg_records : list json }.

Record SegmentFailure := { f_segment : string; f_brokenAt : Z; f_reason : option BrokenReason }.

Record SegmentVerification := {
  s_valid : bool;
  head : string;
  totalRecords : nat;
  perSegment : list (string * nat);
  truncatedStart : bool;
  startedFrom : json;
  failure : option SegmentFailure
}.

Section chain.
Context (H : string -> string).

Definition hashRecord (prevHash : string) (event : fields) : string :=
  H (prevHash +:+ canonicalize (JObj event)).

(** [verifyAuditChain]'s loop from record [i]; [None] when it throws. *)
Fixpoint verify_from (i : Z) (records : list json) (expectedPrev : string) : option ChainVerification :=
  match records with
  | [] => Some {| valid := true; brokenAt := -1; reason := None; endHash := expectedPrev |}
  | r :: records' =>
      prevHash ← prop "prevHash" r;
      hash ← prop "hash" r;
      match prevHash with
      | JStr p =>
          if String.eqb p expectedPrev then
            let recomputed := hashRecord p (rest_event r) in
            match hash with
            | JStr h =>
                if String.eqb recomputed h then verify_from (i + 1) records' h
                else Some {| valid := false; brokenAt := i;
                             reason := Some (HashMismatch recomputed h); endHash := expectedPrev |}
            | _ =>
                stored ← js_string hash;
                Some {| valid := false; brokenAt := i;
                        reason := Some (HashMismatch recomputed stored); endHash := expectedPrev |}
            end
          else Some {| valid := false; brokenAt := i;
                       reason := Some (PrevMismatch p expectedPrev); endHash := expectedPrev |}
      | _ =>
          p ← js_string prevHash;
          Some {| valid := false; brokenAt := i;
                  reason := Some (PrevMismatch p expectedPrev); endHash := expectedPrev |}
      end
  end.

Definition verifyAuditChain (records : list json) (startHash : string) : option ChainVerification :=
  verify_from 0 records startHash.

(** The loop of [verifyAuditSegments] over the segments that hold records. *)
Fixpoint verify_segments_from (done : option SegmentFailure -> string -> SegmentVerification)
    (segments : list SegmentInput) (expected : string) : option SegmentVerification :=
  match segments with
  | [] => Some (done None expected)
  | s :: segments' =>
      result ← verifyAuditChain (seg_records s) expected;
      if valid result then verify_segments_from done segments' (endHash result)
      else Some (done (Some {| f_segment := segment s; f_brokenAt := brokenAt result;
                               f_reason := reason result |}) (endHash result))
  end.

Definition nonempty_segment (s : SegmentInput) : bool := negb (length (seg_records s) =? 0).

Definition verifyAuditSegments (segments : list SegmentInput) : option SegmentVerification :=
  let nonEmpty := List.filter nonempty_segment segments in
  let per := map (fun s => (segment s, length (seg_records s))) segments in
  let total := list_sum (map (fun s => length (seg_records s)) nonEmpty) in
  match nonEmpty with
  | {| seg_records := first :: _ |} :: _ =>
      firstPrev ← prop "prevHash" first;
      let done (failure : option SegmentFailure) (head : string) :=
        {| s_valid := match failure with None => true | Some _ => false end;
           head := head; totalRecords := total; perSegment := per;
           truncatedStart := match firstPrev with JStr p => negb (String.eqb p CHAIN_GENESIS) | _ => true end;
           startedFrom := firstPrev; failure := failure |} in
      match firstPrev with
      | JStr p => verify_segments_from done nonEmpty p
      | JUndef => verify_segments_from done nonEmpty CHAIN_GENESIS (* the default argument *)
      | _ => None (* the same value compares equal, and hashing it throws *)
      end
  | _ =>
      Some {| s_valid := true; head := CHAIN_GENESIS; totalRecords := 0; perSegment := per;
              truncatedStart := false; startedFrom := JStr CHAIN_GENESIS; failure := None |}
  end.

(** ** Writing a record *)

(** [{ ...payload, prevHash, hash }] *)
Definition stamp (payload : fields) (prevHash hash : string) : json :=
  JObj (JsMap.put "hash" (JStr hash) (JsMap.put "prevHash" (JStr prevHash) payload)).

Record MemorySink := { m_records : list json; m_prevHash : string; m_seq : Z }.

Definition createMemoryAuditSink : MemorySink :=
  {| m_records := []; m_prevHash := CHAIN_GENESIS; m_seq := 0 |}.

Definition memory_record (event : fields) (s : MemorySink) : MemorySink :=
  let payload := JsMap.put "seq" (JNum (m_seq s)) event in
  let hash := hashRecord (m_prevHash s) payload in
  {| m_records := m_records s ++ [stamp payload (m_prevHash s) hash];
     m_prevHash := hash; m_seq := m_seq s + 1 |}.

(** ** What a valid chain is *)

Inductive chain : string -> list json -> string -> Prop :=
| chain_nil s : chain s [] s
| chain_cons s r rs h e :
    prop "prevHash" r = Some (JStr s) -> prop "hash" r = Some (JStr h) ->
    hashRecord s (rest_event r) = h -> chain h rs e -> chain s (r :: rs) e.

Lemma chain_app s rs e rs' e' : chain s rs e -> chain e rs' e' -> chain s (rs ++ rs') e'.
Proof. induction 1; cbn; eauto using chain. Qed.

Lemma chain_app_inv s rs rs' e : chain s (rs ++ rs') e -> exists m, chain s rs m /\ chain m rs' e.
Proof.
  revert s. induction rs as [|r rs IH]; cbn; intros s Hc.
  - exists s. split; [constructor|done].
  - inversion_clear Hc as [|? ? ? h ? Hp Hh He Hr]. apply IH in Hr as (m & ? & ?).
    exists m. split; [|done]. by econstructor.
Qed.

Lemma chain_end s rs e e' : chain s rs e -> chain s rs e' -> e = e'.
Proof.
  intros Hc. revert e'. induction Hc as [|s r rs h e Hp Hh He Hr IH]; intros e' Hc';
    inversion_clear Hc' as [|? ? ? h' ? Hp' Hh' He' Hr']; [done|].
  apply IH. congruence.
Qed.

Lemma verify_from_chain i rs s v :
  verify_from i rs s = Some v -> valid v = true -> chain s rs (endHash v).
Proof.
  revert i s. induction rs as [|r rs IH]; cbn [verify_from]; intros i s E Hv.
  - injection E as <-. constructor.
  - destruct (prop "prevHash" r) as [p|] eqn:Ep; [|done]. cbn in E.
    destruct (prop "hash" r) as [h|] eqn:Eh; [|done]. cbn in E.
    destruct p; try (destruct (js_string _) in E; cbn in E; by simplify_eq).
    destruct (String.eqb_spec s0 s) as [->|]; [|by simplify_eq].
    destruct h; try (destruct (js_string _) in E; cbn in E; by simplify_eq).
    destruct (String.eqb_spec (hashRecord s (rest_event r)) s0) as [<-|]; [|by simplify_eq].
    econstructor; eauto.
Qed.

Lemma not_chain_cons s r h :
  (forall p, prop "prevHash" r = Some (JStr p) -> p = s ->
   forall h, prop "hash" r = Some (JStr h) -> hashRecord s (rest_event r) <> h) -> ~ chain s [r] h.
Proof. intros Hn Hc. inversion_clear Hc as [|? ? ? ? ? Hp Hh He]. by eapply Hn. Qed.

Lemma verify_from_broken i rs s v :
  verify_from i rs s = Some v -> valid v = false ->
  exists good bad later, rs = good ++ bad :: later /\ brokenAt v = (i + Z.of_nat (length good))%Z /\
    chain s good (endHash v) /\ forall h, ~ chain (endHash v) [bad] h.
Proof.
  revert i s. induction rs as [|r rs IH]; cbn [verify_from]; intros i s E Hv; [by simplify_eq|].
  destruct (prop "prevHash" r) as [p|] eqn:Ep; [|done].
  destruct (prop "hash" r) as [h|] eqn:Eh; [|done]. cbn in E.
  assert (Hstop : v.(endHash) = s -> v.(brokenAt) = i -> (forall h, ~ chain s [r] h) ->
    exists good bad later, r :: rs = good ++ bad :: later /\
      brokenAt v = (i + Z.of_nat (length good))%Z /\
      chain s good (endHash v) /\ forall h, ~ chain (endHash v) [bad] h).
  { intros -> -> Hn. exists [], r, rs. split_and!; [done|cbn; lia|constructor|done]. }
  destruct p as [| | | |p| |]; try (destruct (js_string _) in E; cbn in E; simplify_eq;
    apply Hstop; [done..|intros h'; apply not_chain_cons; intros; congruence]).
  destruct (String.eqb_spec p s) as [->|Hne]; [|simplify_eq; apply Hstop; [done..|];
    intros h'; apply not_chain_cons; intros; congruence].
  destruct h as [| | | |h| |]; try (destruct (js_string _) in E; cbn in E; simplify_eq;
    apply Hstop; [done..|intros h'; apply not_chain_cons; intros; congruence]).
  destruct (String.eqb_spec (hashRecord s (rest_event r)) h) as [<-|Hne]; [|simplify_eq; apply Hstop; [done..|];
    intros h'; apply not_chain_cons; intros; congruence].
  destruct (IH _ _ E Hv) as (good & bad & later & -> & Hb & Hc & Hn).
  exists (r :: good), bad, later. split_and!; [done|cbn; lia| |done]. by econstructor.
Qed.

Lemma chain_verify i s rs e :
  chain s rs e ->
  verify_from i rs s = Some {| valid := true; brokenAt := -1; reason := None; endHash := e |}.
Proof.
  intros Hc. revert i. induction Hc as [|s r rs h e Hp Hh He Hr IH]; intros i; cbn [verify_from]; [done|].
  rewrite Hp, Hh. cbn. by rewrite String.eqb_refl, He, String.eqb_refl.
Qed.

(** Checking a chain finds exactly the first record that does not follow:
    everything before it is a chain from the start to the reported head, the
    record itself continues no chain from there, and a record list is
    accepted exactly when it is a chain. *)
Theorem verifyAuditChain_spec rs s v :
  verifyAuditChain rs s = Some v ->
  (valid v = true <-> exists e, chain s rs e) /\
  (valid v = true -> chain s rs (endHash v) /\ brokenAt v = (-1)%Z) /\
  (valid v = false -> exists good bad later, rs = good ++ bad :: later /\
     brokenAt v = Z.of_nat (length good) /\ chain s good (endHash v) /\
     forall h, ~ chain (endHash v) [bad] h).
Proof.
  unfold verifyAuditChain. intros E.
  destruct (valid v) eqn:Ev.
  - pose proof (verify_from_chain _ _ _ _ E Ev) as Hc. split_and!; [by split; eauto| |done].
    intros _. split; [done|]. rewrite (chain_verify 0 _ _ _ Hc) in E. by injection E as <-.
  - destruct (verify_from_broken _ _ _ _ E Ev) as (good & bad & later & -> & Hb & Hg & Hbad).
    split_and!; [split; [done|]|done|].
    + intros [e He]. rewrite (chain_verify 0 _ _ _ He) in E. injection E as <-. done.
    + intros _. exists good, bad, later. split_and!; auto.
Qed.

(** ** Tamper evidence *)

Definition collision : Prop := exists x y, x <> y /\ H x = H y.

(** Two records that say the same: equal chain fields, and events equal up to
    key order and undefined members. *)
Definition same_record (r r' : json) : Prop :=
  prop "prevHash" r = prop "prevHash" r' /\ prop "hash" r = prop "hash" r' /\
  norm (JObj (rest_event r)) = norm (JObj (rest_event r')).

Section tamper.
Hypothesis hash_length : forall x, String.length (H x) = 64.

Lemma chain_length s rs e : String.length s = 64 -> chain s rs e -> String.length e = 64.
Proof. intros Hs Hc. induction Hc as [|s r rs h e Hp Hh <- Hr IH]; [done|]. apply IH, hash_length. Qed.

Lemma chain_snoc_inv s rs r e :
  chain s (rs ++ [r]) e -> exists p, chain s rs p /\ prop "prevHash" r = Some (JStr p) /\
    prop "hash" r = Some (JStr e) /\ hashRecord p (rest_event r) = e.
Proof.
  intros Hc. apply chain_app_inv in Hc as (p & Hp & Hc).
  inversion_clear Hc as [|? ? ? h ? H1 H2 H3 Hn]. inversion Hn; subst. eauto.
Qed.

Lemma chain_determined s rs rs' e :
  String.length s = 64 -> chain s rs e -> chain s rs' e ->
  Forall2 same_record rs rs' \/ collision \/ exists x, H x = s.
Proof.
  intros Hs. revert rs' e. induction rs as [|r rs IH] using rev_ind; intros rs' e Hc Hc'.
  - inversion Hc; subst. destruct rs' as [|r' rs' _] using rev_ind; [by left|].
    apply chain_snoc_inv in Hc' as (p & _ & _ & _ & He). right; right. by eexists.
  - apply chain_snoc_inv in Hc as (p & Hc & Hp & Hh & He).
    destruct rs' as [|r' rs' _] using rev_ind.
    + inversion Hc'; subst. right; right. by eexists.
    + apply chain_snoc_inv in Hc' as (p' & Hc' & Hp' & Hh' & He').
      unfold hashRecord in He, He'.
      destruct (decide (p +:+ canonicalize (JObj (rest_event r))
                        = p' +:+ canonicalize (JObj (rest_event r')))) as [E|E].
      * apply app_inj_length_str in E as [-> E];
          [|by rewrite (chain_length _ _ _ Hs Hc), (chain_length _ _ _ Hs Hc')].
        apply canonicalize_inj in E.
        destruct (IH _ _ Hc Hc') as [?|?]; [left|by right].
        apply Forall2_app; [done|]. constructor; [|done]. split_and!; congruence.
      * right; left. eexists _, _. split; [exact E|congruence].
Qed.
End tamper.

End chain.


(** ** Segments *)

Definition all_records (segments : list SegmentInput) : list json := mjoin (seg_records <$> segments).

Section segments.
Context (H : string -> string).

Lemma verify_segments_chain done segs s e :
  chain H s (all_records segs) e -> verify_segments_from H done segs s = Some (done None e).
Proof.
  revert s. induction segs as [|g segs IH]; intros s Hc; cbn in *.
  - by inversion Hc.
  - apply chain_app_inv in Hc as (m & Hg & Hc). unfold verifyAuditChain.
    rewrite (chain_verify _ _ _ _ _ Hg). cbn. by apply IH.
Qed.

Lemma verify_segments_inv done segs s v :
  verify_segments_from H done segs s = Some v ->
  (exists e, chain H s (all_records segs) e /\ v = done None e) \/ exists f e, v = done (Some f) e.
Proof.
  revert s. induction segs as [|g segs IH]; intros s E; cbn in *.
  - injection E as <-. left. eexists. split; [constructor|done].
  - destruct (verifyAuditChain H (seg_records g) s) as [r|] eqn:Eg; [|done]. cbn in E.
    destruct (valid r) eqn:Ev; [|injection E as <-; right; eauto].
    apply verify_from_chain in Eg; [|done].
    destruct (IH _ E) as [(e & Hc & ->)|?]; [left|by right]. eauto using chain_app.
Qed.

Lemma all_records_nonempty segs :
  all_records (List.filter nonempty_segment segs) = all_records segs.
Proof.
  induction segs as [|[n rs] segs IH]; [done|]. cbn. destruct rs as [|r rs]; cbn; [exact IH|].
  do 2 f_equal. exact IH.
Qed.

Lemma total_records segs :
  list_sum (map (fun s => length (seg_records s)) segs) = length (all_records segs).
Proof.
  induction segs as [|g segs IH]; [done|].
  change (length (seg_records g) + list_sum (map (fun s => length (seg_records s)) segs)
          = length (seg_records g ++ all_records segs)).
  by rewrite length_app, IH.
Qed.

Lemma first_nonempty segs s segs' :
  List.filter nonempty_segment segs = s :: segs' -> exists r rs, seg_records s = r :: rs.
Proof.
  intros E. assert (Hs : In s (List.filter nonempty_segment segs)) by (rewrite E; by left).
  apply filter_In in Hs as [_ Hs]. unfold nonempty_segment in Hs. destruct (seg_records s); eauto. done.
Qed.

(** Checking rotated segments is checking one chain: the segments are
    accepted exactly when their records, concatenated oldest first, form a
    chain from the predecessor the oldest held record names; the reported head
    is that chain's end, every record is counted, and a start other than
    genesis is always reported. *)
Theorem verifyAuditSegments_spec segs :
  let all := all_records segs in
  (forall p e, chain H p all e -> all <> [] \/ p = CHAIN_GENESIS ->
     exists v, verifyAuditSegments H segs = Some v /\ s_valid v = true /\ head v = e /\
       startedFrom v = JStr p /\ truncatedStart v = negb (String.eqb p CHAIN_GENESIS) /\
       totalRecords v = length all) /\
  (forall v, verifyAuditSegments H segs = Some v ->
     (truncatedStart v = false <-> startedFrom v = JStr CHAIN_GENESIS) /\
     totalRecords v = length all /\
     (s_valid v = true -> exists p, startedFrom v = JStr p /\ chain H p all (head v))).
Proof.
  cbn zeta. rewrite <- all_records_nonempty. unfold verifyAuditSegments. rewrite total_records.
  set (ne := List.filter nonempty_segment segs). pose proof (first_nonempty segs) as Hfirst. fold ne in Hfirst.
  destruct ne as [|[n rs] ne]; [split|].
  - intros p e Hc [?| ->]; [done|]. inversion Hc; subst. eexists. by split_and!.
  - intros v [= <-]. split_and!; [done..|]. intros _. eexists. split; [done|constructor].
  - destruct (Hfirst _ _ eq_refl) as (r & rs' & Hr). cbn in Hr. subst rs. clear Hfirst.
    set (all := all_records _). split.
    + intros p e Hc _. assert (prop "prevHash" r = Some (JStr p)) as -> by (by inversion Hc).
      cbn [mbind option_bind]. rewrite (verify_segments_chain _ _ _ _ Hc). eexists. by split_and!.
    + intros v E. destruct (prop "prevHash" r) as [p|] eqn:Ep; [|done]. cbn [mbind option_bind] in E.
      destruct p as [| | | |p| |]; try done; apply verify_segments_inv in E as [(e & Hc & ->)|(f & e & ->)];
        split_and!; try done.
      * inversion Hc. congruence.
      * cbn. rewrite negb_false_iff, String.eqb_eq. split; [by intros ->|by intros [= ->]].
      * intros _. exists p. split; [done|exact Hc].
      * cbn. rewrite negb_false_iff, String.eqb_eq. split; [by intros ->|by intros [= ->]].
Qed.

(** ** The memory sink *)

Definition unstamped (event : fields) : Prop :=
  JsMap.get "prevHash" event = None /\ JsMap.get "hash" event = None.

Lemma remove_absent (k : string) (o : fields) : JsMap.get k o = None -> JsMap.remove k o = o.
Proof.
  intros Hk. apply filter_Forall. apply Forall_forall. intros [k' v] Hin; cbn; intros ->.
  apply JsMap.get_None in Hk. apply Hk, list_elem_of_fmap. by exists (k, v).
Qed.

Lemma remove_put (k : string) (v : json) (o : fields) :
  JsMap.get k o = None -> JsMap.remove k (JsMap.put k v o) = o.
Proof.
  intros Hk. unfold JsMap.remove. induction o as [|[k' v'] o IH]; cbn in *; [by rewrite decide_False by auto|].
  destruct (decide (k = k')) as [->|Hne]; [done|].
  rewrite filter_cons_True by (cbn; congruence). f_equal. auto.
Qed.

Lemma remove_put_ne (k k' : string) (v : json) (o : fields) :
  k <> k' -> JsMap.remove k (JsMap.put k' v o) = JsMap.put k' v (JsMap.remove k o).
Proof.
  intros Hne. unfold JsMap.remove. induction o as [|[k2 v2] o IH]; cbn.
  - by rewrite decide_True by congruence.
  - destruct (decide (k' = k2)) as [->|Hne2].
    + rewrite !filter_cons. cbn [fst]. rewrite !(decide_True (P := k2 <> k)) by congruence. cbn.
      by rewrite decide_True.
    + rewrite !filter_cons. cbn [fst]. destruct (decide (k2 <> k)); cbn; [|exact IH].
      rewrite decide_False by done. by f_equal.
Qed.

Lemma rest_event_stamp payload p h : unstamped payload -> rest_event (stamp payload p h) = payload.
Proof.
  intros [Hp Hh]. unfold stamp, rest_event.
  rewrite (remove_put_ne "prevHash") by done. rewrite (remove_put "prevHash") by done.
  by rewrite remove_put.
Qed.

Lemma stamp_props payload p h :
  prop "prevHash" (stamp payload p h) = Some (JStr p) /\ prop "hash" (stamp payload p h) = Some (JStr h).
Proof.
  unfold stamp, prop. rewrite JsMap.get_put_ne, !JsMap.get_put_eq by done. done.
Qed.

Lemma chain_stamp payload p :
  unstamped payload -> chain H p [stamp payload p (hashRecord H p payload)] (hashRecord H p payload).
Proof.
  intros Hu. destruct (stamp_props payload p (hashRecord H p payload)) as [Hp Hh].
  econstructor; [exact Hp|exact Hh| |constructor]. by rewrite rest_event_stamp.
Qed.

Lemma unstamped_put k v (o : fields) :
  k <> "prevHash" -> k <> "hash" -> unstamped o -> unstamped (JsMap.put k v o).
Proof. intros ?? [??]. split; by rewrite JsMap.get_put_ne. Qed.

Definition memory_run (events : list fields) : MemorySink :=
  foldl (fun s e => memory_record H e s) createMemoryAuditSink events.

(** The records of a memory sink check out from genesis, one per event,
    their sequence numbers counting up from zero and their contents the events'. *)
Theorem memory_sink_valid (events : list fields) :
  Forall unstamped events ->
  let s := memory_run events in
  verifyAuditChain H (m_records s) CHAIN_GENESIS =
    Some {| valid := true; brokenAt := -1; reason := None; endHash := m_prevHash s |} /\
  map rest_event (m_records s) =
    imap (fun i e => JsMap.put "seq" (JNum (Z.of_nat i)) e) events.
Proof.
  intros Hev. cbn zeta.
  assert (chain H CHAIN_GENESIS (m_records (memory_run events)) (m_prevHash (memory_run events)) /\
    m_seq (memory_run events) = Z.of_nat (length events) /\
    map rest_event (m_records (memory_run events))
      = imap (fun i e => JsMap.put "seq" (JNum (Z.of_nat i)) e) events) as (Hc & _ & Hm).
  { induction events as [|e events IH] using rev_ind; [by split_and!; [constructor|..]|].
    apply Forall_app in Hev as [Hev He]. inversion_clear He as [|? ? He' _].
    destruct (IH Hev) as (Hc & Hs & Hm). unfold memory_run in *. rewrite foldl_snoc.
    set (s := foldl _ _ _) in *. cbn [memory_record m_records m_prevHash m_seq].
    assert (Hu : unstamped (JsMap.put "seq" (JNum (m_seq s)) e)) by by apply unstamped_put.
    split_and!.
    - eapply chain_app; [exact Hc|]. by apply chain_stamp.
    - rewrite length_app, Hs. cbn. lia.
    - rewrite map_app, Hm, imap_app. cbn [map imap]. rewrite rest_event_stamp by done.
      by rewrite Hs, Nat.add_0_r. }
  split; [|exact Hm]. apply (chain_verify _ 0 _ _ _ Hc).
Qed.
End segments.

(** ** Witnesses: a toy hash of fixed length, and two memory records *)

Definition toy_hash (s : string) : string :=
  Str.map (fun c => hex_digit (Str.code c mod 16)) (Str.drop (String.length s) (CHAIN_GENESIS +:+ s)).

Lemma length_map_str f s : String.length (Str.map f s) = String.length s.
Proof. induction s as [|c s IH]; cbn; congruence. Qed.

Lemma toy_hash_length x : String.length (toy_hash x) = 64.
Proof.
  unfold toy_hash. rewrite length_map_str, StrFacts.length_drop, length_app_str.
  change (String.length CHAIN_GENESIS) with 64. lia.
Qed.

Definition ex_events : list fields :=
  [[("action", JStr "agent.tool-call"); ("seq", JNum 0); ("decision", JStr "denied")];
   [("action", JStr "http.request"); ("seq", JNum 0); ("decision", JStr "allowed")]].

Definition ex_records : list json := m_records (memory_run toy_hash ex_events).

Lemma memory_sink_valid_witness :
  verifyAuditChain toy_hash ex_records CHAIN_GENESIS =
    Some {| valid := true; brokenAt := -1; reason := None;
            endHash := m_prevHash (memory_run toy_hash ex_events) |}.
Proof.
  refine (proj1 (memory_sink_valid toy_hash ex_events _)).
  repeat constructor; reflexivity.
Defined.

Definition ex_tampered : list json :=
  map (fun r => match r with
                | JObj o => JObj (if JsMap.has "decision" o then JsMap.put "decision" (JStr "allowed") o else o)
                | _ => r
                end) ex_records.

Lemma verifyAuditChain_spec_witness :
  exists v, verifyAuditChain toy_hash ex_tampered CHAIN_GENESIS = Some v /\ valid v = false /\
    exists good bad later, ex_tampered = good ++ bad :: later /\ brokenAt v = Z.of_nat (length good).
Proof.
  destruct (verifyAuditChain toy_hash ex_tampered CHAIN_GENESIS) as [v|] eqn:E; [|vm_compute in E; discriminate E].
  exists v. split; [reflexivity|].
  assert (Ev : valid v = false) by (revert E; vm_compute; intros [= <-]; reflexivity).
  split; [exact Ev|].
  destruct (verifyAuditChain_spec toy_hash _ _ _ E) as (_ & _ & Hb).
  destruct (Hb Ev) as (good & bad & later & Hl & Hi & _). exists good, bad, later. split; [exact Hl|exact Hi].
Defined.


End AuditChain.
