(* ===== verification/AuditFile.v ===== *)
(** * The file audit sink (packages/audit/src/sink.ts, [createFileAuditSink])

    Segments as bytes on disk, the head read backwards in growing windows, the
    cached head, rotation and retention, several writers taking turns under the
    lock, and writers killed at any point of a write. Each turn is atomic here;
    that turns do not overlap is the lock's contract ([FileLock]).
    [JSON.parse] is a parameter; [JsonParse.parse] is its instance. *)
From S2P Require Import Prelude JsNumber Json JsonParse Redact AuditChain.

Module AuditFile.
Import Json JsonParse AuditChain.

Record file := { ino : nat; data : string }.

(** Segment 0 is the file itself, segment [n] is [path.n]. *)
Abbreviation disk := (gmap nat file).

Definition size (f : file) : Z := Z.of_nat (String.length (data f)).

Record ChainHead := { h_hash : string; h_seq : json }.
Record Cache := { c_head : ChainHead; c_ino : nat; c_size : Z }.

Record FileAuditSinkOptions := {
  capturePayloads : bool;
  redactOptions : Redact.RedactOptions;
  maxBytes : Z;
  maxFiles : nat
}.

(** An [AuditEvent]: its plain fields, and the three members of any type
    ([VUndef] when absent), whose objects live in a heap. *)
Record AuditEvent := {
  base : fields;
  input : Redact.val;
  output : Redact.val;
  meta : Redact.val
}.

(** [(seq ?? 0) + 1] *)
Definition plus_one (seq : json) : json :=
  match seq with
  | JUndef | JNull => JNum 1
  | JNum z => JNum (z + 1)
  | JBool b => JNum (if b then 2 else 1)
  | JStr s => JStr (s +:+ "1")
  | JArr _ | JObj _ => JStr (or_default "[object Object]" (js_string seq) +:+ "1")
  end.

Definition ends_line (s : string) : bool := Str.ends_with (String newline "") s.

(** [appendFileSync]: a file that is not there is created, with a new inode. *)
Definition append (fresh : nat) (i : nat) (text : string) (d : disk) : disk :=
  <[i := match d !! i with
         | Some f => {| ino := ino f; data := data f +:+ text |}
         | None => {| ino := fresh; data := text |}
         end]> d.

(** What a rotation does to the directory, in order. *)
Inductive dir_op : Type :=
| Unlink (i : nat)
| Rename (i j : nat).

Definition run_op (d : disk) (op : dir_op) : disk :=
  match op with
  | Unlink i => delete i d
  | Rename i j => match d !! i with Some f => <[j := f]> (delete i d) | None => d end
  end.

Fixpoint shifts (n : nat) : list dir_op :=
  match n with
  | O => []
  | S n' => Rename n (S n) :: shifts n'
  end.

(** [path.0] is never written, so there is nothing to delete when [maxFiles] is 0. *)
Definition rotation (maxFiles : nat) : list dir_op :=
  (if maxFiles =? 0 then [] else [Unlink maxFiles]) ++ shifts (maxFiles - 1) ++ [Rename 0 1].

Definition needs_rotation (o : FileAuditSinkOptions) (d : disk) : bool :=
  match d !! 0 with Some f => (maxBytes o <=? size f)%Z | None => false end.

Definition rotateIfNeeded (o : FileAuditSinkOptions) (d : disk) : disk :=
  if needs_rotation o d then foldl run_op d (rotation (maxFiles o)) else d.

Section sink.
Context (H : string -> string) (JSON_parse : string -> option json).

(** One line of the file as a head; a line that is torn, not an object or
    without a string hash gives none. *)
Definition line_head (line : string) : option ChainHead :=
  match line with
  | EmptyString => None
  | _ =>
      v ← JSON_parse line;
      hash ← prop "hash" v;
      seq ← prop "seq" v;
      match hash with
      | JStr h => Some {| h_hash := h; h_seq := plus_one seq |}
      | _ => None
      end
  end.

Fixpoint last_head (lines : list string) : option ChainHead :=
  match lines with
  | [] => None
  | l :: lines' => match last_head lines' with Some h => Some h | None => line_head l end
  end.

(** The loop of [readHead]: the last [window] bytes, then four times as many,
    until a head is found or the whole file was read. *)
Fixpoint scan (fuel : nat) (window : Z) (text : string) : option ChainHead :=
  match fuel with
  | O => None
  | S fuel' =>
      let start := Z.to_nat (Z.of_nat (String.length text) - window) in
      let lines := Str.split newline (Str.drop start text) in
      let complete := if start =? 0 then lines else tl lines in
      match last_head complete with
      | Some h => Some h
      | None => if start =? 0 then None else scan fuel' (window * 4) text
      end
  end.

Definition WINDOW : Z := 64 * 1024.

(** [readHead]: also closes a line that a killed writer left open. *)
Definition readHead (i : nat) (d : disk) : disk * option ChainHead :=
  match d !! i with
  | None => (d, None)
  | Some f =>
      match data f with
      | EmptyString => (d, None)
      | text =>
          (if ends_line text then d else append 0 i (String newline "") d,
           scan (S (String.length text)) WINDOW text)
      end
  end.

Definition genesis_head : ChainHead := {| h_hash := CHAIN_GENESIS; h_seq := JNum 0 |}.

Definition cache_hit (d : disk) (cached : option Cache) : option ChainHead :=
  c ← cached;
  f ← d !! 0;
  if (ino f =? c_ino c) && (size f =? c_size c)%Z then Some (c_head c) else None.

Definition currentHead (d : disk) (cached : option Cache) : disk * ChainHead :=
  match cache_hit d cached with
  | Some h => (d, h)
  | None =>
      let '(d1, h0) := readHead 0 d in
      match h0 with
      | Some h => (d1, h)
      | None =>
          let '(d2, h1) := readHead 1 d1 in
          (d2, or_default genesis_head h1)
      end
  end.

Definition add_redacted (o : FileAuditSinkOptions) (h : Redact.heap) (k : string) (v : Redact.val)
    (p : fields) : option fields :=
  match v with
  | Redact.VUndef => Some p
  | _ => r ← Redact.redact (redactOptions o) h v; Some (JsMap.put k r p)
  end.

(** The event as it is hashed and written; [None] when redaction throws. *)
Definition payload (o : FileAuditSinkOptions) (h : Redact.heap) (e : AuditEvent) (seq : json) :
    option fields :=
  let p := JsMap.put "seq" seq (base e) in
  p1 ← (if capturePayloads o
        then p1 ← add_redacted o h "input" (input e) p; add_redacted o h "output" (output e) p1
        else Some p);
  add_redacted o h "meta" (meta e) p1.

Definition record_line (r : json) : string := stringify r +:+ String newline "".

(** [record], up to the append: the directory as it then is, and the record
    with the head that follows it. *)
Definition prepare (o : FileAuditSinkOptions) (h : Redact.heap) (e : AuditEvent)
    (d : disk) (cached : option Cache) : disk * option (json * ChainHead) :=
  let '(d1, head) := currentHead d cached in
  match payload o h e (h_seq head) with
  | None => (d1, None)
  | Some p =>
      let hash := hashRecord H (h_hash head) p in
      (d1, Some (stamp p (h_hash head) hash, {| h_hash := hash; h_seq := plus_one (h_seq head) |}))
  end.

(** A whole call of [record]. [locked] and [held] are what the lock answers;
    [fresh] is the inode number of a file the append creates. *)
Definition record (o : FileAuditSinkOptions) (h : Redact.heap) (e : AuditEvent) (locked held : bool)
    (fresh : nat) (d : disk) (cached : option Cache) : disk * option Cache :=
  if locked then
    match prepare o h e d cached with
    | (d1, None) => (d1, None)
    | (d1, Some (r, next)) =>
        let d2 := rotateIfNeeded o d1 in
        if held then
          let d3 := append fresh 0 (record_line r) d2 in
          (d3, match d3 !! 0 with
               | Some f => Some {| c_head := next; c_ino := ino f; c_size := size f |}
               | None => None
               end)
        else (d2, None)
    end
  else (d, None).

(** A call of [record] that the process does not survive. *)
Inductive crash_point : Type :=
| CrashReading (* before the rotation *)
| CrashRotating (ops : nat) (* after that many steps of the rotation *)
| CrashWriting (bytes : nat). (* with that much of the line written *)

Definition crash (o : FileAuditSinkOptions) (h : Redact.heap) (e : AuditEvent) (at_ : crash_point)
    (fresh : nat) (d : disk) (cached : option Cache) : disk :=
  match prepare o h e d cached with
  | (d1, None) => d1
  | (d1, Some (r, _)) =>
      match at_ with
      | CrashReading => d1
      | CrashRotating n =>
          if needs_rotation o d1 then foldl run_op d1 (take n (rotation (maxFiles o))) else d1
      | CrashWriting n => append fresh 0 (Str.take n (record_line r)) (rotateIfNeeded o d1)
      end
  end.

(** [readAuditFile]: the lines that parse. *)
Definition readAuditFile (f : option file) : list json :=
  match f with
  | None => []
  | Some f => omap (fun line => match line with EmptyString => None | _ => JSON_parse line end)
                (Str.split newline (data f))
  end.

(** ** Reading backwards in windows is reading the whole file *)

Lemma split_drop c k s :
  exists l, l <> [] /\ Str.split c s = l ++ tl (Str.split c (Str.drop k s)).
Proof.
  revert k. induction s as [|d s IH]; intros [|k].
  - by exists [""].
  - by exists [""].
  - destruct (Str.split c (String d s)) as [|w l] eqn:E; [by destruct (StrFacts.split_nonempty c (String d s))|].
    exists [w]. cbn [Str.drop]. by rewrite E.
  - cbn [Str.drop Str.split]. destruct (IH k) as ([|w l] & Hl & ->); [done|].
    destruct (Ascii.eqb d c); [by exists ("" :: w :: l)|by exists (String d w :: l)].
Qed.

Lemma last_head_app a b :
  last_head (a ++ b) = match last_head b with Some h => Some h | None => last_head a end.
Proof. induction a as [|l a IH]; cbn; [by destruct (last_head b)|]. rewrite IH. by destruct (last_head b). Qed.

Lemma scan_all fuel window text :
  (0 < window)%Z -> (Z.of_nat (String.length text) < window + Z.of_nat fuel)%Z ->
  fuel <> 0 -> scan fuel window text = last_head (Str.split newline text).
Proof.
  revert window. induction fuel as [|fuel IH]; intros window Hw Hf Hn; [done|]. cbn [scan].
  set (start := Z.to_nat _). destruct (start =? 0) eqn:E.
  - apply Nat.eqb_eq in E. rewrite E. cbn [Str.drop]. by destruct (last_head _).
  - apply Nat.eqb_neq in E. destruct (split_drop newline start text) as (l & _ & Es).
    rewrite Es, last_head_app. destruct (last_head (tl _)) eqn:El; [done|].
    rewrite IH by lia. by rewrite Es, last_head_app, El.
Qed.

(** Finding the head by reading windows of 64 KB, 256 KB, ... from the end
    gives what reading every line of the file gives. *)
Theorem readHead_reads_all i f d :
  d !! i = Some f -> snd (readHead i d) = last_head (Str.split newline (data f)).
Proof.
  intros Hf. unfold readHead. rewrite Hf. destruct (data f) as [|c s] eqn:E; [done|].
  cbn [snd]. apply scan_all; unfold WINDOW; lia.
Qed.

End sink.

(** ** Records of a segment *)

Section records.
Context (JSON_parse : string -> option json).

Definition parse_line (line : string) : option json :=
  match line with EmptyString => None | _ => JSON_parse line end.
Definition text_records (text : string) : list json := omap parse_line (Str.split newline text).
Definition recs (d : disk) (i : nat) : list json := readAuditFile JSON_parse (d !! i).

Definition closed_text (s : string) : Prop := s = "" \/ ends_line s = true.

Lemma text_records_app s t : closed_text s -> text_records (s +:+ t) = text_records s ++ text_records t.
Proof.
  unfold text_records. intros [->|Hs]; [done|].
  apply StrFacts.ends_with_spec in Hs as [u ->].
  rewrite app_assoc_str, app_cons_str, app_empty_str, !StrFacts.split_sep, !omap_app. cbn.
  by rewrite app_nil_r.
Qed.

Lemma text_records_newline s : text_records (s +:+ String newline "") = text_records s.
Proof. unfold text_records. rewrite StrFacts.split_sep, omap_app. cbn. by rewrite app_nil_r. Qed.

Lemma text_records_line s : one_line s -> text_records s = option_list (parse_line s).
Proof. intros Hs. unfold text_records. rewrite StrFacts.split_single by done. cbn. by destruct (parse_line s). Qed.

Lemma recs_Some d i f : d !! i = Some f -> recs d i = text_records (data f).
Proof. unfold recs. by intros ->. Qed.

Lemma recs_None d i : d !! i = None -> recs d i = [].
Proof. unfold recs. by intros ->. Qed.

(** The records on disk, oldest segment first. *)
Fixpoint all (d : disk) (n : nat) : list json :=
  match n with
  | O => recs d 0
  | S n' => recs d (S n') ++ all d n'
  end.

Lemma all_ext d d' n : (forall i, i <= n -> recs d i = recs d' i) -> all d n = all d' n.
Proof.
  induction n as [|n IH]; intros He; cbn; [by apply He|]. rewrite IH by (intros; apply He; lia).
  by rewrite He by lia.
Qed.

Lemma all_split d n : exists l, all d n = l ++ recs d 0.
Proof.
  induction n as [|n [l IH]]; [by exists []|]. exists (recs d (S n) ++ l).
  cbn [all]. by rewrite IH, app_assoc.
Qed.

Lemma all_split1 d n : 1 <= n -> exists l, all d n = l ++ recs d 1 ++ recs d 0.
Proof.
  induction n as [|[|n] IH]; intros Hn; [lia|by exists []|].
  destruct IH as [l IH]; [lia|]. exists (recs d (S (S n)) ++ l). cbn [all] in *.
  by rewrite IH, !app_assoc.
Qed.

Lemma all_unlink d n : exists l, all d n = l ++ all (delete n d) n \/ n = 0.
Proof.
  destruct n as [|n]; [exists []; by right|]. exists (recs d (S n)). left. cbn [all].
  rewrite (recs_None (delete (S n) d)) by (by rewrite lookup_delete_eq). cbn. f_equal.
  apply all_ext. intros i Hi. unfold recs. by rewrite lookup_delete_ne by lia.
Qed.

Lemma all_rename d i n :
  i < n -> d !! S i = None -> all (run_op d (Rename i (S i))) n = all d n.
Proof.
  intros Hi Hd. cbn. destruct (d !! i) as [f|] eqn:Ef; [|done].
  assert (Hoth : forall j, j <> i -> j <> S i -> recs (<[S i:=f]> (delete i d)) j = recs d j).
  { intros j ??. unfold recs. by rewrite lookup_insert_ne, lookup_delete_ne by done. }
  assert (HS : recs (<[S i:=f]> (delete i d)) (S i) = recs d i).
  { unfold recs. by rewrite lookup_insert_eq, Ef. }
  assert (H0 : recs (<[S i:=f]> (delete i d)) i = []).
  { apply recs_None. by rewrite lookup_insert_ne, lookup_delete_eq by lia. }
  induction n as [|n IH]; [lia|]. cbn [all]. destruct (decide (i = n)) as [->|].
  - rewrite HS, (recs_None d (S n) Hd). destruct n as [|n]; cbn [all].
    + by rewrite H0, app_nil_r.
    + rewrite H0. cbn. f_equal. apply all_ext. intros j Hj. apply Hoth; lia.
  - rewrite Hoth by lia. f_equal. apply IH. lia.
Qed.

(** ** Rotation *)

(** Part of the shifts: nothing is lost, and the newest segment stays. *)
Lemma run_shifts k n d m :
  d !! S k = None -> S k <= m ->
  let d' := foldl run_op d (take n (shifts k)) in
  all d' m = all d m /\ d' !! 0 = d !! 0 /\ (k <= n -> d' !! 1 = None) /\
  (forall i f, d' !! i = Some f -> exists j, d !! j = Some f).
Proof.
  revert n d. induction k as [|k IH]; intros n d Hd Hm; cbn zeta.
  - assert (take n (shifts 0) = []) as -> by (by destruct n). cbn. split_and!; eauto.
  - destruct n as [|n]; [cbn; split_and!; eauto; lia|]. cbn [shifts take foldl].
    set (d1 := run_op d (Rename (S k) (S (S k)))).
    assert (H1 : d1 !! S k = None).
    { subst d1. cbn. destruct (d !! S k) eqn:E; [|done].
      by rewrite lookup_insert_ne, lookup_delete_eq by lia. }
    assert (H0 : d1 !! 0 = d !! 0).
    { subst d1. cbn. destruct (d !! S k) eqn:E; [|done].
      by rewrite lookup_insert_ne, lookup_delete_ne by lia. }
    destruct (IH n d1 H1 ltac:(lia)) as (Ha & Hz & Hn & Hf). split_and!.
    + rewrite Ha. apply all_rename; [lia|done].
    + by rewrite Hz.
    + intros. apply Hn. lia.
    + intros i f Hi. apply Hf in Hi as [j Hj]. subst d1. cbn in Hj.
      destruct (d !! S k) eqn:E; [|eauto].
      destruct (decide (j = S (S k))) as [->|]; [rewrite lookup_insert_eq in Hj; simplify_eq; eauto|].
      rewrite lookup_insert_ne in Hj by done. apply lookup_delete_Some in Hj as [_ Hj]. eauto.
Qed.

Lemma run_rename_01 d f m :
  1 <= m -> d !! 0 = Some f -> d !! 1 = None ->
  let d' := run_op d (Rename 0 1) in
  all d' m = all d m /\ d' !! 0 = None /\ d' !! 1 = Some f /\
  (forall i f, d' !! i = Some f -> exists j, d !! j = Some f).
Proof.
  intros Hm H0 H1. cbn zeta. split_and!; [apply all_rename; [lia|done]|..]; cbn; rewrite H0.
  - by rewrite lookup_insert_ne, lookup_delete_eq by lia.
  - by rewrite lookup_insert_eq.
  - intros i g Hi. destruct (decide (i = 1)) as [->|]; [rewrite lookup_insert_eq in Hi; simplify_eq; eauto|].
    rewrite lookup_insert_ne in Hi by done. apply lookup_delete_Some in Hi as [_ Hi]. eauto.
Qed.

(** Any prefix of a rotation: the oldest records may be dropped, the others stay
    in order, and the newest segment is where it was or has become segment 1. *)
Lemma run_rotation n d f m :
  1 <= m -> d !! 0 = Some f ->
  let d' := foldl run_op d (take n (rotation m)) in
  (exists l, all d m = l ++ all d' m) /\
  (d' !! 0 = Some f \/ d' !! 0 = None /\ d' !! 1 = Some f) /\
  (forall i g, d' !! i = Some g -> exists j, d !! j = Some g).
Proof.
  intros Hm H0. cbn zeta. unfold rotation. destruct (Nat.eqb_spec m 0) as [?|_]; [lia|].
  destruct n as [|n]; [cbn; split_and!; eauto; by exists []|]. cbn [app take foldl].
  set (d1 := run_op d (Unlink m)).
  assert (Hd1 : d1 !! m = None) by (apply lookup_delete_eq).
  assert (H01 : d1 !! 0 = Some f) by (subst d1; cbn; by rewrite lookup_delete_ne by lia).
  assert (Hf1 : forall i g, d1 !! i = Some g -> exists j, d !! j = Some g).
  { intros i g Hi. change (delete m d !! i = Some g) in Hi.
    apply lookup_delete_Some in Hi as [_ Hi]. eauto. }
  destruct (all_unlink d m) as [l [Hl|?]]; [|lia]. change (delete m d) with d1 in Hl.
  assert (Hm' : S (m - 1) = m) by lia.
  assert (HS : d1 !! S (m - 1) = None) by (by rewrite Hm').
  rewrite take_app, foldl_app.
  destruct (run_shifts (m - 1) n d1 m HS ltac:(lia)) as (Ha & Hz & Hn & Hf).
  set (d2 := foldl run_op d1 _) in *.
  assert (Hlen : length (shifts (m - 1)) = m - 1).
  { clear. induction (m - 1) as [|k IH]; cbn; [done|by rewrite IH]. }
  destruct (n - length (shifts (m - 1))) as [|n'] eqn:En; cbn [take foldl].
  - split_and!; [exists l; by rewrite Hl, Ha|left; by rewrite Hz|].
    intros i g Hi. apply Hf in Hi as [j Hj]. eauto.
  - assert (take n' (@nil dir_op) = []) as -> by (by destruct n'). cbn [foldl].
    destruct (run_rename_01 d2 f m) as (Ha' & Hz' & H1' & Hf'); [lia|by rewrite Hz|apply Hn; lia|].
    split_and!; [exists l; by rewrite Hl, <- Ha, <- Ha'|by right|].
    intros i g Hi. apply Hf' in Hi as [j Hj]. apply Hf in Hj as [j' Hj]. eauto.
Qed.

End records.

(** ** Writers taking turns *)

Record world := {
  w_disk : disk;
  w_sinks : gmap nat (option Cache);
  w_next : nat (* the next inode number; numbers are not used twice *)
}.

Section world.
Context (H : string -> string) (JSON_parse : string -> option json) (o : FileAuditSinkOptions).

Definition empty_world : world := {| w_disk := ∅; w_sinks := ∅; w_next := 0 |}.

(** The file a turn rotates away holds a record, not only torn lines. *)
Definition rotates_records (h : Redact.heap) (e : AuditEvent) (d : disk) (c : option Cache) : Prop :=
  let d1 := (prepare H JSON_parse o h e d c).1 in
  needs_rotation o d1 = true -> recs JSON_parse d1 0 <> [].

(** A process opens a sink, writes a record, or is killed while writing one. *)
Inductive step : world -> world -> Prop :=
| step_open w i :
    w_sinks w !! i = None ->
    step w {| w_disk := w_disk w; w_sinks := <[i := None]> (w_sinks w); w_next := w_next w |}
| step_record w i c h e locked held :
    w_sinks w !! i = Some c -> unstamped (base e) -> rotates_records h e (w_disk w) c ->
    step w (let '(d, c') := record H JSON_parse o h e locked held (w_next w) (w_disk w) c in
            {| w_disk := d; w_sinks := <[i := c']> (w_sinks w); w_next := S (w_next w) |})
| step_crash w i c h e point :
    w_sinks w !! i = Some c -> unstamped (base e) -> rotates_records h e (w_disk w) c ->
    step w {| w_disk := crash H JSON_parse o h e point (w_next w) (w_disk w) c;
              w_sinks := delete i (w_sinks w); w_next := S (w_next w) |}.

Hypothesis parse_written : forall v, JSON_parse (stringify (JObj v)) = Some (JObj (clean_fields v)).
Hypothesis parse_torn : forall v p q,
  p +:+ q = stringify (JObj v) -> q <> "" -> JSON_parse p = None.
Hypothesis keeps_one : 1 <= maxFiles o.

Local Abbreviation recs := (recs JSON_parse).
Local Abbreviation all := (all JSON_parse).
Local Abbreviation M := (maxFiles o).

(** *** The line of a record *)

Lemma stringify_obj_cons v : exists s, stringify (JObj v) = String "{" s.
Proof. rewrite stringify_obj. eexists. reflexivity. Qed.

Lemma parse_line_record v : parse_line JSON_parse (stringify (JObj v)) = Some (JObj (clean_fields v)).
Proof. destruct (stringify_obj_cons v) as [s E]. unfold parse_line. rewrite E, <- E. apply parse_written. Qed.

Lemma records_of_line v :
  text_records JSON_parse (record_line (JObj v)) = [JObj (clean_fields v)].
Proof.
  unfold record_line. rewrite text_records_newline, text_records_line by apply one_line_stringify.
  by rewrite parse_line_record.
Qed.

Lemma records_of_torn v n :
  text_records JSON_parse (Str.take n (record_line (JObj v))) = [] \/
  text_records JSON_parse (Str.take n (record_line (JObj v))) = [JObj (clean_fields v)].
Proof.
  unfold record_line. set (s := stringify (JObj v)).
  destruct (Nat.lt_ge_cases n (String.length s)) as [Hn|Hn].
  - left. rewrite StrFacts.take_app_le by lia.
    pose proof (one_line_stringify (JObj v)) as H1. fold s in H1.
    rewrite <- (StrFacts.take_drop n s) in H1. apply one_line_app_inv in H1 as [H1 _].
    rewrite text_records_line by done. unfold parse_line.
    rewrite (parse_torn v _ (Str.drop n s)); [by destruct (Str.take n s)|apply StrFacts.take_drop|].
    intros E. apply (f_equal String.length) in E. rewrite StrFacts.length_drop in E.
    change (String.length "") with 0 in E. lia.
  - right. destruct (decide (n = String.length s)) as [->|].
    + rewrite StrFacts.take_app. rewrite text_records_line by apply one_line_stringify.
      subst s. by rewrite parse_line_record.
    + rewrite StrFacts.take_ge
        by (rewrite length_app_str; change (String.length (String newline "")) with 1; lia). apply records_of_line.
Qed.

(** *** What is read back of a record continues the chain *)

Lemma get_clean k v fs :
  JsMap.get k fs = Some v -> is_undef v = false -> JsMap.get k (clean_fields fs) = Some (clean v).
Proof.
  intros Hg Hv. induction fs as [|[k' v'] fs IH]; [done|]. cbn in Hg. unfold clean_fields. cbn.
  destruct (decide (k = k')) as [->|Hne].
  - simplify_eq. rewrite Hv. cbn. by rewrite decide_True.
  - destruct (is_undef v'); cbn; [by apply IH|]. rewrite decide_False by done. by apply IH.
Qed.

Lemma clean_fields_cons k v fs :
  clean_fields ((k, v) :: fs) = if is_undef v then clean_fields fs else (k, clean v) :: clean_fields fs.
Proof. unfold clean_fields. cbn. by destruct (is_undef v). Qed.

Lemma remove_cons (k k' : string) (v : json) (fs : fields) :
  JsMap.remove k ((k', v) :: fs) =
    if decide (k' <> k) then (k', v) :: JsMap.remove k fs else JsMap.remove k fs.
Proof. unfold JsMap.remove. by rewrite filter_cons. Qed.

Lemma remove_clean k fs : JsMap.remove k (clean_fields fs) = clean_fields (JsMap.remove k fs).
Proof.
  induction fs as [|[k' v'] fs IH]; [done|].
  rewrite clean_fields_cons, remove_cons.
  destruct (is_undef v') eqn:E, (decide (k' <> k)) eqn:Ek; rewrite ?remove_cons, ?Ek, ?clean_fields_cons, ?E, ?IH; done.
Qed.

Lemma chain_written p e :
  unstamped p ->
  let hash := hashRecord H e p in
  exists v, stamp p e hash = JObj v /\ chain H e [JObj (clean_fields v)] hash.
Proof.
  intros Hu. cbn zeta. set (hash := hashRecord H e p).
  pose proof (rest_event_stamp p e hash Hu) as Hr. unfold stamp in *. eexists. split; [reflexivity|].
  set (v := JsMap.put "hash" _ _) in *. cbn [rest_event] in Hr.
  apply (chain_cons H e _ [] hash); [..|constructor].
  - cbn [prop]. subst v. rewrite (get_clean _ (JStr e)); [done| |done].
    by rewrite JsMap.get_put_ne, JsMap.get_put_eq.
  - cbn [prop]. subst v. rewrite (get_clean _ (JStr hash)); [done| |done].
    by rewrite JsMap.get_put_eq.
  - cbn [rest_event]. rewrite !remove_clean, Hr. unfold hash, hashRecord. by rewrite canonicalize_clean.
Qed.

(** *** The invariants *)

(** The records on disk are a chain ending in [e]; one that holds nothing starts
    at genesis; and the newest record is in segment 0 or 1. *)
Record DInv (d : disk) (e : string) : Prop := {
  d_chain : exists s, chain H s (all d M) e /\ (all d M = [] -> s = CHAIN_GENESIS);
  d_newest : recs d 0 = [] -> recs d 1 <> [] \/ all d M = []
}.

(** A cached head is right when the file is still as it was left. *)
Definition CInv (d : disk) (next : nat) (e : string) (c : Cache) : Prop :=
  c_ino c < next /\
  forall f, d !! 0 = Some f -> ino f = c_ino c ->
    (c_size c <= size f)%Z /\ (c_size c = size f -> h_hash (c_head c) = e /\ closed_text (data f)).

Definition FInv (d : disk) (next : nat) : Prop := forall i f, d !! i = Some f -> ino f < next.

Definition closed (d : disk) : Prop := forall f, d !! 0 = Some f -> closed_text (data f).

Definition same_recs (d d' : disk) : Prop := forall j, recs d' j = recs d j.

(** Segment 0 is a new file, the same file, or the same file grown. *)
Definition grow (next : nat) (d d' : disk) : Prop :=
  forall f', d' !! 0 = Some f' -> next <= ino f' \/
    exists f, d !! 0 = Some f /\ ino f = ino f' /\ (f = f' \/ (size f < size f')%Z).

Lemma grow_refl n d : grow n d d.
Proof. intros f Hf. right. eauto 10. Qed.

Lemma grow_trans n d1 d2 d3 : grow n d1 d2 -> grow n d2 d3 -> grow n d1 d3.
Proof.
  intros H12 H23 f Hf. destruct (H23 f Hf) as [?|(f2 & Hf2 & E2 & Hs2)]; [by left|].
  destruct (H12 f2 Hf2) as [?|(f1 & Hf1 & E1 & Hs1)]; [left; lia|]. right. exists f1.
  split_and!; [done|congruence|]. destruct Hs1 as [->|?], Hs2 as [->|?]; auto; right; lia.
Qed.

(** A file that changed in the last of several turns is not the one of the first. *)
Lemma strict_trans n d d2 d3 :
  FInv d n -> FInv d2 n -> grow n d d2 -> grow n d2 d3 ->
  (forall f, d2 !! 0 = Some f -> d3 !! 0 <> Some f) ->
  forall f, d !! 0 = Some f -> d3 !! 0 <> Some f.
Proof.
  intros HF HF2 H02 H23 Hne f Hf Hf3.
  destruct (H23 f Hf3) as [Hlt|(f2 & Hf2 & Ei & Hs)]; [apply HF in Hf; lia|].
  destruct (H02 f2 Hf2) as [Hlt|(f0 & Hf0 & Ei0 & Hs0)]; [apply HF2 in Hf2; lia|].
  assert (f0 = f) as -> by congruence. destruct Hs as [->|Hs]; [by eapply Hne|].
  destruct Hs0 as [->|?]; lia.
Qed.

Lemma CInv_grow n d d' e e' c :
  grow n d d' -> (e' = e \/ forall f, d !! 0 = Some f -> d' !! 0 <> Some f) ->
  CInv d n e c -> CInv d' (S n) e' c.
Proof.
  intros Hg He [Hi Hc]. split; [lia|]. intros f' Hf' Ei.
  destruct (Hg f' Hf') as [?|(f & Hf & E & Hs)]; [lia|].
  destruct (Hc f Hf) as [Hle Heq]; [congruence|]. destruct Hs as [->|Hlt].
  - split; [done|]. intros Hsz. destruct He as [->|Hne]; [auto|]. by destruct (Hne f').
  - split; lia.
Qed.

Lemma DInv_same d d' e : same_recs d d' -> DInv d e -> DInv d' e.
Proof.
  intros Hs [Hc Hn]. assert (E : all d' M = all d M) by (apply all_ext; intros; apply Hs).
  split; rewrite E; [done|]. by rewrite !Hs.
Qed.

Lemma DInv_chain0 d e : DInv d e -> exists s, chain H s (recs d 0) e.
Proof.
  intros [(s & Hc & _) _]. destruct (all_split JSON_parse d M) as [l El]. rewrite El in Hc.
  apply chain_app_inv in Hc as (m & _ & ?). eauto.
Qed.

Lemma DInv_chain1 d e : DInv d e -> recs d 0 = [] -> exists s, chain H s (recs d 1) e.
Proof.
  intros [(s & Hc & _) _] E0. destruct (all_split1 JSON_parse d M keeps_one) as [l El].
  rewrite El, E0, app_nil_r in Hc. apply chain_app_inv in Hc as (m & _ & ?). eauto.
Qed.

(** *** Reading the head *)

Lemma line_head_parse line r e s :
  parse_line JSON_parse line = Some r -> chain H s [r] e ->
  exists h, line_head JSON_parse line = Some h /\ h_hash h = e.
Proof.
  intros Hp Hc. destruct line as [|x line]; [done|]. unfold parse_line in Hp. unfold line_head.
  rewrite Hp. cbn. inversion_clear Hc as [|? ? ? h ? H1 H2 H3 Hn]. inversion Hn; subst. rewrite H2. cbn.
  destruct r; try done. cbn. eexists. by split.
Qed.

Lemma last_head_chain lines s e :
  chain H s (omap (parse_line JSON_parse) lines) e ->
  match last_head JSON_parse lines with
  | Some h => h_hash h = e
  | None => omap (parse_line JSON_parse) lines = []
  end.
Proof.
  revert s. induction lines as [|l lines IH]; intros s Hc; [done|]. cbn in *.
  destruct (parse_line JSON_parse l) as [r|] eqn:El.
  - apply (chain_app_inv _ _ [r]) in Hc as (m & Hr & Hc). specialize (IH m Hc).
    destruct (last_head JSON_parse lines); [done|]. rewrite IH in Hc. inversion Hc; subst.
    destruct (line_head_parse _ _ _ _ El Hr) as (h & -> & Hh). done.
  - specialize (IH s Hc). destruct (last_head JSON_parse lines); [done|].
    destruct l; [done|]. unfold parse_line in El. unfold line_head. by rewrite El.
Qed.

Lemma readHead_head i d s e :
  chain H s (recs d i) e ->
  match (readHead JSON_parse i d).2 with
  | Some h => h_hash h = e
  | None => recs d i = []
  end.
Proof.
  intros Hc. destruct (d !! i) as [f|] eqn:Ef.
  - rewrite (readHead_reads_all _ _ _ _ Ef). rewrite (recs_Some _ _ _ _ Ef) in *.
    by apply last_head_chain in Hc.
  - unfold readHead. rewrite Ef. cbn. by apply recs_None.
Qed.

Lemma append_inode d i text f n :
  d !! i = Some f -> append n i text d = <[i := {| ino := ino f; data := data f +:+ text |}]> d.
Proof. unfold append. by intros ->. Qed.

Lemma size_append f text : size {| ino := ino f; data := data f +:+ text |}
                           = (size f + Z.of_nat (String.length text))%Z.
Proof. unfold size. cbn [data]. rewrite length_app_str. lia. Qed.

Lemma readHead_disk i d n :
  FInv d n ->
  let d' := (readHead JSON_parse i d).1 in
  same_recs d d' /\ grow n d d' /\ FInv d' n /\ (i = 0 -> closed d') /\ (i <> 0 -> d' !! 0 = d !! 0).
Proof.
  intros HF. cbn zeta. unfold readHead. destruct (d !! i) as [f|] eqn:Ef;
    [|cbn; split_and!; [done|apply grow_refl|done|intros -> f; congruence|done]].
  destruct (data f) as [|c s] eqn:Ed.
  { cbn. split_and!; [done|apply grow_refl|done| |done]. intros -> g Hg. simplify_eq. by left. }
  cbn [fst]. rewrite <- Ed. destruct (ends_line (data f)) eqn:Ee.
  { split_and!; [done|apply grow_refl|done| |done]. intros -> g Hg. simplify_eq. by right. }
  rewrite (append_inode _ _ _ _ _ Ef). split_and!.
  - intros j. unfold recs. destruct (decide (j = i)) as [->|].
    + rewrite lookup_insert_eq, Ef. cbn [readAuditFile]. apply text_records_newline.
    + by rewrite lookup_insert_ne.
  - intros g Hg. right. destruct (decide (i = 0)) as [->|].
    + rewrite lookup_insert_eq in Hg. simplify_eq. exists f. split_and!; [done|done|right].
      rewrite size_append. cbn. lia.
    + rewrite lookup_insert_ne in Hg by done. eauto 10.
  - intros j g Hg. destruct (decide (j = i)) as [->|].
    + rewrite lookup_insert_eq in Hg. simplify_eq. by apply (HF i f).
    + rewrite lookup_insert_ne in Hg by done. eauto.
  - intros -> g Hg. rewrite lookup_insert_eq in Hg. simplify_eq. right.
    unfold ends_line. cbn. apply StrFacts.ends_with_spec. eauto.
  - intros. by rewrite lookup_insert_ne.
Qed.

Lemma currentHead_spec d n e cached :
  DInv d e -> FInv d n -> (forall c, cached = Some c -> CInv d n e c) ->
  let '(d', hd) := currentHead JSON_parse d cached in
  h_hash hd = e /\ same_recs d d' /\ grow n d d' /\ FInv d' n /\ closed d'.
Proof.
  intros HD HF HC. unfold currentHead. destruct (cache_hit d cached) as [h|] eqn:Ec.
  - unfold cache_hit in Ec. destruct cached as [c|]; [|done]. cbn in Ec.
    destruct (d !! 0) as [f|] eqn:Ef; [|done]. cbn in Ec.
    destruct ((ino f =? c_ino c) && (size f =? c_size c)%Z) eqn:Eb; [|done]. injection Ec as <-.
    apply andb_true_iff in Eb as [Ei Es]. apply Nat.eqb_eq in Ei. apply Z.eqb_eq in Es.
    destruct (HC c eq_refl) as [_ Hc]. destruct (Hc f Ef Ei) as [_ Hc']. destruct Hc' as [? Hcl]; [done|].
    split_and!; [done|done|apply grow_refl|done|]. intros g Hg. rewrite Ef in Hg. by simplify_eq.
  - destruct (readHead_disk 0 d n HF) as (Hr & Hg & HF1 & Hcl & _).
    destruct (DInv_chain0 _ _ HD) as [s0 Hc0]. pose proof (readHead_head 0 d s0 e Hc0) as Hh.
    destruct (readHead JSON_parse 0 d) as [d1 [h|]]; cbn [fst snd] in *.
    { split_and!; auto. }
    pose proof (DInv_same _ _ _ Hr HD) as HD1.
    assert (H10 : recs d1 0 = []) by (by rewrite Hr).
    destruct (DInv_chain1 _ _ HD1 H10) as [s1 Hc1]. pose proof (readHead_head 1 d1 s1 e Hc1) as Hh1.
    destruct (readHead_disk 1 d1 n HF1) as (Hr2 & Hg2 & HF2 & _ & H02).
    destruct (readHead JSON_parse 1 d1) as [d2 h1]; cbn [fst snd] in *.
    split_and!; [|intros j; by rewrite Hr2, Hr|by eapply grow_trans|done|].
    + destruct h1 as [h|]; [done|]. cbn. destruct (d_newest _ _ HD1 H10) as [?|Ea]; [done|].
      destruct (d_chain _ _ HD1) as (s & Hc & Hs). rewrite (Hs Ea), Ea in Hc. by inversion Hc.
    + intros f Hf. rewrite H02 in Hf by done. by apply Hcl.
Qed.

(** *** Writing *)

Lemma add_redacted_unstamped h k v p p' :
  k <> "prevHash" -> k <> "hash" -> unstamped p -> add_redacted o h k v p = Some p' -> unstamped p'.
Proof.
  intros H1 H2 Hp. unfold add_redacted. destruct v; [by intros [= <-]|..];
    (destruct (Redact.redact _ _ _); [|done]; cbn; intros [= <-]; by apply unstamped_put).
Qed.

Lemma payload_unstamped h e seq p : unstamped (base e) -> payload o h e seq = Some p -> unstamped p.
Proof.
  intros Hb. unfold payload. set (p0 := JsMap.put "seq" seq (base e)).
  assert (H0 : unstamped p0) by (by apply unstamped_put).
  destruct (capturePayloads o).
  - destruct (add_redacted o h "input" (input e) p0) as [p1|] eqn:E1; [|done]. cbn.
    destruct (add_redacted o h "output" (output e) p1) as [p2|] eqn:E2; [|done]. cbn. intros E3.
    eapply add_redacted_unstamped in E1; [|done..]. eapply add_redacted_unstamped in E2; [|done..].
    by eapply add_redacted_unstamped in E3.
  - cbn. intros E. by eapply add_redacted_unstamped in E.
Qed.

Lemma prepare_spec h ev d n e cached :
  unstamped (base ev) -> DInv d e -> FInv d n -> (forall c, cached = Some c -> CInv d n e c) ->
  let '(d', res) := prepare H JSON_parse o h ev d cached in
  same_recs d d' /\ grow n d d' /\ FInv d' n /\ closed d' /\
  match res with
  | None => exists seq, payload o h ev seq = None
  | Some (r, next) => exists p seq, payload o h ev seq = Some p /\ unstamped p /\
      r = stamp p e (hashRecord H e p) /\ h_hash next = hashRecord H e p
  end.
Proof.
  intros Hu HD HF HC. unfold prepare. pose proof (currentHead_spec d n e cached HD HF HC) as Hh.
  destruct (currentHead JSON_parse d cached) as [d1 hd]. destruct Hh as (<- & Hs & Hg & HF1 & Hcl).
  destruct (payload o h ev (h_seq hd)) as [p|] eqn:Ep; cbn; [|by split_and!; eauto].
  split_and!; auto. exists p, (h_seq hd). split_and!; eauto using payload_unstamped.
Qed.

Definition rotated (k : nat) (d : disk) : disk :=
  if needs_rotation o d then foldl run_op d (take k (rotation M)) else d.

Lemma rotateIfNeeded_rotated d : rotateIfNeeded o d = rotated (length (rotation M)) d.
Proof. unfold rotateIfNeeded, rotated. by rewrite take_ge. Qed.

Lemma rotated_spec k d n e :
  DInv d e -> FInv d n -> closed d -> (needs_rotation o d = true -> recs d 0 <> []) ->
  DInv (rotated k d) e /\ FInv (rotated k d) n /\ closed (rotated k d) /\ grow n d (rotated k d).
Proof.
  intros HD HF Hcl Hn. unfold rotated. destruct (needs_rotation o d) eqn:En; [|auto using grow_refl].
  specialize (Hn eq_refl). unfold needs_rotation in En. destruct (d !! 0) as [f|] eqn:E0; [|done].
  destruct (run_rotation JSON_parse k d f M keeps_one E0) as ([l Hl] & Hnew & Hfiles).
  set (d' := foldl run_op d _) in *.
  assert (HFi : FInv d' n) by (intros i g Hg; apply Hfiles in Hg as [j Hg]; eauto).
  assert (H0 : forall g, d' !! 0 = Some g -> g = f).
  { intros g Hg. destruct Hnew as [Hf|[Hf _]]; congruence. }
  assert (Hrec : recs d 0 = text_records JSON_parse (data f)) by by apply recs_Some.
  split_and!; [|done|intros g Hg; apply H0 in Hg as ->; by apply Hcl|].
  - destruct HD as [(s & Hc & Hs) _]. split.
    + rewrite Hl in Hc. apply chain_app_inv in Hc as (m & _ & Hc). exists m. split; [done|].
      intros Ea. exfalso. apply Hn. rewrite Hrec. destruct Hnew as [Hf|[_ Hf]].
      * destruct (all_split JSON_parse d' M) as [l' Hl']. rewrite Ea in Hl'. symmetry in Hl'.
        apply app_eq_nil in Hl' as [_ Hl']. by rewrite (recs_Some _ _ _ _ Hf) in Hl'.
      * destruct (all_split1 JSON_parse d' M keeps_one) as [l' Hl'].
        rewrite Ea in Hl'. symmetry in Hl'. apply app_eq_nil in Hl' as [_ Hl'].
        apply app_eq_nil in Hl' as [Hl' _]. by rewrite (recs_Some _ _ _ _ Hf) in Hl'.
    + intros H0'. left. destruct Hnew as [Hf|[_ Hf]].
      * rewrite (recs_Some _ _ _ _ Hf) in H0'. congruence.
      * rewrite (recs_Some _ _ _ _ Hf). congruence.
  - intros g Hg. right. rewrite (H0 g Hg). eauto 10.
Qed.

Lemma append_spec d n e e' text :
  DInv d e -> FInv d n -> closed d ->
  chain H e (text_records JSON_parse text) e' ->
  let d' := append n 0 text d in
  DInv d' e' /\ FInv d' (S n) /\ grow n d d' /\
  (text <> "" -> forall f, d !! 0 = Some f -> d' !! 0 <> Some f) /\
  recs d' 0 = recs d 0 ++ text_records JSON_parse text /\
  (exists f x, d' !! 0 = Some f /\ data f = x +:+ text).
Proof.
  intros HD HF Hcl Hc. cbn zeta. set (d' := append n 0 text d).
  assert (Hd' : exists f', d' = <[0 := f']> d /\
    ((exists f, d !! 0 = Some f /\ f' = {| ino := ino f; data := data f +:+ text |}) \/
     (d !! 0 = None /\ f' = {| ino := n; data := text |}))).
  { unfold d', append. destruct (d !! 0); eauto 10. }
  destruct Hd' as (f' & -> & Hf').
  assert (Hr0 : recs (<[0:=f']> d) 0 = recs d 0 ++ text_records JSON_parse text).
  { rewrite (recs_Some _ _ 0 f') by apply lookup_insert_eq.
    destruct Hf' as [(f & Hf & ->)|[Hf ->]]; cbn [data].
    - rewrite (recs_Some _ _ _ _ Hf). by apply text_records_app, Hcl.
    - by rewrite (recs_None _ _ _ Hf). }
  assert (Hri : forall i, i <> 0 -> recs (<[0:=f']> d) i = recs d i).
  { intros i Hi. unfold recs. by rewrite lookup_insert_ne. }
  assert (Ha : all (<[0:=f']> d) M = all d M ++ text_records JSON_parse text).
  { clear -Hr0 Hri. induction M as [|m IH]; [done|]. cbn [AuditFile.all].
    by rewrite IH, Hri, app_assoc. }
  split_and!; [| | | |done|].
  - destruct HD as [(s & Hs & Hg) Hn]. split.
    + exists s. rewrite Ha. split; [by eapply chain_app|]. intros [E _]%app_eq_nil. auto.
    + rewrite Hr0, Ha, Hri by done. intros [E Et]%app_eq_nil. rewrite Et, app_nil_r. auto.
  - intros i g Hg. destruct (decide (i = 0)) as [->|].
    + rewrite lookup_insert_eq in Hg. simplify_eq.
      destruct Hf' as [(f & Hf & ->)|[_ ->]]; cbn; [|lia]. apply HF in Hf. lia.
    + rewrite lookup_insert_ne in Hg by done. apply HF in Hg. lia.
  - intros g Hg. rewrite lookup_insert_eq in Hg. simplify_eq.
    destruct Hf' as [(f & Hf & ->)|[_ ->]]; [right|by left].
    exists f. split_and!; [done|done|]. rewrite size_append.
    destruct text as [|c text]; [left|right; cbn; lia].
    rewrite app_nil_r_str. by destruct f.
  - intros Ht f Hf. rewrite lookup_insert_eq. intros [= ->].
    destruct Hf' as [(g & Hg & E)|[Hg _]]; [|congruence].
    assert (g = f) as -> by congruence. apply (f_equal size) in E. rewrite size_append in E. destruct text; [done|]. cbn in E. lia.
  - exists f'. rewrite lookup_insert_eq. destruct Hf' as [(f & Hf & ->)|[_ ->]]; cbn.
    + by exists (data f).
    + by exists "".
Qed.

(** *** A whole turn *)

Definition Inv (w : world) : Prop :=
  exists e, DInv (w_disk w) e /\ FInv (w_disk w) (w_next w) /\
    forall i c, w_sinks w !! i = Some (Some c) -> CInv (w_disk w) (w_next w) e c.

Lemma FInv_S d n : FInv d n -> FInv d (S n).
Proof. intros HF i f Hf. apply HF in Hf. lia. Qed.

(** What [record] leaves behind, on every path. *)
Lemma record_spec h ev locked held d n e cached :
  unstamped (base ev) -> rotates_records h ev d cached ->
  DInv d e -> FInv d n -> (forall c, cached = Some c -> CInv d n e c) ->
  let '(d', c') := record H JSON_parse o h ev locked held n d cached in
  exists e', DInv d' e' /\ FInv d' (S n) /\ grow n d d' /\
    (e' = e \/ forall f, d !! 0 = Some f -> d' !! 0 <> Some f) /\
    (forall c, c' = Some c -> CInv d' (S n) e' c) /\
    (locked = true -> held = true -> (forall seq, is_Some (payload o h ev seq)) ->
     exists p seq v, payload o h ev seq = Some p /\ stamp p e (hashRecord H e p) = JObj v /\
       e' = hashRecord H e p /\ exists l, recs d' 0 = l ++ [JObj (clean_fields v)]).
Proof.
  intros Hu Hrot HD HF HC. unfold record, rotates_records in *.
  destruct locked; [|exists e; split_and!; auto using FInv_S, grow_refl; done].
  pose proof (prepare_spec h ev d n e cached Hu HD HF HC) as Hp.
  destruct (prepare H JSON_parse o h ev d cached) as [d1 [[r next]|]]; cbn [fst] in *.
  - destruct Hp as (Hs & Hg & HF1 & Hcl & p & seq & Ep & Hup & -> & Hn).
    pose proof (DInv_same _ _ _ Hs HD) as HD1.
    destruct (rotated_spec (length (rotation M)) d1 n e HD1 HF1 Hcl Hrot) as (HD2 & HF2 & Hcl2 & Hg2).
    rewrite <- rotateIfNeeded_rotated in *. set (d2 := rotateIfNeeded o d1) in *.
    destruct held.
    + destruct (chain_written p e Hup) as (v & Ev & Hc). rewrite <- records_of_line, <- Ev in Hc.
      destruct (append_spec d2 n e _ _ HD2 HF2 Hcl2 Hc) as (HD3 & HF3 & Hg3 & Hne & Hr3 & f & x & Hf & Hd).
      set (d3 := append _ _ _ _) in *. exists (hashRecord H e p).
      assert (Hg' : grow n d d3) by eauto using grow_trans.
      split_and!; [done|done|done| | |].
      * right. eapply (strict_trans n d d2 d3); eauto using grow_trans.
      * intros c Ec. rewrite Hf in Ec. injection Ec as <-. split; cbn [c_ino c_size c_head].
        { by apply HF3 in Hf. }
        intros g Hg0 _. rewrite Hf in Hg0. simplify_eq. split; [lia|]. intros _. split; [done|].
        right. unfold ends_line. apply StrFacts.ends_with_spec. rewrite Hd. unfold record_line.
        eexists. by rewrite <- app_assoc_str.
      * intros _ _ _. exists p, seq, v. split_and!; [done..|]. exists (recs d2 0).
        by rewrite Hr3, Ev, records_of_line.
    + exists e. split_and!; auto using FInv_S; [by eapply grow_trans|done|done].
  - destruct Hp as (Hs & Hg & HF1 & Hcl & seq & Hno). exists e.
    split_and!; auto using FInv_S; [by eapply DInv_same|done|].
    intros _ _ Ht. destruct (Ht seq) as [p Hp]. congruence.
Qed.

Lemma crash_spec h ev point d n e cached :
  unstamped (base ev) -> rotates_records h ev d cached ->
  DInv d e -> FInv d n -> (forall c, cached = Some c -> CInv d n e c) ->
  let d' := crash H JSON_parse o h ev point n d cached in
  exists e', DInv d' e' /\ FInv d' (S n) /\ grow n d d' /\
    (e' = e \/ forall f, d !! 0 = Some f -> d' !! 0 <> Some f).
Proof.
  intros Hu Hrot HD HF HC. unfold crash, rotates_records in *.
  pose proof (prepare_spec h ev d n e cached Hu HD HF HC) as Hp.
  destruct (prepare H JSON_parse o h ev d cached) as [d1 [[r next]|]]; cbn [fst] in *;
    destruct Hp as (Hs & Hg & HF1 & Hcl & Hp);
    pose proof (DInv_same _ _ _ Hs HD) as HD1; [|exists e; auto using FInv_S].
  destruct Hp as (p & seq & Ep & Hup & -> & Hn).
  destruct point as [|k|k]; [exists e; auto using FInv_S|..].
  - destruct (rotated_spec k d1 n e HD1 HF1 Hcl Hrot) as (HD2 & HF2 & Hcl2 & Hg2).
    exists e. split_and!; eauto using FInv_S, grow_trans.
  - destruct (rotated_spec (length (rotation M)) d1 n e HD1 HF1 Hcl Hrot) as (HD2 & HF2 & Hcl2 & Hg2).
    rewrite <- rotateIfNeeded_rotated in *. set (d2 := rotateIfNeeded o d1) in *.
    destruct (chain_written p e Hup) as (v & -> & Hc). set (text := Str.take k _).
    assert (exists e', chain H e (text_records JSON_parse text) e' /\ (e' = e \/ text <> "")) as (e' & Hct & He').
    { unfold text. destruct (records_of_torn v k) as [E|E]; rewrite E.
      - exists e. split; [constructor|by left].
      - exists (hashRecord H e p). split; [done|right]. intros E'. by rewrite E' in E. }
    destruct (append_spec d2 n e e' text HD2 HF2 Hcl2 Hct) as (HD3 & HF3 & Hg3 & Hne & _ & _).
    exists e'. split_and!; [done|done|by eauto using grow_trans|].
    destruct He' as [->|Ht]; [by left|right]. eapply (strict_trans n d d2); eauto using grow_trans.
Qed.

Lemma Inv_turn w d' (sinks' : gmap nat (option Cache)) e e' :
  (forall i c, w_sinks w !! i = Some (Some c) -> CInv (w_disk w) (w_next w) e c) ->
  DInv d' e' -> FInv d' (S (w_next w)) -> grow (w_next w) (w_disk w) d' ->
  (e' = e \/ forall f, w_disk w !! 0 = Some f -> d' !! 0 <> Some f) ->
  (forall i c, sinks' !! i = Some (Some c) ->
     w_sinks w !! i = Some (Some c) \/ CInv d' (S (w_next w)) e' c) ->
  Inv {| w_disk := d'; w_sinks := sinks'; w_next := S (w_next w) |}.
Proof.
  intros HC HD HF Hg He Hs. exists e'. cbn. split_and!; [done|done|].
  intros i c Hi. destruct (Hs i c Hi) as [Hold|?]; [|done]. eapply CInv_grow; eauto.
Qed.

Lemma sink_step_Inv w w' : Inv w -> step w w' -> Inv w'.
Proof.
  intros (e & HD & HF & HC) Hst. destruct Hst as [w i Hi|w i c h ev locked held Hi Hu Hrot|w i c h ev point Hi Hu Hrot].
  - exists e. cbn. split_and!; [done|done|]. intros j c Hj. destruct (decide (i = j)) as [->|].
    + by rewrite lookup_insert_eq in Hj.
    + rewrite lookup_insert_ne in Hj by done. eauto.
  - pose proof (record_spec h ev locked held (w_disk w) (w_next w) e c Hu Hrot HD HF) as Hr.
    destruct (record _ _ _ _ _ _ _ _ _ _) as [d' c']. destruct Hr as (e' & HD' & HF' & Hg & He & Hc' & _).
    { intros c0 ->. eauto. }
    eapply Inv_turn; eauto. intros j c0 Hj. destruct (decide (i = j)) as [->|].
    + rewrite lookup_insert_eq in Hj. injection Hj as ->. auto.
    + rewrite lookup_insert_ne in Hj by done. auto.
  - destruct (crash_spec h ev point (w_disk w) (w_next w) e c Hu Hrot HD HF) as (e' & HD' & HF' & Hg & He).
    { intros c0 ->. eauto. }
    eapply Inv_turn; eauto. intros j c0 [_ Hj]%lookup_delete_Some. auto.
Qed.

Lemma Inv_empty : Inv empty_world.
Proof.
  exists CHAIN_GENESIS. cbn. split_and!; [|by intros i f Hf|by intros i c Hc].
  assert (Hr : forall i, recs ∅ i = []) by done.
  assert (Ha : all ∅ M = []).
  { clear -Hr. induction M as [|m IH]; [done|]. cbn. by rewrite IH. }
  split; [|by right]. exists CHAIN_GENESIS. rewrite Ha. split; [constructor|done].
Qed.

Lemma sink_reachable_Inv w : star step empty_world w -> Inv w.
Proof. apply star_invariant; [exact sink_step_Inv|exact Inv_empty]. Qed.

(** The segments of a directory as [verifyAuditSegments] is given them. *)
Fixpoint segments (d : disk) (n : nat) : list SegmentInput :=
  {| segment := JsNumber.to_string (Z.of_nat n); seg_records := recs d n |}
  :: match n with O => [] | S n' => segments d n' end.

Lemma all_records_segments d n : all_records (segments d n) = all d n.
Proof.
  induction n as [|n IH]; unfold all_records in *; cbn [segments]; cbn; [by rewrite app_nil_r|].
  f_equal. exact IH.
Qed.

End world.

(** [C11] Several writers, any of them killed at any point of a write, the head
    reading or a rotation: what is on disk always verifies as one chain over
    all segments, provided inode numbers are not reused and no segment of torn
    lines only is rotated. *)
Theorem file_sink_verifies H parse o w :
  (forall v, parse (stringify (JObj v)) = Some (JObj (clean_fields v))) ->
  (forall v p q, p +:+ q = stringify (JObj v) -> q <> "" -> parse p = None) ->
  1 <= maxFiles o ->
  star (step H parse o) empty_world w ->
  exists v, verifyAuditSegments H (segments parse (w_disk w) (maxFiles o)) = Some v /\
    s_valid v = true /\ totalRecords v = length (all parse (w_disk w) (maxFiles o)).
Proof.
  intros Hw Ht Hm Hst. destruct (sink_reachable_Inv H parse o Hw Ht Hm w Hst) as (e & [(s & Hc & Hs) _] & _ & _).
  rewrite <- all_records_segments in *.
  destruct (proj1 (verifyAuditSegments_spec H _) s e Hc) as (v & Hv & Hval & _ & _ & _ & Hn).
  { destruct (all_records _); [right; auto|by left]. }
  exists v. by split_and!.
Qed.

(** A call of [record] that has the lock writes the event: in every
    reachable directory the newest segment then ends with the event's payload,
    stamped with the hash of the record that was newest before. *)
Theorem record_written H parse o w i c h ev :
  (forall v, parse (stringify (JObj v)) = Some (JObj (clean_fields v))) ->
  (forall v p q, p +:+ q = stringify (JObj v) -> q <> "" -> parse p = None) ->
  1 <= maxFiles o ->
  star (step H parse o) empty_world w ->
  w_sinks w !! i = Some c -> unstamped (base ev) ->
  rotates_records H parse o h ev (w_disk w) c ->
  (forall seq, is_Some (payload o h ev seq)) ->
  let d' := (record H parse o h ev true true (w_next w) (w_disk w) c).1 in
  exists s prev p seq v l, chain H s (all parse (w_disk w) (maxFiles o)) prev /\
    payload o h ev seq = Some p /\ stamp p prev (hashRecord H prev p) = JObj v /\
    recs parse d' 0 = l ++ [JObj (clean_fields v)].
Proof.
  intros Hw Ht Hm Hst Hi Hu Hrot Hp. cbn zeta.
  destruct (sink_reachable_Inv H parse o Hw Ht Hm w Hst) as (e & HD & HF & HC).
  pose proof (record_spec H parse o Hw Hm h ev true true (w_disk w) (w_next w) e c Hu Hrot HD HF) as Hr.
  destruct (record _ _ _ _ _ _ _ _ _ _) as [d' c']. destruct Hr as (e' & _ & _ & _ & _ & _ & Hl).
  { intros c0 ->. eauto. }
  destruct (Hl eq_refl eq_refl Hp) as (p & seq & v & Ep & Ev & _ & l & El).
  destruct HD as [(s & Hc & _) _]. by exists s, e, p, seq, v, l.
Qed.

(** ** A run: two writers, rotation, and one of them killed mid-write *)

Definition ex_options : FileAuditSinkOptions :=
  {| capturePayloads := true; redactOptions := Redact.no_options; maxBytes := 500; maxFiles := 2 |}.

Definition ex_event : AuditEvent :=
  {| base := [("action", JStr "agent.tool-call"); ("decision", JStr "denied")];
     input := Redact.VRef 0; output := Redact.VUndef; meta := Redact.VUndef |}.

Definition cache_of (w : world) (i : nat) : option Cache := mjoin (w_sinks w !! i).

Definition turn_open (i : nat) (w : world) : world :=
  {| w_disk := w_disk w; w_sinks := <[i := None]> (w_sinks w); w_next := w_next w |}.
Definition turn_record (i : nat) (w : world) : world :=
  let '(d, c') := record toy_hash parse ex_options Redact.ex_heap ex_event true true (w_next w)
                    (w_disk w) (cache_of w i) in
  {| w_disk := d; w_sinks := <[i := c']> (w_sinks w); w_next := S (w_next w) |}.
Definition turn_crash (point : crash_point) (i : nat) (w : world) : world :=
  {| w_disk := crash toy_hash parse ex_options Redact.ex_heap ex_event point (w_next w)
                 (w_disk w) (cache_of w i);
     w_sinks := delete i (w_sinks w); w_next := S (w_next w) |}.

(** The conditions of a turn, as a check that evaluates. *)
Definition turn_ok (i : nat) (w : world) : bool :=
  match w_sinks w !! i with
  | Some _ =>
      let d1 := (prepare toy_hash parse ex_options Redact.ex_heap ex_event (w_disk w) (cache_of w i)).1 in
      negb (needs_rotation ex_options d1) || negb (length (recs parse d1 0) =? 0)
  | None => false
  end.

Lemma turn_ok_spec i w :
  turn_ok i w = true ->
  w_sinks w !! i = Some (cache_of w i) /\ unstamped (base ex_event) /\
  rotates_records toy_hash parse ex_options Redact.ex_heap ex_event (w_disk w) (cache_of w i).
Proof.
  unfold turn_ok, rotates_records. intros E. unfold cache_of in *.
  destruct (w_sinks w !! i) as [c|]; [|done]. split_and!; [done|by split|]. cbn zeta in *.
  apply orb_true_iff in E as [E|E]; [apply negb_true_iff in E; congruence|].
  intros _ En. rewrite En in E. done.
Qed.

Inductive turn := TOpen (i : nat) | TRecord (i : nat) | TCrash (point : crash_point) (i : nat).

Definition run_turn (w : world) (t : turn) : world :=
  match t with
  | TOpen i => turn_open i w
  | TRecord i => turn_record i w
  | TCrash point i => turn_crash point i w
  end.

Definition turn_allowed (w : world) (t : turn) : bool :=
  match t with
  | TOpen i => match w_sinks w !! i with None => true | Some _ => false end
  | TRecord i | TCrash _ i => turn_ok i w
  end.

Fixpoint turns_allowed (w : world) (ts : list turn) : bool :=
  match ts with
  | [] => true
  | t :: ts' => turn_allowed w t && turns_allowed (run_turn w t) ts'
  end.

Lemma turn_step w t :
  turn_allowed w t = true -> step toy_hash parse ex_options w (run_turn w t).
Proof.
  destruct t as [i|i|point i]; cbn [turn_allowed run_turn]; intros Ht.
  - apply step_open. by destruct (w_sinks w !! i).
  - apply turn_ok_spec in Ht as (Hi & Hu & Hr). by apply step_record.
  - apply turn_ok_spec in Ht as (Hi & Hu & Hr). by apply (step_crash _ _ _ _ _ (cache_of w i)).
Qed.

Lemma turns_star w ts :
  turns_allowed w ts = true -> star (step toy_hash parse ex_options) w (foldl run_turn w ts).
Proof.
  revert w. induction ts as [|t ts IH]; cbn; intros w Ht; [apply star_refl|].
  apply andb_true_iff in Ht as [Ht Hts]. eapply star_cons; [by apply turn_step|by apply IH].
Qed.

Definition ex_turns : list turn :=
  [TOpen 0; TOpen 1; TRecord 0; TRecord 1; TCrash (CrashWriting 30) 0;
   TRecord 1; TOpen 0; TRecord 0; TCrash (CrashRotating 2) 1; TRecord 0].

Definition ex_world : world := foldl run_turn empty_world ex_turns.

Lemma ex_world_reachable : star (step toy_hash parse ex_options) empty_world ex_world.
Proof. apply turns_star. vm_compute. reflexivity. Qed.

Lemma file_sink_verifies_witness :
  exists v, verifyAuditSegments toy_hash (segments parse (w_disk ex_world) 2) = Some v /\
    s_valid v = true /\ totalRecords v = 3.
Proof.
  destruct (file_sink_verifies toy_hash parse ex_options ex_world parse_stringify parse_torn
              ltac:(cbn; lia) ex_world_reachable) as (v & Hv & Hval & Hn).
  exists v. split; [exact Hv|]. split; [exact Hval|]. rewrite Hn. vm_compute. reflexivity.
Defined.

Lemma ex_payload_total seq : is_Some (payload ex_options Redact.ex_heap ex_event seq).
Proof. vm_compute. eauto. Qed.

Lemma record_written_witness :
  let d' := (record toy_hash parse ex_options Redact.ex_heap ex_event true true (w_next ex_world)
               (w_disk ex_world) (cache_of ex_world 0)).1 in
  exists prev p seq v l, payload ex_options Redact.ex_heap ex_event seq = Some p /\
    stamp p prev (hashRecord toy_hash prev p) = JObj v /\
    recs parse d' 0 = l ++ [JObj (clean_fields v)].
Proof.
  destruct (turn_ok_spec 0 ex_world) as (Hi & Hu & Hr); [vm_compute; reflexivity|].
  destruct (record_written toy_hash parse ex_options ex_world 0 (cache_of ex_world 0) Redact.ex_heap ex_event
              parse_stringify parse_torn ltac:(cbn; lia) ex_world_reachable Hi Hu Hr ex_payload_total)
    as (s & prev & p & seq & v & l & _ & Hp & Hs & Hl).
  exists prev, p, seq, v, l. split; [exact Hp|]. split; [exact Hs|exact Hl].
Defined.

Lemma readHead_reads_all_witness :
  exists f, w_disk ex_world !! 0 = Some f /\
    snd (readHead parse 0 (w_disk ex_world)) = last_head parse (Str.split newline (data f)).
Proof.
  destruct (w_disk ex_world !! 0) as [f|] eqn:E; [|vm_compute in E; discriminate E].
  exists f. split; [reflexivity|]. exact (readHead_reads_all parse 0 f _ E).
Defined.

(** ** Inode numbers are reused *)

(** The same two writers where every segment holds one record, one rotated
    segment is kept, and the file created after a segment was deleted gets the
    deleted segment's inode number. *)
Definition reuse_options : FileAuditSinkOptions :=
  {| capturePayloads := false; redactOptions := Redact.no_options; maxBytes := 10; maxFiles := 1 |}.

Definition reuse_record (fresh : nat) (d : disk) (c : option Cache) : disk * option Cache :=
  record toy_hash parse reuse_options Redact.ex_heap ex_event true true fresh d c.

Definition reuse_run : disk :=
  let '(d1, a) := reuse_record 0 ∅ None in (* A creates inode 0 *)
  let '(d2, b) := reuse_record 1 d1 None in (* B rotates, creates inode 1 *)
  let '(d3, b) := reuse_record 0 d2 b in (* B deletes A's segment; inode 0 again *)
  fst (reuse_record 2 d3 a).

(** A cached head is not always right: when the inode number of a deleted
    segment is given to the new file and the sizes agree, a writer takes its
    old head for the current one, and the chain no longer verifies. *)
Theorem inode_reuse_breaks_chain :
  exists v, verifyAuditSegments toy_hash (segments parse reuse_run 1) = Some v /\ s_valid v = false.
Proof. eexists. split; [vm_compute; reflexivity|reflexivity]. Qed.

End AuditFile.
