(* ===== verification/Attest.v ===== *)
(** * Attestation records (packages/audit/src/attest.ts)

    A record is the JSON it is on disk, and the verifier is given any JSON: the
    model follows the conversions JavaScript makes (optional chaining, template
    literals, comparison with a number) and says where they throw. Problems are
    their codes; the sentences that go with them are not kept, except that
    building one may throw. The hash is a parameter. *)
From S2P Require Import Prelude JsNumber Json JsonParse AuditChain.

Module Attest.
Import Json AuditChain.

Definition ATTESTATION_SCHEMA_VERSION : Z := 1.
Definition ATTESTATION_KIND : string := "berth.attestation".
Definition ATTESTATION_TRUST_MODEL : string :=
  "tamper-evident, not tamper-proof: this record and the audit chain it cites are hashed, "
  +:+ "but both were produced by software running on the attested host. Anyone who controls that "
  +:+ "host could have rewritten the chain wholesale and re-emitted this record before its head "
  +:+ "left their reach. The record proves internal consistency and detects after-the-fact edits; "
  +:+ "it does not prove the host told the truth at emission time.".

Inductive AttestationProblemCode : Type :=
| schema_version_unsupported
| kind_invalid
| run_id_missing
| trust_model_missing
| generated_at_invalid
| audit_chain_head_invalid
| boot_id_missing
| image_digest_missing
| policy_digest_invalid
| run_records_invalid
| digest_mismatch
| enforcement_missing
| enforcement_status_invalid
| ruleset_report_invalid
| doctor_probe_invalid
| boot_id_inconsistent
| enforcement_status_underived.

(** ** JavaScript's view of JSON values *)

Definition is_str (v : json) (s : string) : bool :=
  match v with JStr t => String.eqb t s | _ => false end.
Definition one_of (l : list string) (v : json) : bool := existsb (is_str v) l.
Definition is_string (v : json) : bool := match v with JStr _ => true | _ => false end.
Definition nonempty_string (v : json) : bool :=
  match v with JStr s => negb (String.eqb s "") | _ => false end.

Definition truthy (v : json) : bool :=
  match v with
  | JUndef | JNull => false
  | JBool b => b
  | JNum z => negb (z =? 0)%Z
  | JStr s => negb (String.eqb s "")
  | JArr _ | JObj _ => true
  end.

(** [v > 0]; [None] when the conversion throws. *)
Definition gt_zero (v : json) : option bool :=
  match v with
  | JUndef | JNull => Some false
  | JBool b => Some b
  | JNum z => Some (0 <? z)%Z
  | _ => s ← js_string v; Some (JsNumber.positive (JsNumber.Number s))
  end.

(** [SHA256_HEX.test(v ?? "")] *)
Definition sha256_text (s : string) : bool := (String.length s =? 64) && Str.all Str.is_lower_hex s.
Definition sha256_hex (v : json) : option bool :=
  match v with
  | JUndef | JNull => Some false
  | _ => s ← js_string v; Some (sha256_text s)
  end.

(** [RFC3339.test(s)] *)
Definition eat (p : ascii -> bool) (s : string) : option string :=
  match s with String c r => if p c then Some r else None | EmptyString => None end.
Fixpoint eat_all (ps : list (ascii -> bool)) (s : string) : option string :=
  match ps with [] => Some s | p :: ps' => r ← eat p s; eat_all ps' r end.
Definition is_char (c d : ascii) : bool := Ascii.eqb c d.
Definition digits (n : nat) : list (ascii -> bool) := replicate n Str.is_digit.
Definition date_time : list (ascii -> bool) :=
  digits 4 ++ [is_char "-"] ++ digits 2 ++ [is_char "-"] ++ digits 2 ++ [is_char "T"]
  ++ digits 2 ++ [is_char ":"] ++ digits 2 ++ [is_char ":"] ++ digits 2.
Definition offset : list (ascii -> bool) :=
  [fun c => Ascii.eqb c "+" || Ascii.eqb c "-"] ++ digits 2 ++ [is_char ":"] ++ digits 2.

Definition is_zone (s : string) : bool :=
  String.eqb s "Z" || match eat_all offset s with Some EmptyString => true | _ => false end.

Definition RFC3339 (s : string) : bool :=
  match eat_all date_time s with
  | None => false
  | Some (String c r as s1) =>
      if Ascii.eqb c "." then
        match JsNumber.span Str.is_digit r with
        | (String _ _, r') => is_zone r'
        | _ => false
        end
      else is_zone s1
  | Some EmptyString => false
  end.

Definition ENFORCEMENT_STATUSES : list string := ["ACTIVE"; "NOT_ENFORCED"; "UNDETERMINED"].
Definition PROBE_STATUSES : list string := ["enforcing"; "present_not_enforcing"; "unsupported"; "unknown"].

(** ** Deriving the verdict *)

Record EnforcementVerdict := { status : string; reasons : list string }.

Definition probe_reason (probe_status : string) (reason : json) : option string :=
  if truthy reason
  then r ← js_string reason; Some ("doctor probe: " +:+ probe_status +:+ " (" +:+ r +:+ ")")
  else Some ("doctor probe: " +:+ probe_status).

(** [rulesetReports.filter((r) => r.ruleset !== "FullyEnforced")], with the
    reason each of them adds. *)
Fixpoint not_enforced (reports : list json) : option (list json) :=
  match reports with
  | [] => Some []
  | r :: reports' =>
      ruleset ← prop "ruleset" r;
      rest ← not_enforced reports';
      Some (if is_str ruleset "FullyEnforced" then rest else r :: rest)
  end.

Definition report_reason (r : json) : option string :=
  ruleset ← prop "ruleset" r;
  ruleset ← js_string ruleset;
  app ← prop "app" r;
  app ← js_string app;
  Some ("agent-init reported " +:+ ruleset +:+ " for app " +:+ quote app).

Definition deriveEnforcementStatus (rulesetReports : list json) (probe : json) : option EnforcementVerdict :=
  probe_status ← prop "status" probe;
  probe_reasons ←
    (if one_of ["unsupported"; "present_not_enforcing"] probe_status then
       s ← js_string probe_status;
       reason ← prop "reason" probe;
       r ← probe_reason s reason; Some [r]
     else Some []);
  notEnforced ← not_enforced rulesetReports;
  report_reasons ← mapM report_reason notEnforced;
  match probe_reasons ++ report_reasons with
  | [] =>
      if is_str probe_status "unknown" then
        Some {| status := "UNDETERMINED"; reasons := ["doctor probe result unavailable for this boot"] |}
      else if length rulesetReports =? 0 then
        Some {| status := "UNDETERMINED";
                reasons := ["no capability_policy_applied report found for this boot"] |}
      else Some {| status := "ACTIVE"; reasons := [] |}
  | rs => Some {| status := "NOT_ENFORCED"; reasons := rs |}
  end.

(** ** Emitting and verifying *)

Section attest.
Context (H : string -> string).

Definition fields_of (v : json) : fields := match v with JObj o => o | _ => [] end.

Definition attestationDigest (record : json) : string :=
  H (canonicalize (JObj (JsMap.remove "recordSha256" (fields_of record)))).

(** [now] is [new Date().toISOString()]. *)
Definition finalizeAttestation (now : string) (input : json) : option json :=
  enforcement ← prop "enforcement" input;
  rulesetReports ← prop "rulesetReports" enforcement;
  doctorProbe ← prop "doctorProbe" enforcement;
  reports ← match rulesetReports with JArr l => Some l | _ => None end;
  verdict ← deriveEnforcementStatus reports doctorProbe;
  let field k := oprop k input in
  let body :=
    [("schemaVersion", JNum ATTESTATION_SCHEMA_VERSION); ("kind", JStr ATTESTATION_KIND);
     ("trustModel", JStr ATTESTATION_TRUST_MODEL);
     ("generatedAt", match field "generatedAt" with JUndef | JNull => JStr now | v => v end);
     ("runId", field "runId"); ("run", field "run"); ("auditChain", field "auditChain");
     ("boot", field "boot");
     ("enforcement", JObj [("status", JStr (status verdict)); ("reasons", JArr (map JStr (reasons verdict)));
                           ("rulesetReports", rulesetReports); ("doctorProbe", doctorProbe)]);
     ("policies", field "policies")] in
  Some (JObj (body ++ [("recordSha256", JStr (attestationDigest (JObj body)))])).

Abbreviation problems := (list AttestationProblemCode).

Definition check (bad : bool) (code : AttestationProblemCode) : problems := if bad then [code] else [].

(** The ruleset report loop, for the boot the record names. *)
Definition report_problem (bootId : json) (r : json) : option problems :=
  match oprop "app" r, oprop "ruleset" r, oprop "bootId" r with
  | JStr _, JStr _, JStr b =>
      if is_str bootId b then Some []
      else _ ← js_string bootId; Some [boot_id_inconsistent]
  | _, _, _ => Some [ruleset_report_invalid]
  end.

Definition policy_problem (p : json) : option problems :=
  ok ← sha256_hex (oprop "sha256" p); Some (check (negb ok) policy_digest_invalid).

Definition enforcement_problems (record : json) : option problems :=
  let enforcement := oprop "enforcement" record in
  match enforcement with
  | JObj _ | JArr _ =>
      st ← prop "status" enforcement;
      rulesetReports ← prop "rulesetReports" enforcement;
      doctorProbe ← prop "doctorProbe" enforcement;
      let probe_known := one_of PROBE_STATUSES (oprop "status" doctorProbe) in
      report_ps ←
        match rulesetReports with
        | JArr l => ps ← mapM (report_problem (oprop "bootId" (oprop "boot" record))) l; Some (mjoin ps)
        | _ => Some [ruleset_report_invalid]
        end;
      derived ← deriveEnforcementStatus
        (match rulesetReports with JArr l => l | _ => [] end)
        (if probe_known then doctorProbe else JObj [("status", JStr "unknown")]);
      underived ←
        (if is_str st (status derived) then Some []
         else _ ← js_string st; Some [enforcement_status_underived]);
      Some (check (negb (one_of ENFORCEMENT_STATUSES st)) enforcement_status_invalid
            ++ report_ps ++ check (negb probe_known) doctor_probe_invalid ++ underived)
  | _ => Some [enforcement_missing]
  end.

Definition is_mapping (record : json) : bool := match record with JObj _ => true | _ => false end.

Definition digest_ok (record : json) : bool :=
  is_mapping record && is_str (oprop "recordSha256" record) (attestationDigest record).

(** The problems found; [None] when the verifier throws. *)
Definition verifyAttestation (record : json) : option problems :=
  let version := oprop "schemaVersion" record in
  version_ps ←
    match version with
    | JNum 1 => Some []
    | _ => _ ← js_string version; Some [schema_version_unsupported]
    end;
  let generatedAt := oprop "generatedAt" record in
  head_ok ← sha256_hex (oprop "head" (oprop "auditChain" record));
  policy_ps ←
    match oprop "policies" record with
    | JArr l => ps ← mapM policy_problem l; Some (mjoin ps)
    | _ => Some [policy_digest_invalid]
    end;
  records_ok ← gt_zero (oprop "records" (oprop "run" record));
  enforcement_ps ← enforcement_problems record;
  Some (version_ps
        ++ check (negb (is_str (oprop "kind" record) ATTESTATION_KIND)) kind_invalid
        ++ check (negb (nonempty_string (oprop "runId" record))) run_id_missing
        ++ check (negb (nonempty_string (oprop "trustModel" record))) trust_model_missing
        ++ check (negb match generatedAt with JStr s => RFC3339 s | _ => false end) generated_at_invalid
        ++ check (negb head_ok) audit_chain_head_invalid
        ++ check (negb (nonempty_string (oprop "bootId" (oprop "boot" record)))) boot_id_missing
        ++ check (negb (nonempty_string (oprop "imageDigest" (oprop "boot" record)))) image_digest_missing
        ++ policy_ps
        ++ check (negb records_ok) run_records_invalid
        ++ check (negb (digest_ok record)) digest_mismatch
        ++ enforcement_ps).

(** ** The verdict *)

Lemma is_str_spec v s : is_str v s = true <-> v = JStr s.
Proof.
  destruct v; cbn; try (split; [done|congruence]). rewrite String.eqb_eq. split; congruence.
Qed.

Lemma one_of_spec l v : one_of l v = true <-> exists s, s ∈ l /\ v = JStr s.
Proof.
  unfold one_of. rewrite existsb_exists. split.
  - intros (s & Hs & E). apply is_str_spec in E. exists s. by rewrite list_elem_of_In.
  - intros (s & Hs & ->). exists s. rewrite <- list_elem_of_In. split; [done|]. by apply is_str_spec.
Qed.

Definition fully_enforced (r : json) : Prop := prop "ruleset" r = Some (JStr "FullyEnforced").

Lemma not_enforced_spec reports l :
  not_enforced reports = Some l ->
  (l = [] <-> Forall fully_enforced reports) /\ Forall (fun r => ~ fully_enforced r) l.
Proof.
  revert l. induction reports as [|r reports IH]; cbn; intros l; [intros [= <-]; split; [done|constructor]|].
  destruct (prop "ruleset" r) as [v|] eqn:Er; [|done]. cbn.
  destruct (not_enforced reports) as [rest|]; [|done]. cbn. destruct (IH rest eq_refl) as [H1 H2].
  destruct (is_str v "FullyEnforced") eqn:Ev; intros [= <-].
  - apply is_str_spec in Ev as ->. split; [|done]. rewrite H1, Forall_cons. tauto.
  - assert (Hn : ~ fully_enforced r).
    { unfold fully_enforced. rewrite Er. intros [= ->]. by rewrite (proj2 (is_str_spec _ _) eq_refl) in Ev. }
    split; [|by constructor]. rewrite Forall_cons. split; [done|tauto].
Qed.

Lemma mapM_length {A B} (f : A -> option B) l k : mapM f l = Some k -> length l = length k.
Proof. intros E. by apply length_mapM in E. Qed.

(** A probe that measured a kernel without enforcement. *)
Definition probe_not_enforcing (probe : json) : Prop :=
  exists s, s ∈ ["unsupported"; "present_not_enforcing"] /\ prop "status" probe = Some (JStr s).

(** The verdict is NOT_ENFORCED exactly when some measurement says so, and
    ACTIVE exactly when there are reports, all of them fully enforced, and the
    probe neither measured non-enforcement nor is unknown; otherwise it is
    UNDETERMINED. *)
Theorem derive_spec reports probe v :
  deriveEnforcementStatus reports probe = Some v ->
  (status v = "NOT_ENFORCED" <-> probe_not_enforcing probe \/ ~ Forall fully_enforced reports) /\
  (status v = "ACTIVE" <-> reports <> [] /\ Forall fully_enforced reports /\
     ~ probe_not_enforcing probe /\ prop "status" probe <> Some (JStr "unknown")) /\
  (status v = "NOT_ENFORCED" \/ status v = "ACTIVE" \/ status v = "UNDETERMINED").
Proof.
  unfold deriveEnforcementStatus, probe_not_enforcing.
  destruct (prop "status" probe) as [ps|]; [|done]. cbn [mbind option_bind].
  set (bad := one_of _ ps).
  assert (Hbad : bad = true <-> exists s, s ∈ ["unsupported"; "present_not_enforcing"] /\ Some ps = Some (JStr s)).
  { unfold bad. rewrite one_of_spec. split; intros (s & ? & E); exists s; split; congruence. }
  clearbody bad.
  destruct (if bad then _ else Some []) as [pr|] eqn:Epr; [|done]. cbn [mbind option_bind].
  assert (Hpr : pr = [] <-> bad = false).
  { destruct bad; [|by simplify_eq]. destruct (js_string ps); [|done]. cbn in Epr.
    destruct (prop "reason" probe); [|done]. cbn in Epr. destruct (probe_reason _ _); [|done].
    cbn in Epr. by simplify_eq. }
  destruct (not_enforced reports) as [l|] eqn:El; [|done]. cbn [mbind option_bind].
  destruct (not_enforced_spec _ _ El) as [Hl _].
  destruct (mapM report_reason l) as [rr|] eqn:Err; [|done]. cbn [mbind option_bind].
  assert (Hrr : rr = [] <-> l = []).
  { apply mapM_length in Err. destruct l, rr; done. }
  rewrite <- Hbad, <- Hl.
  destruct (pr ++ rr) as [|r0 rs] eqn:Eapp.
  - apply app_eq_nil in Eapp as [E1 E2]. rewrite Hpr in E1. rewrite Hrr in E2. rewrite E1.
    destruct (is_str ps "unknown") eqn:Eu.
    + apply is_str_spec in Eu as ->. intros [= <-]. cbn. split_and!; clear -E2; intuition congruence.
    + assert (Some ps <> Some (JStr "unknown")).
      { intros [= ->]. by rewrite (proj2 (is_str_spec _ _) eq_refl) in Eu. }
      destruct reports as [|r reports]; cbn; intros [= <-]; cbn; split_and!; clear -E2 H0; intuition congruence.
  - intros [= <-]. cbn. split_and!; [|split; [intros ?; discriminate|]|by left].
    + split; [intros _|done]. destruct bad; [by left|right]. intros E. apply Hrr in E as ->.
      by rewrite (proj2 Hpr eq_refl) in Eapp.
    + intros (_ & E1 & E2 & _). apply not_true_is_false in E2. apply Hpr in E2 as ->. apply Hrr in E1 as ->. done.
Qed.

(** ** Soundness *)

Lemma check_nil b code : check b code = [] <-> b = false.
Proof. destruct b; cbn; split; congruence. Qed.

Lemma app_nil_inv {A} (l k : list A) : l ++ k = [] -> l = [] /\ k = [].
Proof. apply app_eq_nil. Qed.

Lemma mapM_mjoin_nil {A B} (f : A -> option (list B)) l k :
  mapM f l = Some k -> mjoin k = [] -> Forall (fun x => f x = Some []) l.
Proof.
  revert k. induction l as [|x l IH]; intros k E Hk; [constructor|].
  cbn in E. destruct (f x) as [y|] eqn:Ex; [|done]. cbn in E. destruct (mapM f l) as [ys|]; [|done].
  cbn in E. injection E as <-. cbn in Hk. apply app_nil_inv in Hk as [-> Hk]. constructor; eauto.
Qed.

Lemma report_problem_nil bootId r :
  report_problem bootId r = Some [] -> exists b, oprop "bootId" r = JStr b /\ bootId = JStr b.
Proof.
  unfold report_problem. destruct (oprop "app" r), (oprop "ruleset" r), (oprop "bootId" r) as [| | | |bid| |]; try done.
  destruct (is_str bootId bid) eqn:E; [|by destruct (js_string bootId)].
  apply is_str_spec in E as ->. intros _. by exists bid.
Qed.

Lemma oprop_prop k v w : prop k v = Some w -> oprop k v = w.
Proof. unfold oprop. by intros ->. Qed.

Lemma prop_oprop k v s : oprop k v = JStr s -> prop k v = Some (JStr s).
Proof. unfold oprop. destruct (prop k v); cbn; congruence. Qed.

Lemma enforcement_problems_nil record :
  enforcement_problems record = Some [] ->
  exists reports verdict probe,
    oprop "rulesetReports" (oprop "enforcement" record) = JArr reports /\
    oprop "doctorProbe" (oprop "enforcement" record) = probe /\
    one_of PROBE_STATUSES (oprop "status" probe) = true /\
    deriveEnforcementStatus reports probe = Some verdict /\
    oprop "status" (oprop "enforcement" record) = JStr (status verdict) /\
    Forall (fun r => exists b, oprop "bootId" r = JStr b /\ oprop "bootId" (oprop "boot" record) = JStr b) reports.
Proof.
  unfold enforcement_problems. set (enf := oprop "enforcement" record). intros E.
  assert (Hobj : exists st rr dp, prop "status" enf = Some st /\ prop "rulesetReports" enf = Some rr /\
    prop "doctorProbe" enf = Some dp /\ (match enf with JObj _ | JArr _ => True | _ => False end)).
  { destruct enf; try done; cbn; eauto 10. }
  destruct Hobj as (st & rr & dp & E1 & E2 & E3 & Henf).
  rewrite E1, E2, E3 in E. rewrite !(oprop_prop _ _ _ E1), !(oprop_prop _ _ _ E2), !(oprop_prop _ _ _ E3).
  assert (E' : (let probe_known := one_of PROBE_STATUSES (oprop "status" dp) in
    report_ps ← match rr with
                | JArr l => ps ← mapM (report_problem (oprop "bootId" (oprop "boot" record))) l; Some (mjoin ps)
                | _ => Some [ruleset_report_invalid]
                end;
    derived ← deriveEnforcementStatus (match rr with JArr l => l | _ => [] end)
                (if probe_known then dp else JObj [("status", JStr "unknown")]);
    underived ← (if is_str st (status derived) then Some []
                 else _ ← js_string st; Some [enforcement_status_underived]);
    Some (check (negb (one_of ENFORCEMENT_STATUSES st)) enforcement_status_invalid
          ++ report_ps ++ check (negb probe_known) doctor_probe_invalid ++ underived)) = Some []).
  { destruct enf; done. }
  clear E. cbn zeta in E'. destruct rr as [| | | | |l|].
  1-5,7: cbn [mbind option_bind] in E'; destruct (deriveEnforcementStatus _ _); [|done];
    cbn [mbind option_bind] in E'; destruct (if is_str _ _ then _ else _); [|done];
    cbn [mbind option_bind] in E'; injection E' as E'; apply app_nil_inv in E' as [_ E']; done.
  destruct (mapM _ l) as [ps|] eqn:Em; [|done]. cbn [mbind option_bind] in E'.
  destruct (deriveEnforcementStatus _ _) as [d|] eqn:Ed; [|done]. cbn [mbind option_bind] in E'.
  destruct (if is_str _ _ then _ else _) as [u|] eqn:Eu; [|done]. cbn [mbind option_bind] in E'.
  injection E' as E'. apply app_nil_inv in E' as [_ E']. apply app_nil_inv in E' as [Ep E'].
  apply app_nil_inv in E' as [Ek ->]. apply check_nil, negb_false_iff in Ek.
  change (one_of PROBE_STATUSES (oprop "status" dp) = true) in Ek. rewrite Ek in Ed.
  destruct (is_str st (status d)) eqn:Es; [|by destruct (js_string st)]. apply is_str_spec in Es as ->.
  exists l, d, dp. split_and!; try done.
  eapply Forall_impl; [by eapply mapM_mjoin_nil|]. cbn. intros r. apply report_problem_nil.
Qed.

Lemma verify_nil record :
  verifyAttestation record = Some [] ->
  enforcement_problems record = Some [] /\ digest_ok record = true /\
  nonempty_string (oprop "bootId" (oprop "boot" record)) = true.
Proof.
  unfold verifyAttestation. cbn zeta.
  destruct (match oprop "schemaVersion" record with JNum 1 => _ | _ => _ end) as [vp|]; [|done].
  cbn [mbind option_bind]. destruct (sha256_hex _) as [ho|]; [|done]. cbn [mbind option_bind].
  destruct (match oprop "policies" record with JArr _ => _ | _ => _ end) as [pp|]; [|done].
  cbn [mbind option_bind]. destruct (gt_zero _) as [go|]; [|done]. cbn [mbind option_bind].
  destruct (enforcement_problems record) as [ep|]; [|done]. cbn [mbind option_bind]. intros [= E].
  repeat match goal with H : _ ++ _ = [] |- _ => apply app_nil_inv in H as [? ?] end.
  repeat match goal with H : check _ _ = [] |- _ => apply check_nil, negb_false_iff in H end.
  split_and!; [by f_equal|done|done].
Qed.

End attest.

(** Soundness of the verifier: a record it accepts as ACTIVE carries its own
    digest, a known probe result that says the kernel enforces, and at least one
    ruleset report, every one of them fully enforced and citing the very boot
    the record names. *)
Theorem verify_active_sound H record :
  verifyAttestation H record = Some [] ->
  oprop "status" (oprop "enforcement" record) = JStr "ACTIVE" ->
  exists reports probe b,
    oprop "rulesetReports" (oprop "enforcement" record) = JArr reports /\ reports <> [] /\
    Forall (fun r => fully_enforced r /\ oprop "bootId" r = JStr b) reports /\
    oprop "bootId" (oprop "boot" record) = JStr b /\
    oprop "doctorProbe" (oprop "enforcement" record) = probe /\
    oprop "status" probe = JStr "enforcing" /\
    oprop "recordSha256" record = JStr (attestationDigest H record).
Proof.
  intros Hv Hst. apply verify_nil in Hv as (He & Hd & Hb).
  apply enforcement_problems_nil in He as (reports & verdict & probe & Er & Ep & Ek & Ed & Es & Hboot).
  assert (Ea : status verdict = "ACTIVE") by congruence.
  destruct (derive_spec _ _ _ Ed) as (_ & [Hact _] & _). destruct (Hact Ea) as (Hne & Hall & Hprobe & Hunk).
  destruct (oprop "bootId" (oprop "boot" record)) as [| | | |b| |] eqn:Eb; try done.
  exists reports, probe, b. split_and!; try done.
  - rewrite Forall_forall in *. intros r Hr. split; [by apply Hall|].
    destruct (Hboot r Hr) as (b' & ? & ?). congruence.
  - apply one_of_spec in Ek as (s & Hs & Es'). pose proof (prop_oprop _ _ _ Es') as Hps.
    unfold PROBE_STATUSES in Hs. rewrite !elem_of_cons in Hs.
    destruct Hs as [->|[->|[->|[->|Hs]]]]; [done|..|by apply not_elem_of_nil in Hs]; exfalso.
    + apply Hprobe. eexists. split; [|exact Hps]. right. left.
    + apply Hprobe. eexists. split; [|exact Hps]. left.
    + by apply Hunk.
  - unfold digest_ok in Hd. apply andb_true_iff in Hd as [_ Hd]. by apply is_str_spec.
Qed.

(** The verifier throws on a record that is an object with an enforcement
    section whose report list holds a null: the loop reports it, but deriving
    the verdict from the same list reads a member of null. *)
Theorem verify_null_report H record reports :
  (exists o, record = JObj o) ->
  (exists o, oprop "enforcement" record = JObj o) ->
  oprop "rulesetReports" (oprop "enforcement" record) = JArr reports -> JNull ∈ reports ->
  verifyAttestation H record = None.
Proof.
  intros [o ->] [enf Ee] Er Hn.
  assert (Hne : forall l, JNull ∈ l -> not_enforced l = None).
  { clear. induction l as [|r l IH]; intros Hin; [by apply not_elem_of_nil in Hin|].
    cbn. apply elem_of_cons in Hin as [<-|Hin]; [done|]. rewrite (IH Hin). by destruct (prop "ruleset" r). }
  assert (Hd : forall p, deriveEnforcementStatus reports p = None).
  { intros p. unfold deriveEnforcementStatus. destruct (prop "status" p) as [ps|]; [|done].
    cbn [mbind option_bind].
    destruct (if one_of ["unsupported"; "present_not_enforcing"] ps then _ else Some []); [|done].
    cbn [mbind option_bind]. by rewrite (Hne _ Hn). }
  assert (He : enforcement_problems (JObj o) = None).
  { unfold enforcement_problems. rewrite Ee in *. cbn [prop mbind option_bind] in *.
    unfold oprop in Er. cbn [prop or_default] in Er. rewrite Er.
    destruct (mapM _ reports); [|done]. cbn [mbind option_bind]. by rewrite Hd. }
  unfold verifyAttestation. cbn zeta. rewrite He.
  destruct (match oprop "schemaVersion" (JObj o) with JNum 1 => _ | _ => _ end); [|done]. cbn [mbind option_bind].
  destruct (sha256_hex _); [|done]. cbn [mbind option_bind].
  destruct (match oprop "policies" (JObj o) with JArr _ => _ | _ => _ end); [|done]. cbn [mbind option_bind].
  by destruct (gt_zero _).
Qed.

(** ** Completeness *)

Definition str_field (p : string -> bool) (v : json) : bool :=
  match v with JStr s => p s | _ => false end.
Definition report_formed (bootId : string) (r : json) : bool :=
  is_string (oprop "app" r) && is_string (oprop "ruleset" r) && is_str (oprop "bootId" r) bootId.

(** An [AttestationInput] as its type and the emitter's callers make it. *)
Definition well_formed_input (now : string) (input : json) : bool :=
  let boot := oprop "boot" input in
  let enforcement := oprop "enforcement" input in
  let probe := oprop "doctorProbe" enforcement in
  nonempty_string (oprop "runId" input)
  && match oprop "generatedAt" input with
     | JUndef => RFC3339 now | JStr s => RFC3339 s | _ => false
     end
  && match oprop "records" (oprop "run" input) with JNum z => (0 <? z)%Z | _ => false end
  && str_field sha256_text (oprop "head" (oprop "auditChain" input))
  && nonempty_string (oprop "imageDigest" boot)
  && match oprop "policies" input with
     | JArr l => forallb (fun p => str_field sha256_text (oprop "sha256" p)) l
     | _ => false
     end
  && one_of PROBE_STATUSES (oprop "status" probe)
  && match oprop "reason" probe with JUndef | JStr _ => true | _ => false end
  && match oprop "bootId" boot, oprop "rulesetReports" enforcement with
     | JStr b, JArr l => negb (String.eqb b "") && forallb (report_formed b) l
     | _, _ => false
     end.

Lemma oprop_str_prop k v : is_string (oprop k v) = true -> exists s, prop k v = Some (JStr s).
Proof. unfold oprop. destruct (prop k v) as [[]|]; cbn; try done. eauto. Qed.

Lemma mapM_total {A B} (f : A -> option B) l :
  Forall (fun x => is_Some (f x)) l -> is_Some (mapM f l).
Proof.
  induction 1 as [|x l [y Hy] Hl [ys IH]]; [by eexists|]. cbn. rewrite Hy. cbn. rewrite IH. cbn. eauto.
Qed.

Lemma derive_total bootId reports probe :
  forallb (report_formed bootId) reports = true ->
  one_of PROBE_STATUSES (oprop "status" probe) = true ->
  (match oprop "reason" probe with JUndef | JStr _ => true | _ => false end) = true ->
  is_Some (deriveEnforcementStatus reports probe).
Proof.
  intros Hr Hp Hreason. apply one_of_spec in Hp as (ps & _ & Hp). apply prop_oprop in Hp.
  unfold deriveEnforcementStatus. rewrite Hp. cbn [mbind option_bind].
  assert (Hrea : exists v, prop "reason" probe = Some v /\ oprop "reason" probe = v).
  { unfold oprop. unfold prop in Hp. destruct probe; try done. cbn. eauto. }
  destruct Hrea as (v & Ev & Ev'). rewrite Ev' in Hreason.
  assert (Hpr : exists r, (if one_of ["unsupported"; "present_not_enforcing"] (JStr ps)
    then s ← js_string (JStr ps); reason ← prop "reason" probe; r ← probe_reason s reason; Some [r]
    else Some []) = Some r).
  { destruct (one_of _ (JStr ps)); [|eauto]. rewrite Ev. destruct v as [| | | |s| |]; try done; cbn; [by eauto|].
    unfold probe_reason. destruct (truthy (JStr s)); cbn; eauto. }
  destruct Hpr as [pr ->]. cbn [mbind option_bind].
  assert (Hne : exists l, not_enforced reports = Some l /\ Forall (fun r => is_Some (report_reason r)) l).
  { clear -Hr. induction reports as [|r reports IH]; [by exists []|]. cbn in Hr.
    apply andb_true_iff in Hr as [Hr Hrs]. destruct (IH Hrs) as (l & El & Hl).
    unfold report_formed in Hr. apply andb_true_iff in Hr as [Hr _]. apply andb_true_iff in Hr as [Ha Hs].
    apply oprop_str_prop in Ha as [a Ha]. apply oprop_str_prop in Hs as [s Hs].
    cbn. rewrite Hs, El. cbn. destruct (String.eqb s "FullyEnforced"); eexists; split; try done.
    constructor; [|done]. unfold report_reason. rewrite Hs, Ha. cbn. eauto. }
  destruct Hne as (l & -> & Hl). cbn [mbind option_bind].
  destruct (mapM_total _ _ Hl) as [rr ->]. cbn [mbind option_bind].
  destruct (pr ++ rr); [|eauto]. destruct (is_str _ _); [eauto|]. destruct (_ =? 0); eauto.
Qed.

Lemma mapM_nil {A B} (f : A -> option (list B)) l :
  Forall (fun x => f x = Some []) l -> exists k, mapM f l = Some k /\ mjoin k = [].
Proof.
  induction 1 as [|x l Hx Hl (k & Ek & Hk)]; [by exists []|]. exists ([] :: k).
  cbn. by rewrite Hx, Ek.
Qed.

Lemma enforcement_status_known reports probe v :
  deriveEnforcementStatus reports probe = Some v -> one_of ENFORCEMENT_STATUSES (JStr (status v)) = true.
Proof.
  intros E. destruct (derive_spec _ _ _ E) as (_ & _ & [->|[->| ->]]); done.
Qed.

Lemma enforcement_ok record enf verdict reports dp b :
  oprop "enforcement" record = JObj enf ->
  prop "status" (JObj enf) = Some (JStr (status verdict)) ->
  prop "rulesetReports" (JObj enf) = Some (JArr reports) ->
  prop "doctorProbe" (JObj enf) = Some dp ->
  oprop "bootId" (oprop "boot" record) = JStr b ->
  forallb (report_formed b) reports = true ->
  one_of PROBE_STATUSES (oprop "status" dp) = true ->
  deriveEnforcementStatus reports dp = Some verdict ->
  enforcement_problems record = Some [].
Proof.
  intros Ee E1 E2 E3 Eb Hreports Hp Ev. unfold enforcement_problems. cbn zeta.
  rewrite Ee, E1, E2, E3, Eb. cbn [mbind option_bind].
  assert (Hrep : Forall (fun r => report_problem (JStr b) r = Some []) reports).
  { rewrite Forall_forall. intros r Hr. rewrite forallb_forall in Hreports.
    apply list_elem_of_In, Hreports in Hr. unfold report_formed in Hr.
    apply andb_true_iff in Hr as [Hr Hbid]. apply andb_true_iff in Hr as [Ha Hs].
    apply is_str_spec in Hbid. unfold report_problem. rewrite Hbid.
    destruct (oprop "app" r); try done. destruct (oprop "ruleset" r); try done.
    cbn. by rewrite String.eqb_refl. }
  apply mapM_nil in Hrep as (kr & -> & Hkr). cbn [mbind option_bind].
  rewrite Hp, Ev. cbn [mbind option_bind]. rewrite (proj2 (is_str_spec _ _) eq_refl). cbn [mbind option_bind].
  by rewrite (enforcement_status_known _ _ _ Ev), Hkr.
Qed.

Lemma verify_ok H record z head pols k g :
  oprop "schemaVersion" record = JNum 1 -> oprop "kind" record = JStr ATTESTATION_KIND ->
  nonempty_string (oprop "runId" record) = true -> nonempty_string (oprop "trustModel" record) = true ->
  oprop "generatedAt" record = JStr g -> RFC3339 g = true ->
  oprop "head" (oprop "auditChain" record) = JStr head -> sha256_text head = true ->
  nonempty_string (oprop "bootId" (oprop "boot" record)) = true ->
  nonempty_string (oprop "imageDigest" (oprop "boot" record)) = true ->
  oprop "policies" record = JArr pols -> mapM policy_problem pols = Some k -> mjoin k = [] ->
  oprop "records" (oprop "run" record) = JNum z -> (0 <? z)%Z = true ->
  digest_ok H record = true -> enforcement_problems record = Some [] ->
  verifyAttestation H record = Some [].
Proof.
  unfold verifyAttestation. cbn zeta. intros -> -> -> -> -> E1 -> E2 -> -> -> E3 E4 -> E5 -> ->.
  cbn [mbind option_bind sha256_hex js_string gt_zero].
  rewrite E1, E2, E3. cbn [mbind option_bind]. by rewrite E4, E5.
Qed.

(** Completeness: from a well-formed input the emitter produces a record,
    and the verifier accepts that record. *)
Theorem finalize_verifies H now input :
  well_formed_input now input = true ->
  exists record, finalizeAttestation H now input = Some record /\
    verifyAttestation H record = Some [].
Proof.
  unfold well_formed_input. cbn zeta. intros Hw.
  apply andb_true_iff in Hw as [Hw Hboot]. apply andb_true_iff in Hw as [Hw Hreason].
  apply andb_true_iff in Hw as [Hw Hprobe]. apply andb_true_iff in Hw as [Hw Hpol].
  apply andb_true_iff in Hw as [Hw Himg]. apply andb_true_iff in Hw as [Hw Hhead].
  apply andb_true_iff in Hw as [Hw Hrun]. apply andb_true_iff in Hw as [Hid Hgen].
  destruct (oprop "bootId" (oprop "boot" input)) as [| | | |b| |] eqn:Eb; try done.
  destruct (oprop "rulesetReports" (oprop "enforcement" input)) as [| | | | |reports|] eqn:Er; try done.
  apply andb_true_iff in Hboot as [Hb Hreports].
  destruct (derive_total _ _ _ Hreports Hprobe Hreason) as [verdict Ev].
  assert (E1 : exists enf, prop "enforcement" input = Some enf /\ oprop "enforcement" input = enf).
  { unfold oprop in *. destruct (prop "enforcement" input); [by eauto|]. done. }
  destruct E1 as (enf & E1 & E1'). rewrite E1' in *.
  assert (E2 : prop "rulesetReports" enf = Some (JArr reports)).
  { unfold oprop in Er. by destruct (prop "rulesetReports" enf); cbn in Er; simplify_eq. }
  assert (E3 : prop "doctorProbe" enf = Some (oprop "doctorProbe" enf)).
  { unfold prop in E2. unfold oprop. destruct enf; try done. }
  unfold finalizeAttestation. rewrite E1. cbn [mbind option_bind]. rewrite E2. cbn [mbind option_bind].
  rewrite E3. cbn [mbind option_bind]. rewrite Ev. cbn [mbind option_bind]. cbn zeta.
  set (body := _ :: _). eexists. split; [reflexivity|]. set (digest := attestationDigest H (JObj body)).
  assert (Hdig : digest_ok H (JObj (body ++ [("recordSha256", JStr digest)])) = true).
  { unfold digest_ok. cbn. apply String.eqb_eq. reflexivity. }
  assert (Hpolk : exists l, oprop "policies" input = JArr l /\
    exists k, mapM policy_problem l = Some k /\ mjoin k = []).
  { destruct (oprop "policies" input) as [| | | | |l|]; try done. exists l. split; [done|].
    apply mapM_nil. rewrite Forall_forall. intros p Hp. rewrite forallb_forall in Hpol.
    apply list_elem_of_In in Hp. apply Hpol in Hp. unfold policy_problem.
    destruct (oprop "sha256" p); try done. cbn in *. by rewrite Hp. }
  destruct Hpolk as (pols & Epol & k & Ek & Hk).
  destruct (oprop "records" (oprop "run" input)) as [| | |z| | |] eqn:Ez; try done.
  destruct (oprop "head" (oprop "auditChain" input)) as [| | | |head| |] eqn:Ehead; try done.
  assert (Hg : exists g, oprop "generatedAt" (JObj (body ++ [("recordSha256", JStr digest)])) = JStr g
                         /\ RFC3339 g = true).
  { unfold oprop at 1. cbn [prop app JsMap.get body]. cbn [or_default].
    destruct (oprop "generatedAt" input); try done; eauto. }
  destruct Hg as (g & Eg & Hg).
  eapply (verify_ok H (JObj (body ++ [("recordSha256", JStr digest)])) z head pols k g);
    try reflexivity; try assumption.
  - change (nonempty_string (oprop "bootId" (oprop "boot" input)) = true). by rewrite Eb.
  - eapply (enforcement_ok _ _ verdict reports (oprop "doctorProbe" enf) b); try reflexivity; assumption.
Qed.

(** ** Witnesses *)

Definition ex_report (app ruleset : string) : json :=
  JObj [("app", JStr app); ("ruleset", JStr ruleset); ("bootId", JStr "boot-1")].

Definition ex_input (reports : list json) : json :=
  JObj [("runId", JStr "run-7"); ("run", JObj [("records", JNum 3)]);
        ("auditChain", JObj [("head", JStr CHAIN_GENESIS)]);
        ("boot", JObj [("bootId", JStr "boot-1"); ("imageDigest", JStr "unknown")]);
        ("enforcement", JObj [("rulesetReports", JArr reports);
                              ("doctorProbe", JObj [("status", JStr "enforcing")])]);
        ("policies", JArr [JObj [("app", JStr "notes"); ("sha256", JStr CHAIN_GENESIS)]])].

Definition ex_now : string := "2026-01-02T03:04:05.678Z".
Definition ex_good : json := ex_input [ex_report "notes" "FullyEnforced"; ex_report "web" "FullyEnforced"].

Definition ex_record (input : json) : json :=
  or_default JNull (finalizeAttestation toy_hash ex_now input).

Lemma finalize_verifies_witness :
  exists record, finalizeAttestation toy_hash ex_now ex_good = Some record /\
    verifyAttestation toy_hash record = Some [].
Proof. apply finalize_verifies. vm_compute. reflexivity. Defined.

Lemma verify_active_sound_witness :
  exists b, oprop "bootId" (oprop "boot" (ex_record ex_good)) = JStr b.
Proof.
  destruct (verify_active_sound toy_hash (ex_record ex_good)) as (reports & probe & b & _ & _ & _ & Hb & _).
  - vm_compute. reflexivity.
  - vm_compute. reflexivity.
  - exists b. exact Hb.
Defined.

Lemma derive_spec_witness :
  exists v, deriveEnforcementStatus [ex_report "notes" "NotEnforced"] (JObj [("status", JStr "enforcing")]) = Some v /\
    (status v = "NOT_ENFORCED" \/ status v = "ACTIVE" \/ status v = "UNDETERMINED").
Proof.
  eexists. split; [vm_compute; reflexivity|].
  apply (derive_spec [ex_report "notes" "NotEnforced"] (JObj [("status", JStr "enforcing")])).
  vm_compute. reflexivity.
Defined.

Lemma verify_null_report_witness :
  verifyAttestation toy_hash
    (JObj [("enforcement", JObj [("status", JStr "ACTIVE"); ("rulesetReports", JArr [JNull])])]) = None.
Proof.
  apply (verify_null_report toy_hash _ [JNull]).
  - eexists. reflexivity.
  - eexists. reflexivity.
  - reflexivity.
  - constructor.
Defined.

End Attest.
