(* ===== verification/Mesh.v ===== *)
(** * The mesh coordinator (packages/mesh-coordinator/src/{db,glob,routes}.ts)

    The peers table as a list of rows in insertion order with the address
    counter, the SQL statements the code runs with their constraints, and the
    three route handlers. A handler runs to its end before the next one starts
    (the database calls are synchronous), so a run is a list of requests. The
    token hash is a parameter; the random token of a new registration is part
    of the request. *)
From S2P Require Import Prelude Glob JsNumber Json.

Module Mesh.

Record PeerRecord := {
  name : string;
  public_key : string;
  mesh_ip : string;
  endpoint_host : string;
  endpoint_port : JsNumber.jsnum;
  mesh_peer_patterns : list string;
  owner_token_hash : string;
  registered_at : string;
  last_seen : string
}.

Record PeerView := {
  v_name : string;
  v_meshIp : string;
  v_publicKey : string;
  v_endpointHost : string;
  v_endpointPort : JsNumber.jsnum
}.

Definition MESH_BASE_OCTETS : Z * Z := (100, 64)%Z.

Definition ipFromSequence (seq : Z) : string :=
  let value := (seq + 2)%Z in
  let d := (value mod 256)%Z in
  let c := ((value / 256) mod 256)%Z in
  let b := (value / 65536)%Z in
  JsNumber.to_string (fst MESH_BASE_OCTETS) +:+ "." +:+ JsNumber.to_string (snd MESH_BASE_OCTETS + b)
  +:+ "." +:+ JsNumber.to_string c +:+ "." +:+ JsNumber.to_string d.

Record db := { peers : list PeerRecord; next_seq : Z }.

(** A freshly created database file. *)
Definition new_db : db := {| peers := []; next_seq := 0 |}.

(** What makes a handler throw: Fastify answers 500. *)
Inductive exn : Type :=
| InvalidRegExp
| ConstraintViolation.

Definition matchesAny_one (pattern : string) (n : string) : result exn bool :=
  match Glob.compile pattern with
  | Ok p => Ok (Glob.matches p n)
  | Err _ => Err InvalidRegExp
  end.

(** [patterns.some((pattern) => globToRegExp(pattern).test(name))] *)
Fixpoint matchesAny (patterns : list string) (n : string) : result exn bool :=
  match patterns with
  | [] => Ok false
  | p :: patterns' =>
      let? b := matchesAny_one p n in
      if b : bool then Ok true else matchesAny patterns' n
  end.

Section coordinator.
Context (H : string -> string).

(** [SELECT * FROM peers WHERE name = ?] *)
Definition get (n : string) (s : db) : option PeerRecord :=
  List.find (fun p => String.eqb (name p) n) (peers s).

Definition exists_ (n : string) (s : db) : bool :=
  match get n s with Some _ => true | None => false end.

(** [tokenHash]: an empty hash or token is falsy. *)
Definition verifyToken (n : string) (token : option string) (s : db) : bool :=
  match owner_token_hash <$> get n s, token with
  | Some stored, Some t =>
      negb (String.eqb stored "") && negb (String.eqb t "") && String.eqb (H t) stored
  | _, _ => false
  end.

Definition nextMeshIp (s : db) : string * db :=
  (ipFromSequence (next_seq s), {| peers := peers s; next_seq := next_seq s + 1 |}).

Record upsert_input := {
  i_name : string;
  i_publicKey : string;
  i_endpointHost : string;
  i_endpointPort : JsNumber.jsnum;
  i_meshPeerPatterns : list string;
  i_now : string
}.

Definition updated (i : upsert_input) (p : PeerRecord) : PeerRecord :=
  {| name := name p; public_key := i_publicKey i; mesh_ip := mesh_ip p;
     endpoint_host := i_endpointHost i; endpoint_port := i_endpointPort i;
     mesh_peer_patterns := i_meshPeerPatterns i; owner_token_hash := owner_token_hash p;
     registered_at := registered_at p; last_seen := i_now i |}.

Definition new_peer (i : upsert_input) (ip token : string) : PeerRecord :=
  {| name := i_name i; public_key := i_publicKey i; mesh_ip := ip;
     endpoint_host := i_endpointHost i; endpoint_port := i_endpointPort i;
     mesh_peer_patterns := i_meshPeerPatterns i; owner_token_hash := H token;
     registered_at := i_now i; last_seen := i_now i |}.

(** The INSERT, with the table's PRIMARY KEY and UNIQUE constraints. *)
Definition insert_row (p : PeerRecord) (s : db) : result exn db :=
  if existsb (fun q => String.eqb (name q) (name p) || String.eqb (mesh_ip q) (mesh_ip p)) (peers s)
  then Err ConstraintViolation
  else Ok {| peers := peers s ++ [p]; next_seq := next_seq s |}.

(** [upsert], with the token a new registration draws. The database keeps what
    was written before a throw, so the state is returned next to the result. *)
Definition upsert (i : upsert_input) (token : string) (s : db) :
    db * result exn (PeerRecord * option string) :=
  match get (i_name i) s with
  | Some existing =>
      let s' := {| peers := map (fun p => if String.eqb (name p) (i_name i) then updated i p else p) (peers s);
                   next_seq := next_seq s |} in
      (s', match get (i_name i) s' with
           | Some r => Ok (r, None)
           | None => Ok (existing, None)
           end)
  | None =>
      let '(ip, s1) := nextMeshIp s in
      match insert_row (new_peer i ip token) s1 with
      | Err e => (s1, Err e)
      | Ok s2 => (s2, Ok (new_peer i ip token, Some token))
      end
  end.

Definition remove (n : string) (s : db) : db :=
  {| peers := List.filter (fun p => negb (String.eqb (name p) n)) (peers s); next_seq := next_seq s |}.

Definition view (p : PeerRecord) : PeerView :=
  {| v_name := name p; v_meshIp := mesh_ip p; v_publicKey := public_key p;
     v_endpointHost := endpoint_host p; v_endpointPort := endpoint_port p |}.

Definition mutual (self : PeerRecord) (n : string) (other : PeerRecord) : result exn bool :=
  let? b := matchesAny (mesh_peer_patterns self) (name other) in
  if b : bool then matchesAny (mesh_peer_patterns other) n else Ok false.

Fixpoint mutual_filter (self : PeerRecord) (n : string) (others : list PeerRecord) : result exn (list PeerView) :=
  match others with
  | [] => Ok []
  | o :: others' =>
      let? b := mutual self n o in
      let? rest := mutual_filter self n others' in
      Ok (if b : bool then view o :: rest else rest)
  end.

Definition mutualPeersFor (n : string) (s : db) : result exn (list PeerView) :=
  match get n s with
  | None => Ok []
  | Some self => mutual_filter self n (List.filter (fun p => negb (String.eqb (name p) n)) (peers s))
  end.

(** ** Routes *)

Definition is_name_char (c : ascii) : bool :=
  Str.is_lower c || Str.is_digit c || Ascii.eqb c "-".

(** [/^[a-z0-9-]+$/] *)
Definition NAME_RE (n : string) : bool := negb (String.eqb n "") && Str.all is_name_char n.

Definition bearerToken (authorization : option string) : option string :=
  match authorization with
  | None => None
  | Some header =>
      if Str.starts_with "Bearer " header
      then Some (Str.drop (String.length "Bearer ") header)
      else None
  end.

Record RegisterBody := {
  b_name : string;
  b_publicKey : string;
  b_endpointHost : string;
  b_endpointPort : JsNumber.jsnum;
  b_meshPeerPatterns : option (list string)
}.

Inductive request : Type :=
| PostPeers (auth : option string) (body : RegisterBody) (now : string) (token : string)
| GetPeers (auth : option string) (n : option string)
| DeletePeers (auth : option string) (n : string).

Inductive response : Type :=
| BadRequest
| NotFound
| Unauthorized
| InternalError (e : exn)
| Registered (status : nat) (meshIp : string) (ownerToken : option string) (ps : list PeerView)
| Peers (ps : list PeerView)
| NoContent.

Definition post_peers (auth : option string) (body : RegisterBody) (now token : string) (s : db) : db * response :=
  let patterns := or_default [] (b_meshPeerPatterns body) in
  if negb (NAME_RE (b_name body)) then (s, BadRequest)
  else if String.eqb (b_publicKey body) "" || String.eqb (b_endpointHost body) ""
          || negb (JsNumber.isInteger (b_endpointPort body)) then (s, BadRequest)
  else if exists_ (b_name body) s && negb (verifyToken (b_name body) (bearerToken auth) s)
  then (s, Unauthorized)
  else
    match upsert {| i_name := b_name body; i_publicKey := b_publicKey body;
                    i_endpointHost := b_endpointHost body; i_endpointPort := b_endpointPort body;
                    i_meshPeerPatterns := patterns; i_now := now |} token s with
    | (s', Err e) => (s', InternalError e)
    | (s', Ok (record, ownerToken)) =>
        match mutualPeersFor (b_name body) s' with
        | Err e => (s', InternalError e)
        | Ok ps =>
            let fresh := match ownerToken with Some t => negb (String.eqb t "") | None => false end in
            (s', Registered (if fresh then 201 else 200) (mesh_ip record)
                   (if fresh then ownerToken else None) ps)
        end
    end.

Definition get_peers (auth : option string) (n : option string) (s : db) : db * response :=
  match n with
  | None | Some EmptyString => (s, BadRequest)
  | Some n =>
      if negb (exists_ n s) then (s, NotFound)
      else if negb (verifyToken n (bearerToken auth) s) then (s, Unauthorized)
      else match mutualPeersFor n s with
           | Ok ps => (s, Peers ps)
           | Err e => (s, InternalError e)
           end
  end.

Definition delete_peers (auth : option string) (n : string) (s : db) : db * response :=
  if negb (exists_ n s) then (s, NotFound)
  else if negb (verifyToken n (bearerToken auth) s) then (s, Unauthorized)
  else (remove n s, NoContent).

Definition handle (r : request) (s : db) : db * response :=
  match r with
  | PostPeers auth body now token => post_peers auth body now token s
  | GetPeers auth n => get_peers auth n s
  | DeletePeers auth n => delete_peers auth n s
  end.

Definition run (rs : list request) (s : db) : db := foldl (fun s r => fst (handle r s)) s rs.

(** ** Addresses *)

Lemma octets_inj a b c a' b' c' :
  (0 <= a)%Z -> (0 <= b)%Z -> (0 <= c)%Z -> (0 <= a')%Z -> (0 <= b')%Z -> (0 <= c')%Z ->
  JsNumber.to_string a +:+ "." +:+ JsNumber.to_string b +:+ "." +:+ JsNumber.to_string c =
  JsNumber.to_string a' +:+ "." +:+ JsNumber.to_string b' +:+ "." +:+ JsNumber.to_string c' ->
  a = a' /\ b = b' /\ c = c'.
Proof.
  intros Ha Hb Hc Ha' Hb' Hc' E.
  assert (Hdot : forall x y, Json.ends_number (String "." x) /\ Json.ends_number (String "." y)) by done.
  rewrite !app_cons_str, !app_empty_str in E.
  apply Json.digits_inj in E as [-> E]; [|done..]. apply cons_inj_str in E.
  apply Json.digits_inj in E as [-> E]; [|done..]. apply cons_inj_str in E.
  apply JsNumber.to_string_inj in E as ->; auto.
Qed.

Lemma ipFromSequence_inj k k' :
  (0 <= k)%Z -> (0 <= k')%Z -> ipFromSequence k = ipFromSequence k' -> k = k'.
Proof.
  intros Hk Hk' E. unfold ipFromSequence in E. cbn zeta in E.
  apply app_inj_r_str in E. rewrite !app_cons_str, !app_empty_str in E. apply cons_inj_str in E.
  cbn [snd MESH_BASE_OCTETS] in E.
  assert (0 <= (k + 2) / 65536)%Z by (apply Z.div_pos; lia).
  assert (0 <= (k' + 2) / 65536)%Z by (apply Z.div_pos; lia).
  assert (Hm : forall x, (0 <= x mod 256)%Z) by (intros; apply Z.mod_pos_bound; lia).
  apply (octets_inj _ _ _ _ _ _) in E as (E1 & E2 & E3); [|lia|auto..|lia|auto|auto].
  pose proof (Z.div_mod (k + 2) 256 ltac:(lia)). pose proof (Z.div_mod (k' + 2) 256 ltac:(lia)).
  pose proof (Z.div_mod ((k + 2) / 256) 256 ltac:(lia)). pose proof (Z.div_mod ((k' + 2) / 256) 256 ltac:(lia)).
  rewrite !Z.div_div in * by lia. change (256 * 256)%Z with 65536%Z in *. lia.
Qed.

(** An address in 100.64.0.0/10: its second octet is from 64 to 127. *)
Definition in_range (ip : string) : Prop :=
  exists b c d, (64 <= b < 128)%Z /\ (0 <= c < 256)%Z /\ (0 <= d < 256)%Z /\
    ip = "100." +:+ JsNumber.to_string b +:+ "." +:+ JsNumber.to_string c +:+ "." +:+ JsNumber.to_string d.

Lemma ip_in_range k : (0 <= k)%Z -> in_range (ipFromSequence k) <-> (k + 2 < 64 * 65536)%Z.
Proof.
  intros Hk. unfold in_range, ipFromSequence. cbn zeta.
  assert (Hm : forall x, (0 <= x mod 256 < 256)%Z) by (intros; apply Z.mod_pos_bound; lia).
  assert (0 <= (k + 2) / 65536)%Z by (apply Z.div_pos; lia). split.
  - intros (b & c & d & Hb & Hc & Hd & E).
    change ("100." +:+ JsNumber.to_string b +:+ "." +:+ JsNumber.to_string c +:+ "." +:+ JsNumber.to_string d)
      with (JsNumber.to_string 100 +:+ "." +:+ JsNumber.to_string b +:+ "." +:+ JsNumber.to_string c +:+ "."
            +:+ JsNumber.to_string d) in E.
    apply app_inj_r_str in E. rewrite !app_cons_str, !app_empty_str in E. apply cons_inj_str in E.
    cbn [snd MESH_BASE_OCTETS] in E.
    apply octets_inj in E as (E1 & _ & _); try lia; try apply Hm.
    assert ((k + 2) / 65536 < 64)%Z by lia.
    pose proof (Z.mul_succ_div_gt (k + 2) 65536 ltac:(lia)). lia.
  - intros Hlt. exists (64 + (k + 2) / 65536)%Z, (((k + 2) / 256) mod 256)%Z, ((k + 2) mod 256)%Z.
    split_and!; try apply Hm; try lia; [|reflexivity].
    assert ((k + 2) / 65536 < 64)%Z by (apply Z.div_lt_upper_bound; lia). lia.
Qed.

(** ** The invariant of the table *)

Record Inv (s : db) : Prop := {
  inv_names : NoDup (map name (peers s));
  inv_ips : NoDup (map mesh_ip (peers s));
  inv_seq : (0 <= next_seq s)%Z;
  inv_below : forall p, p ∈ peers s -> exists k, (0 <= k < next_seq s)%Z /\ mesh_ip p = ipFromSequence k
}.

Lemma mesh_get_Some n s p : get n s = Some p -> p ∈ peers s /\ name p = n.
Proof.
  intros E. apply find_some in E as [Hin E]. apply list_elem_of_In in Hin. by apply String.eqb_eq in E.
Qed.

Lemma mesh_get_None n s : get n s = None -> forall p, p ∈ peers s -> name p <> n.
Proof.
  intros E p Hp. apply list_elem_of_In in Hp. eapply find_none in E; [|exact Hp].
  by apply String.eqb_neq in E.
Qed.

Lemma get_unique s p : NoDup (map name (peers s)) -> p ∈ peers s -> get (name p) s = Some p.
Proof.
  unfold get. induction (peers s) as [|q ps IH]; cbn; intros Hnd Hp; [by apply not_elem_of_nil in Hp|].
  apply NoDup_cons in Hnd as [Hq Hnd]. apply elem_of_cons in Hp as [->|Hp]; [by rewrite String.eqb_refl|].
  destruct (String.eqb_spec (name q) (name p)) as [E|_]; [|by apply IH].
  exfalso. apply Hq. rewrite E. apply list_elem_of_fmap. eauto.
Qed.

Lemma map_update (i : upsert_input) (ps : list PeerRecord) (g : PeerRecord -> string) :
  (forall p, g (updated i p) = g p) ->
  map g (map (fun p => if String.eqb (name p) (i_name i) then updated i p else p) ps) = map g ps.
Proof.
  intros Hg. rewrite List.map_map. apply map_ext. intros p. by destruct (String.eqb _ _).
Qed.

Lemma upsert_Inv i token s : Inv s -> Inv (fst (upsert i token s)).
Proof.
  intros HI. unfold upsert. destruct (get (i_name i) s) as [p|] eqn:E; cbn [fst].
  - destruct HI as [H1 H2 H3 H4]. split; cbn [peers next_seq].
    + rewrite map_update; done.
    + rewrite map_update; done.
    + done.
    + intros q Hq. apply list_elem_of_In, in_map_iff in Hq as (q' & <- & Hq'). apply list_elem_of_In in Hq'.
      destruct (String.eqb _ _); cbn; by apply H4.
  - cbn. unfold insert_row. cbn. destruct HI as [H1 H2 H3 H4].
    destruct (existsb _ (peers s)) eqn:Ex; cbn [fst]; split; cbn [peers next_seq]; try done; try lia.
    + intros p Hp. destruct (H4 p Hp) as (k & Hk & Hip). exists k. split; [lia|done].
    + rewrite map_app. apply NoDup_app. split_and!; [done| |apply NoDup_singleton].
      cbn. intros x Hx Hx'. apply list_elem_of_singleton in Hx' as ->.
      apply list_elem_of_fmap in Hx as (p & Hn & Hp). by destruct (mesh_get_None _ _ E p Hp).
    + rewrite map_app. apply NoDup_app. split_and!; [done| |apply NoDup_singleton].
      cbn. intros x Hx Hx'. apply list_elem_of_singleton in Hx' as ->.
      apply list_elem_of_fmap in Hx as (p & Hn & Hp). destruct (H4 p Hp) as (k & Hk & Hip).
      rewrite Hip in Hn. apply ipFromSequence_inj in Hn; lia.
    + intros p Hp. apply elem_of_app in Hp as [Hp|Hp].
      * destruct (H4 p Hp) as (k & Hk & Hip). exists k. split; [lia|done].
      * apply list_elem_of_singleton in Hp as ->. exists (next_seq s). split; [lia|done].
Qed.

(** The INSERT never hits a constraint. *)
Lemma upsert_ok i token s : Inv s -> exists r, snd (upsert i token s) = Ok r.
Proof.
  intros HI. unfold upsert. destruct (get (i_name i) s) as [p|] eqn:E; cbn zeta; cbn [snd].
  - case_match; eexists; reflexivity.
  - cbn. unfold insert_row. cbn. destruct (existsb _ (peers s)) eqn:Ex; [|by eauto].
    exfalso. apply existsb_exists in Ex as (q & Hq & Hc). apply list_elem_of_In in Hq.
    apply orb_true_iff in Hc as [Hc|Hc]; apply String.eqb_eq in Hc.
    + by destruct (mesh_get_None _ _ E q Hq).
    + destruct (inv_below _ HI q Hq) as (k & Hk & Hip). rewrite Hip in Hc.
      apply ipFromSequence_inj in Hc; lia.
Qed.

Lemma remove_Inv n s : Inv s -> Inv (remove n s).
Proof.
  intros [H1 H2 H3 H4].
  assert (Hsub : forall (g : PeerRecord -> string) ps, NoDup (map g ps) ->
    NoDup (map g (List.filter (fun p => negb (String.eqb (name p) n)) ps))).
  { intros g ps. induction ps as [|p ps IH]; cbn; [done|]. rewrite NoDup_cons. intros [Hp Hnd].
    destruct (String.eqb _ _); cbn; [by apply IH|]. apply NoDup_cons. split; [|by apply IH].
    intros (q & Hq & Hin)%list_elem_of_fmap. apply Hp. rewrite Hq. apply list_elem_of_fmap. exists q. split; [done|].
    apply list_elem_of_In in Hin. apply filter_In in Hin as [Hin _]. by apply list_elem_of_In. }
  split; cbn; auto. intros p Hp. apply list_elem_of_In, filter_In in Hp as [Hp _].
  by apply H4, list_elem_of_In.
Qed.

Lemma post_peers_state auth body now token s :
  fst (post_peers auth body now token s) = s \/
  (NAME_RE (b_name body) = true /\
   (exists_ (b_name body) s = true -> verifyToken (b_name body) (bearerToken auth) s = true) /\
   exists i, i_name i = b_name body /\ fst (post_peers auth body now token s) = fst (upsert i token s)).
Proof.
  unfold post_peers. destruct (NAME_RE (b_name body)) eqn:En; cbn [negb]; [|by left].
  destruct (_ || _); [by left|].
  destruct (exists_ (b_name body) s && negb (verifyToken (b_name body) (bearerToken auth) s)) eqn:Ea; [by left|].
  right. split; [done|]. split.
  { intros Ee. rewrite Ee in Ea. cbn in Ea. by apply negb_false_iff in Ea. }
  set (i := {| i_name := _ |}). exists i. split; [done|].
  destruct (upsert i token s) as [s' [[r o]|e]]; [|done]. by destruct (mutualPeersFor _ _).
Qed.

Lemma get_peers_state auth n s : fst (get_peers auth n s) = s.
Proof.
  unfold get_peers. destruct n as [[|c n]|]; [done| |done].
  destruct (negb _); [done|]. destruct (negb _); [done|]. by destruct (mutualPeersFor _ _).
Qed.

Lemma delete_peers_state auth n s :
  fst (delete_peers auth n s) = s \/
  verifyToken n (bearerToken auth) s = true /\ fst (delete_peers auth n s) = remove n s.
Proof.
  unfold delete_peers. destruct (negb _); [by left|].
  destruct (verifyToken n (bearerToken auth) s) eqn:Ev; [by right|by left].
Qed.

Lemma handle_Inv r s : Inv s -> Inv (fst (handle r s)).
Proof.
  intros HI. destruct r as [auth body now token|auth n|auth n]; cbn [handle].
  - destruct (post_peers_state auth body now token s) as [->|(_ & _ & i & _ & ->)]; auto using upsert_Inv.
  - by rewrite get_peers_state.
  - destruct (delete_peers_state auth n s) as [->|[_ ->]]; auto using remove_Inv.
Qed.

Lemma run_Inv rs s : Inv s -> Inv (run rs s).
Proof. revert s. induction rs as [|r rs IH]; intros s HI; [done|]. apply IH, handle_Inv, HI. Qed.

Lemma new_db_Inv : Inv new_db.
Proof. split; cbn; [constructor|constructor|lia|]. intros p Hp. by apply not_elem_of_nil in Hp. Qed.

Lemma mutual_filter_exn self n others e : mutual_filter self n others = Err e -> e = InvalidRegExp.
Proof.
  assert (Hany : forall ps m e, matchesAny ps m = Err e -> e = InvalidRegExp).
  { intros ps m. induction ps as [|p ps IH]; intros e'; cbn; [done|]. unfold matchesAny_one.
    destruct (Glob.compile p); cbn; [|congruence]. destruct (Glob.matches _ _); [done|apply IH]. }
  induction others as [|o others IH]; cbn; [done|]. unfold mutual.
  destruct (matchesAny (mesh_peer_patterns self) (name o)) as [b|e'] eqn:E1; cbn; [|intros [= <-]; eauto].
  destruct b; cbn.
  - destruct (matchesAny (mesh_peer_patterns o) n) as [b|e'] eqn:E2; cbn; [|intros [= <-]; eauto].
    destruct (mutual_filter self n others); cbn; [done|]. intros [= <-]. auto.
  - destruct (mutual_filter self n others); cbn; [done|]. intros [= <-]. auto.
Qed.

Lemma mutualPeersFor_exn n s e : mutualPeersFor n s = Err e -> e = InvalidRegExp.
Proof. unfold mutualPeersFor. destruct (get n s); [|done]. apply mutual_filter_exn. Qed.

(** Whatever requests arrive, names and mesh addresses stay unique, every
    address comes from the counter, and no insertion ever violates a constraint
    of the table. *)
Theorem mesh_invariant rs r :
  let s := run rs new_db in
  NoDup (map name (peers s)) /\ NoDup (map mesh_ip (peers s)) /\
  (forall p, p ∈ peers s -> exists k, (0 <= k < next_seq s)%Z /\ mesh_ip p = ipFromSequence k) /\
  snd (handle r s) <> InternalError ConstraintViolation.
Proof.
  cbn zeta. pose proof (run_Inv rs _ new_db_Inv) as HI. set (s := run rs new_db) in *.
  split_and!; [apply HI..|].
  destruct r as [auth body now token|auth n|auth n]; cbn [handle].
  - unfold post_peers. destruct (negb _); [done|]. destruct (_ || _); [done|]. destruct (_ && _); [done|].
    set (i := {| i_name := _ |}). destruct (upsert_ok i token s HI) as [[r o] Er].
    destruct (upsert i token s) as [s' res]. cbn in Er. subst res.
    destruct (mutualPeersFor (b_name body) s') eqn:Em; [done|]. cbn.
    apply mutualPeersFor_exn in Em as ->. done.
  - unfold get_peers. destruct n as [[|c n]|]; [done| |done]. destruct (negb _); [done|]. destruct (negb _); [done|].
    destruct (mutualPeersFor _ s) eqn:Em; [done|]. apply mutualPeersFor_exn in Em as ->. done.
  - unfold delete_peers. destruct (negb _); [done|]. by destruct (negb _).
Qed.

(** ** Who may change a registration *)

Definition auth_of (r : request) : option string :=
  match r with PostPeers a _ _ _ | GetPeers a _ | DeletePeers a _ => a end.
Definition target (r : request) : option string :=
  match r with PostPeers _ b _ _ => Some (b_name b) | GetPeers _ n => n | DeletePeers _ n => Some n end.

Lemma verifyToken_spec n token s p :
  get n s = Some p -> verifyToken n token s = true -> exists t, token = Some t /\ H t = owner_token_hash p.
Proof.
  unfold verifyToken. intros ->. cbn. destruct token as [t|]; [|done]. rewrite !andb_true_iff.
  intros [_ E]. apply String.eqb_eq in E. eauto.
Qed.

Lemma get_map n i s :
  get n {| peers := map (fun p => if String.eqb (name p) (i_name i) then updated i p else p) (peers s);
           next_seq := next_seq s |}
  = (fun p => if String.eqb (name p) (i_name i) then updated i p else p) <$> get n s.
Proof.
  unfold get. cbn [peers]. induction (peers s) as [|p ps IH]; [done|]. cbn.
  destruct (String.eqb_spec (name p) (i_name i)) as [E|E]; cbn.
  - destruct (String.eqb_spec (name p) n); [|done]. cbn. by destruct (String.eqb_spec (name p) (i_name i)).
  - destruct (String.eqb_spec (name p) n); [|done]. cbn. by destruct (String.eqb_spec (name p) (i_name i)).
Qed.

Lemma find_app {A} (f : A -> bool) l k : List.find f l = None -> List.find f (l ++ k) = List.find f k.
Proof. induction l as [|a l IH]; cbn; [done|]. destruct (f a); [done|]. apply IH. Qed.

Lemma find_app_Some {A} (f : A -> bool) l k a : List.find f l = Some a -> List.find f (l ++ k) = Some a.
Proof. induction l as [|b l IH]; cbn; [done|]. destruct (f b); [done|]. apply IH. Qed.

Lemma get_upsert n i token s p :
  get n s = Some p ->
  get n (fst (upsert i token s)) = Some (if String.eqb n (i_name i) then updated i p else p).
Proof.
  intros Hp. pose proof (mesh_get_Some _ _ _ Hp) as [_ Hn]. unfold upsert.
  destruct (get (i_name i) s) as [q|] eqn:E; cbn zeta; cbn [fst].
  - rewrite get_map, Hp. cbn. by rewrite Hn.
  - destruct (String.eqb_spec n (i_name i)) as [->|Hne]; [congruence|].
    cbn. destruct (insert_row _ _) as [s2|] eqn:Ei; [|done]. unfold insert_row in Ei.
    destruct (existsb _ _); [done|]. injection Ei as <-. cbn. by apply find_app_Some.
Qed.

Lemma get_remove n m s p : get n s = Some p -> n <> m -> get n (remove m s) = Some p.
Proof.
  unfold get, remove. cbn. intros Hp Hne. induction (peers s) as [|q ps IH]; [done|]. cbn in *.
  destruct (String.eqb_spec (name q) n) as [E|E].
  - injection Hp as ->. destruct (String.eqb_spec (name p) m); [congruence|]. cbn.
    by rewrite E, String.eqb_refl.
  - destruct (String.eqb (name q) m); cbn; [by apply IH|].
    destruct (String.eqb_spec (name q) n); [done|]. by apply IH.
Qed.

(** [C30] Only the holder of a peer's owner token changes or removes its
    registration: a request leaves the row as it is, or it names that peer and
    carries a token with the stored hash; and even then the row keeps its
    address and its token until it is removed. *)
Theorem mesh_ownership r s n p :
  get n s = Some p ->
  let s' := fst (handle r s) in
  get n s' = Some p \/
  (target r = Some n /\
   (exists t, bearerToken (auth_of r) = Some t /\ H t = owner_token_hash p) /\
   forall p', get n s' = Some p' ->
     mesh_ip p' = mesh_ip p /\ owner_token_hash p' = owner_token_hash p).
Proof.
  intros Hp. cbn zeta. destruct r as [auth body now token|auth m|auth m]; cbn [handle auth_of target].
  - destruct (post_peers_state auth body now token s) as [->|(_ & Hv & i & Hi & ->)]; [by left|].
    rewrite (get_upsert _ _ _ _ _ Hp), Hi. destruct (String.eqb_spec n (b_name body)) as [->|]; [right|by left].
    assert (Hex : exists_ (b_name body) s = true) by (unfold exists_; by rewrite Hp).
    split_and!; [done|by eapply verifyToken_spec; eauto|]. by intros p' [= <-].
  - left. by rewrite get_peers_state.
  - destruct (delete_peers_state auth m s) as [->|[Hv ->]]; [by left|].
    destruct (decide (n = m)) as [->|Hne]; [right|left; by apply get_remove].
    split_and!; [done|by eapply verifyToken_spec; eauto|]. intros p' Hp'. exfalso.
    apply mesh_get_Some in Hp' as [Hp' Hn]. cbn in Hp'. apply list_elem_of_In, filter_In in Hp' as [_ Hp'].
    by rewrite Hn, String.eqb_refl in Hp'.
Qed.

(** ** Addresses are not used twice *)

Lemma next_seq_mono r s : (next_seq s <= next_seq (fst (handle r s)))%Z.
Proof.
  destruct r as [auth body now token|auth m|auth m]; cbn [handle].
  - destruct (post_peers_state auth body now token s) as [->|(_ & _ & i & _ & ->)]; [lia|].
    unfold upsert. destruct (get _ s); cbn; [lia|]. destruct (insert_row _ _) as [s2|] eqn:Ei; cbn; [|lia].
    unfold insert_row in Ei. destruct (existsb _ _); [done|]. injection Ei as <-. cbn. lia.
  - rewrite get_peers_state. lia.
  - destruct (delete_peers_state auth m s) as [->|[_ ->]]; cbn; lia.
Qed.

Lemma run_seq_mono rs s : (next_seq s <= next_seq (run rs s))%Z.
Proof.
  revert s. induction rs as [|r rs IH]; intros s; [cbn; lia|].
  etransitivity; [apply (next_seq_mono r)|apply IH].
Qed.

Lemma registered_fresh r s s' ip token ps :
  handle r s = (s', Registered 201 ip token ps) ->
  ip = ipFromSequence (next_seq s) /\ next_seq s' = (next_seq s + 1)%Z.
Proof.
  destruct r as [auth body now tok|auth m|auth m]; cbn [handle]; intros E.
  - unfold post_peers in E. destruct (negb _); [done|]. destruct (_ || _); [done|]. destruct (_ && _); [done|].
    unfold upsert in E. cbn [i_name] in E. destruct (get (b_name body) s) as [p|] eqn:Eg.
    + exfalso. cbn zeta in E. destruct (get (b_name body) _) in E; cbn in E;
        destruct (mutualPeersFor _ _) in E; by simplify_eq.
    + cbn in E. destruct (insert_row _ _) as [s2|] eqn:Ei; [|done].
      unfold insert_row in Ei. destruct (existsb _ _); [done|]. injection Ei as <-. cbn in E.
      destruct (mutualPeersFor _ _) in E; [|done]. by simplify_eq.
  - exfalso. unfold get_peers in E. destruct m as [[|c m]|]; try done.
    destruct (negb _); [done|]. destruct (negb _); [done|]. by destruct (mutualPeersFor _ _).
  - exfalso. unfold delete_peers in E. destruct (negb _); [done|]. by destruct (negb _).
Qed.

(** A mesh address is handed out once for the life of the database: two
    registrations, at any distance and whatever was removed in between, get
    different addresses; and an address is inside 100.64.0.0/10 exactly as
    long as fewer than 64 * 65536 - 2 registrations came before it. *)
Theorem mesh_no_reuse s0 before r1 between r2 s1 s2 ip1 ip2 t1 t2 ps1 ps2 :
  (0 <= next_seq s0)%Z ->
  handle r1 (run before s0) = (s1, Registered 201 ip1 t1 ps1) ->
  handle r2 (run between s1) = (s2, Registered 201 ip2 t2 ps2) ->
  ip1 <> ip2 /\ (in_range ip2 <-> (next_seq (run between s1) + 2 < 64 * 65536)%Z).
Proof.
  intros H0 E1 E2. apply registered_fresh in E1 as [-> Hs1]. apply registered_fresh in E2 as [-> _].
  pose proof (run_seq_mono before s0). pose proof (run_seq_mono between s1). split.
  - intros E. apply ipFromSequence_inj in E; lia.
  - apply ip_in_range. lia.
Qed.

(** ** Who sees whom *)

Lemma mutual_filter_spec self n others vs :
  mutual_filter self n others = Ok vs ->
  forall o, o ∈ others -> exists b, mutual self n o = Ok b.
Proof.
  revert vs. induction others as [|x others IH]; cbn; intros vs E o Ho; [by apply not_elem_of_nil in Ho|].
  destruct (mutual self n x) as [b|] eqn:Em; [|done]. cbn in E.
  destruct (mutual_filter self n others) as [rest|] eqn:Er; [|done].
  apply elem_of_cons in Ho as [->|Ho]; eauto.
Qed.

Lemma mutual_filter_elem self n others vs v :
  mutual_filter self n others = Ok vs ->
  v ∈ vs <-> exists o, o ∈ others /\ mutual self n o = Ok true /\ v = view o.
Proof.
  revert vs. induction others as [|x others IH]; cbn; intros vs E.
  - injection E as <-. split; [by intros ?%not_elem_of_nil|]. by intros (o & ?%not_elem_of_nil & _).
  - destruct (mutual self n x) as [b|] eqn:Em; [|done]. cbn in E.
    destruct (mutual_filter self n others) as [rest|] eqn:Er; [|done]. cbn in E. injection E as <-.
    specialize (IH rest eq_refl). split.
    + intros Hv. destruct b; [apply elem_of_cons in Hv as [->|Hv]|].
      * exists x. split_and!; [left|done|done].
      * apply IH in Hv as (o & ? & ? & ?). exists o. split_and!; [by right|done|done].
      * apply IH in Hv as (o & ? & ? & ?). exists o. split_and!; [by right|done|done].
    + intros (o & Ho & Ht & ->). apply elem_of_cons in Ho as [->|Ho].
      * rewrite Ht in Em. injection Em as <-. left.
      * destruct b; [right|]; apply IH; eauto.
Qed.

Lemma mutual_true self n o :
  mutual self n o = Ok true <->
  matchesAny (mesh_peer_patterns self) (name o) = Ok true /\ matchesAny (mesh_peer_patterns o) n = Ok true.
Proof.
  unfold mutual. destruct (matchesAny (mesh_peer_patterns self) (name o)) as [[]|]; cbn; intuition congruence.
Qed.

Lemma view_inj s p q : NoDup (map name (peers s)) -> p ∈ peers s -> q ∈ peers s -> view p = view q -> p = q.
Proof.
  intros Hnd Hp Hq E. apply (f_equal v_name) in E. cbn in E.
  apply get_unique in Hp; [|done]. apply get_unique in Hq; [|done]. congruence.
Qed.

Lemma mutualPeersFor_elem s p q vs :
  NoDup (map name (peers s)) -> p ∈ peers s -> q ∈ peers s -> p <> q ->
  mutualPeersFor (name p) s = Ok vs ->
  view q ∈ vs <-> matchesAny (mesh_peer_patterns p) (name q) = Ok true /\
                  matchesAny (mesh_peer_patterns q) (name p) = Ok true.
Proof.
  intros Hnd Hp Hq Hne E. unfold mutualPeersFor in E. rewrite (get_unique s p Hnd Hp) in E.
  rewrite (mutual_filter_elem _ _ _ _ (view q) E). rewrite <- mutual_true. split.
  - intros (o & Ho & Ht & Ev). apply list_elem_of_In, filter_In in Ho as [Ho _]. apply list_elem_of_In in Ho.
    by rewrite (view_inj s q o Hnd Hq Ho Ev).
  - intros Ht. exists q. split_and!; [|done|done]. apply list_elem_of_In, filter_In.
    split; [by apply list_elem_of_In|]. apply negb_true_iff, String.eqb_neq. intros En.
    apply Hne. apply get_unique in Hp; [|done]. apply get_unique in Hq; [|done]. congruence.
Qed.

(** Visibility is mutual: a peer is told about another one exactly when
    each of the two declared a pattern that matches the other's name, so what
    one side learns the other side learns too. *)
Theorem mesh_mutual s p q vs ws :
  Inv s -> p ∈ peers s -> q ∈ peers s -> p <> q ->
  mutualPeersFor (name p) s = Ok vs -> mutualPeersFor (name q) s = Ok ws ->
  (view q ∈ vs <-> matchesAny (mesh_peer_patterns p) (name q) = Ok true /\
                   matchesAny (mesh_peer_patterns q) (name p) = Ok true) /\
  (view q ∈ vs <-> view p ∈ ws).
Proof.
  intros HI Hp Hq Hne Ep Eq. pose proof (inv_names _ HI) as Hnd.
  rewrite (mutualPeersFor_elem s p q vs), (mutualPeersFor_elem s q p ws) by auto. tauto.
Qed.

(** ** One peer's pattern can fail everybody's requests *)

(** A registered peer whose first pattern is not a valid regular expression
    once translated (a leading question mark is enough) makes every request of
    a peer whose own patterns match it fail with a server error. *)
Theorem mesh_poisoned_pattern s n self evil pat rest auth :
  get n s = Some self -> n <> "" -> verifyToken n (bearerToken auth) s = true ->
  evil ∈ peers s -> name evil <> n ->
  matchesAny (mesh_peer_patterns self) (name evil) = Ok true ->
  mesh_peer_patterns evil = pat :: rest -> Glob.compile pat = Err Glob.NothingToRepeat ->
  snd (handle (GetPeers auth (Some n)) s) = InternalError InvalidRegExp.
Proof.
  intros Hs Hn Hv He Hne Hm Hpat Hc.
  assert (Hf : exists e, mutualPeersFor n s = Err e).
  { unfold mutualPeersFor. rewrite Hs. set (others := List.filter _ _).
    assert (Ho : evil ∈ others).
    { apply list_elem_of_In, filter_In. split; [by apply list_elem_of_In|].
      by apply negb_true_iff, String.eqb_neq. }
    destruct (mutual_filter self n others) as [vs|e] eqn:E; [|eauto]. exfalso.
    destruct (mutual_filter_spec _ _ _ _ E _ Ho) as [b Hb]. unfold mutual in Hb. rewrite Hm in Hb.
    cbn in Hb. rewrite Hpat in Hb. cbn in Hb. unfold matchesAny_one in Hb. by rewrite Hc in Hb. }
  destruct Hf as [e Hf]. cbn [handle]. unfold get_peers. destruct n as [|c n]; [done|].
  unfold exists_. rewrite Hs, Hv, Hf. cbn. by apply mutualPeersFor_exn in Hf as ->.
Qed.

End coordinator.

(** ** Witnesses *)

Definition toy_token_hash (t : string) : string := "h" +:+ t.
Definition ex_body (n : string) (patterns : list string) : RegisterBody :=
  {| b_name := n; b_publicKey := "key"; b_endpointHost := "10.0.0.1";
     b_endpointPort := JsNumber.of_Z 51820; b_meshPeerPatterns := Some patterns |}.
Definition ex_post (n token : string) (patterns : list string) : request :=
  PostPeers None (ex_body n patterns) "now" token.
Definition ex_db : db := run toy_token_hash [ex_post "planner" "t1" ["*"]; ex_post "browser" "t2" ["plan*"]] new_db.

Lemma mesh_ownership_witness :
  get "planner" (fst (handle toy_token_hash (ex_post "planner" "stolen" []) ex_db)) = get "planner" ex_db.
Proof.
  destruct (get "planner" ex_db) as [p|] eqn:E; [|vm_compute in E; discriminate E].
  destruct (mesh_ownership toy_token_hash (ex_post "planner" "stolen" []) ex_db "planner" p E)
    as [Hsame|(_ & (t & Ht & _) & _)].
  - exact Hsame.
  - discriminate Ht.
Defined.

Lemma mesh_no_reuse_witness :
  exists s1 s2 t1 t2 ps1 ps2,
    handle toy_token_hash (ex_post "a" "t1" []) (run toy_token_hash [] new_db)
      = (s1, Registered 201 "100.64.0.2" t1 ps1) /\
    handle toy_token_hash (ex_post "b" "t2" []) (run toy_token_hash [DeletePeers (Some "Bearer t1") "a"] s1)
      = (s2, Registered 201 "100.64.0.3" t2 ps2) /\ "100.64.0.2" <> "100.64.0.3".
Proof.
  eexists _, _, _, _, _, _. split; [vm_compute; reflexivity|]. split; [vm_compute; reflexivity|].
  refine (proj1 (mesh_no_reuse toy_token_hash new_db [] (ex_post "a" "t1" [])
    [DeletePeers (Some "Bearer t1") "a"] (ex_post "b" "t2" []) _ _ _ _ _ _ _ _ _ _ _)).
  - vm_compute. discriminate.
  - vm_compute. reflexivity.
  - vm_compute. reflexivity.
Defined.

Lemma mesh_mutual_witness :
  exists p q vs ws, mutualPeersFor "planner" ex_db = Ok vs /\ mutualPeersFor "browser" ex_db = Ok ws /\
    get "planner" ex_db = Some p /\ get "browser" ex_db = Some q /\ (view q ∈ vs <-> view p ∈ ws).
Proof.
  destruct (get "planner" ex_db) as [p|] eqn:Ep; [|vm_compute in Ep; discriminate Ep].
  destruct (get "browser" ex_db) as [q|] eqn:Eq; [|vm_compute in Eq; discriminate Eq].
  destruct (mutualPeersFor "planner" ex_db) as [vs|] eqn:Ev; [|vm_compute in Ev; discriminate Ev].
  destruct (mutualPeersFor "browser" ex_db) as [ws|] eqn:Ew; [|vm_compute in Ew; discriminate Ew].
  exists p, q, vs, ws. split; [reflexivity|]. split; [reflexivity|]. split; [reflexivity|]. split; [reflexivity|].
  destruct (mesh_get_Some _ _ _ Ep) as [Hp Hnp]. destruct (mesh_get_Some _ _ _ Eq) as [Hq Hnq].
  refine (proj2 (mesh_mutual toy_token_hash ex_db p q vs ws _ Hp Hq _ _ _)).
  - apply run_Inv, new_db_Inv.
  - intros ->. rewrite Hnp in Hnq. discriminate Hnq.
  - rewrite Hnp. exact Ev.
  - rewrite Hnq. exact Ew.
Defined.

(** A stranger registers with the pattern ["?"]; the planner's requests now fail. *)
Lemma mesh_poisoned_pattern_witness :
  snd (handle toy_token_hash (GetPeers (Some "Bearer t1") (Some "planner"))
    (run toy_token_hash [ex_post "evil" "t3" ["?"]] ex_db)) = InternalError InvalidRegExp.
Proof.
  set (s := run toy_token_hash [ex_post "evil" "t3" ["?"]] ex_db).
  destruct (get "planner" s) as [self|] eqn:Es; [|vm_compute in Es; discriminate Es].
  destruct (get "evil" s) as [evil|] eqn:Ee; [|vm_compute in Ee; discriminate Ee].
  destruct (mesh_get_Some _ _ _ Ee) as [He Hne].
  apply (mesh_poisoned_pattern toy_token_hash s "planner" self evil "?" []).
  - exact Es.
  - discriminate.
  - vm_compute. reflexivity.
  - exact He.
  - rewrite Hne. discriminate.
  - rewrite Hne. revert Es. vm_compute. intros [= <-]. reflexivity.
  - revert Ee. vm_compute. intros [= <-]. reflexivity.
  - vm_compute. reflexivity.
Defined.

End Mesh.
