(* ===== verification/Manifest.v ===== *)
(** * Manifests: versions, migrations, validation and resource limits
    (packages/manifest-schema/src/{schema,validate,migrations,resources}.ts)

    The shape of a manifest is checked by zod: that check is a parameter
    ([parse_shape]), with the patterns the schema gives it as predicates here.
    What the package itself decides is modelled: which schema version a file is
    read as, the migrations, the semantic checks ([superRefine]), the errors,
    and the cgroup arithmetic. *)
From S2P Require Import Prelude JsNumber Capability.

Module Manifest.
Import JsNumber Capability.

(** A parsed YAML document. *)
Inductive raw : Type :=
| RUndef
| RNull
| RBool (b : bool)
| RNum (n : jsnum)
| RStr (s : string)
| RArr (l : list raw)
| RObj (o : list (string * raw)).

(** ** The manifest type *)

Inductive JsonPrimitiveType := TString | TNumber | TBoolean | TObject | TArray.
Abbreviation IOSpec := (list (string * JsonPrimitiveType)).
Record ExportSpec := { e_name : string; e_input : option IOSpec; e_output : option IOSpec }.
Record ExposeSpec := { x_browser : bool; x_terminal : bool; x_preview : bool }.
Record GovernanceSpec := { exempt : bool }.
Record ResourcesSpec := {
  r_cpu : option jsnum;
  r_memory_mb : option jsnum;
  r_gpu : option jsnum;
  r_pids : option jsnum
}.
Inductive Runtime := Node | Python.

Record BerthManifest := {
  m_name : string;
  m_version : string;
  m_description : string;
  m_runtime : Runtime;
  m_capabilities : list string;
  m_exports : list ExportSpec;
  m_on_install : list string;
  m_on_agent_ready : list string;
  m_expose : ExposeSpec;
  m_governs : bool;
  m_governance : GovernanceSpec;
  m_resources : ResourcesSpec;
  m_secrets : list string
}.

(** [/^[a-z0-9-]+$/] *)
Definition name_ok (s : string) : bool :=
  nonempty s && Str.all (fun c => Str.is_lower c || Str.is_digit c || Ascii.eqb c "-") s.

(** [/^\d+\.\d+\.\d+$/] *)
Definition version_ok (s : string) : bool :=
  match Str.split "." s with
  | [a; b; c] => forallb (fun w => nonempty w && Str.all Str.is_digit w) [a; b; c]
  | _ => false
  end.

(** [/^[A-Za-z_][A-Za-z0-9_]*$/] *)
Definition env_start (c : ascii) : bool := Str.is_lower c || Str.is_upper c || Ascii.eqb c "_".
Definition env_char (c : ascii) : bool := env_start c || Str.is_digit c.
Definition env_name_ok (s : string) : bool :=
  match s with String c r => env_start c && Str.all env_char r | EmptyString => false end.

(** ** Issues and errors *)

Inductive path_item := PKey (k : string) | PIndex (i : nat).

Inductive issue_message : Type :=
| ZodMessage (s : string)
| CapabilityMessage (i : issue)
| EmptyCommand
| NulInCommand
| GovernsWithoutExport.

Record ManifestIssue := { i_message : issue_message; i_path : list path_item }.

Inductive manifest_error : Type :=
| TypeError (* a member of null or undefined was read *)
| BadSchemaVersion (declared : raw)
| SchemaTooNew (declared : jsnum)
| NoMigration (from : Z)
| ValidationError (issues : list ManifestIssue).

(** ** Migrations *)

Definition CURRENT_SCHEMA_VERSION : Z := 1.

(** [raw.k] *)
Definition member (k : string) (v : raw) : option raw :=
  match v with
  | RUndef | RNull => None
  | RObj o => Some (or_default RUndef (JsMap.get k o))
  | _ => Some RUndef
  end.

(** [{ ...raw, k: v }] *)
Definition with_member (k : string) (v : raw) (r : raw) : raw :=
  match r with RObj o => RObj (JsMap.put k v o) | _ => RObj [(k, v)] end.

Definition migration_0 (r : raw) : raw :=
  match member "expose" r with
  | Some (RBool exposeEverything) =>
      with_member "expose" (RObj [("browser", RBool exposeEverything);
                                  ("terminal", RBool exposeEverything); ("preview", RBool false)]) r
  | _ => r
  end.

Definition MIGRATIONS (v : Z) : option (raw -> raw) := if (v =? 0)%Z then Some migration_0 else None.

Fixpoint migrate_from (fuel : nat) (v : Z) (migrated : raw) : result manifest_error raw :=
  match fuel with
  | O => Ok migrated
  | S fuel' =>
      match MIGRATIONS v with
      | None => Err (NoMigration v)
      | Some migration => migrate_from fuel' (v + 1) (migration migrated)
      end
  end.

(** The loop runs [CURRENT_SCHEMA_VERSION - declaredVersion] times. *)
Definition migrateToCurrent (r : raw) (declaredVersion : Z) : result manifest_error raw :=
  migrate_from (Z.to_nat (CURRENT_SCHEMA_VERSION - declaredVersion)) declaredVersion r.

Definition resolveSchemaVersion (r : raw) : result manifest_error raw :=
  match member "schema_version" r with
  | None => Err TypeError
  | Some RUndef => Ok r
  | Some (RNum n) =>
      match to_integer n with
      | None => Err (BadSchemaVersion (RNum n))
      | Some declared =>
          if (declared <? 0)%Z then Err (BadSchemaVersion (RNum n))
          else if (CURRENT_SCHEMA_VERSION <? declared)%Z then Err (SchemaTooNew n)
          else if (declared =? CURRENT_SCHEMA_VERSION)%Z then Ok r
          else migrateToCurrent r declared
      end
  | Some declared => Err (BadSchemaVersion declared)
  end.

(** ** [superRefine] *)

Definition capability_issues (m : BerthManifest) : list ManifestIssue :=
  mjoin (imap (fun index capability =>
    match capabilityIssue capability with
    | Some i => [{| i_message := CapabilityMessage i; i_path := [PKey "capabilities"; PIndex index] |}]
    | None => []
    end) (m_capabilities m)).

Definition command_issues (m : BerthManifest) : list ManifestIssue :=
  mjoin (imap (fun index command =>
    if String.eqb (Str.trim command) ""
    then [{| i_message := EmptyCommand; i_path := [PKey "on_install"; PIndex index] |}]
    else if Str.any (Ascii.eqb "000") command
    then [{| i_message := NulInCommand; i_path := [PKey "on_install"; PIndex index] |}]
    else []) (m_on_install m)).

Definition governs_issues (m : BerthManifest) : list ManifestIssue :=
  if m_governs m && negb (existsb (fun e => String.eqb (e_name e) "evaluate_action") (m_exports m))
  then [{| i_message := GovernsWithoutExport; i_path := [PKey "governs"] |}]
  else [].

Definition superRefine (m : BerthManifest) : list ManifestIssue :=
  capability_issues m ++ command_issues m ++ governs_issues m.

Section validate.
Context (parse_shape : raw -> result (list ManifestIssue) BerthManifest).

(** [BerthManifestSchema.safeParse]: the refinement runs on a well-shaped object. *)
Definition safeParse (r : raw) : result (list ManifestIssue) BerthManifest :=
  let? m := parse_shape r in
  match superRefine m with [] => Ok m | issues => Err issues end.

Definition validateManifest (obj : raw) : result manifest_error BerthManifest :=
  let? migrated := resolveSchemaVersion obj in
  match safeParse migrated with
  | Ok m => Ok m
  | Err issues => Err (ValidationError issues)
  end.

(** ** Lemmas *)

Lemma mjoin_imap_nil {A} (f : nat -> A -> list ManifestIssue) l :
  mjoin (imap f l) = [] <-> forall i x, l !! i = Some x -> f i x = [].
Proof.
  revert f. induction l as [|y l IH]; intros f; cbn.
  - split; [|done]. intros _ i x. by rewrite lookup_nil.
  - split.
    + intros [H1 H2]%app_eq_nil i x Hi. destruct i as [|i]; cbn in Hi; [by simplify_eq|].
      by apply (proj1 (IH _) H2 i x).
    + intros Hf. rewrite (Hf 0 y eq_refl). apply IH. intros i x Hi. by apply (Hf (S i)).
Qed.

(** What the semantic checks ask of a manifest. *)
Definition semantically_valid (m : BerthManifest) : Prop :=
  Forall (fun c => capabilityIssue c = None) (m_capabilities m) /\
  Forall (fun c => Str.trim c <> "" /\ Str.any (Ascii.eqb "000") c = false) (m_on_install m) /\
  (m_governs m = true -> exists e, e ∈ m_exports m /\ e_name e = "evaluate_action").

Lemma superRefine_spec m : superRefine m = [] <-> semantically_valid m.
Proof.
  unfold superRefine, semantically_valid, capability_issues, command_issues, governs_issues.
  assert (Happ : forall A (l k : list A), l ++ k = [] <-> l = [] /\ k = []).
  { intros A l k. split; [apply app_eq_nil|by intros [-> ->]]. }
  rewrite !Happ, !mjoin_imap_nil, !Forall_lookup.
  assert (H1 : forall i c, (match capabilityIssue c with
      | Some i0 => [{| i_message := CapabilityMessage i0; i_path := [PKey "capabilities"; PIndex i] |}]
      | None => [] end) = [] <-> capabilityIssue c = None) by (intros; destruct (capabilityIssue c); split; congruence).
  assert (H2 : forall i c, (if String.eqb (Str.trim c) "" then [{| i_message := EmptyCommand; i_path := [PKey "on_install"; PIndex i] |}]
      else if Str.any (Ascii.eqb "000") c then [{| i_message := NulInCommand; i_path := [PKey "on_install"; PIndex i] |}]
      else []) = [] <-> Str.trim c <> "" /\ Str.any (Ascii.eqb "000") c = false).
  { intros i c. destruct (String.eqb_spec (Str.trim c) ""); [intuition done|].
    destruct (Str.any _ c); intuition done. }
  assert (H3 : (if m_governs m && negb (existsb (fun e => String.eqb (e_name e) "evaluate_action") (m_exports m))
      then [{| i_message := GovernsWithoutExport; i_path := [PKey "governs"] |}] else []) = [] <->
      (m_governs m = true -> exists e, e ∈ m_exports m /\ e_name e = "evaluate_action")).
  { destruct (m_governs m); cbn; [|intuition done].
    destruct (existsb _ _) eqn:E; cbn.
    - apply existsb_exists in E as (e & He & En). apply list_elem_of_In in He. apply String.eqb_eq in En. split; eauto.
    - split; [done|]. intros Hx. destruct (Hx eq_refl) as (e & He & En). exfalso.
      assert (existsb (fun e => String.eqb (e_name e) "evaluate_action") (m_exports m) = true); [|congruence].
      apply existsb_exists. exists e. split; [by apply list_elem_of_In|by apply String.eqb_eq]. }
  rewrite H3. setoid_rewrite H1. setoid_rewrite H2. done.
Qed.

(** A manifest is accepted exactly when it is declared for a version this
    package can read (none, the current one, or an older one it can migrate),
    the migrated file has the schema's shape, every capability is one of the
    grants the grammar and scope rules allow, every install command is a real
    command, and a governing app has its evaluate_action export; a file
    declared for a newer version is never read as the current shape. *)
Theorem validateManifest_spec obj m :
  (validateManifest obj = Ok m <->
     exists migrated, resolveSchemaVersion obj = Ok migrated /\
       parse_shape migrated = Ok m /\ semantically_valid m) /\
  (forall n declared, member "schema_version" obj = Some (RNum n) -> to_integer n = Some declared ->
     (CURRENT_SCHEMA_VERSION < declared)%Z -> validateManifest obj = Err (SchemaTooNew n)) /\
  (member "schema_version" obj = Some RUndef -> resolveSchemaVersion obj = Ok obj).
Proof.
  split_and!.
  - unfold validateManifest, safeParse. destruct (resolveSchemaVersion obj) as [r|e]; cbn.
    + destruct (parse_shape r) as [m'|e] eqn:Ep; cbn.
      * pose proof (superRefine_spec m') as Hs. destruct (superRefine m') as [|i l].
        -- split; [intros [= ->]|]; [exists r; split_and!; [done|done|by apply Hs]|].
           intros (? & [= <-] & ? & _). congruence.
        -- split; [done|]. intros (? & [= <-] & E & Hv). assert (m = m') as -> by congruence. by apply Hs in Hv.
      * split; [done|]. intros (? & [= <-] & ? & _). congruence.
    + split; [done|]. by intros (? & ? & _).
  - intros n d Hm Hn Hlt. unfold validateManifest, resolveSchemaVersion. rewrite Hm, Hn.
    destruct (Z.ltb_spec d 0); [unfold CURRENT_SCHEMA_VERSION in *; lia|].
    apply Z.ltb_lt in Hlt as ->. done.
  - intros Hm. unfold resolveSchemaVersion. by rewrite Hm.
Qed.

End validate.
End Manifest.
