(* ===== verification/Resources.v ===== *)
(** * Resource limits (packages/manifest-schema/src/resources.ts)

    The cgroup files of one app, and the container-level limits around several,
    with JavaScript's number arithmetic. A value written to a cgroup file is
    kept as the number that is printed, or as literal text. *)
From S2P Require Import Prelude JsNumber Manifest.

Module Resources.
Import JsNumber Manifest.

Definition CPU_PERIOD_US : jsnum := of_Z 100000.
Definition MIN_CPU_QUOTA_US : Z := 1000.
Definition DEFAULT_APP_PIDS : jsnum := of_Z 1024.
Definition DEFAULT_APP_CPU_WEIGHT : jsnum := of_Z 100.
Definition half : jsnum := Fin 1 (-1).

Record reserve := { res_cpu : jsnum; res_memoryMb : jsnum; res_pids : jsnum }.
Definition DAEMON_RESERVE : reserve :=
  {| res_cpu := half; res_memoryMb := of_Z 256; res_pids := of_Z 1024 |}.
Definition DAEMON_CPU_WEIGHT : jsnum := of_Z 1000.

Inductive limit : Type :=
| Printed (n : jsnum) (* String(n) *)
| Quota (quota period : jsnum) (* "<quota> <period>" *)
| Text (s : string).

Definition jfloor (x : jsnum) : jsnum :=
  match x with Fin m e => of_Z (floor m e) | _ => x end.

(** [Math.max(a, b)] with [a] an integer constant. *)
Definition max_const (a : Z) (b : jsnum) : jsnum :=
  match b with
  | NaN => NaN
  | Inf true => of_Z a
  | Inf false => Inf false
  | Fin m e => if (a <? floor m e)%Z || ((a =? floor m e)%Z) then b else of_Z a
  end.

Definition cpu_quota (cpu : jsnum) : jsnum :=
  max_const MIN_CPU_QUOTA_US (jfloor (add (mul cpu CPU_PERIOD_US) half)).

Definition appCgroupLimits (resources : ResourcesSpec) : list (string * limit) :=
  [("cpu.weight", Printed DEFAULT_APP_CPU_WEIGHT)]
  ++ match r_cpu resources with
     | Some cpu => [("cpu.max", Quota (cpu_quota cpu) CPU_PERIOD_US)]
     | None => []
     end
  ++ match r_memory_mb resources with
     | Some mb => [("memory.max", Printed (mul (mul mb (of_Z 1024)) (of_Z 1024)));
                   ("memory.swap.max", Text "0")]
     | None => []
     end
  ++ [("pids.max", Printed (or_default DEFAULT_APP_PIDS (r_pids resources)))].

Record SandboxResources := {
  s_cpu : option jsnum;
  s_memoryMb : option jsnum;
  s_pids : jsnum;
  s_gpu : option jsnum
}.

Definition sum (values : list jsnum) : jsnum := foldl add (of_Z 0) values.

(** [apps.length > 0 && apps.every(...)], with the values. *)
Definition all_declared (key : ResourcesSpec -> option jsnum) (apps : list ResourcesSpec) : option (list jsnum) :=
  match apps with [] => None | _ => mapM key apps end.

(** [Math.max(a, b)] on the positive integers a manifest holds. *)
Definition max_int (a b : jsnum) : jsnum :=
  match to_integer a, to_integer b with
  | Some x, Some y => if (x <? y)%Z then b else a
  | _, _ => NaN
  end.

Fixpoint max_gpu (acc : option jsnum) (apps : list ResourcesSpec) : option jsnum :=
  match apps with
  | [] => acc
  | a :: apps' =>
      max_gpu (match r_gpu a with
               | Some g => Some (max_int (or_default (of_Z 0) acc) g)
               | None => acc
               end) apps'
  end.

Definition sandboxResources (apps : list ResourcesSpec) : SandboxResources :=
  {| s_cpu := (fun l => add (sum l) (res_cpu DAEMON_RESERVE)) <$> all_declared r_cpu apps;
     s_memoryMb := (fun l => add (sum l) (res_memoryMb DAEMON_RESERVE)) <$> all_declared r_memory_mb apps;
     s_pids := add (sum (map (fun a => or_default DEFAULT_APP_PIDS (r_pids a)) apps)) (res_pids DAEMON_RESERVE);
     s_gpu := max_gpu None apps |}.

(** ** Exactness on integers *)

(** [x] is the integer [z], and small enough to be exact. *)
Definition is_int (x : jsnum) (z : Z) : Prop := to_integer x = Some z.

Lemma is_int_of_Z z : (Z.abs z < 2 ^ 53)%Z -> is_int (of_Z z) z.
Proof. apply to_integer_of_Z. Qed.

Lemma sum_from acc values z zs :
  is_int acc z -> Forall2 is_int values zs -> Forall (fun z => 0 <= z)%Z zs -> (0 <= z)%Z ->
  (z + foldr Z.add 0 zs < 2 ^ 53)%Z ->
  is_int (foldl add acc values) (z + foldr Z.add 0 zs)%Z.
Proof.
  intros Hz Hv. revert acc z Hz. induction Hv as [|v y vs zs Hv Hvs IH]; intros acc z Hz Hpos Hz0 Hlt; cbn in *.
  - by rewrite Z.add_0_r.
  - inversion_clear Hpos as [|? ? Hy Hys]. rewrite Z.add_assoc. 
    assert (0 <= foldr Z.add 0 zs)%Z by (clear -Hys; induction Hys; cbn; lia).
    apply IH; try lia; try done. apply add_integer; try done. lia.
Qed.

Lemma sum_exact values zs :
  Forall2 is_int values zs -> Forall (fun z => 0 <= z)%Z zs -> (foldr Z.add 0 zs < 2 ^ 53)%Z ->
  is_int (sum values) (foldr Z.add 0%Z zs).
Proof.
  intros Hv Hp Hlt. apply (sum_from (of_Z 0) values 0%Z zs); [by apply is_int_of_Z|done|done|lia|lia].
Qed.

(** The container is sized for its apps and the daemons: its task limit is
    the sum of the apps' limits (declared or default) plus the reserve, exactly;
    it has a memory limit exactly when there is an app and every app declares
    one, and then it is their sum plus the reserve. *)
Theorem resources_exact (apps : list ResourcesSpec) (pids mems : list Z) :
  Forall2 (fun a z => is_int (or_default DEFAULT_APP_PIDS (r_pids a)) z /\ (0 <= z)%Z) apps pids ->
  (foldr Z.add 0 pids + 1024 < 2 ^ 53)%Z ->
  is_int (s_pids (sandboxResources apps)) (foldr Z.add 0%Z pids + 1024) /\
  (s_memoryMb (sandboxResources apps) = None <-> apps = [] \/ Exists (fun a => r_memory_mb a = None) apps) /\
  (apps <> [] -> Forall2 (fun a z => exists x, r_memory_mb a = Some x /\ is_int x z /\ (0 <= z)%Z) apps mems ->
   (foldr Z.add 0 mems + 256 < 2 ^ 53)%Z ->
   exists x, s_memoryMb (sandboxResources apps) = Some x /\ is_int x (foldr Z.add 0%Z mems + 256)).
Proof.
  intros Hp Hlt. split_and!.
  - assert (H0 : (0 <= foldr Z.add 0 pids)%Z).
    { clear -Hp. induction Hp as [|? ? ? ? [_ ?]]; cbn; lia. }
    apply add_integer; [|vm_compute; reflexivity|lia]. apply sum_exact; [|..|lia].
    + clear -Hp. induction Hp as [|? ? ? ? [? _]]; cbn; constructor; auto.
    + clear -Hp. induction Hp as [|? ? ? ? [_ ?]]; cbn; constructor; auto.
  - cbn. rewrite fmap_None. unfold all_declared. destruct apps as [|a apps]; [split; auto|].
    rewrite mapM_None. split; [auto|]. by intros [?|?].
  - intros Hne Hm Hlt2.
    assert (Hl : exists l, all_declared r_memory_mb apps = Some l /\ Forall2 is_int l mems
                           /\ Forall (fun z => 0 <= z)%Z mems).
    { unfold all_declared. destruct apps as [|a apps]; [done|]. clear -Hm. revert Hm.
      generalize (a :: apps) as l. intros l Hm. induction Hm as [|a' z l zs (x & Hx & Hi & Hz) Hm (k & Ek & Hk & Hp)].
      - exists []. split_and!; constructor.
      - exists (x :: k). cbn. rewrite Hx. cbn. rewrite Ek. split_and!; [done|by constructor..]. }
    destruct Hl as (l & El & Hi & Hp'). unfold sandboxResources, s_memoryMb. rewrite El. eexists. split; [reflexivity|].
    assert (0 <= foldr Z.add 0 mems)%Z by (clear -Hp'; induction Hp'; cbn; lia).
    apply add_integer; [by apply sum_exact; [..|lia]|vm_compute; reflexivity|lia].
Qed.

Lemma resources_exact_witness :
  exists x, s_memoryMb (sandboxResources
    [{| r_cpu := None; r_memory_mb := Some (of_Z 512); r_gpu := None; r_pids := None |};
     {| r_cpu := None; r_memory_mb := Some (of_Z 128); r_gpu := None; r_pids := Some (of_Z 64) |}]) = Some x
    /\ is_int x 896.
Proof.
  refine (proj2 (proj2 (resources_exact _ [1024; 64]%Z [512; 128]%Z _ _)) _ _ _).
  - repeat constructor; vm_compute; congruence.
  - vm_compute. reflexivity.
  - discriminate.
  - repeat constructor; eexists; (split; [reflexivity|]); split; vm_compute; congruence.
  - vm_compute. reflexivity.
Defined.

End Resources.
