(* ===== verification/Registry.v ===== *)
(** * The app registry (packages/registry-server/src/{db,routes,storage}.ts)

    Two tables and a blob store. A publish gives up control at each await: it is
    a start (the checks, up to the bundle write), the create-only write, a
    commit (the row and, for a new name, its owner) and, if the row was refused,
    the removal of the bundle. Several publishes interleave at these points.
    The YAML parser, the manifest shape check, the token hash and
    [localeCompare] are parameters; the random token is part of the request. *)
From S2P Require Import Prelude JsNumber Capability Manifest.

Module Registry.
Import JsNumber Manifest.

Record AppRecord := {
  name : string;
  version : string;
  description : string;
  author : string;
  capabilities : list string;
  exports : list string;
  manifest : BerthManifest;
  bundlePath : string * string; (* the directory <name>/<version> *)
  bundleSize : nat;
  publishedAt : string
}.

(** ** Versions *)

Definition sub (x y : jsnum) : jsnum := add x (negate y).
Definition is_zero (x : jsnum) : bool := match x with Fin m _ => (m =? 0)%Z | _ => false end.

(** [pa[i] ?? 0] for a split version. *)
Definition component (i : nat) (v : string) : jsnum :=
  or_default (Fin 0 0) (Number <$> Str.split "." v !! i).

Definition compareSemver (a b : string) : jsnum :=
  let diff i := sub (component i a) (component i b) in
  if negb (is_zero (diff 0)) then diff 0
  else if negb (is_zero (diff 1)) then diff 1
  else if negb (is_zero (diff 2)) then diff 2
  else Fin 0 0.

(** [Array.prototype.sort] is stable: an element goes before the first one it
    does not compare greater than. *)
Section sort.
Context {A : Type} (cmp : A -> A -> jsnum).

Fixpoint insert_by (x : A) (l : list A) : list A :=
  match l with
  | [] => [x]
  | y :: l' => if positive (cmp x y) then y :: insert_by x l' else x :: l
  end.

Definition sort_by (l : list A) : list A := foldr insert_by [] l.
End sort.

(** ** The database *)

Record db := { apps : list AppRecord; app_owners : list (string * string) }.

Inductive exn : Type :=
| AlreadyPublished
| JustClaimed.

Section registry.
Context (H : string -> string) (localeCompare : string -> string -> jsnum).
Context (parseYaml : string -> option raw).
Context (parse_shape : raw -> result (list ManifestIssue) BerthManifest).

Definition ownerExists (n : string) (d : db) : bool := JsMap.has n (app_owners d).

Definition verifyOwnerToken (n : string) (token : option string) (d : db) : bool :=
  match token with
  | None | Some EmptyString => false
  | Some t => match JsMap.get n (app_owners d) with Some h => String.eqb (H t) h | None => false end
  end.

Definition registerOwner (n token : string) (d : db) : result exn db :=
  if ownerExists n d then Err JustClaimed
  else Ok {| apps := apps d; app_owners := app_owners d ++ [(n, H token)] |}.

Definition same_version (n v : string) (r : AppRecord) : bool :=
  String.eqb (name r) n && String.eqb (version r) v.

Definition get (n v : string) (d : db) : option AppRecord := List.find (same_version n v) (apps d).

Definition insert (r : AppRecord) (d : db) : result exn db :=
  match get (name r) (version r) d with
  | Some _ => Err AlreadyPublished
  | None => Ok {| apps := apps d ++ [r]; app_owners := app_owners d |}
  end.

Definition listVersions (n : string) (d : db) : list AppRecord :=
  sort_by (fun a b => compareSemver (version b) (version a))
    (List.filter (fun r => String.eqb (name r) n) (apps d)).

Definition getLatest (n : string) (d : db) : option AppRecord := head (listVersions n d).

(** The newest row of every name, in the order the names first appear. *)
Definition latest_step (byName : list (string * AppRecord)) (row : AppRecord) : list (string * AppRecord) :=
  match JsMap.get (name row) byName with
  | Some current =>
      if positive (compareSemver (version row) (version current))
      then JsMap.put (name row) row byName else byName
  | None => JsMap.put (name row) row byName
  end.

Definition listLatestPerApp (query : option string) (d : db) : list AppRecord :=
  let results := (foldl latest_step [] (apps d)).*2 in
  let matching :=
    match query with
    | None | Some EmptyString => results
    | Some query =>
        let q := Str.to_lower query in
        List.filter (fun r => Str.includes q (Str.to_lower (name r))
                              || Str.includes q (Str.to_lower (description r))) results
    end in
  sort_by (fun a b => localeCompare (name a) (name b)) matching.

Definition resolveVersion (d : db) (n v : string) : option AppRecord :=
  if String.eqb v "latest" then getLatest n d else get n v d.

(** ** Publishing *)

Record publish_request := {
  q_manifestText : option string;
  q_author : string;
  q_bundle : option string;
  q_auth : option string;
  q_now : string;
  q_token : string
}.

Definition bearerToken (authorization : option string) : option string :=
  match authorization with
  | None => None
  | Some header =>
      if Str.starts_with "Bearer " header then Some (Str.drop (String.length "Bearer ") header) else None
  end.

Inductive response : Type :=
| BadRequest
| Unauthorized
| Conflict
| InternalError
| Created (n v : string) (ownerToken : option string).

(** A publish between two awaits. *)
Inductive phase : Type :=
| Writing (isNewName : bool) (m : BerthManifest) (bytes : string) (q : publish_request)
| Written (isNewName : bool) (m : BerthManifest) (bytes : string) (q : publish_request)
| Removing (m : BerthManifest).

Record state := {
  tables : db;
  blobs : gmap (string * string) string;
  pending : gmap nat phase
}.

Definition empty_state : state :=
  {| tables := {| apps := []; app_owners := [] |}; blobs := ∅; pending := ∅ |}.

Definition read_manifest (text : string) : option BerthManifest :=
  r ← parseYaml text;
  match validateManifest parse_shape r with Ok m => Some m | Err _ => None end.

(** The handler up to [blobs.write]. *)
Definition start (q : publish_request) (d : db) : response + phase :=
  match q_manifestText q, q_bundle q with
  | None, _ | Some EmptyString, _ | _, None => inl BadRequest
  | Some text, Some bytes =>
      match read_manifest text with
      | None => inl BadRequest
      | Some m =>
          let isNewName := negb (ownerExists (m_name m) d) in
          if negb isNewName && negb (verifyOwnerToken (m_name m) (bearerToken (q_auth q)) d)
          then inl Unauthorized
          else match get (m_name m) (m_version m) d with
               | Some _ => inl Conflict
               | None => inr (Writing isNewName m bytes q)
               end
      end
  end.

Definition key (m : BerthManifest) : string * string := (m_name m, m_version m).

Definition app_record (m : BerthManifest) (bytes : string) (q : publish_request) : AppRecord :=
  {| name := m_name m; version := m_version m; description := m_description m;
     author := q_author q; capabilities := m_capabilities m; exports := map e_name (m_exports m);
     manifest := m; bundlePath := key m; bundleSize := String.length bytes; publishedAt := q_now q |}.

(** The handler after the write: the row, then the owner of a new name. *)
Definition commit (isNewName : bool) (m : BerthManifest) (bytes : string) (q : publish_request) (d : db) :
    db * (response + phase) :=
  match insert (app_record m bytes q) d with
  | Err _ => (d, inr (Removing m))
  | Ok d1 =>
      if isNewName then
        match registerOwner (m_name m) (q_token q) d1 with
        | Err _ => (d1, inl InternalError)
        | Ok d2 => (d2, inl (Created (m_name m) (m_version m) (Some (q_token q))))
        end
      else (d1, inl (Created (m_name m) (m_version m) None))
  end.

Definition settle (i : nat) (r : response + phase) (p : gmap nat phase) : gmap nat phase :=
  match r with inl _ => delete i p | inr ph => <[i := ph]> p end.

(** One step of one publish, with the reply it ends in, if it does. *)
Inductive step : state -> option (nat * response) -> state -> Prop :=
| step_start s i q :
    pending s !! i = None ->
    let r := start q (tables s) in
    step s (match r with inl resp => Some (i, resp) | inr _ => None end)
      {| tables := tables s; blobs := blobs s; pending := settle i r (pending s) |}
| step_write s i isNew m bytes q :
    pending s !! i = Some (Writing isNew m bytes q) ->
    step s (match blobs s !! key m with Some _ => Some (i, Conflict) | None => None end)
      match blobs s !! key m with
      | Some _ => {| tables := tables s; blobs := blobs s; pending := delete i (pending s) |}
      | None => {| tables := tables s; blobs := <[key m := bytes]> (blobs s);
                   pending := <[i := Written isNew m bytes q]> (pending s) |}
      end
| step_commit s i isNew m bytes q d r :
    pending s !! i = Some (Written isNew m bytes q) ->
    commit isNew m bytes q (tables s) = (d, r) ->
    step s (match r with inl resp => Some (i, resp) | inr _ => None end)
      {| tables := d; blobs := blobs s; pending := settle i r (pending s) |}
| step_remove s i m :
    pending s !! i = Some (Removing m) ->
    step s (Some (i, Conflict))
      {| tables := tables s; blobs := delete (key m) (blobs s); pending := delete i (pending s) |}.

Definition moves (s s' : state) : Prop := exists r, step s r s'.

(** [GET /apps/:name/:version/download] *)
Definition download (s : state) (n v : string) : option string :=
  r ← resolveVersion (tables s) n v; blobs s !! bundlePath r.

(** ** Published versions do not change *)

Record Inv (s : state) : Prop := {
  inv_apps : forall r, r ∈ apps (tables s) -> bundlePath r = (name r, version r) /\ is_Some (blobs s !! bundlePath r);
  inv_written : forall i n m b q, pending s !! i = Some (Written n m b q) ->
    blobs s !! key m = Some b /\ get (m_name m) (m_version m) (tables s) = None;
  inv_exclusive : forall i j n m b q n' m' b' q', pending s !! i = Some (Written n m b q) ->
    pending s !! j = Some (Written n' m' b' q') -> key m = key m' -> i = j;
  inv_removing : forall i m, pending s !! i <> Some (Removing m)
}.

Lemma registry_get_Some n v d r : get n v d = Some r -> r ∈ apps d /\ name r = n /\ version r = v.
Proof.
  intros E. apply find_some in E as [Hin E]. apply list_elem_of_In in Hin. unfold same_version in E.
  apply andb_true_iff in E as [E1 E2]. apply String.eqb_eq in E1, E2. done.
Qed.

Lemma registry_get_None n v d : get n v d = None <-> forall r, r ∈ apps d -> (name r, version r) <> (n, v).
Proof.
  unfold get. split.
  - intros E r Hr [= <- <-]. apply list_elem_of_In in Hr. eapply find_none in E; [|exact Hr].
    unfold same_version in E. by rewrite !String.eqb_refl in E.
  - intros Hr. destruct (List.find _ _) as [r|] eqn:E; [|done]. exfalso.
    destruct (registry_get_Some n v d r E) as (Hin & <- & <-). by apply (Hr r Hin).
Qed.

Lemma commit_fresh isNew m bytes q d :
  get (m_name m) (m_version m) d = None ->
  exists resp d', commit isNew m bytes q d = (d', inl resp) /\ apps d' = apps d ++ [app_record m bytes q].
Proof.
  intros Hg. unfold commit, insert. cbn [name version app_record]. rewrite Hg.
  destruct isNew; [|by eexists _, _].
  unfold registerOwner. destruct (ownerExists _ _); by eexists _, _.
Qed.

Lemma settle_Some i r p j ph :
  settle i r p !! j = Some ph -> (j <> i /\ p !! j = Some ph) \/ (j = i /\ r = inr ph).
Proof.
  destruct r as [resp|ph']; cbn; intros Hj.
  - apply lookup_delete_Some in Hj as [? ?]. auto.
  - apply lookup_insert_Some in Hj as [[<- <-]|[? ?]]; auto.
Qed.

Lemma start_phase q d ph : start q d = inr ph -> exists n m b, ph = Writing n m b q.
Proof.
  unfold start. destruct (q_manifestText q) as [[|c t]|], (q_bundle q); try done.
  destruct (read_manifest _); [|done]. destruct (negb _ && _); [done|].
  destruct (get _ _ _); [done|]. intros [= <-]. eauto.
Qed.

Lemma registry_step_Inv s r s' : Inv s -> step s r s' -> Inv s'.
Proof.
  intros [HA HW HE HR] Hs. destruct Hs as [s i q Hi r|s i isNew m bytes q Hi|s i isNew m bytes q d0 r0 Hi Hc|s i m Hi].
  - split; cbn; [done|..].
    + intros j n m b q' Hj. apply settle_Some in Hj as [[_ Hj]|[-> Hj]]; [eauto|].
      apply start_phase in Hj as (? & ? & ? & ?). done.
    + intros j k n m b q1 n' m' b' q2 Hj Hk.
      apply settle_Some in Hj as [[_ Hj]|[-> Hj]]; [|by apply start_phase in Hj as (? & ? & ? & ?)].
      apply settle_Some in Hk as [[_ Hk]|[-> Hk]]; [|by apply start_phase in Hk as (? & ? & ? & ?)]. eauto.
    + intros j m Hj. apply settle_Some in Hj as [[_ Hj]|[-> Hj]]; [by eapply HR|].
      by apply start_phase in Hj as (? & ? & ? & ?).
  - destruct (blobs s !! key m) as [b0|] eqn:Eb.
    + split; cbn; [done|..].
      * intros j n m' b q' [_ Hj]%lookup_delete_Some. eauto.
      * intros j k n m1 b q1 n' m' b' q2 [_ Hj]%lookup_delete_Some [_ Hk]%lookup_delete_Some. eauto.
      * intros j m' [_ Hj]%lookup_delete_Some. by eapply HR.
    + assert (Hno : get (m_name m) (m_version m) (tables s) = None).
      { apply registry_get_None. intros r' Hr' Ek. destruct (HA r' Hr') as [Ep [b1 Hb1]].
        rewrite Ep, Ek in Hb1. unfold key in Eb. congruence. }
      split; cbn.
      * intros r' Hr'. destruct (HA r' Hr') as [Ep [b1 Hb1]]. split; [done|].
        destruct (decide (bundlePath r' = key m)) as [Ek|Hne]; [congruence|]. rewrite lookup_insert_ne by done. eauto.
      * intros j n m' b q' Hj. apply lookup_insert_Some in Hj as [[<- [= <- <- <- <-]]|[Hne Hj]].
        -- by rewrite lookup_insert_eq.
        -- destruct (HW _ _ _ _ _ Hj) as [Hb Hg]. split; [|done].
           rewrite lookup_insert_ne; [done|]. congruence.
      * intros j k n m1 b1 q1 n' m2 b2 q2 Hj Hk Ek.
        apply lookup_insert_Some in Hj as [[<- [= <- <- <- <-]]|[Hne Hj]];
          apply lookup_insert_Some in Hk as [[<- [= <- <- <- <-]]|[Hne' Hk]]; try done.
        -- destruct (HW _ _ _ _ _ Hk) as [Hb _]. congruence.
        -- destruct (HW _ _ _ _ _ Hj) as [Hb _]. congruence.
        -- eauto.
      * intros j m' [[_ [=]]|[_ Hj]]%lookup_insert_Some. by eapply HR.
  - destruct (HW _ _ _ _ _ Hi) as [Hb Hg].
    destruct (commit_fresh isNew m bytes q (tables s) Hg) as (resp & d & Ec & Ea).
    rewrite Ec in Hc. injection Hc as <- <-. split; cbn; rewrite ?Ea.
    + intros r' Hr'. apply elem_of_app in Hr' as [Hr'|Hr']; [eauto|].
      apply list_elem_of_singleton in Hr' as ->. cbn. eauto.
    + intros j n m' b q' [Hne Hj]%lookup_delete_Some. destruct (HW _ _ _ _ _ Hj) as [Hb' Hg']. split; [done|].
      apply registry_get_None. intros r' Hr'. rewrite Ea in Hr'. apply elem_of_app in Hr' as [Hr'|Hr'].
      { by apply (proj1 (registry_get_None _ _ _) Hg'). }
      apply list_elem_of_singleton in Hr' as ->. cbn. intros Ek. apply Hne. symmetry.
      eapply HE; [exact Hj|exact Hi|]. unfold key. congruence.
    + intros j k n m1 b q1 n' m' b' q2 [_ Hj]%lookup_delete_Some [_ Hk]%lookup_delete_Some. eauto.
    + intros j m' [_ Hj]%lookup_delete_Some. by eapply HR.
  - by destruct (HR _ _ Hi).
Qed.

Lemma empty_Inv : Inv empty_state.
Proof. split; cbn; try done. intros r Hr. by apply not_elem_of_nil in Hr. Qed.

Lemma registry_reachable_Inv s : star moves empty_state s -> Inv s.
Proof. apply star_invariant; [intros s1 s2 HI [r Hs]; by eapply registry_step_Inv|apply empty_Inv]. Qed.

(** A step keeps every row and every published bundle. *)
Lemma step_keeps s r s' :
  Inv s -> step s r s' ->
  (exists l, apps (tables s') = apps (tables s) ++ l) /\
  (forall a b, a ∈ apps (tables s) -> blobs s !! bundlePath a = Some b -> blobs s' !! bundlePath a = Some b).
Proof.
  intros [HA HW HE HR] Hs. destruct Hs as [s i q Hi r|s i isNew m bytes q Hi|s i isNew m bytes q d0 r0 Hi Hc|s i m Hi].
  - split; [exists []; cbn; by rewrite app_nil_r|done].
  - destruct (blobs s !! key m) as [b0|] eqn:Eb; (split; [exists []; cbn; by rewrite app_nil_r|]); [done|].
    intros a b Ha Hb. cbn. rewrite lookup_insert_ne; [done|]. congruence.
  - destruct (HW _ _ _ _ _ Hi) as [Hb Hg].
    destruct (commit_fresh isNew m bytes q (tables s) Hg) as (resp & d & Ec & Ea).
    rewrite Ec in Hc. injection Hc as <- <-. cbn. split; [eauto|done].
  - by destruct (HR _ _ Hi).
Qed.

Lemma find_prefix n v d d' l r :
  apps d' = apps d ++ l -> get n v d = Some r -> get n v d' = Some r.
Proof.
  unfold get. intros ->. induction (apps d) as [|a ps IH]; cbn; [done|]. destruct (same_version n v a); [done|apply IH].
Qed.

(** [C17] Published versions are immutable: once a version can be downloaded, every
    later state, whatever publishes interleave, serves the same record and the
    same bytes for it. *)
Theorem registry_immutable s s' n v r b :
  star moves empty_state s -> star moves s s' -> v <> "latest" ->
  resolveVersion (tables s) n v = Some r -> download s n v = Some b ->
  resolveVersion (tables s') n v = Some r /\ download s' n v = Some b.
Proof.
  intros Hs Hss Hv. apply String.eqb_neq in Hv.
  unfold download, resolveVersion. rewrite Hv. intros Hr. rewrite Hr. cbn. intros Hb.
  apply registry_reachable_Inv in Hs. revert Hs Hr Hb. induction Hss as [s|s1 s2 s3 [resp Hst] Hss IH]; intros HI Hr Hb.
  - by rewrite Hr.
  - destruct (step_keeps _ _ _ HI Hst) as [[l Hl] Hk]. apply IH.
    + by eapply registry_step_Inv.
    + by eapply find_prefix.
    + apply Hk; [|done]. by apply registry_get_Some in Hr as [? _].
Qed.

(** ** Versions are ordered as numbers *)

(** The three numbers of a version whose parts are safe integers. *)
Definition numbers (v : string) : option (Z * Z * Z) :=
  match Str.split "." v with
  | [a; b; c] =>
      if forallb (fun w => Capability.nonempty w && Str.all Str.is_digit w
                           && (decimal_value w <? 2 ^ 53)%Z) [a; b; c]
      then Some (decimal_value a, decimal_value b, decimal_value c) else None
  | _ => None
  end.

Definition version_lt (x y : Z * Z * Z) : Prop :=
  let '(a, b, c) := x in let '(a', b', c') := y in
  (a < a' \/ a = a' /\ (b < b' \/ b = b' /\ c < c'))%Z.

Lemma value_in_nonneg acc s : (0 <= acc)%Z -> Str.all Str.is_digit s = true ->
  (0 <= value_in 10 digit_value acc s)%Z.
Proof.
  revert acc. induction s as [|c s IH]; cbn; intros acc Ha Hs; [done|].
  apply andb_true_iff in Hs as [Hc Hs]. apply IH; [|done].
  apply digit_code in Hc. unfold digit_value. lia.
Qed.

Lemma numbers_components v a b c :
  numbers v = Some (a, b, c) ->
  (forall z, z = a \/ z = b \/ z = c -> 0 <= z < 2 ^ 53)%Z /\
  to_integer (component 0 v) = Some a /\ to_integer (component 1 v) = Some b /\
  to_integer (component 2 v) = Some c.
Proof.
  unfold numbers, component. destruct (Str.split "." v) as [|w1 [|w2 [|w3 [|]]]]; try done.
  destruct (forallb _ _) eqn:E; [|done]. cbn in E. intros [= <- <- <-].
  rewrite !andb_true_iff in E. destruct E as (((N1 & D1) & L1) & ((N2 & D2) & L2) & ((N3 & D3) & L3) & _).
  apply Z.ltb_lt in L1, L2, L3.
  assert (Hn : forall w, Capability.nonempty w = true -> w <> "") by (intros w Hw ->; done).
  pose proof (value_in_nonneg 0 w1 ltac:(lia) D1). pose proof (value_in_nonneg 0 w2 ltac:(lia) D2).
  pose proof (value_in_nonneg 0 w3 ltac:(lia) D3).
  split_and!; cbn [lookup list_lookup or_default fmap option_fmap option_map].
  - intros z [->|[->| ->]]; split; done.
  - by apply Number_digits; auto.
  - by apply Number_digits; auto.
  - by apply Number_digits; auto.
Qed.

Lemma sub_integer x y a b :
  to_integer x = Some a -> to_integer y = Some b -> (Z.abs (a - b) < 2 ^ 53)%Z ->
  to_integer (sub x y) = Some (a - b)%Z.
Proof.
  intros Hx Hy Hb. unfold sub. rewrite (add_integer x (negate y) a (- b)); [done|done|by apply negate_integer|].
  by rewrite Z.add_opp_r.
Qed.

Lemma integer_tests x z :
  to_integer x = Some z -> is_zero x = (z =? 0)%Z /\ positive x = (0 <? z)%Z.
Proof.
  destruct x as [| |m e]; try done. intros Hz. destruct (to_integer_sign _ _ _ Hz) as [H0 Hp]. cbn. split.
  - destruct (Z.eqb_spec m 0), (Z.eqb_spec z 0); tauto.
  - destruct (Z.ltb_spec 0 m), (Z.ltb_spec 0 z); try done; lia.
Qed.

Lemma compareSemver_spec v w x y :
  numbers v = Some x -> numbers w = Some y ->
  positive (compareSemver v w) = true <-> version_lt y x.
Proof.
  destruct x as [[a b] c], y as [[a' b'] c']. intros Hv Hw.
  destruct (numbers_components _ _ _ _ Hv) as (Rv & V0 & V1 & V2).
  destruct (numbers_components _ _ _ _ Hw) as (Rw & W0 & W1 & W2).
  pose proof (Rv a ltac:(auto)). pose proof (Rv b ltac:(auto)). pose proof (Rv c ltac:(auto)).
  pose proof (Rw a' ltac:(auto)). pose proof (Rw b' ltac:(auto)). pose proof (Rw c' ltac:(auto)).
  pose proof (sub_integer _ _ _ _ V0 W0 ltac:(lia)) as D0.
  pose proof (sub_integer _ _ _ _ V1 W1 ltac:(lia)) as D1.
  pose proof (sub_integer _ _ _ _ V2 W2 ltac:(lia)) as D2.
  destruct (integer_tests _ _ D0) as [Z0 P0], (integer_tests _ _ D1) as [Z1 P1], (integer_tests _ _ D2) as [Z2 P2].
  unfold compareSemver. cbv zeta. rewrite Z0, Z1, Z2. unfold version_lt.
  destruct (Z.eqb_spec (a - a') 0); cbn [negb]; [|rewrite P0, Z.ltb_lt; lia].
  destruct (Z.eqb_spec (b - b') 0); cbn [negb]; [|rewrite P1, Z.ltb_lt; lia].
  destruct (Z.eqb_spec (c - c') 0); cbn [negb]; [|rewrite P2, Z.ltb_lt; lia].
  cbn. split; [done|lia].
Qed.

Lemma insert_by_elem {A} (cmp : A -> A -> jsnum) x l y : y ∈ insert_by cmp x l <-> y = x \/ y ∈ l.
Proof.
  induction l as [|z l IH]; cbn; [set_solver|]. destruct (positive _); [|set_solver].
  rewrite elem_of_cons, IH, elem_of_cons. tauto.
Qed.

Lemma sort_by_elem {A} (cmp : A -> A -> jsnum) l y : y ∈ sort_by cmp l <-> y ∈ l.
Proof.
  induction l as [|x l IH]; [done|]. change (sort_by cmp (x :: l)) with (insert_by cmp x (sort_by cmp l)).
  rewrite insert_by_elem, IH, elem_of_cons. done.
Qed.

Definition newest_first (a b : AppRecord) : jsnum := compareSemver (version b) (version a).

Lemma sort_head_max (l : list AppRecord) r :
  Forall (fun r => is_Some (numbers (version r))) l ->
  head (sort_by newest_first l) = Some r ->
  forall r' x y, r' ∈ l -> numbers (version r) = Some x -> numbers (version r') = Some y -> ~ version_lt x y.
Proof.
  revert r. induction l as [|a l IH]; intros r Hl Hh r' x y Hr' Hx Hy; [done|].
  apply Forall_cons in Hl as [[za Ha] Hl].
  change (sort_by newest_first (a :: l)) with (insert_by newest_first a (sort_by newest_first l)) in Hh.
  destruct (sort_by newest_first l) as [|m k] eqn:Es; cbn in Hh.
  - injection Hh as <-. assert (l = []) as ->.
    { destruct l as [|b l]; [done|]. assert (b ∈ sort_by newest_first (b :: l)) as Hb by (apply sort_by_elem; left).
      rewrite Es in Hb. by apply not_elem_of_nil in Hb. }
    apply list_elem_of_singleton in Hr' as ->. assert (x = y) as -> by congruence.
    destruct y as [[? ?] ?]. unfold version_lt. lia.
  - assert (Hm : m ∈ l) by (apply (sort_by_elem newest_first); rewrite Es; left).
    assert (Hsm : is_Some (numbers (version m))) by (rewrite Forall_forall in Hl; by apply Hl).
    destruct Hsm as [zm Hzm].
    pose proof (compareSemver_spec (version m) (version a) zm za Hzm Ha) as Hc.
    change (compareSemver (version m) (version a)) with (newest_first a m) in Hc.
    assert (Hmax : forall r0 z, r0 ∈ l -> numbers (version r0) = Some z -> ~ version_lt zm z).
    { intros r0 z Hr0 Hz. by eapply (IH m Hl eq_refl r0). }
    destruct (positive (newest_first a m)) eqn:Ep; cbn in Hh; injection Hh as <-.
    + apply elem_of_cons in Hr' as [->|Hr']; [|by eapply (IH m Hl eq_refl r')].
      assert (x = zm) as -> by congruence. assert (y = za) as -> by congruence.
      apply proj1 in Hc. specialize (Hc eq_refl).
      destruct zm as [[? ?] ?], za as [[? ?] ?]. unfold version_lt in *. lia.
    + assert (Hnlt : ~ version_lt za zm) by (intros Hlt; apply Hc in Hlt; done).
      assert (x = za) as -> by congruence. apply elem_of_cons in Hr' as [->|Hr'].
      * assert (y = za) as -> by congruence. destruct za as [[? ?] ?]. unfold version_lt. lia.
      * specialize (Hmax r' y Hr' Hy). destruct zm as [[? ?] ?], za as [[? ?] ?], y as [[? ?] ?].
        unfold version_lt in *. lia.
Qed.

(** The latest version of an app is one of its published versions, and no
    published version of it is numerically greater (10.0.0 is newer than
    9.9.9); there is one exactly when something was published. *)
Theorem getLatest_max n d :
  (forall r, r ∈ apps d -> name r = n -> is_Some (numbers (version r))) ->
  (forall r, getLatest n d = Some r -> r ∈ apps d /\ name r = n /\
     forall r' x y, r' ∈ apps d -> name r' = n ->
       numbers (version r) = Some x -> numbers (version r') = Some y -> ~ version_lt x y) /\
  (getLatest n d = None <-> forall r, r ∈ apps d -> name r <> n).
Proof.
  intros Hv. unfold getLatest, listVersions. set (l := List.filter _ (apps d)).
  assert (Hl : forall r, r ∈ l <-> r ∈ apps d /\ name r = n).
  { intros r. unfold l. rewrite list_elem_of_In, filter_In, <- list_elem_of_In, String.eqb_eq. done. }
  assert (Hall : Forall (fun r => is_Some (numbers (version r))) l).
  { apply Forall_forall. intros r [Hr Hn]%Hl. auto. }
  change (sort_by _ l) with (sort_by newest_first l). split.
  - intros r Hr. pose proof Hr as Hin.
    assert (Hr' : r ∈ sort_by newest_first l) by (destruct (sort_by newest_first l); [done|injection Hin as ->; left]).
    apply sort_by_elem, Hl in Hr' as [Ha Hn]. split_and!; [done|done|].
    intros r' x y Hr' Hn' Hx Hy. eapply (sort_head_max l r Hall Hr r'); eauto. by apply Hl.
  - split.
    + intros Hnone r Hr Hn. assert (Hin : r ∈ sort_by newest_first l) by (by apply sort_by_elem, Hl).
      destruct (sort_by newest_first l); [by apply not_elem_of_nil in Hin|done].
    + intros Hno. destruct (sort_by newest_first l) as [|r k] eqn:Es; [done|]. exfalso.
      assert (Hin : r ∈ sort_by newest_first l) by (rewrite Es; left).
      apply sort_by_elem, Hl in Hin as [Ha Hn]. by eapply Hno.
Qed.

(** ** Ownership *)

(** One publish with nothing else going on: start, write, commit. *)
Definition publish_alone (q : publish_request) (s : state) : state * response :=
  match start q (tables s) with
  | inl r => (s, r)
  | inr (Writing isNew m bytes q) =>
      match blobs s !! key m with
      | Some _ => (s, Conflict)
      | None =>
          let b := <[key m := bytes]> (blobs s) in
          match commit isNew m bytes q (tables s) with
          | (d, inl r) => ({| tables := d; blobs := b; pending := pending s |}, r)
          | (d, inr _) => ({| tables := d; blobs := delete (key m) b; pending := pending s |}, Conflict)
          end
      end
  | inr _ => (s, InternalError)
  end.

Definition run_alone (qs : list publish_request) (s : state) : state :=
  foldl (fun s q => fst (publish_alone q s)) s qs.

Definition all_owned (d : db) : Prop := forall r, r ∈ apps d -> ownerExists (name r) d = true.

Lemma start_Writing q d isNew m bytes q' :
  start q d = inr (Writing isNew m bytes q') ->
  q' = q /\ get (m_name m) (m_version m) d = None /\ isNew = negb (ownerExists (m_name m) d) /\
  (isNew = false -> verifyOwnerToken (m_name m) (bearerToken (q_auth q)) d = true).
Proof.
  unfold start. destruct (q_manifestText q) as [[|c t]|], (q_bundle q); try done.
  destruct (read_manifest _) as [m0|]; [|done].
  destruct (negb (negb _) && negb _) eqn:Ea; [done|].
  destruct (get (m_name m0) _ d) eqn:Eg; [done|]. intros [= <- <- <- <-]. split_and!; [done|done|done|].
  intros En. apply negb_false_iff in En. rewrite En in Ea. cbn in Ea. by apply negb_false_iff in Ea.
Qed.

Lemma has_app (n : string) (l k : list (string * string)) : JsMap.has n l = true -> JsMap.has n (l ++ k) = true.
Proof.
  unfold JsMap.has. intros Hl. destruct (JsMap.get n (l ++ k)) eqn:E; [done|].
  apply JsMap.get_None in E. rewrite fmap_app, not_elem_of_app in E. destruct E as [E _].
  apply JsMap.get_None in E. by rewrite E in Hl.
Qed.

Lemma publish_alone_owned q s :
  all_owned (tables s) ->
  all_owned (tables (fst (publish_alone q s))) /\ snd (publish_alone q s) <> InternalError.
Proof.
  intros Ho. unfold publish_alone. destruct (start q (tables s)) as [r|ph] eqn:Est.
  { split; [done|]. cbn. unfold start in Est. destruct (q_manifestText q) as [[|c t]|], (q_bundle q); try (by injection Est as <-).
    destruct (read_manifest _); [|by injection Est as <-].
    destruct (negb _ && _); [by injection Est as <-|]. destruct (get _ _ _); [by injection Est as <-|done]. }
  destruct (start_phase _ _ _ Est) as (isNew & m & bytes & ->).
  destruct (start_Writing _ _ _ _ _ _ Est) as (_ & Hg & Hn & _).
  destruct (blobs s !! key m); [done|].
  unfold commit, insert. cbn [name version app_record]. rewrite Hg. destruct isNew.
  - unfold registerOwner. symmetry in Hn. apply negb_true_iff in Hn.
    unfold ownerExists in *. cbn [apps app_owners]. rewrite Hn. cbn. split; [|done].
    intros r Hr. cbn in Hr. unfold ownerExists. cbn. apply elem_of_app in Hr as [Hr|Hr].
    + apply has_app, Ho, Hr.
    + apply list_elem_of_singleton in Hr as ->. cbn. unfold JsMap.has.
      destruct (JsMap.get (m_name m) (app_owners (tables s) ++ [(m_name m, H (q_token q))])) eqn:E; [done|].
      apply JsMap.get_None in E. rewrite fmap_app in E. exfalso. apply E, elem_of_app. right. left.
  - cbn. split; [|done]. intros r Hr. cbn in Hr. apply elem_of_app in Hr as [Hr|Hr]; [by apply Ho|].
    apply list_elem_of_singleton in Hr as ->. cbn. symmetry in Hn. by apply negb_false_iff in Hn.
Qed.

(** Published one after another, every published name has an owner, a new
    version of an owned name is accepted only with the owner's token, and no
    publish ends in a server error. *)
Theorem registry_sequential_ownership qs q n v t :
  let s := run_alone qs empty_state in
  all_owned (tables s) /\ snd (publish_alone q s) <> InternalError /\
  (snd (publish_alone q s) = Created n v t -> ownerExists n (tables s) = true ->
   verifyOwnerToken n (bearerToken (q_auth q)) (tables s) = true).
Proof.
  cbn zeta. assert (Ho : all_owned (tables (run_alone qs empty_state))).
  { assert (H0 : all_owned (tables empty_state)) by (intros r Hr; by apply not_elem_of_nil in Hr).
    revert H0. generalize empty_state as s. induction qs as [|q0 qs IH]; intros s H0; [done|].
    apply IH. by apply publish_alone_owned. }
  set (s := run_alone qs empty_state) in *. split_and!; [done|by apply publish_alone_owned|].
  unfold publish_alone. destruct (start q (tables s)) as [r|ph] eqn:Est.
  { cbn. intros ->. unfold start in Est. destruct (q_manifestText q) as [[|c t']|], (q_bundle q); try done.
    destruct (read_manifest _); [|done]. destruct (negb _ && _); [done|]. by destruct (get _ _ _). }
  destruct (start_phase _ _ _ Est) as (isNew & m & bytes & ->).
  destruct (start_Writing _ _ _ _ _ _ Est) as (_ & Hg & Hn & Hver).
  destruct (blobs s !! key m); [done|].
  unfold commit, insert. cbn [name version app_record]. rewrite Hg. destruct isNew.
  - unfold registerOwner. symmetry in Hn. apply negb_true_iff in Hn. unfold ownerExists in *.
    cbn [apps app_owners]. rewrite Hn. cbn. intros [= <- _ _]. congruence.
  - cbn. intros [= <- _ _] _. by apply Hver.
Qed.

(** Two first publishes of one new name that overlap: the second one ends in
    a server error, but its version stays published under the name that the
    first one now owns. *)
Theorem registry_first_publish_race s i j q1 q2 m1 m2 b1 b2 t1 t2 :
  pending s !! i = None -> pending s !! j = None -> i <> j ->
  q_manifestText q1 = Some t1 -> t1 <> "" -> read_manifest t1 = Some m1 -> q_bundle q1 = Some b1 ->
  q_manifestText q2 = Some t2 -> t2 <> "" -> read_manifest t2 = Some m2 -> q_bundle q2 = Some b2 ->
  m_name m1 = m_name m2 -> m_version m1 <> m_version m2 ->
  ownerExists (m_name m1) (tables s) = false ->
  get (m_name m1) (m_version m1) (tables s) = None -> get (m_name m2) (m_version m2) (tables s) = None ->
  blobs s !! key m1 = None -> blobs s !! key m2 = None ->
  exists s5 s6, star moves s s5 /\ step s5 (Some (j, InternalError)) s6 /\
    app_record m2 b2 q2 ∈ apps (tables s6) /\
    JsMap.get (m_name m2) (app_owners (tables s6)) = Some (H (q_token q1)).
Proof.
  intros Hi Hj Hij T1 N1 R1 B1 T2 N2 R2 B2 Hn Hv Ho G1 G2 K1 K2.
  assert (Hk : key m1 <> key m2) by (unfold key; congruence).
  assert (S1 : start q1 (tables s) = inr (Writing true m1 b1 q1)).
  { unfold start. rewrite T1, B1. destruct t1; [done|]. by rewrite R1, Ho, G1. }
  assert (S2 : start q2 (tables s) = inr (Writing true m2 b2 q2)).
  { unfold start. rewrite T2, B2. destruct t2; [done|]. by rewrite R2, <- Hn, Ho, Hn, G2. }
  set (d1 := {| apps := apps (tables s) ++ [app_record m1 b1 q1]; app_owners := app_owners (tables s) |}).
  set (d2 := {| apps := apps d1; app_owners := app_owners d1 ++ [(m_name m1, H (q_token q1))] |}).
  set (d3 := {| apps := apps d2 ++ [app_record m2 b2 q2]; app_owners := app_owners d2 |}).
  assert (C1 : commit true m1 b1 q1 (tables s) = (d2, inl (Created (m_name m1) (m_version m1) (Some (q_token q1))))).
  { unfold commit, insert. cbn [name version app_record]. rewrite G1. unfold registerOwner.
    unfold ownerExists in *. cbn [app_owners]. by rewrite Ho. }
  assert (Hget : JsMap.get (m_name m2) (app_owners d2) = Some (H (q_token q1))).
  { cbn. rewrite <- Hn. unfold ownerExists, JsMap.has in Ho. clear -Ho.
    induction (app_owners (tables s)) as [|[k v] l IH]; cbn in *; [by rewrite decide_True|].
    destruct (decide (m_name m1 = k)); [done|]. by apply IH. }
  assert (G2' : get (m_name m2) (m_version m2) d2 = None).
  { apply registry_get_None. intros r Hr. cbn in Hr. apply elem_of_app in Hr as [Hr|Hr].
    - by apply (proj1 (registry_get_None _ _ _) G2).
    - apply list_elem_of_singleton in Hr as ->. cbn. congruence. }
  assert (C2 : commit true m2 b2 q2 d2 = (d3, inl InternalError)).
  { unfold commit, insert. cbn [name version app_record]. rewrite G2'. unfold registerOwner, ownerExists, JsMap.has.
    cbn [app_owners]. change (app_owners d2) with (app_owners d2) in Hget. by rewrite Hget. }
  set (p1 := <[i := Writing true m1 b1 q1]> (pending s)).
  set (p2 := <[j := Writing true m2 b2 q2]> p1).
  set (p3 := <[i := Written true m1 b1 q1]> p2).
  set (p4 := <[j := Written true m2 b2 q2]> p3).
  set (bl1 := <[key m1 := b1]> (blobs s)). set (bl2 := <[key m2 := b2]> bl1).
  exists {| tables := d2; blobs := bl2; pending := delete i p4 |},
         {| tables := d3; blobs := bl2; pending := delete j (delete i p4) |}.
  split_and!.
  - eapply star_cons; [eexists; exact (step_start s i q1 Hi)|]. rewrite S1. cbn [settle]. fold p1.
    eapply star_cons; [eexists; apply (step_start _ j q2); unfold p1; cbn; by rewrite lookup_insert_ne|].
    cbn [tables]. rewrite S2. cbn [settle]. cbn [pending blobs]. fold p2.
    eapply star_cons; [eexists; apply (step_write _ i true m1 b1 q1); cbn [pending]; unfold p2, p1;
      by rewrite lookup_insert_ne, lookup_insert_eq by done|].
    cbn [blobs tables pending]. rewrite K1. fold p3 bl1.
    eapply star_cons; [eexists; apply (step_write _ j true m2 b2 q2); cbn [pending]; unfold p3, p2;
      by rewrite lookup_insert_ne, lookup_insert_eq by done|].
    cbn [blobs tables pending]. assert (bl1 !! key m2 = None) as -> by (unfold bl1; by rewrite lookup_insert_ne).
    fold p4 bl2.
    eapply star_cons; [|apply star_refl]. eexists.
    refine (step_commit {| tables := tables s; blobs := bl2; pending := p4 |} i true m1 b1 q1 d2 (inl _) _ C1).
    cbn [pending]. unfold p4, p3. by rewrite lookup_insert_ne, lookup_insert_eq by done.
  - refine (step_commit {| tables := d2; blobs := bl2; pending := delete i p4 |} j true m2 b2 q2 d3
              (inl InternalError) _ C2).
    cbn [pending]. unfold p4. by rewrite lookup_delete_ne, lookup_insert_eq by done.
  - cbn. apply elem_of_app. right. left.
  - exact Hget.
Qed.

End registry.
(** ** Witnesses *)

Definition ex_manifest (v : string) : BerthManifest :=
  {| m_name := "notes"; m_version := v; m_description := ""; m_runtime := Node; m_capabilities := [];
     m_exports := []; m_on_install := []; m_on_agent_ready := [];
     m_expose := {| x_browser := true; x_terminal := true; x_preview := false |};
     m_governs := false; m_governance := {| exempt := false |};
     m_resources := {| r_cpu := None; r_memory_mb := None; r_gpu := None; r_pids := None |};
     m_secrets := [] |}.

(** A YAML reader and a shape check for files that only give a version. *)
Definition ex_yaml (text : string) : option raw := Some (RObj [("version", RStr text)]).
Definition ex_shape (r : raw) : result (list ManifestIssue) BerthManifest :=
  match member "version" r with Some (RStr v) => Ok (ex_manifest v) | _ => Err [] end.
Definition ex_hash (t : string) : string := "h" +:+ t.
Definition ex_publish (v bytes token : string) : publish_request :=
  {| q_manifestText := Some v; q_author := "me"; q_bundle := Some bytes; q_auth := Some ("Bearer t1");
     q_now := "now"; q_token := token |}.

Abbreviation ex_moves := (moves ex_hash ex_yaml ex_shape).

(** One whole publish, as steps. *)
Definition published (v bytes token : string) : state :=
  fst (publish_alone ex_hash ex_yaml ex_shape (ex_publish v bytes token) empty_state).

Lemma ex_published_reachable : star ex_moves empty_state (published "1.0.0" "bytes" "t1").
Proof.
  eapply star_cons; [eexists; exact (step_start ex_hash ex_yaml ex_shape empty_state 0 (ex_publish "1.0.0" "bytes" "t1") eq_refl)|].
  eapply star_cons; [eexists; refine (step_write ex_hash ex_yaml ex_shape _ 0 true (ex_manifest "1.0.0") "bytes"
    (ex_publish "1.0.0" "bytes" "t1") _); reflexivity|].
  eapply star_cons; [|apply star_refl]. eexists.
  refine (step_commit ex_hash ex_yaml ex_shape _ 0 true (ex_manifest "1.0.0") "bytes"
    (ex_publish "1.0.0" "bytes" "t1") _ (inl _) _ _); reflexivity.
Qed.

Lemma registry_immutable_witness :
  exists r, download (published "1.0.0" "bytes" "t1") "notes" "1.0.0" = Some "bytes" /\
    resolveVersion (tables (published "1.0.0" "bytes" "t1")) "notes" "1.0.0" = Some r.
Proof.
  set (s := published "1.0.0" "bytes" "t1").
  destruct (resolveVersion (tables s) "notes" "1.0.0") as [r|] eqn:E; [|vm_compute in E; discriminate E].
  exists r.
  destruct (registry_immutable ex_hash ex_yaml ex_shape s s "notes" "1.0.0" r "bytes" ex_published_reachable
              (star_refl _ s)) as [Hr Hd].
  - discriminate.
  - exact E.
  - vm_compute. reflexivity.
  - split; [exact Hd|reflexivity].
Defined.

Definition ex_db : db :=
  {| apps := [app_record (ex_manifest "9.9.9") "" (ex_publish "" "" ""); app_record (ex_manifest "10.0.0") "" (ex_publish "" "" "")];
     app_owners := [] |}.

Lemma getLatest_max_witness :
  exists r, getLatest "notes" ex_db = Some r /\ version r = "10.0.0" /\ r ∈ apps ex_db.
Proof.
  destruct (getLatest "notes" ex_db) as [r|] eqn:E; [|vm_compute in E; discriminate E].
  exists r. split; [reflexivity|]. split; [revert E; vm_compute; intros [= <-]; reflexivity|].
  refine (proj1 (proj1 (getLatest_max "notes" ex_db _) r E)).
  assert (Hall : forallb (fun r => match numbers (version r) with Some _ => true | None => false end) (apps ex_db) = true)
    by (vm_compute; reflexivity).
  intros r' Hr' _. apply list_elem_of_In in Hr'. rewrite forallb_forall in Hall. specialize (Hall r' Hr').
  destruct (numbers (version r')); [eauto|discriminate Hall].
Defined.

Lemma registry_first_publish_race_witness :
  exists s5 s6, star ex_moves empty_state s5 /\
    step ex_hash ex_yaml ex_shape s5 (Some (1, InternalError)) s6 /\
    app_record (ex_manifest "2.0.0") "b2" (ex_publish "2.0.0" "b2" "t2") ∈ apps (tables s6) /\
    JsMap.get "notes" (app_owners (tables s6)) = Some "ht1".
Proof.
  apply (registry_first_publish_race ex_hash ex_yaml ex_shape empty_state 0 1
    (ex_publish "1.0.0" "b1" "t1") (ex_publish "2.0.0" "b2" "t2") (ex_manifest "1.0.0") (ex_manifest "2.0.0")
    "b1" "b2" "1.0.0" "2.0.0"); try reflexivity; discriminate.
Defined.

End Registry.
