(* ===== verification/Secrets.v ===== *)
(** * Secrets delivered to a container (packages/docker-orchestrator/src/secrets.ts)

    Which environment variables are credentials, which app receives which, the
    files they travel in, and what a snapshot keeps. An environment is a
    JavaScript object with string values: its own entries, each name once. The
    text of a secrets file is read back by [sh_source], the part of the POSIX
    shell's quoting rules docker/entrypoint.sh relies on when it sources it. *)
From Stdlib Require Import Sorted.
From S2P Require Import Prelude Paths Manifest.

Module Secrets.
Import NodePath.

Abbreviation env := (list (string * string)).


(** ** Which names are credentials *)

Definition SECRET_NAME_FRAGMENTS : list string :=
  ["SECRET"; "TOKEN"; "PASSWORD"; "PASSWD"; "CREDENTIAL"; "API_KEY"; "APIKEY";
   "ACCESS_KEY"; "PRIVATE_KEY"; "SESSION_KEY"; "AUTH"].
Definition SECRET_NAME_SUFFIXES : list string := ["_KEY"; "_PAT"].
Definition EXPLICIT_SECRET_NAMES : list string := [].
Definition NEVER_SECRET_NAMES : list string := [].

Definition isSecretEnvName (name : string) : bool :=
  let upper := Str.to_upper name in
  if bool_decide (upper ∈ NEVER_SECRET_NAMES) then false
  else if bool_decide (upper ∈ EXPLICIT_SECRET_NAMES) then true
  else if existsb (fun suffix => Str.ends_with suffix upper) SECRET_NAME_SUFFIXES then true
  else existsb (fun fragment => Str.includes fragment upper) SECRET_NAME_FRAGMENTS.

(** ** Splitting an environment *)

Record PartitionedEnv := { plain : env; secret : env }.

Definition partition_one (declared : list string) (acc : PartitionedEnv) (nv : string * string)
  : PartitionedEnv :=
  let '(name, value) := nv in
  if bool_decide (name ∈ declared) || isSecretEnvName name
  then {| plain := plain acc; secret := JsObj.assign name value (secret acc) |}
  else {| plain := JsObj.assign name value (plain acc); secret := secret acc |}.

Definition partitionSecretEnv (e : env) (declaredNames : list string) : PartitionedEnv :=
  foldl (partition_one (JsSet.of_list declaredNames)) {| plain := []; secret := [] |} e.

Record AppSecretsDeclaration := { app_name : string; app_secrets : list string }.

Record PerAppSecretPartition := {
  shared : env;
  perApp : list (string * env);
  missing : list (string * string)   (* app, name *)
}.

(** The first loop: who declares each name that has a value, and who declares
    one that has none. *)
Definition declare_one (sec : env) (app : string)
    (acc : list (string * list string) * list (string * string)) (name : string)
  : list (string * list string) * list (string * string) :=
  let '(declaredBy, miss) := acc in
  if negb (JsObj.inb name sec) then (declaredBy, miss ++ [(app, name)])
  else
    let owners := or_default [] (JsMap.get name declaredBy) in
    (JsMap.put name (owners ++ [app]) declaredBy, miss).

Definition declare_all (sec : env) (apps : list AppSecretsDeclaration)
  : list (string * list string) * list (string * string) :=
  foldl (fun acc app => foldl (declare_one sec (app_name app)) acc (app_secrets app)) ([], []) apps.

(** [(perApp[owner] ??= {})[name] = value]. The read finds an inherited member
    when [perApp] has no own entry: the assignment then reaches that built-in,
    and [perApp] itself is not changed. *)
Definition deliver (name value : string) (per : list (string * env)) (owner : string)
  : list (string * env) :=
  match JsMap.get owner per with
  | Some o => JsMap.put owner (JsObj.assign name value o) per
  | None =>
      if bool_decide (owner ∈ JsObj.inherited) then per
      else JsMap.put owner (JsObj.assign name value []) per
  end.

Definition deliver_one (declaredBy : list (string * list string))
    (acc : env * list (string * env)) (nv : string * string) : env * list (string * env) :=
  let '(sh, per) := acc in
  let '(name, value) := nv in
  match JsMap.get name declaredBy with
  | None => (JsObj.assign name value sh, per)
  | Some owners => (sh, foldl (deliver name value) per owners)
  end.

Definition partitionSecretsPerApp (sec : env) (apps : list AppSecretsDeclaration)
  : PerAppSecretPartition :=
  let '(declaredBy, miss) := declare_all sec apps in
  let '(sh, per) := foldl (deliver_one declaredBy) ([], []) sec in
  {| shared := sh; perApp := per; missing := miss |}.

(** ** What a snapshot keeps *)

Definition BOOT_SCOPED_ENV_NAMES : list string := ["BERTH_SECRETS_FILE"; "BERTH_APP_SECRETS_DIR"].

(** [names.sort()] *)
Fixpoint insert_name (n : string) (l : list string) : list string :=
  match l with
  | [] => [n]
  | m :: l' => if Str.ltb m n then m :: insert_name n l' else n :: l
  end.
Definition sort_names (l : list string) : list string := foldr insert_name [] l.

Definition stripSecretEnv (e : env) : env * list string :=
  let p := partitionSecretEnv e [] in
  (foldl (fun o name => JsMap.remove name o) (plain p) BOOT_SCOPED_ENV_NAMES,
   sort_names (filter (fun name => name ∉ BOOT_SCOPED_ENV_NAMES) (secret p).*1)).

(** ** The secrets file *)

Definition newline : ascii := ascii_of_nat 10.
Definition squote : ascii := ascii_of_nat 39.
Definition backslash : ascii := ascii_of_nat 92.
Definition nl : string := String newline "".

(** [/^[A-Za-z_][A-Za-z0-9_]*$/], as in the manifest schema. *)
Definition VALID_ENV_NAME : string -> bool := Manifest.env_name_ok.

(** [value.replaceAll(q, q + backslash + q + q)] for the single quote [q]. *)
Fixpoint sq_escape (s : string) : string :=
  match s with
  | EmptyString => EmptyString
  | String c s' =>
      if Ascii.eqb c squote
      then String squote (String backslash (String squote (String squote (sq_escape s'))))
      else String c (sq_escape s')
  end.

(** The file's text as its UTF-8 bytes: the dash of the third line is three of them. *)
Definition header_lines : list string :=
  ["# Generated by @berthos/docker-orchestrator, sourced by docker/entrypoint.sh.";
   "# One container boot's credentials. Not in `docker inspect`, not in any";
   "# image layer, not in a snapshot " +:+ String (ascii_of_nat 226) (String (ascii_of_nat 128)
     (String (ascii_of_nat 148) " see docs/secrets-reference.md."))].

Definition export_line (name value : string) : string :=
  "export " +:+ name +:+ "=" +:+ String squote (sq_escape value) +:+ String squote "".

(** The error carries the name that no shell can represent. *)
Fixpoint export_lines (l : env) : result string (list string) :=
  match l with
  | [] => Ok []
  | (name, value) :: l' =>
      if negb (VALID_ENV_NAME name) then Err name
      else let? ls := export_lines l' in Ok (export_line name value :: ls)
  end.

Definition serializeSecretsEnvFile (secrets : env) : result string string :=
  let? ls := export_lines secrets in
  Ok (Str.join nl (header_lines ++ ls) +:+ nl).

(** ** The shell's reading of it *)

(** Where the reader is: at the start of a line, in a comment, in the word
    [export ] with that much of it still to come, in a name, in the value
    outside quotes, inside single quotes, or after an unquoted backslash. *)
Inductive sh_state : Type :=
| AtLine
| InComment
| InExport (rest : string)
| InName (name : string)
| InValue (name value : string)
| InQuote (name value : string)
| InEscape (name value : string).

Definition snoc (s : string) (c : ascii) : string := s +:+ String c "".

Definition sh_step (st : sh_state) (c : ascii) : option (sh_state * option (string * string)) :=
  match st with
  | AtLine =>
      if Ascii.eqb c "#" then Some (InComment, None)
      else if Ascii.eqb c newline then Some (AtLine, None)
      else if Ascii.eqb c "e" then Some (InExport "xport ", None) else None
  | InComment => Some (if Ascii.eqb c newline then AtLine else InComment, None)
  | InExport (String d rest) =>
      if Ascii.eqb c d then Some (if String.eqb rest "" then InName "" else InExport rest, None) else None
  | InExport "" => None
  | InName n =>
      if Ascii.eqb c "=" then if VALID_ENV_NAME n then Some (InValue n "", None) else None
      else Some (InName (snoc n c), None)
  | InValue n v =>
      if Ascii.eqb c squote then Some (InQuote n v, None)
      else if Ascii.eqb c backslash then Some (InEscape n v, None)
      else if Ascii.eqb c newline then Some (AtLine, Some (n, v)) else None
  | InQuote n v =>
      if Ascii.eqb c squote then Some (InValue n v, None) else Some (InQuote n (snoc v c), None)
  | InEscape n v => if Ascii.eqb c newline then None else Some (InValue n (snoc v c), None)
  end.

(** The assignments a file makes, in order; [None] for text outside this
    fragment of the shell. *)
Fixpoint sh_run (st : sh_state) (s : string) : option (list (string * string)) :=
  match s with
  | EmptyString => match st with AtLine => Some [] | _ => None end
  | String c s' =>
      match sh_step st c with
      | None => None
      | Some (st', out) =>
          (fun l => match out with Some nv => nv :: l | None => l end) <$> sh_run st' s'
      end
  end.
Definition sh_source (text : string) : option (list (string * string)) := sh_run AtLine text.

(** ** The files on the host *)

Record host_file := { content : string; mode : Z }.
(** Files and directory modes by path; [dirs] holds the directories. *)
Record host := { files : gmap string host_file; dirs : gmap string Z }.

Section host.
(** The process's umask. *)
Context (umask : Z).

Definition masked (m : Z) : Z := Z.land m (Z.lnot umask).

(** [mkdir(dir, { recursive, mode })]: an existing directory keeps its mode. *)
Definition mkdir (dir : string) (m : Z) (h : host) : host :=
  {| files := files h;
     dirs := match dirs h !! dir with Some _ => dirs h | None => <[dir := masked m]> (dirs h) end |}.
Definition chmod_dir (dir : string) (m : Z) (h : host) : host :=
  {| files := files h; dirs := <[dir := m]> (dirs h) |}.

(** [writeFile(path, text, { mode })]: the mode is for a new file only. *)
Definition writeFile (path text : string) (m : Z) (h : host) : host :=
  {| files := <[path := {| content := text;
                           mode := match files h !! path with Some f => mode f | None => masked m end |}]>
              (files h);
     dirs := dirs h |}.
Definition chmod (path : string) (m : Z) (h : host) : host :=
  {| files := alter (fun f => {| content := content f; mode := m |}) path (files h); dirs := dirs h |}.

Definition MODE_DIR : Z := 448.   (* 0o700 *)
Definition MODE_FILE : Z := 384.  (* 0o600 *)

Definition containerSecretsDir (containerName runDir : string) : string := join [runDir; containerName].

(** The body of both writers: directory, file, and their modes. *)
Definition write_secrets (path : string) (secrets : env) (h : host) : result string host :=
  let? text := serializeSecretsEnvFile secrets in
  Ok (chmod path MODE_FILE (writeFile path text MODE_FILE h)).

Definition ensure_dir (dir : string) (h : host) : host := chmod_dir dir MODE_DIR (mkdir dir MODE_DIR h).

Definition writeContainerSecretsFile (containerName : string) (secrets : env) (runDir : string) (h : host)
  : host * result string string :=
  let dir := containerSecretsDir containerName runDir in
  let h := ensure_dir dir h in
  let path := join [dir; "secrets.env"] in
  match write_secrets path secrets h with
  | Ok h' => (h', Ok path)
  | Err e => (h, Err e)
  end.

Definition app_file (dir app : string) : string := join [dir; "secrets." +:+ app +:+ ".env"].

Fixpoint write_apps (dir : string) (per : list (string * env)) (h : host) : host * result string unit :=
  match per with
  | [] => (h, Ok tt)
  | (app, secrets) :: per' =>
      match write_secrets (app_file dir app) secrets h with
      | Ok h' => write_apps dir per' h'
      | Err e => (h, Err e)
      end
  end.

Definition writePerAppSecretsFiles (containerName : string) (per : list (string * env)) (runDir : string)
    (h : host) : host * result string (option string) :=
  match per with
  | [] => (h, Ok None)
  | _ =>
      let dir := join [containerSecretsDir containerName runDir; "apps"] in
      let '(h', r) := write_apps dir per (ensure_dir dir h) in
      (h', rbind r (fun _ => Ok (Some dir)))
  end.
End host.

(** [(info.mode & 0o077) !== 0], false when [stat] fails. *)
Definition isGroupOrWorldReadable (info : option Z) : bool :=
  match info with Some m => negb (Z.eqb (Z.land m 63) 0) | None => false end.

(** ** Lemmas: objects built entry by entry *)

(** An object's own entries: each name once, and none called [__proto__] (the
    one name an assignment never makes an own entry of). *)
Definition wf_env (e : env) : Prop := NoDup e.*1 /\ "__proto__" ∉ e.*1.

Lemma wf_env_cons n v e : wf_env ((n, v) :: e) -> (n ∉ e.*1) /\ n <> "__proto__" /\ wf_env e.
Proof.
  intros [[Hn Hnd]%NoDup_cons Hp]. cbn in *. split_and!; [done| |split; [done|]]; intros H; apply Hp.
  - subst. apply list_elem_of_here.
  - by apply list_elem_of_further.
Qed.

Lemma get_cons {A} (n m : string) (v : A) e : JsMap.get n ((m, v) :: e) = if decide (n = m) then Some v else JsMap.get n e.
Proof. done. Qed.

Lemma wf_assign n v e : wf_env e -> wf_env (JsObj.assign n v e).
Proof.
  intros [H1 H2]. unfold JsObj.assign. destruct (String.eqb_spec n "__proto__"); [done|].
  split; [by apply JsMap.NoDup_put|]. rewrite JsMap.keys_put. case_decide; [done|]. set_solver.
Qed.

(** [v] if the name is there, or else the value it had. *)
Definition over (v w : option string) : option string := match v with Some _ => v | None => w end.

Lemma over_none v : over v None = v.
Proof. by destruct v. Qed.

Lemma partition_fold declared e acc n :
  wf_env e ->
  let p := foldl (partition_one declared) acc e in
  let s := bool_decide (n ∈ declared) || isSecretEnvName n in
  JsMap.get n (plain p) = over (if s then None else JsMap.get n e) (JsMap.get n (plain acc)) /\
  JsMap.get n (secret p) = over (if s then JsMap.get n e else None) (JsMap.get n (secret acc)).
Proof.
  cbv zeta. revert acc; induction e as [|[m v] e IH]; intros acc Hwf; [by destruct (_ || _)|].
  apply wf_env_cons in Hwf as (Hm & Hp & Hwf). cbn [foldl].
  destruct (IH (partition_one declared acc (m, v)) Hwf) as [-> ->]. clear IH.
  apply JsMap.get_None in Hm. unfold partition_one. rewrite get_cons.
  destruct (decide (n = m)) as [->|Hne].
  - rewrite Hm. destruct (bool_decide (m ∈ declared) || isSecretEnvName m); cbn;
      rewrite JsObj.get_assign, decide_True by done; done.
  - destruct (bool_decide (m ∈ declared) || isSecretEnvName m); cbn;
      rewrite JsObj.get_assign, decide_False by done; done.
Qed.

Lemma partition_wf declared e : forall acc, wf_env (plain acc) -> wf_env (secret acc) ->
  wf_env (plain (foldl (partition_one declared) acc e)) /\
  wf_env (secret (foldl (partition_one declared) acc e)).
Proof.
  induction e as [|[m v] e IH]; intros acc H1 H2; [done|]. cbn [foldl]. apply IH; unfold partition_one;
    destruct (bool_decide (m ∈ declared) || isSecretEnvName m); cbn; auto using wf_assign.
Qed.

Lemma wf_nil : wf_env [].
Proof. split; [constructor|set_solver]. Qed.

(** ** Who receives which secret *)

Definition declares (apps : list AppSecretsDeclaration) (app name : string) : Prop :=
  exists d, d ∈ apps /\ app_name d = app /\ name ∈ app_secrets d.

#[export] Instance declares_dec apps app name : Decision (declares apps app name).
Proof.
  refine (cast_if (decide (Exists (fun d => app_name d = app /\ name ∈ app_secrets d) apps)));
    unfold declares; rewrite Exists_exists in *; naive_solver.
Defined.

Definition declared_by_any (apps : list AppSecretsDeclaration) (name : string) : Prop :=
  exists d, d ∈ apps /\ name ∈ app_secrets d.

#[export] Instance declared_by_any_dec apps name : Decision (declared_by_any apps name).
Proof.
  refine (cast_if (decide (Exists (fun d => name ∈ app_secrets d) apps)));
    unfold declared_by_any; rewrite Exists_exists in *; naive_solver.
Defined.

(** The owners of [name] that [declare_all] records: one per declaration. *)
Definition owners_of (sec : env) (apps : list AppSecretsDeclaration) (name : string) : list string :=
  if JsObj.inb name sec
  then mjoin ((fun d => (fun _ => app_name d) <$> filter (fun m => name = m) (app_secrets d)) <$> apps)
  else [].

Definition owners_in (acc : list (string * list string)) (name : string) : list string :=
  or_default [] (JsMap.get name acc).

(** A recorded list of owners is never empty. *)
Definition owners_nonempty (acc : list (string * list string)) : Prop :=
  forall name, JsMap.get name acc <> Some [].

Lemma declare_names sec app names acc miss :
  owners_nonempty acc ->
  let r := foldl (declare_one sec app) (acc, miss) names in
  owners_nonempty r.1 /\
  (forall name, owners_in r.1 name = owners_in acc name ++
     (if JsObj.inb name sec then (fun _ => app) <$> filter (fun m => name = m) names else [])) /\
  r.2 = miss ++ ((fun n => (app, n)) <$> filter (fun n => JsObj.inb n sec = false) names).
Proof.
  cbv zeta. revert acc miss; induction names as [|m names IH]; intros acc miss Hne; cbn [foldl].
  - split_and!; [done| |by rewrite app_nil_r]. intros name. by destruct (JsObj.inb name sec); rewrite app_nil_r.
  - assert (declare_one sec app (acc, miss) m =
      if JsObj.inb m sec then (JsMap.put m (owners_in acc m ++ [app]) acc, miss) else (acc, miss ++ [(app, m)]))
      as -> by (unfold declare_one, owners_in; by destruct (JsObj.inb m sec)).
    rewrite !filter_cons. destruct (JsObj.inb m sec) eqn:E.
    + destruct (IH (JsMap.put m (owners_in acc m ++ [app]) acc) miss) as (H1 & H2 & H3).
      { intros name. rewrite JsMap.get_put. case_decide; [|apply Hne]. by destruct (owners_in acc m). }
      split_and!; [done| |by rewrite H3, decide_False by congruence].
      intros name. rewrite H2. unfold owners_in at 1. rewrite JsMap.get_put.
      rewrite filter_cons. destruct (decide (name = m)) as [->|Hn]; [|done].
      rewrite E. cbn. by rewrite <- app_assoc.
    + destruct (IH acc (miss ++ [(app, m)]) Hne) as (H1 & H2 & H3).
      split_and!; [done| |by rewrite H3, decide_True, <- app_assoc by done].
      intros name. rewrite H2, filter_cons. destruct (decide (name = m)) as [->|]; [|done]. by rewrite E.
Qed.

Lemma declare_all_spec sec apps :
  let r := declare_all sec apps in
  owners_nonempty r.1 /\
  (forall name, owners_in r.1 name = owners_of sec apps name) /\
  r.2 = mjoin ((fun d => (fun n => (app_name d, n)) <$>
                 filter (fun n => JsObj.inb n sec = false) (app_secrets d)) <$> apps).
Proof.
  cbv zeta. unfold declare_all.
  cut (forall acc miss, owners_nonempty acc ->
    let r := foldl (fun acc app => foldl (declare_one sec (app_name app)) acc (app_secrets app)) (acc, miss) apps in
    owners_nonempty r.1 /\
    (forall name, owners_in r.1 name = owners_in acc name ++ owners_of sec apps name) /\
    r.2 = miss ++ mjoin ((fun d => (fun n => (app_name d, n)) <$>
                 filter (fun n => JsObj.inb n sec = false) (app_secrets d)) <$> apps)).
  { intros H. by apply H. }
  cbv zeta. unfold owners_of. induction apps as [|d apps IH]; intros acc miss Hne; cbn [foldl fmap list_fmap mjoin].
  - split_and!; [done| |by rewrite app_nil_r]. intros name. by case_match; rewrite app_nil_r.
  - destruct (declare_names sec (app_name d) (app_secrets d) acc miss Hne) as (H1 & H2 & H3).
    destruct (foldl _ (acc, miss) (app_secrets d)) as [acc' miss'] eqn:E. cbn [fst snd] in *.
    destruct (IH acc' miss' H1) as (K1 & K2 & K3). split_and!; [done| |].
    + intros name. rewrite K2, H2. by destruct (JsObj.inb name sec); rewrite <- ?app_assoc.
    + rewrite K3, H3. by rewrite <- app_assoc.
Qed.

Lemma elem_of_owners sec apps name app :
  app ∈ owners_of sec apps name <-> JsObj.inb name sec = true /\ declares apps app name.
Proof.
  unfold owners_of, declares. destruct (JsObj.inb name sec); [|set_solver].
  rewrite list_elem_of_join. setoid_rewrite list_elem_of_fmap. split.
  - intros (l & Hin & d & -> & Hd). apply list_elem_of_fmap in Hin as (m & -> & [-> Hm]%list_elem_of_filter).
    naive_solver.
  - intros (_ & d & Hd & <- & Hn). eexists; split; [|by exists d].
    apply list_elem_of_fmap. exists name. split; [done|]. by apply list_elem_of_filter.
Qed.

Lemma inb_own {A} n (e : list (string * A)) v : JsMap.get n e = Some v -> JsObj.inb n e = true.
Proof. intros H. unfold JsObj.inb, JsMap.has. by rewrite H. Qed.

(** The value of [name] in the file of [app]. *)
Definition held (per : list (string * env)) (app name : string) : option string :=
  JsMap.get app per ≫= JsMap.get name.

Lemma held_put per owner o a n :
  held (JsMap.put owner o per) a n = if decide (a = owner) then JsMap.get n o else held per a n.
Proof. unfold held. rewrite JsMap.get_put. by case_decide. Qed.

Lemma held_deliver name value per owner a n :
  a ∉ JsObj.inherited -> name <> "__proto__" ->
  held (deliver name value per owner) a n =
    if decide (owner = a /\ name = n) then Some value else held per a n.
Proof.
  intros Ha Hp. unfold deliver. destruct (JsMap.get owner per) as [o|] eqn:Eo.
  - rewrite held_put, JsObj.get_assign by done. unfold held.
    destruct (decide (a = owner)) as [->|]; [rewrite Eo; cbn|]; repeat case_decide; naive_solver.
  - case_bool_decide; [rewrite decide_False; [done|naive_solver]|].
    rewrite held_put, JsObj.get_assign by done. unfold held.
    destruct (decide (a = owner)) as [->|]; [rewrite Eo; cbn|]; repeat case_decide; naive_solver.
Qed.

Lemma held_deliver_all name value per owners a n :
  a ∉ JsObj.inherited -> name <> "__proto__" ->
  held (foldl (deliver name value) per owners) a n =
    if decide (a ∈ owners /\ name = n) then Some value else held per a n.
Proof.
  intros Ha Hp. revert per; induction owners as [|o owners IH]; intros per; cbn [foldl].
  - rewrite decide_False; [done|set_solver].
  - rewrite IH, held_deliver by done. repeat case_decide; set_solver.
Qed.

Lemma deliver_fold declaredBy e : wf_env e -> owners_nonempty declaredBy -> forall sh per,
  let r := foldl (deliver_one declaredBy) (sh, per) e in
  (forall n, JsMap.get n r.1 =
     over (if decide (owners_in declaredBy n = []) then JsMap.get n e else None) (JsMap.get n sh)) /\
  (forall a n, a ∉ JsObj.inherited -> held r.2 a n =
     over (if decide (a ∈ owners_in declaredBy n) then JsMap.get n e else None) (held per a n)).
Proof.
  cbv zeta. intros Hwf Hne. induction e as [|[m v] e IH]; intros sh per.
  - split; intros; by case_decide.
  - apply wf_env_cons in Hwf as (Hm & Hp & Hwf). apply JsMap.get_None in Hm. cbn [foldl].
    unfold deliver_one at 2 4. assert (Hin : owners_in declaredBy m = or_default [] (JsMap.get m declaredBy)) by done.
    specialize (Hne m). destruct (JsMap.get m declaredBy) as [owners|]; cbn [or_default] in Hin.
    + assert (owners <> []) by congruence.
      destruct (IH Hwf sh (foldl (deliver m v) per owners)) as [H1 H2]. split.
      * intros n. rewrite H1, get_cons. destruct (decide (n = m)) as [->|]; [|done].
        rewrite Hin, Hm. by rewrite !decide_False.
      * intros a n Ha. rewrite H2, held_deliver_all, get_cons by done.
        destruct (decide (n = m)) as [->|]; [rewrite Hin, Hm|]; repeat case_decide; naive_solver.
    + destruct (IH Hwf (JsObj.assign m v sh) per) as [H1 H2]. split.
      * intros n. rewrite H1, JsObj.get_assign, get_cons by done.
        destruct (decide (n = m)) as [->|]; [|done]. by rewrite Hin, Hm, !decide_True.
      * intros a n Ha. rewrite H2, get_cons by done. destruct (decide (n = m)) as [->|]; [|done].
        rewrite Hin, decide_False; set_solver.
Qed.

(** ** The file, read back *)

Lemma valid_name_chars n : VALID_ENV_NAME n = true -> Str.all Manifest.env_char n = true.
Proof.
  destruct n as [|c n]; [done|]. unfold VALID_ENV_NAME, Manifest.env_name_ok. cbn [Str.all].
  rewrite !andb_true_iff. intros [Hc ->]. unfold Manifest.env_char. by rewrite Hc.
Qed.

Lemma sh_silent st c st' s : sh_step st c = Some (st', None) -> sh_run st (String c s) = sh_run st' s.
Proof. intros H. cbn [sh_run]. rewrite H. by destruct (sh_run st' s). Qed.

Lemma sh_comment l s :
  Str.any (Ascii.eqb newline) l = false -> sh_run InComment (l +:+ String newline s) = sh_run AtLine s.
Proof.
  induction l as [|c l IH]; intros H.
  - rewrite app_empty_str. cbn [sh_run]. unfold sh_step. rewrite Ascii.eqb_refl. by destruct (sh_run AtLine s).
  - rewrite app_cons_str. cbn [sh_run]. cbn [Str.any] in H. apply orb_false_iff in H as [Hc Hl].
    unfold sh_step. rewrite Ascii.eqb_sym, Hc, IH by done. by destruct (sh_run AtLine s).
Qed.

Lemma sh_comment_line w s :
  Str.starts_with "#" w = true -> Str.any (Ascii.eqb newline) w = false ->
  sh_run AtLine (w +:+ String newline s) = sh_run AtLine s.
Proof.
  destruct w as [|c w]; [done|]. cbn [Str.starts_with Str.any]. rewrite andb_true_r.
  intros <-%Ascii.eqb_eq [_ Hw]%orb_false_iff.
  rewrite app_cons_str, (sh_silent AtLine "#" InComment) by reflexivity. by apply sh_comment.
Qed.

Lemma snoc_app s c t : snoc s c +:+ t = s +:+ String c t.
Proof. unfold snoc. by rewrite app_assoc_str. Qed.

Lemma sh_name n m s :
  Str.all Manifest.env_char n = true -> VALID_ENV_NAME (m +:+ n) = true ->
  sh_run (InName m) (n +:+ String "=" s) = sh_run (InValue (m +:+ n) "") s.
Proof.
  revert m; induction n as [|c n IH]; intros m Hn Hv.
  - rewrite app_nil_r_str in *. rewrite app_empty_str. cbn [sh_run]. unfold sh_step.
    rewrite Ascii.eqb_refl, Hv. by destruct (sh_run _ s).
  - cbn [Str.all] in Hn. apply andb_true_iff in Hn as [Hc Hn]. rewrite app_cons_str. cbn [sh_run].
    unfold sh_step at 1. assert (Ascii.eqb c "=" = false) as -> by (apply Ascii.eqb_neq; by intros ->).
    rewrite IH; rewrite ?snoc_app; try done. by destruct (sh_run _ s).
Qed.

Lemma sh_quoted n v u s :
  sh_run (InQuote n u) (sq_escape v +:+ String squote s) = sh_run (InValue n (u +:+ v)) s.
Proof.
  revert u; induction v as [|c v IH]; intros u.
  - rewrite app_nil_r_str. cbn [sq_escape]. rewrite app_empty_str. cbn [sh_run]. unfold sh_step at 1.
    rewrite Ascii.eqb_refl. by destruct (sh_run _ s).
  - cbn [sq_escape]. destruct (Ascii.eqb_spec c squote) as [->|Hc].
    + rewrite !app_cons_str. cbn [sh_run]. unfold sh_step at 1 2 3 4.
      change (Ascii.eqb squote squote) with true. change (Ascii.eqb backslash squote) with false.
      change (Ascii.eqb backslash backslash) with true. change (Ascii.eqb squote newline) with false.
      cbv iota. rewrite IH, snoc_app. by destruct (sh_run _ s).
    + rewrite app_cons_str. cbn [sh_run]. unfold sh_step at 1. apply Ascii.eqb_neq in Hc as ->.
      rewrite IH, snoc_app. by destruct (sh_run _ s).
Qed.

Lemma sh_export n v s :
  VALID_ENV_NAME n = true ->
  sh_run AtLine (export_line n v +:+ String newline s) = (cons (n, v)) <$> sh_run AtLine s.
Proof.
  intros Hn. unfold export_line. rewrite !app_assoc_str.
  transitivity (sh_run (InName "") (n +:+ String "=" (String squote (sq_escape v +:+ String squote (String newline s))))).
  { rewrite ?app_cons_str, ?app_empty_str. by repeat (erewrite sh_silent by reflexivity). }
  rewrite sh_name by (rewrite ?app_empty_str; auto using valid_name_chars). rewrite app_empty_str.
  cbn [sh_run]. unfold sh_step at 1. rewrite Ascii.eqb_refl. rewrite sh_quoted, app_empty_str.
  cbn [sh_run]. unfold sh_step at 1. change (Ascii.eqb newline squote) with false.
  change (Ascii.eqb newline backslash) with false. rewrite Ascii.eqb_refl. by destruct (sh_run _ s).
Qed.

(** Lines, each with its newline. *)
Definition lines_text (ws : list string) : string := foldr (fun w t => w +:+ String newline t) "" ws.

Lemma join_lines w ws : Str.join nl (w :: ws) +:+ nl = lines_text (w :: ws).
Proof.
  revert w; induction ws as [|w' ws IH]; intros w; [done|].
  change (Str.join nl (w :: w' :: ws)) with (w +:+ nl +:+ Str.join nl (w' :: ws)).
  rewrite !app_assoc_str, IH. done.
Qed.

Lemma export_lines_run l ls : export_lines l = Ok ls -> sh_run AtLine (lines_text ls) = Some l.
Proof.
  revert ls; induction l as [|[n v] l IH]; intros ls; cbn [export_lines]; [by intros [= <-]|].
  destruct (VALID_ENV_NAME n) eqn:En; cbn [negb]; [|done].
  destruct (export_lines l) as [ls'|] eqn:El; [|done]. cbn [rbind]. intros [= <-].
  change (lines_text (export_line n v :: ls')) with (export_line n v +:+ String newline (lines_text ls')).
  by rewrite sh_export, (IH ls').
Qed.

Lemma sh_header s : sh_run AtLine (foldr (fun w t => w +:+ String newline t) s header_lines) = sh_run AtLine s.
Proof.
  unfold header_lines. cbn [foldr].
  by rewrite !sh_comment_line by reflexivity.
Qed.

Lemma export_lines_ok l :
  match export_lines l with
  | Ok _ => Forall (fun n => VALID_ENV_NAME n = true) l.*1
  | Err n => exists a b v, l = a ++ (n, v) :: b /\ Forall (fun m => VALID_ENV_NAME m = true) a.*1 /\
               VALID_ENV_NAME n = false
  end.
Proof.
  induction l as [|[n v] l IH]; cbn [export_lines]; [constructor|].
  destruct (VALID_ENV_NAME n) eqn:En; cbn [negb]; [|by exists [], l, v].
  destruct (export_lines l) as [ls|m]; cbn [rbind].
  - by constructor.
  - destruct IH as (a & b & w & -> & Ha & Hm). exists ((n, v) :: a), b, w. split_and!; [done|by constructor|done].
Qed.

Lemma serialize_ok secrets :
  match serializeSecretsEnvFile secrets with
  | Ok text => sh_source text = Some secrets
  | Err _ => True
  end.
Proof.
  unfold serializeSecretsEnvFile. destruct (export_lines secrets) as [ls|] eqn:E; cbn [rbind]; [|done].
  unfold sh_source, header_lines. cbn [app]. rewrite join_lines.
  change (lines_text _) with (foldr (fun w t => w +:+ String newline t) (lines_text ls) header_lines).
  rewrite sh_header. by apply export_lines_run.
Qed.

(** ** The files, after writing *)

Lemma write_secrets_spec umask path secrets h h' :
  write_secrets umask path secrets h = Ok h' ->
  dirs h' = dirs h /\
  exists text, sh_source text = Some secrets /\
    files h' = <[path := {| content := text; mode := MODE_FILE |}]> (files h).
Proof.
  unfold write_secrets. pose proof (serialize_ok secrets) as Hs.
  destruct (serializeSecretsEnvFile secrets) as [text|]; cbn [rbind]; [|done]. intros [= <-].
  split; [done|]. exists text. split; [done|]. cbn. by rewrite alter_insert, decide_True.
Qed.

Lemma write_apps_spec umask dir per : forall h h',
  write_apps umask dir per h = (h', Ok tt) ->
  NoDup per.*1 -> (forall a b, a ∈ per.*1 -> b ∈ per.*1 -> app_file dir a = app_file dir b -> a = b) ->
  dirs h' = dirs h /\
  (forall path, (forall a, a ∈ per.*1 -> path <> app_file dir a) -> files h' !! path = files h !! path) /\
  (forall app secrets, JsMap.get app per = Some secrets ->
     exists text, sh_source text = Some secrets /\
       files h' !! app_file dir app = Some {| content := text; mode := MODE_FILE |}).
Proof.
  induction per as [|[a secrets] per IH]; intros h h' Hw Hnd Hinj; cbn [write_apps] in Hw.
  { injection Hw as <-. split_and!; done. }
  destruct (write_secrets umask (app_file dir a) secrets h) as [h1|] eqn:E1; [|done].
  apply write_secrets_spec in E1 as (Hd1 & text & Ht & Hf1). cbn in Hnd. apply NoDup_cons in Hnd as [Ha Hnd].
  destruct (IH h1 h' Hw Hnd) as (Hd & Hframe & Happs).
  { intros; apply Hinj; try done; by apply list_elem_of_further. }
  split_and!; [by rewrite Hd| |].
  - intros path Hp. rewrite Hframe, Hf1, lookup_insert_ne; [done| |].
    + apply not_eq_sym, Hp, list_elem_of_here.
    + intros b Hb. by apply Hp, list_elem_of_further.
  - intros app sec. rewrite get_cons. case_decide as Hap; [|apply Happs]. subst app. intros [= <-].
    exists text. split; [done|]. rewrite Hframe, Hf1, lookup_insert, decide_True; [done|done|].
    intros b Hb Heq. apply Ha. rewrite (Hinj a b); [done| | |done].
    + apply list_elem_of_here.
    + by apply list_elem_of_further.
Qed.

Lemma app_file_good a : Str.any (Ascii.eqb slash) a = false -> good ("secrets." +:+ a +:+ ".env").
Proof. intros H. split_and!; try done. by rewrite !StrFacts.any_app, H. Qed.

Lemma app_file_inj segs a b :
  Forall good segs -> Str.any (Ascii.eqb slash) a = false -> Str.any (Ascii.eqb slash) b = false ->
  app_file (abs_path segs) a = app_file (abs_path segs) b -> a = b.
Proof.
  intros Hs Ha Hb. unfold app_file. rewrite !join_abs_path by auto using app_file_good.
  intros E%abs_path_inj; [|by apply Forall_app_2; auto using app_file_good..].
  apply app_inj_tail in E as [_ E]. apply app_inj_r_str in E.
  apply (f_equal (Str.take (String.length a))) in E as E'. rewrite StrFacts.take_app in E'.
  apply (f_equal String.length) in E. rewrite !length_app_str in E.
  replace (String.length a) with (String.length b) in E' by lia. by rewrite StrFacts.take_app in E'.
Qed.

(** ** Properties *)

(** An environment is split exactly: a variable goes to the secret half,
    with its value, when some app declares its name or the name looks like a
    credential, and to the plain half, which Docker records for good, exactly
    otherwise. *)
Theorem partitionSecretEnv_spec e declaredNames n :
  wf_env e ->
  let p := partitionSecretEnv e declaredNames in
  let is_secret := bool_decide (n ∈ declaredNames) || isSecretEnvName n in
  JsMap.get n (secret p) = (if is_secret then JsMap.get n e else None) /\
  JsMap.get n (plain p) = (if is_secret then None else JsMap.get n e).
Proof.
  cbv zeta. intros Hwf. unfold partitionSecretEnv.
  destruct (partition_fold (JsSet.of_list declaredNames) e {| plain := []; secret := [] |} n Hwf) as [-> ->].
  rewrite (bool_decide_ext (n ∈ JsSet.of_list declaredNames) (n ∈ declaredNames)) by apply JsSet.elem_of_of_list.
  cbn. by rewrite !over_none.
Qed.

(** A secret some app declares leaves the shared file and reaches, with its
    value, exactly the apps that declare it; a secret nobody declares stays
    shared; an app is reported exactly for the declared names with no value.
    (An app named like a member every JavaScript object inherits is excepted:
    see the next property.) *)
Theorem partitionSecretsPerApp_spec sec apps :
  wf_env sec ->
  let p := partitionSecretsPerApp sec apps in
  (forall n, JsMap.get n (shared p) = if decide (declared_by_any apps n) then None else JsMap.get n sec) /\
  (forall a n, a ∉ JsObj.inherited ->
     held (perApp p) a n = if decide (declares apps a n) then JsMap.get n sec else None) /\
  (forall a n, (a, n) ∈ missing p <-> declares apps a n /\ JsObj.inb n sec = false).
Proof.
  cbv zeta. intros Hwf. unfold partitionSecretsPerApp.
  destruct (declare_all_spec sec apps) as (Hne & Howners & Hmiss).
  destruct (declare_all sec apps) as [declaredBy miss]. cbn [fst snd] in *.
  destruct (deliver_fold declaredBy sec Hwf Hne [] []) as [H1 H2].
  destruct (foldl (deliver_one declaredBy) ([], []) sec) as [sh per]. cbn [fst snd shared perApp missing] in *.
  split_and!.
  - intros n. rewrite H1, Howners. cbn. rewrite over_none.
    destruct (JsMap.get n sec) as [v|] eqn:Ev; [|by repeat case_decide]. apply inb_own in Ev.
    destruct (decide (declared_by_any apps n)) as [(d & Hd & Hn)|Hno].
    + rewrite decide_False; [done|]. intros E.
      apply (not_elem_of_nil (app_name d)). rewrite <- E. apply elem_of_owners. split; [done|by exists d].
    + rewrite decide_True; [done|]. destruct (owners_of sec apps n) as [|o os] eqn:E; [done|].
      destruct Hno. assert (o ∈ owners_of sec apps n) as (_ & d & Hd & _ & Hn)%elem_of_owners
        by (rewrite E; apply list_elem_of_here). by exists d.
  - intros a n Ha. rewrite H2, Howners by done. cbn. rewrite over_none.
    destruct (JsMap.get n sec) as [v|] eqn:Ev; [|by repeat case_decide]. apply inb_own in Ev.
    destruct (decide (declares apps a n)) as [Hd|Hd].
    + rewrite decide_True; [done|]. by apply elem_of_owners.
    + rewrite decide_False; [done|]. by intros [_ ?]%elem_of_owners.
  - intros a n. rewrite Hmiss, list_elem_of_join. setoid_rewrite list_elem_of_fmap. unfold declares. split.
    + intros (l & Hin & d & -> & Hd). apply list_elem_of_fmap in Hin as (m & [= -> ->] & [Hm ?]%list_elem_of_filter).
      split; [by exists d|done].
    + intros [(d & Hd & <- & Hn) Hv]. eexists; split; [|by exists d].
      apply list_elem_of_fmap. exists n. split; [done|]. by apply list_elem_of_filter.
Qed.

(** The secret of an app named [constructor] is lost: its name leaves the
    shared file, no file is made for the app, and nothing is reported missing. *)
Theorem constructor_app_loses_its_secrets n v runDir containerName umask h :
  let p := partitionSecretsPerApp [(n, v)] [{| app_name := "constructor"; app_secrets := [n] |}] in
  Manifest.name_ok "constructor" = true /\
  p = {| shared := []; perApp := []; missing := [] |} /\
  writePerAppSecretsFiles umask containerName (perApp p) runDir h = (h, Ok None).
Proof.
  assert (partitionSecretsPerApp [(n, v)] [{| app_name := "constructor"; app_secrets := [n] |}] =
    {| shared := []; perApp := []; missing := [] |}) as ->; [|done].
  unfold partitionSecretsPerApp, declare_all. cbn [foldl app_secrets app_name].
  unfold declare_one. rewrite (inb_own n [(n, v)] v) by (cbn; by rewrite decide_True). cbn [negb JsMap.get or_default].
  cbn [JsMap.put foldl deliver_one]. cbn [JsMap.get]. rewrite decide_True by done. reflexivity.
Qed.

(** [C38] Sourcing a secrets file gives back exactly the secrets it was written
    from, whatever characters the values hold; writing fails exactly when a
    name is one no shell can hold, and the error names the first of them. *)
Theorem serializeSecretsEnvFile_roundtrip secrets :
  match serializeSecretsEnvFile secrets with
  | Ok text => sh_source text = Some secrets /\ Forall (fun n => VALID_ENV_NAME n = true) secrets.*1
  | Err n => exists a b v, secrets = a ++ (n, v) :: b /\
      (Forall (fun m => VALID_ENV_NAME m = true) a.*1) /\ VALID_ENV_NAME n = false
  end.
Proof.
  pose proof (serialize_ok secrets) as Hs. pose proof (export_lines_ok secrets) as Hok.
  unfold serializeSecretsEnvFile in *. by destruct (export_lines secrets).
Qed.

(** After the per-app files are written, the directory has mode 0700 and
    each app's file has mode 0600 and, sourced, gives back exactly that app's
    secrets, whatever the umask was and whatever files were there before; no
    other file changes. *)
Theorem writePerAppSecretsFiles_spec umask segs containerName per h h' dir :
  Forall good segs -> good containerName ->
  NoDup per.*1 -> Forall (fun a => Str.any (Ascii.eqb slash) a = false) per.*1 ->
  writePerAppSecretsFiles umask containerName per (abs_path segs) h = (h', Ok (Some dir)) ->
  dir = abs_path (segs ++ [containerName; "apps"]) /\
  dirs h' !! dir = Some MODE_DIR /\
  (forall path, (forall a, a ∈ per.*1 -> path <> app_file dir a) -> files h' !! path = files h !! path) /\
  (forall app secrets, JsMap.get app per = Some secrets ->
     exists text, files h' !! app_file dir app = Some {| content := text; mode := MODE_FILE |} /\
       isGroupOrWorldReadable (Some MODE_FILE) = false /\ sh_source text = Some secrets).
Proof.
  intros Hsegs Hc Hnd Happs Hw.
  assert (Htail : Forall good [containerName; "apps"]).
  { constructor; [done|]. constructor; [by split_and!|constructor]. }
  assert (Hdir : join [containerSecretsDir containerName (abs_path segs); "apps"] = abs_path (segs ++ [containerName; "apps"])).
  { unfold containerSecretsDir. rewrite join_abs_path, join_abs_path, <- app_assoc; try done.
    by apply Forall_app_2; auto. }
  assert (Hgood : Forall good (segs ++ [containerName; "apps"])) by by apply Forall_app_2.
  unfold writePerAppSecretsFiles in Hw. rewrite Hdir in Hw. clear Hdir. destruct per as [|ap per']; [done|].
  set (per := ap :: per') in *. clearbody per.
  destruct (write_apps _ _ per _) as [h1 [[]|]] eqn:E; cbn [rbind] in Hw; [|done]. injection Hw as <- <-.
  apply write_apps_spec in E as (Hd & Hframe & Hf); [|done|].
  - rewrite Hd. split_and!; [done| |done|]; [by apply lookup_insert_eq|].
    intros app secrets Hg. destruct (Hf _ _ Hg) as (text & Ht & Hfile). by exists text.
  - rewrite Forall_forall in Happs. intros a b Ha Hb. apply app_file_inj; auto.
Qed.

(** ** Snapshots *)

Lemma ltb_asym s t : Str.ltb s t = true -> Str.ltb t s = false.
Proof.
  revert t; induction s as [|c s IH]; intros [|d t]; cbn [Str.ltb]; try done.
  rewrite orb_true_iff, orb_false_iff, andb_true_iff, andb_false_iff, Nat.ltb_lt, Nat.ltb_ge, Nat.eqb_eq, Nat.eqb_neq.
  intros [H|[H1 H2]]; split; [lia|left; lia|lia|]. right. auto.
Qed.

(** The order [sort] leaves: no name before a smaller one. *)
Definition in_order (l : list string) : Prop := Sorted (fun a b => Str.ltb b a = false) l.

Lemma insert_name_sorted n l : in_order l -> in_order (insert_name n l).
Proof.
  induction 1 as [|m l Hl IH Hm]; [by repeat constructor|]. cbn [insert_name].
  destruct (Str.ltb m n) eqn:E.
  - constructor; [done|]. destruct Hm as [|k l Hk]; cbn [insert_name].
    + constructor. by apply ltb_asym.
    + destruct (Str.ltb k n); constructor; [done|by apply ltb_asym].
  - constructor; [by constructor|]. by constructor.
Qed.

Lemma insert_name_elem n m l : m ∈ insert_name n l <-> m = n \/ m ∈ l.
Proof. induction l as [|k l IH]; cbn [insert_name]; [set_solver|]. destruct (Str.ltb k n); set_solver. Qed.

Lemma sort_names_spec l : in_order (sort_names l) /\ (forall n, n ∈ sort_names l <-> n ∈ l).
Proof.
  induction l as [|m l [IH1 IH2]]; [split; [constructor|done]|]. cbn [sort_names foldr]. split.
  - by apply insert_name_sorted.
  - intros n. rewrite insert_name_elem, IH2. set_solver.
Qed.

(** A snapshot's environment keeps exactly the variables that neither look
    like credentials nor belong to one boot, with their values, and lists in
    order the names of the credentials it left out. *)
Theorem stripSecretEnv_spec e :
  wf_env e ->
  let '(kept, strippedNames) := stripSecretEnv e in
  (forall n, JsMap.get n kept =
     if isSecretEnvName n || bool_decide (n ∈ BOOT_SCOPED_ENV_NAMES) then None else JsMap.get n e) /\
  (forall n, n ∈ strippedNames <->
     isSecretEnvName n = true /\ (n ∉ BOOT_SCOPED_ENV_NAMES) /\ is_Some (JsMap.get n e)) /\
  in_order strippedNames.
Proof.
  intros Hwf. unfold stripSecretEnv.
  assert (Hs : forall n, JsMap.get n (secret (partitionSecretEnv e [])) = (if isSecretEnvName n then JsMap.get n e else None) /\
    JsMap.get n (plain (partitionSecretEnv e [])) = (if isSecretEnvName n then None else JsMap.get n e)).
  { intros n. unfold partitionSecretEnv.
    destruct (partition_fold (JsSet.of_list []) e {| plain := []; secret := [] |} n Hwf) as [-> ->].
    cbn. by rewrite !over_none. }
  destruct (sort_names_spec (filter (fun name => name ∉ BOOT_SCOPED_ENV_NAMES) (secret (partitionSecretEnv e [])).*1))
    as [Hsorted Helem]. split_and!; [| |done].
  - intros n. unfold BOOT_SCOPED_ENV_NAMES. cbn [foldl].
    destruct (decide (n = "BERTH_APP_SECRETS_DIR")) as [->|H1]; [by rewrite JsMap.get_remove_eq|].
    rewrite JsMap.get_remove_ne by done.
    destruct (decide (n = "BERTH_SECRETS_FILE")) as [->|H2]; [by rewrite JsMap.get_remove_eq|].
    rewrite JsMap.get_remove_ne, (proj2 (Hs n)) by done.
    rewrite bool_decide_eq_false_2 by set_solver. by destruct (isSecretEnvName n).
  - intros n. rewrite Helem, list_elem_of_filter. destruct (Hs n) as [Hsec _]. split.
    + intros [Hb Hin]. apply dec_stable. intros Hno. assert (Hget : JsMap.get n (secret (partitionSecretEnv e [])) = None).
      { rewrite Hsec. destruct (isSecretEnvName n) eqn:E; [|done].
        destruct (JsMap.get n e) eqn:Eg; [|done]. destruct Hno. by split_and!; eauto. }
      by apply JsMap.get_None in Hget.
    + intros (Hn & Hb & v & Hv). split; [done|]. rewrite Hn, Hv in Hsec.
      apply JsMap.get_elem_of in Hsec. apply list_elem_of_fmap. by exists (n, v).
Qed.

(** ** Witnesses *)

Definition demo_env : env := [("PATH", "/bin"); ("GITHUB_TOKEN", "it's"); ("FLAG", "x")].

Lemma demo_wf : wf_env demo_env.
Proof. split; [apply (bool_decide_unpack _); by vm_compute|apply (bool_decide_unpack _); by vm_compute]. Qed.

Lemma partitionSecretEnv_spec_witness :
  JsMap.get "GITHUB_TOKEN" (plain (partitionSecretEnv demo_env ["FLAG"])) = None /\
  JsMap.get "FLAG" (secret (partitionSecretEnv demo_env ["FLAG"])) = Some "x".
Proof.
  split.
  - exact (proj2 (partitionSecretEnv_spec demo_env ["FLAG"] "GITHUB_TOKEN" demo_wf)).
  - exact (proj1 (partitionSecretEnv_spec demo_env ["FLAG"] "FLAG" demo_wf)).
Defined.

Definition demo_apps : list AppSecretsDeclaration :=
  [{| app_name := "bot"; app_secrets := ["GITHUB_TOKEN"; "NONE"] |}; {| app_name := "web"; app_secrets := [] |}].

Lemma partitionSecretsPerApp_spec_witness :
  held (perApp (partitionSecretsPerApp demo_env demo_apps)) "bot" "GITHUB_TOKEN" = Some "it's" /\
  held (perApp (partitionSecretsPerApp demo_env demo_apps)) "web" "GITHUB_TOKEN" = None /\
  JsMap.get "GITHUB_TOKEN" (shared (partitionSecretsPerApp demo_env demo_apps)) = None.
Proof.
  destruct (partitionSecretsPerApp_spec demo_env demo_apps demo_wf) as (Hsh & Hheld & _). split_and!.
  - rewrite Hheld by (apply (bool_decide_unpack _); by vm_compute).
    rewrite decide_True; [done|]. exists {| app_name := "bot"; app_secrets := ["GITHUB_TOKEN"; "NONE"] |}.
    split_and!; [apply list_elem_of_here|done|apply list_elem_of_here].
  - rewrite Hheld by (apply (bool_decide_unpack _); by vm_compute).
    rewrite decide_False; [done|]. apply (bool_decide_unpack _). by vm_compute.
  - rewrite Hsh. rewrite decide_True; [done|]. exists {| app_name := "bot"; app_secrets := ["GITHUB_TOKEN"; "NONE"] |}.
    split; apply list_elem_of_here.
Defined.

Definition no_host : host := {| files := ∅; dirs := ∅ |}.
Definition demo_per : list (string * env) := [("bot", [("GITHUB_TOKEN", "it's")])].

Lemma writePerAppSecretsFiles_spec_witness :
  exists text, files (writePerAppSecretsFiles 63 "sandbox" demo_per "/run/user" no_host).1 !!
    app_file "/run/user/sandbox/apps" "bot" = Some {| content := text; mode := MODE_FILE |} /\
    sh_source text = Some [("GITHUB_TOKEN", "it's")].
Proof.
  destruct (writePerAppSecretsFiles 63 "sandbox" demo_per "/run/user" no_host) as [h' r] eqn:E.
  assert (r = Ok (Some "/run/user/sandbox/apps")) as Hr.
  { change r with (h', r).2. rewrite <- E. by vm_compute. }
  rewrite Hr in E.
  destruct (writePerAppSecretsFiles_spec 63 ["run"; "user"] "sandbox" demo_per no_host h' "/run/user/sandbox/apps")
    as (_ & _ & _ & Hf); [| | | |exact E|].
  - repeat constructor; by vm_compute.
  - split_and!; by vm_compute.
  - apply (bool_decide_unpack _). by vm_compute.
  - repeat constructor.
  - destruct (Hf "bot" [("GITHUB_TOKEN", "it's")]) as (text & Hfile & _ & Ht); [by vm_compute|].
    exists text. split; [exact Hfile|exact Ht].
Defined.

Lemma stripSecretEnv_spec_witness :
  JsMap.get "GITHUB_TOKEN" (stripSecretEnv demo_env).1 = None /\ JsMap.get "PATH" (stripSecretEnv demo_env).1 = Some "/bin".
Proof.
  pose proof (stripSecretEnv_spec demo_env demo_wf) as H. destruct (stripSecretEnv demo_env) as [kept names].
  destruct H as (H & _ & _). rewrite !H. by vm_compute.
Defined.

End Secrets.
