(* ===== verification/Hosts.v ===== *)
(** * Hosts an app may reach (apps/web-fetch/src/hosts.ts, and the same text in
    apps/postgres/src/hosts.ts and apps/mysql/src/hosts.ts)

    The patterns an app's own [network:host:] capabilities stand for, and
    whether they cover a host and port. Also the addresses the egress proxy
    never tunnels to, as apps/postgres and apps/mysql recognise them. *)
From S2P Require Import Prelude Glob JsNumber.

Module Hosts.

(** The port of a pattern: written [*], written as a number, or absent. *)
Inductive pattern_port : Type :=
| AnyPort
| PortNumber (n : JsNumber.jsnum)
| NoPort.

Record HostPattern := { scope : string; host : string; port : pattern_port }.

(** [/^\d+$/] *)
Definition digits (s : string) : bool := negb (String.eqb s "") && Str.all Str.is_digit s.

Definition parseHostScope (sc : string) : HostPattern :=
  match Str.last_index_of ":" sc with
  | Some (S i) =>
      let suffix := Str.drop (S (S i)) sc in
      if String.eqb suffix "*" then {| scope := sc; host := Str.take (S i) sc; port := AnyPort |}
      else if digits suffix
      then {| scope := sc; host := Str.take (S i) sc; port := PortNumber (JsNumber.Number suffix) |}
      else {| scope := sc; host := sc; port := NoPort |}
  | _ => {| scope := sc; host := sc; port := NoPort |}
  end.

(** [p === q] of a number and an integer. *)
Definition is_number (n : JsNumber.jsnum) (q : Z) : bool :=
  bool_decide (JsNumber.to_integer n = Some q).

Definition globToRegExp_test (glob h : string) : bool := Glob.matches (Glob.compile_escaped glob) h.

Definition pattern_allows (h : string) (p : Z) (pat : HostPattern) : bool :=
  if negb (globToRegExp_test (host pat) h) then false
  else match port pat with
       | NoPort => (p =? 80)%Z || (p =? 443)%Z
       | AnyPort => true
       | PortNumber n => is_number n p
       end.

Definition isAllowed (patterns : list HostPattern) (h : string) (p : Z) : bool :=
  existsb (pattern_allows h p) patterns.

Definition prefix : string := "network:host:".

Definition patternsFrom (capabilities : list string) : list HostPattern :=
  map (fun c => parseHostScope (Str.drop (String.length prefix) c))
    (List.filter (Str.starts_with prefix) capabilities).

(** ** Internal addresses *)

(** [/^(\d+)\.(\d+)\.(\d+)\.(\d+)$/] and the first two groups. The groups are
    read exactly: the comparisons below come out the same after [Number]
    rounds, which only moves numbers from 2^53 on. *)
Definition dotted_quad (h : string) : option (Z * Z) :=
  match Str.split "." h with
  | [a; b; c; d] =>
      if forallb digits [a; b; c; d] then Some (JsNumber.decimal_value a, JsNumber.decimal_value b) else None
  | _ => None
  end.

Definition isInternal (h : string) : bool :=
  if String.eqb h "localhost" || String.eqb h "host.docker.internal" then true
  else match dotted_quad h with
       | None => false
       | Some (a, b) =>
           ((a =? 0) || (a =? 10) || (a =? 127) || ((a =? 100) && (64 <=? b) && (b <=? 127))
            || ((a =? 169) && (b =? 254)) || ((a =? 172) && (16 <=? b) && (b <=? 31))
            || ((a =? 192) && (b =? 168)))%Z
       end.

(** ** What a scope means *)

(** The part after the last colon is a port: [*] or digits, after a host. *)
Definition port_suffix (h suffix sc : string) : Prop :=
  sc = h +:+ ":" +:+ suffix /\ h <> "" /\ (suffix = "*" \/ digits suffix = true).

Inductive scope_allows (sc h : string) (p : Z) : Prop :=
| allows_any g : port_suffix g "*" sc -> Glob.glob_matches g h -> scope_allows sc h p
| allows_number g ds :
    port_suffix g ds sc -> digits ds = true -> JsNumber.to_integer (JsNumber.Number ds) = Some p ->
    Glob.glob_matches g h -> scope_allows sc h p
| allows_default :
    (forall g suffix, ~ port_suffix g suffix sc) -> Glob.glob_matches sc h -> p = 80%Z \/ p = 443%Z ->
    scope_allows sc h p.

(** ** Lemmas *)

Lemma last_index_of_app c s t :
  Str.any (Ascii.eqb c) t = false -> Str.last_index_of c (s +:+ String c t) = Some (String.length s).
Proof.
  intros Ht. assert (Hnone : Str.last_index_of c t = None).
  { induction t as [|d t IH]; [done|]. cbn [Str.any] in Ht. apply orb_false_iff in Ht as [Hd Ht].
    cbn [Str.last_index_of]. by rewrite IH, Ascii.eqb_sym, Hd. }
  induction s as [|d s IH].
  - rewrite app_empty_str. cbn [Str.last_index_of]. by rewrite Hnone, Ascii.eqb_refl.
  - rewrite app_cons_str. cbn [Str.last_index_of]. by rewrite IH.
Qed.

Lemma last_index_of_split c s i :
  Str.last_index_of c s = Some i ->
  s = Str.take i s +:+ String c (Str.drop (S i) s) /\ String.length (Str.take i s) = i /\
  Str.any (Ascii.eqb c) (Str.drop (S i) s) = false.
Proof.
  revert i; induction s as [|d s IH]; intros i; cbn [Str.last_index_of]; [done|].
  destruct (Str.last_index_of c s) as [j|] eqn:E.
  - intros [= <-]. destruct (IH j eq_refl) as (H1 & H2 & H3).
    change (String d s = String d (Str.take j s +:+ String c (Str.drop (S j) s)) /\
      S (String.length (Str.take j s)) = S j /\ Str.any (Ascii.eqb c) (Str.drop (S j) s) = false).
    split_and!; [by f_equal|by rewrite H2|done].
  - destruct (Ascii.eqb_spec d c) as [->|]; [|done]. intros [= <-].
    cbn [Str.take Str.drop String.length]. split_and!; [by destruct s|done|].
    cbn. clear IH. induction s as [|e s IH]; [done|]. cbn [Str.last_index_of] in E.
    destruct (Str.last_index_of c s) eqn:E'; [done|]. cbn [Str.any].
    destruct (Ascii.eqb e c) eqn:Ee; [done|]. by rewrite Ascii.eqb_sym, Ee, IH.
Qed.

Lemma last_index_of_none c s : Str.any (Ascii.eqb c) s = false -> Str.last_index_of c s = None.
Proof.
  induction s as [|d s IH]; [done|]. cbn [Str.any Str.last_index_of]. rewrite orb_false_iff.
  intros [Hd Hs]. by rewrite IH, Ascii.eqb_sym, Hd.
Qed.

Lemma digits_no_colon s : digits s = true -> Str.any (Ascii.eqb ":") s = false.
Proof.
  unfold digits. intros [_ H]%andb_true_iff. induction s as [|c s IH]; [done|].
  cbn [Str.all Str.any] in *. apply andb_true_iff in H as [Hc Hs]. rewrite IH, orb_false_r by done.
  apply Ascii.eqb_neq. by intros <-.
Qed.

Lemma suffix_no_colon s : s = "*" \/ digits s = true -> Str.any (Ascii.eqb ":") s = false.
Proof. intros [->|?]; [done|by apply digits_no_colon]. Qed.

(** What [parseHostScope] reads, in terms of the scope's text. *)
Lemma parseHostScope_suffix g suffix sc :
  port_suffix g suffix sc ->
  parseHostScope sc =
    {| scope := sc; host := g;
       port := if String.eqb suffix "*" then AnyPort else PortNumber (JsNumber.Number suffix) |}.
Proof.
  intros (-> & Hg & Hs). unfold parseHostScope. change (":" +:+ suffix) with (String ":" suffix).
  rewrite last_index_of_app by by apply suffix_no_colon.
  destruct (String.length g) as [|n] eqn:El; [by apply length_0_str in El|]. rewrite <- El. clear n El.
  assert (Hd : Str.drop (S (String.length g)) (g +:+ String ":" suffix) = suffix).
  { replace (S (String.length g)) with (String.length (g +:+ ":")) by (rewrite length_app_str; cbn; lia).
    change (String ":" suffix) with (":" +:+ suffix). rewrite <- app_assoc_str. apply StrFacts.drop_app. }
  rewrite Hd, StrFacts.take_app. destruct (String.eqb_spec suffix "*"); [done|].
  by destruct Hs as [Hs| ->].
Qed.

Lemma parseHostScope_plain sc :
  (forall g suffix, ~ port_suffix g suffix sc) -> parseHostScope sc = {| scope := sc; host := sc; port := NoPort |}.
Proof.
  intros Hno. unfold parseHostScope. destruct (Str.last_index_of ":" sc) as [[|i]|] eqn:E; try done.
  destruct (last_index_of_split _ _ _ E) as (H1 & H2 & H3).
  assert (Hg : Str.take (S i) sc <> "") by (intros Hg; by rewrite Hg in H2).
  destruct (String.eqb_spec (Str.drop (S (S i)) sc) "*") as [Hs|Hs].
  - destruct (Hno (Str.take (S i) sc) "*"). split_and!; [|done|by left]. by rewrite <- Hs.
  - destruct (digits (Str.drop (S (S i)) sc)) eqn:Ed; [|done].
    destruct (Hno (Str.take (S i) sc) (Str.drop (S (S i)) sc)). split_and!; [done|done|by right].
Qed.

(** Every scope is read one way or the other. *)
Lemma port_suffix_cases sc : (exists g suffix, port_suffix g suffix sc) \/ (forall g suffix, ~ port_suffix g suffix sc).
Proof.
  destruct (Str.last_index_of ":" sc) as [[|i]|] eqn:E.
  - right. intros g suffix (-> & Hg & Hs). change (":" +:+ suffix) with (String ":" suffix) in E.
    rewrite last_index_of_app in E by by apply suffix_no_colon. injection E as E. by apply length_0_str in E.
  - destruct (last_index_of_split _ _ _ E) as (H1 & H2 & H3).
    assert (Hg : Str.take (S i) sc <> "") by (intros Hg; by rewrite Hg in H2).
    destruct (decide (Str.drop (S (S i)) sc = "*" \/ digits (Str.drop (S (S i)) sc) = true)) as [Hd|Hd].
    + left. by exists (Str.take (S i) sc), (Str.drop (S (S i)) sc).
    + right. intros g suffix (Heq & _ & Hs). apply Hd. rewrite Heq in E |- *.
      change (":" +:+ suffix) with (String ":" suffix) in *.
      rewrite last_index_of_app in E by by apply suffix_no_colon. injection E as <-.
      replace (S (String.length g)) with (String.length (g +:+ ":")) by (rewrite length_app_str; cbn; lia).
      change (String ":" suffix) with (":" +:+ suffix). rewrite <- app_assoc_str. by rewrite StrFacts.drop_app.
  - right. intros g suffix (-> & Hg & Hs). change (":" +:+ suffix) with (String ":" suffix) in E.
    by rewrite last_index_of_app in E by by apply suffix_no_colon.
Qed.

Lemma port_suffix_inj g g' s s' sc : port_suffix g s sc -> port_suffix g' s' sc -> g = g' /\ s = s'.
Proof.
  intros H1 H2. destruct H1 as (-> & Hg & Hs), H2 as (He & Hg' & Hs').
  change (":" +:+ s) with (String ":" s) in He. change (":" +:+ s') with (String ":" s') in He.
  pose proof (last_index_of_app ":" g s (suffix_no_colon s Hs)) as E1. rewrite He in E1.
  rewrite last_index_of_app in E1 by by apply suffix_no_colon. injection E1 as E1.
  apply app_inj_length_str in He as [-> He]; [|done]. split; [done|]. by injection He.
Qed.

Lemma pattern_allows_spec sc h p : pattern_allows h p (parseHostScope sc) = true <-> scope_allows sc h p.
Proof.
  unfold pattern_allows, globToRegExp_test.
  destruct (port_suffix_cases sc) as [(g & suffix & Hs)|Hno].
  - rewrite (parseHostScope_suffix g suffix) by done. cbn [host port]. split.
    + destruct (Glob.matches (Glob.compile_escaped g) h) eqn:Em; [|done]. cbn [negb].
      apply Glob.compile_escaped_spec in Em. destruct (String.eqb_spec suffix "*") as [->|Hne].
      * intros _. by apply (allows_any _ _ _ g).
      * intros Hn%bool_decide_eq_true. apply (allows_number _ _ _ g suffix); [done| |done|done].
        by destruct Hs as (_ & _ & [?|?]).
    + intros [g' Hs' Hm|g' ds Hs' Hd Hn Hm|Hno _ _].
      * destruct (port_suffix_inj _ _ _ _ _ Hs Hs') as [-> ->]. apply Glob.compile_escaped_spec in Hm. by rewrite Hm.
      * destruct (port_suffix_inj _ _ _ _ _ Hs Hs') as [-> ->]. apply Glob.compile_escaped_spec in Hm. rewrite Hm.
        cbn [negb]. destruct (String.eqb_spec ds "*"); [done|]. by apply bool_decide_eq_true.
      * by destruct (Hno g suffix).
  - rewrite parseHostScope_plain by done. cbn [host port]. split.
    + destruct (Glob.matches (Glob.compile_escaped sc) h) eqn:Em; [|done]. cbn [negb].
      rewrite orb_true_iff, !Z.eqb_eq. intros Hp. apply allows_default; [done| |done].
      by apply Glob.compile_escaped_spec.
    + intros [g' Hs' _|g' ds Hs' _ _ _|_ Hm Hp]; [by destruct (Hno g' "*")|by destruct (Hno g' ds)|].
      apply Glob.compile_escaped_spec in Hm. rewrite Hm. cbn [negb]. by rewrite orb_true_iff, !Z.eqb_eq.
Qed.

Lemma isAllowed_iff capabilities h p :
  isAllowed (patternsFrom capabilities) h p = true <->
  exists sc, prefix +:+ sc ∈ capabilities /\ scope_allows sc h p.
Proof.
  unfold isAllowed, patternsFrom. rewrite existsb_exists. setoid_rewrite in_map_iff.
  setoid_rewrite filter_In. setoid_rewrite StrFacts.starts_with_spec. setoid_rewrite <- list_elem_of_In. split.
  - intros (pat & (c & <- & Hc & sc & ->) & Ha). rewrite StrFacts.drop_app in Ha.
    exists sc. split; [done|]. by apply pattern_allows_spec.
  - intros (sc & Hc & Ha). exists (parseHostScope sc). split; [|by apply pattern_allows_spec].
    exists (prefix +:+ sc). split_and!; [by rewrite StrFacts.drop_app|done|by exists sc].
Qed.

(** A host and port are allowed exactly when some declared [network:host:]
    scope covers them: its host glob, where only [*] is a wildcard, matches,
    and the port is the one written, any when [*] is written, and 80 or 443
    when none is. *)
Theorem isAllowed_spec capabilities h p :
  isAllowed (patternsFrom capabilities) h p = true <->
  exists sc, prefix +:+ sc ∈ capabilities /\ scope_allows sc h p.
Proof. apply isAllowed_iff. Qed.

(** A host without a colon and a port written out are one scope. *)
Lemma scope_allows_exact h p :
  Glob.one_line h = true -> h <> "" -> (0 <= p < 2 ^ 53)%Z ->
  scope_allows (h +:+ ":" +:+ JsNumber.to_string p) h p.
Proof.
  intros Hl Hne Hp. destruct (JsNumber.to_string_spec p) as (Hn & Hall & _); [lia|].
  assert (Hd : digits (JsNumber.to_string p) = true).
  { unfold digits. rewrite Hall, andb_true_r. by apply negb_true_iff, String.eqb_neq. }
  apply (allows_number _ _ _ h (JsNumber.to_string p)); [|done| |by apply Glob.glob_matches_refl].
  - split_and!; [done|done|by right].
  - by apply JsNumber.Number_to_string.
Qed.

Lemma scope_allows_bare h p :
  Glob.one_line h = true -> Str.any (Ascii.eqb ":") h = false -> p = 80%Z \/ p = 443%Z -> scope_allows h h p.
Proof.
  intros Hl Hc Hp. apply allows_default; [|by apply Glob.glob_matches_refl|done].
  intros g suffix (-> & _ & _). rewrite !StrFacts.any_app in Hc. cbn in Hc.
  by rewrite orb_true_r in Hc.
Qed.

End Hosts.
