(* ===== verification/Url.v ===== *)
(** * The [URL] objects the apps read

    Parsing a URL is the platform's work ([new URL(text)] and
    [new URL(text, base)]) and a parameter of the development, a class of which
    each component takes an instance; what the code reads of the result is the
    record [URL]. *)
From S2P Require Import Prelude.

(** [u_port] is the [port] property read as a number, [None] for the empty
    string (a default port is never written there); [u_host] is the [host]
    property, and [u_search] the query with its question mark. *)
Record URL := {
  protocol : string;
  username : string;
  password : string;
  hostname : string;
  u_host : string;
  u_port : option Z;
  pathname : string;
  u_search : string;
  searchParams : list (string * string);
  href : string
}.

(** [None] when the constructor throws. *)
Class UrlParser := {
  new_URL : string -> option URL;
  new_URL_base : string -> string -> option URL
}.

(** What the WHATWG specification promises of every parsed URL that the
    properties rely on: a port fits in 16 bits, a host name is one line, and
    one without brackets holds no colon. *)
Record url_ok (u : URL) : Prop := {
  url_port : forall p, u_port u = Some p -> (0 <= p < 65536)%Z;
  url_one_line : Str.all (fun c => negb (Str.is_line_terminator c)) (hostname u) = true;
  url_colon : Str.any (Ascii.eqb ":") (hostname u) = true ->
    Str.starts_with "[" (hostname u) = true /\ Str.ends_with "]" (hostname u) = true
}.

Class UrlSpec {P : UrlParser} : Prop := {
  new_URL_ok : forall s u, new_URL s = Some u -> url_ok u
}.
