(* ===== verification/Page.v ===== *)
(** * Readable text from an HTML page (apps/web-fetch/src/page.ts)

    The scanner works on an index into the page; here it works on what is left
    of the page from that index on. Every turn of its loop consumes at least
    one character, so the length of the page bounds the number of turns. *)
From S2P Require Import Prelude JsNumber Url.

Module Page.

(** [String.fromCodePoint] of a code point above 255, which no 8-bit string
    holds, is a parameter. *)
Section page.
Context {P : UrlParser} (wide : Z -> string).

(** ** Character references *)

Definition dq : string := String (ascii_of_nat 34) "".

(** [ENTITIES[name]]: an object literal, so [constructor] is found on every
    object; the replacement of a match is converted to a string. *)
Definition ENTITIES (name : string) : option string :=
  if String.eqb name "amp" then Some "&"
  else if String.eqb name "lt" then Some "<"
  else if String.eqb name "gt" then Some ">"
  else if String.eqb name "quot" then Some dq
  else if String.eqb name "apos" then Some "'"
  else if String.eqb name "nbsp" then Some " "
  else if String.eqb name "#39" then Some "'"
  else if String.eqb name "constructor" then Some "function Object() { [native code] }"
  else None.

Definition fromCodePoint (code : Z) : string :=
  if (code <? 256)%Z then String (ascii_of_nat (Z.to_nat code)) "" else wide code.

Definition is_hex : ascii -> bool := JsNumber.is_hex.
Definition is_letter (c : ascii) : bool := Str.is_lower c || Str.is_upper c.

(** [name;] at the start of a text, for a non-empty run of one class. *)
Definition run_then_semicolon (p : ascii -> bool) (s : string) : option (string * string) :=
  let '(w, r) := JsNumber.span p s in
  match w, r with
  | String _ _, String c r' => if Ascii.eqb c ";" then Some (w, r') else None
  | _, _ => None
  end.

Definition code_or (whole : string) (code : Z) : string :=
  if (0 <? code)%Z && (code <? 1114112)%Z then fromCodePoint code else whole.

(** A reference after its ampersand: the text it stands for, and the rest. *)
Definition reference (s : string) : option (string * string) :=
  match s with
  | String h s1 =>
      if Ascii.eqb h "#" then
        match
          match s1 with
          | String x s2 => if Ascii.eqb (Str.lower_char x) "x"
                           then (fun wr => (String x "", wr)) <$> run_then_semicolon is_hex s2 else None
          | EmptyString => None
          end
        with
        | Some (x, (ds, r)) =>
            Some (code_or ("&#" +:+ x +:+ ds +:+ ";") (JsNumber.value_in 16 JsNumber.hex_value 0 ds), r)
        | None =>
            '(ds, r) ← run_then_semicolon Str.is_digit s1;
            Some (code_or ("&#" +:+ ds +:+ ";") (JsNumber.decimal_value ds), r)
        end
      else
        '(name, r) ← run_then_semicolon is_letter s;
        Some (or_default ("&" +:+ name +:+ ";") (ENTITIES (Str.to_lower name)), r)
  | EmptyString => None
  end.

(** [text.replace(/&(...);/gi, ...)] *)
Fixpoint decode_from (fuel : nat) (s : string) : string :=
  match fuel, s with
  | S fuel', String c s' =>
      if Ascii.eqb c "&" then
        match reference s' with
        | Some (t, r) => t +:+ decode_from fuel' r
        | None => String c (decode_from fuel' s')
        end
      else String c (decode_from fuel' s')
  | _, _ => EmptyString
  end.
Definition decode (text : string) : string := decode_from (String.length text) text.

(** ** Tags *)

Definition SKIPPED : list string := ["script"; "style"; "noscript"; "svg"; "template"; "iframe"; "object"].
Definition BLOCKS : list string :=
  ["br"; "hr"; "p"; "div"; "section"; "article"; "header"; "footer"; "main"; "nav"; "aside";
   "h1"; "h2"; "h3"; "h4"; "h5"; "h6"; "li"; "ul"; "ol"; "tr"; "table"; "pre"; "blockquote";
   "dl"; "dt"; "dd"; "figure"; "figcaption"; "title"].
Definition MAX_LINKS : nat := 100.

(** The text matches [p] at its start, whatever the case of its letters; the
    rest after it. *)
Definition eat (p s : string) : option string :=
  if Str.starts_with p (Str.to_lower s) then Some (Str.drop (String.length p) s) else None.

(** The first alternative that matches of a quoted or a bare value. *)
Definition attribute_value (s : string) : option string :=
  let quoted q :=
    match s with
    | String c s' =>
        if Ascii.eqb c q then
          match JsNumber.span (fun d => negb (Ascii.eqb d q)) s' with
          | (v, String _ _) => Some v
          | _ => None
          end
        else None
    | EmptyString => None
    end in
  match quoted (ascii_of_nat 34) with
  | Some v => Some v
  | None =>
      match quoted (ascii_of_nat 39) with
      | Some v => Some v
      | None =>
          match (JsNumber.span (fun d => negb (Str.is_space d) && negb (Ascii.eqb d ">")) s).1 with
          | EmptyString => None
          | v => Some v
          end
      end
  end.

(** [\sNAME\s*=\s*(...)] at the start of a text. *)
Definition attribute_here (name s : string) : option string :=
  match s with
  | String c s1 =>
      if Str.is_space c then
        s2 ← eat name s1;
        match Str.trim_start s2 with
        | String e s3 => if Ascii.eqb e "=" then attribute_value (Str.trim_start s3) else None
        | EmptyString => None
        end
      else None
  | EmptyString => None
  end.

Fixpoint attribute_raw (name tag : string) : option string :=
  match attribute_here name tag with
  | Some v => Some v
  | None => match tag with String _ tag' => attribute_raw name tag' | EmptyString => None end
  end.
Definition attribute (tag name : string) : option string := decode <$> attribute_raw name tag.

(** [</name\s*>] at the start of a text: what follows it. *)
Definition close_here (name s : string) : option string :=
  r ← eat ("</" +:+ name) s;
  match Str.trim_start r with
  | String c r' => if Ascii.eqb c ">" then Some r' else None
  | EmptyString => None
  end.

(** What comes before the first closing tag and what comes after it; the whole
    text and nothing when there is none. *)
Fixpoint skipElement (name rest : string) : string * string :=
  match close_here name rest with
  | Some after => (EmptyString, after)
  | None =>
      match rest with
      | String c rest' => let '(before, after) := skipElement name rest' in (String c before, after)
      | EmptyString => (EmptyString, EmptyString)
      end
  end.

(** The text after the first [p], [None] when there is none. *)
Fixpoint after_first (p s : string) : option string :=
  if Str.starts_with p s then Some (Str.drop (String.length p) s)
  else match s with String _ s' => after_first p s' | EmptyString => None end.

(** The optional slash and the name at the start of a tag's text, after its [<]. *)
Definition tag_name (s : string) : option (bool * string) :=
  let '(closing, s1) := match s with
                        | String c s' => if Ascii.eqb c "/" then (true, s') else (false, s)
                        | EmptyString => (false, s)
                        end in
  match s1 with
  | String c _ =>
      if is_letter c
      then Some (closing, (JsNumber.span (fun d => is_letter d || Str.is_digit d || Ascii.eqb d "-") s1).1)
      else None
  | EmptyString => None
  end.

(** [.replace(/[...]+/g, " ")]: every run of the class becomes one space. *)
Fixpoint squeeze (p : ascii -> bool) (in_run : bool) (s : string) : string :=
  match s with
  | EmptyString => EmptyString
  | String c s' =>
      if p c then (if in_run then squeeze p true s' else String " " (squeeze p true s'))
      else String c (squeeze p false s')
  end.
Definition one_space (s : string) : string := Str.trim (squeeze Str.is_space false s).

(** ** The scanner *)

Record link := { text_of : string; href_of : string }.
Record Page := { title : string; text : string; links : list link }.

Record scan := {
  out : list string;
  found : list link;
  title_ : string;
  openLink : option (string * nat)   (* href, start *)
}.

Definition push (w : string) (st : scan) : scan :=
  {| out := out st ++ [w]; found := found st; title_ := title_ st; openLink := openLink st |}.
Definition set_title (t : string) (st : scan) : scan :=
  {| out := out st; found := found st; title_ := t; openLink := openLink st |}.
Definition set_link (l : option (string * nat)) (st : scan) : scan :=
  {| out := out st; found := found st; title_ := title_ st; openLink := l |}.
Definition add_link (l : link) (st : scan) : scan :=
  {| out := out st; found := found st ++ [l]; title_ := title_ st; openLink := openLink st |}.

Definition web_protocol (p : string) : bool := String.eqb p "http:" || String.eqb p "https:".

(** What [<a>] and [</a>] do. *)
Definition anchor (baseUrl tag : string) (closing : bool) (st : scan) : scan :=
  if negb closing then
    match attribute tag "href" with
    | None | Some "" => st
    | Some h => set_link (Some (h, length (out st))) st
    end
  else
    match openLink st with
    | None => st
    | Some (h, start) =>
        set_link None
          match new_URL_base h baseUrl with
          | Some absolute =>
              if web_protocol (protocol absolute) && (length (found st) <? MAX_LINKS)
                 && negb (existsb (fun l => String.eqb (href_of l) (href absolute)) (found st))
              then add_link {| text_of := one_space (Str.join "" (drop start (out st)));
                               href_of := href absolute |} st
              else st
          | None => st
          end
    end.

(** One turn of the loop at a [<]: what is left, [None] to stop, and the state. *)
Definition at_tag (baseUrl r : string) (st : scan) : option string * scan :=
  if Str.starts_with "<!--" r then (Some (or_default "" (after_first "-->" (Str.drop 4 r))), st)
  else match JsNumber.span (fun d => negb (Ascii.eqb d ">")) (Str.drop 1 r) with
  | (_, EmptyString) => (None, st)
  | (inner, String gt rest) =>
      match tag_name inner with
      | None => (Some rest, push " " st)
      | Some (closing, raw) =>
          let name := Str.to_lower raw in
          if negb closing && String.eqb name "title" then
            let '(before, after) := skipElement "title" rest in
            (Some after, if String.eqb (title_ st) "" then set_title (one_space (decode before)) st else st)
          else if negb closing && bool_decide (name ∈ SKIPPED) then
            (Some (skipElement name rest).2, push " " st)
          else
            let st1 := if String.eqb name "a" then anchor baseUrl (String "<" (inner +:+ ">")) closing st else st in
            (Some rest, push (if bool_decide (name ∈ BLOCKS) then String (ascii_of_nat 10) "" else " ") st1)
      end
  end.

Definition is_lt (c : ascii) : bool := Ascii.eqb c "<".

(** The text up to the next [<], decoded, then the tag. *)
Fixpoint scan_from (fuel : nat) (baseUrl rest : string) (st : scan) : option scan :=
  match fuel with
  | O => None
  | S fuel' =>
      match rest with
      | EmptyString => Some st
      | _ =>
          let '(before, r) := JsNumber.span (fun d => negb (is_lt d)) rest in
          let st1 := match before with EmptyString => st | _ => push (decode before) st end in
          match r with
          | EmptyString => Some st1
          | _ =>
              match at_tag baseUrl r st1 with
              | (None, st2) => Some st2
              | (Some rest', st2) => scan_from fuel' baseUrl rest' st2
              end
          end
      end
  end.

(** [/[ \t\f\v\u00a0]+/], the white space of one line but for a carriage return. *)
Definition blank (c : ascii) : bool :=
  (Str.code c =? 32) || (Str.code c =? 9) || (Str.code c =? 12) || (Str.code c =? 11) || (Str.code c =? 160).

Definition final_text (out : list string) : string :=
  Str.join (String (ascii_of_nat 10) "")
    (List.filter (fun l => negb (String.eqb l ""))
      (map (fun l => Str.trim (squeeze blank false l)) (Str.split (ascii_of_nat 10) (Str.join "" out)))).

Definition no_scan : scan := {| out := []; found := []; title_ := ""; openLink := None |}.

Definition pageFromHtml (html baseUrl : string) : option Page :=
  st ← scan_from (S (String.length html)) baseUrl html no_scan;
  Some {| title := title_ st; text := final_text (out st); links := found st |}.

(** ** Progress *)

Lemma span_length p s : String.length (JsNumber.span p s).1 + String.length (JsNumber.span p s).2 = String.length s.
Proof.
  induction s as [|c s IH]; [done|]. cbn [JsNumber.span]. destruct (p c); [|done].
  destruct (JsNumber.span p s) as [a b]. cbn in *. lia.
Qed.

Lemma span_stop p s c r : (JsNumber.span p s).2 = String c r -> p c = false.
Proof.
  induction s as [|d s IH]; [done|]. cbn [JsNumber.span]. destruct (p d) eqn:E.
  - destruct (JsNumber.span p s). exact IH.
  - cbn. intros [= <- _]. done.
Qed.

Lemma skipElement_length name s : String.length (skipElement name s).2 <= String.length s.
Proof.
  assert (Hc : forall s r, close_here name s = Some r -> String.length r <= String.length s).
  { intros t r. unfold close_here, eat. destruct (Str.starts_with _ _); [|done]. cbn.
    assert (Ht : forall u, String.length (Str.trim_start u) <= String.length u).
    { induction u as [|c u IHu]; cbn; [done|]. destruct (Str.is_space c); cbn; lia. }
    specialize (Ht (Str.drop (String.length ("</" +:+ name)) t)). rewrite StrFacts.length_drop in Ht.
    destruct (Str.trim_start _) as [|c r']; [done|]. destruct (Ascii.eqb c ">"); [|done].
    intros [= <-]. cbn in Ht. lia. }
  induction s as [|c s IH]; cbn [skipElement].
  - destruct (close_here name "") eqn:E; [|done]. by apply Hc in E.
  - destruct (close_here name (String c s)) eqn:E; [by apply Hc in E|].
    destruct (skipElement name s). cbn in *. lia.
Qed.

Lemma after_first_length p s r : after_first p s = Some r -> String.length r <= String.length s.
Proof.
  induction s as [|c s IH]; cbn [after_first]; destruct (Str.starts_with p _).
  - intros [= <-]. rewrite StrFacts.length_drop. lia.
  - done.
  - intros [= <-]. rewrite StrFacts.length_drop. lia.
  - intros H%IH. cbn. lia.
Qed.

Lemma at_tag_length baseUrl c r st rest :
  (at_tag baseUrl (String c r) st).1 = Some rest -> String.length rest <= String.length r.
Proof.
  unfold at_tag. destruct (Str.starts_with "<!--" (String c r)) eqn:E.
  - cbn [fst]. intros [= <-]. destruct (after_first "-->" _) as [u|] eqn:Eu; cbn [or_default]; [|cbn; lia].
    apply after_first_length in Eu. etransitivity; [exact Eu|]. change (String.length (Str.drop 3 r) <= String.length r). rewrite StrFacts.length_drop. lia.
  - change (Str.drop 1 (String c r)) with r. pose proof (span_length (fun d => negb (Ascii.eqb d ">")) r) as Hl.
    destruct (JsNumber.span _ r) as [inner [|gt rest']]; [done|]. cbn in Hl.
    destruct (tag_name inner) as [[closing raw]|]; [|cbn [fst]; intros [= <-]; lia].
    destruct (negb closing && _).
    { pose proof (skipElement_length "title" rest'). destruct (skipElement "title" rest') as [b a]. cbn in *.
      intros [= <-]. lia. }
    destruct (negb closing && _).
    + pose proof (skipElement_length (Str.to_lower raw) rest'). cbn [fst]. intros [= <-]. lia.
    + cbn [fst]. intros [= <-]. lia.
Qed.

Lemma scan_from_total fuel baseUrl rest st :
  String.length rest < fuel -> exists st', scan_from fuel baseUrl rest st = Some st'.
Proof.
  revert rest st; induction fuel as [|fuel IH]; intros rest st Hf; [lia|]. cbn [scan_from].
  destruct rest as [|c0 rest0]; [eauto|]. set (rest := String c0 rest0) in *.
  pose proof (span_length (fun d => negb (is_lt d)) rest) as Hl.
  destruct (JsNumber.span _ rest) as [before [|c r]]; [eauto|]. cbn [fst snd String.length] in Hl.
  pose proof (at_tag_length baseUrl c r (match before with EmptyString => st | _ => push (decode before) st end)) as Ht.
  destruct (at_tag _ _ _) as [[rest'|] st2]; [|eauto]. apply IH. specialize (Ht rest' eq_refl). lia.
Qed.

Lemma scan_from_mono fuel fuel' baseUrl rest st st' :
  scan_from fuel baseUrl rest st = Some st' -> fuel <= fuel' -> scan_from fuel' baseUrl rest st = Some st'.
Proof.
  revert fuel' rest st; induction fuel as [|fuel IH]; intros [|fuel'] rest st H Hle; try done; [lia|].
  cbn [scan_from] in *. destruct rest as [|c0 rest0]; [done|].
  destruct (JsNumber.span _ _) as [before [|c r]]; [done|].
  destruct (at_tag _ _ _) as [[rest'|] st2]; [|done]. apply IH; [done|lia].
Qed.

(** ** The links *)

Definition link_ok (baseUrl : string) (l : link) : Prop :=
  exists h u, new_URL_base h baseUrl = Some u /\ web_protocol (protocol u) = true /\ href_of l = href u.

Definition links_ok (baseUrl : string) (ls : list link) : Prop :=
  Forall (link_ok baseUrl) ls /\ NoDup (href_of <$> ls) /\ length ls <= MAX_LINKS.

Lemma anchor_links baseUrl tag closing st :
  links_ok baseUrl (found st) -> links_ok baseUrl (found (anchor baseUrl tag closing st)).
Proof.
  intros H. unfold anchor. destruct closing; cbn [negb].
  - destruct (openLink st) as [[h start]|]; [|done]. cbn [found set_link].
    destruct (new_URL_base h baseUrl) as [u|] eqn:Eu; [|done].
    destruct (web_protocol (protocol u)) eqn:Ew; [|done]. cbn [andb].
    destruct (Nat.ltb_spec (length (found st)) MAX_LINKS) as [Hlt|]; [|done]. cbn [andb].
    destruct (existsb _ (found st)) eqn:Ex; [done|]. cbn [negb found add_link].
    destruct H as (Ha & Hn & Hl). split_and!.
    + apply Forall_app_2; [done|]. constructor; [|constructor]. by exists h, u.
    + rewrite fmap_app. apply NoDup_app. split_and!; [done| |apply NoDup_singleton].
      intros x Hx Hx'. cbn in Hx'. apply list_elem_of_singleton in Hx' as ->.
      apply list_elem_of_fmap in Hx as (l & Hl' & Hin). apply not_true_iff_false in Ex. apply Ex.
      apply existsb_exists. exists l. split; [by apply list_elem_of_In|]. by apply String.eqb_eq.
    + rewrite length_app. cbn. lia.
  - destruct (attribute tag "href") as [[|c h]|]; done.
Qed.

Lemma at_tag_links baseUrl r st :
  links_ok baseUrl (found st) -> links_ok baseUrl (found (at_tag baseUrl r st).2).
Proof.
  intros H. unfold at_tag. destruct (Str.starts_with "<!--" r); [done|].
  destruct (JsNumber.span _ _) as [inner [|gt rest]]; [done|].
  destruct (tag_name inner) as [[closing raw]|]; [|done].
  destruct (negb closing && _).
  { destruct (skipElement "title" rest). by destruct (String.eqb (title_ st) ""). }
  destruct (negb closing && _); [done|].
  destruct (String.eqb (Str.to_lower raw) "a"); cbn [snd found push]; [|done]. by apply anchor_links.
Qed.

Lemma scan_from_links fuel baseUrl rest st st' :
  scan_from fuel baseUrl rest st = Some st' -> links_ok baseUrl (found st) -> links_ok baseUrl (found st').
Proof.
  revert rest st; induction fuel as [|fuel IH]; intros rest st; cbn [scan_from]; [done|].
  destruct rest as [|c0 rest0]; [by intros [= <-]|].
  destruct (JsNumber.span _ _) as [before r]. intros H Hst.
  assert (Hst1 : links_ok baseUrl (found (match before with EmptyString => st | _ => push (decode before) st end)))
    by by destruct before.
  destruct r as [|c r]; [by injection H as <-|].
  pose proof (at_tag_links baseUrl (String c r) _ Hst1) as Ht.
  destruct (at_tag _ _ _) as [[rest'|] st2]; [by apply (IH rest' st2)|by injection H as <-].
Qed.

(** Reading a page always ends, and the links it reports are at most 100
    different absolute http or https URLs, each the resolution of an [href]
    against the page's own address: never a javascript:, data: or mailto: one. *)
Theorem pageFromHtml_links html baseUrl :
  exists page, pageFromHtml html baseUrl = Some page /\ links_ok baseUrl (links page).
Proof.
  unfold pageFromHtml.
  destruct (scan_from_total (S (String.length html)) baseUrl html no_scan) as [st Hst]; [lia|].
  rewrite Hst. cbn. eexists; split; [done|]. cbn. apply (scan_from_links _ _ _ _ _ Hst).
  split_and!; [constructor|constructor|cbn; lia].
Qed.
(** ** Skipped elements *)

Lemma to_lower_app s t : Str.to_lower (s +:+ t) = Str.to_lower s +:+ Str.to_lower t.
Proof. induction s as [|c s IH]; [done|]. rewrite !app_cons_str. unfold Str.to_lower in *. cbn [Str.map]. by rewrite IH. Qed.

(** A match across the end of [x] starts a proper suffix of the pattern there. *)
Lemma starts_with_app_cases p x y :
  Str.starts_with p (x +:+ y) = true ->
  Str.starts_with p x = true \/ exists z, p = x +:+ z /\ z <> "" /\ Str.starts_with z y = true.
Proof.
  revert x; induction p as [|c p IH]; intros x; [by left|]. destruct x as [|d x].
  - rewrite app_empty_str. right. by exists (String c p).
  - rewrite app_cons_str. cbn [Str.starts_with]. intros [Hc Hp]%andb_true_iff.
    apply Ascii.eqb_eq in Hc as ->. rewrite Ascii.eqb_refl. cbn [andb].
    destruct (IH x Hp) as [?|(z & -> & Hz & Hy)]; [by left|right; by exists z].
Qed.

(** The names of skipped elements: lower-case letters only. *)
Definition tag_word (name : string) : Prop := name <> "" /\ Str.all Str.is_lower name = true.

Lemma lower_char_id c : Str.is_lower c = true -> Str.lower_char c = c.
Proof.
  unfold Str.lower_char, Str.is_lower, Str.is_upper, Str.in_range. intros [H1 H2]%andb_true_iff.
  apply Nat.leb_le in H1, H2. replace (Str.code c <=? 90) with false by (symmetry; apply Nat.leb_gt; lia).
  by rewrite andb_false_r.
Qed.

Lemma tag_word_lower name : tag_word name -> Str.to_lower name = name.
Proof.
  intros [_ H]. unfold Str.to_lower. induction name as [|c name IH]; [done|]. cbn [Str.all Str.map] in *.
  apply andb_true_iff in H as [Hc H]. by rewrite lower_char_id, IH.
Qed.

Lemma tag_word_no_lt name z : tag_word name -> Str.starts_with (String "<" z) name = false.
Proof.
  intros [_ H]. destruct name as [|c name]; [done|]. cbn [Str.all Str.starts_with] in *.
  apply andb_true_iff in H as [Hc _]. rewrite (proj2 (Ascii.eqb_neq _ _)); [done|]. by intros <-.
Qed.

Lemma no_lt_suffix name x z :
  Str.all Str.is_lower name = true -> name = x +:+ z -> z <> "" -> Str.starts_with z "<" = true -> False.
Proof.
  intros H -> Hz Hs. rewrite StrFacts.all_app in H. apply andb_true_iff in H as [_ H].
  destruct z as [|c z]; [done|]. cbn [Str.starts_with Str.all] in *. apply andb_true_iff in Hs as [Hc _], H as [H _].
  apply Ascii.eqb_eq in Hc as ->. done.
Qed.

Definition element_close (name : string) : string := "</" +:+ name +:+ ">".

Lemma starts_with_first z y c r : y = String c r -> z <> "" -> Str.starts_with z y = true -> Str.starts_with (Str.take 1 z) (String c "") = true.
Proof.
  intros -> Hz. destruct z as [|d z]; [done|]. cbn [Str.starts_with Str.take]. intros [-> _]%andb_true_iff. done.
Qed.

Lemma skipElement_close name body tail :
  tag_word name -> Str.includes ("</" +:+ name) (Str.to_lower body) = false ->
  skipElement name (body +:+ element_close name +:+ tail) = (body, tail).
Proof.
  intros Hw. pose proof (tag_word_lower name Hw) as Hlow. induction body as [|c body IH]; intros Hb.
  - rewrite app_empty_str. assert (Hc : close_here name (element_close name +:+ tail) = Some tail).
    { unfold close_here, eat, element_close. rewrite !app_assoc_str, <- (app_assoc_str "</" name).
      rewrite to_lower_app. replace (Str.to_lower ("</" +:+ name)) with ("</" +:+ name)
        by (rewrite to_lower_app, Hlow; done).
      rewrite StrFacts.starts_with_refl, StrFacts.drop_app. done. }
    unfold element_close in *. rewrite !app_assoc_str, !app_cons_str in *. rewrite app_empty_str in *.
    cbn [skipElement]. by rewrite Hc.
  - rewrite app_cons_str. cbn [skipElement].
    assert (Hc : close_here name (String c (body +:+ element_close name +:+ tail)) = None).
    { unfold close_here, eat. rewrite <- (app_cons_str c), to_lower_app.
      destruct (Str.starts_with _ _) eqn:E; [|done]. exfalso.
      apply starts_with_app_cases in E as [E|(z & Hz & Hne & Hs)].
      - change (Str.to_lower (String c body)) with (String (Str.lower_char c) (Str.to_lower body)) in *.
        cbn [Str.includes] in Hb. by rewrite E in Hb.
      - change (Str.to_lower (String c body)) with (String (Str.lower_char c) (Str.to_lower body)) in Hz.
        rewrite !app_cons_str in Hz. injection Hz as _ Hz.
        assert (Hs1 : Str.starts_with (Str.take 1 z) "<" = true)
          by exact (starts_with_first z _ "<" _ eq_refl Hne Hs).
        destruct z as [|e z]; [done|]. cbn [Str.take Str.starts_with] in Hs1.
        apply andb_true_iff in Hs1 as [He _]. apply Ascii.eqb_eq in He as ->.
        destruct (Str.to_lower body) as [|d b].
        + rewrite !app_empty_str in Hz. discriminate Hz.
        + rewrite app_cons_str in Hz. injection Hz as _ Hz. rewrite ?app_empty_str in Hz.
          destruct Hw as [_ Hw]. rewrite Hz, StrFacts.all_app in Hw. cbn [Str.all] in Hw.
          change (Str.is_lower "<") with false in Hw. by rewrite andb_false_r in Hw. }
    rewrite Hc, IH; [done|]. cbn [Str.includes] in Hb.
    change (Str.to_lower (String c body)) with (String (Str.lower_char c) (Str.to_lower body)) in Hb.
    cbn [Str.includes] in Hb. by apply orb_false_iff in Hb as [_ ?].
Qed.

(** An opening tag: its name, then attributes that neither close it nor
    continue the name. *)
Definition attrs_ok (attrs : string) : bool :=
  Str.all (fun d => negb (Ascii.eqb d ">")) attrs &&
  match attrs with
  | String c _ => negb (is_letter c || Str.is_digit c || Ascii.eqb c "-")
  | EmptyString => true
  end.

Definition element (name attrs body : string) : string :=
  "<" +:+ name +:+ attrs +:+ ">" +:+ body +:+ element_close name.

Lemma tag_name_word name attrs : tag_word name -> attrs_ok attrs = true -> tag_name (name +:+ attrs) = Some (false, name).
Proof.
  intros [Hne Hw] [_ Ha]%andb_true_iff. destruct name as [|c name]; [done|]. unfold tag_name.
  assert (Hc : Str.is_lower c = true) by (cbn [Str.all] in Hw; by apply andb_true_iff in Hw as [? _]).
  rewrite app_cons_str. rewrite (proj2 (Ascii.eqb_neq c "/")) by by intros ->.
  cbv zeta iota beta. unfold is_letter at 1. rewrite Hc. cbn [orb]. f_equal. f_equal.
  assert (Hall : Str.all (fun d => is_letter d || Str.is_digit d || Ascii.eqb d "-") (String c name) = true).
  { eapply StrFacts.all_impl; [|exact Hw]. intros d Hd. unfold is_letter. by rewrite Hd. }
  rewrite <- app_cons_str. destruct attrs as [|a attrs].
  - rewrite app_nil_r_str. by rewrite JsNumber.span_all.
  - rewrite JsNumber.span_stops; [done|done|]. by apply negb_true_iff.
Qed.

Lemma skipped_word name : name ∈ SKIPPED -> tag_word name /\ String.eqb name "title" = false.
Proof.
  intros H. assert (Hall : forallb (fun n => negb (String.eqb n "") && Str.all Str.is_lower n && negb (String.eqb n "title")) SKIPPED = true)
    by by vm_compute.
  rewrite forallb_forall in Hall. apply list_elem_of_In in H. specialize (Hall _ H). bools.
  split; [by split|by apply String.eqb_neq].
Qed.

Lemma at_tag_skipped baseUrl name attrs body tail st :
  name ∈ SKIPPED -> attrs_ok attrs = true -> Str.includes ("</" +:+ name) (Str.to_lower body) = false ->
  at_tag baseUrl (element name attrs body +:+ tail) st = (Some tail, push " " st).
Proof.
  intros Hs Ha Hb. destruct (skipped_word name Hs) as [Hw Ht]. pose proof Hw as [Hne Hall].
  assert (Hr : element name attrs body +:+ tail =
    String "<" ((name +:+ attrs) +:+ String ">" (body +:+ element_close name +:+ tail))).
  { unfold element. by rewrite !app_assoc_str. }
  rewrite Hr. unfold at_tag.
  assert (Str.starts_with "<!--" (String "<" ((name +:+ attrs) +:+ String ">" (body +:+ element_close name +:+ tail))) = false) as ->.
  { destruct name as [|c name]; [done|]. rewrite !app_cons_str. cbn [Str.starts_with].
    rewrite (proj2 (Ascii.eqb_neq "!" c)); [by rewrite andb_false_r|]. intros <-. done. }
  change (Str.drop 1 (String "<" ((name +:+ attrs) +:+ String ">" (body +:+ element_close name +:+ tail))))
    with ((name +:+ attrs) +:+ String ">" (body +:+ element_close name +:+ tail)).
  rewrite JsNumber.span_stops; [|rewrite StrFacts.all_app|done].
  - rewrite tag_name_word, tag_word_lower, Ht by done. cbn [negb andb].
    rewrite bool_decide_eq_true_2 by done. by rewrite skipElement_close.
  - apply andb_true_iff in Ha as [-> _]. rewrite andb_true_r.
    eapply StrFacts.all_impl; [|exact Hall]. intros c Hc. apply negb_true_iff, Ascii.eqb_neq. by intros ->.
Qed.

Definition push_text (before : string) (st : scan) : scan :=
  match before with EmptyString => st | _ => push (decode before) st end.

(** The content of a script, style or other skipped element leaves no
    trace: the scanner steps over it to what follows, so two pages that differ
    only there read the same. *)
Theorem skipped_content baseUrl name attrs pre body1 body2 post :
  name ∈ SKIPPED -> attrs_ok attrs = true -> Str.all (fun c => negb (is_lt c)) pre = true ->
  Str.includes ("</" +:+ name) (Str.to_lower body1) = false ->
  Str.includes ("</" +:+ name) (Str.to_lower body2) = false ->
  (forall fuel st, scan_from (S fuel) baseUrl (pre +:+ element name attrs body1 +:+ post) st =
     scan_from fuel baseUrl post (push " " (push_text pre st))) /\
  pageFromHtml (pre +:+ element name attrs body1 +:+ post) baseUrl =
  pageFromHtml (pre +:+ element name attrs body2 +:+ post) baseUrl.
Proof.
  intros Hs Ha Hp Hb1 Hb2.
  assert (Hstep : forall body fuel st, Str.includes ("</" +:+ name) (Str.to_lower body) = false ->
    scan_from (S fuel) baseUrl (pre +:+ element name attrs body +:+ post) st =
    scan_from fuel baseUrl post (push " " (push_text pre st))).
  { intros body fuel st Hb. pose proof (at_tag_skipped baseUrl name attrs body post (push_text pre st) Hs Ha Hb) as Htag.
    assert (He : exists r, element name attrs body +:+ post = String "<" r)
      by (unfold element; rewrite !app_cons_str; eauto).
    destruct He as [r Hr]. rewrite Hr in *. cbn [scan_from].
    destruct (pre +:+ String "<" r) as [|c0 r0] eqn:E; [by destruct pre|]. rewrite <- E.
    rewrite JsNumber.span_stops by done. fold (push_text pre st). by rewrite Htag. }
  split; [intros; by apply Hstep|]. unfold pageFromHtml. rewrite !Hstep by done.
  set (st := push " " (push_text pre no_scan)). clearbody st.
  destruct (scan_from_total (S (String.length post)) baseUrl post st) as [st' Hst]; [lia|].
  rewrite !(scan_from_mono _ _ _ _ _ _ Hst); [done| |]; rewrite !length_app_str;
    unfold element; rewrite !app_cons_str; cbn [String.length]; lia.
Qed.
(** An unknown entity is left as it is written, but [&constructor;] is
    replaced by the text of a function every object inherits. *)
Theorem decode_constructor : decode "&constructor;" = "function Object() { [native code] }" /\ decode "&unknown;" = "&unknown;".
Proof. by vm_compute. Qed.

End page.

(** ** Witness *)

Definition no_parser : UrlParser := {| new_URL _ := None; new_URL_base _ _ := None |}.
Definition no_wide (code : Z) : string := "?".

Lemma skipped_content_witness :
  pageFromHtml (P := no_parser) no_wide ("Hi" +:+ element "script" " src=x" "if (a<b) steal()" +:+ "<p>bye") "" =
  pageFromHtml (P := no_parser) no_wide ("Hi" +:+ element "script" " src=x" "" +:+ "<p>bye") "" /\
  (text <$> pageFromHtml (P := no_parser) no_wide ("Hi" +:+ element "script" " src=x" "" +:+ "<p>bye") "") =
    Some ("Hi" +:+ String (ascii_of_nat 10) "bye").
Proof.
  split; [|by vm_compute].
  apply (skipped_content (P := no_parser) no_wide "" "script" " src=x" "Hi" "if (a<b) steal()" "" "<p>bye").
  - unfold SKIPPED. apply list_elem_of_here.
  - by vm_compute.
  - by vm_compute.
  - by vm_compute.
  - by vm_compute.
Defined.

End Page.
