(* ===== verification/WebFetch.v ===== *)
(** * The web-fetch app (apps/web-fetch/src/index.ts)

    One request with its redirects followed by hand: every hop's host is
    checked against the declared ones first, secret headers go only to the host
    they are declared for, and the result is capped. What the network does is a
    parameter: an answer for every hop and request. *)
From S2P Require Import Prelude Glob JsNumber Json JsonParse Url Hosts Page.

Module WebFetch.
Import Json Hosts.

Definition MAX_BYTES : N := 5242880.
Definition MAX_CHARS : N := 100000.
Definition MAX_REDIRECTS : nat := 5.

(** A string's length, and [s.slice(0, n)]. *)
Definition str_len (s : string) : N := N.of_nat (String.length s).
Definition slice (n : N) (s : string) : string := if (str_len s <=? n)%N then s else Str.take (N.to_nat n) s.

(** ** Errors *)

Inductive error : Type :=
| NotAbsolute (raw : string)
| UnsupportedProtocol (p : string)
| InternalAddress (h : string)
| Ipv6Address (h : string)
| NotDeclared (h : string) (p : option Z) (declared line : string)
| TimedOut (raw : string)
| ProxyRefusal (h detail : string)
| RequestFailed (url cause : string)
| InvalidLocation (location : string)
| TooManyRedirects (url : string)
| ReadFailed (url cause : string)
| UnsupportedMethod (method : string).

(** A thrown value: its [message], its text as a string, its [cause]. *)
Inductive exn : Type := Exn (message : option string) (text : string) (cause : option exn).

Fixpoint innermost (depth : nat) (e : exn) : exn :=
  match depth, e with
  | S d, Exn _ _ (Some c) => innermost d c
  | _, _ => e
  end.

Definition rootCause (e : exn) : string :=
  let '(Exn message text _) := innermost 5 e in or_default text message.

Definition TUNNEL_REFUSED (s : string) : bool :=
  String.eqb s "Proxy response (403) !== 200 when HTTP Tunneling".
Definition FORWARD_REFUSED (s : string) : bool := Str.starts_with "egress denied: " s.

(** ** URLs and addresses *)

Section app.
Context {P : UrlParser}.
(** [isIPv6] of node:net. *)
Context (isIPv6 : string -> bool).

Definition web_protocol (p : string) : bool := String.eqb p "http:" || String.eqb p "https:".

Definition parseUrl (raw : string) : result error URL :=
  match new_URL raw with
  | None => Err (NotAbsolute raw)
  | Some url => if web_protocol (protocol url) then Ok url else Err (UnsupportedProtocol (protocol url))
  end.

Definition portOf (url : URL) : Z :=
  match u_port url with
  | Some p => p
  | None => if String.eqb (protocol url) "https:" then 443 else 80
  end.

Definition isInternalV4 (a b : Z) : bool :=
  ((a =? 0) || (a =? 10) || (a =? 127) || ((a =? 100) && (64 <=? b) && (b <=? 127))
   || ((a =? 169) && (b =? 254)) || ((a =? 172) && (16 <=? b) && (b <=? 31))
   || ((a =? 192) && (b =? 168)) || (224 <=? a))%Z.

(** [s.split("::")], its first two pieces. *)
Fixpoint first_piece (s : string) : string :=
  match s with
  | String c s' => if Str.starts_with "::" s then "" else String c (first_piece s')
  | EmptyString => ""
  end.
Fixpoint split_double (s : string) : string * option string :=
  match s with
  | String c s' =>
      if Str.starts_with "::" s then ("", Some (first_piece (Str.drop 1 s')))
      else let '(h, t) := split_double s' in (String c h, t)
  | EmptyString => ("", None)
  end.

(** A part's groups, each read by [parseInt(g, 16)]. *)
Definition parse_groups (part : option string) : list Z :=
  match part with
  | None | Some "" => []
  | Some s => map (JsNumber.value_in 16 JsNumber.hex_value 0) (Str.split ":" s)
  end.

(** The count of zero groups is never negative: [isIPv6] has accepted the text. *)
Definition ipv6Groups (h : string) : option (list Z) :=
  if negb (Str.starts_with "[" h) || negb (Str.ends_with "]" h) then None
  else
    let addr := Str.take (String.length h - 2) (Str.drop 1 h) in
    if negb (isIPv6 addr) || Str.any (Ascii.eqb ".") addr then None
    else
      let '(head, tail) := split_double addr in
      let start := parse_groups (Some head) in
      let fin := parse_groups tail in
      Some (match tail with
            | None => start
            | Some _ => start ++ replicate (8 - length start - length fin) 0%Z ++ fin
            end).

Inductive why : Type := Internal | Ipv6.

(** The tests on the eight groups, in the code's order. *)
Definition unreachable_v6 (g : list Z) : why :=
  let at_ (i : nat) : Z := nth i g 0%Z in
  let zeroTo n := forallb (Z.eqb 0) (take n g) in
  let embeddedV4Internal := isInternalV4 (Z.shiftr (at_ 6) 8) (Z.land (at_ 6) 255) in
  if zeroTo 7 && (Z.eqb (at_ 7) 0 || Z.eqb (at_ 7) 1) then Internal
  else if Z.eqb (Z.land (at_ 0) 65472) 65152 || Z.eqb (Z.land (at_ 0) 65472) 65216 then Internal
  else if Z.eqb (Z.land (at_ 0) 65024) 64512 then Internal
  else if Z.eqb (Z.land (at_ 0) 65280) 65280 then Internal
  else if zeroTo 5 && Z.eqb (at_ 5) 65535 && embeddedV4Internal then Internal
  else if Z.eqb (at_ 0) 100 && Z.eqb (at_ 1) 65435 && forallb (Z.eqb 0) (take 4 (drop 2 g)) && embeddedV4Internal
  then Internal
  else Ipv6.

Definition unreachable (h : string) : option why :=
  if String.eqb h "localhost" || String.eqb h "host.docker.internal" then Some Internal
  else match dotted_quad h with
       | Some (a, b) => if isInternalV4 a b then Some Internal else None
       | None => unreachable_v6 <$> ipv6Groups h
       end.

Definition suggested_line (url : URL) : string :=
  let p := portOf url in
  if ((p =? 80) || (p =? 443))%Z then prefix +:+ hostname url
  else prefix +:+ hostname url +:+ ":" +:+ JsNumber.to_string p.

Definition refusal (url : URL) (patterns : list HostPattern) : error :=
  match unreachable (hostname url) with
  | Some Internal => InternalAddress (hostname url)
  | Some Ipv6 => Ipv6Address (hostname url)
  | None =>
      let joined := Str.join ", " (map scope patterns) in
      NotDeclared (hostname url) (u_port url)
        (if String.eqb joined "" then "(none)" else joined) (suggested_line url)
  end.

(** [/^127\.\d+\.\d+\.\d+$/] *)
Definition isLoopback (h : string) : bool :=
  String.eqb h "localhost" || String.eqb h "[::1]" ||
  match Str.split "." h with
  | [a; b; c; d] => String.eqb a "127" && forallb digits [b; c; d]
  | _ => false
  end.

(** ** Secret headers *)

(** [{...v}]: the entries an object literal takes over. *)
Fixpoint indexed {A} (f : A -> json) (i : nat) (l : list A) : list (string * json) :=
  match l with
  | [] => []
  | x :: l' => (JsNumber.to_string (Z.of_nat i), f x) :: indexed f (S i) l'
  end.
Definition spread (v : json) : list (string * json) :=
  match v with
  | JObj o => o
  | JArr l => indexed id 0 l
  | JStr s => indexed (fun c => JStr (String c "")) 0 (String.list_ascii_of_string s)
  | _ => []
  end.

(** The variable's text, [None] when it is unset. The members every object
    inherits have no entries of their own, so reading one spreads to nothing. *)
Context (WEB_FETCH_HEADERS : option string).

Definition secretHeadersFor (url : URL) : option (list (string * json)) :=
  match WEB_FETCH_HEADERS with
  | None | Some "" => Some []
  | Some raw =>
      if negb (String.eqb (protocol url) "https:") && negb (isLoopback (hostname url)) then Some []
      else match JsonParse.parse raw with
           | None => None
           | Some all => (fun v => spread v) <$> prop (hostname url) all
           end
  end.

Definition BAD_HEADERS : string :=
  "WEB_FETCH_HEADERS isn't valid JSON: it should map a host to headers, like {" +:+ quote "api.example.com"
  +:+ ": {" +:+ quote "Authorization" +:+ ": " +:+ quote "Bearer ..." +:+ "}}".

(** ** Reading a body *)

(** The bytes kept of a stream of chunks: the last chunk is cut at the cap. *)
Fixpoint readCapped_from (size : N) (chunks : list string) : string * bool :=
  match chunks with
  | [] => ("", false)
  | buf :: chunks' =>
      let size' := (size + str_len buf)%N in
      if (MAX_BYTES <? size')%N then (Str.take (N.to_nat (MAX_BYTES - size)) buf, true)
      else
        let '(bytes, truncated) := readCapped_from size' chunks' in
        (buf +:+ bytes, truncated)
  end.
Definition readCapped (chunks : list string) : string * bool := readCapped_from 0 chunks.

(** [/^text\/|json|xml|javascript|x-www-form-urlencoded|yaml|csv/i] *)
Definition isText (contentType : string) : bool :=
  let lower := Str.to_lower contentType in
  String.eqb contentType "" || Str.starts_with "text/" lower ||
  existsb (fun w => Str.includes w lower)
    ["json"; "xml"; "javascript"; "x-www-form-urlencoded"; "yaml"; "csv"].

(** ** The request loop *)

Record Request := {
  r_url : URL;
  r_method : string;
  r_headers : list (string * json);
  r_body : option string
}.

Record Response := {
  status : Z;
  location : option string;
  content_type : option string;
  chunks : list string;
  (** How reading the body fails, if it does, and whether the deadline had passed. *)
  body_error : option (bool * exn)
}.

Inductive reply : Type :=
| Failed (aborted : bool) (e : exn)
| Replied (res : Response).

Record Fetched := {
  f_url : string;
  f_status : Z;
  f_content_type : string;
  f_body : string;
  f_truncated : bool
}.

(** The network: the reply to the request of a hop; whether the deadline has
    passed when a hop's request cannot be built; [Buffer.toString("utf-8")]. *)
Context (fetch : nat -> Request -> reply) (late : nat -> bool) (utf8 : string -> string).
(** Whether the sandbox has an egress proxy, and the declared patterns. *)
Context (dispatcher : bool) (patterns : list HostPattern).

Definition truthy (s : option string) : option string :=
  match s with Some "" => None | _ => s end.

(** The headers of a request, in the order the object literal writes them. *)
Definition headers_of (body contentType : option string) (secrets : list (string * json)) : list (string * json) :=
  foldl (fun o kv => JsObj.assign kv.1 kv.2 o)
    (match body, truthy contentType with
     | Some _, Some t => [("content-type", JStr t)]
     | _, _ => []
     end) secrets.

Definition body_sent (method : string) (body : option string) : option string :=
  if negb (String.eqb method "GET") && negb (String.eqb method "HEAD") then body else None.

(** What is made of a response that is not a redirect. *)
Definition finish (rawUrl : string) (maxChars : option N) (url : URL) (res : Response) : result error Fetched :=
  let ct := or_default "" (content_type res) in
  match (readCapped (chunks res)).2, body_error res with
  | false, Some (aborted, e) =>
      if aborted then Err (TimedOut rawUrl) else Err (ReadFailed (href url) (rootCause e))
  | byteCapped, _ =>
      let bytes := (readCapped (chunks res)).1 in
      if negb (isText ct) then
        Ok {| f_url := href url; f_status := status res; f_content_type := ct;
              f_body := "[" +:+ ct +:+ " body, " +:+ JsNumber.to_string (Z.of_nat (String.length bytes)) +:+ " bytes"
                +:+ (if byteCapped then "+" else "") +:+ ", not shown]";
              f_truncated := byteCapped |}
      else
        let text := utf8 bytes in
        if dispatcher && (status res =? 403)%Z && Str.starts_with "text/plain" (Str.to_lower ct) && FORWARD_REFUSED text
        then Err (ProxyRefusal (hostname url) (Str.trim text))
        else
          let over := match maxChars with Some n => (n <? str_len text)%N | None => false end in
          Ok {| f_url := href url; f_status := status res; f_content_type := ct;
                f_body := match maxChars with Some n => slice n text | None => text end;
                f_truncated := byteCapped || over |}
  end.

(** A 303, and a 301 or 302 after a POST, become a GET without a body. *)
Definition becomes_get (st : Z) (method : string) : bool :=
  ((st =? 303) || (((st =? 301) || (st =? 302)) && String.eqb method "POST"))%Z.

(** One hop: the request it makes, if any, and either the call's result or the
    response and location of a redirect. *)
Definition hop_step (rawUrl : string) (contentType : option string) (maxChars : option N)
    (hop : nat) (url : URL) (method : string) (body : option string)
  : list Request * (result error Fetched + Response * string) :=
  if negb (isAllowed patterns (hostname url) (portOf url)) then ([], inl (Err (refusal url patterns)))
  else
    match secretHeadersFor url with
    | None => ([], inl (Err (if late hop then TimedOut rawUrl else RequestFailed (href url) BAD_HEADERS)))
    | Some secrets =>
        let req := {| r_url := url; r_method := method; r_headers := headers_of body contentType secrets;
                      r_body := body_sent method body |} in
        ([req],
         match fetch hop req with
         | Failed aborted e =>
             inl (Err (if aborted then TimedOut rawUrl
                       else if dispatcher && TUNNEL_REFUSED (rootCause e) then ProxyRefusal (hostname url) (rootCause e)
                       else RequestFailed (href url) (rootCause e)))
         | Replied res =>
             match truthy (location res) with
             | Some loc =>
                 if ((300 <=? status res) && (status res <? 400))%Z then inr (res, loc)
                 else inl (finish rawUrl maxChars url res)
             | None => inl (finish rawUrl maxChars url res)
             end
         end)
    end.

(** [parseUrl(new URL(location, url).toString())] *)
Definition next_url (loc : string) (url : URL) : result error URL :=
  match new_URL_base loc (href url) with
  | None => Err (InvalidLocation loc)
  | Some next => parseUrl (href next)
  end.

(** One hop after another; [left] is how many redirects may still be followed,
    so the hop's number is [MAX_REDIRECTS - left]. The requests made are
    returned beside the result. *)
Fixpoint send_loop (rawUrl : string) (contentType : option string) (maxChars : option N)
    (left : nat) (url : URL) (method : string) (body : option string)
  : list Request * result error Fetched :=
  match hop_step rawUrl contentType maxChars (MAX_REDIRECTS - left) url method body with
  | (reqs, inl r) => (reqs, r)
  | (reqs, inr (res, loc)) =>
      match left with
      | O => (reqs, Err (TooManyRedirects (href url)))
      | S left' =>
          match next_url loc url with
          | Err e => (reqs, Err e)
          | Ok url' =>
              let get := becomes_get (status res) method in
              let '(reqs', r) :=
                send_loop rawUrl contentType maxChars left' url'
                  (if get then "GET" else method) (if get then None else body) in
              (reqs ++ reqs', r)
          end
      end
  end.

Definition send (method rawUrl : string) (body contentType : option string) (maxChars : option N)
  : list Request * result error Fetched :=
  match parseUrl rawUrl with
  | Err e => ([], Err e)
  | Ok url => send_loop rawUrl contentType maxChars MAX_REDIRECTS url (Str.to_upper method) body
  end.

(** ** The app's exports *)

Definition get (url : string) : list Request * result error Fetched := send "GET" url None None (Some MAX_CHARS).

Definition METHODS : list string := ["GET"; "HEAD"; "POST"; "PUT"; "PATCH"; "DELETE"; "OPTIONS"].

Definition request (method url body contentType : string) : list Request * result error Fetched :=
  if negb (bool_decide (Str.to_upper method ∈ METHODS)) then ([], Err (UnsupportedMethod method))
  else send method url (if String.eqb body "" then None else Some body) (truthy (Some contentType)) (Some MAX_CHARS).

(** [String.fromCodePoint] above 255, for reading a page. *)
Context (wide : Z -> string).

Record ReadPage := {
  p_url : string;
  p_status : Z;
  p_title : string;
  p_text : string;
  p_links : list Page.link;
  p_truncated : bool
}.

(** [pageFromHtml] always yields a page ([Page.pageFromHtml_links]). *)
Definition page_of (html baseUrl : string) : Page.Page :=
  or_default {| Page.title := ""; Page.text := ""; Page.links := [] |} (Page.pageFromHtml wide html baseUrl).

Definition read_page (url : string) : list Request * result error ReadPage :=
  let '(reqs, r) := send "GET" url None None None in
  (reqs,
   match r with
   | Err e => Err e
   | Ok res =>
       if negb (Str.includes "html" (Str.to_lower (f_content_type res))) then
         Ok {| p_url := f_url res; p_status := f_status res; p_title := "";
               p_text := slice MAX_CHARS (f_body res); p_links := [];
               p_truncated := f_truncated res || (MAX_CHARS <? str_len (f_body res))%N |}
       else
         let page := page_of (f_body res) (f_url res) in
         Ok {| p_url := f_url res; p_status := f_status res; p_title := Page.title page;
               p_text := slice MAX_CHARS (Page.text page); p_links := Page.links page;
               p_truncated := f_truncated res || (MAX_CHARS <? str_len (Page.text page))%N |}
   end).

Definition allowed_hosts : list string := map scope patterns.

(** ** What a request may carry *)

(** A header that is not the content type is a secret declared for the
    request's own host, and the request is private. *)
Definition secret_of (url : URL) (kv : string * json) : Prop :=
  (protocol url = "https:" \/ isLoopback (hostname url) = true) /\
  exists raw all v, WEB_FETCH_HEADERS = Some raw /\ JsonParse.parse raw = Some all /\
    prop (hostname url) all = Some v /\ kv ∈ spread v.

Definition request_ok (contentType : option string) (method : string) (body : option string) (rq : Request) : Prop :=
  isAllowed patterns (hostname (r_url rq)) (portOf (r_url rq)) = true /\
  web_protocol (protocol (r_url rq)) = true /\
  (forall kv, kv ∈ r_headers rq -> contentType = Some (match kv.2 with JStr t => t | _ => "" end) \/ secret_of (r_url rq) kv) /\
  (forall b, r_body rq = Some b -> body = Some b /\ r_method rq = method /\ method <> "GET" /\ method <> "HEAD").

Lemma parseUrl_ok raw url : parseUrl raw = Ok url -> new_URL raw = Some url /\ web_protocol (protocol url) = true.
Proof.
  unfold parseUrl. destruct (new_URL raw) as [u|]; [|done]. destruct (web_protocol (protocol u)) eqn:E; [|done].
  by intros [= <-].
Qed.

Lemma secretHeadersFor_secret url hs kv : secretHeadersFor url = Some hs -> kv ∈ hs -> secret_of url kv.
Proof.
  unfold secretHeadersFor, secret_of. destruct WEB_FETCH_HEADERS as [raw|] eqn:Er; [|intros [= <-]; set_solver].
  intros H Hin. assert (Hraw : raw <> "") by (intros ->; injection H as <-; set_solver).
  destruct (String.eqb_spec (protocol url) "https:") as [Hp|Hp]; cbn [negb andb] in H.
  - split; [by left|]. destruct raw as [|c raw]; [done|].
    destruct (JsonParse.parse (String c raw)) as [all|] eqn:Ea; [|done].
    destruct (prop (hostname url) all) as [v|] eqn:Ev; [|done]. injection H as <-.
    by exists (String c raw), all, v.
  - destruct raw as [|c raw]; [done|]. destruct (isLoopback (hostname url)) eqn:El; cbn [negb] in H.
    + split; [by right|]. destruct (JsonParse.parse (String c raw)) as [all|] eqn:Ea; [|done].
      destruct (prop (hostname url) all) as [v|] eqn:Ev; [|done]. injection H as <-.
      by exists (String c raw), all, v.
    + injection H as <-. set_solver.
Qed.

Lemma elem_of_put (k : string) (v : json) o kv : kv ∈ JsMap.put k v o -> kv = (k, v) \/ kv ∈ o.
Proof.
  induction o as [|[k' v'] o IH]; cbn; [set_solver|]. case_decide as Hk; [set_solver|].
  rewrite !elem_of_cons. intros [->|H]; [by right; left|]. destruct (IH H); [by left|by right; right].
Qed.

Lemma elem_of_headers body contentType secrets kv :
  kv ∈ headers_of body contentType secrets ->
  contentType = Some (match kv.2 with JStr t => t | _ => "" end) \/ kv ∈ secrets.
Proof.
  unfold headers_of.
  cut (forall o, kv ∈ foldl (fun o kv => JsObj.assign kv.1 kv.2 o) o secrets -> kv ∈ o \/ kv ∈ secrets).
  { intros H Hin. destruct (H _ Hin) as [Ho|Ho]; [left|by right].
    unfold truthy in Ho. destruct body, contentType as [[|c t]|]; cbn in Ho; try set_solver. }
  induction secrets as [|[k v] secrets IH]; intros o; cbn [foldl]; [by left|].
  intros [H|H]%IH; [|by right; apply list_elem_of_further]. unfold JsObj.assign in H. cbn [fst snd] in H.
  destruct (String.eqb k "__proto__"); [by left|]. apply elem_of_put in H as [->|H]; [right; apply list_elem_of_here|by left].
Qed.

Lemma hop_step_ok rawUrl contentType maxChars hop url method body method0 body0 :
  web_protocol (protocol url) = true -> (body = None \/ (body = body0 /\ method = method0)) ->
  let reqs := (hop_step rawUrl contentType maxChars hop url method body).1 in
  Forall (request_ok contentType method0 body0) reqs /\ length reqs <= 1.
Proof.
  intros Hp Hb. cbv zeta. unfold hop_step.
  destruct (isAllowed patterns (hostname url) (portOf url)) eqn:Ea; [|split; [constructor|cbn; lia]]. cbn [negb].
  destruct (secretHeadersFor url) as [secrets|] eqn:Es; [|split; [constructor|cbn; lia]]. cbn [fst].
  split; [|done]. constructor; [|constructor]. split_and!; [done|done| |].
  - intros kv Hkv. cbn in Hkv. apply elem_of_headers in Hkv as [?|Hkv]; [by left|right].
    by eapply secretHeadersFor_secret.
  - intros b. cbn. unfold body_sent.
    destruct (String.eqb_spec method "GET"), (String.eqb_spec method "HEAD"); cbn; try done.
    intros ->. by destruct Hb as [?|[<- <-]].
Qed.

Lemma send_loop_ok rawUrl contentType maxChars left : forall url method body method0 body0,
  web_protocol (protocol url) = true -> (body = None \/ (body = body0 /\ method = method0)) ->
  let reqs := (send_loop rawUrl contentType maxChars left url method body).1 in
  Forall (request_ok contentType method0 body0) reqs /\ length reqs <= S left.
Proof.
  cbv zeta. induction left as [|left IH]; intros url method body method0 body0 Hp Hb; cbn [send_loop];
    match goal with |- context [hop_step rawUrl contentType maxChars ?hop url method body] =>
      destruct (hop_step_ok rawUrl contentType maxChars hop url method body method0 body0 Hp Hb) as [H1 H2];
      destruct (hop_step rawUrl contentType maxChars hop url method body) as [reqs [r|[res loc]]] end;
    cbn [fst] in *; try (split; [done|lia]).
  destruct (next_url loc url) as [url'|e] eqn:En; [|split; [done|cbn in *; lia]].
  assert (Hp' : web_protocol (protocol url') = true).
  { unfold next_url in En. destruct (new_URL_base loc (href url)) as [n|]; [|done]. by apply parseUrl_ok in En as [_ ?]. }
  assert (Hb' : (if becomes_get (status res) method then None else body) = None \/
    ((if becomes_get (status res) method then None else body) = body0 /\
     (if becomes_get (status res) method then "GET" else method) = method0))
    by (destruct (becomes_get (status res) method); [by left|done]).
  specialize (IH url' _ _ method0 body0 Hp' Hb') as [K1 K2].
  destruct (send_loop _ _ _ _ _ _ _) as [reqs' r]. cbn [fst] in *.
  split; [by apply Forall_app_2|rewrite length_app; lia].
Qed.

(** ** Properties *)

(** [C29] Every request a call makes goes to a host and port berth.yml declares,
    over http or https, redirects included; the only headers it carries besides
    the content type are the secret ones declared for its own host, over https
    or to the machine itself; a body is only ever sent with the caller's own
    method, neither GET nor HEAD; and there are at most six requests. *)
Theorem send_requests_safe method rawUrl body contentType maxChars :
  let reqs := (send method rawUrl body contentType maxChars).1 in
  Forall (request_ok contentType (Str.to_upper method) body) reqs /\ length reqs <= S MAX_REDIRECTS.
Proof.
  cbv zeta. unfold send. destruct (parseUrl rawUrl) as [url|e] eqn:E; [|split; [constructor|cbn; lia]].
  apply parseUrl_ok in E as [_ Hp]. apply send_loop_ok; [done|by right].
Qed.

End app.

(** Reading a body in chunks keeps exactly its first 5 MiB, and says so
    exactly when there was more. *)
Theorem readCapped_spec chunks :
  readCapped chunks = (slice MAX_BYTES (String.concat "" chunks), (MAX_BYTES <? str_len (String.concat "" chunks))%N).
Proof.
  unfold readCapped.
  assert (Hcat : forall c cs, String.concat "" (c :: cs) = c +:+ String.concat "" cs).
  { intros c [|d cs]; [by rewrite app_nil_r_str|done]. }
  cut (forall size, (size <= MAX_BYTES)%N ->
    readCapped_from size chunks =
      (slice (MAX_BYTES - size) (String.concat "" chunks),
       (MAX_BYTES - size <? str_len (String.concat "" chunks))%N)).
  { intros H. rewrite H by lia. by rewrite N.sub_0_r. }
  unfold slice, str_len. induction chunks as [|c chunks IH]; intros size Hs; cbn [readCapped_from].
  - cbn. rewrite (proj2 (N.leb_le _ _)) by lia. f_equal. symmetry. apply N.ltb_ge. lia.
  - rewrite Hcat, length_app_str, Nat2N.inj_add. unfold str_len in *.
    destruct (N.ltb_spec MAX_BYTES (size + N.of_nat (String.length c))) as [Hlt|Hge].
    + rewrite (proj2 (N.leb_gt _ _)), (proj2 (N.ltb_lt _ _)) by lia.
      by rewrite StrFacts.take_app_le by lia.
    + rewrite IH by lia.
      replace (MAX_BYTES - (size + N.of_nat (String.length c)))%N
        with (MAX_BYTES - size - N.of_nat (String.length c))%N by lia.
      set (m := (MAX_BYTES - size)%N) in *. set (t := String.concat "" chunks).
      destruct (N.leb_spec (N.of_nat (String.length t)) (m - N.of_nat (String.length c))) as [H1|H1].
      * rewrite (proj2 (N.leb_le (N.of_nat (String.length c) + _) m)) by lia.
        f_equal. apply eq_true_iff_eq. rewrite !N.ltb_lt. lia.
      * rewrite (proj2 (N.leb_gt (N.of_nat (String.length c) + _) m)) by lia. f_equal.
        -- rewrite <- (StrFacts.take_drop (N.to_nat (m - N.of_nat (String.length c))) t) at 2.
           rewrite <- app_assoc_str.
           replace (N.to_nat m) with (String.length (c +:+ Str.take (N.to_nat (m - N.of_nat (String.length c))) t)).
           ++ by rewrite StrFacts.take_app.
           ++ rewrite length_app_str, StrFacts.length_take. lia.
        -- apply eq_true_iff_eq. rewrite !N.ltb_lt. lia.
Qed.

(** The line a refusal tells the user to add works: with it in berth.yml,
    the refused host and port are allowed. *)
Theorem refusal_advice isIPv6 url capabilities h p declared line :
  url_ok url -> hostname url <> "" ->
  (Str.starts_with "[" (hostname url) = true -> ipv6Groups isIPv6 (hostname url) <> None) ->
  refusal isIPv6 url (patternsFrom capabilities) = NotDeclared h p declared line ->
  isAllowed (patternsFrom (capabilities ++ [line])) (hostname url) (portOf url) = true.
Proof.
  intros Hok Hne Hv6. unfold refusal. destruct (unreachable isIPv6 (hostname url)) as [[]|] eqn:Eu; [done|done|].
  intros [= <- <- _ <-]. apply isAllowed_spec.
  assert (Hcolon : Str.any (Ascii.eqb ":") (hostname url) = false).
  { apply not_true_iff_false. intros Hc. destruct (url_colon _ Hok Hc) as [Hb _]. specialize (Hv6 Hb).
    unfold unreachable in Eu. destruct (String.eqb (hostname url) "localhost" || _); [done|].
    destruct (dotted_quad (hostname url)) as [[a b]|] eqn:Ed.
    - unfold dotted_quad in Ed. destruct (hostname url) as [|c0 h0] eqn:Eh; [done|].
      cbn [Str.starts_with] in Hb. apply andb_true_iff in Hb as [Hb _]. apply Ascii.eqb_eq in Hb as <-.
      cbn [Str.split] in Ed. change (Ascii.eqb "[" ".") with false in Ed. cbn iota in Ed.
      destruct (Str.split "." h0) as [|w ws]; [done|]. destruct ws as [|w1 [|w2 [|w3 [|]]]]; try done.
    - by destruct (ipv6Groups isIPv6 (hostname url)). }
  assert (Hp : (0 <= portOf url < 65536)%Z).
  { unfold portOf. destruct (u_port url) as [q|] eqn:Eq; [by apply (url_port _ Hok)|].
    destruct (String.eqb (protocol url) "https:"); lia. }
  unfold suggested_line. destruct ((portOf url =? 80) || (portOf url =? 443))%Z eqn:Ep.
  - exists (hostname url). split; [apply elem_of_app; right; apply list_elem_of_here|].
    apply scope_allows_bare; [apply (url_one_line _ Hok)|done|].
    apply orb_true_iff in Ep as [Ep|Ep]; apply Z.eqb_eq in Ep; auto.
  - exists (hostname url +:+ ":" +:+ JsNumber.to_string (portOf url)).
    split; [apply elem_of_app; right; apply list_elem_of_here|].
    apply scope_allows_exact; [apply (url_one_line _ Hok)|done|lia].
Qed.

(** The address as one 128-bit number. *)
Definition address (g : list Z) : Z := foldl (fun acc x => acc * 65536 + x)%Z 0%Z g.

Definition group (x : Z) : Prop := (0 <= x < 65536)%Z.

Lemma land_high x n k :
  (0 <= n)%Z -> (0 <= k)%Z -> Z.land x (Z.shiftl (Z.ones k) n) = ((x / 2 ^ n) mod 2 ^ k * 2 ^ n)%Z.
Proof.
  intros Hn Hk. rewrite <- Z.land_ones, <- Z.shiftl_mul_pow2, <- Z.shiftr_div_pow2 by done.
  apply Z.bits_inj'. intros i Hi. rewrite Z.land_spec. destruct (Z.ltb_spec i n).
  - rewrite !Z.shiftl_spec_low by lia. apply andb_false_r.
  - by rewrite !Z.shiftl_spec, Z.land_spec, Z.shiftr_spec, Z.sub_add by lia.
Qed.

(** The three masks on a 16-bit group, as ranges. *)
Lemma masks x : group x ->
  (Z.land x 65472 = 65152 \/ Z.land x 65472 = 65216 <-> 65152 <= x < 65280)%Z /\
  (Z.land x 65024 = 64512 <-> 64512 <= x < 65024)%Z /\
  (Z.land x 65280 = 65280 <-> 65280 <= x)%Z.
Proof.
  unfold group. intros Hx.
  pose proof (land_high x 6 10 ltac:(lia) ltac:(lia)) as H1. pose proof (land_high x 9 7 ltac:(lia) ltac:(lia)) as H2.
  pose proof (land_high x 8 8 ltac:(lia) ltac:(lia)) as H3.
  change (Z.shiftl (Z.ones 10) 6) with 65472%Z in H1. change (Z.shiftl (Z.ones 7) 9) with 65024%Z in H2.
  change (Z.shiftl (Z.ones 8) 8) with 65280%Z in H3. rewrite H1, H2, H3. clear H1 H2 H3.
  split_and!; Z.div_mod_to_equations; lia.
Qed.

Lemma first_internal (b1 b2 b3 b4 b5 b6 : bool) :
  (if b1 then Internal else if b2 then Internal else if b3 then Internal else if b4 then Internal
   else if b5 then Internal else if b6 then Internal else Ipv6) = Internal <->
  b1 || b2 || b3 || b4 || b5 || b6 = true.
Proof. by destruct b1, b2, b3, b4, b5, b6. Qed.

(** The tests as one disjunction over the eight groups. *)
Lemma unreachable_v6_cases a0 a1 a2 a3 a4 a5 a6 a7 :
  unreachable_v6 [a0; a1; a2; a3; a4; a5; a6; a7] = Internal <->
  ((a0 = 0 /\ a1 = 0 /\ a2 = 0 /\ a3 = 0 /\ a4 = 0 /\ a5 = 0 /\ a6 = 0 /\ (a7 = 0 \/ a7 = 1)) \/
   (Z.land a0 65472 = 65152 \/ Z.land a0 65472 = 65216) \/ Z.land a0 65024 = 64512 \/ Z.land a0 65280 = 65280 \/
   (((a0 = 0 /\ a1 = 0 /\ a2 = 0 /\ a3 = 0 /\ a4 = 0 /\ a5 = 65535) \/
     (a0 = 100 /\ a1 = 65435 /\ a2 = 0 /\ a3 = 0 /\ a4 = 0 /\ a5 = 0)) /\
    isInternalV4 (a6 / 256) (a6 mod 256) = true))%Z.
Proof.
  unfold unreachable_v6. cbn [nth take drop forallb]. rewrite first_internal, !(Z.eqb_sym 0).
  rewrite (Z.shiftr_div_pow2 a6 8) by lia. change 255%Z with (Z.ones 8). rewrite (Z.land_ones a6 8) by lia.
  change (2 ^ 8)%Z with 256%Z. generalize (isInternalV4 (a6 / 256) (a6 mod 256)). intros v4.
  rewrite !orb_true_iff, !andb_true_iff, !orb_true_iff, !Z.eqb_eq. tauto.
Qed.

Lemma address_split a0 a1 a2 a3 a4 a5 a6 a7 :
  address [a0; a1; a2; a3; a4; a5; a6; a7] =
    ((a0 * 2 ^ 80 + a1 * 2 ^ 64 + a2 * 2 ^ 48 + a3 * 2 ^ 32 + a4 * 2 ^ 16 + a5) * 2 ^ 32 + a6 * 2 ^ 16 + a7)%Z.
Proof. unfold address. cbn [foldl]. lia. Qed.

Lemma address_high a0 a1 a2 a3 a4 a5 a6 a7 : group a6 -> group a7 ->
  (address [a0; a1; a2; a3; a4; a5; a6; a7] / 2 ^ 32 =
   a0 * 2 ^ 80 + a1 * 2 ^ 64 + a2 * 2 ^ 48 + a3 * 2 ^ 32 + a4 * 2 ^ 16 + a5)%Z.
Proof.
  intros H6 H7. rewrite address_split. unfold group in *.
  set (hi := (_ * 2 ^ 80 + _ + _ + _ + _ + _)%Z). symmetry.
  apply (Z.div_unique _ _ _ (a6 * 2 ^ 16 + a7)); lia.
Qed.

Lemma address_mid a0 a1 a2 a3 a4 a5 a6 a7 : group a6 -> group a7 ->
  (address [a0; a1; a2; a3; a4; a5; a6; a7] / 2 ^ 16 mod 256 = a6 mod 256)%Z.
Proof.
  intros H6 H7. rewrite address_split. unfold group in *.
  set (hi := (_ * 2 ^ 80 + _ + _ + _ + _ + _)%Z).
  assert (E : ((hi * 2 ^ 32 + a6 * 2 ^ 16 + a7) / 2 ^ 16 = a6 + (hi * 256) * 256)%Z).
  { symmetry. apply (Z.div_unique _ _ _ a7); lia. }
  rewrite E. apply Z.mod_add. lia.
Qed.

Lemma address_low a0 a1 a2 a3 a4 a5 a6 a7 : group a6 -> group a7 ->
  (address [a0; a1; a2; a3; a4; a5; a6; a7] / 2 ^ 24 mod 256 = a6 / 256)%Z.
Proof.
  intros H6 H7. rewrite address_split. unfold group in *.
  set (hi := (_ * 2 ^ 80 + _ + _ + _ + _ + _)%Z).
  pose proof (Z.div_mod a6 256 ltac:(lia)) as Hd. pose proof (Z.mod_pos_bound a6 256 ltac:(lia)) as Hm.
  assert (E : ((hi * 2 ^ 32 + a6 * 2 ^ 16 + a7) / 2 ^ 24 = a6 / 256 + hi * 256)%Z).
  { symmetry. apply (Z.div_unique _ _ _ (a6 mod 256 * 2 ^ 16 + a7)); lia. }
  rewrite E, Z.mod_add by lia. apply Z.mod_small. split; [apply Z.div_pos; lia|]. apply Z.div_lt_upper_bound; lia.
Qed.

(** The last 32 bits are an internal IPv4 address. *)
Definition embeds_internal (addr : Z) : Prop :=
  isInternalV4 (addr / 2 ^ 24 mod 256) (addr / 2 ^ 16 mod 256) = true.

(** Of the IPv6 literals, exactly these are reported internal: :: and ::1,
    fe80::/10 and fec0::/10, fc00::/7, ff00::/8, and the IPv4-mapped
    (::ffff:0:0/96) and NAT64 (64:ff9b::/96) forms of an internal IPv4 address. *)
Theorem unreachable_v6_ranges g :
  length g = 8 -> Forall group g ->
  unreachable_v6 g = Internal <->
  let addr := address g in
  (addr <= 1 \/ 65152 * 2 ^ 112 <= addr < 65280 * 2 ^ 112 \/ 64512 * 2 ^ 112 <= addr < 65024 * 2 ^ 112 \/
   65280 * 2 ^ 112 <= addr \/
   ((addr / 2 ^ 32 = 65535 \/ addr / 2 ^ 32 = 100 * 2 ^ 80 + 65435 * 2 ^ 64) /\ embeds_internal addr))%Z.
Proof.
  intros Hlen Hg. destruct g as [|a0 [|a1 [|a2 [|a3 [|a4 [|a5 [|a6 [|a7 [|]]]]]]]]]; try done.
  repeat match goal with H : Forall _ (_ :: _) |- _ => inversion_clear H end.
  cbv zeta. rewrite unreachable_v6_cases. unfold embeds_internal.
  rewrite (address_low a0 a1 a2 a3 a4 a5 a6 a7), (address_mid a0 a1 a2 a3 a4 a5 a6 a7), address_high by done.
  destruct (masks a0) as (-> & -> & ->); [done|].
  unfold group, address in *. cbn [foldl].
  destruct (isInternalV4 (a6 / 256) (a6 mod 256)); lia.
Qed.

(** ** Witnesses *)

Definition demo_url : URL := {|
  protocol := "https:"; username := ""; password := ""; hostname := "api.example.com";
  u_host := "api.example.com:8443"; u_port := Some 8443%Z; u_search := "";
  pathname := "/"; searchParams := []; href := "https://api.example.com:8443/" |}.

Lemma demo_url_ok : url_ok demo_url.
Proof. split; cbn; [intros p [= <-]; lia|by vm_compute|by vm_compute]. Qed.

Lemma refusal_advice_witness :
  isAllowed (patternsFrom []) "api.example.com" 8443 = false /\
  isAllowed (patternsFrom ["network:host:api.example.com:8443"]) "api.example.com" 8443 = true.
Proof.
  split; [by vm_compute|].
  apply (refusal_advice (fun _ => true) demo_url [] "api.example.com" (Some 8443%Z) "(none)"
    "network:host:api.example.com:8443" demo_url_ok).
  - done.
  - intros H. by vm_compute in H.
  - by vm_compute.
Defined.

(** fe80::1 and 2001:db8::1. *)
Lemma unreachable_v6_ranges_witness :
  unreachable_v6 [65152; 0; 0; 0; 0; 0; 0; 1]%Z = Internal /\
  unreachable_v6 [8193; 3512; 0; 0; 0; 0; 0; 1]%Z <> Internal.
Proof.
  split.
  - refine (proj2 (unreachable_v6_ranges [65152; 0; 0; 0; 0; 0; 0; 1]%Z eq_refl _) _).
    + repeat constructor; unfold group; lia.
    + right. left. vm_compute. split; [discriminate|reflexivity].
  - intros H. refine (_ (proj1 (unreachable_v6_ranges [8193; 3512; 0; 0; 0; 0; 0; 1]%Z eq_refl _) H)).
    + vm_compute. intuition discriminate.
    + repeat constructor; unfold group; lia.
Defined.

End WebFetch.
