(* ===== verification/Db.v ===== *)
(** * What the database apps share (apps/postgres/src/index.ts and
    apps/mysql/src/index.ts)

    The two files hold the same text for the route to the server, for turning a
    value of the driver into JSON, and for collecting capped rows; they differ
    in the prefix of a hexadecimal string. *)
From S2P Require Import Prelude Glob JsNumber Json JsonParse Url Hosts.

Module Db.
Import Json Hosts.

Definition MAX_RESULT_CHARS : N := 200000.
Definition MAX_CELL_CHARS : N := 10000.
Definition MAX_ROWS : nat := 500.

(** ** The route to the server *)

Inductive Mode := ReadOnly | ReadWrite.
Inductive Route := Proxy (proxy : URL) | Direct.

Record Target := { t_host : string; t_port : Z; t_database : string; t_user : string }.

(** A refusal, with the capability lines it tells the user to add. *)
Inductive route_error : Type :=
| InternalTarget (where_ connect_line : string)
| UndeclaredTarget (where_ host_line connect_line : string)
| BadProxyUrl (text : string).

Section route.
Context {P : UrlParser}.

Definition connect_prefix : string := "network:connect:".

Definition directPorts (capabilities : list string) : list string :=
  map (Str.drop (String.length connect_prefix)) (List.filter (Str.starts_with connect_prefix) capabilities).

Definition where_ (target : Target) : string := t_host target +:+ ":" +:+ JsNumber.to_string (t_port target).

Definition routeFor (target : Target) (capabilities : list string) (proxyUrl : option string)
  : result route_error Route :=
  let patterns := patternsFrom capabilities in
  let ports := directPorts capabilities in
  let direct := bool_decide ("*" ∈ ports) || bool_decide (JsNumber.to_string (t_port target) ∈ ports) in
  let refuse :=
    if direct then Ok Direct
    else
      let connect_line := connect_prefix +:+ JsNumber.to_string (t_port target) in
      Err (if isInternal (t_host target) then InternalTarget (where_ target) connect_line
           else UndeclaredTarget (where_ target) (prefix +:+ where_ target) connect_line) in
  match proxyUrl with
  | None | Some "" => refuse
  | Some text =>
      if negb (isInternal (t_host target)) && isAllowed patterns (t_host target) (t_port target)
      then match new_URL text with Some u => Ok (Proxy u) | None => Err (BadProxyUrl text) end
      else refuse
  end.
End route.

(** ** Values *)

(** What the driver hands over for a column: a tree, an object with a [toJSON]
    method standing for what that returns. [DDate None] is an invalid date,
    whose [toISOString] throws. *)
Inductive dbval : Type :=
| DNull
| DUndef
| DBool (b : bool)
| DNum (z : Z)
| DBigint (z : Z)
| DStr (s : string)
| DDate (iso : option string)
| DBuf (bytes : string)
| DArr (l : list dbval)
| DObj (o : list (string * dbval))
| DToJson (v : dbval).

Section values.
(** [0x] or [\x]. *)
Context (hex_prefix : string).

Fixpoint hex_digits (bytes : string) : string :=
  match bytes with
  | EmptyString => EmptyString
  | String c b =>
      String (hex_digit (Str.code c / 16)) (String (hex_digit (Str.code c mod 16)) (hex_digits b))
  end.
Definition hex (bytes : string) : string := hex_prefix +:+ hex_digits bytes.

(** [None] when it throws. *)
Fixpoint plain (value : dbval) : option json :=
  match value with
  | DNull => Some JNull
  | DUndef => Some JUndef
  | DBool b => Some (JBool b)
  | DNum z => Some (JNum z)
  | DStr s => Some (JStr s)
  | DBigint z => Some (JStr (JsNumber.to_string z))
  | DDate iso => JStr <$> iso
  | DBuf b => Some (JStr (hex b))
  | DArr l => JArr <$> (fix go l := match l with
                                    | [] => Some []
                                    | x :: l' => y ← plain x; ys ← go l'; Some (y :: ys)
                                    end) l
  | DObj o => JObj <$> (fix go o := match o with
                                    | [] => Some []
                                    | (k, x) :: o' => y ← plain x; ys ← go o'; Some ((k, y) :: ys)
                                    end) o
  | DToJson v => plain v
  end.

Definition str_len (s : string) : N := N.of_nat (String.length s).

(** The horizontal ellipsis, one character of a JavaScript string, kept as the
    8-bit character 133. *)
Definition ELLIPSIS : string := String (ascii_of_nat 133) "".

(** The text, or its first characters and an ellipsis. *)
Definition cut (s : string) : string :=
  if (MAX_CELL_CHARS <? str_len s)%N then Str.take (N.to_nat MAX_CELL_CHARS) s +:+ ELLIPSIS else s.

Definition cell (value : dbval) : option json :=
  match value with
  | DNull => Some JNull
  | DNum z => Some (JNum z)
  | DBool b => Some (JBool b)
  | DBuf bytes =>
      Some (JStr (if (MAX_CELL_CHARS / 2 <? str_len bytes)%N
                  then hex (Str.take (N.to_nat (MAX_CELL_CHARS / 2)) bytes) +:+ ELLIPSIS else hex bytes))
  | DStr s => Some (JStr (cut s))
  | _ =>
      safe ← plain value;
      match safe with
      | JStr s => Some (JStr (cut s))
      | JUndef => None
      | _ =>
          let text := JsonParse.stringify safe in
          Some (if (MAX_CELL_CHARS <? str_len text)%N
                then JStr (Str.take (N.to_nat MAX_CELL_CHARS) text +:+ ELLIPSIS) else safe)
      end
  end.

(** ** Collecting rows *)

Abbreviation row := (list (string * dbval)).
Record Collector := {
  rows : list (list (string * json));
  truncated : bool;
  size : N;
  max : nat
}.

Definition new_collector (m : nat) : Collector := {| rows := []; truncated := false; size := 0; max := m |}.

(** [Object.fromEntries(Object.entries(row).map(([k, v]) => [k, cell(v)]))] *)
Fixpoint shape (r : row) : option (list (string * json)) :=
  match r with
  | [] => Some []
  | (k, v) :: r' => y ← cell v; ys ← shape r'; Some ((k, y) :: ys)
  end.

Definition set_truncated (c : Collector) (sz : N) : Collector :=
  {| rows := rows c; truncated := true; size := sz; max := max c |}.

(** What [add] answers, and the collector after it; [None] when a value throws. *)
Definition add (r : row) (c : Collector) : option (bool * Collector) :=
  if truncated c then Some (false, c)
  else if max c <=? length (rows c) then Some (false, set_truncated c (size c))
  else
    shaped ← shape r;
    let sz := (size c + str_len (JsonParse.stringify (JObj shaped)))%N in
    if (MAX_RESULT_CHARS <? sz)%N then Some (false, set_truncated c sz)
    else Some (true, {| rows := rows c ++ [shaped]; truncated := false; size := sz; max := max c |}).

(** [rows.every((row) => out.add(row))]: stops at the first refusal. *)
Fixpoint add_every (rs : list row) (c : Collector) : option (bool * Collector) :=
  match rs with
  | [] => Some (true, c)
  | r :: rs' =>
      '(ok, c') ← add r c;
      if ok : bool then add_every rs' c' else Some (false, c')
  end.

Definition shapeRows (rs : list row) (m : nat) : option (list (list (string * json)) * bool) :=
  '(_, c) ← add_every rs (new_collector m); Some (rows c, truncated c).

(** ** What is collected *)

Definition weight (shaped : list (string * json)) : N := str_len (JsonParse.stringify (JObj shaped)).
Definition weights (l : list (list (string * json))) : N := foldr (fun r n => weight r + n)%N 0%N l.

Lemma weights_app l k : weights (l ++ k) = (weights l + weights k)%N.
Proof. induction l as [|x l IH]; [done|]. cbn [weights foldr app]. fold (weights (l ++ k)) (weights l). rewrite IH. lia. Qed.

Fixpoint shapes (rs : list row) : option (list (list (string * json))) :=
  match rs with
  | [] => Some []
  | r :: rs' => y ← shape r; ys ← shapes rs'; Some (y :: ys)
  end.

(** A collector that has taken every row so far. *)
Definition open_collector (c : Collector) : Prop :=
  truncated c = false /\ size c = weights (rows c) /\ (weights (rows c) <= MAX_RESULT_CHARS)%N /\ length (rows c) <= max c.

Lemma new_collector_open m : open_collector (new_collector m).
Proof. split_and!; cbn; done || lia. Qed.

Inductive add_result (r : row) (c : Collector) : option (bool * Collector) -> Prop :=
| add_full sz :
    max c = length (rows c) \/ (exists y, shape r = Some y /\ (MAX_RESULT_CHARS < weights (rows c) + weight y)%N) ->
    add_result r c (Some (false, {| rows := rows c; truncated := true; size := sz; max := max c |}))
| add_taken y c' :
    shape r = Some y -> rows c' = rows c ++ [y] -> max c' = max c -> open_collector c' ->
    add_result r c (Some (true, c'))
| add_throws : shape r = None -> length (rows c) < max c -> add_result r c None.

Lemma add_open r c : open_collector c -> add_result r c (add r c).
Proof.
  intros (Ht & Hs & Hw & Hm). unfold add. rewrite Ht. destruct (Nat.leb_spec (max c) (length (rows c))).
  - apply add_full. left. lia.
  - destruct (shape r) as [y|] eqn:Ey; cbn [mbind option_bind]; [|by apply add_throws]. fold (weight y). rewrite Hs.
    destruct (N.ltb_spec MAX_RESULT_CHARS (weights (rows c) + weight y)).
    + apply add_full. right. by exists y.
    + eapply (add_taken _ _ y); [done|done|done|]. split_and!; cbn [truncated size rows max]; [done| | |].
      * rewrite weights_app. cbn [weights foldr]. lia.
      * rewrite weights_app. cbn [weights foldr]. lia.
      * rewrite length_app. cbn. lia.
Qed.

Lemma add_truncated r c : truncated c = true -> add r c = Some (false, c).
Proof. intros H. unfold add. by rewrite H. Qed.

(** What a collector holds after a list of rows: the longest prefix within both
    caps, and whether that is all of it. *)
Definition longest_prefix (m : nat) (before : list (list (string * json))) (rs : list row)
    (out : list (list (string * json))) (tr : bool) : Prop :=
  exists k taken, k <= length rs /\ shapes (take k rs) = Some taken /\ out = before ++ taken /\
    length out <= m /\ (weights out <= MAX_RESULT_CHARS)%N /\
    (if tr then exists r, rs !! k = Some r /\
       (length out = m \/ exists y, shape r = Some y /\ (MAX_RESULT_CHARS < weights out + weight y)%N)
     else k = length rs).

Lemma longest_prefix_cons m before r y rs out tr :
  shape r = Some y -> longest_prefix m (before ++ [y]) rs out tr -> longest_prefix m before (r :: rs) out tr.
Proof.
  intros Hy (k & taken & Hk & Hs & -> & Hl & Hw & Ht). exists (S k), (y :: taken). cbn [take shapes length].
  rewrite Hy. cbn [mbind option_bind]. rewrite Hs. cbn [mbind option_bind].
  split_and!; [lia|done|by rewrite <- app_assoc|done|done|]. destruct tr; [done|lia].
Qed.

Lemma add_every_spec rs : forall c ok c',
  open_collector c -> add_every rs c = Some (ok, c') ->
  max c' = max c /\ longest_prefix (max c) (rows c) rs (rows c') (truncated c') /\ ok = negb (truncated c') /\
  (ok = true -> open_collector c').
Proof.
  induction rs as [|r rs IH]; intros c ok c' Ho; cbn [add_every].
  - intros [= <- <-]. pose proof Ho as (Ht & _ & Hw & Hm). split_and!; [done| |by rewrite Ht|done].
    exists 0, []. rewrite Ht, app_nil_r. by split_and!.
  - destruct (add_open r c Ho) as [sz Hfull|y c1 Hy Hr Hmax Ho1|]; cbn [mbind option_bind]; [| |done].
    + intros [= <- <-]. destruct Ho as (_ & _ & Hw & Hm). cbn [max rows truncated].
      split_and!; [done| |done|done]. exists 0, []. rewrite app_nil_r. split_and!; [lia|done|done|done|done|].
      exists r. split; [done|]. destruct Hfull as [->|?]; [by left|by right].
    + intros H. destruct (IH c1 ok c' Ho1 H) as (H1 & H2 & H3 & H4). rewrite Hmax, Hr in *.
      split_and!; [done| |done|done]. by eapply longest_prefix_cons.
Qed.

Lemma add_every_app a b c :
  add_every (a ++ b) c = match add_every a c with Some (true, c') => add_every b c' | r => r end.
Proof.
  revert c; induction a as [|r a IH]; intros c; [done|]. cbn [app add_every].
  destruct (add r c) as [[[] c1]|]; cbn [mbind option_bind]; [apply IH|done|done].
Qed.

Lemma shapes_length rs l : shapes rs = Some l -> length l = length rs.
Proof.
  revert l; induction rs as [|r rs IH]; intros l; cbn [shapes]; [by intros [= <-]|].
  destruct (shape r); [|done]. cbn [mbind option_bind]. destruct (shapes rs) as [ys|]; [|done]. cbn [mbind option_bind].
  intros [= <-]. cbn. by rewrite (IH ys).
Qed.

Lemma add_every_length rs c c' :
  open_collector c -> add_every rs c = Some (true, c') -> length (rows c') = length (rows c) + length rs.
Proof.
  intros Ho H. destruct (add_every_spec _ _ _ _ Ho H) as (_ & (k & taken & Hk & Hs & -> & _ & _ & Ht) & Htr & _).
  destruct (truncated c'); [done|]. subst k. rewrite take_ge in Hs by lia. rewrite length_app. by rewrite (shapes_length _ _ Hs).
Qed.

(** A query's rows are cut to the longest prefix of them that fits both
    caps, at most [m] rows and 200000 characters of JSON in all, every row of
    it shaped; the result says it was cut exactly when a row is missing. *)
Theorem shapeRows_spec rs m out tr :
  shapeRows rs m = Some (out, tr) -> longest_prefix m [] rs out tr.
Proof.
  unfold shapeRows. destruct (add_every rs (new_collector m)) as [[ok c]|] eqn:E; [|done]. intros [= <- <-].
  by destruct (add_every_spec _ _ _ _ (new_collector_open m) E) as (_ & H & _).
Qed.

End values.

(** ** The route *)

Section route_facts.
Context {P : UrlParser}.

Lemma connect_line_ports line caps :
  directPorts ((connect_prefix +:+ line) :: caps) = line :: directPorts caps.
Proof.
  unfold directPorts. cbn [List.filter]. rewrite StrFacts.starts_with_refl. cbn [map]. by rewrite StrFacts.drop_app.
Qed.

Lemma connect_line_patterns line caps : patternsFrom ((connect_prefix +:+ line) :: caps) = patternsFrom caps.
Proof. unfold patternsFrom. cbn [List.filter]. by change (Str.starts_with prefix (connect_prefix +:+ line)) with false. Qed.

Lemma elem_of_directPorts p caps : p ∈ directPorts caps <-> (connect_prefix +:+ p) ∈ caps.
Proof.
  unfold directPorts. rewrite list_elem_of_In, in_map_iff. setoid_rewrite filter_In.
  setoid_rewrite StrFacts.starts_with_spec. setoid_rewrite <- list_elem_of_In. split.
  - intros (c & <- & Hc & t & ->). by rewrite StrFacts.drop_app.
  - intros Hc. exists (connect_prefix +:+ p). split_and!; [by rewrite StrFacts.drop_app|done|by exists p].
Qed.

(** The host and port the proxy would be asked for. *)
Definition by_proxy (target : Target) (caps : list string) : bool :=
  negb (isInternal (t_host target)) && isAllowed (patternsFrom caps) (t_host target) (t_port target).
Definition by_port (target : Target) (caps : list string) : Prop :=
  (connect_prefix +:+ "*") ∈ caps \/ (connect_prefix +:+ JsNumber.to_string (t_port target)) ∈ caps.

Lemma by_port_direct target caps :
  bool_decide ("*" ∈ directPorts caps) || bool_decide (JsNumber.to_string (t_port target) ∈ directPorts caps) = true
  <-> by_port target caps.
Proof. rewrite orb_true_iff, !bool_decide_eq_true, !elem_of_directPorts. done. Qed.

Lemma routeFor_cases target caps proxyUrl :
  routeFor target caps proxyUrl =
  match proxyUrl with
  | Some text =>
      if negb (String.eqb text "") && by_proxy target caps
      then match new_URL text with Some u => Ok (Proxy u) | None => Err (BadProxyUrl text) end
      else routeFor target caps None
  | None => routeFor target caps None
  end.
Proof.
  destruct proxyUrl as [[|c text]|]; [done| |done]. change (String.eqb (String c text) "") with false. cbn [negb andb].
  unfold by_proxy. unfold routeFor at 1. by destruct (negb _ && _).
Qed.

Lemma routeFor_None target caps :
  (by_port target caps -> routeFor target caps None = Ok Direct) /\
  (~ by_port target caps -> routeFor target caps None = Err
     (let line := connect_prefix +:+ JsNumber.to_string (t_port target) in
      if isInternal (t_host target) then InternalTarget (where_ target) line
      else UndeclaredTarget (where_ target) (prefix +:+ where_ target) line)).
Proof.
  rewrite <- by_port_direct. unfold routeFor. destruct (_ || _); split; try done; by intros [].
Qed.

(** The route to the database follows berth.yml. Through the proxy only for
    a public host that a declared [network:host:] scope covers; directly only
    with a declared [network:connect:] for the port; and every refusal names
    lines that work: with the [network:connect:] line added the route is
    direct, and with the [network:host:] line of a public host it goes through
    the proxy. *)
Theorem routeFor_spec target caps proxyUrl :
  match routeFor target caps proxyUrl with
  | Ok (Proxy u) =>
      isInternal (t_host target) = false /\ (exists text, proxyUrl = Some text /\ new_URL text = Some u) /\
      exists sc, (prefix +:+ sc) ∈ caps /\ scope_allows sc (t_host target) (t_port target)
  | Ok Direct => by_port target caps
  | Err (InternalTarget _ line) =>
      isInternal (t_host target) = true /\ routeFor target (line :: caps) proxyUrl = Ok Direct
  | Err (UndeclaredTarget _ host_line line) =>
      routeFor target (line :: caps) proxyUrl = Ok Direct /\
      forall text u, proxyUrl = Some text -> text <> "" -> new_URL text = Some u ->
        Glob.one_line (t_host target) = true -> t_host target <> "" -> (0 <= t_port target < 65536)%Z ->
        routeFor target (host_line :: caps) proxyUrl = Ok (Proxy u)
  | Err (BadProxyUrl text) => proxyUrl = Some text /\ new_URL text = None
  end.
Proof.
  assert (Hline : forall pu, (forall text, pu = Some text -> negb (String.eqb text "") && by_proxy target caps = false) ->
    routeFor target ((connect_prefix +:+ JsNumber.to_string (t_port target)) :: caps) pu = Ok Direct).
  { intros pu Hpu. set (caps' := _ :: caps).
    assert (Hd : routeFor target caps' None = Ok Direct) by (apply routeFor_None; right; left).
    assert (Hbp : by_proxy target caps' = by_proxy target caps) by (unfold by_proxy, caps'; by rewrite connect_line_patterns).
    rewrite routeFor_cases, Hbp, Hd. destruct pu as [text|]; [|done]. by rewrite (Hpu text eq_refl). }
  assert (Hnone : forall pu, (forall text, pu = Some text -> negb (String.eqb text "") && by_proxy target caps = false) ->
    routeFor target caps pu = routeFor target caps None).
  { intros pu Hpu. rewrite routeFor_cases. destruct pu as [text|]; [|done]. by rewrite (Hpu text eq_refl). }
  assert (Hrest : (forall text, proxyUrl = Some text -> negb (String.eqb text "") && by_proxy target caps = false) ->
    routeFor target caps proxyUrl = routeFor target caps None ->
    match routeFor target caps None with
    | Ok Direct => by_port target caps
    | Err (InternalTarget _ line) => isInternal (t_host target) = true /\ routeFor target (line :: caps) proxyUrl = Ok Direct
    | Err (UndeclaredTarget _ host_line line) =>
        routeFor target (line :: caps) proxyUrl = Ok Direct /\
        forall text u, proxyUrl = Some text -> text <> "" -> new_URL text = Some u ->
          Glob.one_line (t_host target) = true -> t_host target <> "" -> (0 <= t_port target < 65536)%Z ->
          routeFor target (host_line :: caps) proxyUrl = Ok (Proxy u)
    | _ => False
    end).
  { intros Hpu _. destruct (routeFor_None target caps) as [Hyes Hno].
    destruct (decide (bool_decide ("*" ∈ directPorts caps)
      || bool_decide (JsNumber.to_string (t_port target) ∈ directPorts caps) = true)) as [Hb|Hb];
      rewrite by_port_direct in Hb; [by rewrite Hyes|]. rewrite (Hno Hb). cbv zeta.
    destruct (isInternal (t_host target)) eqn:Ei; [split; [done|by apply Hline]|]. split; [by apply Hline|].
    intros text u -> Hne Hu Hol Hh Hp. rewrite routeFor_cases. apply String.eqb_neq in Hne. rewrite Hne.
    assert (by_proxy target ((prefix +:+ where_ target) :: caps) = true) as ->.
    { unfold by_proxy. rewrite Ei. apply isAllowed_iff. exists (where_ target). split; [left|].
      apply scope_allows_exact; [done|done|lia]. }
    cbn [negb andb]. by rewrite Hu. }
  destruct proxyUrl as [text|]; [|by specialize (Hrest ltac:(done) eq_refl); destruct (routeFor target caps None) as [[]|[]]].
  destruct (negb (String.eqb text "") && by_proxy target caps) eqn:Ep.
  - rewrite routeFor_cases, Ep. apply andb_true_iff in Ep as [_ [Hi Ha]%andb_true_iff]. apply negb_true_iff in Hi.
    destruct (new_URL text) as [u|] eqn:Eu; [|done]. split_and!; [done|by exists text|by apply isAllowed_iff].
  - assert (Hpu : forall text0, Some text = Some text0 -> negb (String.eqb text0 "") && by_proxy target caps = false)
      by (by intros ? [= <-]).
    rewrite (Hnone _ Hpu). specialize (Hrest Hpu (Hnone _ Hpu)). by destruct (routeFor target caps None) as [[]|[]].
Qed.
End route_facts.

Lemma shapeRows_spec_witness :
  longest_prefix "0x" 2 [] [[("a", DNum 1)]; [("a", DBuf "K")]; [("a", DNum 3)]]
    [[("a", JNum 1)]; [("a", JStr "0x4b")]] true.
Proof. apply (shapeRows_spec "0x"). vm_compute. reflexivity. Defined.

End Db.
