(* ===== verification/Framing.v ===== *)
(** * Reading the head of a byte stream

    The code that reads one line or one header block from a socket keeps what
    has arrived in a buffer and looks for a terminator after every chunk
    (docker/egress-broker.cjs, docker/github-api-broker.cjs, the apps'
    tunnel.ts). [cut] is the search; [read_head] the loop, with the length it
    gives up at. The lemmas say that how the stream is cut into chunks does not
    show. *)
From S2P Require Import Prelude.

Module Framing.

Definition LF : string := String "010" "".
Definition CRLF : string := String "013" (String "010" "").

(** What stands before and after the first [t] in [s]: [indexOf] with the two
    [subarray]s around it. *)
Fixpoint cut (t s : string) : option (string * string) :=
  if Str.starts_with t s then Some ("", Str.drop (String.length t) s)
  else match s with
       | EmptyString => None
       | String c s' => prod_map (String c) id <$> cut t s'
       end.

(** [s.includes(t)] fails exactly where [cut] does. *)
Lemma cut_None t s : cut t s = None <-> Str.includes t s = false.
Proof.
  induction s as [|c s IH]; cbn [cut Str.includes].
  - destruct (Str.starts_with t ""); done.
  - destruct (Str.starts_with t (String c s)); [done|]. cbn [orb]. rewrite <- IH. by destruct (cut t s).
Qed.

Lemma cut_Some t s h r : cut t s = Some (h, r) -> s = h +:+ t +:+ r.
Proof.
  revert h r; induction s as [|c s IH]; intros h r; cbn [cut].
  - destruct (Str.starts_with t "") eqn:E; [|done]. intros [= <- <-]. by destruct t.
  - destruct (Str.starts_with t (String c s)) eqn:E.
    + intros [= <- <-]. apply StrFacts.starts_with_spec in E as [u ->]. by rewrite StrFacts.drop_app.
    + destruct (cut t s) as [[h' r']|]; [|done]. intros [= <- <-].
      by rewrite app_cons_str, <- (IH h' r').
Qed.

Lemma starts_with_longer t s u :
  String.length t <= String.length s -> Str.starts_with t (s +:+ u) = Str.starts_with t s.
Proof.
  revert s; induction t as [|c t IH]; intros [|d s] Hl; cbn in Hl; try done; [lia|].
  rewrite app_cons_str. cbn [Str.starts_with]. by rewrite IH by lia.
Qed.

(** More bytes do not move the first terminator. *)
Lemma cut_app t s u h r : cut t s = Some (h, r) -> cut t (s +:+ u) = Some (h, r +:+ u).
Proof.
  revert h r; induction s as [|c s IH]; intros h r Hc.
  - destruct t as [|d t]; cbn in Hc; [|done]. injection Hc as <- <-. by destruct u.
  - pose proof (f_equal String.length (cut_Some _ _ _ _ Hc)) as Hl. rewrite !length_app_str in Hl.
    cbn [cut] in Hc. rewrite app_cons_str. cbn [cut]. rewrite <- app_cons_str, starts_with_longer by lia.
    destruct (Str.starts_with t (String c s)) eqn:E.
    + injection Hc as <- <-. apply StrFacts.starts_with_spec in E as [v Ev].
      by rewrite Ev, app_assoc_str, !StrFacts.drop_app.
    + destruct (cut t s) as [[h' r']|]; [|done]. injection Hc as <- <-.
      by rewrite (IH h' r').
Qed.

(** A terminator that comes first is found: one whose first character the
    text before it does not hold. *)
Lemma cut_first c t h r :
  Str.any (Ascii.eqb c) h = false -> cut (String c t) (h +:+ String c t +:+ r) = Some (h, r).
Proof.
  induction h as [|d h IH]; cbn [Str.any].
  - intros _. rewrite app_empty_str. set (s := String c t +:+ r).
    assert (Hs : cut (String c t) s = Some ("", Str.drop (String.length (String c t)) s)).
    { unfold s. rewrite app_cons_str. cbn [cut].
      by rewrite <- app_cons_str, StrFacts.starts_with_refl. }
    rewrite Hs. unfold s. by rewrite StrFacts.drop_app.
  - rewrite orb_false_iff. intros [Hd Hh]. rewrite app_cons_str. cbn [cut Str.starts_with].
    rewrite Hd. cbn [andb]. by rewrite IH.
Qed.

(** ** The loop over chunks *)

Definition concat (chunks : list string) : string := foldr String.append "" chunks.

Inductive head : Type :=
| Waiting (buffer : string)
| TooLong
| Head (before after : string) (more : list string).

(** [limit]: how long the buffer may grow without a terminator. *)
Fixpoint read_head (t : string) (limit : option nat) (buffer : string) (chunks : list string) : head :=
  match chunks with
  | [] => Waiting buffer
  | chunk :: more =>
      let buffer := buffer +:+ chunk in
      match cut t buffer with
      | Some (before, after) => Head before after more
      | None =>
          match limit with
          | Some n => if n <? String.length buffer then TooLong else read_head t limit buffer more
          | None => read_head t limit buffer more
          end
      end
  end.

Lemma concat_app l k : concat (l ++ k) = concat l +:+ concat k.
Proof. induction l as [|x l IH]; [done|]. cbn. fold (concat (l ++ k)). by rewrite IH, app_assoc_str. Qed.

Lemma concat_cons x l : concat (x :: l) = x +:+ concat l.
Proof. done. Qed.

(** What the loop finds is what a search of the whole stream finds. *)
Lemma read_head_Head t limit chunks : forall buffer before after more,
  read_head t limit buffer chunks = Head before after more ->
  cut t (buffer +:+ concat chunks) = Some (before, after +:+ concat more).
Proof.
  induction chunks as [|chunk chunks IH]; intros buffer before after more; cbn [read_head]; [done|].
  destruct (cut t (buffer +:+ chunk)) as [[b a]|] eqn:E.
  - intros [= <- <- <-]. rewrite concat_cons, <- app_assoc_str. by apply cut_app.
  - intros H. rewrite concat_cons, <- app_assoc_str. apply IH. destruct limit as [n|]; [|done].
    by destruct (n <? String.length (buffer +:+ chunk)).
Qed.

Lemma read_head_Waiting t limit chunks : forall buffer b,
  read_head t limit buffer chunks = Waiting b -> b = buffer +:+ concat chunks.
Proof.
  induction chunks as [|chunk chunks IH]; intros buffer b; cbn [read_head].
  - intros [= <-]. cbn. by rewrite app_nil_r_str.
  - destruct (cut t (buffer +:+ chunk)) as [[? ?]|]; [done|]. intros H.
    rewrite concat_cons, <- app_assoc_str. apply IH. destruct limit as [n|]; [|done].
    by destruct (n <? String.length (buffer +:+ chunk)).
Qed.

Lemma cut_prefix_length t s u h r :
  t <> "" -> cut t s = None -> cut t (s +:+ u) = Some (h, r) -> String.length s < String.length h + String.length t.
Proof.
  intros Ht Hn Hc. destruct (Nat.lt_ge_cases (String.length s) (String.length h + String.length t)) as [|Hge]; [done|].
  apply cut_Some in Hc. rewrite <- app_assoc_str in Hc. exfalso.
  assert (Hs : exists v, s = (h +:+ t) +:+ v).
  { exists (Str.drop (String.length (h +:+ t)) s).
    pose proof (f_equal (Str.take (String.length (h +:+ t))) Hc) as Htk.
    rewrite StrFacts.take_app, StrFacts.take_app_le in Htk by (rewrite length_app_str; lia).
    rewrite <- Htk at 1. by rewrite StrFacts.take_drop. }
  destruct Hs as [v ->]. apply cut_None in Hn.
  assert (Hi : Str.includes t ((h +:+ t) +:+ v) = true).
  { apply StrFacts.includes_spec. exists h, v. by rewrite app_assoc_str. }
  by rewrite Hi in Hn.
Qed.

(** A head within the limit is read the same however the stream is cut. *)
Lemma read_head_total t limit chunks before after : forall buffer,
  t <> "" -> cut t buffer = None ->
  cut t (buffer +:+ concat chunks) = Some (before, after) ->
  (forall n, limit = Some n -> String.length before + String.length t <= S n) ->
  exists rest more,
    read_head t limit buffer chunks = Head before rest more /\ after = (rest +:+ concat more).
Proof.
  induction chunks as [|chunk chunks IH]; intros buffer Ht Hb Hc Hl; cbn [read_head].
  - cbn in Hc. rewrite app_nil_r_str in Hc. congruence.
  - rewrite concat_cons, <- app_assoc_str in Hc.
    destruct (cut t (buffer +:+ chunk)) as [[b a]|] eqn:E.
    + pose proof (cut_app _ _ (concat chunks) _ _ E) as E'. rewrite Hc in E'. injection E' as <- ->. eauto.
    + pose proof (cut_prefix_length _ _ _ _ _ Ht E Hc) as Hlen. destruct limit as [n|]; [|by apply IH].
      specialize (Hl n eq_refl). assert (Hn : (n <? String.length (buffer +:+ chunk)) = false) by (apply Nat.ltb_ge; lia).
      rewrite Hn. apply IH; [done|done|done|]. by intros ? [= <-].
Qed.

End Framing.
