(* ===== verification/Utf8.v ===== *)
(** * Decoding UTF-8 one chunk at a time

    [chunk.toString("utf-8")] of a Node Buffer: the decoder of the WHATWG
    Encoding standard, run to the end of the chunk. Text is kept as the UTF-8
    bytes of its characters; every maximal part of a sequence that cannot be
    completed becomes U+FFFD, at the end of the chunk too. *)
From S2P Require Import Prelude.

Module Utf8.

(** U+FFFD *)
Definition replacement : string := String "239" (String "191" (String "189" "")).

(** Inside a sequence: how many bytes are still needed, the range the next one
    must be in, and those already read. *)
Record partial := { needed : nat; lower : nat; upper : nat; seen : string }.

Definition lead (c : ascii) (needed lower upper : nat) : option partial :=
  Some {| needed := needed; lower := lower; upper := upper; seen := String c "" |}.

(** The first byte of a sequence: what is emitted, and what is then needed. *)
Definition first_byte (c : ascii) : string * option partial :=
  let n := Str.code c in
  if n <? 128 then (String c "", None)
  else if Str.in_range 194 223 c then ("", lead c 1 128 191)
  else if n =? 224 then ("", lead c 2 160 191)
  else if n =? 237 then ("", lead c 2 128 159)
  else if Str.in_range 225 239 c then ("", lead c 2 128 191)
  else if n =? 240 then ("", lead c 3 144 191)
  else if Str.in_range 241 243 c then ("", lead c 3 128 191)
  else if n =? 244 then ("", lead c 3 128 143)
  else (replacement, None).

Definition byte (st : option partial) (c : ascii) : string * option partial :=
  match st with
  | None => first_byte c
  | Some p =>
      if Str.in_range (lower p) (upper p) c then
        match needed p with
        | S (S n) => ("", Some {| needed := S n; lower := 128; upper := 191; seen := seen p +:+ String c "" |})
        | _ => (seen p +:+ String c "", None)
        end
      else let '(out, st) := first_byte c in (replacement +:+ out, st)
  end.

Fixpoint decode (st : option partial) (s : string) : string :=
  match s with
  | EmptyString => match st with Some _ => replacement | None => "" end
  | String c s' => let '(out, st) := byte st c in out +:+ decode st s'
  end.

Definition toString (chunk : string) : string := decode None chunk.

(** ** Lemmas *)

(** The decoder's state after a chunk. *)
Fixpoint after (st : option partial) (s : string) : option partial :=
  match s with
  | EmptyString => st
  | String c s' => after (byte st c).2 s'
  end.

(** A chunk that does not end inside a character. *)
Definition whole (chunk : string) : Prop := after None chunk = None.

Lemma decode_app st s t : after st s = None -> decode st (s +:+ t) = decode st s +:+ decode None t.
Proof.
  revert st. induction s as [|c s IH]; intros st; cbn [after].
  - intros ->. by rewrite app_empty_str.
  - intros H. rewrite app_cons_str. cbn [decode]. destruct (byte st c) as [out st'] eqn:E. cbn [snd] in H.
    by rewrite IH, app_assoc_str.
Qed.

Lemma after_app st s t : after st (s +:+ t) = after (after st s) t.
Proof. revert st. by induction s as [|c s IH]; intros st; [|rewrite app_cons_str; cbn [after]]. Qed.

Lemma toString_app s t : whole s -> toString (s +:+ t) = toString s +:+ toString t.
Proof. apply decode_app. Qed.

Lemma whole_app s t : whole s -> whole t -> whole (s +:+ t).
Proof. unfold whole. intros Hs Ht. by rewrite after_app, Hs. Qed.

Definition is_ascii (c : ascii) : bool := Str.code c <? 128.

Lemma ascii_whole s : Str.all is_ascii s = true -> whole s /\ toString s = s.
Proof.
  unfold whole, toString. induction s as [|c s IH]; cbn [Str.all]; [done|].
  rewrite andb_true_iff. intros [Hc Hs]. cbn [after decode byte].
  assert (E : first_byte c = (String c "", None)) by (unfold first_byte, is_ascii in *; by rewrite Hc).
  rewrite E. cbn [snd]. destruct (IH Hs) as [-> IH2]. split; [done|]. by rewrite IH2.
Qed.

(** A character that arrives in two chunks is lost. *)
Lemma split_character :
  let e_acute := String "195" (String "169" "") in
  toString e_acute = e_acute /\
  toString (String "195" "") +:+ toString (String "169" "") = replacement +:+ replacement.
Proof. split; vm_compute; reflexivity. Qed.

End Utf8.
