(* ===== verification/Trace.v ===== *)
(** * Computations that leave a trace

    A handler that calls the outside world is a function of what it has done so
    far, a list of events: it appends to that list and returns a value or
    throws. [hoare] states what holds of such a computation, in the style of a
    crash logic: its invariant is true after every single event, so it is true
    wherever the process stops. *)
From S2P Require Import Prelude.

Module Trace.

Section trace.
Context {T E : Type}.

Definition M (A : Type) : Type := list T -> list T * result E A.

#[export] Instance M_ret : MRet M := fun A a t => (t, Ok a).
#[export] Instance M_bind : MBind M := fun A B f m t =>
  let '(t, r) := m t in match r with Ok a => f a t | Err e => (t, Err e) end.

(** [throw e] *)
Definition fail {A} (e : E) : M A := fun t => (t, Err e).
(** A call that does nothing the trace records. *)
Definition lift {A} (r : result E A) : M A := fun t => (t, r).
(** A value of the outside world at this moment. *)
Definition asks {A} (f : list T -> A) : M A := fun t => (t, Ok (f t)).
(** One event, and its answer. *)
Definition emit {A} (e : T) (f : list T -> result E A) : M A := fun t => (t ++ [e], f t).
(** One event that either happens or throws. *)
Definition attempt (e : T) (fails : list T -> option E) : M unit :=
  fun t => match fails t with Some err => (t, Err err) | None => (t ++ [e], Ok tt) end.
(** [.catch(() => { throw e })], [.catch(() => v)] *)
Definition or_fail {A} (m : M A) (e : E) : M A :=
  fun t => let '(t, r) := m t in (t, match r with Ok a => Ok a | Err _ => Err e end).
Definition or_value {A} (m : M A) (v : A) : M A :=
  fun t => let '(t, r) := m t in (t, match r with Ok a => Ok a | Err _ => Ok v end).

(** From every trace that satisfies [Pre], [m] keeps [I] at every moment, throws
    only errors that satisfy [Q], and when it returns [a], [Post a] holds. *)
Definition hoare {A} (I : list T -> Prop) (Q : E -> Prop) (Pre : list T -> Prop) (m : M A) (Post : A -> list T -> Prop) : Prop :=
  forall t, Pre t -> exists new, (m t).1 = t ++ new /\
    (forall pre post, new = pre ++ post -> I (t ++ pre)) /\
    match (m t).2 with Ok a => Post a (t ++ new) | Err e => Q e end.

Context (I : list T -> Prop) (Q : E -> Prop).

Lemma prefix_nil (t : list T) : I t -> forall pre post, [] = pre ++ post -> I (t ++ pre).
Proof. intros Hi pre post E1. symmetry in E1. apply app_eq_nil in E1 as [-> _]. by rewrite app_nil_r. Qed.

Lemma prefix_one (t : list T) e : I t -> I (t ++ [e]) -> forall pre post, [e] = pre ++ post -> I (t ++ pre).
Proof.
  intros H0 H1 [|x [|? ?]] post Hp; cbn in Hp; [by rewrite app_nil_r|by injection Hp as <-|].
  injection Hp as _ Hp. discriminate Hp.
Qed.

Lemma prefix_app (t a b : list T) :
  (forall pre post, a = pre ++ post -> I (t ++ pre)) ->
  (forall pre post, b = pre ++ post -> I ((t ++ a) ++ pre)) ->
  forall pre post, a ++ b = pre ++ post -> I (t ++ pre).
Proof.
  intros Ha Hb pre post E1. apply app_eq_app in E1 as (l & [[-> ->]|[-> ->]]); [by eapply Ha|].
  rewrite app_assoc. by eapply Hb.
Qed.

Lemma hoare_ret {A} (a : A) (Pre : list T -> Prop) (Post : A -> list T -> Prop) :
  (forall t, Pre t -> I t /\ Post a t) -> hoare I Q Pre (mret a) Post.
Proof. intros H t [Hi Hp]%H. exists []. rewrite app_nil_r. split_and!; [done|by apply prefix_nil|done]. Qed.

Lemma hoare_fail {A} e (Pre : list T -> Prop) (Post : A -> list T -> Prop) :
  (forall t, Pre t -> I t) -> Q e -> hoare I Q Pre (fail e) Post.
Proof. intros H He t Hi%H. exists []. rewrite app_nil_r. split_and!; [done|by apply prefix_nil|done]. Qed.

Lemma hoare_lift {A} (r : result E A) (Pre : list T -> Prop) (Post : A -> list T -> Prop) :
  (forall t, Pre t -> I t /\ match r with Ok a => Post a t | Err e => Q e end) -> hoare I Q Pre (lift r) Post.
Proof. intros H t [Hi Hp]%H. exists []. rewrite app_nil_r. split_and!; [done|by apply prefix_nil|done]. Qed.

Lemma hoare_asks {A} (f : list T -> A) (Pre : list T -> Prop) (Post : A -> list T -> Prop) :
  (forall t, Pre t -> I t /\ Post (f t) t) -> hoare I Q Pre (asks f) Post.
Proof. intros H t [Hi Hp]%H. exists []. rewrite app_nil_r. split_and!; [done|by apply prefix_nil|done]. Qed.

Lemma hoare_emit {A} e (f : list T -> result E A) (Pre : list T -> Prop) (Post : A -> list T -> Prop) :
  (forall t, Pre t -> I t /\ I (t ++ [e]) /\ match f t with Ok a => Post a (t ++ [e]) | Err err => Q err end) ->
  hoare I Q Pre (emit e f) Post.
Proof. intros H t (Hi & Hi' & Hp)%H. exists [e]. split_and!; [done|by apply prefix_one|done]. Qed.

Lemma hoare_attempt e fails (Pre : list T -> Prop) (Post : unit -> list T -> Prop) :
  (forall t, Pre t -> I t /\ match fails t with Some err => Q err | None => I (t ++ [e]) /\ Post tt (t ++ [e]) end) ->
  hoare I Q Pre (attempt e fails) Post.
Proof.
  intros H t Ht. destruct (H t Ht) as [Hi Hf]. unfold attempt. destruct (fails t); cbn [fst snd].
  - exists []. rewrite app_nil_r. split_and!; [done|by apply prefix_nil|done].
  - destruct Hf as [Hi' Hp]. exists [e]. split_and!; [done|by apply prefix_one|done].
Qed.

Lemma hoare_bind {A B} (m : M A) (f : A -> M B) Pre (Mid : A -> list T -> Prop) Post :
  hoare I Q Pre m Mid -> (forall a, hoare I Q (Mid a) (f a) Post) -> hoare I Q Pre (m ≫= f) Post.
Proof.
  intros Hm Hf t Ht. destruct (Hm t Ht) as (new & E1 & Hi & HP). unfold mbind, M_bind.
  destruct (m t) as [t1 [a|e]]; cbn [fst snd] in *; subst t1; [|by exists new].
  destruct (Hf a _ HP) as (new2 & E2 & Hi2 & HP2). exists (new ++ new2). rewrite E2, app_assoc.
  split_and!; [done|by apply prefix_app|done].
Qed.

Lemma hoare_conseq {A} (m : M A) (Pre Pre' : list T -> Prop) (Post Post' : A -> list T -> Prop) :
  hoare I Q Pre m Post -> (forall t, Pre' t -> Pre t) -> (forall a t, Post a t -> Post' a t) -> hoare I Q Pre' m Post'.
Proof.
  intros Hm H1 H2 t Ht%H1. destruct (Hm t Ht) as (new & E1 & Hi & HP). exists new. split_and!; [done..|].
  destruct (m t).2; [by apply H2|done].
Qed.

Lemma hoare_asks_bind {A B} (g : list T -> A) (f : A -> M B) (Pre : list T -> Prop) (Post : B -> list T -> Prop) :
  (forall a, hoare I Q (fun t => Pre t /\ g t = a) (f a) Post) -> hoare I Q Pre (asks g ≫= f) Post.
Proof. intros Hf t Ht. exact (Hf (g t) t (conj Ht eq_refl)). Qed.

Lemma hoare_ret_bind {A B} (a : A) (f : A -> M B) (Pre : list T -> Prop) (Post : B -> list T -> Prop) :
  hoare I Q Pre (f a) Post -> hoare I Q Pre (mret a ≫= f) Post.
Proof. done. Qed.

Lemma hoare_fail_bind {A B} e (f : A -> M B) (Pre : list T -> Prop) (Post : B -> list T -> Prop) :
  (forall t, Pre t -> I t) -> Q e -> hoare I Q Pre (fail e ≫= f) Post.
Proof. intros H He t Hi%H. exists []. rewrite app_nil_r. split_and!; [done|by apply prefix_nil|done]. Qed.

Lemma hoare_false {A} (m : M A) (Pre : list T -> Prop) Post : (forall t, Pre t -> False) -> hoare I Q Pre m Post.
Proof. by intros H t ?%H. Qed.

Lemma hoare_or_fail {A} (m : M A) e Pre Post : Q e -> hoare I Q Pre m Post -> hoare I Q Pre (or_fail m e) Post.
Proof.
  intros He Hm t Ht. destruct (Hm t Ht) as (new & E1 & Hi & HP). unfold or_fail. exists new.
  destruct (m t) as [t1 [a|e1]]; cbn [fst snd] in *; by split_and!.
Qed.

Lemma hoare_or_value {A} (m : M A) v Pre (Post : A -> list T -> Prop) :
  (forall t, I t -> Post v t) -> hoare I Q Pre m Post -> hoare I Q Pre (or_value m v) Post.
Proof.
  intros Hv Hm t Ht. destruct (Hm t Ht) as (new & E1 & Hi & HP). unfold or_value. exists new.
  destruct (m t) as [t1 [a|e1]]; cbn [fst snd] in *; split_and!; try done.
  apply Hv, (Hi new []). by rewrite app_nil_r.
Qed.

(** What follows for a run from the start. *)
Lemma hoare_run {A} (m : M A) Pre Post : hoare I Q Pre m Post -> Pre [] ->
  (forall pre post, (m []).1 = pre ++ post -> I pre) /\ I (m []).1 /\
  match (m []).2 with Ok a => Post a (m []).1 | Err e => Q e end.
Proof.
  intros Hm H0. destruct (Hm [] H0) as (new & E1 & Hi & HP). rewrite E1. cbn [app] in *.
  split_and!; [done|apply (Hi new []); by rewrite app_nil_r|done].
Qed.

End trace.

Lemma hoare_weaken {T E A} (I I' : list T -> Prop) (Q : E -> Prop) Pre (m : @M T E A) Post :
  (forall t, I t -> I' t) -> hoare I Q Pre m Post -> hoare I' Q Pre m Post.
Proof. intros Hi Hm t Ht. destruct (Hm t Ht) as (new & E1 & Hp & HP). exists new. split_and!; [done| |done]. intros pre post E2. by eapply Hi, Hp. Qed.

(** Every event satisfies [P], whatever is thrown. *)
Definition emits {T E A} (m : @M T E A) (P : T -> Prop) (R : A -> Prop) : Prop :=
  hoare (Forall P) (fun _ => True) (Forall P) m (fun a t => Forall P t /\ R a).

Section emits.
Context {T E : Type} (P : T -> Prop).

Lemma emits_ret {A} (a : A) (R : A -> Prop) : R a -> emits (E:=E) (mret a) P R.
Proof. intros Ha. by apply hoare_ret. Qed.

Lemma emits_fail {A} (e : E) (R : A -> Prop) : emits (fail e) P R.
Proof. by apply hoare_fail. Qed.

Lemma emits_lift {A} (r : result E A) (R : A -> Prop) : (forall a, r = Ok a -> R a) -> emits (lift r) P R.
Proof. intros Hr. apply hoare_lift. intros t Ht. split; [done|]. destruct r; [|done]. split; [done|by apply Hr]. Qed.

Lemma emits_bind {A B} (m : @M T E A) (f : A -> M B) (R : A -> Prop) (S : B -> Prop) :
  emits m P R -> (forall a, R a -> emits (f a) P S) -> emits (m ≫= f) P S.
Proof. intros Hm Hf. eapply hoare_bind; [exact Hm|]. intros a t [Ht Ha]. by apply (Hf a Ha t Ht). Qed.

Lemma emits_or_fail {A} (m : @M T E A) e (R : A -> Prop) : emits m P R -> emits (or_fail m e) P R.
Proof. by apply hoare_or_fail. Qed.

Lemma emits_or_value {A} (m : @M T E A) v (R : A -> Prop) : emits m P R -> R v -> emits (or_value m v) P R.
Proof. intros Hm Hv. by apply hoare_or_value. Qed.

Lemma emits_one {A} (e : T) (f : list T -> result E A) (R : A -> Prop) :
  P e -> (forall t, match f t with Ok a => R a | Err _ => True end) -> emits (emit e f) P R.
Proof.
  intros He Hf. apply hoare_emit. intros t Ht. assert (Ht' : Forall P (t ++ [e])) by (apply Forall_app; by split; [|constructor]).
  split_and!; [done..|]. specialize (Hf t). by destruct (f t).
Qed.

Lemma emits_run {A} (m : @M T E A) (R : A -> Prop) : emits m P R -> Forall P (m []).1.
Proof. intros Hm. apply (hoare_run _ _ _ _ _ Hm). by apply Forall_nil. Qed.
End emits.

End Trace.
