(* ===== verification/Egress.v ===== *)
(** * The egress broker (packages/docker-orchestrator/docker/egress-broker.cjs)

    The proxy every app's outbound connection goes through: a host and port are
    checked against the declared [browser:navigate:] and [network:host:]
    capabilities, hosts that belong to a finer broker are refused, and the
    address a name resolves to is checked and then dialled. An allowed
    connection is made directly, through an upstream proxy, or by the host's
    dialer.

    A handler is a function from a request and what the network does to the
    list of events it causes, in order. *)
From S2P Require Import Prelude Glob Capability JsNumber Policy Hosts Url Framing.

Module Egress.
Import Capability JsNumber.

(** ** The capability policy

    The file is read once: [None] when it cannot be read or is not JSON, and
    the inner option for an absent [declaredCapabilities]. *)
Definition Policy : Type := option (option (list string)).

Definition parseCapability (capability : string) : option ParsedCapability :=
  match Str.split ":" capability with
  | ns :: act :: scopeParts =>
      if (length scopeParts <? 1)%nat then None
      else Some {| namespace := ns; action := act; scope := Str.join ":" scopeParts |}
  | _ => None
  end.

(** [globToRegExp(glob).test(host)]: [?] is escaped, only [*] is a wildcard. *)
Definition globToRegExp_test (glob h : string) : bool := Glob.matches (Glob.compile_escaped glob) h.

Definition DEFAULT_ALLOWED_PORTS : list jsnum := [of_Z 80; of_Z 443].

Record HostPort := { hostPattern : string; portPattern : option string }.

Definition parseScope (sc : string) : HostPort :=
  match Str.last_index_of ":" sc with
  | Some (S i) =>
      let suffix := Str.drop (S (S i)) sc in
      if String.eqb suffix "*" || Hosts.digits suffix
      then {| hostPattern := Str.take (S i) sc; portPattern := Some suffix |}
      else {| hostPattern := sc; portPattern := None |}
  | _ => {| hostPattern := sc; portPattern := None |}
  end.

Definition reaches_hosts (c : ParsedCapability) : bool :=
  (String.eqb (namespace c) "browser" && String.eqb (action c) "navigate")
  || (String.eqb (namespace c) "network" && String.eqb (action c) "host").

Definition loadAllowedHostPatterns (POLICY : Policy) : list HostPort :=
  match POLICY with
  | None => []
  | Some declaredCapabilities =>
      map (fun c => parseScope (scope c))
        (List.filter reaches_hosts (omap parseCapability (or_default [] declaredCapabilities)))
  end.

Definition loadDedicatedBrokerHosts (POLICY : Policy) : list string :=
  let declared := or_default [] (or_default None POLICY) in
  let hasGithubCapability :=
    existsb (fun c => match parseCapability c with
                      | Some p => String.eqb (namespace p) "github"
                      | None => false
                      end) declared in
  if hasGithubCapability then ["api.github.com"] else [].

(** [Number(portPattern) === port] and its neighbours. *)
Definition pattern_allows (h : string) (port : jsnum) (pat : HostPort) : bool :=
  if negb (globToRegExp_test (hostPattern pat) h) then false
  else match portPattern pat with
       | None => existsb (eqb port) DEFAULT_ALLOWED_PORTS
       | Some pp => if String.eqb pp "*" then true else eqb (Number pp) port
       end.

Definition isHostAllowed (ALLOWED_HOST_PATTERNS : list HostPort) (h : string) (port : jsnum) : bool :=
  existsb (pattern_allows h port) ALLOWED_HOST_PATTERNS.

(** ** Addresses *)

(** [ip.split(".").map(Number)], the integers from 0 to 255 among them. *)
Definition octet (piece : string) : option Z :=
  match to_integer (Number piece) with
  | Some o => if (o <? 0)%Z || (255 <? o)%Z then None else Some o
  | None => None
  end.

Definition isBlockedAddress (ip : string) : bool :=
  match map octet (Str.split "." ip) with
  | [Some a; Some b; Some _; Some _] =>
      if (a =? 0)%Z then true
      else if (a =? 10)%Z then true
      else if (a =? 127)%Z then true
      else if (a =? 169)%Z && (b =? 254)%Z then true
      else if (a =? 172)%Z && (16 <=? b)%Z && (b <=? 31)%Z then true
      else if (a =? 192)%Z && (b =? 168)%Z then true
      else if (a =? 100)%Z && (64 <=? b)%Z && (b <=? 127)%Z then true
      else (224 <=? a)%Z
  | _ => true
  end.

(** [/^\d{1,3}(\.\d{1,3}){3}$/] *)
Definition short_digits (s : string) : bool := Hosts.digits s && (String.length s <=? 3)%nat.
Definition IPV4_LITERAL (h : string) : bool :=
  match Str.split "." h with
  | [a; b; c; d] => forallb short_digits [a; b; c; d]
  | _ => false
  end.

(** [dns.resolve4] against the five-second timer: the addresses, or the
    message of whichever error came first. *)
Definition resolver : Type := string -> result string (list string).

Definition resolvePinnedAddress (resolve4 : resolver) (h : string) : result string string :=
  if IPV4_LITERAL h then Ok h
  else
    let? addresses := resolve4 h in
    match addresses with
    | [] => Err ("no A record for " +:+ h)
    | address :: _ => Ok address
    end.

(** ** Events *)

(** What a socket of the broker's own does, in order; at [Timer] the timeout set
    when it was opened has passed, which shows only while it is still set. *)
Inductive socket_event : Type :=
| Connected
| Data (chunk : string)
| Failed (message : string)
| Closed
| Timer.

(** The message of a failed dial. *)
Inductive dial_message : Type :=
| NoAnswer (h : string) (port : jsnum)
| AnswerTooLong
| FromHost (reason : string)
| Unrecognised
| SocketError (message : string)
| ClosedConnection.

Inductive refusal : Type :=
| BadRequest
| DedicatedBroker (h : string)
| NotCovered (h : string) (port : jsnum)
| InternalAddress (h address : string)
| ByHost (code : string) (message : dial_message)
| Unresolved (h message : string)
| BrokerError.

(** The request made upstream for a plain-HTTP one: where it is sent and what. *)
Inductive destination : Type :=
| Address (address : string) (port : jsnum)
| Tunnel (h : string) (port : jsnum)
| Proxy (h : string) (port : jsnum).

Record Outgoing := {
  o_to : destination;
  o_method : string;
  o_path : string;
  o_headers : list (string * string)
}.

Inductive event : Type :=
| LogDecision (allowed : bool) (h : string) (port : jsnum)
| DialLine (h : string) (port : jsnum)            (** [DIAL host port] to the host's dialer *)
| NetConnect (address : string) (port : jsnum)    (** a connection of the broker's own *)
| ConnectLine (h : string) (port : jsnum) (auth : option string)  (** [CONNECT] to the upstream proxy *)
| ProxyConnect (h : string) (port : jsnum)        (** a connection to the upstream proxy *)
| HttpRequest (out : Outgoing)
| ToClient (bytes : string)
| EndClient (bytes : string)                      (** written, then closed *)
| DestroyClient
| ToUpstream (bytes : string)
| Respond (status : Z) (why : refusal).

Definition OK_200 : string := "HTTP/1.1 200 Connection Established" +:+ Framing.CRLF +:+ Framing.CRLF.
Definition FORBIDDEN_403 : string := "HTTP/1.1 403 Forbidden" +:+ Framing.CRLF +:+ Framing.CRLF.
Definition BAD_GATEWAY_502 : string := "HTTP/1.1 502 Bad Gateway" +:+ Framing.CRLF +:+ Framing.CRLF.

(** ** The host's dialer *)

Definition non_space (c : ascii) : bool := negb (Str.is_space c).

(** [/^OK (\S+)$/] *)
Definition ok_line (line : string) : option string :=
  if Str.starts_with "OK " line then
    let address := Str.drop 3 line in
    if negb (String.eqb address "") && Str.all non_space address then Some address else None
  else None.

(** [ERR], a code without white space, an optional blank and the rest of the
    line. *)
Definition err_line (line : string) : option (string * string) :=
  if Str.starts_with "ERR " line then
    let '(code, rest) := span non_space (Str.drop 4 line) in
    if String.eqb code "" || Str.any Str.is_line_terminator rest then None
    else Some (code, if Str.starts_with " " rest then Str.drop 1 rest else rest)
  else None.

(** How the promise settles: [remaining] is what the socket does afterwards,
    the bytes after the line, pushed back, in front of it. *)
Inductive dialled : Type :=
| Dialled (address : string) (remaining : list socket_event)
| Rejected (code : string) (message : dial_message)
| Pending.

Definition unshift (rest : string) (more : list socket_event) : list socket_event :=
  if String.eqb rest "" then more else Data rest :: more.

Definition settle (line : string) (remaining : list socket_event) : dialled :=
  match ok_line line with
  | Some address => Dialled address remaining
  | None =>
      match err_line line with
      | Some (code, message) => Rejected code (FromHost message)
      | None => Rejected "dialer" Unrecognised
      end
  end.

Fixpoint dial_from (h : string) (port : jsnum) (buf : string) (evs : list socket_event) : list event * dialled :=
  match evs with
  | [] => ([], Pending)
  | Connected :: more => prod_map (cons (DialLine h port)) id (dial_from h port buf more)
  | Data chunk :: more =>
      let buf := buf +:+ chunk in
      match Framing.cut Framing.LF buf with
      | None =>
          if (1024 <? String.length buf)%nat then ([], Rejected "dialer" AnswerTooLong)
          else dial_from h port buf more
      | Some (line, rest) =>
          ([], settle line (unshift rest more))
      end
  | Failed m :: _ => ([], Rejected "dialer" (SocketError m))
  | Closed :: _ => ([], Rejected "dialer" ClosedConnection)
  | Timer :: _ => ([], Rejected "dialer" (NoAnswer h port))
  end.

Definition dialViaHost (h : string) (port : jsnum) (evs : list socket_event) : list event * dialled :=
  dial_from h port "" evs.

(** ** Headers *)

Definition HOP_BY_HOP_HEADERS : list string :=
  ["connection"; "keep-alive"; "proxy-authenticate"; "proxy-authorization"; "proxy-connection"; "te"; "trailer";
   "transfer-encoding"; "upgrade"].

Definition hop_by_hop (name : string) : bool := existsb (String.eqb (Str.to_lower name)) HOP_BY_HOP_HEADERS.

Definition sanitizeForwardedHeaders (headers : list (string * string)) (hostHeaderValue : string)
    : list (string * string) :=
  let out := foldl (fun out '(name, value) => if hop_by_hop name then out else JsObj.assign name value out)
               [] headers in
  JsObj.assign "host" hostHeaderValue out.

(** ** Configuration *)

(** The upstream proxy's URL; [p_auth] is the [Basic] value built from its
    credentials. *)
Record ProxyUrl := { p_hostname : string; p_port : string; p_auth : option string }.

Record Config := {
  POLICY : Policy;
  DIALER_SOCKET : bool;
  UPSTREAM_ENV : option ProxyUrl
}.

Definition UPSTREAM_PROXY_URL (cfg : Config) : option ProxyUrl :=
  if DIALER_SOCKET cfg then None else UPSTREAM_ENV cfg.

(** [x || d] of numbers. *)
Definition or_number (x d : jsnum) : jsnum := if falsy x then d else x.

Definition proxyPort (proxy : ProxyUrl) : jsnum := or_number (Number (p_port proxy)) (of_Z 80).

(** What the network does for one request: the resolver, the dialer's socket,
    and the socket of a direct connection or of one to the upstream proxy. *)
Record Net := { resolve4 : resolver; dialer : list socket_event; upstream : list socket_event }.

Definition dedicated (cfg : Config) (h : string) : bool :=
  existsb (String.eqb h) (loadDedicatedBrokerHosts (POLICY cfg)).
Definition allowed (cfg : Config) (h : string) (port : jsnum) : bool :=
  isHostAllowed (loadAllowedHostPatterns (POLICY cfg)) h port.

(** ** CONNECT *)

(** Two sockets joined: what the upstream one does, as the client sees it. *)
Fixpoint splice (on_error : event) (evs : list socket_event) : list event :=
  match evs with
  | [] => []
  | Data chunk :: more => ToClient chunk :: splice on_error more
  | Failed _ :: _ => [on_error]
  | Closed :: _ => [EndClient ""]
  | _ :: more => splice on_error more
  end.

(** [net.connect] throws for a port that is none. *)
Definition valid_port (port : jsnum) : bool :=
  match to_integer port with Some p => (0 <=? p)%Z && (p <? 65536)%Z | None => false end.

(** A direct connection, from [net.connect] on. A timeout destroys the socket
    with an error. *)
Fixpoint connect_direct (head : string) (evs : list socket_event) : list event :=
  match evs with
  | [] => []
  | Connected :: more => ToClient OK_200 :: ToUpstream head :: splice (EndClient BAD_GATEWAY_502) more
  | Failed _ :: _ | Timer :: _ => [EndClient BAD_GATEWAY_502]
  | Closed :: _ => []
  | Data _ :: more => connect_direct head more
  end.

(** [Number(statusLine.match(/^HTTP\/1\.\d (\d+)/)?.[1])] *)
Definition status_code (statusLine : string) : jsnum :=
  match Str.drop 7 statusLine with
  | String v (String " " rest) =>
      let '(ds, _) := span Str.is_digit rest in
      if Str.starts_with "HTTP/1." statusLine && Str.is_digit v && negb (String.eqb ds "") then Number ds else NaN
  | _ => NaN
  end.

Definition first_line (s : string) : string :=
  match Framing.cut Framing.CRLF s with Some (line, _) => line | None => s end.

Fixpoint connect_proxy (h : string) (port : jsnum) (auth : option string) (head buf : string)
    (evs : list socket_event) : list event :=
  match evs with
  | [] => []
  | Connected :: more => ConnectLine h port auth :: connect_proxy h port auth head buf more
  | Data chunk :: more =>
      let buf := buf +:+ chunk in
      match Framing.cut (Framing.CRLF +:+ Framing.CRLF) buf with
      | None => connect_proxy h port auth head buf more
      | Some (headers, leftover) =>
          if negb (eqb (status_code (first_line headers)) (of_Z 200)) then [EndClient BAD_GATEWAY_502]
          else ToClient OK_200 :: (if String.eqb leftover "" then [] else [ToClient leftover])
               ++ ToUpstream head :: splice (EndClient BAD_GATEWAY_502) more
      end
  | Failed _ :: _ | Timer :: _ => [EndClient BAD_GATEWAY_502]
  | Closed :: _ => []
  end.

Definition connectViaUpstreamProxy (proxy : ProxyUrl) (h : string) (port : jsnum) (head : string)
    (evs : list socket_event) : list event :=
  ProxyConnect (p_hostname proxy) (proxyPort proxy) :: connect_proxy h port (p_auth proxy) head "" evs.

(** [const [host, portStr] = url.split(":")] and the port read from it. *)
Definition connect_target (url : string) : string * jsnum :=
  match Str.split ":" url with
  | h :: portStr :: _ => (h, or_number (Number portStr) (of_Z 443))
  | h :: [] => (h, of_Z 443)
  | [] => ("", of_Z 443)
  end.

Definition onConnect (cfg : Config) (net : Net) (url head : string) : list event :=
  let '(h, port) := connect_target url in
  if dedicated cfg h then [LogDecision false h port; EndClient FORBIDDEN_403]
  else if String.eqb h "" || negb (allowed cfg h port) then [LogDecision false h port; EndClient FORBIDDEN_403]
  else if DIALER_SOCKET cfg then
    if IPV4_LITERAL h && isBlockedAddress h then [LogDecision false h port; EndClient FORBIDDEN_403]
    else
      let '(asked, tunnel) := dialViaHost (Str.to_lower h) port (dialer net) in
      asked ++
      match tunnel with
      | Pending => []
      | Rejected code _ =>
          [LogDecision false h port; EndClient (if String.eqb code "denied" then FORBIDDEN_403 else BAD_GATEWAY_502)]
      | Dialled _ more =>
          LogDecision true h port :: ToClient OK_200 :: (if String.eqb head "" then [] else [ToUpstream head])
          ++ splice DestroyClient more
      end
  else match UPSTREAM_PROXY_URL cfg with
  | Some proxy => LogDecision true h port :: connectViaUpstreamProxy proxy h port head (upstream net)
  | None =>
      match resolvePinnedAddress (resolve4 net) h with
      | Err _ => [LogDecision false h port; EndClient BAD_GATEWAY_502]
      | Ok address =>
          if isBlockedAddress address then [LogDecision false h port; EndClient FORBIDDEN_403]
          else LogDecision true h port ::
               (if valid_port port then NetConnect address port :: connect_direct head (upstream net)
                else [EndClient BAD_GATEWAY_502])
      end
  end.

(** ** Plain HTTP *)

Record Request := { r_method : string; r_url : string; r_headers : list (string * string) }.

Definition target_port (target : URL) : jsnum :=
  or_number (match u_port target with Some p => of_Z p | None => of_Z 0 end)
    (if String.eqb (protocol target) "https:" then of_Z 443 else of_Z 80).

Definition onRequest `{UrlParser} (cfg : Config) (net : Net) (req : Request) : list event :=
  match new_URL (r_url req) with
  | None => [Respond 400 BadRequest]
  | Some target =>
      let h := hostname target in
      let port := target_port target in
      let path := pathname target +:+ u_search target in
      let headers := sanitizeForwardedHeaders (r_headers req) (u_host target) in
      if dedicated cfg h then [LogDecision false h port; Respond 403 (DedicatedBroker h)]
      else if negb (allowed cfg h port) then [LogDecision false h port; Respond 403 (NotCovered h port)]
      else if DIALER_SOCKET cfg then
        if IPV4_LITERAL h && isBlockedAddress h
        then [LogDecision false h port; Respond 403 (InternalAddress h h)]
        else
          let '(asked, tunnel) := dialViaHost (Str.to_lower h) port (dialer net) in
          asked ++
          match tunnel with
          | Pending => []
          | Rejected code message =>
              [LogDecision false h port;
               Respond (if String.eqb code "denied" then 403 else 502) (ByHost code message)]
          | Dialled _ _ =>
              [LogDecision true h port;
               HttpRequest {| o_to := Tunnel h port; o_method := r_method req; o_path := path; o_headers := headers |}]
          end
      else match UPSTREAM_PROXY_URL cfg with
      | Some proxy =>
          [LogDecision true h port;
           HttpRequest {| o_to := Proxy (p_hostname proxy) (proxyPort proxy); o_method := r_method req;
                          o_path := r_url req;
                          o_headers := match p_auth proxy with
                                       | Some auth => JsMap.put "proxy-authorization" auth headers
                                       | None => headers
                                       end |}]
      | None =>
          match resolvePinnedAddress (resolve4 net) h with
          | Err message => [LogDecision false h port; Respond 502 (Unresolved h message)]
          | Ok address =>
              if isBlockedAddress address
              then [LogDecision false h port; Respond 403 (InternalAddress h address)]
              else [LogDecision true h port;
                    HttpRequest {| o_to := Address address port; o_method := r_method req; o_path := path;
                                   o_headers := headers |}]
          end
      end
  end.

(** ** Lemmas *)

Lemma parseCapability_ok c p : parseCapability c = Some p <-> Capability.parseCapability c = Ok p.
Proof.
  unfold parseCapability, Capability.parseCapability. change Capability.colon with (":" : ascii).
  destruct (Str.split ":" c) as [|ns [|act parts]]; [done|done|].
  destruct (length parts <? 1)%nat; [done|]. split; congruence.
Qed.

(** [parseScope] reads what the apps' [parseHostScope] reads. *)
Lemma parseScope_hosts sc :
  hostPattern (parseScope sc) = Hosts.host (Hosts.parseHostScope sc) /\
  Hosts.port (Hosts.parseHostScope sc) =
    match portPattern (parseScope sc) with
    | None => Hosts.NoPort
    | Some pp => if String.eqb pp "*" then Hosts.AnyPort else Hosts.PortNumber (Number pp)
    end.
Proof.
  unfold parseScope, Hosts.parseHostScope. destruct (Str.last_index_of ":" sc) as [[|i]|]; [done| |done].
  generalize (Str.drop (S (S i)) sc). intros suffix. destruct (String.eqb_spec suffix "*") as [->|Hne].
  - by cbn [orb hostPattern portPattern Hosts.host Hosts.port].
  - cbn [orb]. destruct (Hosts.digits suffix); [|done]. cbn [hostPattern portPattern Hosts.host Hosts.port].
    apply String.eqb_neq in Hne. by rewrite Hne.
Qed.

Lemma pattern_allows_hosts h port p sc :
  to_integer port = Some p ->
  pattern_allows h port (parseScope sc) = Hosts.pattern_allows h p (Hosts.parseHostScope sc).
Proof.
  intros Hp. destruct (parseScope_hosts sc) as [Hh Hport]. unfold pattern_allows, Hosts.pattern_allows.
  rewrite Hport, <- Hh. change (Hosts.globToRegExp_test ?g ?s) with (globToRegExp_test g s).
  destruct (negb _); [done|]. destruct (portPattern (parseScope sc)) as [ds|].
  - assert (Hn : eqb (Number ds) port = Hosts.is_number (Number ds) p).
    { apply eq_iff_eq_true. unfold Hosts.is_number. rewrite bool_decide_eq_true. by apply eqb_to_integer. }
    rewrite Hn. by destruct (String.eqb ds "*").
  - apply eq_iff_eq_true. cbn [existsb DEFAULT_ALLOWED_PORTS]. rewrite orb_false_r, !orb_true_iff, !Z.eqb_eq.
    assert (Heq : forall q, (0 <= q < 1000)%Z -> eqb port (of_Z q) = true <-> p = q).
    { intros q Hq. rewrite (eqb_to_integer port (of_Z q) q) by (apply to_integer_of_Z; lia).
      rewrite Hp. split; congruence. }
    by rewrite !Heq by lia.
Qed.

(** The two capability names that reach hosts, and what follows them. *)
Definition host_capability (sc : string) (c : string) : Prop :=
  c = "browser:navigate:" +:+ sc \/ c = "network:host:" +:+ sc.

Lemma reaches_hosts_spec c sc :
  (exists p, parseCapability c = Some p /\ reaches_hosts p = true /\ scope p = sc) <-> host_capability sc c.
Proof.
  unfold host_capability, reaches_hosts. setoid_rewrite parseCapability_ok.
  setoid_rewrite Capability.parseCapability_spec. unfold print_capability. split.
  - intros ([ns act sc'] & (-> & _ & _) & Hr & <-). cbn [namespace action scope] in *.
    rewrite orb_true_iff, !andb_true_iff, !String.eqb_eq in Hr.
    destruct Hr as [[-> ->]|[-> ->]]; [by left|by right].
  - intros [-> | ->].
    + exists {| namespace := "browser"; action := "navigate"; scope := sc |}. by cbn.
    + exists {| namespace := "network"; action := "host"; scope := sc |}. by cbn.
Qed.

Lemma elem_of_patterns declared pat :
  pat ∈ loadAllowedHostPatterns (Some (Some declared)) <->
  exists c sc, c ∈ declared /\ host_capability sc c /\ pat = parseScope sc.
Proof.
  unfold loadAllowedHostPatterns. cbn [or_default]. rewrite list_elem_of_In, in_map_iff. setoid_rewrite filter_In.
  setoid_rewrite <- list_elem_of_In. setoid_rewrite list_elem_of_omap. split.
  - intros (p & <- & (c & Hc & Hp) & Hr). exists c, (scope p). split_and!; [done| |done].
    apply reaches_hosts_spec. by exists p.
  - intros (c & sc & Hc & Hh & ->). apply reaches_hosts_spec in Hh as (p & Hp & Hr & <-).
    exists p. split_and!; [done|by exists c|done].
Qed.

Lemma isHostAllowed_iff declared h port p :
  to_integer port = Some p ->
  isHostAllowed (loadAllowedHostPatterns (Some (Some declared))) h port = true <->
  exists c sc, c ∈ declared /\ host_capability sc c /\ Hosts.scope_allows sc h p.
Proof.
  intros Hp. unfold isHostAllowed. rewrite existsb_exists. setoid_rewrite <- list_elem_of_In. split.
  - intros (pat & (c & sc & Hc & Hh & ->)%elem_of_patterns & Ha). exists c, sc. split_and!; [done|done|].
    apply Hosts.pattern_allows_spec. by rewrite <- (pattern_allows_hosts h port p).
  - intros (c & sc & Hc & Hh & Ha). exists (parseScope sc). split; [apply elem_of_patterns; eauto|].
    rewrite (pattern_allows_hosts h port p) by done. by apply Hosts.pattern_allows_spec.
Qed.

(** The broker and the apps' own hosts.ts decide alike: for an app that
    declares no [browser:navigate:], a host and port are allowed here exactly
    when [isAllowed] of hosts.ts says so, and in general exactly when the scope
    of some declared [browser:navigate:] or [network:host:] capability covers
    them. *)
Theorem isHostAllowed_spec declared h port p :
  to_integer port = Some p ->
  (isHostAllowed (loadAllowedHostPatterns (Some (Some declared))) h port = true <->
   exists c sc, c ∈ declared /\ host_capability sc c /\ Hosts.scope_allows sc h p) /\
  ((forall sc, ("browser:navigate:" +:+ sc) ∉ declared) ->
   isHostAllowed (loadAllowedHostPatterns (Some (Some declared))) h port =
   Hosts.isAllowed (Hosts.patternsFrom declared) h p).
Proof.
  intros Hp. split; [by apply isHostAllowed_iff|]. intros Hno. apply eq_iff_eq_true.
  rewrite (isHostAllowed_iff declared h port p), Hosts.isAllowed_iff by done. unfold host_capability, Hosts.prefix. split.
  - intros (c & sc & Hc & [-> | ->] & Ha); [by destruct (Hno sc)|by exists sc].
  - intros (sc & Hc & Ha). exists ("network:host:" +:+ sc), sc. split_and!; [done|by right|done].
Qed.

(** ** Blocked addresses *)

Definition dotted (a b c d : Z) : string := Str.join "." (map to_string [a; b; c; d]).
Definition byte (x : Z) : Prop := (0 <= x < 256)%Z.
Definition address_value (a b c d : Z) : Z := (a * 16777216 + b * 65536 + c * 256 + d)%Z.

(** The networks [base/len] no capability reaches. *)
Definition blocked_networks : list (Z * Z) :=
  [(address_value 0 0 0 0, 8); (address_value 10 0 0 0, 8); (address_value 127 0 0 0, 8);
   (address_value 169 254 0 0, 16); (address_value 172 16 0 0, 12); (address_value 192 168 0 0, 16);
   (address_value 100 64 0 0, 10); (address_value 224 0 0 0, 3)]%Z.

Definition in_network (addr : Z) (net : Z * Z) : Prop := (addr / 2 ^ (32 - net.2) = net.1 / 2 ^ (32 - net.2))%Z.

Lemma octet_to_string z : byte z -> octet (to_string z) = Some z.
Proof.
  intros [H0 H1]. unfold octet. rewrite Number_to_string by lia.
  destruct (Z.ltb_spec z 0), (Z.ltb_spec 255 z); try lia. done.
Qed.

Lemma to_string_no_dot z : byte z -> Str.any (Ascii.eqb ".") (to_string z) = false.
Proof.
  intros [H0 H1]. destruct (to_string_spec z H0) as (_ & Hall & _).
  revert Hall. generalize (to_string z). intros s. induction s as [|c s IH]; [done|]. cbn [Str.all Str.any].
  intros [Hc Hs]%andb_true_iff. rewrite IH, orb_false_r by done.
  apply Ascii.eqb_neq. by intros <-.
Qed.

Lemma octets_dotted a b c d :
  byte a -> byte b -> byte c -> byte d ->
  map octet (Str.split "." (dotted a b c d)) = [Some a; Some b; Some c; Some d].
Proof.
  intros Ha Hb Hc Hd. unfold dotted. change "."%string with (String "." ""). rewrite StrFacts.split_join.
  - cbn [map]. by rewrite !octet_to_string.
  - done.
  - cbn [map]. repeat constructor; by apply to_string_no_dot.
Qed.

Lemma network_prefix a b c d base k m :
  byte b -> byte c -> byte d -> (0 <= base)%Z -> (0 <= m)%Z -> (k = 16 + m)%Z ->
  (address_value a b c d / 2 ^ k = (base * 65536) / 2 ^ k <-> (a * 256 + b) / 2 ^ m = base / 2 ^ m)%Z.
Proof.
  intros [Hb Hb'] [Hc Hc'] [Hd Hd'] Hbase Hm ->. unfold address_value.
  rewrite Z.pow_add_r by lia. change (2 ^ 16)%Z with 65536%Z.
  assert (0 < 2 ^ m)%Z by (apply Z.pow_pos_nonneg; lia).
  rewrite <- !Z.div_div, Z.div_mul by lia.
  replace ((a * 16777216 + b * 65536 + c * 256 + d) / 65536)%Z with (a * 256 + b)%Z; [done|].
  apply (Z.div_unique _ _ _ (c * 256 + d)%Z); lia.
Qed.

Lemma if_true (x y : bool) : (if x then true else y) = x || y.
Proof. by destruct x. Qed.

Lemma blocked_cases a b c d :
  byte a -> byte b -> byte c -> byte d ->
  isBlockedAddress (dotted a b c d) = true <->
  (a = 0 \/ a = 10 \/ a = 127 \/ (a = 169 /\ b = 254) \/ (a = 172 /\ 16 <= b <= 31) \/ (a = 192 /\ b = 168)
   \/ (a = 100 /\ 64 <= b <= 127) \/ 224 <= a)%Z.
Proof.
  intros Ha Hb Hc Hd. unfold isBlockedAddress. rewrite octets_dotted by done.
  rewrite !if_true.
  rewrite !orb_true_iff, !andb_true_iff, !Z.eqb_eq, !Z.leb_le. tauto.
Qed.

Lemma div_eq x k v : (0 < k)%Z -> (x / k = v)%Z <-> (v * k <= x < v * k + k)%Z.
Proof. intros Hk. pose proof (Z.div_mod x k ltac:(lia)). pose proof (Z.mod_pos_bound x k Hk). nia. Qed.

(** The addresses no capability reaches are the private, loopback,
    link-local, shared and multicast or reserved networks, for every IPv4
    address: the octet tests are the eight prefixes. *)
Theorem isBlockedAddress_networks a b c d :
  byte a -> byte b -> byte c -> byte d ->
  isBlockedAddress (dotted a b c d) = true <->
  Exists (in_network (address_value a b c d)) blocked_networks.
Proof.
  intros Ha Hb Hc Hd. rewrite blocked_cases by done. unfold blocked_networks, in_network.
  rewrite !Exists_cons, Exists_nil. cbn [fst snd].
  change (address_value 0 0 0 0) with (0 * 65536)%Z. change (address_value 10 0 0 0) with (2560 * 65536)%Z.
  change (address_value 127 0 0 0) with (32512 * 65536)%Z. change (address_value 169 254 0 0) with (43518 * 65536)%Z.
  change (address_value 172 16 0 0) with (44048 * 65536)%Z. change (address_value 192 168 0 0) with (49320 * 65536)%Z.
  change (address_value 100 64 0 0) with (25664 * 65536)%Z. change (address_value 224 0 0 0) with (57344 * 65536)%Z.
  rewrite (network_prefix _ _ _ _ 0 _ 8), (network_prefix _ _ _ _ 2560 _ 8), (network_prefix _ _ _ _ 32512 _ 8),
    (network_prefix _ _ _ _ 43518 _ 0), (network_prefix _ _ _ _ 44048 _ 4), (network_prefix _ _ _ _ 49320 _ 0),
    (network_prefix _ _ _ _ 25664 _ 6), (network_prefix _ _ _ _ 57344 _ 13) by (done || lia).
  rewrite !div_eq by done. destruct Ha, Hb.
  repeat match goal with |- context [(?m / ?k)%Z] => let v := eval vm_compute in (m / k)%Z in change (m / k)%Z with v end.
  lia.
Qed.

(** ** What leaves the broker *)

Section safety.
Context (cfg : Config) (net : Net).

Definition permitted (h : string) (port : jsnum) : Prop :=
  dedicated cfg h = false /\ allowed cfg h port = true.

(** The address a name stands for, looked up once. *)
Definition pinned (h address : string) : Prop :=
  resolvePinnedAddress (resolve4 net) h = Ok address /\ isBlockedAddress address = false.

Definition literal_ok (h : string) : Prop := IPV4_LITERAL h = true -> isBlockedAddress h = false.

(** What a request for [h] and [port] may cause outside the broker. *)
Definition outbound_ok (h : string) (port : jsnum) (e : event) : Prop :=
  match e with
  | NetConnect address p => p = port /\ permitted h port /\ pinned h address /\ valid_port p = true
  | DialLine name p => name = Str.to_lower h /\ p = port /\ permitted h port /\ literal_ok h
  | ProxyConnect ph pp =>
      permitted h port /\ exists proxy, UPSTREAM_PROXY_URL cfg = Some proxy /\ ph = p_hostname proxy /\ pp = proxyPort proxy
  | ConnectLine name p _ => name = h /\ p = port /\ permitted h port /\ UPSTREAM_PROXY_URL cfg <> None
  | HttpRequest out =>
      permitted h port /\
      match o_to out with
      | Address address p => p = port /\ pinned h address
      | Tunnel name p => name = h /\ p = port /\ literal_ok h
      | Proxy _ _ => UPSTREAM_PROXY_URL cfg <> None
      end
  | LogDecision true name p => name = h /\ p = port /\ permitted h port
  | ToClient _ | ToUpstream _ => permitted h port
  | _ => True
  end.

Lemma dial_events h port buf evs : Forall (fun e => e = DialLine h port) (dial_from h port buf evs).1.
Proof.
  revert buf; induction evs as [|e evs IH]; intros buf; cbn [dial_from]; [constructor|].
  destruct e as [|chunk| | |]; [|cbv zeta|by constructor..].
  - specialize (IH buf). destruct (dial_from h port buf evs). cbn. by constructor.
  - destruct (Framing.cut Framing.LF (buf +:+ chunk)) as [[line rest]|]; [constructor|].
    destruct (_ <? _)%nat; [constructor|apply IH].
Qed.

Lemma splice_ok h port on_error evs :
  permitted h port -> on_error = DestroyClient \/ (exists b, on_error = EndClient b) ->
  Forall (outbound_ok h port) (splice on_error evs).
Proof.
  intros Hp He. induction evs as [|[] evs IH]; cbn [splice]; try (repeat constructor; done); try done.
  - by constructor.
  - repeat constructor. by destruct He as [->|[b ->]].
Qed.

Lemma connect_direct_ok h port head evs :
  permitted h port -> Forall (outbound_ok h port) (connect_direct head evs).
Proof.
  intros Hp. induction evs as [|[] evs IH]; cbn [connect_direct]; try done; try (by repeat constructor).
  repeat (constructor; [done|]). apply splice_ok; [done|]. right. by exists BAD_GATEWAY_502.
Qed.

Lemma connect_proxy_ok h port auth head buf evs :
  permitted h port -> UPSTREAM_PROXY_URL cfg <> None ->
  Forall (outbound_ok h port) (connect_proxy h port auth head buf evs).
Proof.
  intros Hp Hu. revert buf; induction evs as [|e evs IH]; intros buf; cbn [connect_proxy]; [done|].
  destruct e as [|chunk| | |]; cbv zeta; try (by repeat constructor); [by constructor|].
  destruct (Framing.cut (Framing.CRLF +:+ Framing.CRLF) (buf +:+ chunk)) as [[hs left]|]; [|done].
  destruct (negb _); [by repeat constructor|].
  constructor; [done|]. apply Forall_app. split; [destruct (String.eqb left ""); [done|by constructor]|].
  constructor; [done|]. apply splice_ok; [done|]. right. by exists BAD_GATEWAY_502.
Qed.

Lemma literal_checked h : IPV4_LITERAL h && isBlockedAddress h = false -> literal_ok h.
Proof. unfold literal_ok. intros H Hl. by rewrite Hl in H. Qed.

Lemma onConnect_ok url head :
  let '(h, port) := connect_target url in Forall (outbound_ok h port) (onConnect cfg net url head).
Proof.
  unfold onConnect. destruct (connect_target url) as [h port]. destruct (dedicated cfg h) eqn:Hd; [by repeat constructor|].
  destruct (String.eqb h "" || negb (allowed cfg h port)) eqn:Ha; [by repeat constructor|].
  apply orb_false_iff in Ha as [_ Ha%negb_false_iff]. assert (Hp : permitted h port) by done.
  destruct (DIALER_SOCKET cfg) eqn:Es.
  - destruct (IPV4_LITERAL h && isBlockedAddress h) eqn:Hl; [by repeat constructor|]. apply literal_checked in Hl.
    pose proof (dial_events (Str.to_lower h) port "" (dialer net)) as Hev. unfold dialViaHost.
    destruct (dial_from _ _ _ _) as [asked tunnel]. apply Forall_app. split.
    + eapply Forall_impl; [exact Hev|]. by intros e ->.
    + destruct tunnel as [address more|code message|]; [|by repeat constructor|done].
      repeat (constructor; [done|]). apply Forall_app.
      split; [destruct (String.eqb head ""); [done|by constructor]|]. apply splice_ok; [done|by left].
  - destruct (UPSTREAM_PROXY_URL cfg) as [proxy|] eqn:Eu.
    + unfold connectViaUpstreamProxy. constructor; [done|]. constructor; [split; [done|by exists proxy]|].
      apply connect_proxy_ok; [done|]. by rewrite Eu.
    + destruct (resolvePinnedAddress _ h) as [address|m] eqn:Er; [|by repeat constructor].
      destruct (isBlockedAddress address) eqn:Eb; [by repeat constructor|]. constructor; [done|].
      destruct (valid_port port) eqn:Ev; [|by repeat constructor]. constructor; [|by apply connect_direct_ok].
      split_and!; done.
Qed.

Lemma onRequest_ok `{UrlParser} req target :
  new_URL (r_url req) = Some target ->
  Forall (outbound_ok (hostname target) (target_port target)) (onRequest cfg net req).
Proof.
  intros Hu. unfold onRequest. rewrite Hu. cbv zeta. set (h := hostname target). set (port := target_port target).
  destruct (dedicated cfg h) eqn:Hd; [by repeat constructor|].
  destruct (negb (allowed cfg h port)) eqn:Ha; [by repeat constructor|]. apply negb_false_iff in Ha.
  assert (Hp : permitted h port) by done. destruct (DIALER_SOCKET cfg) eqn:Es.
  - destruct (IPV4_LITERAL h && isBlockedAddress h) eqn:Hl; [by repeat constructor|]. apply literal_checked in Hl.
    pose proof (dial_events (Str.to_lower h) port "" (dialer net)) as Hev. unfold dialViaHost.
    destruct (dial_from _ _ _ _) as [asked tunnel]. apply Forall_app. split.
    + eapply Forall_impl; [exact Hev|]. by intros e ->.
    + destruct tunnel; by repeat constructor.
  - destruct (UPSTREAM_PROXY_URL cfg) as [proxy|] eqn:Eu.
    + repeat constructor; try done. cbn. by rewrite Eu.
    + destruct (resolvePinnedAddress _ h) as [address|m] eqn:Er; [|by repeat constructor].
      destruct (isBlockedAddress address) eqn:Eb; by repeat constructor.
Qed.

(** [C1] Whatever a client sends and the network answers, a connection leaves
    the broker only for a host and port that a declared capability covers and
    that no dedicated broker owns. A direct connection goes to the one address
    that was looked up and checked; the host's dialer and the upstream proxy
    are asked for that host and port; and bytes are passed on only for such a
    host. A URL that does not parse causes nothing. *)
Theorem egress_safe `{UrlParser} :
  (forall url head, let '(h, port) := connect_target url in Forall (outbound_ok h port) (onConnect cfg net url head)) /\
  (forall req, match new_URL (r_url req) with
               | Some target => Forall (outbound_ok (hostname target) (target_port target)) (onRequest cfg net req)
               | None => onRequest cfg net req = [Respond 400 BadRequest]
               end).
Proof.
  split; [apply onConnect_ok|]. intros req. destruct (new_URL (r_url req)) as [target|] eqn:E.
  - by apply onRequest_ok.
  - unfold onRequest. by rewrite E.
Qed.

End safety.

(** ** From the manifest to the connection *)


(** ** Headers *)

Definition sanitize_step (out : list (string * string)) (kv : string * string) : list (string * string) :=
  let '(name, value) := kv in if hop_by_hop name then out else JsObj.assign name value out.

Lemma sanitize_get headers out n :
  NoDup headers.*1 -> (forall x, x ∈ headers.*1 -> JsMap.get x out = None) ->
  JsMap.get n (foldl sanitize_step out headers) =
    match JsMap.get n headers with
    | Some v => if hop_by_hop n || String.eqb n "__proto__" then None else Some v
    | None => JsMap.get n out
    end.
Proof.
  revert out; induction headers as [|[k v] headers IH]; intros out Hnd Hout; [done|].
  cbn [fmap list_fmap fst] in *. apply NoDup_cons in Hnd as [Hk Hnd]. cbn [foldl].
  rewrite IH; [|done|].
  - unfold sanitize_step. cbn [JsMap.get]. assert (Hk' : k = n -> JsMap.get n headers = None) by (intros <-; by apply JsMap.get_None).
    destruct (decide (n = k)) as [->|Hne].
    + rewrite Hk' by done. destruct (hop_by_hop k); cbn [orb]; [apply Hout; by left|]. unfold JsObj.assign.
      destruct (String.eqb k "__proto__"); [apply Hout; by left|apply JsMap.get_put_eq].
    + destruct (JsMap.get n headers); [done|]. destruct (hop_by_hop k); [done|]. unfold JsObj.assign.
      destruct (String.eqb k "__proto__"); [done|by apply JsMap.get_put_ne].
  - intros x Hx. unfold sanitize_step. specialize (Hout x ltac:(by right)). destruct (hop_by_hop k); [done|].
    unfold JsObj.assign. destruct (String.eqb k "__proto__"); [done|]. rewrite JsMap.get_put_ne; [done|].
    by intros ->.
Qed.

(** What is forwarded of a request's headers: no header of the hop it
    arrived on, whatever its case, the Host of the target that was checked
    whatever the client wrote, and every other header with its value. *)
Theorem sanitizeForwardedHeaders_spec headers hostValue n :
  NoDup headers.*1 ->
  JsMap.get n (sanitizeForwardedHeaders headers hostValue) =
    if String.eqb n "host" then Some hostValue
    else if hop_by_hop n || String.eqb n "__proto__" then None else JsMap.get n headers.
Proof.
  intros Hnd. unfold sanitizeForwardedHeaders. rewrite JsObj.get_assign by done.
  change (foldl _ [] headers) with (foldl sanitize_step [] headers). rewrite sanitize_get by done.
  destruct (String.eqb_spec n "host") as [->|Hne]; [by rewrite decide_True|]. rewrite decide_False by done.
  destruct (JsMap.get n headers); [by destruct (_ || _)|by destruct (_ || _)].
Qed.

(** ** The bytes of a tunnel *)

Fixpoint client_bytes (evs : list event) : string :=
  match evs with
  | [] => ""
  | ToClient b :: more => b +:+ client_bytes more
  | EndClient b :: more => b +:+ client_bytes more
  | _ :: more => client_bytes more
  end.

Fixpoint upstream_bytes (evs : list event) : string :=
  match evs with
  | [] => ""
  | ToUpstream b :: more => b +:+ upstream_bytes more
  | _ :: more => upstream_bytes more
  end.

Lemma dial_from_chunks h port chunks more : forall buf,
  dial_from h port buf (map Data chunks ++ more) =
  match Framing.read_head Framing.LF (Some 1024%nat) buf chunks with
  | Framing.Waiting b => dial_from h port b more
  | Framing.TooLong => ([], Rejected "dialer" AnswerTooLong)
  | Framing.Head line rest m => ([], settle line (unshift rest (map Data m ++ more)))
  end.
Proof.
  induction chunks as [|chunk chunks IH]; intros buf; [done|].
  cbn [map app dial_from Framing.read_head]. cbv zeta.
  destruct (Framing.cut Framing.LF (buf +:+ chunk)) as [[line rest]|]; [done|].
  destruct (1024 <? _)%nat; [done|apply IH].
Qed.

Lemma splice_data on_error chunks :
  client_bytes (splice on_error (map Data chunks)) = Framing.concat chunks /\
  upstream_bytes (splice on_error (map Data chunks)) = "".
Proof. induction chunks as [|c chunks [IH1 IH2]]; [done|]. cbn [map splice client_bytes upstream_bytes]. by rewrite IH1. Qed.

Lemma splice_unshift on_error rest chunks :
  client_bytes (splice on_error (unshift rest (map Data chunks))) = rest +:+ Framing.concat chunks /\
  upstream_bytes (splice on_error (unshift rest (map Data chunks))) = "".
Proof.
  unfold unshift. destruct (String.eqb_spec rest "") as [->|]; [apply splice_data|].
  apply (splice_data on_error (rest :: chunks)).
Qed.

Lemma connect_proxy_chunks h port auth head chunks : forall buf,
  connect_proxy h port auth head buf (map Data chunks) =
  match Framing.read_head (Framing.CRLF +:+ Framing.CRLF) None buf chunks with
  | Framing.Head headers leftover m =>
      if negb (eqb (status_code (first_line headers)) (of_Z 200)) then [EndClient BAD_GATEWAY_502]
      else ToClient OK_200 :: (if String.eqb leftover "" then [] else [ToClient leftover])
           ++ ToUpstream head :: splice (EndClient BAD_GATEWAY_502) (map Data m)
  | _ => []
  end.
Proof.
  induction chunks as [|chunk chunks IH]; intros buf; [done|].
  cbn [map connect_proxy Framing.read_head]. cbv zeta.
  by destruct (Framing.cut _ (buf +:+ chunk)) as [[headers leftover]|].
Qed.

Section transparency.
Context (cfg : Config) (net : Net) (url head h : string) (port : jsnum).
Hypothesis Htarget : connect_target url = (h, port).
Hypothesis Hpermitted : permitted cfg h port.
Hypothesis Hh : h <> "".

Lemma permitted_connect :
  onConnect cfg net url head =
  if DIALER_SOCKET cfg then
    if IPV4_LITERAL h && isBlockedAddress h then [LogDecision false h port; EndClient FORBIDDEN_403]
    else
      let '(asked, tunnel) := dialViaHost (Str.to_lower h) port (dialer net) in
      asked ++
      match tunnel with
      | Pending => []
      | Rejected code _ =>
          [LogDecision false h port; EndClient (if String.eqb code "denied" then FORBIDDEN_403 else BAD_GATEWAY_502)]
      | Dialled _ more =>
          LogDecision true h port :: ToClient OK_200 :: (if String.eqb head "" then [] else [ToUpstream head])
          ++ splice DestroyClient more
      end
  else match UPSTREAM_PROXY_URL cfg with
  | Some proxy => LogDecision true h port :: connectViaUpstreamProxy proxy h port head (upstream net)
  | None =>
      match resolvePinnedAddress (resolve4 net) h with
      | Err _ => [LogDecision false h port; EndClient BAD_GATEWAY_502]
      | Ok address =>
          if isBlockedAddress address then [LogDecision false h port; EndClient FORBIDDEN_403]
          else LogDecision true h port ::
               (if valid_port port then NetConnect address port :: connect_direct head (upstream net)
                else [EndClient BAD_GATEWAY_502])
      end
  end.
Proof.
  unfold onConnect. rewrite Htarget. destruct Hpermitted as [-> ->]. apply String.eqb_neq in Hh as ->. done.
Qed.

(** A tunnel made by the host's dialer carries the stream as it is: for
    an accepting answer of at most 1 KiB, however the bytes arrive in chunks,
    the client receives the confirmation and then every byte after the answer's
    line and nothing else, and the other side receives the client's first bytes. *)
Theorem dialer_tunnel_transparent chunks line payload address :
  DIALER_SOCKET cfg = true -> literal_ok h ->
  dialer net = Connected :: map Data chunks ->
  Framing.concat chunks = line +:+ Framing.LF +:+ payload ->
  Str.any (Ascii.eqb "010") line = false -> (String.length line <= 1024)%nat -> ok_line line = Some address ->
  client_bytes (onConnect cfg net url head) = OK_200 +:+ payload /\
  upstream_bytes (onConnect cfg net url head) = head.
Proof.
  intros Hd Hl Hev Hc Hline Hlen Hok. rewrite permitted_connect, Hd, Hev.
  assert (Hlit : IPV4_LITERAL h && isBlockedAddress h = false).
  { destruct (IPV4_LITERAL h) eqn:E; [by rewrite (Hl E)|done]. }
  rewrite Hlit. unfold dialViaHost. cbn [dial_from]. rewrite <- (app_nil_r (map Data chunks)), dial_from_chunks.
  destruct (Framing.read_head_total Framing.LF (Some 1024%nat) chunks line payload "") as (rest & more & -> & ->).
  - done.
  - done.
  - rewrite app_empty_str, Hc. by apply Framing.cut_first.
  - intros n [= <-]. cbn. lia.
  - unfold settle. rewrite Hok, app_nil_r. cbn [prod_map fst snd app client_bytes upstream_bytes].
    destruct (splice_unshift DestroyClient rest more) as [H1 H2].
    destruct (String.eqb_spec head "") as [->|]; cbn [app client_bytes upstream_bytes id];
      rewrite H1, H2; [done|]. by rewrite app_nil_r_str.
Qed.

(** So does a tunnel through the upstream proxy, once the proxy answers
    its CONNECT with status 200. *)
Theorem proxy_tunnel_transparent proxy chunks headers payload :
  UPSTREAM_PROXY_URL cfg = Some proxy ->
  upstream net = Connected :: map Data chunks ->
  Framing.cut (Framing.CRLF +:+ Framing.CRLF) (Framing.concat chunks) = Some (headers, payload) ->
  eqb (status_code (first_line headers)) (of_Z 200) = true ->
  client_bytes (onConnect cfg net url head) = OK_200 +:+ payload /\
  upstream_bytes (onConnect cfg net url head) = head.
Proof.
  intros Hu Hev Hc Hst. rewrite permitted_connect, Hu, Hev.
  assert (DIALER_SOCKET cfg = false) as ->.
  { unfold UPSTREAM_PROXY_URL in Hu. by destruct (DIALER_SOCKET cfg). }
  unfold connectViaUpstreamProxy. cbn [connect_proxy]. rewrite connect_proxy_chunks.
  destruct (Framing.read_head_total (Framing.CRLF +:+ Framing.CRLF) None chunks headers payload "")
    as (rest & more & -> & ->); [done|done|done|done|]. rewrite Hst.
  cbn [negb client_bytes upstream_bytes]. destruct (splice_data (EndClient BAD_GATEWAY_502) more) as [H1 H2].
  destruct (String.eqb_spec rest "") as [->|]; cbn [app client_bytes upstream_bytes]; rewrite H1, H2;
    by rewrite app_nil_r_str.
Qed.

End transparency.

(** ** Every CONNECT is answered *)

Definition answer (e : event) : Prop := e = ToClient OK_200 \/ exists b, e = EndClient b.

Lemma dial_settles h port evs : Timer ∈ evs -> forall buf, (dial_from h port buf evs).2 <> Pending.
Proof.
  induction evs as [|e evs IH]; intros Hin buf; [by apply elem_of_nil in Hin|].
  apply elem_of_cons in Hin as [<-|Hin]; [done|]. destruct e as [|chunk| | |]; cbn [dial_from]; try done.
  - specialize (IH Hin buf). by destruct (dial_from h port buf evs).
  - cbv zeta. destruct (Framing.cut _ (buf +:+ chunk)) as [[line rest]|].
    + cbn. unfold settle. by destruct (ok_line line), (err_line line) as [[]|].
    + destruct (1024 <? _)%nat; [done|by apply IH].
Qed.

Lemma answer_end b : Exists answer [EndClient b].
Proof. apply Exists_cons. left. right. by exists b. Qed.

Lemma direct_answered head pre post : Closed ∉ pre -> Exists answer (connect_direct head (pre ++ Timer :: post)).
Proof.
  induction pre as [|e pre IH]; intros Hc; [apply answer_end|]. apply not_elem_of_cons in Hc as [He Hc].
  destruct e; cbn [app connect_direct]; try apply answer_end; try done; [|by apply IH].
  apply Exists_cons. by left; left.
Qed.

Lemma proxy_answered h port auth head pre post : Closed ∉ pre -> forall buf,
  Exists answer (connect_proxy h port auth head buf (pre ++ Timer :: post)).
Proof.
  induction pre as [|e pre IH]; intros Hc buf; [apply answer_end|]. apply not_elem_of_cons in Hc as [He Hc].
  destruct e as [|chunk| | |]; cbn [app connect_proxy]; try apply answer_end; try done.
  - apply Exists_cons. right. by apply IH.
  - cbv zeta. destruct (Framing.cut _ (buf +:+ chunk)) as [[headers left]|]; [|by apply IH].
    destruct (negb _); [apply answer_end|]. apply Exists_cons. by left; left.
Qed.

(** Every CONNECT is answered, with the confirmation or with an error:
    none of the waits (for the host's dialer, a connection, the upstream
    proxy's headers) outlasts its timer. *)
Theorem connect_answered cfg net url head pre post :
  Timer ∈ dialer net -> upstream net = pre ++ Timer :: post -> Closed ∉ pre ->
  Exists answer (onConnect cfg net url head).
Proof.
  intros Hd Hu Hc.
  assert (Hlast : forall x b, Exists answer [x; EndClient b]) by (intros; apply Exists_cons; right; apply answer_end).
  unfold onConnect. destruct (connect_target url) as [h port]. destruct (dedicated cfg h); [apply Hlast|].
  destruct (String.eqb h "" || negb (allowed cfg h port)); [apply Hlast|].
  destruct (DIALER_SOCKET cfg).
  - destruct (IPV4_LITERAL h && isBlockedAddress h); [apply Hlast|]. unfold dialViaHost.
    pose proof (dial_settles (Str.to_lower h) port (dialer net) Hd "") as Hs.
    destruct (dial_from _ _ "" (dialer net)) as [asked tunnel]. apply Exists_app. right.
    destruct tunnel as [address more|code m|]; [|apply Hlast|done].
    apply Exists_cons. right. apply Exists_cons. by left; left.
  - destruct (UPSTREAM_PROXY_URL cfg) as [proxy|].
    + unfold connectViaUpstreamProxy. rewrite Hu. apply Exists_cons. right. apply Exists_cons. right.
      by apply proxy_answered.
    + destruct (resolvePinnedAddress _ h) as [address|]; [|apply Hlast]. destruct (isBlockedAddress address); [apply Hlast|].
      apply Exists_cons. right. destruct (valid_port port); [|apply answer_end]. apply Exists_cons. right.
      rewrite Hu. by apply direct_answered.
Qed.

(** ** What the checks miss *)

Definition github_app : Config :=
  {| POLICY := Some (Some ["github:read:repos"; "network:host:*"]); DIALER_SOCKET := false; UPSTREAM_ENV := None |}.

Definition one_address (address : string) (evs : list socket_event) : Net :=
  {| resolve4 := fun _ => Ok [address]; dialer := []; upstream := evs |}.

(** The dedicated broker's host is compared as text: the same host written
    in capitals, or with the root's dot, gets the raw tunnel that
    [api.github.com] is refused, when the app also declares
    [network:host:*]. *)
Theorem dedicated_host_by_case :
  let net := one_address "140.82.112.6" [] in
  onConnect github_app net "api.github.com:443" "" =
    [LogDecision false "api.github.com" (of_Z 443); EndClient FORBIDDEN_403] /\
  NetConnect "140.82.112.6" (of_Z 443) ∈ onConnect github_app net "API.GITHUB.COM" "" /\
  NetConnect "140.82.112.6" (of_Z 443) ∈ onConnect github_app net "api.github.com." "".
Proof. cbv zeta. split_and!; [by vm_compute|vm_compute; set_solver|vm_compute; set_solver]. Qed.

(** An address written with a leading zero is checked as decimal and
    dialled as written: [012.0.0.1] is let through as 12.0.0.1, the text the
    connection's own resolver gets is unchanged. *)
Theorem leading_zero_dialled :
  isBlockedAddress "012.0.0.1" = false /\
  NetConnect "012.0.0.1" (of_Z 443) ∈ onConnect github_app (one_address "" []) "012.0.0.1:443" "".
Proof. split; [by vm_compute|vm_compute; set_solver]. Qed.

Lemma splice_fails chunks b m :
  client_bytes (splice (EndClient b) (map Data chunks ++ [Failed m])) = Framing.concat chunks +:+ b.
Proof.
  induction chunks as [|c chunks IH]; cbn [map app splice client_bytes]; [by rewrite app_nil_r_str|].
  by rewrite IH, Framing.concat_cons, app_assoc_str.
Qed.

(** When an established direct tunnel fails, the proxy's own status line is
    written into the tunnelled stream, after the bytes of the other side. *)
Theorem error_into_tunnel cfg net url head h port address chunks m :
  connect_target url = (h, port) -> permitted cfg h port -> h <> "" ->
  DIALER_SOCKET cfg = false -> UPSTREAM_ENV cfg = None -> pinned net h address -> valid_port port = true ->
  upstream net = Connected :: map Data chunks ++ [Failed m] ->
  client_bytes (onConnect cfg net url head) = OK_200 +:+ Framing.concat chunks +:+ BAD_GATEWAY_502.
Proof.
  intros Ht Hp Hh Hd Hu [Hr Hb] Hv Hev. rewrite (permitted_connect cfg net url head h port Ht Hp Hh).
  unfold UPSTREAM_PROXY_URL. rewrite Hd, Hu, Hr, Hb, Hv, Hev. cbn [connect_direct client_bytes].
  by rewrite splice_fails.
Qed.

(** ** Witnesses *)

Lemma isHostAllowed_spec_witness :
  isHostAllowed (loadAllowedHostPatterns (Some (Some ["network:host:db.corp:5432"]))) "db.corp" (of_Z 5432) = true /\
  isHostAllowed (loadAllowedHostPatterns (Some (Some ["network:host:*"]))) "db.corp" (of_Z 5432) =
  Hosts.isAllowed (Hosts.patternsFrom ["network:host:*"]) "db.corp" 5432.
Proof.
  split; [by vm_compute|]. refine (proj2 (isHostAllowed_spec ["network:host:*"] "db.corp" (of_Z 5432) 5432 _) _).
  - by vm_compute.
  - intros sc Hin. apply list_elem_of_singleton in Hin. discriminate.
Defined.

Lemma isBlockedAddress_networks_witness :
  isBlockedAddress (dotted 172 17 0 1) = true /\ isBlockedAddress (dotted 140 82 112 6) = false.
Proof.
  split; [|by vm_compute].
  apply (isBlockedAddress_networks 172 17 0 1); [split; lia..|].
  unfold blocked_networks. do 4 (apply Exists_cons; right). apply Exists_cons. left. by vm_compute.
Defined.

Definition web_app : Config :=
  {| POLICY := Some (Some (Policy.declaredCapabilities
       (Policy.compileCapabilityPolicy (of_Z 8080) "/app" [] "web" ["network:host:example.com"; "Bad"])));
     DIALER_SOCKET := false; UPSTREAM_ENV := None |}.


Lemma sanitizeForwardedHeaders_spec_witness :
  JsMap.get "Proxy-Authorization"
    (sanitizeForwardedHeaders [("host", "internal"); ("Proxy-Authorization", "Basic eA=="); ("accept", "a")] "example.com")
    = None.
Proof.
  refine (eq_trans (sanitizeForwardedHeaders_spec _ "example.com" "Proxy-Authorization" _) _); [|by vm_compute].
  repeat (apply NoDup_cons; split; [by vm_compute; set_solver|]). by apply NoDup_nil.
Defined.

Definition dialer_app : Config := {| POLICY := Some (Some ["network:host:*"]); DIALER_SOCKET := true; UPSTREAM_ENV := None |}.

Definition dialer_net : Net :=
  {| resolve4 := fun _ => Err ""; dialer := [Connected; Data "OK 93."; Data ("184.216.34" +:+ Framing.LF +:+ "hel"); Data "lo"];
     upstream := [] |}.

Lemma dialer_tunnel_transparent_witness :
  client_bytes (onConnect dialer_app dialer_net "example.com:443" "") = OK_200 +:+ "hello".
Proof.
  refine (proj1 (dialer_tunnel_transparent dialer_app dialer_net "example.com:443" "" "example.com"
    (or_number (Number "443") (of_Z 443)) eq_refl _ _
    ["OK 93."; "184.216.34" +:+ Framing.LF +:+ "hel"; "lo"] "OK 93.184.216.34" "hello" "93.184.216.34" eq_refl _ eq_refl
    eq_refl eq_refl _ eq_refl)).
  - split; by vm_compute.
  - done.
  - unfold literal_ok. by vm_compute.
  - cbn. lia.
Defined.

Definition proxy_app : Config :=
  {| POLICY := Some (Some ["network:host:*"]); DIALER_SOCKET := false;
     UPSTREAM_ENV := Some {| p_hostname := "proxy.example"; p_port := ""; p_auth := None |} |}.

Definition proxy_net : Net :=
  {| resolve4 := fun _ => Err ""; dialer := [];
     upstream := [Connected; Data "HTTP/1.1 200 OK"; Data (Framing.CRLF +:+ Framing.CRLF +:+ "hello")] |}.

Lemma proxy_tunnel_transparent_witness :
  client_bytes (onConnect proxy_app proxy_net "example.com:443" "") = OK_200 +:+ "hello".
Proof.
  refine (proj1 (proxy_tunnel_transparent proxy_app proxy_net "example.com:443" "" "example.com"
    (or_number (Number "443") (of_Z 443)) eq_refl _ _ {| p_hostname := "proxy.example"; p_port := ""; p_auth := None |}
    ["HTTP/1.1 200 OK"; Framing.CRLF +:+ Framing.CRLF +:+ "hello"] "HTTP/1.1 200 OK" "hello" eq_refl eq_refl eq_refl _)).
  - split; by vm_compute.
  - done.
  - by vm_compute.
Defined.

Lemma connect_answered_witness :
  Exists answer (onConnect github_app {| resolve4 := fun _ => Ok ["93.184.216.34"]; dialer := [Timer]; upstream := [Timer] |}
    "example.com:443" "").
Proof. apply (connect_answered _ _ _ _ [] []); [by apply list_elem_of_here|done|apply not_elem_of_nil]. Defined.

Lemma error_into_tunnel_witness :
  client_bytes (onConnect github_app (one_address "93.184.216.34" [Connected; Data "220 mail"; Failed "reset"])
                  "example.com:443" "") =
  OK_200 +:+ "220 mail" +:+ BAD_GATEWAY_502.
Proof.
  refine (error_into_tunnel github_app (one_address "93.184.216.34" [Connected; Data "220 mail"; Failed "reset"])
    "example.com:443" "" "example.com" (or_number (Number "443") (of_Z 443)) "93.184.216.34" ["220 mail"] "reset"
    eq_refl _ _ eq_refl eq_refl _ _ eq_refl); [split; by vm_compute|done|split; by vm_compute|by vm_compute].
Defined.

End Egress.
