(* ===== verification/GithubBroker.v ===== *)
(** * The GitHub API broker (packages/docker-orchestrator/docker/github-api-broker.cjs)

    It ends the TLS of connections to [api.github.com], works out from a
    request's method and path which [github:] capability it needs, and forwards
    it when a declared one covers that. The path is resolved first, and the
    resolved path is what is forwarded. *)
From S2P Require Import Prelude Glob Capability JsNumber Framing Egress.

Module GithubBroker.
Import Capability Egress.

(** ** [decodeURIComponent] *)

Definition hex_digit (c : ascii) : option N :=
  if JsNumber.is_hex c then Some (Z.to_N (JsNumber.hex_value c)) else None.

(** The code units of a text, the escaped bytes marked; [None] for a percent
    sign without two hexadecimal digits. *)
Fixpoint escapes (s : string) : option (list (bool * N)) :=
  match s with
  | EmptyString => Some []
  | String c s' =>
      if Ascii.eqb c "%" then
        match s' with
        | String a (String b rest) =>
            match hex_digit a, hex_digit b with
            | Some x, Some y => cons (true, (16 * x + y)%N) <$> escapes rest
            | _, _ => None
            end
        | _ => None
        end
      else cons (false, N.of_nat (Str.code c)) <$> escapes s'
  end.

Definition continuation (b : N) : bool := (128 <=? b)%N && (b <=? 191)%N.

(** Escaped bytes read as UTF-8; other code units stand for themselves. *)
Fixpoint code_points (ts : list (bool * N)) : option (list N) :=
  match ts with
  | [] => Some []
  | (false, c) :: r => cons c <$> code_points r
  | (true, b) :: r =>
      if (b <? 128)%N then cons b <$> code_points r
      else if (194 <=? b)%N && (b <=? 223)%N then
        match r with
        | (true, c1) :: r1 =>
            if continuation c1 then cons ((b - 192) * 64 + (c1 - 128))%N <$> code_points r1 else None
        | _ => None
        end
      else if (224 <=? b)%N && (b <=? 239)%N then
        match r with
        | (true, c1) :: (true, c2) :: r2 =>
            let v := ((b - 224) * 4096 + (c1 - 128) * 64 + (c2 - 128))%N in
            if continuation c1 && continuation c2 && (2048 <=? v)%N && negb ((55296 <=? v)%N && (v <=? 57343)%N)
            then cons v <$> code_points r2 else None
        | _ => None
        end
      else if (240 <=? b)%N && (b <=? 244)%N then
        match r with
        | (true, c1) :: (true, c2) :: (true, c3) :: r3 =>
            let v := ((b - 240) * 262144 + (c1 - 128) * 4096 + (c2 - 128) * 64 + (c3 - 128))%N in
            if continuation c1 && continuation c2 && continuation c3 && (65536 <=? v)%N && (v <=? 1114111)%N
            then cons v <$> code_points r3 else None
        | _ => None
        end
      else None
  end.

(** The code points of the result; [None] for a URIError. *)
Definition decodeURIComponent (s : string) : option (list N) := escapes s ≫= code_points.

(** ** Paths *)

Definition is_query_start (c : ascii) : bool := Ascii.eqb c "?" || Ascii.eqb c "#".

Record Normalized := { path : string; suffix : string }.

Definition separators (segment : list N) : bool := existsb (fun u => (u =? 47)%N || (u =? 92)%N) segment.

Fixpoint resolve_segments (segments : list string) (resolved : list string) : option (list string) :=
  match segments with
  | [] => Some resolved
  | rawSegment :: rest =>
      match decodeURIComponent rawSegment with
      | None => None
      | Some segment =>
          if separators segment then None
          else if bool_decide (segment = []) || bool_decide (segment = [46%N]) then resolve_segments rest resolved
          else if bool_decide (segment = [46%N; 46%N]) then
            match resolved with
            | [] => None
            | _ => resolve_segments rest (removelast resolved)
            end
          else resolve_segments rest (resolved ++ [rawSegment])
      end
  end.

Definition normalizeRequestPath (rawUrl : string) : option Normalized :=
  if negb (Str.starts_with "/" rawUrl) then None
  else
    let '(pathPart, suffix) := JsNumber.span (fun c => negb (is_query_start c)) rawUrl in
    match resolve_segments (Str.split "/" pathPart) [] with
    | Some resolved => Some {| path := "/" +:+ Str.join "/" resolved; suffix := suffix |}
    | None => None
    end.

(** ** Routes *)

(** One segment of a pattern: written out, or [[^/]+]. *)
Inductive part : Type := Lit (s : string) | Any.

(** [open]: the pattern ends in a slash or the end, not only the end. The scope
    is [prefix], followed by the last segment when the pattern captures it. *)
Record Route := { parts : list part; open : bool; prefix : string; captures : bool }.

Definition ROUTES : list Route :=
  [ {| parts := [Lit "repos"; Any; Any]; open := false; prefix := "repos"; captures := false |};
    {| parts := [Lit "repos"; Any; Any; Any]; open := true; prefix := ""; captures := true |};
    {| parts := [Lit "user"]; open := false; prefix := "user"; captures := false |};
    {| parts := [Lit "user"; Any]; open := true; prefix := "user:"; captures := true |};
    {| parts := [Lit "users"; Any]; open := false; prefix := "users"; captures := false |};
    {| parts := [Lit "users"; Any; Any]; open := true; prefix := "users:"; captures := true |};
    {| parts := [Lit "orgs"; Any]; open := false; prefix := "orgs"; captures := false |};
    {| parts := [Lit "orgs"; Any; Any]; open := true; prefix := "orgs:"; captures := true |};
    {| parts := [Lit "gists"]; open := true; prefix := "gists"; captures := false |};
    {| parts := [Lit "notifications"]; open := true; prefix := "notifications"; captures := false |};
    {| parts := [Lit "search"; Any]; open := false; prefix := "search:"; captures := true |} ].

Definition part_matches (p : part) (piece : string) : bool :=
  match p with Lit s => String.eqb s piece | Any => negb (String.eqb piece "") end.

(** The pieces matched, last first. *)
Fixpoint match_parts (ps : list part) (open : bool) (pieces matched : list string) : option (list string) :=
  match ps, pieces with
  | [], [] => Some matched
  | [], _ :: _ => if open then Some matched else None
  | _ :: _, [] => None
  | p :: ps', piece :: pieces' =>
      if part_matches p piece then match_parts ps' open pieces' (piece :: matched) else None
  end.

(** [path.match(pattern)], and the scope of the match. *)
Definition route_scope (path : string) (r : Route) : option string :=
  match Str.split "/" path with
  | EmptyString :: pieces =>
      match match_parts (parts r) (open r) pieces [] with
      | Some (last :: _) => Some (if captures r then prefix r +:+ last else prefix r)
      | _ => None
      end
  | _ => None
  end.

Fixpoint first_scope (path : string) (rs : list Route) : option string :=
  match rs with
  | [] => None
  | r :: rs' => match route_scope path r with Some sc => Some sc | None => first_scope path rs' end
  end.

Definition actionFor (method : string) : string :=
  if String.eqb method "GET" || String.eqb method "HEAD" then "read" else "write".

Record Routed := { requested : string; normalizedPath : string }.

Definition routeFor (method rawUrl : string) : option Routed :=
  match normalizeRequestPath rawUrl with
  | None => None
  | Some normalized =>
      match first_scope (path normalized) ROUTES with
      | Some sc => Some {| requested := "github:" +:+ actionFor method +:+ ":" +:+ sc;
                           normalizedPath := path normalized +:+ suffix normalized |}
      | None => None
      end
  end.

(** ** Capabilities *)

(** [matchesCapability]: [?] is not escaped here, so a granted scope can make
    the pattern no regular expression. *)
Definition matchesCapability (granted requested : string) : result Glob.regexp_error bool :=
  match Egress.parseCapability granted, Egress.parseCapability requested with
  | Some g, Some r =>
      if negb (String.eqb (namespace g) (namespace r)) || negb (String.eqb (action g) (action r)) then Ok false
      else match Glob.compile (scope g) with
           | Ok p => Ok (Glob.matches p (scope r))
           | Err e => Err e
           end
  | _, _ => Ok false
  end.

Definition loadGithubCapabilities (POLICY : Policy) : list string :=
  match POLICY with
  | None => []
  | Some declaredCapabilities =>
      List.filter (fun c => match Egress.parseCapability c with
                            | Some p => String.eqb (namespace p) "github"
                            | None => false
                            end) (or_default [] declaredCapabilities)
  end.

(** [GITHUB_CAPABILITIES.some(...)] *)
Fixpoint isAllowed (GITHUB_CAPABILITIES : list string) (requested : string) : result Glob.regexp_error bool :=
  match GITHUB_CAPABILITIES with
  | [] => Ok false
  | granted :: rest =>
      let? m := matchesCapability granted requested in
      if m then Ok true else isAllowed rest requested
  end.

(** ** Certificates

    [generateCerts] as the operations it makes, in order, on files with
    permission bits. A file that openssl writes gets the mode the platform gives
    it, a parameter; an existing file keeps its own. *)
Inductive fs_op : Type :=
| MkdirSync (dir : string) (mode : Z)
| ChmodSync (file : string) (mode : Z)
| Openssl (out : string)
| WriteFileSync (file content : string).

Definition GITHUB_API_HOST : string := "api.github.com".

Definition generateCerts (CERT_DIR : string) : list fs_op :=
  let file name := CERT_DIR +:+ "/" +:+ name in
  [ MkdirSync CERT_DIR 448; ChmodSync CERT_DIR 448;
    Openssl (file "ca.key"); Openssl (file "ca.crt"); Openssl (file "leaf.key"); Openssl (file "leaf.csr");
    WriteFileSync (file "leaf.ext") ("subjectAltName=DNS:" +:+ GITHUB_API_HOST +:+ Framing.LF);
    Openssl (file "leaf.crt");
    ChmodSync (file "ca.key") 384; ChmodSync (file "leaf.key") 384; ChmodSync (file "ca.crt") 420 ].

Section modes.
(** The mode of a file or directory that an operation creates. *)
Variable created : fs_op -> Z.

Definition run_op (modes : list (string * Z)) (op : fs_op) : list (string * Z) :=
  match op with
  | ChmodSync f mode => JsMap.put f mode modes
  | MkdirSync f _ | Openssl f | WriteFileSync f _ =>
      if JsMap.has f modes then modes else JsMap.put f (created op) modes
  end.

Definition run_ops (modes : list (string * Z)) (ops : list fs_op) : list (string * Z) := foldl run_op modes ops.
End modes.

(** ** The dialer's answer

    As in [Egress], except that only [OK] is read: any other line is a refusal. *)
Inductive answer : Type :=
| Socket (remaining : list socket_event)
| Refused
| NoAnswerYet.

Fixpoint dial_from (port : JsNumber.jsnum) (h buf : string) (evs : list socket_event) : list event * answer :=
  match evs with
  | [] => ([], NoAnswerYet)
  | Connected :: more => prod_map (cons (DialLine h port)) id (dial_from port h buf more)
  | Data chunk :: more =>
      let buf := buf +:+ chunk in
      match Framing.cut Framing.LF buf with
      | None => if (1024 <? String.length buf)%nat then ([], Refused) else dial_from port h buf more
      | Some (line, rest) =>
          ([], match ok_line line with Some _ => Socket (unshift rest more) | None => Refused end)
      end
  | Failed _ :: _ | Closed :: _ | Timer :: _ => ([], Refused)
  end.

Definition dialViaHost (h : string) (port : JsNumber.jsnum) (evs : list socket_event) : list event * answer :=
  dial_from port h "" evs.

(** ** Requests *)

Record Config := {
  GITHUB_CAPABILITIES : list string;
  UPSTREAM_CONNECT_HOST : string;
  UPSTREAM_CONNECT_PORT : JsNumber.jsnum;
  DIALER : bool
}.

Record Request := { method : string; url : string; headers : list (string * string) }.

(** What the broker does for one request. [Forwarded] is a request over a new
    TLS connection whose server name is [GITHUB_API_HOST]; [Crash] is an
    exception no handler catches, which ends the process. *)
Inductive outcome : Type :=
| NoRoute
| NotDeclared (requested : string)
| BadGateway
| Forwarded (f_method f_path : string) (f_headers : list (string * string)) (tunnel : bool)
| Waiting
| Crash (e : Glob.regexp_error).

Definition forward (req : Request) (normalizedPath : string) (tunnel : bool) : outcome :=
  Forwarded (method req) normalizedPath (JsObj.assign "host" GITHUB_API_HOST (headers req)) tunnel.

Definition handleRequest (cfg : Config) (dialer : list socket_event) (req : Request) : list event * outcome :=
  match routeFor (method req) (url req) with
  | None => ([], NoRoute)
  | Some route =>
      match isAllowed (GITHUB_CAPABILITIES cfg) (requested route) with
      | Err e => ([], Crash e)
      | Ok false => ([], NotDeclared (requested route))
      | Ok true =>
          if DIALER cfg then
            let '(asked, ans) := dialViaHost (UPSTREAM_CONNECT_HOST cfg) (UPSTREAM_CONNECT_PORT cfg) dialer in
            (asked, match ans with
                    | Socket _ => forward req (normalizedPath route) true
                    | Refused => BadGateway
                    | NoAnswerYet => Waiting
                    end)
          else ([], forward req (normalizedPath route) false)
      end
  end.

(** CONNECT: [true] when the client's TLS is ended here. *)
Definition onConnect (url : string) : bool :=
  match Str.split ":" url with
  | h :: _ => String.eqb h GITHUB_API_HOST
  | [] => false
  end.

(** ** Lemmas on paths *)

(** A segment that means itself: it decodes, to no separator and no dot segment. *)
Definition plain (segment : string) : Prop :=
  exists u, decodeURIComponent segment = Some u /\ separators u = false /\ u <> [] /\ u <> [46%N] /\ u <> [46%N; 46%N].

Definition path_char (c : ascii) : bool := negb (is_query_start c).
Definition segment_text (s : string) : Prop := Str.all path_char s = true /\ Str.any (Ascii.eqb "/") s = false.

Lemma plain_nonempty s : plain s -> s <> "".
Proof. intros (u & Hu & _ & Hne & _) ->. injection Hu as <-. done. Qed.

Lemma resolve_plain (P : string -> Prop) segments : forall resolved res,
  resolve_segments segments resolved = Some res ->
  Forall P segments -> Forall (fun s => P s /\ plain s) resolved -> Forall (fun s => P s /\ plain s) res.
Proof.
  induction segments as [|raw rest IH]; intros resolved res; cbn [resolve_segments].
  - by intros [= <-].
  - destruct (decodeURIComponent raw) as [u|] eqn:Eu; [|done]. destruct (separators u) eqn:Es; [done|].
    intros Hr [Hraw HP]%Forall_cons Hres.
    destruct (bool_decide (u = []) || bool_decide (u = [46%N])) eqn:E1; [by eapply IH|].
    apply orb_false_iff in E1 as [E1 E2]. apply bool_decide_eq_false in E1, E2.
    destruct (bool_decide (u = [46%N; 46%N])) eqn:E3.
    + destruct resolved as [|x resolved]; [done|]. eapply IH; [done|done|].
      apply Forall_forall. rewrite Forall_forall in Hres. intros y Hy. apply Hres. rewrite (app_removelast_last x (l := x :: resolved)) by done.
      apply elem_of_app. by left.
    + apply bool_decide_eq_false in E3. eapply IH; [done|done|]. apply Forall_app. split; [done|].
      apply Forall_cons. split; [|done]. split; [done|]. by exists u.
Qed.

Lemma resolve_id segments : Forall plain segments -> forall resolved,
  resolve_segments segments resolved = Some (resolved ++ segments).
Proof.
  induction 1 as [|raw rest (u & Hu & Hs & H1 & H2 & H3) Hrest IH]; intros resolved; cbn [resolve_segments].
  - by rewrite app_nil_r.
  - rewrite Hu, Hs, !bool_decide_eq_false_2 by done. cbn [orb]. rewrite IH. by rewrite <- app_assoc.
Qed.

Lemma span_spec p s a b : JsNumber.span p s = (a, b) ->
  s = a +:+ b /\ Str.all p a = true /\ (b = "" \/ exists c b', b = String c b' /\ p c = false).
Proof.
  revert a b; induction s as [|c s IH]; intros a b; cbn [JsNumber.span].
  - intros [= <- <-]. by split_and!; [..|left].
  - destruct (p c) eqn:Hc.
    + destruct (JsNumber.span p s) as [a' b']. intros [= <- <-]. destruct (IH a' b' eq_refl) as (-> & Ha & Hb).
      split_and!; [done| |done]. cbn. by rewrite Hc.
    + intros [= <- <-]. split_and!; [done|done|]. right. eauto.
Qed.

Lemma span_break p a b :
  Str.all p a = true -> b = "" \/ (exists c b', b = String c b' /\ p c = false) -> JsNumber.span p (a +:+ b) = (a, b).
Proof.
  intros Ha Hb. induction a as [|c a IH].
  - destruct Hb as [->|(c & b' & -> & Hc)]; [done|]. cbn. by rewrite Hc.
  - cbn in Ha. apply andb_true_iff in Ha as [Hc Ha]. rewrite app_cons_str. cbn [JsNumber.span]. by rewrite Hc, IH.
Qed.

Lemma pieces_text a : Str.all path_char a = true -> Forall segment_text (Str.split "/" a).
Proof.
  intros Ha. apply Forall_forall. intros w Hw. pose proof (StrFacts.split_pieces "/" a) as Hp.
  rewrite Forall_forall in Hp. split; [|by apply Hp]. clear Hp. revert w Hw.
  induction a as [|c a IH]; intros w; cbn [Str.split].
  - intros ->%list_elem_of_singleton. done.
  - cbn in Ha. apply andb_true_iff in Ha as [Hc Ha]. specialize (IH Ha). destruct (Ascii.eqb c "/").
    + intros [->|Hw]%elem_of_cons; [done|by apply IH].
    + destruct (Str.split "/" a) as [|w' ws] eqn:E.
      * intros ->%list_elem_of_singleton. cbn. by rewrite Hc.
      * intros [->|Hw]%elem_of_cons; [|apply IH; by right]. cbn. rewrite Hc. apply IH. by left.
Qed.

Lemma join_text segs : Forall segment_text segs -> Str.all path_char ("/" +:+ Str.join "/" segs) = true.
Proof.
  intros H. rewrite StrFacts.all_app. apply andb_true_iff. split; [done|].
  induction H as [|s segs [Hs _] Hsegs IH]; [done|]. destruct segs as [|s' segs]; [done|].
  change (Str.join "/" (s :: s' :: segs)) with (s +:+ "/" +:+ Str.join "/" (s' :: segs)).
  rewrite !StrFacts.all_app, Hs, IH. done.
Qed.

(** What a resolved path looks like. *)
Definition resolved_as (n : Normalized) (segs : list string) : Prop :=
  path n = "/" +:+ Str.join "/" segs /\ Forall plain segs /\ Forall segment_text segs /\
  (suffix n = "" \/ exists c t, suffix n = String c t /\ path_char c = false).

Lemma normalize_shape raw n : normalizeRequestPath raw = Some n -> exists segs, resolved_as n segs.
Proof.
  unfold normalizeRequestPath. destruct (negb _); [done|].
  destruct (JsNumber.span _ raw) as [a b] eqn:Es. apply span_spec in Es as (_ & Ha & Hb).
  destruct (resolve_segments _ _) as [segs|] eqn:Er; [|done]. intros [= <-]. exists segs.
  assert (Hall : Forall (fun s => segment_text s /\ plain s) segs)
    by (apply (resolve_plain _ _ _ _ Er); [by apply pieces_text|constructor]).
  split_and!; [done| | |done]; (eapply Forall_impl; [exact Hall|]); naive_solver.
Qed.

Lemma split_path segs : Forall segment_text segs -> segs <> [] ->
  Str.split "/" ("/" +:+ Str.join "/" segs) = "" :: segs.
Proof.
  intros Ht Hne. change ("/" +:+ Str.join "/" segs) with (String "/" (Str.join "/" segs)). cbn [Str.split].
  rewrite Ascii.eqb_refl. f_equal. change "/"%string with (String "/" ""). apply StrFacts.split_join; [done|].
  eapply Forall_impl; [exact Ht|]. by intros s [_ ?].
Qed.

Lemma normalize_of_shape n segs : resolved_as n segs -> normalizeRequestPath (path n +:+ suffix n) = Some n.
Proof.
  destruct n as [pa su]. unfold resolved_as. cbn [path suffix]. intros (-> & Hp & Ht & Hs).
  unfold normalizeRequestPath. rewrite app_assoc_str. change (Str.starts_with "/" ("/" +:+ ?x)) with true. cbn [negb].
  rewrite <- app_assoc_str, (span_break _ _ su) by (by apply join_text || done).
  assert (Hr : resolve_segments (Str.split "/" ("/" +:+ Str.join "/" segs)) [] = Some segs).
  { destruct (decide (segs = [])) as [->|Hne]; [by vm_compute|]. rewrite split_path by done.
    cbn [resolve_segments]. change (decodeURIComponent "") with (Some (@nil N)). cbn [separators existsb].
    rewrite bool_decide_eq_true_2 by done. cbn [orb]. by rewrite resolve_id. }
  by rewrite Hr.
Qed.

Lemma normalize_idem raw n : normalizeRequestPath raw = Some n -> normalizeRequestPath (path n +:+ suffix n) = Some n.
Proof. intros [segs H]%normalize_shape. by eapply normalize_of_shape. Qed.

Lemma routeFor_idem m raw r : routeFor m raw = Some r -> routeFor m (normalizedPath r) = Some r.
Proof.
  unfold routeFor. destruct (normalizeRequestPath raw) as [n|] eqn:En; [|done].
  destruct (first_scope (path n) ROUTES) as [sc|] eqn:Es; [|done]. intros [= <-]. cbn [normalizedPath].
  by rewrite (normalize_idem _ _ En), Es.
Qed.

Lemma isAllowed_true caps r : isAllowed caps r = Ok true -> exists g, g ∈ caps /\ matchesCapability g r = Ok true.
Proof.
  induction caps as [|g caps IH]; cbn [isAllowed]; [done|].
  destruct (matchesCapability g r) as [[]|] eqn:E; cbn [rbind]; [| |done].
  - intros _. exists g. split; [by left|done].
  - intros H. destruct (IH H) as (g' & Hg & Hm). exists g'. split; [by right|done].
Qed.

(** The request the broker decides on, and what it then forwards. *)
Lemma handleRequest_forwarded cfg d req evs m p hs t :
  handleRequest cfg d req = (evs, Forwarded m p hs t) ->
  exists r, routeFor (method req) (url req) = Some r /\ isAllowed (GITHUB_CAPABILITIES cfg) (requested r) = Ok true /\
    m = method req /\ p = normalizedPath r /\ hs = JsObj.assign "host" GITHUB_API_HOST (headers req).
Proof.
  unfold handleRequest, forward. destruct (routeFor _ _) as [r|]; [|done]. destruct (isAllowed _ _) as [[]|] eqn:Ea; [|done..].
  destruct (DIALER cfg); [destruct (dialViaHost _ _ _) as [? []]|]; try done; intros [= <- <- <- <- <-]; eauto 10.
Qed.

(** [C32] What is checked is what is sent. A forwarded request carries a path
    that the broker itself would resolve to the same path and route to the same
    capability, and a declared [github:] capability covers that one; the path
    has no segment that is empty, a dot segment or an encoded separator in any
    escaping; the Host is GitHub's whatever the client wrote. *)
Theorem forwarded_is_checked cfg d req evs m p hs t :
  handleRequest cfg d req = (evs, Forwarded m p hs t) ->
  (exists g r, g ∈ GITHUB_CAPABILITIES cfg /\ matchesCapability g r = Ok true /\
     routeFor m p = Some {| requested := r; normalizedPath := p |}) /\
  (exists n segs, normalizeRequestPath p = Some n /\ p = path n +:+ suffix n /\
     path n = "/" +:+ Str.join "/" segs /\ Forall plain segs) /\
  JsMap.get "host" hs = Some GITHUB_API_HOST.
Proof.
  intros (r & Hr & Ha & -> & -> & ->)%handleRequest_forwarded. split_and!.
  - apply isAllowed_true in Ha as (g & Hg & Hm). exists g, (requested r). split_and!; [done|done|].
    rewrite (routeFor_idem _ _ _ Hr). by destruct r.
  - unfold routeFor in Hr. destruct (normalizeRequestPath (url req)) as [n|] eqn:En; [|done].
    destruct (first_scope _ _) as [sc|]; [|done]. injection Hr as <-. cbn [normalizedPath].
    pose proof (normalize_shape _ _ En) as (segs & Hp & Hpl & _). exists n, segs.
    split_and!; [by eapply normalize_idem|done|done|done].
  - rewrite JsObj.get_assign by done. by rewrite decide_True.
Qed.

(** ** The route table *)

Lemma route_scope_pieces pa r sc :
  route_scope pa r = Some sc -> exists pieces, Str.split "/" pa = "" :: pieces /\ match_parts (parts r) (open r) pieces [] <> None.
Proof.
  unfold route_scope. destruct (Str.split "/" pa) as [|[|] pieces]; try done.
  destruct (match_parts _ _ _ _) as [[|]|] eqn:E; try done. intros _. exists pieces. by rewrite E.
Qed.

Lemma part_lit s piece : part_matches (Lit s) piece = true -> piece = s.
Proof. by intros H%String.eqb_eq. Qed.

(** Two routes that match the same pieces are one. *)
Lemma match_parts_disjoint pieces : forall r1 r2,
  r1 ∈ ROUTES -> r2 ∈ ROUTES ->
  match_parts (parts r1) (open r1) pieces [] <> None -> match_parts (parts r2) (open r2) pieces [] <> None -> r1 = r2.
Proof.
  assert (H : Forall (fun r1 => Forall (fun r2 =>
    match_parts (parts r1) (open r1) pieces [] <> None -> match_parts (parts r2) (open r2) pieces [] <> None -> r1 = r2)
    ROUTES) ROUTES).
  { unfold ROUTES. repeat (apply Forall_cons; split); try apply Forall_nil; cbn [parts open]; try done;
      (destruct pieces as [|p0 [|p1 [|p2 [|p3 rest]]]]; cbn [match_parts]; try done);
      repeat match goal with |- context [part_matches (Lit ?s) ?p] => destruct (part_matches (Lit s) p) eqn:? end;
      repeat match goal with H : part_matches (Lit _) _ = true |- _ => apply part_lit in H end;
      try done; try congruence;
      repeat match goal with |- context [part_matches Any ?p] => destruct (part_matches Any p) end; done. }
  intros r1 r2 H1 H2. rewrite Forall_forall in H. specialize (H r1 H1). rewrite Forall_forall in H. by apply H.
Qed.

(** At most one route matches a path, so the order of the table does not
    decide what a request needs. *)
Theorem routes_disjoint pa r1 r2 sc1 sc2 :
  r1 ∈ ROUTES -> r2 ∈ ROUTES -> route_scope pa r1 = Some sc1 -> route_scope pa r2 = Some sc2 -> r1 = r2 /\ sc1 = sc2.
Proof.
  intros H1 H2 Hs1 Hs2. destruct (route_scope_pieces _ _ _ Hs1) as (ps & E1 & M1).
  destruct (route_scope_pieces _ _ _ Hs2) as (ps' & E2 & M2). rewrite E1 in E2. injection E2 as <-.
  pose proof (match_parts_disjoint ps r1 r2 H1 H2 M1 M2) as ->. split; [done|congruence].
Qed.

(** ** Certificates *)

Lemma app_key_ne (dir a b : string) : a <> b -> dir +:+ a <> dir +:+ b.
Proof. intros H E. by apply app_inj_r_str in E. Qed.

(** Whatever was there before and whatever mode openssl gives a file, the
    certificate directory and the two private keys end private to their owner,
    the directory before any key exists in it, and only the CA certificate is
    readable by others. *)
Theorem generateCerts_modes created modes dir :
  let file name := dir +:+ "/" +:+ name in
  let final := run_ops created modes (generateCerts dir) in
  JsMap.get dir final = Some 448%Z /\ JsMap.get (file "ca.key") final = Some 384%Z /\
  JsMap.get (file "leaf.key") final = Some 384%Z /\ JsMap.get (file "ca.crt") final = Some 420%Z /\
  JsMap.get dir (run_ops created modes (take 2 (generateCerts dir))) = Some 448%Z.
Proof.
  cbv zeta. unfold run_ops, generateCerts. cbn [take foldl].
  assert (Hdir : forall n, dir <> dir +:+ "/" +:+ n).
  { intros n E. apply (f_equal String.length) in E. rewrite !length_app_str in E. cbn in E. lia. }
  assert (Hput : forall f mode ms k, JsMap.get k (run_op created ms (ChmodSync f mode)) = if decide (k = f) then Some mode else JsMap.get k ms)
    by (intros; apply JsMap.get_put).
  assert (Hother : forall op f ms k, k <> f -> (op = Openssl f \/ exists c, op = WriteFileSync f c) ->
    JsMap.get k (run_op created ms op) = JsMap.get k ms).
  { intros op f ms k Hk [->|[c ->]]; cbn [run_op]; destruct (JsMap.has f ms); try done; by apply JsMap.get_put_ne. }
  assert (Hname : forall a b, a <> b -> dir +:+ "/" +:+ a <> dir +:+ "/" +:+ b)
    by (intros a b H; by apply app_key_ne, app_key_ne).
  split_and!; rewrite !Hput; repeat first [rewrite decide_True by done; done|rewrite decide_False by auto];
    rewrite ?decide_True by done; try done.
  do 6 (erewrite Hother by (first [apply Hdir|left; reflexivity|right; eexists; reflexivity])).
  by rewrite Hput, decide_True.
Qed.

(** ** What the checks miss *)

(** A declared scope that starts with a question mark passes the manifest's
    grammar and is no regular expression: the first routed request that reaches
    it ends the broker, and with it every [github:] call of the container. *)
Theorem question_mark_crashes d :
  CapabilityString "github:read:?" = true /\
  loadGithubCapabilities (Some (Some ["github:read:?"; "github:read:repos"])) = ["github:read:?"; "github:read:repos"] /\
  handleRequest {| GITHUB_CAPABILITIES := ["github:read:?"; "github:read:repos"]; UPSTREAM_CONNECT_HOST := GITHUB_API_HOST;
                   UPSTREAM_CONNECT_PORT := JsNumber.of_Z 443; DIALER := false |} d
    {| method := "GET"; url := "/repos/o/r"; headers := [] |} = ([], Crash Glob.NothingToRepeat).
Proof. split_and!; by vm_compute. Qed.

(** ** Witnesses *)

Definition demo_config : Config :=
  {| GITHUB_CAPABILITIES := ["github:read:repos"; "github:read:issues"]; UPSTREAM_CONNECT_HOST := GITHUB_API_HOST;
     UPSTREAM_CONNECT_PORT := JsNumber.of_Z 443; DIALER := false |}.

Definition demo_request : Request := {| method := "GET"; url := "/repos/o/r/pulls/%2e%2e/issues?state=open"; headers := [] |}.

Lemma forwarded_is_checked_witness :
  handleRequest demo_config [] demo_request =
    ([], Forwarded "GET" "/repos/o/r/issues?state=open" [("host", GITHUB_API_HOST)] false) /\
  exists g r, g ∈ GITHUB_CAPABILITIES demo_config /\ matchesCapability g r = Ok true /\
    routeFor "GET" "/repos/o/r/issues?state=open" =
    Some {| requested := r; normalizedPath := "/repos/o/r/issues?state=open" |}.
Proof.
  assert (E : handleRequest demo_config [] demo_request =
    ([], Forwarded "GET" "/repos/o/r/issues?state=open" [("host", GITHUB_API_HOST)] false)) by (vm_compute; reflexivity).
  split; [exact E|]. exact (proj1 (forwarded_is_checked demo_config [] demo_request _ _ _ _ _ E)).
Defined.

Definition user_route : Route := {| parts := [Lit "user"; Any]; open := true; prefix := "user:"; captures := true |}.

Lemma routes_disjoint_witness :
  route_scope "/user/emails" user_route = Some "user:emails" /\ user_route = user_route.
Proof.
  assert (E : route_scope "/user/emails" user_route = Some "user:emails") by (vm_compute; reflexivity).
  assert (Hin : user_route ∈ ROUTES) by (unfold ROUTES, user_route; set_solver).
  split; [exact E|]. exact (proj1 (routes_disjoint "/user/emails" user_route user_route _ _ Hin Hin E E)).
Defined.

End GithubBroker.
