(* ===== verification/Tunnel.v ===== *)
(** * The database apps' tunnel through the egress proxy
      (apps/postgres/src/tunnel.ts and apps/mysql/src/tunnel.ts)

    A stream the database driver is given in place of a socket. It connects to
    the proxy, asks for a tunnel, and passes bytes once the proxy accepts. The
    two files differ in one thing: what a write before that does. *)
From S2P Require Import Prelude JsNumber Policy Url Framing Hosts Db Egress.

Module Tunnel.
Import JsNumber Db.

(** What happens to the stream: its socket's events, and the driver's calls. *)
Inductive event : Type :=
| SockConnected
| SockData (chunk : string)
| SockError (message : string)
| SockEnd
| SockClose
| Write (chunk : string)
| Final
| Destroy (error : option string)
| Ref
| Unref
| SetNoDelay (on : bool)
| SetKeepAlive (on : bool).

(** What the stream does. *)
Inductive effect : Type :=
| SendConnect (h : string) (port : Z)
| SockWrite (bytes : string)
| SockEnded
| SockDestroyed
| SockRef
| SockUnref
| SockNoDelay (on : bool)
| SockKeepAlive (on : bool)
| EmitConnect
| Push (bytes : string)
| PushEnd
| WriteFails
| Refused (h : string) (port : Z) (status : string)
| Destroyed (error : option string).

(** [inner]: whether [this.inner] is set. [gone]: whether the stream was
    destroyed. The [onHandshake] listener is attached while both are false. *)
Record Stream := {
  header : string;
  inner : bool;
  gone : bool;
  refed : bool;
  queued : list string
}.

Definition TERMINATOR : string := Framing.CRLF +:+ Framing.CRLF.

Definition is_word (c : ascii) : bool :=
  Str.is_digit c || Str.is_lower c || Str.is_upper c || Ascii.eqb c "_".

(** [/^HTTP\/1\.[01] 200\b/] *)
Definition accepted (status : string) : bool :=
  (Str.starts_with "HTTP/1.0 200" status || Str.starts_with "HTTP/1.1 200" status)
  && match Str.drop 12 status with String c _ => negb (is_word c) | EmptyString => true end.

Section stream.
(** The proxy asked to reach [h] at [port]; [queues] is true in apps/mysql. *)
Context (queues : bool) (h : string) (port : Z).

Definition new_stream : Stream := {| header := ""; inner := false; gone := false; refed := true; queued := [] |}.

Definition set_gone (s : Stream) : Stream :=
  {| header := header s; inner := inner s; gone := true; refed := refed s; queued := queued s |}.

Definition destroy (s : Stream) (error : option string) : Stream * list effect :=
  (set_gone s, (if inner s then [SockDestroyed] else []) ++ [Destroyed error]).

Definition onHandshake (s : Stream) (chunk : string) : Stream * list effect :=
  let header := header s +:+ chunk in
  match Framing.cut TERMINATOR header with
  | None => ({| header := header; inner := false; gone := false; refed := refed s; queued := queued s |}, [])
  | Some (head, rest) =>
      let status := Egress.first_line head in
      if negb (accepted status) then (set_gone s, [SockDestroyed; Refused h port status])
      else ({| header := header; inner := true; gone := false; refed := refed s; queued := [] |},
            (if refed s then [] else [SockUnref]) ++ map SockWrite (queued s)
            ++ EmitConnect :: (if String.eqb rest "" then [] else [Push rest]))
  end.

Definition set_ref (s : Stream) (b : bool) : Stream :=
  {| header := header s; inner := inner s; gone := gone s; refed := b; queued := queued s |}.

Definition step (s : Stream) (e : event) : Stream * list effect :=
  if gone s then (s, match e with Write _ => [WriteFails] | _ => [] end)
  else match e with
  | SockConnected => (s, [SendConnect h port])
  | SockData chunk => if inner s then (s, [Push chunk]) else onHandshake s chunk
  | SockError m => destroy s (Some m)
  | SockEnd => (s, if inner s then [PushEnd] else [])
  | SockClose => if inner s then destroy s None else (s, [])
  | Write chunk =>
      if inner s then (s, [SockWrite chunk])
      else if queues
      then ({| header := header s; inner := false; gone := false; refed := refed s; queued := queued s ++ [chunk] |}, [])
      else (s, [WriteFails])
  | Final => (s, if inner s then [SockEnded] else [])
  | Destroy error => destroy s error
  | Ref => (set_ref s true, if inner s then [SockRef] else [])
  | Unref => (set_ref s false, if inner s then [SockUnref] else [])
  | SetNoDelay b => (s, if inner s then [SockNoDelay b] else [])
  | SetKeepAlive b => (s, if inner s then [SockKeepAlive b] else [])
  end.

Fixpoint run (s : Stream) (evs : list event) : Stream * list effect :=
  match evs with
  | [] => (s, [])
  | e :: more => let '(s1, out1) := step s e in let '(s2, out2) := run s1 more in (s2, out1 ++ out2)
  end.
End stream.

(** ** What goes through *)

Fixpoint pushed (out : list effect) : string :=
  match out with [] => "" | Push b :: o => b +:+ pushed o | _ :: o => pushed o end.
Fixpoint written (out : list effect) : string :=
  match out with [] => "" | SockWrite b :: o => b +:+ written o | _ :: o => written o end.
Fixpoint received (evs : list event) : string :=
  match evs with [] => "" | SockData b :: o => b +:+ received o | _ :: o => received o end.
Fixpoint sent (evs : list event) : string :=
  match evs with [] => "" | Write b :: o => b +:+ sent o | _ :: o => sent o end.

(** An event of a connection that stays up. *)
Definition calm (e : event) : bool :=
  match e with SockError _ | SockEnd | SockClose | Destroy _ | Final => false | _ => true end.

Lemma pushed_app a b : pushed (a ++ b) = pushed a +:+ pushed b.
Proof. induction a as [|[] a IH]; cbn [pushed app]; try done. by rewrite IH, app_assoc_str. Qed.

Lemma written_app a b : written (a ++ b) = written a +:+ written b.
Proof. induction a as [|[] a IH]; cbn [written app]; try done. by rewrite IH, app_assoc_str. Qed.

Lemma written_queue q : written (map SockWrite q) = Framing.concat q.
Proof. induction q as [|c q IH]; [done|]. cbn [map written]. by rewrite IH. Qed.

Lemma pushed_queue q : pushed (map SockWrite q) = "".
Proof. by induction q. Qed.

Section transparency.
Context (h : string) (port : Z).

Lemma run_inner queues evs : forall s,
  inner s = true -> gone s = false -> forallb calm evs = true ->
  pushed (run queues h port s evs).2 = received evs /\ written (run queues h port s evs).2 = sent evs.
Proof.
  induction evs as [|e evs IH]; intros s Hi Hg Hc; [done|]. cbn [forallb] in Hc. apply andb_true_iff in Hc as [He Hc].
  cbn [run]. unfold step. rewrite Hg, Hi.
  destruct e; try done;
    (match goal with |- context [run _ _ _ ?s1 evs] => specialize (IH s1) end);
    destruct (run _ _ _ _ evs) as [s2 out2]; cbn [snd] in *;
    destruct IH as [IH1 IH2]; try done; cbn [app pushed written received sent]; by rewrite IH1, IH2.
Qed.

Lemma run_gone queues evs : forall s, gone s = true ->
  pushed (run queues h port s evs).2 = "" /\ written (run queues h port s evs).2 = "".
Proof.
  induction evs as [|e evs IH]; intros s Hg; [done|]. cbn [run]. unfold step. rewrite Hg.
  destruct (IH s Hg) as [IH1 IH2]. destruct (run _ _ _ s evs) as [s2 out2]. cbn [snd] in *. by destruct e.
Qed.

(** The handshake, from any point of it. *)
Definition handshaking (s : Stream) : Prop := inner s = false /\ gone s = false /\ Framing.cut TERMINATOR (header s) = None.

Lemma run_accepted queues evs : forall s head payload,
  handshaking s -> forallb calm evs = true ->
  Framing.cut TERMINATOR (header s +:+ received evs) = Some (head, payload) ->
  accepted (Egress.first_line head) = true ->
  pushed (run queues h port s evs).2 = payload /\
  (queues = true -> written (run queues h port s evs).2 = Framing.concat (queued s) +:+ sent evs).
Proof.
  induction evs as [|e evs IH]; intros s head payload (Hi & Hg & Hh) Hc Hcut Hacc.
  { cbn [received] in Hcut. rewrite app_nil_r_str in Hcut. congruence. }
  cbn [forallb] in Hc. apply andb_true_iff in Hc as [He Hc]. cbn [run]. unfold step. rewrite Hg, Hi.
  destruct e as [|chunk| | | |chunk| | | | | |]; try done; cbn [received sent] in *.
  2:{ unfold onHandshake. rewrite <- app_assoc_str in Hcut.
    destruct (Framing.cut TERMINATOR (header s +:+ chunk)) as [[hd rest]|] eqn:E.
    - pose proof (Framing.cut_app _ _ (received evs) _ _ E) as E'. rewrite Hcut in E'. injection E' as <- ->.
      rewrite Hacc. cbn [negb].
      match goal with |- context [run _ _ _ ?s1 evs] => destruct (run_inner queues evs s1) as [H1 H2]; [done|done|done|] end.
      destruct (run _ _ _ _ evs) as [s2 out2]. cbn [snd] in *.
      rewrite !pushed_app, !written_app, pushed_queue, written_queue.
      destruct (refed s), (String.eqb_spec rest "") as [->|]; cbn [pushed written app];
        rewrite H1, H2, ?app_nil_r_str, ?app_empty_str; done.
    - specialize (IH {| header := header s +:+ chunk; inner := false; gone := false; refed := refed s; queued := queued s |}).
      destruct (run _ _ _ _ evs) as [s2 out2]. cbn [snd header queued app] in *. by apply (IH head payload). }
  all: cycle 1.
  { destruct queues.
    - specialize (IH {| header := header s; inner := false; gone := false; refed := refed s; queued := queued s ++ [chunk] |}).
      destruct (run _ _ _ _ evs) as [s2 out2]. cbn [snd header queued app] in *.
      destruct (IH head payload) as [H1 H2]; [done|done|done|done|]. split; [done|]. intros _. rewrite H2 by done.
      rewrite Framing.concat_app. cbn. by rewrite app_nil_r_str, app_assoc_str.
    - specialize (IH s). destruct (run _ _ _ s evs) as [s2 out2]. cbn [snd] in *.
      by destruct (IH head payload) as [H1 _]. }
  all: (match goal with |- context [run _ _ _ ?s1 _] => specialize (IH s1) end);
    destruct (run _ _ _ _ _) as [s2 out2]; cbn [snd] in *; by apply (IH head payload).
Qed.


(** A refusal, or no complete answer yet: nothing passes either way. *)
Lemma run_refused queues evs : forall s,
  handshaking s ->
  match Framing.cut TERMINATOR (header s +:+ received evs) with
  | Some (head, _) => accepted (Egress.first_line head) = false
  | None => True
  end ->
  pushed (run queues h port s evs).2 = "" /\ written (run queues h port s evs).2 = "".
Proof.
  induction evs as [|e evs IH]; intros s (Hi & Hg & Hh) Hcut; [done|]. cbn [run]. unfold step, destroy. rewrite Hg, Hi.
  destruct e as [|chunk| | | |chunk| | | | | |]; cbn [received] in *;
    try (specialize (IH s (conj Hi (conj Hg Hh)) Hcut); by destruct (run _ _ _ s evs));
    try (destruct (run_gone queues evs (set_gone s) eq_refl) as [H1 H2]; by destruct (run _ _ _ _ evs));
    try (match goal with |- context [set_ref s ?b] => specialize (IH (set_ref s b) (conj Hi (conj Hg Hh)) Hcut) end;
         by destruct (run _ _ _ _ evs)).
  - unfold onHandshake. rewrite <- app_assoc_str in Hcut.
    destruct (Framing.cut TERMINATOR (header s +:+ chunk)) as [[hd rest]|] eqn:E.
    + pose proof (Framing.cut_app _ _ (received evs) _ _ E) as E'. rewrite E' in Hcut. rewrite Hcut. cbn [negb].
      destruct (run_gone queues evs (set_gone s) eq_refl) as [H1 H2]. by destruct (run _ _ _ _ evs).
    + specialize (IH {| header := header s +:+ chunk; inner := false; gone := false; refed := refed s; queued := queued s |}).
      cbn [header] in IH. specialize (IH (conj eq_refl (conj eq_refl E)) Hcut). by destruct (run _ _ _ _ evs).
  - destruct queues; [|specialize (IH s (conj Hi (conj Hg Hh)) Hcut); by destruct (run _ _ _ s evs)].
    specialize (IH {| header := header s; inner := false; gone := false; refed := refed s; queued := queued s ++ [chunk] |}
      (conj eq_refl (conj eq_refl Hh)) Hcut). by destruct (run _ _ _ _ evs).
Qed.

Lemma new_handshaking : handshaking new_stream.
Proof. done. Qed.

(** The driver sees a plain socket. Once the proxy accepts, what the driver
    reads is every byte after the proxy's answer, and (in apps/mysql) what the
    proxy is sent is everything the driver wrote, in order, the writes made
    before the answer included, however the bytes arrive and whatever is
    interleaved; and until it accepts, or when it refuses, nothing passes either
    way. *)
Theorem tunnel_spec evs queues :
  match Framing.cut TERMINATOR (received evs) with
  | Some (head, payload) =>
      if accepted (Egress.first_line head) then
        forallb calm evs = true ->
        pushed (run queues h port new_stream evs).2 = payload /\
        (queues = true -> written (run queues h port new_stream evs).2 = sent evs)
      else pushed (run queues h port new_stream evs).2 = "" /\ written (run queues h port new_stream evs).2 = ""
  | None => pushed (run queues h port new_stream evs).2 = "" /\ written (run queues h port new_stream evs).2 = ""
  end.
Proof.
  pose proof (run_refused queues evs new_stream new_handshaking) as Hr.
  destruct (Framing.cut TERMINATOR (received evs)) as [[head payload]|] eqn:E.
  - destruct (accepted (Egress.first_line head)) eqn:Ea.
    + intros Hc. by apply (run_accepted queues evs new_stream head payload).
    + apply Hr. cbn [header new_stream]. rewrite app_empty_str, E. done.
  - apply Hr. cbn [header new_stream]. by rewrite app_empty_str, E.
Qed.

End transparency.

(** ** From the route to the server's bytes *)

Lemma connect_target_of h p :
  Str.any (Ascii.eqb ":") h = false -> (0 < p < 65536)%Z ->
  exists port, Egress.connect_target (h +:+ ":" +:+ to_string p) = (h, port) /\ to_integer port = Some p.
Proof.
  intros Hh Hp. unfold Egress.connect_target. change (h +:+ ":" +:+ to_string p) with (h +:+ String ":" (to_string p)).
  rewrite StrFacts.split_app by done.
  assert (Hc : Str.any (Ascii.eqb ":") (to_string p) = false).
  { apply Hosts.digits_no_colon. destruct (to_string_spec p) as (Hn & Hall & _); [lia|].
    unfold Hosts.digits. rewrite Hall, andb_true_r. by apply negb_true_iff, String.eqb_neq. }
  rewrite StrFacts.split_single by done. pose proof (Number_to_string p ltac:(lia)) as Hn.
  exists (Number (to_string p)). split; [|done]. unfold Egress.or_number.
  destruct (Number (to_string p)) as [|b|m e] eqn:En; [done|done|].
  pose proof (to_integer_sign m e p Hn) as [Hz _]. cbn [falsy].
  destruct (Z.eqb_spec m 0) as [->|]; [|done]. assert (p = 0)%Z by tauto. lia.
Qed.

Lemma accepted_200 payload :
  Framing.cut TERMINATOR (Egress.OK_200 +:+ payload) = Some ("HTTP/1.1 200 Connection Established", payload).
Proof.
  unfold Egress.OK_200, TERMINATOR, Framing.CRLF. rewrite !app_assoc_str.
  exact (Framing.cut_first "013" (String "010" (String "013" (String "010" ""))) "HTTP/1.1 200 Connection Established"
    payload eq_refl).
Qed.

(** End to end, through four components: when [routeFor] sends a database
    app through the proxy, the broker that reads the same capabilities lets its
    CONNECT through (unless a dedicated broker owns the host), and the driver
    reads exactly the bytes the server sent. *)
Theorem proxy_route_works `{UrlParser} target caps text u cfg net address chunks evs queues :
  routeFor target caps (Some text) = Ok (Db.Proxy u) ->
  Str.any (Ascii.eqb ":") (t_host target) = false -> t_host target <> "" -> (0 < t_port target < 65536)%Z ->
  Egress.POLICY cfg = Some (Some caps) -> Egress.DIALER_SOCKET cfg = false -> Egress.UPSTREAM_ENV cfg = None ->
  Egress.dedicated cfg (t_host target) = false -> Egress.pinned net (t_host target) address ->
  Egress.upstream net = Egress.Connected :: map Egress.Data chunks ->
  forallb calm evs = true ->
  received evs = Egress.client_bytes (Egress.onConnect cfg net (t_host target +:+ ":" +:+ to_string (t_port target)) "") ->
  pushed (run queues (t_host target) (t_port target) new_stream evs).2 = Framing.concat chunks.
Proof.
  intros Hroute Hcolon Hh Hp Hpol Hd Hu Hded [Hres Hblk] Hup Hcalm Hrecv.
  destruct (connect_target_of _ _ Hcolon Hp) as (port & Ht & Hport).
  assert (Hperm : Egress.permitted cfg (t_host target) port).
  { split; [done|]. unfold Egress.allowed. rewrite Hpol. rewrite routeFor_cases in Hroute.
    destruct (negb (String.eqb text "") && by_proxy target caps) eqn:Eb.
    - apply andb_true_iff in Eb as [_ [_ Ha]%andb_true_iff]. apply Hosts.isAllowed_iff in Ha as (sc & Hc & Hs).
      apply (Egress.isHostAllowed_iff _ _ _ (t_port target)); [done|].
      exists (Hosts.prefix +:+ sc), sc. split_and!; [done|by right|done].
    - destruct (routeFor_None target caps) as [H1 H2].
      destruct (decide (bool_decide ("*" ∈ directPorts caps)
        || bool_decide (JsNumber.to_string (t_port target) ∈ directPorts caps) = true)) as [Hb|Hb];
        rewrite by_port_direct in Hb; [by rewrite H1 in Hroute|by rewrite (H2 Hb) in Hroute]. }
  assert (Hbytes : received evs = Egress.OK_200 +:+ Framing.concat chunks).
  { rewrite Hrecv, (Egress.permitted_connect cfg net _ "" _ _ Ht Hperm Hh). unfold Egress.UPSTREAM_PROXY_URL.
    rewrite Hd, Hu, Hres, Hblk, Hup. unfold Egress.valid_port. rewrite Hport.
    assert (((0 <=? t_port target) && (t_port target <? 65536))%Z = true) as -> by lia.
    cbn [Egress.connect_direct Egress.client_bytes].
    by destruct (Egress.splice_data (Egress.EndClient Egress.BAD_GATEWAY_502) chunks) as [-> _]. }
  apply (run_accepted (t_host target) (t_port target) queues evs new_stream "HTTP/1.1 200 Connection Established"
    (Framing.concat chunks) new_handshaking Hcalm); [|done].
  cbn [header new_stream]. by rewrite app_empty_str, Hbytes, accepted_200.
Qed.

(** ** What the texts promise and the code does not *)

(** [ref] and [unref] are remembered until the socket exists; [setNoDelay]
    and [setKeepAlive], which the comment covers too, are forgotten. *)
Theorem early_socket_options queues h port b :
  let opened := [SockConnected; SockData Egress.OK_200] in
  SockUnref ∈ (run queues h port new_stream (Unref :: opened)).2 /\
  (run queues h port new_stream (SetNoDelay b :: SetKeepAlive b :: opened)).2 = (run queues h port new_stream opened).2 /\
  SockNoDelay b ∈ (run queues h port new_stream (opened ++ [SetNoDelay b])).2.
Proof.
  split_and!; destruct queues, b; vm_compute; repeat (first [by left|apply list_elem_of_here|apply list_elem_of_further]); done.
Qed.

Lemma byte_digits x : Egress.byte x -> Hosts.digits (to_string x) = true.
Proof.
  intros [Hx _]. destruct (to_string_spec x Hx) as (Hn & Hall & Hv).
  unfold Hosts.digits. rewrite Hall, andb_true_r. by apply negb_true_iff, String.eqb_neq.
Qed.

Lemma dotted_split a b c d :
  Egress.byte a -> Egress.byte b -> Egress.byte c -> Egress.byte d ->
  Str.split "." (Egress.dotted a b c d) = map to_string [a; b; c; d].
Proof.
  intros. unfold Egress.dotted. change "."%string with (String "." ""). apply StrFacts.split_join; [done|].
  cbn [map]. repeat constructor; by apply Egress.to_string_no_dot.
Qed.

(** [isInternal] is shorter than the proxy's own list: a route through the
    proxy to a multicast or reserved address is chosen and then always refused,
    although the comment says these are the addresses the proxy never tunnels
    to. *)
Theorem internal_lists_differ a b c d :
  (224 <= a < 256)%Z -> Egress.byte b -> Egress.byte c -> Egress.byte d ->
  Hosts.isInternal (Egress.dotted a b c d) = false /\ Egress.isBlockedAddress (Egress.dotted a b c d) = true.
Proof.
  intros Ha Hb Hc Hd. assert (Hba : Egress.byte a) by (unfold Egress.byte; lia). split.
  - unfold Hosts.isInternal, Hosts.dotted_quad. rewrite dotted_split by done. cbn [map].
    assert (Hname : forall name, length (Str.split "." name) <> 4%nat -> String.eqb (Egress.dotted a b c d) name = false).
    { intros name Hn. apply String.eqb_neq. intros <-. apply Hn. by rewrite dotted_split. }
    rewrite !Hname by done. cbn [orb forallb]. rewrite !byte_digits by done. cbn [andb].
    destruct (to_string_spec a) as (_ & _ & ->); [lia|]. destruct (to_string_spec b) as (_ & _ & ->); [destruct Hb; lia|].
    lia.
  - apply Egress.blocked_cases; try done. lia.
Qed.


(** ** Witnesses *)

#[local] Instance demo_parser : UrlParser := {
  new_URL s := if String.eqb s "http://127.0.0.1:8090" then Some {|
    protocol := "http:"; username := ""; password := ""; hostname := "127.0.0.1"; u_host := "127.0.0.1:8090";
    u_port := Some 8090%Z; pathname := "/"; u_search := ""; searchParams := []; href := s |} else None;
  new_URL_base _ _ := None
}.

Definition db_caps : list string := ["network:host:db.example:5432"].
Definition db_target : Target := {| t_host := "db.example"; t_port := 5432; t_database := "d"; t_user := "u" |}.
Definition db_cfg : Egress.Config :=
  {| Egress.POLICY := Some (Some db_caps); Egress.DIALER_SOCKET := false; Egress.UPSTREAM_ENV := None |}.
Definition db_net : Egress.Net := Egress.one_address "93.184.216.34" [Egress.Connected; Egress.Data "N"; Egress.Data "R1"].
Definition db_events : list event :=
  [SockConnected; Write "startup"; SockData "HTTP/1.1 200 Connection Est";
   SockData ("ablished" +:+ Framing.CRLF +:+ Framing.CRLF +:+ "N"); SockData "R1"].

Lemma proxy_route_works_witness :
  pushed (run true "db.example" 5432 new_stream db_events).2 = "NR1".
Proof.
  refine (proxy_route_works db_target db_caps "http://127.0.0.1:8090" _ db_cfg db_net "93.184.216.34" ["N"; "R1"] db_events
    true _ eq_refl _ _ eq_refl eq_refl eq_refl eq_refl _ eq_refl eq_refl _).
  - vm_compute. reflexivity.
  - done.
  - cbn. lia.
  - split; by vm_compute.
  - by vm_compute.
Defined.

Lemma internal_lists_differ_witness :
  Hosts.isInternal (Egress.dotted 240 0 0 1) = false /\ Egress.isBlockedAddress (Egress.dotted 240 0 0 1) = true.
Proof. apply (internal_lists_differ 240 0 0 1); unfold Egress.byte; lia. Defined.

End Tunnel.
