(* ===== verification/Postgres.v ===== *)
(** * The postgres app (apps/postgres/src/index.ts)

    Statements run one per call on a pooled connection, in read-only mode inside
    a read-only transaction, their rows read through a cursor in batches and
    capped. The driver (pg, pg-cursor) is a parameter: what it answers is a
    function of the state of its connection. *)
From S2P Require Import Prelude JsNumber Json JsonParse Url Hosts Db Tunnel.

Module Postgres.
Import Json Db.

Definition FETCH_ROWS : nat := 50.
Definition STATEMENT_TIMEOUT_MS : Z := 30000%Z.

(** ** The connection string *)

Inductive target_error : Type := NotAUrl | WrongProtocol (p : string) | MalformedEscape.

Section target.
Context `{UrlParser}.
(** [decodeURIComponent], [None] for a URIError. *)
Variable decodeURIComponent : string -> option string.

Definition or_string (x d : string) : string := if String.eqb x "" then d else x.

Definition targetOf (connectionString : string) : result target_error Target :=
  match new_URL connectionString with
  | None => Err NotAUrl
  | Some url =>
      if negb (String.eqb (protocol url) "postgres:") && negb (String.eqb (protocol url) "postgresql:")
      then Err (WrongProtocol (protocol url))
      else
        match decodeURIComponent (username url), decodeURIComponent (Str.drop 1 (pathname url)) with
        | Some user, Some database =>
            Ok {| t_host := hostname url;
                  t_port := match u_port url with Some 0%Z | None => 5432%Z | Some p => p end;
                  t_database := or_string database user; t_user := user |}
        | _, _ => Err MalformedEscape
        end
  end.

(** [params.get] and [params.has]. *)
Definition param_get (params : list (string * string)) (k : string) : option string := JsMap.get k params.
Definition param_has (params : list (string * string)) (k : string) : bool := bool_decide (is_Some (param_get params k)).

Definition usesTls (params : list (string * string)) : bool :=
  let ssl := param_get params "ssl" in
  let mode := param_get params "sslmode" in
  if bool_decide (mode = Some "disable") then false
  else bool_decide (ssl = Some "true") || bool_decide (ssl = Some "1") || bool_decide (is_Some mode)
       || param_has params "sslcert" || param_has params "sslkey" || param_has params "sslrootcert".
End target.

Definition modeFrom (POSTGRES_MODE : option string) : Mode :=
  if bool_decide (POSTGRES_MODE = Some "read-write") then ReadWrite else ReadOnly.

Definition allowsPrivileged (POSTGRES_ALLOW_PRIVILEGED : option string) : bool :=
  bool_decide (POSTGRES_ALLOW_PRIVILEGED = Some "true").

(** ** Privileges *)

Record Privileges := {
  superuser : bool;
  execute_server_program : bool;
  write_server_files : bool;
  read_server_files : bool
}.

Inductive problem : Type := Superuser | ServerProgram | WriteFiles | ReadFiles.

Definition privilegeProblem (row : Privileges) : option problem :=
  let what :=
    if superuser row then Some Superuser
    else if execute_server_program row then Some ServerProgram
    else if write_server_files row then Some WriteFiles else None in
  match what with
  | Some p => Some p
  | None => if read_server_files row then Some ReadFiles else None
  end.

(** ** Type parsers *)

Definition AS_TEXT : list Z := [1082; 1114; 1184]%Z.
Definition AS_TEXT_ARRAY : list Z := [1182; 1115; 1185]%Z.
Definition TEXT_ARRAY : Z := 1009%Z.

Definition getTypeParser (builtin : Z -> option string -> string -> dbval) (oid : Z) (format : option string)
    : string -> dbval :=
  if bool_decide (oid ∈ AS_TEXT) then DStr
  else if bool_decide (oid ∈ AS_TEXT_ARRAY) then builtin TEXT_ARRAY format
  else builtin oid format.

(** ** Values and rows: the shared definitions, with this app's prefix *)

Definition hex_prefix : string := String "092" "x".
Definition hex : string -> string := Db.hex hex_prefix.
Definition plain : dbval -> option json := Db.plain hex_prefix.
Definition cell : dbval -> option json := Db.cell hex_prefix.
Definition add : list (string * dbval) -> Collector -> option (bool * Collector) := Db.add hex_prefix.
Definition shapeRows : list (list (string * dbval)) -> nat -> option (list (list (string * json)) * bool) :=
  Db.shapeRows hex_prefix.

(** The stream given to the driver for a connection through the proxy: a write
    made before the tunnel is open fails. *)
Definition tunnel : string -> Z -> Tunnel.Stream -> Tunnel.event -> Tunnel.Stream * list Tunnel.effect :=
  Tunnel.step false.

Record Rows := {
  columns : list string;
  r_rows : list (list (string * json));
  rowCount : Z;
  r_truncated : bool
}.

(** ** Errors *)

(** An error of the driver or the server; [code] is the SQLSTATE. *)
Record pg_error := { message : option string; code : option string }.

Inductive error : Type :=
| Driver (e : pg_error)
| CopyIn
| CopyOut
| InvalidValue
| Lost (cause : error)
| ReadOnlyMode (message : option string)
| MultipleStatements
| SqlEmpty
| BadTableName (table : string)
| NoSuchTable (table : string)
| NotOnSearchPath (table : string) (schemas : list string)
| OutOfFuel.

Inductive copy_direction : Type := In | Out.

(** The last batch's result: the names of its fields and the server's count. *)
Record QueryResult := { fields : list string; q_rowCount : option Z }.

(** ** The driver *)

Class Driver_ (S : Type) := {
  query : string -> S -> option pg_error * S;
  (** [client.query(new RowCursor(sql, params))]. *)
  submit : string -> list json -> S -> S;
  read : nat -> S -> result pg_error (list (list (string * dbval)) * QueryResult) * S;
  close : S -> option pg_error * S;
  (** The COPY the cursor met, and the error event heard during the call. *)
  copy : S -> option copy_direction;
  lost : S -> option pg_error
}.

Section session.
Context {S : Type} `{Driver_ S}.

(** [out.add] on every row of a batch, until one is refused. *)
Definition add_every : list (list (string * dbval)) -> Collector -> option (bool * Collector) := Db.add_every hex_prefix.

(** The loop of [collect]; also how many rows each batch asked for. *)
Fixpoint fetch (fuel : nat) (max : nat) (out : Collector) (result : QueryResult) (s : S)
    : list nat * (Collector * QueryResult + error) * S :=
  match fuel with
  | O => ([], inr OutOfFuel, s)
  | Datatypes.S fuel' =>
      let want := Nat.min FETCH_ROWS (max + 1 - length (rows out)) in
      let '(answer, s1) := read want s in
      match answer with
      | Err e => ([want], inr (Driver e), s1)
      | Ok (batch, result') =>
          match add_every batch out with
          | None => ([want], inr InvalidValue, s1)
          | Some (every, out') =>
              if negb every || (length batch <? want) then ([want], inl (out', result'), s1)
              else let '(wants, r, s2) := fetch fuel' max out' result' s1 in (want :: wants, r, s2)
          end
      end
  end.

Definition no_result : QueryResult := {| fields := []; q_rowCount := None |}.

(** An error of the [try] block, with a COPY FROM named. *)
Definition named (s : S) (e : error) : error :=
  match copy s with Some In => CopyIn | _ => e end.

Definition collect (fuel : nat) (sql : string) (params : list json) (max : nat) (s : S)
    : list nat * result error Rows * S :=
  let '(wants, r, s1) := fetch fuel max (new_collector max) no_result (submit sql params s) in
  match r with
  | inr e => (wants, Err (named s1 e), s1)
  | inl (out, result) =>
      let '(closed, s2) := close s1 in
      match closed with
      | Some e => (wants, Err (named s2 (Driver e)), s2)
      | None =>
          match copy s2 with
          | Some Out => (wants, Err CopyOut, s2)
          | _ =>
              (wants, Ok {| columns := fields result; r_rows := rows out;
                            rowCount := if (0 <? length (fields result)) then Z.of_nat (length (rows out))
                                        else or_default 0%Z (q_rowCount result);
                            r_truncated := truncated out |}, s2)
          end
      end
  end.

(** ** One call *)

(** What a call does to its connection, in order. *)
Inductive action : Type :=
| Queried (sql : string) (ok : bool)
| Submitted (sql : string)
| Released (destroyed : bool).

Definition SET_TIMEOUT : string := "SET statement_timeout = " +:+ JsNumber.to_string STATEMENT_TIMEOUT_MS.
Definition BEGIN_READ_ONLY : string := "BEGIN READ ONLY".

Definition is_none {A} (o : option A) : bool := match o with None => true | Some _ => false end.

Definition putBack (s : S) : list action * S :=
  match lost s with
  | Some _ => ([Released true], s)
  | None =>
      let '(e1, s1) := query "ROLLBACK" s in
      match e1 with
      | Some _ => ([Queried "ROLLBACK" false; Released true], s1)
      | None =>
          let '(e2, s2) := query "DISCARD ALL" s1 in
          match e2 with
          | Some _ => ([Queried "ROLLBACK" true; Queried "DISCARD ALL" false; Released true], s2)
          | None => ([Queried "ROLLBACK" true; Queried "DISCARD ALL" true; Released false], s2)
          end
      end
  end.

(** The [try] block of [run]. *)
Definition attempt (mode : Mode) (fuel : nat) (sql : string) (params : list json) (max : nat) (s : S)
    : list action * result error Rows * S :=
  let '(e1, s1) := query SET_TIMEOUT s in
  match e1 with
  | Some e => ([Queried SET_TIMEOUT false], Err (Driver e), s1)
  | None =>
      let go done s := let '(_, r, s') := collect fuel sql params max s in (done ++ [Submitted sql], r, s') in
      match mode with
      | ReadWrite => go [Queried SET_TIMEOUT true] s1
      | ReadOnly =>
          let '(e2, s2) := query BEGIN_READ_ONLY s1 in
          match e2 with
          | Some e => ([Queried SET_TIMEOUT true; Queried BEGIN_READ_ONLY false], Err (Driver e), s2)
          | None => go [Queried SET_TIMEOUT true; Queried BEGIN_READ_ONLY true] s2
          end
      end
  end.

(** [err.code] of what was thrown, and its message when it is the driver's; this
    app's own errors have one and no code. *)
Definition driver_message (e : error) : option string := match e with Driver e => message e | _ => None end.
Definition has_message (e : error) : bool :=
  match e with Driver e => negb (is_none (message e)) | _ => true end.
Definition code_of (e : error) : option string := match e with Driver e => code e | _ => None end.

(** The [catch] block of [run], with what [lost] says after [putBack]. *)
Definition explain (lost : option pg_error) (e : error) : error :=
  match lost with
  | Some l => Lost (if has_message e then e else Driver l)
  | None =>
      if bool_decide (code_of e = Some "25006") then ReadOnlyMode (driver_message e)
      else if bool_decide (code_of e = Some "42601") && Str.includes "multiple commands" (or_default "" (driver_message e))
      then MultipleStatements
      else e
  end.

Definition run (mode : Mode) (fuel : nat) (sql : string) (params : list json) (max : nat) (s : S)
    : list action * result error Rows * S :=
  let '(done, r, s1) := attempt mode fuel sql params max s in
  let '(back, s2) := putBack s1 in
  (done ++ back, match r with Ok rows => Ok rows | Err e => Err (explain (lost s2) e) end, s2).
End session.

(** ** Opening the pool *)

Inductive open_error : Type :=
| NoDatabaseUrl
| BadTarget (e : target_error)
| BadManifest (text : string)
| NoRoute (e : route_error)
| CheckFailed (e : pg_error)
| Privileged (user : string) (p : problem).

Record Connection := { target : Target; route : Route; mode : Mode }.

(** What [open] does to the pool it makes. *)
Inductive pool_event : Type := PoolCreated (r : Route) | PrivilegeCheck | PoolEnded.

Record Env := {
  DATABASE_URL : option string;
  BERTH_EGRESS_PROXY_URL : option string;
  POSTGRES_MODE : option string;
  POSTGRES_ALLOW_PRIVILEGED : option string
}.

Section open.
Context `{UrlParser}.
Variable decodeURIComponent : string -> option string.
(** What the manifest and the privilege query come back with. *)
Variable manifest : result string (list string).
Variable check : result pg_error Privileges.

Definition open (env : Env) : list pool_event * result open_error Connection :=
  match DATABASE_URL env with
  | None | Some "" => ([], Err NoDatabaseUrl)
  | Some connectionString =>
      match targetOf decodeURIComponent connectionString with
      | Err e => ([], Err (BadTarget e))
      | Ok target =>
          match manifest with
          | Err text => ([], Err (BadManifest text))
          | Ok capabilities =>
              match routeFor target capabilities (BERTH_EGRESS_PROXY_URL env) with
              | Err e => ([], Err (NoRoute e))
              | Ok route =>
                  let mode := modeFrom (POSTGRES_MODE env) in
                  let opened := Ok {| target := target; route := route; mode := mode |} in
                  match mode with
                  | ReadOnly =>
                      if allowsPrivileged (POSTGRES_ALLOW_PRIVILEGED env) then ([PoolCreated route], opened)
                      else match check with
                           | Err e => ([PoolCreated route; PrivilegeCheck; PoolEnded], Err (CheckFailed e))
                           | Ok row =>
                               match privilegeProblem row with
                               | Some p => ([PoolCreated route; PrivilegeCheck; PoolEnded], Err (Privileged (t_user target) p))
                               | None => ([PoolCreated route; PrivilegeCheck], opened)
                               end
                           end
                  | ReadWrite => ([PoolCreated route], opened)
                  end
              end
          end
      end
  end.
End open.

(** ** The functions the app exports *)

(** The statements the app writes itself, and the caller's. *)
Inductive statement : Type := User (sql : string) | SchemasOf | ListTables | ColumnsOf.

(** [String(v)] of a column of names. *)
Definition text_of (v : option json) : string :=
  match v with
  | Some (JStr s) => s
  | Some v => JsonParse.stringify v
  | None => "undefined"
  end.

Section exports.
(** [run], and the connection of the app. *)
Variable run_ : statement -> list json -> nat -> result error Rows.

Definition schemaOf (name : string) : result error string :=
  let? result := run_ SchemasOf [JStr name] MAX_ROWS in
  match r_rows result with
  | [] => Err (NoSuchTable name)
  | row :: _ =>
      match JsMap.get "position" row with
      | Some JNull => Err (NotOnSearchPath name (map (fun r => text_of (JsMap.get "schema" r)) (r_rows result)))
      | _ => Ok (text_of (JsMap.get "schema" row))
      end
  end.

Definition query_ (sql : string) (params : list json) : result error Rows :=
  if String.eqb (Str.trim sql) "" then Err SqlEmpty else run_ (User sql) params MAX_ROWS.

Definition list_tables (schema : string) : result error (list (list (string * json))) :=
  let? result := run_ ListTables [JStr schema] 1000 in Ok (r_rows result).

Definition describe_table (table : string) : result error (list (list (string * json))) :=
  let parts := Str.split "." table in
  if (2 <? length parts) || existsb (fun p => String.eqb p "") parts then Err (BadTableName table)
  else
    let? where_ := match parts with
                   | [schema; name] => Ok (schema, name)
                   | [name] => let? schema := schemaOf name in Ok (schema, name)
                   | _ => Err (BadTableName table)
                   end in
    let? result := run_ ColumnsOf [JStr where_.1; JStr where_.2] MAX_ROWS in
    match r_rows result with
    | [] => Err (NoSuchTable table)
    | rs => Ok rs
    end.
End exports.

Definition connection_info (c : Connection) : Target * Mode * string :=
  (target c, mode c, match route c with Proxy _ => "through the egress proxy" | Direct => "direct" end).

(** ** A cursor over a result

    What pg-cursor documents: [read n] answers the next [n] rows, fewer only at
    the end of the result; no COPY, and a close that succeeds. *)
Class CursorSpec (S : Type) `{Driver_ S} := {
  pending : S -> list (list (string * dbval));
  read_spec : forall n s, exists q s', read n s = (Ok (take n (pending s), q), s') /\ pending s' = drop n (pending s);
  close_spec : forall s, (close s).1 = None;
  copy_spec : forall s, copy s = None
}.

Section collect_facts.
Context {S : Type} `{CursorSpec S}.

Lemma fetch_spec fuel : forall m out q s wants r s',
  open_collector out -> max out = m -> m + 2 - length (rows out) <= fuel ->
  fetch fuel m out q s = (wants, r, s') ->
  match add_every (pending s) out with
  | None => r = inr InvalidValue
  | Some (_, c) => exists q', r = inl (c, q')
  end /\
  Forall (fun n => 1 <= n <= FETCH_ROWS) wants /\ list_sum wants <= m + 1 - length (rows out).
Proof.
  induction fuel as [|fuel IH]; intros m out q s wants r s' Ho Hm Hf; [destruct Ho as (_ & _ & _ & Hl); lia|].
  pose proof Ho as (_ & _ & _ & Hl). cbn [fetch]. cbv zeta. set (want := Nat.min FETCH_ROWS (m + 1 - length (rows out))).
  assert (Hw : 1 <= want <= FETCH_ROWS /\ want <= m + 1 - length (rows out)) by (unfold want, FETCH_ROWS; lia).
  clearbody want. destruct (read_spec want s) as (q1 & s1 & -> & Hpend).
  assert (Hsplit : add_every (pending s) out =
    match Db.add_every hex_prefix (take want (pending s)) out with
    | Some (true, c') => Db.add_every hex_prefix (drop want (pending s)) c'
    | r => r
    end) by (rewrite <- Db.add_every_app, take_drop; done).
  rewrite Hsplit. unfold add_every at 1.
  assert (Hone : Forall (fun n => 1 <= n <= FETCH_ROWS) [want] /\ list_sum [want] <= m + 1 - length (rows out))
    by (split; [constructor; [lia|constructor]|cbn; lia]).
  destruct (Db.add_every hex_prefix (take want (pending s)) out) as [[every out']|] eqn:Ea; [|intros [= <- <- <-]; by split].
  destruct every; cbn [negb orb].
  2:{ intros [= <- <- <-]. split; [by exists q1|done]. }
  destruct (Nat.ltb_spec (length (take want (pending s))) want) as [Hshort|Hlong].
  - intros [= <- <- <-]. split; [|done]. rewrite length_take in Hshort. rewrite drop_ge by lia. cbn [Db.add_every]. by exists q1.
  - destruct (Db.add_every_spec hex_prefix _ _ _ _ Ho Ea) as (Hmax & _ & _ & Ho'). specialize (Ho' eq_refl).
    pose proof (Db.add_every_length hex_prefix _ _ _ Ho Ea) as Hlen.
    assert (Hfull : length (take want (pending s)) = want) by (rewrite length_take in *; lia). rewrite Hfull in Hlen.
    destruct (fetch fuel m out' q1 s1) as [[ws r1] s2] eqn:Ef. intros [= <- <- <-].
    destruct (IH m out' q1 s1 ws r1 s2 Ho') as (H1 & H2 & H3); [congruence|lia|done|]. rewrite Hpend in H1.
    split; [done|]. split; [constructor; [lia|done]|]. change (list_sum (want :: ws)) with (want + list_sum ws). lia.
Qed.

(** Reading through the cursor, in batches, gives exactly what shaping all
    the rows of the result would, and never asks the server for more than one
    row past the cap: memory stays at one batch however large the result. The
    loop always ends. *)
Theorem collect_spec fuel sql params m s :
  m + 2 <= fuel ->
  let '(wants, r, _) := collect fuel sql params m s in
  match shapeRows (pending (submit sql params s)) m with
  | None => r = Err InvalidValue
  | Some (out, tr) => exists cols n, r = Ok {| columns := cols; r_rows := out; rowCount := n; r_truncated := tr |}
  end /\
  Forall (fun n => 1 <= n <= FETCH_ROWS) wants /\ list_sum wants <= m + 1.
Proof.
  intros Hf. unfold collect. destruct (fetch fuel m (new_collector m) no_result (submit sql params s)) as [[wants r] s1] eqn:E.
  destruct (fetch_spec fuel m (new_collector m) no_result (submit sql params s) wants r s1 (new_collector_open m) eq_refl) as (H1 & H2 & H3);
    [cbn; lia|done|]. cbn [rows new_collector length] in H3. rewrite Nat.sub_0_r in H3.
  unfold shapeRows, Db.shapeRows. unfold add_every in H1.
  destruct (Db.add_every hex_prefix (pending (submit sql params s)) (new_collector m)) as [[ok c]|]; cbn [mbind option_bind].
  - destruct H1 as [q' ->]. pose proof (close_spec s1) as Hc. destruct (close s1) as [e s2]. cbn in Hc. subst e.
    rewrite copy_spec. split; [|done]. eauto.
  - subst r. unfold named. rewrite copy_spec. by split.
Qed.

End collect_facts.

(** ** The statements of one call *)

(** What precedes the statement, and what follows it. *)
Definition opening (mode : Mode) (sql : string) (log : list action) : Prop :=
  match mode with
  | ReadOnly =>
      log = [Queried SET_TIMEOUT false] \/ log = [Queried SET_TIMEOUT true; Queried BEGIN_READ_ONLY false] \/
      log = [Queried SET_TIMEOUT true; Queried BEGIN_READ_ONLY true; Submitted sql]
  | ReadWrite => log = [Queried SET_TIMEOUT false] \/ log = [Queried SET_TIMEOUT true; Submitted sql]
  end.

Definition closing (log : list action) : Prop :=
  log = [Released true] \/ log = [Queried "ROLLBACK" false; Released true] \/
  log = [Queried "ROLLBACK" true; Queried "DISCARD ALL" false; Released true] \/
  log = [Queried "ROLLBACK" true; Queried "DISCARD ALL" true; Released false].

(** Every call, whatever the driver answers: in read-only mode the statement
    is submitted only right after the timeout was set and a read-only
    transaction was begun on that connection, and nothing of the caller's is
    run otherwise; and the connection is always released, to the pool only
    after a ROLLBACK and a DISCARD ALL that both succeeded, and destroyed
    otherwise. *)
Theorem run_trace {S} `{Driver_ S} mode fuel sql params m s :
  let '(log, _, _) := run mode fuel sql params m s in
  exists before after, log = before ++ after /\ opening mode sql before /\ closing after.
Proof.
  unfold run. destruct (attempt mode fuel sql params m s) as [[before r] s1] eqn:Ea.
  destruct (putBack s1) as [after s2] eqn:Eb. exists before, after. split; [done|]. split.
  - revert Ea. unfold attempt, opening. destruct (query SET_TIMEOUT s) as [[e|] s3].
    + intros [= <- <- <-]. destruct mode; by left.
    + destruct mode.
      * destruct (query BEGIN_READ_ONLY s3) as [[e|] s4]; [intros [= <- <- <-]; by right; left|].
        destruct (collect fuel sql params m s4) as [[ws r'] s5]. intros [= <- <- <-]. by right; right.
      * destruct (collect fuel sql params m s3) as [[ws r'] s5]. intros [= <- <- <-]. by right.
  - revert Eb. unfold putBack, closing. destruct (lost s1); [intros [= <- <-]; by left|].
    destruct (query "ROLLBACK" s1) as [[e|] s3]; [intros [= <- <-]; by right; left|].
    destruct (query "DISCARD ALL" s3) as [[e|] s4]; intros [= <- <-]; [by right; right; left|by right; right; right].
Qed.

(** ** Opening *)

(** A pool is kept only when it may be used: in read-only mode, unless the
    operator opted in, the role was asked about and holds none of the four
    privileges a read-only transaction cannot hold back; every pool that is not
    kept is ended, and nothing is created when the target, the manifest or the
    route is refused. *)
Theorem open_spec `{UrlParser} decode manifest check env :
  match open decode manifest check env with
  | (log, Ok c) =>
      (mode c = ReadWrite \/ allowsPrivileged (POSTGRES_ALLOW_PRIVILEGED env) = true \/
       exists row, check = Ok row /\ superuser row = false /\ execute_server_program row = false /\
         write_server_files row = false /\ read_server_files row = false) /\
      head log = Some (PoolCreated (route c)) /\ (PoolEnded ∉ log) /\
      exists caps, manifest = Ok caps /\ routeFor (target c) caps (BERTH_EGRESS_PROXY_URL env) = Ok (route c)
  | (log, Err _) => log = [] \/ last log = Some PoolEnded
  end.
Proof.
  unfold open. destruct (DATABASE_URL env) as [[|c0 url]|]; [by left| |by left].
  destruct (targetOf decode (String c0 url)) as [t|e]; [|by left]. destruct manifest as [caps|]; [|by left].
  destruct (routeFor t caps (BERTH_EGRESS_PROXY_URL env)) as [r|e] eqn:Er; [|by left].
  destruct (modeFrom (POSTGRES_MODE env)) eqn:Em.
  - destruct (allowsPrivileged _) eqn:Ea.
    + split_and!; [by right; left|done|set_solver|]. by exists caps.
    + destruct check as [[su ex wr rd]|e]; [|by right]. unfold privilegeProblem.
      cbn [superuser execute_server_program write_server_files read_server_files].
      destruct su, ex, wr, rd; try (by right).
      split_and!; [|done|set_solver|by exists caps]. right; right. eexists. by split_and!.
  - split_and!; [by left|done|set_solver|]. by exists caps.
Qed.

(** ** Dates *)

(** A date or timestamp, alone or in an array, is handed over as the text the
    server sent, never as a time in the app's own zone. *)
Theorem dates_as_text builtin oid format value :
  (oid ∈ AS_TEXT -> getTypeParser builtin oid format value = DStr value) /\
  (oid ∈ AS_TEXT_ARRAY -> getTypeParser builtin oid format = builtin TEXT_ARRAY format) /\
  (oid ∉ AS_TEXT -> oid ∉ AS_TEXT_ARRAY -> getTypeParser builtin oid format = builtin oid format).
Proof.
  unfold getTypeParser. split_and!.
  - intros Hin. by rewrite bool_decide_eq_true_2.
  - intros Hin. rewrite bool_decide_eq_false_2, bool_decide_eq_true_2; [done|done|].
    intros Hin'. unfold AS_TEXT, AS_TEXT_ARRAY in *. set_solver by lia.
  - intros H1 H2. by rewrite !bool_decide_eq_false_2.
Qed.

(** ** Witnesses *)

(** A connection that answers every query and holds its rows. *)
#[local] Instance list_driver : Driver_ (list (list (string * dbval))) := {
  query _ s := (None, s);
  submit _ _ s := s;
  read n s := (Ok (take n s, {| fields := ["a"]; q_rowCount := None |}), drop n s);
  close s := (None, s);
  copy _ := None;
  lost _ := None
}.

#[local] Instance list_cursor : CursorSpec (list (list (string * dbval))).
Proof. refine {| pending := fun s => s |}; [by eauto|done|done]. Defined.

Lemma collect_spec_witness :
  shapeRows (replicate 3 [("a", DNum 1)]) 2 = Some (replicate 2 [("a", JNum 1)], true) /\
  let '(wants, _, _) := collect 4 "select" [] 2 (replicate 3 [("a", DNum 1)]) in list_sum wants <= 3.
Proof.
  split; [by vm_compute|]. pose proof (collect_spec 4 "select" [] 2 (replicate 3 [("a", DNum 1)]) ltac:(lia)) as Hc.
  destruct (collect 4 "select" [] 2 (replicate 3 [("a", DNum 1)])) as [[wants r] s'].
  exact (proj2 (proj2 Hc)).
Defined.

End Postgres.
