(* ===== verification/Mysql.v ===== *)
(** * The mysql app (apps/mysql/src/index.ts)

    One statement per call inside a transaction of the call's own, its rows read
    one event at a time and capped, stopped on the server when its time runs
    out. The driver (mysql2) is a parameter: what it answers, and the events a
    statement causes, are functions of the state of its connection. *)
From S2P Require Import Prelude JsNumber Json JsonParse Url Hosts Framing Db Tunnel.

Module Mysql.
Import Json Db.

(** ** The connection string *)

Inductive target_error : Type :=
| NotAUrl
| WrongProtocol (p : string)
| MalformedEscape
| BadSsl (value : string).

(** [ssl: { rejectUnauthorized }] *)
Record Config := {
  host : string;
  port : Z;
  user : string;
  password : string;
  database : option string;
  ssl : option bool
}.

(** [/^disabled?$/i] *)
Definition disabled (value : string) : bool :=
  let v := Str.to_lower value in String.eqb v "disable" || String.eqb v "disabled".

Section target.
Context `{UrlParser}.
(** [decodeURIComponent] and [JSON.parse], [None] when they throw. *)
Variable decodeURIComponent : string -> option string.
Variable JSON_parse : string -> option json.

Definition targetOf (connectionString : string) : result target_error Target :=
  match new_URL connectionString with
  | None => Err NotAUrl
  | Some url =>
      if negb (String.eqb (protocol url) "mysql:") then Err (WrongProtocol (protocol url))
      else
        match decodeURIComponent (Str.drop 1 (pathname url)), decodeURIComponent (username url) with
        | Some database, Some user =>
            Ok {| t_host := hostname url;
                  t_port := match u_port url with Some 0%Z | None => 3306%Z | Some p => p end;
                  t_database := database; t_user := user |}
        | _, _ => Err MalformedEscape
        end
  end.

(** [parsed.rejectUnauthorized !== false]; reading it of null throws, and of any
    other value that is no object it is undefined. *)
Definition rejectUnauthorized (parsed : json) : option bool :=
  match parsed with
  | JNull | JUndef => None
  | JObj o => Some (match JsMap.get "rejectUnauthorized" o with Some (JBool false) => false | _ => true end)
  | _ => Some true
  end.

Definition sslFrom (value : string) : result target_error (option bool) :=
  if String.eqb value "true" || String.eqb value "1" then Ok (Some true)
  else if String.eqb value "false" || String.eqb value "0" || String.eqb value "" then Ok None
  else match JSON_parse value with
       | None => Err (BadSsl value)
       | Some parsed =>
           match rejectUnauthorized parsed with Some b => Ok (Some b) | None => Err (BadSsl value) end
       end.

(** The loop over the URL's options: the TLS setting and the options ignored. *)
Fixpoint options (params : list (string * string)) (ssl : option bool) (ignored : list string)
    : result target_error (option bool * list string) :=
  match params with
  | [] => Ok (ssl, ignored)
  | (key, value) :: rest =>
      if String.eqb key "ssl" then let? ssl := sslFrom value in options rest ssl ignored
      else if String.eqb key "sslmode" || String.eqb key "ssl-mode"
      then options rest (if disabled value then None else Some true) ignored
      else options rest ssl (ignored ++ [key])
  end.

Definition configOf (connectionString : string) : result target_error (Config * list string) :=
  let? target := targetOf connectionString in
  match new_URL connectionString with
  | None => Err NotAUrl
  | Some url =>
      let? settings := options (searchParams url) None [] in
      match decodeURIComponent (Url.password url) with
      | None => Err MalformedEscape
      | Some password =>
          Ok ({| host := t_host target; port := t_port target; user := t_user target; password := password;
                 database := if String.eqb (t_database target) "" then None else Some (t_database target);
                 ssl := settings.1 |}, settings.2)
      end
  end.
End target.

(** The route and the internal addresses: the same text as in apps/postgres. *)
Definition isInternal : string -> bool := Hosts.isInternal.
Definition routeFor `{UrlParser} : Target -> list string -> option string -> result route_error Route := Db.routeFor.

Definition modeFrom (MYSQL_MODE : option string) : Mode :=
  if bool_decide (MYSQL_MODE = Some "read-write") then ReadWrite else ReadOnly.

Definition allowsPrivileged (MYSQL_ALLOW_PRIVILEGED : option string) : bool :=
  bool_decide (MYSQL_ALLOW_PRIVILEGED = Some "true").

(** ** Privileges *)

Definition RISKY : list string := ["ALL"; "ALL PRIVILEGES"; "SUPER"; "FILE"; "RELOAD"; "SHUTDOWN"].

(** [raw.replace(/\s+/g, " ")], of a trimmed text: [gap] says the last character
    was white space. *)
Fixpoint collapse (gap : bool) (s : string) : string :=
  match s with
  | EmptyString => EmptyString
  | String c s' =>
      if Str.is_space c then (if gap then collapse true s' else String " " (collapse true s'))
      else String c (collapse false s')
  end.

Definition underscored : string -> string := Str.map (fun c => if Ascii.eqb c " " then "_"%char else c).

(** What stands between [GRANT] and the first [ON *.* TO] of a line, if it is
    such a line: [(.+?)], at least one character. *)
Definition global_grants (line : string) : option string :=
  if Str.starts_with "grant " (Str.to_lower line) then
    match Str.drop 6 line with
    | EmptyString => None
    | String c rest =>
        match Framing.cut " on *.* to " (Str.to_lower rest) with
        | Some (before, _) =>
            let found := String c (Str.take (String.length before) rest) in
            if Str.any Str.is_line_terminator found then None else Some found
        | None => None
        end
    end
  else None.

Definition privilege_of (raw : string) : string := collapse false (Str.to_upper (Str.trim raw)).

Definition is_risky (privilege : string) : bool :=
  let joined := underscored privilege in
  existsb (String.eqb privilege) RISKY || Str.ends_with "_ADMIN" joined || Str.starts_with "FLUSH_" joined.

Definition riskyPrivileges (grants : list string) : list string :=
  foldl (fun found line =>
    match global_grants line with
    | None => found
    | Some privileges =>
        foldl (fun found raw => let p := privilege_of raw in if is_risky p then JsSet.add p found else found)
          found (Str.split "," privileges)
    end) [] grants.

(** The privileges a refusal shows, and how many more there are. *)
Definition privilegeProblem (risky : list string) : option (list string * nat) :=
  match risky with
  | [] => None
  | _ => if 6 <? length risky then Some (take 6 risky, length risky - 6) else Some (risky, 0)
  end.

(** *** Roles *)

(** [`[^`]*`]: what follows it. *)
Definition quoted (s : string) : option string :=
  match s with
  | String c s' =>
      if Ascii.eqb c "`" then
        match (JsNumber.span (fun c => negb (Ascii.eqb c "`")) s').2 with
        | String _ rest => Some rest
        | EmptyString => None
        end
      else None
  | EmptyString => None
  end.

(** A role with its optional host. *)
Definition role (s : string) : option string :=
  rest ← quoted s;
  match rest with
  | String c host =>
      if Ascii.eqb c "@" then match quoted host with Some rest' => Some rest' | None => Some rest end else Some rest
  | EmptyString => Some rest
  end.

Definition comma (s : string) : option string :=
  match Str.trim_start s with
  | String c rest => if Ascii.eqb c "," then Some (Str.trim_start rest) else None
  | EmptyString => None
  end.

(** [(?:\s*,\s*role)*], as long as it goes. *)
Fixpoint more_roles (fuel : nat) (s : string) : string :=
  match fuel with
  | O => s
  | S fuel' => match comma s ≫= role with Some rest => more_roles fuel' rest | None => s end
  end.

(** [text.split(/\s*,\s*/)] *)
Definition split_roles (text : string) : list string :=
  let pieces := Str.split "," text in
  imap (fun i p => let p := if i =? 0 then p else Str.trim_start p in
                   if S i =? length pieces then p else Str.trim_end p) pieces.

Definition rolesIn (line : string) : list string :=
  if Str.starts_with "GRANT " line then
    let text := Str.drop 6 line in
    match role text with
    | None => []
    | Some rest =>
        let rest := more_roles (String.length rest) rest in
        if Str.starts_with " TO " rest
        then split_roles (Str.take (String.length text - String.length rest) text) else []
    end
  else [].

(** ** Values and rows: the shared definitions, with this app's prefix *)

Definition hex_prefix : string := "0x".
Definition hex : string -> string := Db.hex hex_prefix.
Definition plain : dbval -> option json := Db.plain hex_prefix.
Definition cell : dbval -> option json := Db.cell hex_prefix.
Definition add : list (string * dbval) -> Collector -> option (bool * Collector) := Db.add hex_prefix.
Definition shapeRows : list (list (string * dbval)) -> nat -> option (list (list (string * json)) * bool) :=
  Db.shapeRows hex_prefix.

(** The stream given to the driver for a connection through the proxy: writes
    made before the tunnel is open wait in a queue. *)
Definition tunnel : string -> Z -> Tunnel.Stream -> Tunnel.event -> Tunnel.Stream * list Tunnel.effect :=
  Tunnel.step true.

(** ** Reading a result *)

Record my_error := { message : string; errno : option Z; fatal : bool }.

(** What happens while a statement runs: the driver's events, the loss of the
    connection, and the app's own timer. A result is a row of the current set
    or, in a set without columns, a status. *)
Inductive query_event : Type :=
| Fields (columns : option (list string))
| Result (row : list (string * dbval))
| QueryError (e : my_error)
| QueryEnd
| ConnectionLost (e : my_error)
| TimerFired.

Record Rows := {
  columns : list string;
  r_rows : list (list (string * json));
  rowCount : Z;
  r_truncated : bool;
  abandoned : bool
}.

(** How the promise settles. [Crashed]: a value that cannot be shaped throws in
    an event listener. *)
Inductive settled : Type :=
| Resolved (r : Rows)
| Failed (e : my_error)
| TimedOut
| Crashed.

(** The variables of [collect]. *)
Record reading := {
  out : Collector;
  sets : nat;
  current : option (list string);
  rowSet : option (nat * list string);
  affected : option Z
}.

Definition start (max : nat) : reading :=
  {| out := new_collector max; sets := 0; current := None; rowSet := None; affected := None |}.

Definition finish (r : reading) (abandoned : bool) : Rows :=
  {| columns := match rowSet r with Some (_, cols) => cols | None => [] end;
     r_rows := rows (out r);
     rowCount := match rowSet r with
                 | Some _ => Z.of_nat (length (rows (out r)))
                 | None => or_default 0%Z (affected r)
                 end;
     r_truncated := truncated (out r); abandoned := abandoned |}.

(** [Number(row.affectedRows ?? 0)], a number in a status. *)
Definition affected_rows (row : list (string * dbval)) : Z :=
  match JsMap.get "affectedRows" row with Some (DNum z) => z | _ => 0%Z end.

Definition on_fields (columns : option (list string)) (r : reading) : reading :=
  {| out := out r; sets := S (sets r); current := columns;
     rowSet := match columns, rowSet r with
               | Some cols, None => Some (S (sets r), cols)
               | _, known => known
               end;
     affected := affected r |}.

Definition with_out (c : Collector) (r : reading) : reading :=
  {| out := c; sets := sets r; current := current r; rowSet := rowSet r; affected := affected r |}.

Definition from_row_set (r : reading) : bool :=
  match rowSet r with Some (i, _) => sets r =? i | None => false end.

Definition on_result (row : list (string * dbval)) (r : reading) : reading + settled :=
  match current r with
  | None =>
      inl {| out := out r; sets := sets r; current := current r; rowSet := rowSet r;
             affected := match affected r with Some n => Some n | None => Some (affected_rows row) end |}
  | Some _ =>
      if from_row_set r then
        match add row (out r) with
        | None => inr Crashed
        | Some (true, c) => inl (with_out c r)
        | Some (false, c) => inr (Resolved (finish (with_out c r) true))
        end
      else inl r
  end.

(** [None] while nothing has settled the promise. *)
Fixpoint read_events (evs : list query_event) (r : reading) : option settled :=
  match evs with
  | [] => None
  | Fields cols :: more => read_events more (on_fields cols r)
  | Result row :: more =>
      match on_result row r with inl r' => read_events more r' | inr s => Some s end
  | QueryError e :: _ | ConnectionLost e :: _ => Some (Failed e)
  | QueryEnd :: _ => Some (Resolved (finish r false))
  | TimerFired :: _ => Some TimedOut
  end.

Definition collect (max : nat) (evs : list query_event) : option settled := read_events evs (start max).

(** ** One call *)

Definition QUERY_TIMEOUT_MS : Z := 30000%Z.

(** How asking the server to end a session over the control connection comes
    out, within the time it is given. *)
Inductive kill_answer : Type := Killed | NoSuchThread | KillFails.

Class MyDriver (S : Type) := {
  query : string -> S -> option my_error * S;
  (** The first column of the rows of a query, as text. *)
  lines : string -> S -> result my_error (list string) * S;
  (** The events a statement causes, up to the one that settles its promise. *)
  statement : string -> list json -> S -> list query_event * S;
  threadId : S -> option Z;
  kill : Z -> S -> kill_answer * S;
  (** Whether a killed query's end is seen in time. *)
  ends_in_time : S -> bool;
  reset : S -> option my_error * S
}.

Inductive Stopped : Type := StoppedThere | Asked | Unreachable.

Inductive error : Type :=
| Driver (e : my_error)
| Timeout (mode : Mode) (how : Stopped)
| ReadOnlyMode (message : string)
| MultipleStatements (message : string)
| SqlEmpty
| NoDefaultDatabase (what : string)
| BadTableName (table : string)
| NoSuchTable (table : string)
| StillRunning
| ProcessDied.

(** What a call does, in order; [Submitted] with how the statement's promise
    settled. *)
Inductive action : Type :=
| Queried (sql : string) (ok : bool)
| Submitted (sql : string) (how : option settled)
| Kill
| Reset (ok : bool)
| Released
| Discarded.

Definition SET_READ_ONLY : string := "SET SESSION TRANSACTION READ ONLY".
Definition START_READ_ONLY : string := "START TRANSACTION READ ONLY".
Definition START : string := "START TRANSACTION".
Definition SET_NAMES : string := "SET NAMES utf8mb4".

(** The server's own time limit: seconds in MariaDB. *)
Definition limit_sql (mariadb : bool) : string :=
  if mariadb then "SET SESSION max_statement_time = " +:+ JsNumber.to_string (QUERY_TIMEOUT_MS / 1000)
  else "SET SESSION max_execution_time = " +:+ JsNumber.to_string QUERY_TIMEOUT_MS.

(** [/;\s*\S/] *)
Fixpoint second_statement (sql : string) : bool :=
  match sql with
  | EmptyString => false
  | String c rest => (Ascii.eqb c ";" && negb (String.eqb (Str.trim_start rest) "")) || second_statement rest
  end.

Section session.
Context {S : Type} `{MyDriver S}.

(** [stop]: with the query's outcome it also waits for the query to end. *)
Definition stop (wait : bool) (s : S) : list action * Stopped * S :=
  match threadId s with
  | None => ([], Unreachable, s)
  | Some id =>
      let '(answer, s1) := kill id s in
      ([Kill], match answer with
               | NoSuchThread => StoppedThere
               | KillFails => Unreachable
               | Killed => if wait && ends_in_time s1 then StoppedThere else Asked
               end, s1)
  end.

Definition putBack (s : S) : list action * S :=
  let '(e1, s1) := reset s in
  match e1 with
  | Some _ => ([Reset false; Discarded], s1)
  | None =>
      let '(e2, s2) := query SET_NAMES s1 in
      match e2 with
      | Some _ => ([Reset true; Queried SET_NAMES false; Discarded], s2)
      | None => ([Reset true; Queried SET_NAMES true; Released], s2)
      end
  end.

(** The statements before the caller's, in order, until one fails. *)
Fixpoint prepare (sqls : list string) (s : S) : list action * option my_error * S :=
  match sqls with
  | [] => ([], None, s)
  | sql :: rest =>
      let '(e, s1) := query sql s in
      match e with
      | Some e => ([Queried sql false], Some e, s1)
      | None => let '(log, r, s2) := prepare rest s1 in (Queried sql true :: log, r, s2)
      end
  end.

Definition preparation (mode : Mode) (mariadb : bool) : list string :=
  limit_sql mariadb :: match mode with ReadOnly => [SET_READ_ONLY; START_READ_ONLY] | ReadWrite => [START] end.

(** The [catch] block's reading of an error. *)
Definition explain (mode : Mode) (sql : string) (e : error) : error :=
  match e with
  | Driver d =>
      if bool_decide (errno d = Some 3024%Z) || bool_decide (errno d = Some 1969%Z) then Timeout mode StoppedThere
      else if bool_decide (errno d = Some 1792%Z) then ReadOnlyMode (message d)
      else if bool_decide (errno d = Some 1064%Z) && second_statement sql then MultipleStatements (message d)
      else e
  | _ => e
  end.

(** The [finally] block. *)
Definition close_call (reusable : bool) (s : S) : list action * S :=
  if reusable then putBack s else ([Discarded], s).

(** The [catch] and [finally] of a driver's error. *)
Definition failed_call (mode : Mode) (sql : string) (log : list action) (d : my_error) (s : S)
    : list action * result error Rows * S :=
  let '(back, s') := close_call (negb (fatal d)) s in (log ++ back, Err (explain mode sql (Driver d)), s').

Definition run (mode : Mode) (mariadb : bool) (sql : string) (params : list json) (max : nat) (s : S)
    : list action * result error Rows * S :=
  let '(log, prepared, s1) := prepare (preparation mode mariadb) s in
  match prepared with
  | Some d => failed_call mode sql log d s1
  | None =>
      let '(evs, s2) := statement sql params s1 in
      let how := collect max evs in
      let log := log ++ [Submitted sql how] in
      match how with
      | None => (log, Err StillRunning, s2)
      | Some Crashed => (log, Err ProcessDied, s2)
      | Some (Failed d) => failed_call mode sql log d s2
      | Some TimedOut =>
          let '(killed, st, s3) := stop true s2 in
          (log ++ killed ++ [Discarded], Err (Timeout mode st), s3)
      | Some (Resolved r) =>
          if abandoned r then
            let '(killed, _, s3) := stop false s2 in (log ++ killed ++ [Discarded], Ok r, s3)
          else
            match mode with
            | ReadOnly => let '(back, s3) := close_call true s2 in (log ++ back, Ok r, s3)
            | ReadWrite =>
                let '(e, s3) := query "COMMIT" s2 in
                match e with
                | Some d => failed_call mode sql (log ++ [Queried "COMMIT" false]) d s3
                | None => let '(back, s4) := close_call true s3 in (log ++ [Queried "COMMIT" true] ++ back, Ok r, s4)
                end
            end
      end
  end.

(** ** The grants of the user *)

(** The fallback for MariaDB: each role is set in turn and its grants read. *)
Fixpoint expand (roles : list string) (grants seen : list string) (s : S) : result my_error (list string) * S :=
  match roles with
  | [] => (Ok grants, s)
  | r :: rest =>
      if bool_decide (r ∈ seen) then expand rest grants seen s
      else
        let '(e, s1) := query ("SET ROLE " +:+ r) s in
        match e with
        | Some e => (Err e, s1)
        | None =>
            let '(expanded, s2) := lines "SHOW GRANTS" s1 in
            match expanded with
            | Err e => (Err e, s2)
            | Ok expanded =>
                expand rest (grants ++ expanded) (JsSet.add_all (JsSet.add r seen) (mjoin (map rolesIn expanded))) s2
            end
        end
  end.

(** The grants, and whether a role was set on the connection. *)
Definition grantsOf (s : S) : result my_error (list string * bool) * S :=
  let '(own, s1) := lines "SHOW GRANTS" s in
  match own with
  | Err e => (Err e, s1)
  | Ok own =>
      let roles := JsSet.of_list (mjoin (map rolesIn own)) in
      match roles with
      | [] => (Ok (own, false), s1)
      | _ =>
          let '(used, s2) := lines ("SHOW GRANTS FOR CURRENT_USER() USING " +:+ Str.join ", " roles) s1 in
          match used with
          | Ok used => (Ok (own ++ used, false), s2)
          | Err _ =>
              let '(all, s3) := expand roles own [] s2 in
              (match all with Ok grants => Ok (grants, true) | Err e => Err e end, s3)
          end
      end
  end.

End session.

(** ** Opening the pools *)

Inductive open_error : Type :=
| NoDatabaseUrl
| BadTarget (e : target_error)
| BadManifest (text : string)
| NoRoute (e : route_error)
| ServerError (e : my_error)
| Privileged (user : string) (shown : list string) (more : nat).

Record Connection := { target : Target; route : Route; mode : Mode; mariadb : bool }.

(** What [open] does with its two pools, and with the connection it asks for the
    user's grants on. *)
Inductive pool_event : Type :=
| PoolsCreated (r : Route) (c : Config)
| VersionAsked
| GrantsRead
| ConnReleased
| ConnDestroyed
| PoolsEnded.

Record Env := {
  DATABASE_URL : option string;
  BERTH_EGRESS_PROXY_URL : option string;
  MYSQL_MODE : option string;
  MYSQL_ALLOW_PRIVILEGED : option string
}.

(** [/MariaDB/i] *)
Definition is_mariadb (version : string) : bool := Str.includes "mariadb" (Str.to_lower version).

Section open.
Context `{UrlParser}.
Variable decodeURIComponent : string -> option string.
Variable JSON_parse : string -> option json.
(** What the manifest, the version query, getting a connection and [grantsOf] on
    it come back with. *)
Variable manifest : result string (list string).
Variable version : result my_error string.
Variable connected : option my_error.
Variable grants : result my_error (list string * bool).

(** The privilege check of read-only mode: what happens, and what it finds. *)
Definition check (user : string) : list pool_event * option open_error :=
  match connected with
  | Some e => ([], Some (ServerError e))
  | None =>
      match grants with
      | Err e => ([GrantsRead; ConnDestroyed], Some (ServerError e))
      | Ok (lines, setRole) =>
          ([GrantsRead; if setRole then ConnDestroyed else ConnReleased],
           match privilegeProblem (riskyPrivileges lines) with
           | Some (shown, more) => Some (Privileged user shown more)
           | None => None
           end)
      end
  end.

Definition open (env : Env) : list pool_event * result open_error Connection :=
  match DATABASE_URL env with
  | None | Some "" => ([], Err NoDatabaseUrl)
  | Some connectionString =>
      match targetOf decodeURIComponent connectionString with
      | Err e => ([], Err (BadTarget e))
      | Ok target =>
          match manifest with
          | Err text => ([], Err (BadManifest text))
          | Ok capabilities =>
              match routeFor target capabilities (BERTH_EGRESS_PROXY_URL env) with
              | Err e => ([], Err (NoRoute e))
              | Ok route =>
                  let mode := modeFrom (MYSQL_MODE env) in
                  match configOf decodeURIComponent JSON_parse connectionString with
                  | Err e => ([], Err (BadTarget e))
                  | Ok (config, _) =>
                      let made := [PoolsCreated route config; VersionAsked] in
                      match version with
                      | Err e => (made ++ [PoolsEnded], Err (ServerError e))
                      | Ok v =>
                          let opened := Ok {| target := target; route := route; mode := mode; mariadb := is_mariadb v |} in
                          match mode with
                          | ReadWrite => (made, opened)
                          | ReadOnly =>
                              if allowsPrivileged (MYSQL_ALLOW_PRIVILEGED env) then (made, opened)
                              else
                                let '(log, problem) := check (t_user target) in
                                match problem with
                                | Some e => (made ++ log ++ [PoolsEnded], Err e)
                                | None => (made ++ log, opened)
                                end
                          end
                      end
                  end
              end
          end
      end
  end.
End open.

(** ** The functions the app exports *)

Inductive statement_ : Type := User (sql : string) | ListTables | ColumnsOf.

Definition text_of (v : option json) : string :=
  match v with
  | Some (JStr s) => s
  | Some v => JsonParse.stringify v
  | None => "undefined"
  end.

(** [Boolean(Number(v))]: of the number, boolean or text the server answers. *)
Definition truthy_number (v : option json) : bool :=
  match v with
  | Some (JNum z) => negb (z =? 0)%Z
  | Some (JBool b) => b
  | Some (JStr s) => negb (JsNumber.falsy (JsNumber.Number s))
  | _ => false
  end.

Section exports.
Variable run_ : statement_ -> list json -> nat -> result error Rows.
Variable target : Target.

Definition query_ (sql : string) (params : list json) : result error Rows :=
  if String.eqb (Str.trim sql) "" then Err SqlEmpty else run_ (User sql) params MAX_ROWS.

Definition requireDefaultDatabase (what : string) : result error unit :=
  if String.eqb (t_database target) "" then Err (NoDefaultDatabase what) else Ok tt.

Definition list_tables (schema : string) : result error (list (list (string * json))) :=
  let? _ := (if String.eqb schema "" then requireDefaultDatabase "list_tables" else Ok tt) in
  let? result := run_ ListTables [JStr schema; JStr schema] 1000 in Ok (r_rows result).

Record Column := { c_name : string; c_type : string; c_nullable : bool; c_default : option string }.

Definition column_of (r : list (string * json)) : Column :=
  {| c_name := text_of (JsMap.get "name" r); c_type := text_of (JsMap.get "type" r);
     c_nullable := truthy_number (JsMap.get "nullable" r);
     c_default := match JsMap.get "default" r with
                  | None | Some JNull | Some JUndef => None
                  | v => Some (text_of v)
                  end |}.

Definition describe_table (table : string) : result error (list Column) :=
  let parts := Str.split "." table in
  if (2 <? length parts) || existsb (fun p => String.eqb p "") parts then Err (BadTableName table)
  else
    let '(schema, name) := match parts with [schema; name] => (schema, name) | _ => ("", table) end in
    let? _ := (if String.eqb schema "" then requireDefaultDatabase "describe_table" else Ok tt) in
    let? result := run_ ColumnsOf [JStr name; JStr schema; JStr schema] MAX_ROWS in
    match r_rows result with
    | [] => Err (NoSuchTable table)
    | rs => Ok (map column_of rs)
    end.
End exports.

Definition connection_info (c : Connection) : Target * Mode * string :=
  (target c, mode c, match route c with Proxy _ => "through the egress proxy" | Direct => "direct" end).

(** ** The rows of a result *)

(** A result: its sets, each with its columns, if it has any, and its rows. *)
Abbreviation result_sets := (list (option (list string) * list (list (string * dbval)))).

Definition events_of (sets : result_sets) : list query_event :=
  mjoin (map (fun set => Fields set.1 :: map Result set.2) sets).

(** The rows of the first set that has columns. *)
Fixpoint first_rows (sets : result_sets) : option (list string * list (list (string * dbval))) :=
  match sets with
  | [] => None
  | (Some cols, rs) :: _ => Some (cols, rs)
  | (None, _) :: rest => first_rows rest
  end.

Lemma statuses rs more : forall r, current r = None ->
  exists r', read_events (map Result rs ++ more) r = read_events more r' /\
    out r' = out r /\ sets r' = sets r /\ current r' = None /\ rowSet r' = rowSet r.
Proof.
  induction rs as [|row rs IH]; intros r Hc; [by exists r|]. cbn [map app read_events]. unfold on_result. rewrite Hc.
  match goal with |- context [read_events _ ?r1] => destruct (IH r1) as (r' & -> & H1 & H2 & H3 & H4); [done|] end.
  by exists r'.
Qed.

(** Rows of a set that is not the chosen one. *)
Lemma other_rows rs more cols r :
  current r = Some cols -> from_row_set r = false -> read_events (map Result rs ++ more) r = read_events more r.
Proof.
  intros Hc Hf. induction rs as [|row rs IH]; [done|]. cbn [map app read_events]. unfold on_result. by rewrite Hc, Hf.
Qed.

(** Rows of the chosen one, collected. *)
Lemma chosen_rows rs more cols : forall r,
  current r = Some cols -> from_row_set r = true ->
  match Db.add_every hex_prefix rs (out r) with
  | None => read_events (map Result rs ++ more) r = Some Crashed
  | Some (true, c) => read_events (map Result rs ++ more) r = read_events more (with_out c r)
  | Some (false, c) => read_events (map Result rs ++ more) r = Some (Resolved (finish (with_out c r) true))
  end.
Proof.
  induction rs as [|row rs IH]; intros r Hc Hf.
  { cbn [Db.add_every map app]. by destruct r. }
  cbn [Db.add_every map app read_events]. unfold on_result. rewrite Hc, Hf. unfold add.
  destruct (Db.add hex_prefix row (out r)) as [[[] c]|]; cbn [mbind option_bind]; [|done|done].
  apply (IH (with_out c r)); done.
Qed.

(** After the chosen set nothing more is collected. *)
Lemma later_sets ss : forall r i cols,
  rowSet r = Some (i, cols) -> i <= sets r ->
  exists n r', read_events (events_of ss ++ [QueryEnd]) r =
    Some (Resolved {| columns := cols; r_rows := rows (out r); rowCount := n; r_truncated := truncated (out r);
                      abandoned := false |}) /\ n = Z.of_nat (length (rows (out r))) /\ r' = r.
Proof.
  induction ss as [|[c rs] ss IH]; intros r i cols Hr Hi.
  - exists (Z.of_nat (length (rows (out r)))), r. cbn. unfold finish. by rewrite Hr.
  - change (events_of ((c, rs) :: ss) ++ [QueryEnd]) with ((Fields c :: map Result rs ++ events_of ss) ++ [QueryEnd]).
    cbn [app read_events]. rewrite <- app_assoc. set (r1 := on_fields c r).
    assert (Hr1 : rowSet r1 = Some (i, cols)) by (unfold r1, on_fields; cbn; rewrite Hr; by destruct c).
    assert (Hs1 : sets r1 = S (sets r)) by done. destruct c as [cs|].
    + rewrite (other_rows _ _ cs) by (try done; unfold from_row_set; rewrite Hr1, Hs1; apply Nat.eqb_neq; lia).
      destruct (IH r1 i cols Hr1 ltac:(lia)) as (n & r' & -> & -> & ->). by exists (Z.of_nat (length (rows (out r)))), r.
    + destruct (statuses rs (events_of ss ++ [QueryEnd]) r1 eq_refl) as (r2 & -> & Ho & Hs2 & _ & Hr2).
      destruct (IH r2 i cols) as (n & r' & -> & -> & ->); [congruence|lia|]. rewrite Ho.
      by exists (Z.of_nat (length (rows (out r)))), r.
Qed.

(** Of a result of several sets, status sets and rows in any order, the
    answer is the first set that has columns, cut exactly as shaping all its
    rows would cut it; reading stops there, mid-result, exactly when something
    was cut off, and only then is the connection given up. *)
Theorem collect_first_set sets m :
  match first_rows sets with
  | None => exists n, collect m (events_of sets ++ [QueryEnd]) =
      Some (Resolved {| columns := []; r_rows := []; rowCount := n; r_truncated := false; abandoned := false |})
  | Some (cols, rs) =>
      match shapeRows rs m with
      | None => collect m (events_of sets ++ [QueryEnd]) = Some Crashed
      | Some (taken, tr) => collect m (events_of sets ++ [QueryEnd]) =
          Some (Resolved {| columns := cols; r_rows := taken; rowCount := Z.of_nat (length taken); r_truncated := tr;
                            abandoned := tr |})
      end
  end.
Proof.
  unfold collect.
  assert (Hgen : forall r, rowSet r = None -> out r = new_collector m ->
    match first_rows sets with
    | None => exists n, read_events (events_of sets ++ [QueryEnd]) r =
        Some (Resolved {| columns := []; r_rows := []; rowCount := n; r_truncated := false; abandoned := false |})
    | Some (cols, rs) =>
        match shapeRows rs m with
        | None => read_events (events_of sets ++ [QueryEnd]) r = Some Crashed
        | Some (taken, tr) => read_events (events_of sets ++ [QueryEnd]) r =
            Some (Resolved {| columns := cols; r_rows := taken; rowCount := Z.of_nat (length taken); r_truncated := tr;
                              abandoned := tr |})
        end
    end); [|by apply Hgen].
  induction sets as [|[[cols|] rs] ss IH]; intros r Hr Ho; cbn [first_rows].
  - eexists. cbn. unfold finish. by rewrite Hr, Ho.
  - change (events_of ((Some cols, rs) :: ss) ++ [QueryEnd]) with ((Fields (Some cols) :: map Result rs ++ events_of ss) ++ [QueryEnd]).
    cbn [app read_events]. rewrite <- app_assoc. set (r1 := on_fields (Some cols) r).
    assert (Hr1 : rowSet r1 = Some (Mysql.sets r1, cols)) by (unfold r1, on_fields; cbn; by rewrite Hr).
    pose proof (chosen_rows rs (events_of ss ++ [QueryEnd]) cols r1 eq_refl) as Hc.
    unfold from_row_set in Hc. rewrite Hr1, Nat.eqb_refl in Hc. specialize (Hc eq_refl).
    change (out r1) with (out r) in Hc. rewrite Ho in Hc. unfold shapeRows, Db.shapeRows.
    destruct (Db.add_every hex_prefix rs (new_collector m)) as [[[] c]|] eqn:Ea; cbn [mbind option_bind].
    + rewrite Hc. destruct (Db.add_every_spec _ _ _ _ _ (new_collector_open m) Ea) as (_ & _ & Ht & _).
      assert (truncated c = false) as -> by (by destruct (truncated c)).
      destruct (later_sets ss (with_out c r1) (Mysql.sets r1) cols) as (n & r' & -> & -> & _); [done|done|]. cbn [out with_out].
      assert (truncated c = false) as -> by (by destruct (truncated c)). done.
    + rewrite Hc. destruct (Db.add_every_spec _ _ _ _ _ (new_collector_open m) Ea) as (_ & _ & Ht & _).
      unfold finish. cbn [rowSet with_out out]. rewrite Hr1. cbn. by destruct (truncated c).
    + exact Hc.
  - change (events_of ((None, rs) :: ss) ++ [QueryEnd]) with ((Fields None :: map Result rs ++ events_of ss) ++ [QueryEnd]).
    cbn [app read_events]. rewrite <- app_assoc. set (r1 := on_fields None r).
    destruct (statuses rs (events_of ss ++ [QueryEnd]) r1 eq_refl) as (r2 & -> & Ho2 & _ & _ & Hr2).
    apply IH; [rewrite Hr2; unfold r1, on_fields; cbn; done|by rewrite Ho2].
Qed.

(** ** The statements of one call *)

(** What follows the statement on its connection, by how it settled: asking the
    server to end it, or the commit. *)
Definition aftermath (mode : Mode) (how : settled) (log : list action) : Prop :=
  match how with
  | Resolved r =>
      if abandoned r then log = [] \/ log = [Kill]
      else match mode with ReadOnly => log = [] | ReadWrite => exists ok, log = [Queried "COMMIT" ok] end
  | TimedOut => log = [] \/ log = [Kill]
  | Failed _ | Crashed => log = []
  end.

(** The connection goes back to the pool only reset, or is closed. *)
Definition closing (log : list action) : Prop :=
  log = [Discarded] \/ log = [Reset false; Discarded] \/ log = [Reset true; Queried SET_NAMES false; Discarded] \/
  log = [Reset true; Queried SET_NAMES true; Released].

(** Mid-result or out of time: closed, with its transaction open. *)
Definition must_close (how : settled) : bool :=
  match how with Resolved r => abandoned r | TimedOut => true | Failed d => fatal d | Crashed => false end.

(** The statements of [preparation], all of them or up to the first that fails. *)
Definition prepared_log (sqls : list string) (log : list action) : Prop :=
  exists k, k < length sqls /\
    log = map (fun q => Queried q true) (take k sqls) ++ [Queried (nth k sqls "") false].

Lemma prepare_log {S} `{MyDriver S} sqls s :
  let '(log, r, _) := prepare sqls s in
  match r with
  | None => log = map (fun q => Queried q true) sqls
  | Some _ => prepared_log sqls log
  end.
Proof.
  revert s; induction sqls as [|q sqls IH]; intros s; cbn [prepare]; [done|].
  destruct (query q s) as [[e|] s1]; [exists 0; split; [cbn; lia|done]|].
  specialize (IH s1). destruct (prepare sqls s1) as [[log [e|]] s2].
  - destruct IH as (k & Hk & ->). exists (Datatypes.S k). split; [cbn; lia|done].
  - by rewrite IH.
Qed.

Lemma putBack_closing {S} `{MyDriver S} (s : S) : closing (putBack s).1.
Proof.
  unfold putBack, closing. destruct (reset s) as [[e|] s1]; [by right; left|].
  destruct (query SET_NAMES s1) as [[e|] s2]; [by right; right; left|by right; right; right].
Qed.

Lemma close_call_closing {S} `{MyDriver S} b (s : S) :
  closing (close_call b s).1 /\ (b = false -> (close_call b s).1 = [Discarded]).
Proof. destruct b; cbn [close_call]; [split; [apply putBack_closing|done]|split; [by left|done]]. Qed.

Lemma stop_log {S} `{MyDriver S} w (s : S) : (stop w s).1.1 = [] \/ (stop w s).1.1 = [Kill].
Proof. unfold stop. destruct (threadId s); [|by left]. destruct (kill z s) as [[] s1]; by right. Qed.

(** One call, whatever the server answers. The caller's statement is sent
    only after the session's limits and a transaction of the call's own (both
    read-only flags in read-only mode); COMMIT is sent only in read-write mode
    and only when the statement ran to the end of its result in time; after a
    cut result, a timeout or a fatal error the connection is closed with its
    transaction open and never handed out again; and every other connection
    goes back to the pool only after a reset that succeeded. *)
Theorem mysql_run_trace {S} `{MyDriver S} mode mariadb sql params m s :
  let '(log, _, _) := run mode mariadb sql params m s in
  (exists before after, log = before ++ after /\ prepared_log (preparation mode mariadb) before /\ closing after) \/
  (exists how rest, log = map (fun q => Queried q true) (preparation mode mariadb) ++ Submitted sql how :: rest /\
     match how with
     | None | Some Crashed => rest = []
     | Some h => exists mid after, rest = mid ++ after /\ aftermath mode h mid /\ closing after /\
         (must_close h = true -> after = [Discarded])
     end).
Proof.
  unfold run. pose proof (prepare_log (preparation mode mariadb) s) as Hp.
  destruct (prepare (preparation mode mariadb) s) as [[log [d|]] s1].
  { unfold failed_call. pose proof (close_call_closing (negb (fatal d)) s1) as [Hc _].
    destruct (close_call (negb (fatal d)) s1) as [back s2]. left. by exists log, back. }
  subst log. destruct (statement sql params s1) as [evs s2]. destruct (collect m evs) as [h|] eqn:Eh.
  2:{ right. exists None, []. by rewrite <- ?app_assoc. }
  assert (Hright : forall mid after r0 (s3 : S),
    aftermath mode h mid -> closing after -> (must_close h = true -> after = [Discarded]) -> h <> Crashed ->
    let '(log, _, _) := ((map (fun q => Queried q true) (preparation mode mariadb) ++ [Submitted sql (Some h)]) ++ mid ++ after,
                         r0 : result error Rows, s3) in
    exists how rest, log = map (fun q => Queried q true) (preparation mode mariadb) ++ Submitted sql how :: rest /\
     match how with
     | None | Some Crashed => rest = []
     | Some h => exists mid after, rest = mid ++ after /\ aftermath mode h mid /\ closing after /\
         (must_close h = true -> after = [Discarded])
     end).
  { intros mid after r0 s3 Ha Hc Hm Hne. exists (Some h), (mid ++ after). split; [by rewrite <- app_assoc|].
    destruct h; try done; by exists mid, after. }
  destruct h as [r|d| |].
  - destruct (abandoned r) eqn:Er.
    + pose proof (stop_log false s2) as Hs. destruct (stop false s2) as [[killed st] s3]. right.
      apply (Hright killed [Discarded] (Ok r) s3); [unfold aftermath; by rewrite Er|by left|done|done].
    + destruct mode.
      * pose proof (close_call_closing true s2) as [Hc _]. destruct (close_call true s2) as [back s3]. right.
        apply (Hright [] back (Ok r) s3); [unfold aftermath; by rewrite Er|done|unfold must_close; by rewrite Er|done].
      * destruct (query "COMMIT" s2) as [[d|] s3].
        -- unfold failed_call. pose proof (close_call_closing (negb (fatal d)) s3) as [Hc _].
           destruct (close_call (negb (fatal d)) s3) as [back s4]. right. rewrite <- (app_assoc _ [Queried _ _]).
           apply (Hright [Queried "COMMIT" false] back (Err (explain ReadWrite sql (Driver d))) s4);
             [unfold aftermath; rewrite Er; by exists false|done|unfold must_close; by rewrite Er|done].
        -- pose proof (close_call_closing true s3) as [Hc _]. destruct (close_call true s3) as [back s4]. right.
           apply (Hright [Queried "COMMIT" true] back (Ok r) s4);
             [unfold aftermath; rewrite Er; by exists true|done|unfold must_close; by rewrite Er|done].
  - unfold failed_call. pose proof (close_call_closing (negb (fatal d)) s2) as [Hc Hd].
    destruct (close_call (negb (fatal d)) s2) as [back s3]. right.
    apply (Hright [] back (Err (explain mode sql (Driver d))) s3); [done|done| |done].
    intros Hf. apply Hd. cbn in Hf. by rewrite Hf.
  - pose proof (stop_log true s2) as Hs. destruct (stop true s2) as [[killed st] s3]. right.
    apply (Hright killed [Discarded] (Err (Timeout mode st)) s3); [done|by left|done|done].
  - right. exists (Some Crashed), []. by rewrite <- ?app_assoc.
Qed.

Lemma read_events_settles evs : forall r, TimerFired ∈ evs -> read_events evs r <> None.
Proof.
  induction evs as [|e evs IH]; intros r Hin; [by apply elem_of_nil in Hin|]. apply elem_of_cons in Hin as [<-|Hin]; [done|].
  destruct e; cbn [read_events]; try done; [by apply IH|]. destruct (on_result _ _); [by apply IH|done].
Qed.

(** ** Privileges *)

Lemma risky_line p line found :
  p ∈ match global_grants line with
      | None => found
      | Some privileges =>
          foldl (fun found raw => let q := privilege_of raw in if is_risky q then JsSet.add q found else found)
            found (Str.split "," privileges)
      end <->
  p ∈ found \/ exists ps raw, global_grants line = Some ps /\ raw ∈ Str.split "," ps /\ p = privilege_of raw /\ is_risky p = true.
Proof.
  destruct (global_grants line) as [ps|]; [|split; [by left|by intros [?|(? & ? & ? & _)]]].
  assert (Hfold : forall raws found, p ∈ foldl (fun found raw => let q := privilege_of raw in if is_risky q then JsSet.add q found else found) found raws
    <-> p ∈ found \/ exists raw, raw ∈ raws /\ p = privilege_of raw /\ is_risky p = true).
  { clear. induction raws as [|raw raws IH]; intros found; cbn [foldl]; [split; [by left|intros [?|(? & ?%elem_of_nil & _)]; done]|]. rewrite IH. cbv zeta.
    destruct (is_risky (privilege_of raw)) eqn:E; rewrite ?JsSet.elem_of_add; split.
    - intros [[->|Hf]|(x & Hx & Hp)]; [right; exists raw; split_and!; [by left|done|done]|by left|].
      right. exists x. split; [by right|done].
    - intros [Hf|(x & [->|Hx]%elem_of_cons & -> & Hp)]; [by left; right|by left; left|].
      right. by exists x.
    - intros [Hf|(x & Hx & Hp)]; [by left|]. right. exists x. split; [by right|done].
    - intros [Hf|(x & [->|Hx]%elem_of_cons & -> & Hp)]; [by left|congruence|]. right. by exists x. }
  rewrite Hfold. split.
  - intros [?|(raw & ? & ? & ?)]; [by left|right]. by exists ps, raw.
  - intros [?|(? & raw & [= <-] & ? & ? & ?)]; [by left|right]. by exists raw.
Qed.

(** A privilege is reported exactly when some line of the grants gives it
    globally and it is risky, whatever its case and spacing in the line. *)
Theorem riskyPrivileges_spec grants p :
  p ∈ riskyPrivileges grants <->
  exists line ps raw, line ∈ grants /\ global_grants line = Some ps /\ raw ∈ Str.split "," ps /\
    p = privilege_of raw /\ is_risky p = true.
Proof.
  unfold riskyPrivileges. rewrite <- (rev_involutive grants). generalize (rev grants). clear grants. intros grants.
  induction grants as [|line grants IH]; cbn [rev].
  - split; [by intros ?%elem_of_nil|]. intros (line & ? & ? & Hin & _). by apply elem_of_nil in Hin.
  - rewrite foldl_app. cbn [foldl]. rewrite risky_line, IH. setoid_rewrite elem_of_app. setoid_rewrite list_elem_of_singleton. split.
    + intros [(l & ps & raw & Hl & H1)|(ps & raw & H1)]; [exists l, ps, raw; split; [by left|done]|].
      exists line, ps, raw. split; [by right|done].
    + intros (l & ps & raw & [Hl| ->] & H1); [left; by exists l, ps, raw|right; by exists ps, raw].
Qed.

(** ** Opening *)

(** The pools are kept only when they may be used: in read-only mode, unless
    the operator opted in, the user's grants were read and hold no risky
    privilege; pools that are not kept are ended; and a connection whose role
    was changed while reading grants is closed, never pooled. *)
Theorem mysql_open_spec `{UrlParser} decode JSON_parse manifest version connected grants env :
  match open decode JSON_parse manifest version connected grants env with
  | (log, Ok c) =>
      (PoolsEnded ∉ log) /\
      (mode c = ReadOnly -> allowsPrivileged (MYSQL_ALLOW_PRIVILEGED env) = false ->
       exists lines setRole, grants = Ok (lines, setRole) /\ riskyPrivileges lines = [] /\
         (setRole = true -> ConnReleased ∉ log)) /\
      exists caps, manifest = Ok caps /\ routeFor (target c) caps (BERTH_EGRESS_PROXY_URL env) = Ok (route c)
  | (log, Err _) => log = [] \/ last log = Some PoolsEnded
  end.
Proof.
  unfold open. destruct (DATABASE_URL env) as [[|c0 url]|]; [by left| |by left].
  destruct (targetOf decode (String c0 url)) as [t|e]; [|by left]. destruct manifest as [caps|]; [|by left].
  destruct (routeFor t caps (BERTH_EGRESS_PROXY_URL env)) as [r|e] eqn:Er; [|by left].
  destruct (configOf decode JSON_parse (String c0 url)) as [[cfg ign]|]; [|by left].
  destruct version as [v|e]; [|by right]. destruct (modeFrom (MYSQL_MODE env)) eqn:Em.
  - destruct (allowsPrivileged (MYSQL_ALLOW_PRIVILEGED env)) eqn:Ea; cbn [mode target route].
    + split_and!; [set_solver|done|by exists caps].
    + unfold check. destruct connected as [e|]; [by right|]. destruct grants as [[ls sr]|e]; [|by right].
      destruct (privilegeProblem (riskyPrivileges ls)) as [[shown more]|] eqn:Ep; [by right|]. cbn [mode target route].
      split_and!; [destruct sr; set_solver| |by exists caps]. intros _ _. exists ls, sr. split_and!; [done| |intros ->; set_solver].
      unfold privilegeProblem in Ep. destruct (riskyPrivileges ls); [done|]. by destruct (6 <? _).
  - cbn [mode target route]. split_and!; [set_solver|done|by exists caps].
Qed.

Example risky_demo :
  riskyPrivileges ["GRANT select, file ON *.* TO `a`@`%`"; "GRANT FLUSH_TABLES,BACKUP_ADMIN ON *.* TO `a`@`%`";
                   "GRANT ALL PRIVILEGES ON `db`.* TO `a`@`%`"] = ["FILE"; "FLUSH_TABLES"; "BACKUP_ADMIN"] /\
  rolesIn "GRANT `r1`@`%`, `r2` TO `a`@`%`" = ["`r1`@`%`"; "`r2`"] /\
  rolesIn "GRANT SELECT ON *.* TO `a`@`%`" = [].
Proof. split_and!; by vm_compute. Qed.

End Mysql.
