(* ===== verification/Governance.v ===== *)
(** * The governance gate of the agents (experimental/agents/src/governance.ts
      and the tool names of experimental/agents/src/tools.ts)

    An app that declares [governs: true] is asked, through its
    [evaluate_action] export, about every action of an agent's computer before
    the action runs. *)
From S2P Require Import Prelude Json Framing.

Module Governance.
Import Json.

(** ** The verdict *)

(** [!v] of a JSON value. *)
Definition truthy (v : json) : bool :=
  match v with
  | JNull | JUndef => false
  | JBool b => b
  | JNum z => negb (z =? 0)%Z
  | JStr s => negb (String.eqb s "")
  | JArr _ | JObj _ => true
  end.

(** [v.k]: reading a property of null or undefined throws ([None]); a primitive
    or a list has none of these. *)
Definition property (k : string) (v : json) : option json :=
  match v with
  | JNull | JUndef => None
  | JObj o => Some (or_default JUndef (JsMap.get k o))
  | _ => Some JUndef
  end.

Inductive mode : Type := FailOpen | FailClosed.

(** What asking the governor, within its ten seconds, came back with: its
    verdict or the message of the error. *)
Definition answer : Type := result string json.

Inductive decision : Type := Allowed | DeniedBy | Unavailable.

(** One gated action, as it happens: the question, the audit record, the call. *)
Inductive gate_event : Type :=
| Asked (app export : string)
| Recorded (d : decision) (reason : option json)
| Invoked.

Inductive gate_outcome : Type :=
| Proceeded
| GovernanceDeniedError (reason : json)
| GovernanceUnavailableError (cause : string)
| TypeError.

(** [verdict.reason ?? "denied"] *)
Definition nullish (v : json) : bool := match v with JNull | JUndef => true | _ => false end.

Definition enforce (m : mode) (app export : string) (ask : answer) : list gate_event * gate_outcome :=
  match ask with
  | Err cause =>
      let asked := [Asked app export; Recorded Unavailable (Some (JStr cause))] in
      match m with
      | FailClosed => (asked, GovernanceUnavailableError cause)
      | FailOpen => (asked ++ [Invoked], Proceeded)
      end
  | Ok verdict =>
      match property "allowed" verdict, property "reason" verdict with
      | Some allowed, Some reason =>
          if negb (truthy allowed) then
            let reason := if nullish reason then JStr "denied" else reason in
            ([Asked app export; Recorded DeniedBy (Some reason)], GovernanceDeniedError reason)
          else ([Asked app export; Recorded Allowed (Some reason); Invoked], Proceeded)
      | _, _ => ([Asked app export], TypeError)
      end
  end.

(** ** The apps of a computer *)

Record App := { name : string; governs : bool; exempt : bool; exports : list string }.

Inductive gate_error : Type := MultipleGovernors (names : list string).

Definition governors (allApps : list App) : list App := List.filter governs allApps.

Record Gate := { governorName : string; exemptApps : list string; gate_mode : mode }.

Definition resolveGovernanceGate (allApps : list App) (m : option mode) : result gate_error (option Gate) :=
  match governors allApps with
  | [] => Ok None
  | [g] => Ok (Some {| governorName := name g; exemptApps := map name (List.filter exempt allApps);
                       gate_mode := or_default FailClosed m |})
  | gs => Err (MultipleGovernors (map name gs))
  end.

(** A call through the gated dispatch; [ask] is the governor's answer to the
    question about it. *)
Definition gateDispatch (g : Gate) (ask : string -> string -> answer) (appName exportName : string)
    : list gate_event * gate_outcome :=
  if String.eqb appName (governorName g) || existsb (String.eqb appName) (exemptApps g)
  then ([Invoked], Proceeded)
  else enforce (gate_mode g) appName exportName (ask appName exportName).

(** A tool with no resident app behind it is always asked about. *)
Definition gateExternalTool (g : Gate) (ask : string -> string -> answer) (app export : string)
    : list gate_event * gate_outcome :=
  enforce (gate_mode g) app export (ask app export).

(** ** Tools *)

Definition toolNameFor (appName exportName : string) (namespaced : bool) : string :=
  if namespaced then appName +:+ "__" +:+ exportName else exportName.

(** A tool: its name, the export it calls, and whether calling it asks first
    and as what. *)
Record Tool := { t_name : string; t_app : string; t_export : string; t_gate : option (string * string) }.

Definition namespaced (apps : list App) : bool := (1 <? length apps).

Definition computerToolsFor (apps : list App) : list Tool :=
  mjoin (map (fun app => map (fun e =>
    {| t_name := toolNameFor (name app) e (namespaced apps); t_app := name app; t_export := e; t_gate := None |})
    (exports app)) apps).

Record Owner := { appName : string; exportName : string; o_exempt : bool }.

Definition ownerByToolName (governor : string) (scopedApps : list App) : list (string * Owner) :=
  foldl (fun m app => foldl (fun m e =>
    JsMap.put (toolNameFor (name app) e (namespaced scopedApps))
      {| appName := name app; exportName := e; o_exempt := String.eqb (name app) governor || exempt app |} m)
    m (exports app)) [] scopedApps.

Definition gate_tool (owners : list (string * Owner)) (tool : Tool) : Tool :=
  match JsMap.get (t_name tool) owners with
  | None => tool
  | Some owner =>
      if o_exempt owner then tool
      else {| t_name := t_name tool; t_app := t_app tool; t_export := t_export tool;
              t_gate := Some (appName owner, exportName owner) |}
  end.

Definition applyGovernanceGate (allApps scopedApps : list App) (tools : list Tool) : result gate_error (list Tool) :=
  match governors allApps with
  | [] => Ok tools
  | [g] => Ok (map (gate_tool (ownerByToolName (name g) scopedApps)) tools)
  | gs => Err (MultipleGovernors (map name gs))
  end.

(** Calling a tool. *)
Definition invoke_tool (m : mode) (ask : string -> string -> answer) (tool : Tool) : list gate_event * gate_outcome :=
  match t_gate tool with
  | None => ([Invoked], Proceeded)
  | Some (app, export) => enforce m app export (ask app export)
  end.

(** ** Lemmas *)

(** A name without an underscore, as the manifest's grammar has it. *)
Definition plain_name (a : string) : Prop := Str.any (Ascii.eqb "_") a = false.

Lemma toolNameFor_inj a a' e e' :
  plain_name a -> plain_name a' -> toolNameFor a e true = toolNameFor a' e' true -> a = a' /\ e = e'.
Proof.
  unfold toolNameFor. intros Ha Ha' E.
  pose proof (Framing.cut_first "_" "_" a e Ha) as H1. pose proof (Framing.cut_first "_" "_" a' e' Ha') as H2.
  change (String "_" "_") with "__" in *. rewrite E, H2 in H1. by injection H1 as -> ->.
Qed.

(** The names of a computer's apps, as it loads them. *)
Definition loaded (apps : list App) : Prop := NoDup (map name apps) /\ Forall plain_name (map name apps).

Lemma loaded_inj apps a a' : loaded apps -> a ∈ apps -> a' ∈ apps -> name a = name a' -> a = a'.
Proof.
  intros [Hnd _]. induction apps as [|x apps IH]; [by intros ?%elem_of_nil|]. cbn [map] in Hnd.
  apply NoDup_cons in Hnd as [Hx Hnd].
  assert (Hin : forall y, y ∈ apps -> name y ∈ map name apps) by (intros y Hy; apply list_elem_of_In, in_map; by apply list_elem_of_In).
  intros [->|H1]%elem_of_cons [->|H2]%elem_of_cons E; [done| | |by apply IH].
  - destruct Hx. rewrite E. by apply Hin.
  - destruct Hx. rewrite <- E. by apply Hin.
Qed.

Lemma tool_name_owner apps a e a' e' :
  loaded apps -> a ∈ apps -> a' ∈ apps ->
  toolNameFor (name a) e (namespaced apps) = toolNameFor (name a') e' (namespaced apps) -> a = a' /\ e = e'.
Proof.
  intros Hl Ha Ha' E. unfold namespaced in E. destruct (Nat.ltb_spec 1 (length apps)) as [Hn|Hn].
  - pose proof Hl as [_ Hp]. rewrite Forall_forall in Hp.
    assert (Hin : forall y, y ∈ apps -> plain_name (name y))
      by (intros y Hy; apply Hp, list_elem_of_In, in_map; by apply list_elem_of_In).
    apply toolNameFor_inj in E as [En ->]; [|by apply Hin..]. split; [|done]. by apply (loaded_inj apps).
  - destruct apps as [|x [|y apps]]; [by apply elem_of_nil in Ha| |cbn in Hn; lia].
    apply list_elem_of_singleton in Ha as ->, Ha' as ->. by split.
Qed.

Definition owner_of (governor : string) (app : App) (e : string) : Owner :=
  {| appName := name app; exportName := e; o_exempt := String.eqb (name app) governor || exempt app |}.

(** Folding puts over exports and apps keeps a property of the entries, and
    leaves every name put. *)
Lemma owners_sound governor ns (apps : list App) : forall (m : list (string * Owner)) (k : string) (o : Owner),
  (forall k o, JsMap.get k m = Some o -> exists (app : App) (e : string), app ∈ apps /\ k = toolNameFor (name app) e ns /\ o = owner_of governor app e) ->
  forall todo : list App, (forall x, x ∈ todo -> x ∈ apps) ->
  JsMap.get k (foldl (fun m app => foldl (fun m e => JsMap.put (toolNameFor (name app) e ns) (owner_of governor app e) m)
    m (exports app)) m todo) = Some o ->
  exists (app : App) (e : string), app ∈ apps /\ k = toolNameFor (name app) e ns /\ o = owner_of governor app e.
Proof.
  intros m k o Hm todo. revert m Hm. induction todo as [|app todo IH]; intros m Hm Hsub; cbn [foldl]; [apply Hm|].
  apply IH; [|intros x Hx; apply Hsub; by right]. assert (Happ : app ∈ apps) by (apply Hsub; by left).
  clear IH Hsub. generalize (exports app). intros es. revert m Hm.
  induction es as [|e es IH]; intros m Hm; cbn [foldl]; [done|]. apply IH. intros k' o'.
  rewrite JsMap.get_put. case_decide as Hk; [intros [= <-]; by exists app, e|apply Hm].
Qed.

Lemma puts_keep {A} (key : A -> string) (value : A -> Owner) es : forall (m : list (string * Owner)) k,
  is_Some (JsMap.get k m) -> is_Some (JsMap.get k (foldl (fun m e => JsMap.put (key e) (value e) m) m es)).
Proof.
  induction es as [|e es IH]; intros m k Hk; cbn [foldl]; [done|]. apply IH. rewrite JsMap.get_put. by case_decide.
Qed.

Lemma puts_add {A} (key : A -> string) (value : A -> Owner) es : forall (m : list (string * Owner)) e,
  e ∈ es -> is_Some (JsMap.get (key e) (foldl (fun m e => JsMap.put (key e) (value e) m) m es)).
Proof.
  induction es as [|x es IH]; intros m e; [by intros ?%elem_of_nil|]. cbn [foldl].
  intros [->|He]%elem_of_cons; [|by apply IH]. apply puts_keep. by rewrite JsMap.get_put_eq.
Qed.

Lemma owners_complete governor ns (todo : list App) : forall (m : list (string * Owner)) app e,
  app ∈ todo -> e ∈ exports app ->
  is_Some (JsMap.get (toolNameFor (name app) e ns)
    (foldl (fun m app => foldl (fun m e => JsMap.put (toolNameFor (name app) e ns) (owner_of governor app e) m)
      m (exports app)) m todo)).
Proof.
  assert (Hkeep : forall (todo : list App) (m : list (string * Owner)) k, is_Some (JsMap.get k m) -> is_Some (JsMap.get k
    (foldl (fun m app => foldl (fun m e => JsMap.put (toolNameFor (name app) e ns) (owner_of governor app e) m)
      m (exports app)) m todo))).
  { clear. induction todo as [|x todo IH]; intros m k Hk; cbn [foldl]; [done|]. apply IH.
    by apply (puts_keep (fun e => toolNameFor (name x) e ns) (owner_of governor x)). }
  induction todo as [|x todo IH]; intros m app e; [by intros ?%elem_of_nil|]. cbn [foldl].
  intros [->|Happ]%elem_of_cons He; [|by apply IH]. apply Hkeep.
  by apply (puts_add (fun e => toolNameFor (name x) e ns) (owner_of governor x)).
Qed.

(** The owner a tool's name leads to is the app the tool calls. *)
Lemma owner_found governor apps app e :
  loaded apps -> app ∈ apps -> e ∈ exports app ->
  JsMap.get (toolNameFor (name app) e (namespaced apps)) (ownerByToolName governor apps) = Some (owner_of governor app e).
Proof.
  intros Hl Happ He. unfold ownerByToolName.
  destruct (owners_complete governor (namespaced apps) apps [] app e Happ He) as [o Ho]. unfold owner_of in *. rewrite Ho.
  apply (owners_sound governor (namespaced apps) apps) in Ho as (app' & e' & Happ' & Hk & ->); [|done|done].
  by destruct (tool_name_owner apps app e app' e' Hl Happ Happ' Hk) as [-> ->].
Qed.

Lemma elem_of_tools apps t :
  t ∈ computerToolsFor apps <->
  exists app e, app ∈ apps /\ e ∈ exports app /\
    t = {| t_name := toolNameFor (name app) e (namespaced apps); t_app := name app; t_export := e; t_gate := None |}.
Proof.
  unfold computerToolsFor. rewrite list_elem_of_join. setoid_rewrite list_elem_of_In. setoid_rewrite in_map_iff. split.
  - intros (l & Ht & (app & <- & Happ)). apply in_map_iff in Ht as (e & <- & He). by exists app, e.
  - intros (app & e & Happ & He & ->). eexists. split; [|exists app; split; [reflexivity|done]].
    apply in_map_iff. by exists e.
Qed.


Definition demo_guard : App := {| name := "guard"; governs := true; exempt := false; exports := ["evaluate_action"] |}.
Definition demo_notes : App := {| name := "notes"; governs := false; exempt := false; exports := ["save"] |}.

Lemma demo_loaded : loaded [demo_guard; demo_notes] /\ loaded [demo_notes].
Proof.
  assert (Hn : plain_name "notes") by reflexivity. assert (Hg : plain_name "guard") by reflexivity.
  unfold loaded. cbn. split; split; repeat constructor; try done; set_solver.
Qed.


(** The agents' gate takes any true value of [allowed] for consent, the
    text [no] among them; the SDK's gate would not. *)
Theorem truthy_verdict m app export :
  (enforce m app export (Ok (JObj [("allowed", JStr "no"); ("reason", JStr "not today")]))).2 = Proceeded.
Proof. reflexivity. Qed.

(** The gate's verdict is the last word. A gated action runs only when the
    governor answered that it is allowed, or, if the operator chose fail-open,
    when the governor could not be asked; every action is asked about first,
    and every verdict, refusal and failure is recorded before anything runs. *)
Theorem enforce_spec m app export ask :
  let '(trace, outcome) := enforce m app export ask in
  head trace = Some (Asked app export) /\
  (Invoked ∈ trace <-> outcome = Proceeded) /\
  (outcome = Proceeded ->
     (exists v allowed, ask = Ok v /\ property "allowed" v = Some allowed /\ truthy allowed = true) \/
     (exists cause, ask = Err cause /\ m = FailOpen)) /\
  (outcome <> TypeError -> exists d reason rest, trace = [Asked app export; Recorded d reason] ++ rest /\
     rest = match outcome with Proceeded => [Invoked] | _ => [] end).
Proof.
  unfold enforce. destruct ask as [v|cause].
  - destruct (property "allowed" v) as [al|] eqn:Ea.
    2:{ destruct (property "reason" v); (split_and!; [done| |done|done]); split; try done; set_solver. }
    destruct (property "reason" v) as [re|] eqn:Er; [|by destruct v].
    destruct (truthy al) eqn:Et; cbn [negb].
    + split_and!; [done|split; [done|set_solver]|intros _; left; by exists v, al|].
      intros _. by exists Allowed, (Some re), [Invoked].
    + split_and!; [done|split; [set_solver|done]|done|]. intros _.
      by exists DeniedBy, (Some (if nullish re then JStr "denied" else re)), [].
  - destruct m.
    + split_and!; [done|split; [done|set_solver]|intros _; right; by exists cause|].
      intros _. by exists Unavailable, (Some (JStr cause)), [Invoked].
    + split_and!; [done|split; [set_solver|done]|done|]. intros _. by exists Unavailable, (Some (JStr cause)), [].
Qed.

End Governance.
