(* ===== verification/Rpc.v ===== *)
(** * The SDK's RPC dispatch and the governance gate on it
      (packages/sdk/src/rpc.ts and packages/sdk/src/governance-gate.ts)

    A listener cuts what arrives into lines; a line is a request for one of the
    app's exports; before the handler runs, the governor of the container, if
    there is one, is asked over its own socket. The identity the governor is
    told comes from the listener and never from the line. *)
From S2P Require Import Prelude JsNumber Json JsonParse Framing Utf8.

Module Rpc.
Import Json.

(** ** The gate's configuration (governance-gate.ts) *)

(** [process.env.NAME] *)
Definition environment : Type := string -> option string.

(** [x] and not the empty string, as [if (x)] asks. *)
Definition set_value (x : option string) : option string :=
  match x with Some s => if String.eqb s "" then None else Some s | None => None end.

Record GateConfig := { governor : string; self : string }.

Definition gateConfig (env : environment) : option GateConfig :=
  g ← set_value (env "BERTH_GOVERNANCE_APP");
  let s := or_default "" (env "BERTH_APP_NAME") in
  if negb (String.eqb s "") && String.eqb s g then None
  else if bool_decide (env "BERTH_GOVERNANCE_EXEMPT" = Some "1") then None
  else Some {| governor := g; self := s |}.

Definition governanceGateActive (env : environment) : bool := bool_decide (is_Some (gateConfig env)).

(** ** One question to the governor *)

Inductive socket_event : Type :=
| Connected
| Data (chunk : string)
| Failed (message : string)
| Closed
| Timer.

Inductive cause : Type :=
| TimedOut
| NotJson
| GovernorError (error : json)
| NoBoolean
| SocketError (message : string)
| ClosedWithoutAnswer.

Record verdict := { v_allowed : bool; v_reason : json }.

Inductive answer : Type :=
| Verdict (v : verdict)
| Unreachable (c : cause)
| Waiting.

(** [!v] of a JSON value. *)
Definition truthy (v : json) : bool :=
  match v with
  | JNull | JUndef => false
  | JBool b => b
  | JNum z => negb (z =? 0)%Z
  | JStr s => negb (String.eqb s "")
  | JArr _ | JObj _ => true
  end.

Definition nullish (v : json) : bool := match v with JNull | JUndef => true | _ => false end.

Record GateSubject := { caller : string; s_export : json; s_input : json }.

(** What the gate decides, and what it says about it. *)
Inductive reason : Type :=
| Given (r : json)
| DeniedByPolicy
| GovernanceUnavailable (c : cause).

Record GateDecision := { allowed : bool; why : reason }.

Section gate.
(** [JSON.parse]; [None] when it throws. *)
Context (parse : string -> option json).

(** The [try] of askGovernor's data handler, on the line before the first
    newline: a TypeError of [response.error] is caught there too. *)
Definition read_verdict (line : string) : answer :=
  match parse line with
  | None => Unreachable NotJson
  | Some response =>
      match prop "error" response, prop "result" response with
      | Some error, Some result =>
          if truthy error then Unreachable (GovernorError error)
          else match truthy result, oprop "allowed" result with
               | true, JBool b => Verdict {| v_allowed := b; v_reason := oprop "reason" result |}
               | _, _ => Unreachable NoBoolean
               end
      | _, _ => Unreachable NotJson
      end
  end.

Fixpoint askGovernor_from (buffer : string) (evs : list socket_event) : answer :=
  match evs with
  | [] => Waiting
  | Connected :: more => askGovernor_from buffer more
  | Data chunk :: more =>
      let buffer := buffer +:+ Utf8.toString chunk in
      match Framing.cut Framing.LF buffer with
      | None => askGovernor_from buffer more
      | Some (line, _) => read_verdict line
      end
  | Failed m :: _ => Unreachable (SocketError m)
  | Closed :: _ => Unreachable ClosedWithoutAnswer
  | Timer :: _ => Unreachable TimedOut
  end.

Definition askGovernor (evs : list socket_event) : answer := askGovernor_from "" evs.

(** What the gate sends, and where. *)
Record question := { socketPath : string; q_export : string; q_input : json }.

Definition the_question (env : environment) (config : GateConfig) (subject : GateSubject) : question :=
  {| socketPath := or_default "" (env "BERTH_GOVERNANCE_SOCKET_ROOT") +:+ "/run/berth/" +:+ governor config
                     +:+ "/peers/" +:+ self config +:+ "/rpc.sock";
     q_export := "evaluate_action";
     q_input := JObj [("app", JStr (self config)); ("export", s_export subject); ("input", s_input subject);
                      ("caller", JStr (caller subject))] |}.

Inductive gate_result : Type :=
| NotGoverned
| Decided (d : GateDecision)
| StillWaiting.

Definition decide_verdict (a : answer) : gate_result :=
  match a with
  | Verdict v =>
      let reason := if nullish (v_reason v) then None else Some (v_reason v) in
      if v_allowed v then Decided {| allowed := true; why := Given (or_default (JStr "") reason) |}
      else Decided {| allowed := false; why := match reason with Some r => Given r | None => DeniedByPolicy end |}
  | Unreachable c => Decided {| allowed := false; why := GovernanceUnavailable c |}
  | Waiting => StillWaiting
  end.

Definition evaluateAction (env : environment) (subject : GateSubject) (evs : list socket_event)
    : option question * gate_result :=
  match gateConfig env with
  | None => (None, NotGoverned)
  | Some config => (Some (the_question env config subject), decide_verdict (askGovernor evs))
  end.

(** ** Exports *)

(** [.parse] of a schema: the value it makes, or the message of its error. *)
Definition schema : Type := json -> result string json.

Record ExportDefinition := { input_schema : option schema; handler : json -> result string json;
                             output_schema : option schema }.

Definition apply_schema (s : option schema) (v : json) : result string json :=
  match s with Some parse => parse v | None => Ok v end.

Inductive rpc_error : Type :=
| NoSuchExport (name : string)
| GovernanceDenied (name : string) (why : reason)
| HandlerFailed (message : string).

Inductive response : Type :=
| Result (id : json) (r : json)
| ErrorResponse (id : json) (e : rpc_error).

(** What one line makes happen: the question asked, the handler's run, the
    line written back. *)
Inductive event : Type :=
| Asked (q : question)
| Ran (name : string) (input : json)
| Wrote (r : response).

(** How handling it ends. [Rejected]: the promise of the async function rejects;
    its caller is [void handleFramedLine(...)], so nothing handles it. *)
Inductive ending : Type :=
| Answered
| Ignored
| Rejected
| Pending.

(** A reason inside a template literal; [None] when that throws. *)
Definition reason_prints (r : reason) : bool :=
  match r with Given v => bool_decide (is_Some (js_string v)) | _ => true end.

Definition respond (id : json) (r : result rpc_error json) : list event * ending :=
  ([Wrote (match r with Ok v => Result id v | Err e => ErrorResponse id e end)], Answered).

(** [app._exports.get(key)]: no key but a string is there. *)
Definition find_export (exports : list (string * ExportDefinition)) (key : json) : option (string * ExportDefinition) :=
  match key with JStr name => pair name <$> JsMap.get name exports | _ => None end.

(** The [try] around the handler. *)
Definition run_handler (name : string) (def : ExportDefinition) (input : json) : list event * result rpc_error json :=
  match apply_schema (input_schema def) input with
  | Err m => ([], Err (HandlerFailed m))
  | Ok input =>
      ([Ran name input],
       match handler def input with
       | Err m => Err (HandlerFailed m)
       | Ok raw =>
           match apply_schema (output_schema def) raw with
           | Err m => Err (HandlerFailed m)
           | Ok v => Ok v
           end
       end)
  end.

(** What [invokeExport] hands back: the reply, or how it fails to make one. *)
Inductive invoked : Type :=
| Reply (r : result rpc_error json)
| Throws
| NeverSettles.

Definition call_export (env : environment) (name : string) (def : ExportDefinition) (input : json) (caller : string)
    (evs : list socket_event) : list event * invoked :=
  let '(q, decision) := evaluateAction env {| caller := caller; s_export := JStr name; s_input := input |} evs in
  let asked := match q with Some q => [Asked q] | None => [] end in
  match decision with
  | StillWaiting => (asked, NeverSettles)
  | Decided d =>
      if allowed d then let '(ran, r) := run_handler name def input in (asked ++ ran, Reply r)
      else if reason_prints (why d) then (asked, Reply (Err (GovernanceDenied name (why d))))
      else (asked, Throws)
  | NotGoverned => let '(ran, r) := run_handler name def input in (asked ++ ran, Reply r)
  end.

Definition invokeExport (env : environment) (exports : list (string * ExportDefinition)) (request : json)
    (caller : string) (evs : list socket_event) : list event * invoked :=
  match prop "export" request with
  | None => ([], Throws)
  | Some key =>
      match find_export exports key with
      | None =>
          match js_string key with
          | Some text => ([], Reply (Err (NoSuchExport text)))
          | None => ([], Throws)
          end
      | Some (name, def) => call_export env name def (oprop "input" request) caller evs
      end
  end.

(** ** Lines *)

(** Who the kernel let through to a listener, and the name of a channel that
    is not a sibling's. *)
Record Listener := { peer : option string; channel : string }.

Definition identity (l : Listener) : string := or_default (channel l) (peer l).

(** The template literal of the audit line, written for siblings only. *)
Definition audit_prints (l : Listener) (request : json) : bool :=
  match set_value (peer l) with
  | None => true
  | Some _ => match prop "export" request with
              | Some key => bool_decide (is_Some (js_string key))
              | None => false
              end
  end.

Definition handleFramedLine (env : environment) (exports : list (string * ExportDefinition)) (l : Listener)
    (line : string) (evs : list socket_event) : list event * ending :=
  match parse line with
  | None => ([], Ignored)
  | Some request =>
      if negb (audit_prints l request) then ([], Rejected)
      else
        let '(trace, r) := invokeExport env exports request (identity l) evs in
        match r with
        | Throws => (trace, Rejected)
        | NeverSettles => (trace, Pending)
        | Reply r => let '(written, e) := respond (oprop "id" request) r in (trace ++ written, e)
        end
  end.

End gate.

(** [connectionHandler]: the lines of a connection that are handled, in the
    order they are started, and what is still in the buffer. *)
Definition newline : ascii := ascii_of_nat 10.

Definition blank (line : string) : bool := String.eqb (Str.trim line) "".

Fixpoint connection (buffer : string) (chunks : list string) : list string * string :=
  match chunks with
  | [] => ([], buffer)
  | chunk :: more =>
      let lines := Str.split newline (buffer +:+ Utf8.toString chunk) in
      let '(later, rest) := connection (List.last lines "") more in
      (List.filter (fun line => negb (blank line)) (removelast lines) ++ later, rest)
  end.

(** ** The TCP listener's port *)

Definition app_variable (appName : string) : string :=
  "BERTH_NETWORK_PORT_" +:+ Str.map (fun c => if Ascii.eqb c "-" then "_"%char else c) (Str.to_upper appName).

Definition envNetworkPort (env : environment) : option JsNumber.jsnum :=
  match (name ← set_value (env "BERTH_APP_NAME"); set_value (env (app_variable name))) with
  | Some scoped => Some (JsNumber.Number scoped)
  | None => JsNumber.Number <$> set_value (env "BERTH_NETWORK_PORT")
  end.

(** One listener per directory under peers/; none when it cannot be read. *)
Definition startPeerSocketServers (peersDir : option (list string)) : list Listener :=
  match peersDir with
  | Some callers => map (fun c => {| peer := Some c; channel := "host" |}) callers
  | None => []
  end.

(** The listeners [startRpcServer] opens: stdio, the relay's socket and one
    per sibling, TCP. *)
Definition startRpcServer (env : environment) (socketPath : option string) (networkPort : option JsNumber.jsnum)
    (peersDir : option (list string)) : list Listener :=
  {| peer := None; channel := "host" |} ::
  match set_value socketPath with
  | Some _ => {| peer := None; channel := "host" |} :: startPeerSocketServers peersDir
  | None => []
  end ++
  match match networkPort with Some n => Some n | None => envNetworkPort env end with
  | Some n => if JsNumber.falsy n then [] else [{| peer := None; channel := "tcp" |}]
  | None => []
  end.

(** ** Lines do not depend on how the stream was cut *)

Lemma last_cons_ne {A} (x : A) l d : l <> [] -> List.last (x :: l) d = List.last l d.
Proof. by destruct l. Qed.

Lemma split_app_last c s t :
  Str.split c (s +:+ t) = removelast (Str.split c s) ++ Str.split c (List.last (Str.split c s) "" +:+ t).
Proof.
  induction s as [|d s IH]; [by rewrite app_empty_str|]. rewrite app_cons_str. cbn [Str.split].
  destruct (Ascii.eqb d c) eqn:E.
  - cbn [removelast]. pose proof (StrFacts.split_nonempty c s) as Hne. rewrite last_cons_ne by done.
    rewrite IH. by destruct (Str.split c s).
  - pose proof (StrFacts.split_nonempty c s) as Hne. rewrite IH. destruct (Str.split c s) as [|w [|w' ws]]; [done| |].
    + cbn [removelast List.last app]. rewrite app_cons_str. cbn [Str.split]. by rewrite E.
    + cbn [removelast app]. by rewrite last_cons_ne by done.
Qed.

Lemma removelast_app_ne {A} (l k : list A) : k <> [] -> removelast (l ++ k) = l ++ removelast k.
Proof. apply removelast_app. Qed.

Definition kept (line : string) : bool := negb (blank line).

Lemma connection_buffered chunks : forall buffer,
  Forall Utf8.whole chunks ->
  (connection buffer chunks).1 ++ List.filter kept (removelast (Str.split newline (connection buffer chunks).2)) =
  List.filter kept (removelast (Str.split newline (buffer +:+ Utf8.toString (Framing.concat chunks)))).
Proof.
  induction chunks as [|chunk chunks IH]; intros buffer Hw; [cbn; by rewrite app_nil_r_str|].
  apply Forall_cons in Hw as [Hc Hw]. cbn [connection]. specialize (IH (List.last (Str.split newline (buffer +:+ Utf8.toString chunk)) "") Hw).
  destruct (connection _ chunks) as [later rest]. cbn [fst snd] in *.
  rewrite Framing.concat_cons, Utf8.toString_app, <- app_assoc_str by done.
  rewrite (split_app_last newline (buffer +:+ _)), removelast_app_ne by apply StrFacts.split_nonempty.
  rewrite List.filter_app, <- IH. by rewrite app_assoc.
Qed.

Lemma last_piece c s : Str.any (Ascii.eqb c) (List.last (Str.split c s) "") = false.
Proof.
  pose proof (StrFacts.split_pieces c s) as H. induction H as [|w ws Hw Hws IH]; [done|]. by destruct ws.
Qed.

Lemma connection_rest chunks : forall buffer,
  Str.any (Ascii.eqb newline) buffer = false -> Str.any (Ascii.eqb newline) (connection buffer chunks).2 = false.
Proof.
  induction chunks as [|chunk chunks IH]; intros buffer Hb; [done|]. cbn [connection].
  specialize (IH (List.last (Str.split newline (buffer +:+ Utf8.toString chunk)) "") (last_piece _ _)).
  by destruct (connection _ chunks).
Qed.

(** How a peer's bytes were cut into chunks does not show: when no cut
    falls inside a character, the requests handled are the non-blank lines of
    the whole stream, in order, without the unfinished last one. *)
Theorem connection_spec chunks :
  Forall Utf8.whole chunks ->
  (connection "" chunks).1 =
  List.filter kept (removelast (Str.split newline (Utf8.toString (Framing.concat chunks)))).
Proof.
  intros Hw. pose proof (connection_buffered chunks "" Hw) as H. rewrite app_empty_str in H. rewrite <- H.
  rewrite StrFacts.split_single by (by apply connection_rest). cbn. by rewrite app_nil_r.
Qed.

Definition stop_line : string := "{" +:+ quote "id" +:+ ":1}".

Lemma connection_spec_witness :
  (connection "" ["{" +:+ quote "id"; ":1}" +:+ Framing.LF +:+ Framing.LF +:+ "x"]).1 = [stop_line].
Proof. rewrite connection_spec; [vm_compute; reflexivity|repeat constructor; vm_compute; reflexivity]. Defined.

(** A character whose bytes arrive in two chunks is not handled as it was
    sent: both halves become U+FFFD before the line is put together. *)
Theorem connection_split_character :
  let e_acute := String "195" (String "169" "") in
  (connection "" [quote e_acute +:+ Framing.LF]).1 = [quote e_acute] /\
  (connection "" [String dq_char (String "195" ""); String "169" (String dq_char "") +:+ Framing.LF]).1 =
    [quote (Utf8.replacement +:+ Utf8.replacement)].
Proof. split; vm_compute; reflexivity. Qed.

(** ** The gate *)

(** What a socket carried before it ended. *)
Fixpoint heard (evs : list socket_event) : string :=
  match evs with
  | Connected :: more => heard more
  | Data chunk :: more => Utf8.toString chunk +:+ heard more
  | _ => ""
  end.

(** The governor's answer is the first line it sent, and says yes. *)
Definition says_allowed (parse : string -> option json) (evs : list socket_event) : Prop :=
  exists line rest response,
    Framing.cut Framing.LF (heard evs) = Some (line, rest) /\ parse line = Some response /\
    truthy (oprop "error" response) = false /\ oprop "allowed" (oprop "result" response) = JBool true.

Lemma askGovernor_heard parse evs : forall buffer v,
  askGovernor_from parse buffer evs = Verdict v ->
  exists line rest, Framing.cut Framing.LF (buffer +:+ heard evs) = Some (line, rest) /\
    read_verdict parse line = Verdict v.
Proof.
  induction evs as [|[|chunk| | |] evs IH]; intros buffer v; cbn [askGovernor_from heard]; try done; [apply IH|].
  rewrite <- app_assoc_str. destruct (Framing.cut Framing.LF (buffer +:+ Utf8.toString chunk)) as [[line rest]|] eqn:E.
  - intros H. exists line, (rest +:+ heard evs). split; [by apply Framing.cut_app|done].
  - apply IH.
Qed.

Lemma read_verdict_allowed parse line v :
  read_verdict parse line = Verdict v ->
  exists response, parse line = Some response /\ truthy (oprop "error" response) = false /\
    oprop "allowed" (oprop "result" response) = JBool (v_allowed v).
Proof.
  unfold read_verdict, oprop. destruct (parse line) as [response|]; [|done].
  destruct (prop "error" response) as [err|] eqn:Ee; [|done].
  destruct (prop "result" response) as [res|] eqn:Er; [|done]. intros H. exists response. rewrite Ee. cbn [or_default].
  destruct (truthy err); [done|]. split_and!; [done|done|]. cbn [or_default].
  rewrite Er. cbn [or_default]. unfold oprop in H. destruct (truthy res), (or_default JUndef (prop "allowed" res)) as [| |b| | | |] eqn:Ea; try done.
  by injection H as <-.
Qed.

Lemma evaluate_allowed parse env subject evs q d :
  evaluateAction parse env subject evs = (q, Decided d) -> allowed d = true -> says_allowed parse evs.
Proof.
  unfold evaluateAction. destruct (gateConfig env) as [config|]; [|done].
  destruct (askGovernor parse evs) as [v|c|] eqn:E; cbn [decide_verdict]; [|by intros [= <- <-]|done].
  destruct (v_allowed v) eqn:Ev; [|by intros [= <- <-]]. intros _ _.
  apply askGovernor_heard in E as (line & rest & Hcut & Hv).
  apply read_verdict_allowed in Hv as (response & Hp & He & Ha). rewrite Ev in Ha. by exists line, rest, response.
Qed.

Lemma ran_handler name def input x y :
  Ran x y ∈ (run_handler name def input).1 -> x = name /\ apply_schema (input_schema def) input = Ok y.
Proof.
  unfold run_handler. destruct (apply_schema _ input) as [v|m]; cbn [fst].
  - intros [= -> ->]%list_elem_of_singleton. done.
  - by intros ?%elem_of_nil.
Qed.

Lemma call_export_ran parse env name def input caller evs x y :
  Ran x y ∈ (call_export parse env name def input caller evs).1 ->
  x = name /\ apply_schema (input_schema def) input = Ok y /\
  (gateConfig env = None \/
   exists config, gateConfig env = Some config /\ says_allowed parse evs /\
     head (call_export parse env name def input caller evs).1 =
       Some (Asked (the_question env config {| caller := caller; s_export := JStr name; s_input := input |}))).
Proof.
  unfold call_export. set (subject := {| caller := caller; s_export := JStr name; s_input := input |}).
  destruct (evaluateAction parse env subject evs) as [q decision] eqn:Eq.
  assert (Hq : Ran x y ∉ match q with Some q => [Asked q] | None => [] end)
    by (destruct q; [by intros ?%list_elem_of_singleton|by intros ?%elem_of_nil]).
  assert (Hc : gateConfig env = None \/
    exists config, gateConfig env = Some config /\ q = Some (the_question env config subject)).
  { revert Eq. unfold evaluateAction. destruct (gateConfig env) as [config|]; [|by left].
    intros [= <- _]. right. by exists config. }
  pose proof (ran_handler name def input x y) as Hran. destruct (run_handler name def input) as [ran r]. cbn [fst] in Hran.
  assert (Hin : Ran x y ∈ match q with Some q => [Asked q] | None => [] end ++ ran ->
    x = name /\ apply_schema (input_schema def) input = Ok y) by (intros [?|?]%elem_of_app; [done|by apply Hran]).
  destruct decision as [|d|]; cbn [fst].
  - intros H. destruct (Hin H) as [-> Ha]. split_and!; [done|done|left].
    revert Eq. unfold evaluateAction. destruct (gateConfig env); [|done].
    destruct (askGovernor parse evs) as [[[] ?]| |]; cbn; done.
  - destruct (allowed d) eqn:Ed; cbn [fst]; [|by destruct (reason_prints _)]. intros H. destruct (Hin H) as [-> Ha].
    split_and!; [done|done|]. destruct Hc as [?|(config & Hcfg & ->)]; [by left|right]. exists config.
    split_and!; [done| |done]. by apply (evaluate_allowed parse env subject evs _ d Eq).
  - intros H. by destruct (Hq H).
Qed.

Lemma not_ran_written (id : json) r x y : Ran x y ∉ (respond id r).1.
Proof. by intros ?%list_elem_of_singleton. Qed.

(** The run of a line, as its request's. *)
Lemma line_trace parse env exports l line evs e :
  e ∈ (handleFramedLine parse env exports l line evs).1 ->
  exists request, parse line = Some request /\
    (e ∈ (invokeExport parse env exports request (identity l) evs).1 \/ exists r, e = Wrote r) /\
    (invokeExport parse env exports request (identity l) evs).1 `prefix_of` (handleFramedLine parse env exports l line evs).1.
Proof.
  unfold handleFramedLine. destruct (parse line) as [request|]; [|by intros ?%elem_of_nil].
  destruct (negb (audit_prints l request)); [by intros ?%elem_of_nil|]. exists request. split; [done|].
  destruct (invokeExport parse env exports request (identity l) evs) as [trace [r| |]]; cbn [fst] in *; [|by split; [left|]..].
  revert H. unfold respond. cbn [fst]. intros [H|H]%elem_of_app.
  - split; [by left|by apply prefix_app_r].
  - apply list_elem_of_singleton in H as ->. split; [right; by eexists|by apply prefix_app_r].
Qed.

Lemma invoke_ran parse env exports request caller evs x y :
  Ran x y ∈ (invokeExport parse env exports request caller evs).1 ->
  exists def, prop "export" request = Some (JStr x) /\ JsMap.get x exports = Some def /\
    apply_schema (input_schema def) (oprop "input" request) = Ok y /\
    (gateConfig env = None \/
     exists config, gateConfig env = Some config /\ says_allowed parse evs /\
       head (invokeExport parse env exports request caller evs).1 =
         Some (Asked (the_question env config
           {| caller := caller; s_export := JStr x; s_input := oprop "input" request |}))).
Proof.
  unfold invokeExport. destruct (prop "export" request) as [key|] eqn:Ek; [|by intros ?%elem_of_nil].
  destruct (find_export exports key) as [[name def]|] eqn:Ef.
  2:{ destruct (js_string key); by intros ?%elem_of_nil. }
  intros (-> & Ha & Hg)%call_export_ran. unfold find_export in Ef. destruct key as [| | | |n| |]; try done.
  destruct (JsMap.get n exports) as [d|] eqn:Ed; [|done]. injection Ef as -> ->. exists def. by split_and!.
Qed.

(** [C13] No handler runs behind the governor's back. Whatever line arrives on
    whichever listener, a handler that runs is the one of the export the line
    names, on the input its schema accepted; and with a governor to ask, the
    first thing that happened was the question about exactly that export, that
    input and the listener's own identity, and the first line of the governor's
    answer is JSON without an error whose [allowed] is the boolean true. A
    governor that is slow, gone or unreadable lets nothing run. *)
Theorem handler_gated parse env exports l line evs x y :
  Ran x y ∈ (handleFramedLine parse env exports l line evs).1 ->
  exists request def, parse line = Some request /\ prop "export" request = Some (JStr x) /\
    JsMap.get x exports = Some def /\ apply_schema (input_schema def) (oprop "input" request) = Ok y /\
    (gateConfig env = None \/
     exists config, gateConfig env = Some config /\ says_allowed parse evs /\
       head (handleFramedLine parse env exports l line evs).1 =
         Some (Asked (the_question env config
           {| caller := identity l; s_export := JStr x; s_input := oprop "input" request |}))).
Proof.
  intros H. pose proof (line_trace _ _ _ _ _ _ _ H) as (request & Hp & [Hr|[r Hr]] & [tail Hpre]); [|done].
  apply invoke_ran in Hr as (def & He & Hd & Hs & Hg). exists request, def. split_and!; try done.
  destruct Hg as [?|(config & Hcfg & Hsay & Hhead)]; [by left|right]. exists config. split_and!; try done.
  rewrite Hpre. by destruct (invokeExport _ _ _ _ _ _).1.
Qed.

Definition demo_env : environment := fun name =>
  if String.eqb name "BERTH_GOVERNANCE_APP" then Some "guard"
  else if String.eqb name "BERTH_APP_NAME" then Some "notes" else None.

Definition demo_exports : list (string * ExportDefinition) :=
  [("save", {| input_schema := None; handler := fun v => Ok v; output_schema := None |})].

Definition demo_line : string :=
  JsonParse.stringify (JObj [("id", JStr "1"); ("export", JStr "save"); ("input", JStr "text")]).

Definition demo_yes : list socket_event :=
  [Connected; Data (JsonParse.stringify (JObj [("id", JStr "g"); ("result", JObj [("allowed", JBool true)])]));
   Data Framing.LF].

Definition demo_peer : Listener := {| peer := Some "editor"; channel := "host" |}.

Lemma handler_gated_witness :
  let trace := (handleFramedLine JsonParse.parse demo_env demo_exports demo_peer demo_line demo_yes).1 in
  Ran "save" (JStr "text") ∈ trace /\
  exists request def, JsonParse.parse demo_line = Some request /\ prop "export" request = Some (JStr "save") /\
    JsMap.get "save" demo_exports = Some def /\ apply_schema (input_schema def) (oprop "input" request) = Ok (JStr "text") /\
    (gateConfig demo_env = None \/
     exists config, gateConfig demo_env = Some config /\ says_allowed JsonParse.parse demo_yes /\
       head trace = Some (Asked (the_question demo_env config
         {| caller := "editor"; s_export := JStr "save"; s_input := oprop "input" request |}))).
Proof.
  assert (H : Ran "save" (JStr "text") ∈ (handleFramedLine JsonParse.parse demo_env demo_exports demo_peer demo_line demo_yes).1)
    by (vm_compute; right; left).
  split; [exact H|]. exact (handler_gated JsonParse.parse demo_env demo_exports demo_peer demo_line demo_yes "save" (JStr "text") H).
Defined.

(** The caller a governor is told about is the listener's, whatever the
    line says; but a sibling app may be named [host], and is then told apart
    from the host's own relay by nothing. *)
Theorem caller_is_listener parse env exports l line evs q :
  Asked q ∈ (handleFramedLine parse env exports l line evs).1 ->
  oprop "caller" (q_input q) = JStr (identity l).
Proof.
  intros (request & _ & [H|[r ?]] & _)%line_trace; [|done]. revert H. unfold invokeExport.
  destruct (prop "export" request) as [key|]; [|by intros ?%elem_of_nil].
  destruct (find_export exports key) as [[name def]|]; [|by destruct (js_string key); intros ?%elem_of_nil].
  unfold call_export, evaluateAction. destruct (gateConfig env) as [config|].
  - assert (Hran : Asked q ∉ (run_handler name def (oprop "input" request)).1).
    { unfold run_handler. destruct (apply_schema _ _); cbn [fst]; [by intros ?%list_elem_of_singleton|by intros ?%elem_of_nil]. }
    destruct (run_handler _ _ _) as [ran r]. cbn [fst] in Hran. intros H.
    assert (Hq : q = the_question env config {| caller := identity l; s_export := JStr name; s_input := oprop "input" request |}).
    { destruct (decide_verdict _) as [|d|]; [|destruct (allowed d); [|destruct (reason_prints _)]|]; cbn [fst] in H;
        try (apply elem_of_app in H as [H|H]); try done; apply list_elem_of_singleton in H; by injection H. }
    by rewrite Hq.
  - unfold run_handler. destruct (apply_schema _ _); cbn [fst app];
      [by intros ?%list_elem_of_singleton|by intros ?%elem_of_nil].
Qed.

Lemma caller_is_listener_witness :
  exists q, oprop "caller" (q_input q) = JStr (identity {| peer := Some "host"; channel := "host" |}) /\
    identity {| peer := Some "host"; channel := "host" |} = identity {| peer := None; channel := "host" |}.
Proof.
  eexists. split; [|reflexivity].
  eapply (caller_is_listener JsonParse.parse demo_env demo_exports {| peer := Some "host"; channel := "host" |} demo_line demo_yes).
  vm_compute. left.
Defined.

Lemma run_handler_not_written name def input r : Wrote r ∉ (run_handler name def input).1.
Proof.
  unfold run_handler. destruct (apply_schema _ input); cbn [fst]; [by intros ?%list_elem_of_singleton|by intros ?%elem_of_nil].
Qed.

Lemma invoke_not_written parse env exports request caller evs r :
  Wrote r ∉ (invokeExport parse env exports request caller evs).1.
Proof.
  unfold invokeExport. destruct (prop "export" request) as [key|]; [|by intros ?%elem_of_nil].
  destruct (find_export exports key) as [[name def]|]; [|by destruct (js_string key); intros ?%elem_of_nil].
  unfold call_export. destruct (evaluateAction _ _ _ _) as [q decision].
  pose proof (run_handler_not_written name def (oprop "input" request) r) as Hr.
  destruct (run_handler _ _ _) as [ran x]. cbn [fst] in Hr.
  assert (Hq : Wrote r ∉ match q with Some q => [Asked q] | None => [] end)
    by (destruct q; [by intros ?%list_elem_of_singleton|by intros ?%elem_of_nil]).
  destruct decision as [|d|]; [|destruct (allowed d); [|destruct (reason_prints _)]|]; cbn [fst]; try done;
    by intros [?|?]%elem_of_app.
Qed.

Definition response_id (r : response) : json := match r with Result id _ | ErrorResponse id _ => id end.

(** One reply per request: a line that is answered writes one response,
    after everything else it caused, under the request's own id; a line that is
    not JSON, whose handling fails or whose governor has not answered yet
    writes none. *)
Theorem one_reply parse env exports l line evs :
  let '(trace, e) := handleFramedLine parse env exports l line evs in
  (e = Answered -> exists before r request, trace = before ++ [Wrote r] /\ (forall r', Wrote r' ∉ before) /\
     parse line = Some request /\ response_id r = oprop "id" request) /\
  (e <> Answered -> forall r, Wrote r ∉ trace) /\
  (e = Ignored <-> parse line = None).
Proof.
  unfold handleFramedLine. destruct (parse line) as [request|]; [|by split_and!; [|intros _ r ?%elem_of_nil|]].
  destruct (negb (audit_prints l request)); [by split_and!; [|intros _ r ?%elem_of_nil|]|].
  pose proof (invoke_not_written parse env exports request (identity l) evs) as Hn.
  destruct (invokeExport _ _ _ _ _ _) as [trace [r| |]]; cbn [fst] in Hn; [|by split_and!..].
  unfold respond. split_and!; [|done|done]. intros _. do 2 eexists. exists request. split_and!; [reflexivity|done|done|].
  by destruct r.
Qed.

Lemma set_value_Some x s : set_value x = Some s -> x = Some s.
Proof. destruct x as [t|]; [|done]. cbn. destruct (String.eqb t ""); [done|]. by intros [= ->]. Qed.

Lemma js_string_key exports key name def :
  find_export exports key = Some (name, def) -> js_string key = Some name.
Proof.
  destruct key as [| | | |n| |]; try done. cbn. destruct (JsMap.get n exports); [|done]. by intros [= <- _].
Qed.

Lemma call_ungoverned parse env name def input caller evs :
  gateConfig env = None -> exists r, (call_export parse env name def input caller evs).2 = Reply r.
Proof.
  intros Hg. unfold call_export, evaluateAction. rewrite Hg. destruct (run_handler name def input) as [ran r]. by exists r.
Qed.

(** The two ways an ungoverned call throws: there is no [export] to read, or
    it cannot be printed. *)
Definition unprintable (request : json) : Prop :=
  prop "export" request = None \/ exists key, prop "export" request = Some key /\ js_string key = None.

Lemma invoke_throws parse env exports request caller evs :
  gateConfig env = None -> (invokeExport parse env exports request caller evs).2 = Throws <-> unprintable request.
Proof.
  intros Hg. unfold invokeExport, unprintable. destruct (prop "export" request) as [key|].
  2:{ split; [by left|done]. }
  destruct (find_export exports key) as [[name def]|] eqn:Ef.
  - destruct (call_ungoverned parse env name def (oprop "input" request) caller evs Hg) as [r ->].
    apply js_string_key in Ef. split; [done|]. intros [?|(k & [= <-] & ?)]; [done|congruence].
  - destruct (js_string key) as [text|] eqn:Es; cbn [snd].
    + split; [done|]. intros [?|(k & [= <-] & ?)]; [done|congruence].
    + split; [|done]. intros _. right. by exists key.
Qed.

(** A request can end the app. The promise of a line's handling is
    discarded, so when it rejects the process has an unhandled rejection, which
    Node answers by exiting: without a governor that is exactly the lines that
    hold [null], and those whose [export] is an object that hides [toString]. *)
Theorem rejected_iff parse env exports l line evs :
  gateConfig env = None ->
  (handleFramedLine parse env exports l line evs).2 = Rejected <->
  exists request, parse line = Some request /\ unprintable request.
Proof.
  intros Hg. unfold handleFramedLine. destruct (parse line) as [request|]; [|by split; [|intros (? & ? & _)]].
  pose proof (invoke_throws parse env exports request (identity l) evs Hg) as Ht.
  assert (Hnever : (invokeExport parse env exports request (identity l) evs).2 <> NeverSettles).
  { unfold invokeExport. destruct (prop "export" request) as [key|]; [|done].
    destruct (find_export exports key) as [[name def]|]; [|by destruct (js_string key)].
    by destruct (call_ungoverned parse env name def (oprop "input" request) (identity l) evs Hg) as [r ->]. }
  destruct (audit_prints l request) eqn:Ea; cbn [negb].
  - destruct (invokeExport _ _ _ _ _ _) as [trace [r| |]]; cbn [snd respond] in *; [| |done].
    + split; [done|]. intros (v & [= <-] & H). by apply Ht in H.
    + split; [|done]. intros _. exists request. split; [done|by apply Ht].
  - split; [|done]. intros _. exists request. split; [done|]. revert Ea. unfold audit_prints, unprintable.
    destruct (set_value (peer l)); [|done]. destruct (prop "export" request) as [key|]; [|by left]. right. exists key.
    split; [done|]. destruct (js_string key) as [t|]; [|done]. exfalso. by rewrite bool_decide_true in Ea.
Qed.

Definition no_env : environment := fun _ => None.
Definition fatal_line : string :=
  JsonParse.stringify (JObj [("export", JObj [("toString", JNum 1)])]).

Lemma rejected_iff_witness :
  gateConfig no_env = None /\
  (handleFramedLine JsonParse.parse no_env [] {| peer := None; channel := "tcp" |} fatal_line []).2 = Rejected.
Proof.
  split; [reflexivity|]. apply (rejected_iff JsonParse.parse no_env); [reflexivity|].
  eexists. split; [vm_compute; reflexivity|]. right. eexists. split; reflexivity.
Defined.

(** ** Ports *)

Definition kebab_char (c : ascii) : bool := Str.is_lower c || Str.is_digit c || Ascii.eqb c "-".

Lemma map_inj (f : ascii -> ascii) (p : ascii -> bool) s t :
  (forall c d, p c = true -> p d = true -> f c = f d -> c = d) ->
  Str.all p s = true -> Str.all p t = true -> Str.map f s = Str.map f t -> s = t.
Proof.
  intros Hf. revert t. induction s as [|c s IH]; intros [|d t]; cbn [Str.all Str.map]; try done.
  rewrite !andb_true_iff. intros [Hc Hs] [Hd Ht] [= E1 E2]. f_equal; [by apply Hf|by apply IH].
Qed.

Definition variable_char (c : ascii) : ascii := if Ascii.eqb (Str.upper_char c) "-" then "_"%char else Str.upper_char c.

Lemma variable_char_inj c d :
  kebab_char c = true -> kebab_char d = true -> variable_char c = variable_char d -> c = d.
Proof.
  destruct c as [[] [] [] [] [] [] [] []]; intros Hc; vm_compute in Hc; try discriminate Hc; clear Hc;
    destruct d as [[] [] [] [] [] [] [] []]; intros Hd; vm_compute in Hd; try discriminate Hd; clear Hd;
    intros E; vm_compute in E; try discriminate E; reflexivity.
Qed.

Lemma map_map (f g : ascii -> ascii) s : Str.map f (Str.map g s) = Str.map (fun c => f (g c)) s.
Proof. induction s as [|c s IH]; [done|]. cbn [Str.map]. by rewrite IH. Qed.

(** Two apps of a container never share a port variable. *)
Theorem app_variable_inj a b :
  Str.all kebab_char a = true -> Str.all kebab_char b = true -> app_variable a = app_variable b -> a = b.
Proof.
  intros Ha Hb E. apply app_inj_r_str in E. unfold Str.to_upper in E. rewrite !map_map in E.
  exact (map_inj variable_char kebab_char a b variable_char_inj Ha Hb E).
Qed.

Lemma app_variable_inj_witness :
  Str.all kebab_char "code-interpreter" = true /\ (app_variable "code-interpreter" = app_variable "notes" -> False).
Proof.
  split; [reflexivity|]. intros E.
  discriminate (app_variable_inj "code-interpreter" "notes" eq_refl eq_refl E).
Defined.

(** ** The HTTP bridge (packages/sdk/src/http-rpc.ts) *)

Record HttpRequest := { method : string; url : string; authorization : option string; body_chunks : list string }.

Inductive http_body : Type :=
| Healthy
| HttpError (message : string)
| Body (r : response).

(** What goes back: a status and a body; [None] when nothing does. *)
Definition http_reply : Type := option (nat * http_body).

Definition isAuthorized (header : option string) (expectedToken : string) : bool :=
  match header with
  | Some h => Str.starts_with "Bearer " h && String.eqb (Str.drop 7 h) expectedToken
  | None => false
  end.

Section http.
Context (parse : string -> option json).

Definition handleRequest (env : environment) (exports : list (string * ExportDefinition)) (body : string)
    (evs : list socket_event) : list event * ending * http_reply :=
  match parse body with
  | None => ([], Answered, Some (400, HttpError "invalid JSON body"))
  | Some request =>
      let '(trace, r) := invokeExport parse env exports request "http" evs in
      match r with
      | Throws => (trace, Rejected, None)
      | NeverSettles => (trace, Pending, None)
      | Reply r =>
          (trace, Answered,
           Some (200, Body match r with Ok v => Result (oprop "id" request) v | Err e => ErrorResponse (oprop "id" request) e end))
      end
  end.

Definition http_handler (env : environment) (exports : list (string * ExportDefinition)) (authToken : string)
    (req : HttpRequest) (evs : list socket_event) : list event * ending * http_reply :=
  if String.eqb (method req) "GET" && String.eqb (url req) "/healthz" then ([], Answered, Some (200, Healthy))
  else if negb (String.eqb (method req) "POST") || negb (String.eqb (url req) "/rpc") then
    ([], Answered, Some (404, HttpError "not found"))
  else if negb (isAuthorized (authorization req) authToken) then
    ([], Answered, Some (401, HttpError "invalid or missing bearer token"))
  else handleRequest env exports (Framing.concat (map Utf8.toString (body_chunks req))) evs.
End http.

Lemma isAuthorized_spec header token :
  isAuthorized header token = true <-> header = Some ("Bearer " +:+ token).
Proof.
  destruct header as [h|]; [|done]. cbn [isAuthorized]. rewrite andb_true_iff, StrFacts.starts_with_spec, String.eqb_eq. split.
  - intros [[t ->] H]. change 7 with (String.length "Bearer ") in H. rewrite StrFacts.drop_app in H. by subst.
  - intros [= ->]. split; [by exists token|]. exact (StrFacts.drop_app "Bearer " token).
Qed.

(** Over HTTP a handler runs, or a question reaches the governor, only for
    a POST to the one path that carries exactly the server's bearer token; a
    handler that runs in a governed app was allowed by the governor, which was
    told the caller is the bridge. *)
Theorem http_authorized parse env exports token req evs trace e reply ev :
  http_handler parse env exports token req evs = (trace, e, reply) -> ev ∈ trace ->
  method req = "POST" /\ url req = "/rpc" /\ authorization req = Some ("Bearer " +:+ token) /\
  (forall x y, ev = Ran x y -> gateConfig env = None \/
     says_allowed parse evs /\ exists q, head trace = Some (Asked q) /\ oprop "caller" (q_input q) = JStr "http").
Proof.
  unfold http_handler. destruct (String.eqb (method req) "GET" && _); [by intros [= <- _ _] ?%elem_of_nil|].
  destruct (String.eqb_spec (method req) "POST") as [Hm|]; [|by intros [= <- _ _] ?%elem_of_nil].
  destruct (String.eqb_spec (url req) "/rpc") as [Hu|]; [|by intros [= <- _ _] ?%elem_of_nil]. cbn [negb orb].
  destruct (isAuthorized _ token) eqn:Ha; cbn [negb]; [|by intros [= <- _ _] ?%elem_of_nil].
  apply isAuthorized_spec in Ha. unfold handleRequest. destruct (parse _) as [request|]; [|by intros [= <- _ _] ?%elem_of_nil].
  destruct (invokeExport parse env exports request "http" evs) as [tr r] eqn:Ei. intros H Hev.
  assert (trace = tr) as -> by (by destruct r; injection H as <- _ _). split_and!; [done..|]. intros x y ->.
  assert (Hran : Ran x y ∈ (invokeExport parse env exports request "http" evs).1) by (by rewrite Ei).
  apply invoke_ran in Hran as (def & _ & _ & _ & [?|(config & _ & Hsay & Hhead)]); [by left|right].
  rewrite Ei in Hhead. split; [done|]. by eexists.
Qed.

Definition demo_request : HttpRequest :=
  {| method := "POST"; url := "/rpc"; authorization := Some "Bearer t0ken"; body_chunks := [demo_line] |}.

Lemma http_authorized_witness :
  let trace := (http_handler JsonParse.parse demo_env demo_exports "t0ken" demo_request demo_yes).1.1 in
  Ran "save" (JStr "text") ∈ trace /\ authorization demo_request = Some ("Bearer " +:+ "t0ken").
Proof.
  assert (H : Ran "save" (JStr "text") ∈ (http_handler JsonParse.parse demo_env demo_exports "t0ken" demo_request demo_yes).1.1)
    by (vm_compute; right; left).
  split; [exact H|].
  destruct (http_handler JsonParse.parse demo_env demo_exports "t0ken" demo_request demo_yes) as [[trace e] reply] eqn:E.
  exact (proj1 (proj2 (proj2 (http_authorized _ _ _ _ _ _ _ _ _ _ E H)))).
Defined.

End Rpc.
