(* ===== verification/FileLock.v ===== *)
(** * The cross-process lock (packages/audit/src/file-lock.ts)

    Any number of processes of one host run the code's system calls one at a
    time, in any order, and may die between any two of them. A file's inode
    number is its identity here; a name on the disk is an entry of the
    directory, and unlinking a name leaves the file to whoever has it open. *)
From S2P Require Import Prelude JsNumber.

Module FileLock.

(** ** Who holds a lock file, and whether it is stale *)

Inductive kill_result : Type := Alive | EPERM | ESRCH.

Record Observed := { content : string; ino : nat; ageMs : Z }.

Definition newline : string := String "010" "".

Definition ownerLine (hostname : string) (pid : Z) (token : string) : string :=
  JsNumber.to_string pid +:+ " " +:+ hostname +:+ " " +:+ token +:+ newline.

(** [!s] of an element an array may not have. *)
Definition missing (s : option string) : bool := match s with Some w => String.eqb w "" | None => true end.

Definition isStale (hostname : string) (kill : Z -> kill_result) (lock : Observed) (staleMs : Z) : bool :=
  let parts := Str.split " " (Str.trim_end (content lock)) in
  let host := parts !! 1 in
  let old := (staleMs <? ageMs lock)%Z in
  match JsNumber.to_integer (JsNumber.Number (or_default "" (parts !! 0))) with
  | None => old
  | Some pid =>
      if (pid <=? 0)%Z || missing host || missing (parts !! 2) then old
      else if negb (bool_decide (host = Some hostname)) then old
      else match kill pid with ESRCH => true | Alive | EPERM => false end
  end.

(** ** The disk *)

(** Who created a file is not on the disk; the proofs follow it. *)
Record File := { text : string; creator : Z }.

(** Where a process is: what it does next. *)
Inductive pc : Type :=
| Idle                                                 (* create the lock file *)
| Created (f : nat) (owner : string)                   (* write its name in it *)
| Held (owner : string)                                (* release: read the file *)
| Releasing                                            (* release: unlink it *)
| Observing                                            (* breakIfStale: open the lock file *)
| Opened (f : nat)                                     (* and read it *)
| Judged (seen : Observed)                             (* create the .break *)
| BreakCreated (seen : Observed) (f : nat) (breaker : string)
| Breaking (seen : Observed) (breaker : string)        (* open the lock file again *)
| Reopened (seen : Observed) (breaker : string) (f : nat)
| Confirmed (breaker : string)                         (* unlink it *)
| Unbreaking (breaker : string)                        (* read the .break *)
| BreakReleasing                                       (* unlink it *)
| Claiming                                             (* open someone else's .break *)
| ClaimOpened (f : nat)                                (* and read it *)
| ClaimStale (claim : Observed)                        (* stat the name again *)
| ClaimConfirmed.                                      (* unlink it *)

Record State := {
  main : option nat;     (* the lock file *)
  brk : option nat;      (* its .break *)
  files : nat -> File;
  next : nat;
  procs : Z -> pc;
  live : Z -> bool
}.

Definition update {K A} `{EqDecision K} (k : K) (a : A) (f : K -> A) : K -> A :=
  fun k' => if decide (k = k') then a else f k'.

Definition set_pc (p : Z) (c : pc) (s : State) : State :=
  {| main := main s; brk := brk s; files := files s; next := next s; procs := update p c (procs s); live := live s |}.
Definition set_main (f : option nat) (s : State) : State :=
  {| main := f; brk := brk s; files := files s; next := next s; procs := procs s; live := live s |}.
Definition set_brk (f : option nat) (s : State) : State :=
  {| main := main s; brk := f; files := files s; next := next s; procs := procs s; live := live s |}.
Definition write (f : nat) (t : string) (s : State) : State :=
  {| main := main s; brk := brk s; files := update f {| text := t; creator := creator (files s f) |} (files s);
     next := next s; procs := procs s; live := live s |}.
(** A new, empty file. *)
Definition new_file (p : Z) (s : State) : State :=
  {| main := main s; brk := brk s; files := update (next s) {| text := ""; creator := p |} (files s);
     next := S (next s); procs := procs s; live := live s |}.

Section lock.
Context (hostname : string) (staleMs : Z).

Definition kill (s : State) (pid : Z) : kill_result := if live s pid then Alive else ESRCH.

Definition observed (s : State) (f : nat) (age : Z) : Observed := {| content := text (files s f); ino := f; ageMs := age |}.

(** [acquireFileLock] and [heldLock]: process [p] makes its next system call.
    [token] is what [randomBytes] gives it, [age] how old the file it reads is.
    A process that finds the lock taken tries again. *)
Definition step (p : Z) (token : string) (age : Z) (s : State) : State :=
  let owner := ownerLine hostname p token in
  match procs s p with
  | Idle =>
      match main s with
      | Some _ => set_pc p Observing s
      | None => set_pc p (Created (next s) owner) (set_main (Some (next s)) (new_file p s))
      end
  | Created f owner => set_pc p (Held owner) (write f owner s)
  | Held owner =>
      match main s with
      | Some f => set_pc p (if bool_decide (text (files s f) = owner) then Releasing else Idle) s
      | None => set_pc p Idle s
      end
  | Releasing => set_pc p Idle (set_main None s)
  | Observing => set_pc p (match main s with Some f => Opened f | None => Idle end) s
  | Opened f =>
      let seen := observed s f age in
      set_pc p (if isStale hostname (kill s) seen staleMs then Judged seen else Idle) s
  | Judged seen =>
      match brk s with
      | Some _ => set_pc p Claiming s
      | None => set_pc p (BreakCreated seen (next s) owner) (set_brk (Some (next s)) (new_file p s))
      end
  | BreakCreated seen f breaker => set_pc p (Breaking seen breaker) (write f breaker s)
  | Breaking seen breaker =>
      set_pc p (match main s with Some f => Reopened seen breaker f | None => Unbreaking breaker end) s
  | Reopened seen breaker f =>
      let now := observed s f age in
      set_pc p (if bool_decide (ino now = ino seen) && bool_decide (content now = content seen)
                then Confirmed breaker else Unbreaking breaker) s
  | Confirmed breaker => set_pc p (Unbreaking breaker) (set_main None s)
  | Unbreaking breaker =>
      match brk s with
      | Some f => set_pc p (if bool_decide (text (files s f) = breaker) then BreakReleasing else Idle) s
      | None => set_pc p Idle s
      end
  | BreakReleasing => set_pc p Idle (set_brk None s)
  | Claiming => set_pc p (match brk s with Some f => ClaimOpened f | None => Idle end) s
  | ClaimOpened f =>
      let claim := observed s f age in
      set_pc p (if isStale hostname (kill s) claim staleMs then ClaimStale claim else Idle) s
  | ClaimStale claim => set_pc p (if bool_decide (brk s = Some (ino claim)) then ClaimConfirmed else Idle) s
  | ClaimConfirmed => set_pc p Idle (set_brk None s)
  end.

(** A process takes a step, or dies where it is. *)
Inductive action : Type :=
| Step (p : Z) (token : string) (age : Z)
| Crash (p : Z).

Definition apply (s : State) (a : action) : State :=
  match a with
  | Step p token age => if live s p then step p token age s else s
  | Crash p =>
      {| main := main s; brk := brk s; files := files s; next := next s; procs := procs s;
         live := update p false (live s) |}
  end.

Definition run : State -> list action -> State := foldl apply.

(** [held()] *)
Definition held (s : State) (owner : string) : bool :=
  match main s with Some f => bool_decide (text (files s f) = owner) | None => false end.

End lock.

(** The processes with these pids, before any of them has started. *)
Definition init (pids : list Z) : State :=
  {| main := None; brk := None; files := fun _ => {| text := ""; creator := 0 |}; next := 0;
     procs := fun _ => Idle; live := fun p => bool_decide (p ∈ pids) |}.

(** ** What the owner line says *)

Definition word (s : string) : bool := negb (String.eqb s "") && Str.all (fun c => negb (Str.is_space c)) s.

Lemma trim_end_word t : Str.all (fun c => negb (Str.is_space c)) t = true -> Str.trim_end (t +:+ newline) = t.
Proof.
  induction t as [|c t IH]; [done|]. cbn [Str.all]. rewrite andb_true_iff. intros [Hc Ht].
  rewrite app_cons_str. cbn [Str.trim_end]. rewrite IH by done. apply negb_true_iff in Hc. rewrite Hc. by destruct t.
Qed.

Lemma trim_end_app s t : Str.trim_end t <> "" -> Str.trim_end (s +:+ t) = s +:+ Str.trim_end t.
Proof.
  intros Ht. induction s as [|c s IH]; [done|]. rewrite !app_cons_str. cbn [Str.trim_end]. rewrite IH.
  destruct (s +:+ Str.trim_end t) eqn:E; [|done]. destruct s; [by destruct Ht|done].
Qed.

Lemma no_space_word s : Str.all (fun c => negb (Str.is_space c)) s = true -> Str.any (Ascii.eqb " ") s = false.
Proof.
  intros H. rewrite StrFacts.any_negb_all. apply negb_false_iff. revert H. apply StrFacts.all_impl.
  intros c Hc. apply negb_true_iff. destruct (Ascii.eqb_spec " " c) as [<-|]; done.
Qed.

Lemma digits_word s : Str.all Str.is_digit s = true -> Str.all (fun c => negb (Str.is_space c)) s = true.
Proof.
  apply StrFacts.all_impl. intros c Hc. destruct c as [[] [] [] [] [] [] [] []]; done.
Qed.

Definition pid_ok (p : Z) : Prop := (0 < p < 9007199254740992)%Z.

Lemma owner_parts hostname p token :
  word hostname = true -> pid_ok p -> word token = true ->
  Str.split " " (Str.trim_end (ownerLine hostname p token)) = [JsNumber.to_string p; hostname; token].
Proof.
  unfold word, pid_ok. rewrite !andb_true_iff, !negb_true_iff. intros [Hh0 Hh] Hp [Ht0 Ht].
  destruct (JsNumber.to_string_spec p) as (_ & Hd & _); [lia|].
  assert (Hend : Str.trim_end (token +:+ newline) = token) by (by apply trim_end_word).
  assert (Hne : token <> "") by (by apply String.eqb_neq).
  assert (E : ownerLine hostname p token =
    (JsNumber.to_string p +:+ " " +:+ hostname +:+ " ") +:+ (token +:+ newline)) by (unfold ownerLine; by rewrite !app_assoc_str).
  assert (Hsp : forall x, " " +:+ x = String " " x) by done.
  rewrite E, trim_end_app, Hend by (by rewrite Hend). rewrite !app_assoc_str, !Hsp.
  rewrite (StrFacts.split_app " ") by (by apply no_space_word, digits_word).
  rewrite (StrFacts.split_app " ") by (by apply no_space_word).
  by rewrite StrFacts.split_single by (by apply no_space_word).
Qed.

(** A named file is stale exactly when its pid is gone, whatever its age. *)
Lemma isStale_owner hostname kill p token f age staleMs :
  word hostname = true -> pid_ok p -> word token = true ->
  isStale hostname kill {| content := ownerLine hostname p token; ino := f; ageMs := age |} staleMs =
  match kill p with ESRCH => true | _ => false end.
Proof.
  intros Hh Hp Ht. unfold isStale. cbn [content]. rewrite owner_parts by done. cbn [lookup list_lookup or_default].
  unfold pid_ok in Hp. rewrite JsNumber.Number_to_string by lia.
  assert (Hz : (p <=? 0)%Z = false) by lia. rewrite Hz. cbn [missing orb].
  unfold word in *. apply andb_true_iff in Hh as [Hh _], Ht as [Ht _]. apply negb_true_iff in Hh, Ht. rewrite Hh, Ht.
  cbn [orb]. by rewrite bool_decide_true.
Qed.

(** An empty one once it is old. *)
Lemma isStale_empty hostname kill f age staleMs :
  isStale hostname kill {| content := ""; ino := f; ageMs := age |} staleMs = (staleMs <? age)%Z.
Proof. reflexivity. Qed.

(** ** The invariant

    [Created] and the states of a breaker are the windows in which a death
    leaves something the code cannot judge by a pid. *)

Definition owner_pc (f : nat) (c : pc) : Prop :=
  match c with Created g _ => g = f | Held _ | Releasing => True | _ => False end.

Definition breaker_pc (c : pc) : bool :=
  match c with
  | BreakCreated _ _ _ | Breaking _ _ | Reopened _ _ _ | Confirmed _ | Unbreaking _ | BreakReleasing => true
  | _ => false
  end.

Definition creating (f : nat) (c : pc) : Prop :=
  match c with Created g _ | BreakCreated _ g _ => g = f | _ => False end.

Section invariant.
Context (hostname : string) (staleMs : Z).

Definition owner_line (p : Z) (o : string) : Prop :=
  pid_ok p /\ exists token, word token = true /\ o = ownerLine hostname p token.

(** The file a process judged is that of a dead one. *)
Definition dead_file (s : State) (seen : Observed) : Prop :=
  ino seen < next s /\ live s (creator (files s (ino seen))) = false.

Definition has_brk (s : State) (p : Z) (breaker : string) : Prop :=
  exists f, brk s = Some f /\ creator (files s f) = p /\ text (files s f) = breaker.

Definition pc_ok (s : State) (p : Z) (c : pc) : Prop :=
  match c with
  | Idle | Observing | Claiming => True
  | Created f o => main s = Some f /\ creator (files s f) = p /\ owner_line p o
  | Held o => exists f, main s = Some f /\ creator (files s f) = p /\ text (files s f) = o
  | Releasing => exists f, main s = Some f /\ creator (files s f) = p
  | Opened f | ClaimOpened f => f < next s
  | Judged seen | ClaimStale seen => dead_file s seen
  | BreakCreated seen f b =>
      dead_file s seen /\ brk s = Some f /\ creator (files s f) = p /\ owner_line p b
  | Breaking seen b => dead_file s seen /\ has_brk s p b
  | Reopened seen b f => dead_file s seen /\ has_brk s p b /\ (f = ino seen -> main s = Some f)
  | Confirmed b => has_brk s p b /\ exists f, main s = Some f /\ live s (creator (files s f)) = false
  | Unbreaking b => has_brk s p b
  | BreakReleasing => exists f, brk s = Some f /\ creator (files s f) = p
  | ClaimConfirmed => False
  end.

Record Inv (s : State) : Prop := {
  inv_main : forall f, main s = Some f -> f < next s /\
    (live s (creator (files s f)) = true -> owner_pc f (procs s (creator (files s f))));
  inv_brk : forall f, brk s = Some f -> f < next s /\
    live s (creator (files s f)) = true /\ breaker_pc (procs s (creator (files s f))) = true;
  inv_files : forall f, f < next s ->
    owner_line (creator (files s f)) (text (files s f)) \/
    text (files s f) = "" /\ live s (creator (files s f)) = true /\ creating f (procs s (creator (files s f)));
  inv_procs : forall p, live s p = true -> pc_ok s p (procs s p)
}.

(** What a process relies on of the two names. *)
Definition main_claim (c : pc) : bool :=
  match c with
  | Created _ _ | Held _ | Releasing | Confirmed _ => true
  | Reopened seen _ f => bool_decide (f = ino seen)
  | _ => false
  end.

(** What process [q] knows survives a step of another. *)
Lemma pc_ok_frame s s' q c :
  pc_ok s q c ->
  live s' = live s -> next s <= next s' ->
  (forall f, main s = Some f -> f < next s) -> (forall f, brk s = Some f -> f < next s) ->
  (forall f, f < next s -> creator (files s' f) = creator (files s f)) ->
  (forall f, f < next s -> creator (files s f) = q -> files s' f = files s f) ->
  (main_claim c = true -> main s' = main s) -> (breaker_pc c = true -> brk s' = brk s) ->
  pc_ok s' q c.
Proof.
  intros H Hlive Hnext Hm Hb Hcr Hown Hmc Hbc.
  assert (Hdead : forall seen, dead_file s seen -> dead_file s' seen).
  { intros seen [H1 H2]. split; [lia|]. by rewrite Hcr, Hlive. }
  assert (Hbrk : forall b, brk s' = brk s -> has_brk s q b -> has_brk s' q b).
  { intros b E (f & H1 & H2 & H3). exists f. pose proof (Hb f H1). rewrite E, Hown by done. done. }
  destruct c; cbn [pc_ok main_claim breaker_pc] in *; try done; try (by apply Hdead); try lia.
  - destruct H as (H1 & H2 & H3). pose proof (Hm _ H1). rewrite Hmc, Hcr by done. done.
  - destruct H as (f & H1 & H2 & H3). pose proof (Hm f H1). exists f. rewrite Hmc, Hown by done. done.
  - destruct H as (f & H1 & H2). pose proof (Hm f H1). exists f. rewrite Hmc, Hcr by done. done.
  - destruct H as (H0 & H1 & H2 & H3). pose proof (Hb _ H1). rewrite Hbc, Hcr by done. split_and!; auto.
  - destruct H as [H0 H1]. split; auto.
  - destruct H as (H0 & H1 & H2). split_and!; auto. intros E. rewrite Hmc; [by apply H2|by apply bool_decide_true].
  - destruct H as (H0 & f & H1 & H2). split; [auto|]. exists f. pose proof (Hm f H1). rewrite Hmc, Hcr, Hlive by done. done.
  - auto.
  - destruct H as (f & H1 & H2). pose proof (Hb f H1). exists f. rewrite Hbc, Hcr by done. done.
Qed.

(** A step of [p] that changes only its own place. *)
Lemma Inv_set_pc s p c :
  Inv s -> live s p = true ->
  (forall f, owner_pc f (procs s p) -> owner_pc f c) ->
  (breaker_pc (procs s p) = true -> breaker_pc c = true) ->
  (forall f, creating f (procs s p) -> creating f c) ->
  pc_ok s p c -> Inv (set_pc p c s).
Proof.
  intros [Im Ib If Ip] Hl Ho Hb Hc Hok.
  assert (Hup : forall q, procs (set_pc p c s) q = if decide (p = q) then c else procs s q) by done.
  split; cbn [set_pc main brk files next live] in *.
  - intros f Hf. destruct (Im f Hf) as [H1 H2]. split; [done|]. intros Hlf. specialize (H2 Hlf). rewrite Hup.
    case_decide; [|done]. subst. by apply Ho.
  - intros f Hf. destruct (Ib f Hf) as (H1 & H2 & H3). split_and!; [done|done|]. rewrite Hup. case_decide; [|done].
    subst. by apply Hb.
  - intros f Hf. destruct (If f Hf) as [H1|(H1 & H2 & H3)]; [by left|right]. split_and!; [done|done|]. rewrite Hup.
    case_decide; [|done]. subst. by apply Hc.
  - intros q Hq. rewrite Hup. case_decide as E; [subst; by destruct c|].
    specialize (Ip q Hq). by destruct (procs s q).
Qed.

Lemma breaker_owns s p :
  Inv s -> live s p = true -> breaker_pc (procs s p) = true ->
  exists f, brk s = Some f /\ creator (files s f) = p.
Proof.
  intros [_ _ _ Ip] Hl Hb. specialize (Ip p Hl). destruct (procs s p); cbn in *; try done.
  - destruct Ip as (_ & ? & ? & _). by exists f.
  - destruct Ip as (_ & f & ? & ? & _). by exists f.
  - destruct Ip as (_ & (g & ? & ? & _) & _). by exists g.
  - destruct Ip as ((f & ? & ? & _) & _). by exists f.
  - destruct Ip as (f & ? & ? & _). by exists f.
Qed.

Lemma breaker_unique s p q :
  Inv s -> live s p = true -> live s q = true ->
  breaker_pc (procs s p) = true -> breaker_pc (procs s q) = true -> p = q.
Proof.
  intros HI Hp Hq Hbp Hbq. destruct (breaker_owns s p HI Hp Hbp) as (f & H1 & H2).
  destruct (breaker_owns s q HI Hq Hbq) as (g & H3 & H4). congruence.
Qed.

(** Whoever relies on the lock file made it, or is the breaker of a dead one. *)
Lemma main_claim_owns s q :
  Inv s -> live s q = true -> main_claim (procs s q) = true ->
  exists f, main s = Some f /\
    (creator (files s f) = q \/ live s (creator (files s f)) = false /\ breaker_pc (procs s q) = true).
Proof.
  intros [_ _ _ Ip] Hl Hc. specialize (Ip q Hl). destruct (procs s q); cbn in *; try done.
  - exists f. destruct Ip as (? & ? & ?). auto.
  - destruct Ip as (f & ? & ? & ?). exists f. auto.
  - destruct Ip as (f & ? & ?). exists f. auto.
  - apply bool_decide_eq_true in Hc as ->. destruct Ip as ([_ Hd] & _ & Hm). exists (ino seen). auto.
  - destruct Ip as (_ & f & ? & ?). exists f. auto.
Qed.

(** A step of [p]: the frame takes care of the others. *)
Lemma Inv_intro s s' p c :
  Inv s -> live s' = live s -> procs s' = update p c (procs s) -> next s <= next s' ->
  (forall f, f < next s -> creator (files s' f) = creator (files s f)) ->
  (forall f, f < next s -> creator (files s f) <> p -> files s' f = files s f) ->
  (main s' = main s \/ forall q, p <> q -> live s q = true -> main_claim (procs s q) = false) ->
  (brk s' = brk s \/ forall q, p <> q -> live s q = true -> breaker_pc (procs s q) = false) ->
  (forall f, main s' = Some f -> f < next s' /\
     (live s (creator (files s' f)) = true -> owner_pc f (procs s' (creator (files s' f))))) ->
  (forall f, brk s' = Some f -> f < next s' /\
     live s (creator (files s' f)) = true /\ breaker_pc (procs s' (creator (files s' f))) = true) ->
  (forall f, f < next s' -> owner_line (creator (files s' f)) (text (files s' f)) \/
     text (files s' f) = "" /\ live s (creator (files s' f)) = true /\ creating f (procs s' (creator (files s' f)))) ->
  pc_ok s' p c -> Inv s'.
Proof.
  intros [Im Ib If Ip] Hlive Hprocs Hnext Hcr Hown Hmain Hbrk Hm' Hb' Hf' Hp'.
  split; rewrite ?Hlive; [done..|]. intros q Hq. rewrite Hprocs. unfold update. case_decide as E; [by subst|].
  apply (pc_ok_frame s s'); try done; [by apply Ip|intros; by apply Im|intros; by apply Ib| | |].
  - intros f Hf Hcq. apply Hown; [done|congruence].
  - destruct Hmain as [?|Hn]; [done|]. intros Hc. by rewrite Hn in Hc.
  - destruct Hbrk as [?|Hn]; [done|]. intros Hc. by rewrite Hn in Hc.
Qed.

Lemma update_eq {K A} `{EqDecision K} (k : K) (a : A) f : update k a f k = a.
Proof. unfold update. by rewrite decide_True. Qed.

Lemma update_ne {K A} `{EqDecision K} (k k' : K) (a : A) f : k <> k' -> update k a f k' = f k'.
Proof. intros. unfold update. by rewrite decide_False. Qed.

Lemma owner_line_make p token : pid_ok p -> word token = true -> owner_line p (ownerLine hostname p token).
Proof. intros Hp Ht. split; [done|]. by exists token. Qed.

(** A new file is the next one, and nobody else knows of it. *)
Lemma new_files s p f : f < next s -> files (new_file p s) f = files s f.
Proof. intros Hf. cbn. apply update_ne. lia. Qed.

Lemma Inv_create s p token :
  Inv s -> live s p = true -> pid_ok p -> word token = true -> procs s p = Idle -> main s = None ->
  Inv (set_pc p (Created (next s) (ownerLine hostname p token)) (set_main (Some (next s)) (new_file p s))).
Proof.
  intros HI Hl Hp Ht Hpc Hm. pose proof HI as [Im Ib If Ip]. eapply (Inv_intro s _ p); cbn; try done.
  - lia.
  - intros f Hf. by rewrite update_ne by lia.
  - intros f Hf _. by rewrite update_ne by lia.
  - right. intros q Hne Hq. destruct (main_claim _) eqn:E; [|done].
    destruct (main_claim_owns s q HI Hq E) as (f & Hf & _). congruence.
  - by left.
  - intros f [= <-]. split; [lia|]. rewrite update_eq. cbn. by rewrite update_eq.
  - intros f Hf. destruct (Ib f Hf) as (H1 & H2 & H3). rewrite update_ne by lia. split_and!; [lia|done|].
    rewrite update_ne; [done|]. intros E. by rewrite <- E, Hpc in H3.
  - intros f Hf. destruct (decide (f = next s)) as [->|Hne].
    + rewrite update_eq. cbn. rewrite update_eq. by right.
    + rewrite update_ne by done. destruct (If f ltac:(lia)) as [?|(H1 & H2 & H3)]; [by left|right].
      rewrite update_ne; [done|]. intros E. by rewrite <- E, Hpc in H3.
  - cbn. rewrite update_eq. split_and!; [done|done|by apply owner_line_make].
Qed.

Lemma Inv_create_brk s p token seen :
  Inv s -> live s p = true -> pid_ok p -> word token = true -> procs s p = Judged seen -> brk s = None ->
  Inv (set_pc p (BreakCreated seen (next s) (ownerLine hostname p token)) (set_brk (Some (next s)) (new_file p s))).
Proof.
  intros HI Hl Hp Ht Hpc Hb. pose proof HI as [Im Ib If Ip]. pose proof (Ip p Hl) as Hok. rewrite Hpc in Hok.
  eapply (Inv_intro s _ p); cbn; try done.
  - lia.
  - intros f Hf. by rewrite update_ne by lia.
  - intros f Hf _. by rewrite update_ne by lia.
  - by left.
  - right. intros q Hne Hq. destruct (breaker_pc _) eqn:E; [|done].
    destruct (breaker_owns s q HI Hq E) as (f & Hf & _). congruence.
  - intros f Hf. destruct (Im f Hf) as [H1 H2]. rewrite update_ne by lia. split; [lia|]. intros H.
    rewrite update_ne; [by apply H2|]. intros E. specialize (H2 H). by rewrite <- E, Hpc in H2.
  - intros f [= <-]. rewrite update_eq. cbn. rewrite update_eq. split_and!; [lia|done|done].
  - intros f Hf. destruct (decide (f = next s)) as [->|Hne].
    + rewrite update_eq. cbn. rewrite update_eq. by right.
    + rewrite update_ne by done. destruct (If f ltac:(lia)) as [?|(H1 & H2 & H3)]; [by left|right].
      rewrite update_ne; [done|]. intros E. by rewrite <- E, Hpc in H3.
  - destruct Hok as [Hd1 Hd2]. cbn. split_and!; [|done|by rewrite update_eq|by apply owner_line_make].
    split; cbn; [lia|]. by rewrite update_ne by lia.
Qed.

(** Writing one's name into the file one created. *)
Lemma Inv_write s p f o c :
  Inv s -> live s p = true -> f < next s -> creator (files s f) = p -> owner_line p o ->
  creating f (procs s p) ->
  (forall g, owner_pc g (procs s p) -> owner_pc g c) ->
  (breaker_pc (procs s p) = true -> breaker_pc c = true) ->
  (forall s', main s' = main s -> brk s' = brk s -> next s' = next s -> live s' = live s ->
     (forall g, creator (files s' g) = creator (files s g)) -> text (files s' f) = o -> pc_ok s' p c) ->
  Inv (set_pc p c (write f o s)).
Proof.
  intros HI Hl Hf Hcr Ho Hcreating Hown Hbrk Hok. pose proof HI as [Im Ib If Ip].
  assert (Hc : forall g, creator (update f {| text := o; creator := creator (files s f) |} (files s) g) = creator (files s g)).
  { intros g. unfold update. case_decide; [by subst|done]. }
  eapply (Inv_intro s _ p); cbn; try done.
  - intros g Hg Hne. rewrite update_ne; [done|]. intros ->. done.
  - by left.
  - by left.
  - intros g Hg. destruct (Im g Hg) as [H1 H2]. split; [done|]. rewrite Hc. intros H. specialize (H2 H).
    destruct (decide (p = creator (files s g))) as [E|E]; [|by rewrite update_ne].
    rewrite <- E in *. rewrite update_eq. by apply Hown.
  - intros g Hg. destruct (Ib g Hg) as (H1 & H2 & H3). rewrite Hc. split_and!; [done|done|].
    destruct (decide (p = creator (files s g))) as [E|E]; [|by rewrite update_ne].
    rewrite <- E in *. rewrite update_eq. by apply Hbrk.
  - intros g Hg. rewrite Hc. destruct (decide (f = g)) as [<-|Hne].
    + rewrite update_eq. cbn. left. by rewrite Hcr.
    + rewrite (update_ne f g) by done. destruct (If g Hg) as [?|(H1 & H2 & H3)]; [by left|right].
      destruct (decide (p = creator (files s g))) as [E|E]; [|by rewrite update_ne].
      rewrite <- E in H3. exfalso. destruct (procs s p); cbn in *; congruence.
  - apply Hok; try done. cbn. by rewrite update_eq.
Qed.

(** Unlinking the lock file: its holder's doing, or a breaker's whose file is
    a dead one's. *)
Lemma Inv_unlink s p c :
  Inv s -> live s p = true ->
  (exists f, main s = Some f /\
     (creator (files s f) = p \/ live s (creator (files s f)) = false /\ breaker_pc (procs s p) = true)) ->
  (forall g, creating g (procs s p) -> False) ->
  (breaker_pc (procs s p) = true -> breaker_pc c = true) ->
  (forall s', brk s' = brk s -> files s' = files s -> pc_ok s' p c) ->
  Inv (set_pc p c (set_main None s)).
Proof.
  intros HI Hl (f & Hf & Hfp) Hcreating Hbrk Hok. pose proof HI as [Im Ib If Ip].
  eapply (Inv_intro s _ p); cbn; try done.
  - right. intros q Hne Hq. destruct (main_claim _) eqn:E; [|done].
    destruct (main_claim_owns s q HI Hq E) as (g & Hg & Hgq). exfalso. rewrite Hf in Hg. injection Hg as <-.
    destruct Hfp as [?|[? Hbp]], Hgq as [?|[? Hbq]]; try congruence.
    by apply Hne, (breaker_unique s).
  - by left.
  - intros g Hg. destruct (Ib g Hg) as (H1 & H2 & H3). split_and!; [done|done|].
    destruct (decide (p = creator (files s g))) as [E|E]; [|by rewrite update_ne].
    rewrite <- E in *. rewrite update_eq. by apply Hbrk.
  - intros g Hg. destruct (If g Hg) as [?|(H1 & H2 & H3)]; [by left|right].
    destruct (decide (p = creator (files s g))) as [E|E]; [|by rewrite update_ne].
    rewrite <- E in H3. by destruct (Hcreating g).
  - by apply Hok.
Qed.

(** Unlinking one's own [.break]. *)
Lemma Inv_unlink_brk s p :
  Inv s -> live s p = true -> procs s p = BreakReleasing -> Inv (set_pc p Idle (set_brk None s)).
Proof.
  intros HI Hl Hpc. pose proof HI as [Im Ib If Ip]. eapply (Inv_intro s _ p); cbn; try done.
  - by left.
  - right. intros q Hne Hq. destruct (breaker_pc _) eqn:E; [|done]. destruct Hne.
    apply (breaker_unique s); [done..|by rewrite Hpc|done].
  - intros g Hg. destruct (Im g Hg) as [H1 H2]. split; [done|]. intros H. specialize (H2 H).
    rewrite update_ne; [done|]. intros E. by rewrite <- E, Hpc in H2.
  - intros g Hg. destruct (If g Hg) as [?|(H1 & H2 & H3)]; [by left|right].
    rewrite update_ne; [done|]. intros E. by rewrite <- E, Hpc in H3.
Qed.

(** A death outside the two windows. *)
Definition may_die (c : pc) : bool := match c with Created _ _ => false | _ => negb (breaker_pc c) end.

Lemma Inv_crash s p : Inv s -> may_die (procs s p) = true -> Inv (apply hostname staleMs s (Crash p)).
Proof.
  intros [Im Ib If Ip] Hdie.
  assert (Hlive : forall q, update p false (live s) q = true -> p <> q /\ live s q = true).
  { intros q. unfold update. by case_decide. }
  assert (Hdead : forall q, live s q = false -> update p false (live s) q = false).
  { intros q Hq. unfold update. by case_decide. }
  split; cbn [apply main brk files next procs live].
  - intros f Hf. destruct (Im f Hf) as [H1 H2]. split; [done|]. intros [_ ?]%Hlive. by apply H2.
  - intros f Hf. destruct (Ib f Hf) as (H1 & H2 & H3). split_and!; [done| |done].
    rewrite update_ne; [done|]. intros E. rewrite <- E in H3. destruct (procs s p); done.
  - intros f Hf. destruct (If f Hf) as [?|(H1 & H2 & H3)]; [by left|right]. split_and!; [done| |done].
    rewrite update_ne; [done|]. intros E. rewrite <- E in H3. destruct (procs s p); done.
  - intros q [Hne Hq]%Hlive. specialize (Ip q Hq). destruct (procs s q); cbn in *; try done.
    + destruct Ip as [? ?]. split; [done|by apply Hdead].
    + destruct Ip as [[? ?] ?]. split; [|done]. split; [done|by apply Hdead].
    + destruct Ip as [[? ?] ?]. split; [|done]. split; [done|by apply Hdead].
    + destruct Ip as ([? ?] & ?). split; [|done]. split; [done|by apply Hdead].
    + destruct Ip as (? & f & ? & ?). split; [done|]. exists f. split; [done|by apply Hdead].
    + destruct Ip as [? ?]. split; [done|by apply Hdead].
Qed.

Hypothesis host_word : word hostname = true.

(** The file a process is reading. *)
Definition reads (c : pc) : option nat := match c with Opened f | ClaimOpened f => Some f | _ => None end.

(** No file is judged by its age: one that is still empty is read while it is
    young. *)
Definition timely (s : State) (p : Z) (age : Z) : bool :=
  match reads (procs s p) with
  | Some f => negb (String.eqb (text (files s f)) "") || (age <=? staleMs)%Z
  | None => true
  end.

Lemma timely_empty s p age f :
  timely s p age = true -> reads (procs s p) = Some f -> text (files s f) = "" -> (age <= staleMs)%Z.
Proof. unfold timely. intros H Hr Ht. rewrite Hr, Ht, String.eqb_refl in H. cbn [negb orb] in H. lia. Qed.

Lemma judged s f age :
  Inv s -> f < next s -> (text (files s f) = "" -> (age <= staleMs)%Z) ->
  isStale hostname (kill s) (observed s f age) staleMs = true -> live s (creator (files s f)) = false.
Proof.
  intros HI Hf Hage. unfold observed. destruct (inv_files s HI f Hf) as [(Hp & token & Ht & ->)|(E & _ & _)].
  - rewrite isStale_owner by done. unfold kill. by destruct (live s _).
  - rewrite E in *. rewrite isStale_empty. specialize (Hage eq_refl). lia.
Qed.

Lemma Inv_step s p token age :
  Inv s -> live s p = true -> pid_ok p -> word token = true -> timely s p age = true ->
  Inv (step hostname staleMs p token age s).
Proof.
  intros HI Hl Hpid Ht Htime. pose proof (inv_procs s HI p Hl) as Hok.
  pose proof (fun f => timely_empty s p age f Htime) as Hage. clear Htime. unfold step in *.
  destruct (procs s p) eqn:Hpc; cbn [pc_ok reads] in *.
  - destruct (main s) eqn:Hm; [apply Inv_set_pc; rewrite ?Hpc; done|by apply Inv_create].
  - destruct Hok as (Hm & Hcr & Ho). apply Inv_write; rewrite ?Hpc; try done; [by apply (inv_main s HI)|].
    intros s' Em _ _ _ Ec Et. exists f. by rewrite Em, Ec.
  - destruct Hok as (f & Hm & Hcr & <-). rewrite Hm, bool_decide_true by done.
    apply Inv_set_pc; rewrite ?Hpc; try done. by exists f.
  - destruct Hok as (f & Hm & Hcr). apply Inv_unlink; rewrite ?Hpc; try done. exists f. auto.
  - destruct (main s) as [f|] eqn:Hm; apply Inv_set_pc; rewrite ?Hpc; try done. by apply (inv_main s HI).
  - destruct (isStale _ _ _ _) eqn:Hst; apply Inv_set_pc; rewrite ?Hpc; try done.
    split; [done|]. apply (judged s f age HI Hok); [by apply Hage|done].
  - destruct (brk s) eqn:Hb; [by apply Inv_set_pc; rewrite ?Hpc|by apply Inv_create_brk].
  - destruct Hok as (Hd & Hb & Hcr & Ho). apply Inv_write; rewrite ?Hpc; try done; [by apply (inv_brk s HI)|].
    intros s' _ Eb En El Ec Et. split; [|by exists f; rewrite Eb, Ec]. destruct Hd as [? ?]. split; [by rewrite En|].
    by rewrite Ec, El.
  - destruct Hok as [Hd Hb]. destruct (main s) as [f|] eqn:Hm; apply Inv_set_pc; rewrite ?Hpc; done.
  - destruct Hok as ([Hd1 Hd2] & Hb & Hm). cbn [ino content observed].
    destruct (bool_decide_reflect (f = ino seen)) as [E|E]; cbn [andb]; [|apply Inv_set_pc; rewrite ?Hpc; done].
    destruct (bool_decide _); apply Inv_set_pc; rewrite ?Hpc; try done. split; [done|]. exists f. subst f. auto.
  - destruct Hok as [Hb (f & Hm & Hd)]. apply Inv_unlink; rewrite ?Hpc; try done.
    + exists f. auto.
    + intros s' Eb Ef. destruct Hb as (g & ? & ? & ?). exists g. by rewrite Eb, Ef.
  - destruct Hok as (f & Hb & Hcr & <-). rewrite Hb, bool_decide_true by done.
    apply Inv_set_pc; rewrite ?Hpc; try done. by exists f.
  - by apply Inv_unlink_brk.
  - destruct (brk s) as [f|] eqn:Hb; apply Inv_set_pc; rewrite ?Hpc; try done. by apply (inv_brk s HI).
  - destruct (isStale _ _ _ _) eqn:Hst; apply Inv_set_pc; rewrite ?Hpc; try done.
    split; [done|]. apply (judged s f age HI Hok); [by apply Hage|done].
  - destruct Hok as [_ Hd]. rewrite bool_decide_false; [by apply Inv_set_pc; rewrite ?Hpc|].
    intros Hb. destruct (inv_brk s HI _ Hb) as (_ & Hlf & _). congruence.
  - done.
Qed.

(** What an execution may contain: tokens are what [randomBytes] makes, no file
    is judged by its age, and no process dies inside a window. *)
Definition benign (s : State) (a : action) : bool :=
  match a with
  | Step p token age => bool_decide (pid_ok p) && word token && timely s p age
  | Crash p => may_die (procs s p)
  end.

Fixpoint benign_run (s : State) (trace : list action) : bool :=
  match trace with
  | [] => true
  | a :: trace => benign s a && benign_run (apply hostname staleMs s a) trace
  end.

Lemma Inv_init pids : Inv (init pids).
Proof. split; cbn; try done; lia. Qed.

Lemma Inv_run s trace : Inv s -> benign_run s trace = true -> Inv (run hostname staleMs s trace).
Proof.
  revert s. induction trace as [|a trace IH]; intros s HI; [done|]. cbn [benign_run run foldl].
  rewrite andb_true_iff. intros [Ha Ht]. apply IH; [|done]. destruct a as [p token age|p]; [|by apply Inv_crash].
  cbn [apply benign] in *. destruct (live s p) eqn:Hl; [|done]. rewrite !andb_true_iff, bool_decide_eq_true in Ha.
  destruct Ha as [[? ?] ?]. by apply Inv_step.
Qed.

Definition holding (s : State) (p : Z) : Prop :=
  live s p = true /\ match procs s p with Created _ _ | Held _ | Releasing => True | _ => False end.

Lemma holding_main s p : Inv s -> holding s p -> exists f, main s = Some f /\ creator (files s f) = p.
Proof.
  intros HI [Hl Hh]. pose proof (inv_procs s HI p Hl) as Hok. destruct (procs s p); try done; cbn in Hok.
  - exists f. destruct Hok as (? & ? & ?). done.
  - destruct Hok as (f & ? & ? & ?). by exists f.
Qed.

End invariant.

(** [C19] Mutual exclusion. However the system calls of any number of processes
    interleave, with holders dying while they hold the lock and stale locks
    being broken, at most one live process has the lock, and the file is that
    process's own, so that [held] answers true for it until it releases. This
    takes that no process dies between creating a file and writing its name, or
    while it holds the [.break], and that none is so slow there that its empty
    file is judged by age. *)
Theorem mutual_exclusion hostname staleMs pids trace :
  word hostname = true -> benign_run hostname staleMs (init pids) trace = true ->
  let s := run hostname staleMs (init pids) trace in
  (forall p q, holding s p -> holding s q -> p = q) /\
  (forall p owner, live s p = true -> procs s p = Held owner -> held s owner = true).
Proof.
  intros Hh Hb s. assert (HI : Inv hostname s) by (by apply Inv_run; [|apply Inv_init|]). split.
  - intros p q Hp Hq. apply (holding_main hostname) in Hp as (f & Hf & <-), Hq as (g & Hg & <-); [congruence|done|done].
  - intros p owner Hl Hpc. pose proof (inv_procs hostname s HI p Hl) as Hok. rewrite Hpc in Hok.
    destruct Hok as (f & Hf & _ & Ho). unfold held. by rewrite Hf, bool_decide_true.
Qed.

Definition steps (n : nat) (p : Z) : list action := repeat (Step p "ab" 0) n.

(** 1 takes the lock and dies with it; 2 finds it, breaks it and takes it while
    3 waits. *)
Definition demo_trace : list action :=
  steps 2 1 ++ [Crash 1] ++ steps 6 2 ++ steps 3 3 ++ steps 6 2 ++ steps 2 3.

Lemma mutual_exclusion_witness :
  word "host" = true /\ benign_run "host" 10000 (init [1; 2; 3]%Z) demo_trace = true /\
  let s := run "host" 10000 (init [1; 2; 3]%Z) demo_trace in
  procs s 2 = Held (ownerLine "host" 2 "ab") /\ (holding s 3 -> 3 = 2)%Z /\ held s (ownerLine "host" 2 "ab") = true.
Proof.
  assert (Hw : word "host" = true) by reflexivity.
  assert (Hb : benign_run "host" 10000 (init [1; 2; 3]%Z) demo_trace = true) by (vm_compute; reflexivity).
  assert (H2 : procs (run "host" 10000 (init [1; 2; 3]%Z) demo_trace) 2 = Held (ownerLine "host" 2 "ab"))
    by (vm_compute; reflexivity).
  assert (Hl : live (run "host" 10000 (init [1; 2; 3]%Z) demo_trace) 2 = true) by (vm_compute; reflexivity).
  split; [exact Hw|]. split; [exact Hb|]. split; [exact H2|].
  pose proof (mutual_exclusion "host" 10000 [1; 2; 3]%Z demo_trace Hw Hb) as [Hm Hh]. split.
  - intros H3. apply (Hm 3%Z 2%Z); [exact H3|]. split; [exact Hl|]. rewrite H2. exact I.
  - exact (Hh 2%Z _ Hl H2).
Defined.

(** 1 dies holding the lock and 2 dies breaking it. 3 and 4 both judge 2's
    [.break]; 3 unlinks it, 5 makes its own and confirms the stale lock, and 4
    unlinks 5's; now 6 is a breaker too and unlinks the stale lock, 7 takes the
    free lock, and 5 unlinks that. *)
Definition two_breakers : list action :=
  steps 2 1 ++ [Crash 1] ++ steps 5 2 ++ [Crash 2] ++ steps 3 5 ++ steps 3 6 ++ steps 7 3 ++ steps 7 4 ++
  steps 1 3 ++ steps 4 5 ++ steps 1 4 ++ steps 5 6 ++ steps 2 7 ++ steps 1 5 ++ steps 2 8.

(** A process slow between creating the lock file and writing its name in it. *)
Definition slow_writer : list action :=
  steps 1 1 ++ steps 2 2 ++ [Step 2 "ab" 10001] ++ steps 9 2 ++ steps 1 1.

(** Both assumptions of mutual exclusion are needed. When a breaker dies, two
    others that judged its [.break] can each remove one, and then two processes
    hold the lock; and a process ten seconds late to write its name is taken for
    a dead one while it is alive, although no live holder is meant to be. The
    check of [held] right before a write is what then stands between them. *)
Theorem two_holders :
  let s := run "host" 10000 (init [1; 2; 3; 4; 5; 6; 7; 8]%Z) two_breakers in
  let s' := run "host" 10000 (init [1; 2]%Z) slow_writer in
  (live s 7 = true /\ live s 8 = true /\ procs s 7 = Held (ownerLine "host" 7 "ab") /\
   procs s 8 = Held (ownerLine "host" 8 "ab") /\ held s (ownerLine "host" 7 "ab") = false) /\
  (live s' 1 = true /\ live s' 2 = true /\ procs s' 1 = Held (ownerLine "host" 1 "ab") /\
   procs s' 2 = Held (ownerLine "host" 2 "ab") /\ held s' (ownerLine "host" 1 "ab") = false).
Proof. vm_compute. by split_and!. Qed.

(** ** Progress *)

Section alone.
Context (hostname : string) (staleMs : Z) (p : Z) (token : string) (age : Z).
Context (f : nat) (lines : string) (alive : Z -> bool).
Hypothesis p_alive : alive p = true.
Let owner := ownerLine hostname p token.
Let seen := {| content := lines; ino := f; ageMs := age |}.
Hypothesis stale : isStale hostname (fun q => if alive q then Alive else ESRCH) seen staleMs = true.

(** Where [p] is, what the two names are, and what the [.break] says. *)
Definition at_ (s : State) (c : pc) (m b : option nat) (says : string) : Prop :=
  procs s p = c /\ main s = m /\ brk s = b /\ live s = alive /\ f < next s /\ text (files s f) = lines /\
  match b with Some g => f < g < next s /\ text (files s g) = says | None => True end.

Let go (s : State) : State := apply hostname staleMs s (Step p token age).

Ltac unfold_step :=
  unfold at_, go, apply; intros (Hpc & Hm & Hb & Hl & Hf & Ht & Hg); rewrite Hl, p_alive; unfold step; rewrite Hpc.
Ltac solve_at :=
  split_and!; cbn; rewrite ?update_eq;
  first [done | lia | by rewrite ?update_ne by lia | by match goal with H : _ /\ _ |- _ => destruct H; rewrite ?update_ne by lia end].

Lemma alone_find s : at_ s Idle (Some f) None "" -> at_ (go s) Observing (Some f) None "".
Proof. unfold_step. rewrite Hm. solve_at. Qed.

Lemma alone_open s : at_ s Observing (Some f) None "" -> at_ (go s) (Opened f) (Some f) None "".
Proof. unfold_step. rewrite Hm. solve_at. Qed.

Lemma alone_judge s : at_ s (Opened f) (Some f) None "" -> at_ (go s) (Judged seen) (Some f) None "".
Proof.
  unfold_step. unfold observed, kill. rewrite Ht, Hl. fold seen. rewrite stale. solve_at.
Qed.

Lemma alone_claim s :
  at_ s (Judged seen) (Some f) None "" -> exists g, at_ (go s) (BreakCreated seen g owner) (Some f) (Some g) "".
Proof. unfold_step. rewrite Hb. exists (next s). solve_at. Qed.

Lemma alone_name s g :
  at_ s (BreakCreated seen g owner) (Some f) (Some g) "" -> at_ (go s) (Breaking seen owner) (Some f) (Some g) owner.
Proof. unfold_step. solve_at. Qed.

Lemma alone_reopen s g :
  at_ s (Breaking seen owner) (Some f) (Some g) owner -> at_ (go s) (Reopened seen owner f) (Some f) (Some g) owner.
Proof. unfold_step. rewrite Hm. solve_at. Qed.

Lemma alone_confirm s g :
  at_ s (Reopened seen owner f) (Some f) (Some g) owner -> at_ (go s) (Confirmed owner) (Some f) (Some g) owner.
Proof. unfold_step. cbn [ino content observed seen]. rewrite Ht, !bool_decide_true by done. solve_at. Qed.

Lemma alone_unlink s g :
  at_ s (Confirmed owner) (Some f) (Some g) owner -> at_ (go s) (Unbreaking owner) None (Some g) owner.
Proof. unfold_step. solve_at. Qed.

Lemma alone_check s g :
  at_ s (Unbreaking owner) None (Some g) owner -> at_ (go s) BreakReleasing None (Some g) owner.
Proof. unfold_step. rewrite Hb, bool_decide_true by (by destruct Hg). solve_at. Qed.

Lemma alone_unclaim s g : at_ s BreakReleasing None (Some g) owner -> at_ (go s) Idle None None "".
Proof. unfold_step. solve_at. Qed.

Lemma alone_take s : at_ s Idle None None "" -> exists h, f < h /\ at_ (go s) (Created h owner) (Some h) None "".
Proof. unfold_step. rewrite Hm. exists (next s). split; [done|]. solve_at. Qed.

Lemma alone_hold s h :
  f < h -> at_ s (Created h owner) (Some h) None "" -> procs (go s) p = Held owner /\ held (go s) owner = true.
Proof.
  intros Hh. unfold_step. unfold held. cbn. rewrite !update_eq, Hm. cbn. split; [done|].
  rewrite update_eq. by apply bool_decide_true.
Qed.

Lemma alone_run s :
  at_ s Idle (Some f) None "" ->
  let s' := run hostname staleMs s (repeat (Step p token age) 12) in procs s' p = Held owner /\ held s' owner = true.
Proof.
  intros H. cbn [repeat run foldl].
  apply alone_find, alone_open, alone_judge, alone_claim in H as [g H].
  apply alone_name, alone_reopen, alone_confirm, alone_unlink, alone_check, alone_unclaim, alone_take in H as (h & Hh & H).
  exact (alone_hold _ h Hh H).
Qed.
End alone.

(** A dead holder does not keep the lock. From any state the assumptions
    above allow in which the holder has died and nobody is breaking its lock,
    any live process that tries by itself has the lock after twelve system
    calls. *)
Theorem dead_holder_is_broken hostname staleMs pids trace p token age f :
  word hostname = true -> benign_run hostname staleMs (init pids) trace = true ->
  let s := run hostname staleMs (init pids) trace in
  pid_ok p -> word token = true -> live s p = true -> procs s p = Idle -> brk s = None ->
  main s = Some f -> live s (creator (files s f)) = false ->
  let s' := run hostname staleMs s (repeat (Step p token age) 12) in
  procs s' p = Held (ownerLine hostname p token) /\ held s' (ownerLine hostname p token) = true.
Proof.
  intros Hh Hb s Hp Ht Hl Hpc Hbrk Hm Hd. assert (HI : Inv hostname s) by (by apply Inv_run; [|apply Inv_init|]).
  destruct (inv_main hostname s HI f Hm) as [Hf _].
  destruct (inv_files hostname s HI f Hf) as [(Hc & t & Htok & E)|(_ & H & _)]; [|congruence].
  apply (alone_run hostname staleMs p token age f (text (files s f)) (live s)); [done| |by split_and!].
  rewrite E, isStale_owner by done. by rewrite Hd.
Qed.

Definition dead_holder : list action := steps 2 1 ++ [Crash 1].

Lemma dead_holder_is_broken_witness :
  let s := run "host" 10000 (init [1; 2]%Z) dead_holder in
  let s' := run "host" 10000 s (repeat (Step 2 "cd" 5) 12) in
  main s = Some 0 /\ live s (creator (files s 0)) = false /\ procs s' 2 = Held (ownerLine "host" 2 "cd").
Proof.
  split; [vm_compute; reflexivity|]. split; [vm_compute; reflexivity|].
  refine (proj1 (dead_holder_is_broken "host" 10000 [1; 2]%Z dead_holder 2 "cd" 5 0 _ _ _ _ _ _ _ _ _));
    try (vm_compute; reflexivity). unfold pid_ok. lia.
Defined.

End FileLock.
