(* ===== verification/LineRpc.v ===== *)
(** * The line-RPC client (packages/docker-orchestrator/src/stdio-rpc.ts)

    [createLineRpcClient]: calls written as lines to a connection that may be
    replaced, and settled by the response lines that come back. Everything
    asynchronous is an event: a connection that opened, a line, a timeout, the
    continuation of an [await]. *)
From S2P Require Import Prelude Json.

Module LineRpc.
Import Json.

Definition Conn : Type := nat.

Inductive outcome : Type :=
| Resolved (response : json)
| NotSent
| ConnectFailed
| GaveUp
| TimedOut
| NoAnswer                 (* the connection closed before the app answered *)
| CouldNotWrite.

Inductive stage : Type :=
| Acquiring                (* awaiting live() before anything is written *)
| Sent                     (* its waiter is registered *)
| Settled (o : outcome).

(** The call's outstanding [live()]. *)
Inductive living : Type :=
| NotLiving
| Opening
| Ready (c : Conn).

Record Call := { c_id : string; c_stage : stage; c_live : living; c_aborted : bool }.

Record State := {
  pending : list (string * (nat * Conn));
  calls : gmap nat Call;
  conn : Conn;
  is_open : Conn -> bool;
  closedByCaller : bool
}.

Inductive event : Type :=
| Invoke (k : nat) (id : string) (aborted : bool)
| Opened (k : nat) (c : Conn)
| OpenFailed (k : nat)
| Continue (k : nat) (accepts : bool)   (* [live()] is answered: the call goes on; [write] returns [accepts] *)
| Line (text : string)
| Closed (c : Conn)                     (* onClose *)
| Down (c : Conn)                       (* open() turns false *)
| Timer (k : nat)
| Abort (k : nat)
| Close.

(** A line written to a connection, and whether it took it. *)
Inductive effect : Type :=
| Wrote (c : Conn) (k : nat) (accepted : bool)
| ClosedConn (c : Conn).

Section client.
Context (parse : string -> option json) (failPendingOnClose : bool).

Definition set_call (k : nat) (c : Call) (s : State) : State :=
  {| pending := pending s; calls := <[k := c]> (calls s); conn := conn s; is_open := is_open s;
     closedByCaller := closedByCaller s |}.
Definition set_pending (p : list (string * (nat * Conn))) (s : State) : State :=
  {| pending := p; calls := calls s; conn := conn s; is_open := is_open s; closedByCaller := closedByCaller s |}.
Definition set_conn (c : Conn) (s : State) : State :=
  {| pending := pending s; calls := calls s; conn := c; is_open := is_open s; closedByCaller := closedByCaller s |}.

Definition with_stage (st : stage) (c : Call) : Call :=
  {| c_id := c_id c; c_stage := st; c_live := c_live c; c_aborted := c_aborted c |}.
Definition with_live (l : living) (c : Call) : Call :=
  {| c_id := c_id c; c_stage := c_stage c; c_live := l; c_aborted := c_aborted c |}.

(** [live()]: the connection there is, or a new one. *)
Definition live (s : State) : living :=
  if negb (closedByCaller s) && negb (is_open s (conn s)) then Opening else Ready (conn s).

(** [settle()] and then [resolve] or [reject], for a call that is waiting. *)
Definition settle (k : nat) (c : Call) (o : outcome) (s : State) : State :=
  set_pending (JsMap.remove (c_id c) (pending s)) (set_call k (with_stage (Settled o) c) s).

(** The body of the promise: register, write, and on a refused write send again
    on another connection or give up. *)
Definition send (k : nat) (c : Call) (target : Conn) (accepts : bool) (s : State) : State * list effect :=
  let c := with_live NotLiving (with_stage Sent c) in
  let s := set_pending (JsMap.put (c_id c) (k, target) (pending s)) s in
  if accepts then (set_call k c s, [Wrote target k true])
  else if negb (is_open s target) && negb (closedByCaller s)
  then (set_call k (with_live (live s) c) s, [Wrote target k false])
  else (settle k c CouldNotWrite s, [Wrote target k false]).

(** The continuation of the second [live()]. *)
Definition resend (k : nat) (c : Call) (again : Conn) (accepts : bool) (s : State) : State * list effect :=
  let c := with_live NotLiving c in
  match JsMap.get (c_id c) (pending s) with
  | None => (set_call k c s, [])
  | Some (owner, _) =>
      let s := set_pending (JsMap.put (c_id c) (owner, again) (pending s)) s in
      if accepts then (set_call k c s, [Wrote again k true])
      else (settle k c CouldNotWrite s, [Wrote again k false])
  end.

(** The waiters of one connection, failed in turn. *)
Definition fail_waiter (c0 : Conn) (s : State) (entry : string * (nat * Conn)) : State :=
  let '(id, (k, c)) := entry in
  if bool_decide (c = c0) then
    match calls s !! k with
    | Some call => settle k call NoAnswer s
    | None => s
    end
  else s.

Definition onLine (text : string) (s : State) : State :=
  if String.eqb (Str.trim text) "" then s
  else match parse text with
       | Some (JObj o) =>
           match oprop "id" (JObj o) with
           | JStr id =>
               match JsMap.get id (pending s) with
               | Some (k, _) =>
                   match calls s !! k with
                   | Some call => settle k call (Resolved (JObj o)) s
                   | None => s
                   end
               | None => s
               end
           | _ => s
           end
       | _ => s
       end.

Definition step (s : State) (e : event) : State * list effect :=
  match e with
  | Invoke k id aborted =>
      let c := {| c_id := id; c_stage := Acquiring; c_live := NotLiving; c_aborted := aborted |} in
      if aborted then (set_call k (with_stage (Settled NotSent) c) s, [])
      else (set_call k (with_live (live s) c) s, [])
  | Opened k c =>
      match calls s !! k with
      | Some call =>
          match c_live call with
          | Opening => (set_conn c (set_call k (with_live (Ready c) call) s), [])
          | _ => (s, [])
          end
      | None => (s, [])
      end
  | OpenFailed k =>
      match calls s !! k with
      | Some call =>
          match c_live call, c_stage call with
          | Opening, Acquiring => (set_call k (with_live NotLiving (with_stage (Settled ConnectFailed) call)) s, [])
          | Opening, Sent => (settle k (with_live NotLiving call) CouldNotWrite s, [])
          | Opening, Settled _ =>
              (set_pending (JsMap.remove (c_id call) (pending s)) (set_call k (with_live NotLiving call) s), [])
          | _, _ => (s, [])
          end
      | None => (s, [])
      end
  | Continue k accepts =>
      match calls s !! k with
      | Some call =>
          match c_live call, c_stage call with
          | Ready target, Acquiring =>
              if c_aborted call then (set_call k (with_live NotLiving (with_stage (Settled NotSent) call)) s, [])
              else send k call target accepts s
          | Ready again, _ => resend k call again accepts s
          | _, _ => (s, [])
          end
      | None => (s, [])
      end
  | Line text => (onLine text s, [])
  | Closed c => (if failPendingOnClose then foldl (fail_waiter c) s (pending s) else s, [])
  | Down c =>
      ({| pending := pending s; calls := calls s; conn := conn s;
          is_open := fun c' => if decide (c' = c) then false else is_open s c'; closedByCaller := closedByCaller s |}, [])
  | Timer k =>
      match calls s !! k with
      | Some call => match c_stage call with Sent => (settle k call TimedOut s, []) | _ => (s, []) end
      | None => (s, [])
      end
  | Abort k =>
      match calls s !! k with
      | Some call =>
          let call := {| c_id := c_id call; c_stage := c_stage call; c_live := c_live call; c_aborted := true |} in
          match c_stage call with Sent => (settle k call GaveUp s, []) | _ => (set_call k call s, []) end
      | None => (s, [])
      end
  | Close =>
      ({| pending := pending s; calls := calls s; conn := conn s; is_open := is_open s; closedByCaller := true |},
       [ClosedConn (conn s)])
  end.

Definition run (s : State) (evs : list event) : State * list effect :=
  foldl (fun '(s, effs) e => let '(s', new) := step s e in (s', effs ++ new)) (s, []) evs.

End client.

(** The client just after its first connection opened. *)
Definition init (c : Conn) : State :=
  {| pending := []; calls := ∅; conn := c; is_open := fun _ => true; closedByCaller := false |}.

(** ** The invariant *)

(** What was written for a call, and whether each write was taken. *)
Fixpoint writes (k : nat) (effs : list effect) : list bool :=
  match effs with
  | Wrote _ k' accepted :: effs => if decide (k' = k) then accepted :: writes k effs else writes k effs
  | _ :: effs => writes k effs
  | [] => []
  end.

Lemma writes_app k l l' : writes k (l ++ l') = writes k l ++ writes k l'.
Proof. induction l as [|[c k' a|c] l IH]; [done| |done]. cbn [app writes]. by case_decide; rewrite IH. Qed.

(** Once, or a second time after the first was refused. *)
Definition once (w : list bool) : Prop := w ∈ [[]; [true]; [false]; [false; true]; [false; false]].

Definition call_ok (waiter : option (nat * Conn)) (k : nat) (c : Call) (w : list bool) : Prop :=
  match c_stage c with
  | Acquiring => waiter = None /\ w = []
  | Sent => (exists target, waiter = Some (k, target)) /\
      match c_live c with NotLiving => w = [true] \/ w = [false; true] | _ => w = [false] end
  | Settled o => waiter = None /\
      match c_live c with NotLiving => once w | _ => w = [false] end /\
      match o with
      | Resolved r => oprop "id" r = JStr (c_id c)
      | NotSent | ConnectFailed => w = []
      | _ => True
      end
  end.

Record Inv (s : State) (effs : list effect) : Prop := {
  inv_keys : NoDup (pending s).*1;
  inv_ids : forall k k' c c', calls s !! k = Some c -> calls s !! k' = Some c' -> c_id c = c_id c' -> k = k';
  inv_waiters : forall id k t, JsMap.get id (pending s) = Some (k, t) ->
    exists c, calls s !! k = Some c /\ c_id c = id;
  inv_calls : forall k c, calls s !! k = Some c -> call_ok (JsMap.get (c_id c) (pending s)) k c (writes k effs);
  inv_none : forall k, calls s !! k = None -> writes k effs = []
}.

(** An event changes one call, its waiter and its writes. *)
Lemma Inv_update s effs k c s' new :
  Inv s effs ->
  (forall k' c', calls s !! k' = Some c' -> c_id c' = c_id c -> k' = k) ->
  (forall c', calls s !! k = Some c' -> c_id c' = c_id c) ->
  calls s' = <[k := c]> (calls s) -> NoDup (pending s').*1 ->
  (forall id, id <> c_id c -> JsMap.get id (pending s') = JsMap.get id (pending s)) ->
  (forall k' t, JsMap.get (c_id c) (pending s') = Some (k', t) -> k' = k) ->
  (forall k', k' <> k -> writes k' new = []) ->
  call_ok (JsMap.get (c_id c) (pending s')) k c (writes k effs ++ writes k new) ->
  Inv s' (effs ++ new).
Proof.
  intros [Ik Ii Iw Ic In] Hid Hown Hcalls Hkeys Hother Hself Hnew Hok. split; [done| | | |].
  - intros k1 k2 c1 c2. rewrite Hcalls. intros [[<- <-]|[Hn1 H1]]%lookup_insert_Some [[<- <-]|[Hn2 H2]]%lookup_insert_Some E.
    + done.
    + symmetry. by apply (Hid _ _ H2).
    + by apply (Hid _ _ H1).
    + by apply (Ii k1 k2 c1 c2).
  - intros id k' t H. rewrite Hcalls. destruct (decide (id = c_id c)) as [->|Hne].
    + apply Hself in H as ->. exists c. by rewrite lookup_insert_eq.
    + rewrite Hother in H by done. destruct (Iw _ _ _ H) as (c' & Hc' & Ec'). exists c'. split; [|done].
      rewrite lookup_insert_ne; [done|]. intros <-. by rewrite (Hown c' Hc') in Ec'.
  - intros k' c'. rewrite Hcalls, writes_app. intros [[<- <-]|[Hne H]]%lookup_insert_Some; [done|].
    rewrite Hnew, app_nil_r by done. rewrite Hother; [by apply Ic|]. intros E. apply Hne. symmetry. by apply (Hid k' c').
  - intros k'. rewrite Hcalls, writes_app. intros [H Hne]%lookup_insert_None. rewrite Hnew, app_nil_r by done. by apply In.
Qed.

Lemma Inv_call s effs k c :
  Inv s effs -> calls s !! k = Some c ->
  (forall k' c', calls s !! k' = Some c' -> c_id c' = c_id c -> k' = k) /\
  (forall c', calls s !! k = Some c' -> c_id c' = c_id c).
Proof.
  intros HI Hk. split; [intros k' c' H E; by apply (inv_ids _ _ HI k' k c' c)|intros c' H; by rewrite Hk in H; injection H as ->].
Qed.

(** Nobody but the call itself waits under its id. *)
Lemma Inv_waiter s effs k c k' t :
  Inv s effs -> calls s !! k = Some c -> JsMap.get (c_id c) (pending s) = Some (k', t) -> k' = k.
Proof.
  intros HI Hk Hg. destruct (inv_waiters _ _ HI _ _ _ Hg) as (c' & Hc' & E). by apply (inv_ids _ _ HI k' k c' c).
Qed.

(** An event that touches no waiter. *)
Lemma Inv_set_call s effs k c c' :
  Inv s effs -> calls s !! k = Some c -> c_id c' = c_id c ->
  call_ok (JsMap.get (c_id c) (pending s)) k c' (writes k effs) -> Inv (set_call k c' s) effs.
Proof.
  intros HI Hk E Hok. rewrite <- (app_nil_r effs). destruct (Inv_call s effs k c HI Hk) as [H1 H2].
  apply (Inv_update s effs k c'); cbn; rewrite ?E, ?app_nil_r; try done; [by apply HI|].
  intros k' t. by apply (Inv_waiter s effs).
Qed.

Lemma Inv_settle s effs k c c' o new :
  Inv s effs -> calls s !! k = Some c -> c_id c' = c_id c ->
  (forall k', k' <> k -> writes k' new = []) ->
  match c_live c' with NotLiving => once (writes k effs ++ writes k new) | _ => writes k effs ++ writes k new = [false] end ->
  match o with
  | Resolved r => oprop "id" r = JStr (c_id c)
  | NotSent | ConnectFailed => writes k effs ++ writes k new = []
  | _ => True
  end ->
  Inv (settle k c' o s) (effs ++ new).
Proof.
  intros HI Hk E Hnew Hw Ho. destruct (Inv_call s effs k c HI Hk) as [H1 H2].
  apply (Inv_update s effs k (with_stage (Settled o) c')); cbn; rewrite ?E; try done.
  - by apply JsMap.NoDup_remove, HI.
  - intros id Hne. by apply JsMap.get_remove_ne.
  - by rewrite JsMap.get_remove_eq.
  - rewrite JsMap.get_remove_eq. by split_and!.
Qed.

(** A call that is waiting, settled with its waiter. *)
Lemma Inv_settle_sent s effs k c o :
  Inv s effs -> calls s !! k = Some c -> c_stage c = Sent ->
  match o with Resolved r => oprop "id" r = JStr (c_id c) | NotSent | ConnectFailed => False | _ => True end ->
  Inv (settle k c o s) effs.
Proof.
  intros HI Hk Hs Ho. rewrite <- (app_nil_r effs).
  pose proof (inv_calls _ _ HI k c Hk) as Hok. unfold call_ok in Hok. rewrite Hs in Hok. destruct Hok as [_ Hw].
  apply (Inv_settle s effs k c c); try done; cbn; rewrite app_nil_r; [|by destruct o].
  unfold once. destruct (c_live c); [|done..]. destruct Hw as [-> | ->]; set_solver.
Qed.

(** The waiters of a connection, when it closes. *)
Lemma Inv_fail_waiters c0 effs l : forall s,
  Inv s effs -> NoDup l.*1 -> (forall id w, (id, w) ∈ l -> JsMap.get id (pending s) = Some w) ->
  let s' := foldl (fail_waiter c0) s l in
  Inv s' effs /\
  (forall id k, JsMap.get id (pending s') = Some (k, c0) -> JsMap.get id (pending s) = Some (k, c0) /\ id ∉ l.*1).
Proof.
  induction l as [|[id [k t]] l IH]; intros s HI Hnd Hl; cbn [foldl].
  { split; [done|]. intros id k H. split; [done|]. by intros ?%elem_of_nil. }
  cbn in Hnd. apply NoDup_cons in Hnd as [Hid Hnd].
  assert (Hget : JsMap.get id (pending s) = Some (k, t)) by (apply Hl; by left).
  destruct (inv_waiters _ _ HI id k t Hget) as (c & Hc & E).
  pose proof (inv_calls _ _ HI k c Hc) as Hok. rewrite E, Hget in Hok.
  assert (Hs : c_stage c = Sent) by (unfold call_ok in Hok; destruct (c_stage c); [by destruct Hok|done|by destruct Hok]).
  unfold fail_waiter at 2 4. destruct (bool_decide_reflect (t = c0)) as [->|Hne].
  - rewrite Hc. destruct (IH (settle k c NoAnswer s)) as [H1 H2]; [by apply Inv_settle_sent|done| |].
    + intros id' w Hin. cbn. rewrite E, JsMap.get_remove_ne; [apply Hl; by right|].
      intros ->. apply Hid, list_elem_of_fmap. by exists (id, w).
    + split; [done|]. intros id' k' H. destruct (H2 id' k' H) as [H3 H4]. cbn in H3. rewrite E in H3.
      destruct (decide (id' = id)) as [->|Hne]; [by rewrite JsMap.get_remove_eq in H3|].
      rewrite JsMap.get_remove_ne in H3 by done. split; [done|]. cbn. by intros [?|?]%elem_of_cons.
  - destruct (IH s) as [H1 H2]; [done|done|intros id' w Hin; apply Hl; by right|]. split; [done|].
    intros id' k' H. destruct (H2 id' k' H) as [H3 H4]. split; [done|]. cbn. intros [->|?]%elem_of_cons; [congruence|done].
Qed.

Lemma Inv_same s s' effs :
  Inv s effs -> pending s' = pending s -> calls s' = calls s -> Inv s' effs.
Proof. intros [] Hp Hc. split; rewrite ?Hp, ?Hc; done. Qed.

(** A new call: its id is nobody else's. *)
Definition fresh (s : State) (k : nat) (id : string) : Prop :=
  calls s !! k = None /\ forall k' c, calls s !! k' = Some c -> c_id c <> id.

Lemma fresh_waiter s effs k id : Inv s effs -> fresh s k id -> JsMap.get id (pending s) = None.
Proof.
  intros HI [_ Hf]. destruct (JsMap.get id (pending s)) as [[k' t]|] eqn:E; [|done].
  destruct (inv_waiters _ _ HI id k' t E) as (c & Hc & Ec). by destruct (Hf k' c Hc).
Qed.

Lemma Inv_invoke s effs k c :
  Inv s effs -> fresh s k (c_id c) ->
  c_stage c = Acquiring \/ c_stage c = Settled NotSent /\ c_live c = NotLiving -> Inv (set_call k c s) effs.
Proof.
  intros HI Hf Hst. pose proof (fresh_waiter s effs k _ HI Hf) as Hw. destruct Hf as [Hk Hf].
  pose proof (inv_none _ _ HI k Hk) as Hn. rewrite <- (app_nil_r effs).
  apply (Inv_update s effs k c); cbn; try done.
  - intros k' c' Hc' E. by destruct (Hf k' c').
  - intros c' H. by rewrite Hk in H.
  - by apply HI.
  - by rewrite Hw.
  - rewrite Hw, Hn. unfold call_ok. destruct Hst as [->|[-> ->]]; [done|]. split_and!; [done| |done]. unfold once. set_solver.
Qed.

Lemma writes_other k k' c a : k' <> k -> writes k' [Wrote c k a] = [].
Proof. intros. cbn. by rewrite decide_False. Qed.

Lemma writes_self k c a : writes k [Wrote c k a] = [a].
Proof. cbn. by rewrite decide_True. Qed.

(** Registering or moving a waiter, with one write. *)
Lemma Inv_put s effs k c c' t t' a :
  Inv s effs -> calls s !! k = Some c -> c_id c' = c_id c -> c_stage c' = Sent ->
  match c_live c' with
  | NotLiving => writes k effs ++ [a] = [true] \/ writes k effs ++ [a] = [false; true]
  | _ => writes k effs ++ [a] = [false]
  end ->
  Inv (set_call k c' (set_pending (JsMap.put (c_id c) (k, t) (pending s)) s)) (effs ++ [Wrote t' k a]).
Proof.
  intros HI Hk E Hs Hw. destruct (Inv_call s effs k c HI Hk) as [H1 H2].
  apply (Inv_update s effs k c'); cbn [set_call set_pending pending calls]; rewrite ?E, ?writes_self; try done.
  - by apply JsMap.NoDup_put, HI.
  - intros id Hne. by apply JsMap.get_put_ne.
  - intros k' t1. rewrite JsMap.get_put_eq. by intros [= -> _].
  - intros. by apply writes_other.
  - rewrite JsMap.get_put_eq. unfold call_ok. rewrite Hs. split; [by eexists|done].
Qed.

(** The same, refused for good: the waiter comes and goes. *)
Lemma Inv_put_settle s effs k c c' t t' a :
  Inv s effs -> calls s !! k = Some c -> c_id c' = c_id c -> c_live c' = NotLiving -> once (writes k effs ++ [a]) ->
  Inv (settle k c' CouldNotWrite (set_pending (JsMap.put (c_id c) (k, t) (pending s)) s)) (effs ++ [Wrote t' k a]).
Proof.
  intros HI Hk E Hl Hw. destruct (Inv_call s effs k c HI Hk) as [H1 H2].
  apply (Inv_update s effs k (with_stage (Settled CouldNotWrite) c'));
    cbn [settle set_call set_pending with_stage pending calls c_id c_stage c_live]; rewrite ?E, ?writes_self; try done.
  - apply JsMap.NoDup_remove, JsMap.NoDup_put, HI.
  - intros id Hne. by rewrite JsMap.get_remove_ne, JsMap.get_put_ne.
  - by rewrite JsMap.get_remove_eq.
  - intros. by apply writes_other.
  - rewrite JsMap.get_remove_eq. unfold call_ok. cbn. by rewrite Hl.
Qed.

Lemma Inv_send s effs k c target accepts :
  Inv s effs -> calls s !! k = Some c -> c_stage c = Acquiring ->
  let '(s', new) := send k c target accepts s in Inv s' (effs ++ new).
Proof.
  intros HI Hk Hs. pose proof (inv_calls _ _ HI k c Hk) as Hok. unfold call_ok in Hok. rewrite Hs in Hok.
  destruct Hok as [_ Hw]. unfold send. cbn [c_id with_live with_stage].
  destruct accepts; [apply Inv_put; try done; rewrite Hw; by left|].
  destruct (negb _ && negb _).
  - apply Inv_put; try done. cbn [c_live with_live]. rewrite Hw. unfold live. by destruct (negb _ && negb _).
  - apply Inv_put_settle; try done. rewrite Hw. unfold once. set_solver.
Qed.

Lemma Inv_resend s effs k c again target accepts :
  Inv s effs -> calls s !! k = Some c -> c_stage c <> Acquiring -> c_live c = Ready target ->
  let '(s', new) := resend k c again accepts s in Inv s' (effs ++ new).
Proof.
  intros HI Hk Hs Hl. pose proof (inv_calls _ _ HI k c Hk) as Hok. unfold call_ok in Hok. rewrite Hl in Hok.
  unfold resend. cbn [c_id with_live]. destruct (JsMap.get (c_id c) (pending s)) as [[owner t]|] eqn:Hg.
  - pose proof (Inv_waiter s effs k c owner t HI Hk Hg) as ->.
    destruct (c_stage c) eqn:Hst; [done| |by destruct Hok].
    destruct Hok as [_ Hw]. destruct accepts.
    + apply Inv_put; try done. cbn. rewrite Hw. by right.
    + apply Inv_put_settle; try done. rewrite Hw. unfold once. set_solver.
  - rewrite app_nil_r. apply (Inv_set_call s effs k c); try done. rewrite Hg. unfold call_ok. cbn [c_stage c_live with_live].
    destruct (c_stage c) eqn:Hst; [done|by destruct Hok as [[? ?] _]|]. destruct Hok as (_ & Hw & Ho).
    split_and!; [done| |done]. rewrite Hw. unfold once. set_solver.
Qed.

Section runs.
Context (parse : string -> option json) (failPendingOnClose : bool).

Definition valid (s : State) (e : event) : Prop :=
  match e with Invoke k id _ => fresh s k id | _ => True end.

Lemma Inv_line s effs text : Inv s effs -> Inv (onLine parse text s) effs.
Proof.
  intros HI. unfold onLine. destruct (String.eqb _ _); [done|]. destruct (parse text) as [[| | | | | |o]|]; try done.
  destruct (oprop "id" (JObj o)) as [| | | |id| |] eqn:Eid; try done.
  destruct (JsMap.get id (pending s)) as [[k t]|] eqn:Hg; [|done].
  destruct (inv_waiters _ _ HI id k t Hg) as (c & Hc & E). rewrite Hc.
  pose proof (inv_calls _ _ HI k c Hc) as Hok. rewrite E, Hg in Hok. unfold call_ok in Hok.
  apply Inv_settle_sent; try done; [|by rewrite Eid, E].
  destruct (c_stage c); [by destruct Hok|done|by destruct Hok].
Qed.

Lemma Inv_event s effs e :
  Inv s effs -> valid s e ->
  let '(s', new) := step parse failPendingOnClose s e in Inv s' (effs ++ new).
Proof.
  intros HI Hv. destruct e as [k id aborted|k c|k|k accepts|text|c|c|k|k|]; cbn [step valid] in *.
  - destruct aborted; rewrite app_nil_r; apply Inv_invoke; auto.
  - destruct (calls s !! k) as [call|] eqn:Hk; [|by rewrite app_nil_r].
    destruct (c_live call) eqn:Hl; rewrite app_nil_r; try done.
    apply (Inv_same (set_call k (with_live (Ready c) call) s)); [|done..]. apply (Inv_set_call s effs k call); try done.
    pose proof (inv_calls _ _ HI k call Hk) as Hok. unfold call_ok in *. rewrite Hl in Hok. by destruct (c_stage call) eqn:Hs; cbn; rewrite Hs.
  - destruct (calls s !! k) as [call|] eqn:Hk; [|by rewrite app_nil_r].
    pose proof (inv_calls _ _ HI k call Hk) as Hok. unfold call_ok in Hok.
    destruct (c_live call) eqn:Hl, (c_stage call) eqn:Hs; rewrite app_nil_r; try done.
    + apply (Inv_set_call s effs k call); try done. destruct Hok as [-> Hw]. unfold call_ok. cbn. rewrite Hw.
      split_and!; try done. unfold once. set_solver.
    + rewrite <- (app_nil_r effs). apply (Inv_settle s effs k call); try done. cbn. destruct Hok as [_ ->].
      unfold once. set_solver.
    + rewrite <- (app_nil_r effs). destruct (Inv_call s effs k call HI Hk) as [H1 H2], Hok as (Hg & Hw & Ho).
      apply (Inv_update s effs k (with_live NotLiving call)); cbn; try done.
      * by apply JsMap.NoDup_remove, HI.
      * intros id Hne. by apply JsMap.get_remove_ne.
      * by rewrite JsMap.get_remove_eq.
      * rewrite JsMap.get_remove_eq, app_nil_r. unfold call_ok. cbn. rewrite Hs. split_and!; [done| |done].
        rewrite Hw. unfold once. set_solver.
  - destruct (calls s !! k) as [call|] eqn:Hk; [|by rewrite app_nil_r].
    destruct (c_live call) eqn:Hl; try (by rewrite app_nil_r).
    destruct (c_stage call) eqn:Hs; [|by apply (Inv_resend s effs k call _ c); rewrite ?Hs..].
    destruct (c_aborted call); [|by apply Inv_send]. rewrite app_nil_r. apply (Inv_set_call s effs k call); try done.
    pose proof (inv_calls _ _ HI k call Hk) as Hok. unfold call_ok in Hok. rewrite Hs in Hok. destruct Hok as [-> Hw].
    unfold call_ok. cbn. rewrite Hw. split_and!; try done. unfold once. set_solver.
  - rewrite app_nil_r. by apply Inv_line.
  - rewrite app_nil_r. destruct failPendingOnClose; [|done]. apply Inv_fail_waiters; [done|by apply HI|].
    intros id w Hin. apply JsMap.elem_of_get; [by apply HI|done].
  - rewrite app_nil_r. by eapply Inv_same.
  - destruct (calls s !! k) as [call|] eqn:Hk; [|by rewrite app_nil_r].
    destruct (c_stage call) eqn:Hs; rewrite app_nil_r; try done. by apply Inv_settle_sent.
  - destruct (calls s !! k) as [call|] eqn:Hk; [|by rewrite app_nil_r].
    pose proof (inv_calls _ _ HI k call Hk) as Hok. unfold call_ok in Hok.
    cbv zeta. cbn [c_stage]. destruct (c_stage call) eqn:Hs.
    + rewrite app_nil_r. by apply (Inv_set_call s effs k call).
    + apply (Inv_settle s effs k call); try done; cbn [c_live writes]; rewrite app_nil_r; try done.
      destruct Hok as [_ Hw]. unfold once. destruct (c_live call); [|done..]. destruct Hw as [-> | ->]; set_solver.
    + rewrite app_nil_r. by apply (Inv_set_call s effs k call).
  - assert (Inv {| pending := pending s; calls := calls s; conn := conn s; is_open := is_open s; closedByCaller := true |} effs)
      as [H1 H2 H3 H4 H5] by (by eapply Inv_same).
    split; try done; intros k; [intros c Hc|intros Hk]; rewrite writes_app; cbn [writes]; rewrite app_nil_r; auto.
Qed.

Fixpoint valid_run (s : State) (evs : list event) : Prop :=
  match evs with
  | [] => True
  | e :: evs => valid s e /\ valid_run (step parse failPendingOnClose s e).1 evs
  end.

Lemma run_cons s e evs effs :
  foldl (fun '(s, effs) e => let '(s', new) := step parse failPendingOnClose s e in (s', effs ++ new)) (s, effs) (e :: evs) =
  foldl (fun '(s, effs) e => let '(s', new) := step parse failPendingOnClose s e in (s', effs ++ new))
    ((step parse failPendingOnClose s e).1, effs ++ (step parse failPendingOnClose s e).2) evs.
Proof. cbn [foldl]. by destruct (step parse failPendingOnClose s e). Qed.

Lemma Inv_events_from evs : forall s effs,
  Inv s effs -> valid_run s evs ->
  let '(s', effs') := foldl (fun '(s, effs) e => let '(s', new) := step parse failPendingOnClose s e in (s', effs ++ new))
                        (s, effs) evs in Inv s' effs'.
Proof.
  induction evs as [|e evs IH]; intros s effs HI; [done|]. intros [Hv Hr]. rewrite run_cons. apply IH; [|done].
  pose proof (Inv_event s effs e HI Hv) as H. by destruct (step parse failPendingOnClose s e).
Qed.

Lemma Inv_events c evs :
  valid_run (init c) evs -> let '(s, effs) := run parse failPendingOnClose (init c) evs in Inv s effs.
Proof.
  apply Inv_events_from. split; cbn; try done. constructor.
Qed.

End runs.

Lemma call_ok_once w k c t : call_ok t k c w -> once w.
Proof.
  unfold call_ok, once. destruct (c_stage c); [intros [_ ->]; set_solver| |].
  - intros [_ H]. destruct (c_live c); [destruct H as [-> | ->]|subst w..]; set_solver.
  - intros (_ & H & _). destruct (c_live c); [done|subst w..]; set_solver.
Qed.

(** [C37] Calls and answers are matched. However connections open, close and are
    replaced, and whatever lines arrive, every call whose id is its own is
    answered only by a response that carries that id; its request is accepted
    by at most one connection, being written a second time only after a refusal;
    it waits under its id exactly until it settles, and then nothing of it is
    left; and one that reports it was not sent was never written. *)
Theorem client_calls parse failPendingOnClose c0 evs s effs k c :
  valid_run parse failPendingOnClose (init c0) evs ->
  run parse failPendingOnClose (init c0) evs = (s, effs) -> calls s !! k = Some c ->
  once (writes k effs) /\
  (c_stage c = Sent <-> exists t, JsMap.get (c_id c) (pending s) = Some (k, t)) /\
  (forall r, c_stage c = Settled (Resolved r) -> oprop "id" r = JStr (c_id c)) /\
  (c_stage c = Settled NotSent -> writes k effs = []).
Proof.
  intros Hv Hr Hk. pose proof (Inv_events parse failPendingOnClose c0 evs Hv) as HI. rewrite Hr in HI.
  pose proof (inv_calls _ _ HI k c Hk) as Hok. split; [by eapply call_ok_once|]. unfold call_ok in Hok.
  destruct (c_stage c) as [| |o]; destruct Hok as [Hg Hok].
  - rewrite Hg. split_and!; [|done..]. split; [done|by intros [? ?]].
  - split_and!; done.
  - rewrite Hg. destruct Hok as [_ Ho]. split_and!; [split; [done|by intros [? ?]]|by intros r [= ->]|by intros [= ->]].
Qed.

Definition reply (id : string) : json := JObj [("id", JStr id); ("result", JNum 1)].

Definition demo_parse (text : string) : option json := if String.eqb text "r" then Some (reply "b") else None.

(** The connection goes down under a write, and the request is sent again. *)
Definition demo_events : list event :=
  [Invoke 1 "a" false; Invoke 2 "b" false; Continue 1 true; Down 0; Continue 2 false; Opened 2 1; Continue 2 true;
   Line "noise"; Line "r"; Closed 0; Timer 1].

Lemma client_calls_witness :
  let '(s, effs) := run demo_parse true (init 0) demo_events in
  writes 2 effs = [false; true] /\
  exists c, calls s !! 2 = Some c /\ c_stage c = Settled (Resolved (reply "b")) /\
    (once (writes 2 effs) /\ (c_stage c = Sent <-> exists t, JsMap.get (c_id c) (pending s) = Some (2, t)) /\
     (forall r, c_stage c = Settled (Resolved r) -> oprop "id" r = JStr (c_id c)) /\
     (c_stage c = Settled NotSent -> writes 2 effs = [])).
Proof.
  destruct (run demo_parse true (init 0) demo_events) as [s effs] eqn:E.
  assert (Hv : valid_run demo_parse true (init 0) demo_events).
  { cbn [valid_run demo_events valid]. split_and!; try exact I; try (vm_compute; reflexivity);
      (split; [vm_compute; reflexivity|]); intros k' c' H.
    - cbn in H. rewrite lookup_empty in H. discriminate H.
    - cbn in H. apply lookup_insert_Some in H as [[_ <-]|[_ H]]; [discriminate|]. rewrite lookup_empty in H. discriminate H. }
  assert (Hc : exists c, calls s !! 2 = Some c /\ c_stage c = Settled (Resolved (reply "b")) /\ writes 2 effs = [false; true]).
  { injection E as <- <-. eexists. split_and!; vm_compute; reflexivity. }
  destruct Hc as (c & Hc & Hs & Hw). split; [exact Hw|]. exists c. split; [exact Hc|]. split; [exact Hs|].
  exact (client_calls demo_parse true 0 demo_events s effs 2 c Hv E Hc).
Defined.

(** With [failPendingOnClose], no call waits on a connection that closed. *)
Theorem close_settles parse c0 evs s effs c k call t :
  valid_run parse true (init c0) evs -> run parse true (init c0) evs = (s, effs) ->
  let s' := (step parse true s (Closed c)).1 in
  calls s' !! k = Some call -> JsMap.get (c_id call) (pending s') = Some (k, t) -> t <> c.
Proof.
  intros Hv Hr s' Hk Hg ->. pose proof (Inv_events parse true c0 evs Hv) as HI. rewrite Hr in HI. clear Hk.
  destruct (Inv_fail_waiters c effs (pending s) s HI) as [_ H]; [by apply HI| |].
  - intros id w Hin. apply JsMap.elem_of_get; [by apply HI|done].
  - destruct (H _ _ Hg) as [Hs Hn]. apply Hn. apply JsMap.get_elem_of in Hs. apply list_elem_of_fmap.
    by exists (c_id call, (k, c)).
Qed.

Lemma close_settles_witness :
  exists s effs, run demo_parse true (init 0) [Invoke 1 "a" false; Continue 1 true] = (s, effs) /\
    forall call t, calls (step demo_parse true s (Closed 0)).1 !! 1 = Some call ->
      JsMap.get (c_id call) (pending (step demo_parse true s (Closed 0)).1) = Some (1, t) -> t <> 0.
Proof.
  destruct (run demo_parse true (init 0) [Invoke 1 "a" false; Continue 1 true]) as [s effs] eqn:E.
  exists s, effs. split; [reflexivity|]. intros call t.
  apply (close_settles demo_parse 0 [Invoke 1 "a" false; Continue 1 true] s effs 0 1 call t); [|exact E].
  cbn [valid_run valid]. split_and!; done.
Defined.

(** Two calls that find the connection down each open one, and only the
    later is kept: [close] leaves the other open. *)
Theorem second_connection_leaks :
  let '(s, effs) := run demo_parse true (init 0)
    [Down 0; Invoke 1 "a" false; Invoke 2 "b" false; Opened 1 1; Opened 2 2; Continue 1 true; Continue 2 true; Close] in
  effs = [Wrote 1 1 true; Wrote 2 2 true; ClosedConn 2] /\ is_open s 1 = true.
Proof. vm_compute. by split. Qed.

End LineRpc.
