(* ===== verification/EnvFile.v ===== *)
(** * Variables for a sandbox from the command line
      (packages/cli/src/util/env-args.ts)

    [parseEnvFile] reads a dotenv file, [resolveEnvFlags] the [--env] entries.
    Errors are constructors, and hold what their messages say. *)
From S2P Require Import Prelude JsNumber.

Module EnvFile.

(** ** Names *)

(** [/^[A-Za-z_][A-Za-z0-9_]*$/] *)
Definition name_start (c : ascii) : bool := Str.is_lower c || Str.is_upper c || Ascii.eqb c "_".
Definition NAME (s : string) : bool :=
  match s with
  | String c r => name_start c && Str.all (fun d => name_start d || Str.is_digit d) r
  | EmptyString => false
  end.

(** [/^[A-Z_][A-Z0-9_]*$/] *)
Definition conventional_start (c : ascii) : bool := Str.is_upper c || Ascii.eqb c "_".
Definition isConventionalEnvName (s : string) : bool :=
  match s with
  | String c r => conventional_start c && Str.all (fun d => conventional_start d || Str.is_digit d) r
  | EmptyString => false
  end.

(** ** The file *)

Inductive env_error : Type :=
| NotNameValue (line : nat)
| BadName (line : nat)
| NeverClosed (line : nat) (name : string)
| TextAfterQuote (line : nat) (name : string).

Definition LF : ascii := ascii_of_nat 10.
Definition CR : ascii := ascii_of_nat 13.
Definition TAB : ascii := ascii_of_nat 9.
Definition double_quote : ascii := ascii_of_nat 34.
Definition single_quote : ascii := ascii_of_nat 39.
Definition back_quote : ascii := ascii_of_nat 96.
Definition backslash : ascii := ascii_of_nat 92.

(** A piece that a line feed ended loses one carriage return. *)
Fixpoint drop_cr (s : string) : string :=
  match s with
  | EmptyString => EmptyString
  | String c EmptyString => if Ascii.eqb c CR then EmptyString else s
  | String c r => String c (drop_cr r)
  end.

Fixpoint drop_crs (pieces : list string) : list string :=
  match pieces with
  | [] => []
  | [w] => [w]
  | w :: ws => drop_cr w :: drop_crs ws
  end.

(** [text.split(/\r?\n/)] *)
Definition split_lines (text : string) : list string := drop_crs (Str.split LF text).

(** The expression after its optional prefix, from the start of [s]: a name of
    neither [=] nor white space, an [=], and the rest, without the blanks before
    it. [.] matches no line terminator, so the rest holds none. *)
Definition match_assignment (s : string) : option (string * string) :=
  let '(name, r) := JsNumber.span (fun c => negb (Ascii.eqb c "=" || Str.is_space c)) s in
  if String.eqb name "" then None
  else match Str.trim_start r with
       | String c r' =>
           if Ascii.eqb c "=" then
             let rest := (JsNumber.span (fun c => Ascii.eqb c " " || Ascii.eqb c TAB) r').2 in
             if Str.any Str.is_line_terminator rest then None else Some (name, rest)
           else None
       | EmptyString => None
       end.

(** The whole expression: with the [export] prefix if that matches, else without. *)
Definition match_line (line : string) : option (string * string) :=
  let prefixed :=
    if Str.starts_with "export" line then
      let r := Str.drop 6 line in
      if String.eqb (Str.trim_start r) r then None else match_assignment (Str.trim_start r)
    else None in
  match prefixed with
  | Some m => Some m
  | None => match_assignment line
  end.

Definition unescape (next : ascii) : string :=
  if Ascii.eqb next "n" then String LF ""
  else if Ascii.eqb next "r" then String CR ""
  else if Ascii.eqb next "t" then String TAB ""
  else if Ascii.eqb next double_quote || Ascii.eqb next backslash then String next ""
  else String backslash (String next "").

Inductive scan_result : Type :=
| ClosedAt (value after : string)
| StillOpen (value : string).

Definition scan_cons (v : string) (r : scan_result) : scan_result :=
  match r with ClosedAt value after => ClosedAt (v +:+ value) after | StillOpen value => StillOpen (v +:+ value) end.

(** One segment of a quoted value. *)
Fixpoint scan_segment (quote : ascii) (segment : string) : scan_result :=
  match segment with
  | EmptyString => StillOpen ""
  | String c r =>
      let plain := if Ascii.eqb c quote then ClosedAt "" r else scan_cons (String c "") (scan_segment quote r) in
      if Ascii.eqb quote double_quote && Ascii.eqb c backslash then
        match r with
        | String next r' => scan_cons (unescape next) (scan_segment quote r')
        | EmptyString => plain
        end
      else plain
  end.

(** [readQuoted]: the value, what follows its closing quote, and the lines
    after that one; [None] when it never closes. *)
Fixpoint readQuoted (segment : string) (quote : ascii) (lines : list string)
    : option (string * string * list string) :=
  match scan_segment quote segment with
  | ClosedAt value after => Some (value, after, lines)
  | StillOpen value =>
      match lines with
      | [] => None
      | line :: lines =>
          '(v, after, rest) ← readQuoted line quote lines;
          Some (value +:+ String LF v, after, rest)
      end
  end.

(** [rest.replace(/(^|\s)#.*$/, "")] of text on one line. *)
Fixpoint strip_from (s : string) : string :=
  match s with
  | String c r =>
      if Str.is_space c && Str.starts_with "#" r then "" else String c (strip_from r)
  | EmptyString => ""
  end.
Definition strip_comment (rest : string) : string := if Str.starts_with "#" rest then "" else strip_from rest.

Definition is_quote (c : ascii) : bool :=
  Ascii.eqb c double_quote || Ascii.eqb c single_quote || Ascii.eqb c back_quote.

(** The loop over the lines; [lineNo] counts from 1, [fuel] is at least their
    number: every turn uses one line. *)
Fixpoint parse_lines (fuel lineNo : nat) (out : list (string * string)) (lines : list string)
    : result env_error (list (string * string)) :=
  match fuel, lines with
  | _, [] => Ok out
  | O, _ :: _ => Ok out
  | S fuel, raw :: lines =>
      let line := Str.trim_start raw in
      if String.eqb (Str.trim line) "" || Str.starts_with "#" line then parse_lines fuel (S lineNo) out lines
      else match match_line line with
      | None => Err (NotNameValue lineNo)
      | Some (name, rest) =>
          if negb (NAME name) then Err (BadName lineNo)
          else
            let plain := parse_lines fuel (S lineNo) (JsObj.assign name (Str.trim (strip_comment rest)) out) lines in
            match rest with
            | String quote segment =>
                if is_quote quote then
                  match readQuoted segment quote lines with
                  | None => Err (NeverClosed lineNo name)
                  | Some (value, after, lines') =>
                      let after := Str.trim after in
                      if negb (String.eqb after "") && negb (Str.starts_with "#" after)
                      then Err (TextAfterQuote lineNo name)
                      else parse_lines fuel (S lineNo + (length lines - length lines')) (JsObj.assign name value out) lines'
                  end
                else plain
            | EmptyString => plain
            end
      end
  end.

Definition parseEnvFile (text : string) : result env_error (list (string * string)) :=
  let lines := split_lines text in parse_lines (length lines) 1 [] lines.

(** ** The flags *)

Inductive flag_error : Type :=
| BadFlagName (index : nat)
| NotSet (index : nat) (shown : option string).

Definition resolve_entry (processEnv : string -> option string) (index : nat) (out : list (string * string)) (entry : string)
    : result flag_error (list (string * string)) :=
  let '(name, value) :=
    match Str.index_of "=" entry with
    | None => (entry, None)
    | Some eq => (Str.take eq entry, Some (Str.drop (S eq) entry))
    end in
  if negb (NAME name) then Err (BadFlagName index)
  else match value with
       | Some v => Ok (JsObj.assign name v out)
       | None =>
           match processEnv name with
           | None => Err (NotSet index (if isConventionalEnvName name then Some name else None))
           | Some v => Ok (JsObj.assign name v out)
           end
       end.

Fixpoint resolve_from (processEnv : string -> option string) (index : nat) (out : list (string * string)) (entries : list string)
    : result flag_error (list (string * string)) :=
  match entries with
  | [] => Ok out
  | entry :: entries =>
      let? out := resolve_entry processEnv index out entry in resolve_from processEnv (S index) out entries
  end.

Definition resolveEnvFlags (entries : list string) (fromFile : list (string * string))
    (processEnv : string -> option string) : result flag_error (list (string * string)) :=
  resolve_from processEnv 1 fromFile entries.

Inductive flags_error : Type :=
| InFile (path : string) (e : env_error)
| Unreadable (path : string)
| InFlags (e : flag_error).

(** [readEnvFlags]; [read] is [readFile]. *)
Definition readEnvFlags (env : option (list string)) (env_file : option string) (read : string -> option string)
    (processEnv : string -> option string) : result flags_error (list (string * string)) :=
  let? fromFile :=
    match env_file with
    | Some path =>
        if String.eqb path "" then Ok []
        else match read path with
             | None => Err (Unreadable path)
             | Some text => match parseEnvFile text with Ok o => Ok o | Err e => Err (InFile path e) end
             end
    | None => Ok []
    end in
  match resolveEnvFlags (or_default [] env) fromFile processEnv with Ok o => Ok o | Err e => Err (InFlags e) end.

(** Names no app declares. *)
Definition undeclaredEnvNames (env : list (string * string)) (secrets : list (option (list string))) : list string :=
  let declared := mjoin (map (or_default []) secrets) in
  List.filter (fun name => negb (existsb (String.eqb name) declared)) (map fst env).

(** [describeEnvNames]: the names listed, and how many are only counted. *)
Definition describeEnvNames (names : list string) : string :=
  let shown := List.filter isConventionalEnvName names in
  let hidden := length names - length shown in
  if hidden =? 0 then Str.join ", " shown
  else
    let counted := JsNumber.to_string (Z.of_nat hidden) +:+ " " +:+ (if 0 <? length shown then "other " else "") +:+
      "name" +:+ (if hidden =? 1 then "" else "s") +:+ " (not shown: not uppercase)" in
    if 0 <? length shown then Str.join ", " shown +:+ " and " +:+ counted else counted.

(** ** Round trip *)

(** A value as a double-quoted one, on one line. *)
Definition escape_char (c : ascii) : string :=
  if Ascii.eqb c LF then String backslash "n"
  else if Ascii.eqb c CR then String backslash "r"
  else if Ascii.eqb c double_quote || Ascii.eqb c backslash then String backslash (String c "")
  else String c "".

Fixpoint escape (s : string) : string :=
  match s with String c r => escape_char c +:+ escape r | EmptyString => "" end.

Definition entry_line (kv : string * string) : string :=
  kv.1 +:+ "=" +:+ String double_quote (escape kv.2 +:+ String double_quote "").

Definition serialize (env : list (string * string)) : string :=
  Str.join (String LF "") (map entry_line env ++ [""]).

Lemma scan_escape_char c x :
  scan_segment double_quote (escape_char c +:+ x) = scan_cons (String c "") (scan_segment double_quote x).
Proof. destruct c as [[] [] [] [] [] [] [] []]; reflexivity. Qed.

Lemma scan_cons_app a b r : scan_cons a (scan_cons b r) = scan_cons (a +:+ b) r.
Proof. destruct r; cbn; by rewrite app_assoc_str. Qed.

Lemma scan_escape v x :
  scan_segment double_quote (escape v +:+ String double_quote x) = ClosedAt v x.
Proof.
  induction v as [|c v IH].
  - reflexivity.
  - cbn [escape]. by rewrite app_assoc_str, scan_escape_char, IH.
Qed.

Lemma name_char c : name_start c || Str.is_digit c = true ->
  Ascii.eqb c "=" || Str.is_space c = false /\ is_quote c = false /\ Ascii.eqb c "#" = false /\ Ascii.eqb c LF = false.
Proof. destruct c as [[] [] [] [] [] [] [] []]; vm_compute; done. Qed.

Definition name_chars (s : string) : bool := Str.all (fun c => name_start c || Str.is_digit c) s.

Lemma NAME_chars s : NAME s = true -> name_chars s = true /\ s <> "".
Proof.
  destruct s as [|c r]; [done|]. cbn. rewrite !andb_true_iff. intros [-> ->]. by cbn.
Qed.

Lemma span_name s x :
  name_chars s = true -> JsNumber.span (fun c => negb (Ascii.eqb c "=" || Str.is_space c)) (s +:+ String "=" x) = (s, String "=" x).
Proof.
  unfold name_chars. induction s as [|c s IH]; cbn [Str.all]; [done|]. rewrite andb_true_iff. intros [Hc Hs].
  rewrite app_cons_str. cbn [JsNumber.span]. destruct (name_char c Hc) as [E _]. rewrite E. cbn [negb]. by rewrite IH.
Qed.

Lemma any_escape v x : Str.any Str.is_line_terminator x = false ->
  Str.any Str.is_line_terminator (escape v +:+ x) = false.
Proof.
  intros Hx. induction v as [|c v IH]; [done|]. cbn [escape]. rewrite app_assoc_str, StrFacts.any_app, IH, orb_false_r.
  destruct c as [[] [] [] [] [] [] [] []]; reflexivity.
Qed.

(** A prefix of a line that is all of name characters is a prefix of its name. *)
Lemma name_prefix b : forall a r x,
  name_chars b = true -> a +:+ String "=" x = b +:+ r -> exists a', a = b +:+ a' /\ r = a' +:+ String "=" x.
Proof.
  induction b as [|e b IH]; intros a r x; [intros _ H; by exists a|]. unfold name_chars. cbn [Str.all].
  rewrite andb_true_iff. intros [He Hb]. rewrite app_cons_str. destruct a as [|c a].
  - intros [= <- _]. done.
  - rewrite app_cons_str. intros [= -> H]. destruct (IH a r x Hb H) as (a' & -> & ->). by exists a'.
Qed.

Lemma trim_name a x : name_chars a = true -> Str.trim_start (a +:+ String "=" x) = a +:+ String "=" x.
Proof.
  destruct a as [|c a]; [done|]. unfold name_chars. cbn [Str.all]. rewrite andb_true_iff. intros [Hc _].
  rewrite app_cons_str. cbn [Str.trim_start]. destruct (name_char c Hc) as [E _]. by apply orb_false_iff in E as [_ ->].
Qed.

Definition quoted (v : string) : string := String double_quote (escape v +:+ String double_quote "").

Lemma quoted_line v : Str.any Str.is_line_terminator (quoted v) = false.
Proof.
  unfold quoted. cbn [Str.any]. change (Str.is_line_terminator double_quote) with false. by apply any_escape.
Qed.

Lemma match_assignment_quoted name v :
  NAME name = true -> match_assignment (name +:+ String "=" (quoted v)) = Some (name, quoted v).
Proof.
  intros Hn. destruct (NAME_chars name Hn) as [Hc Hne]. unfold match_assignment. rewrite span_name by done.
  apply String.eqb_neq in Hne. rewrite Hne. cbn [Str.trim_start]. change (Str.is_space "=") with false. cbv iota.
  rewrite Ascii.eqb_refl. change (JsNumber.span _ (quoted v)) with ("", quoted v). cbn [snd]. by rewrite quoted_line.
Qed.

Lemma match_entry name v :
  NAME name = true -> match_line (name +:+ String "=" (quoted v)) = Some (name, quoted v).
Proof.
  intros Hn. destruct (NAME_chars name Hn) as [Hc _]. unfold match_line. rewrite match_assignment_quoted by done.
  destruct (Str.starts_with "export" _) eqn:E; [|done]. apply StrFacts.starts_with_spec in E as [r Er]. rewrite Er.
  change 6 with (String.length "export"). rewrite StrFacts.drop_app.
  apply name_prefix in Er as (a & -> & ->); [|done]. rewrite trim_name; [by rewrite String.eqb_refl|].
  unfold name_chars in *. rewrite StrFacts.all_app in Hc. by apply andb_true_iff in Hc as [_ ?].
Qed.

Lemma trim_end_nonspace s c : Str.is_space c = false -> Str.trim_end (s +:+ String c "") = s +:+ String c "".
Proof.
  intros Hc. assert (H1 : Str.trim_end (String c "") = String c "") by (cbn; by rewrite Hc).
  induction s as [|d s IH]; [done|]. rewrite app_cons_str. cbn [Str.trim_end]. rewrite IH. by destruct s.
Qed.

(** One entry of the file, read. *)
Lemma parse_entry fuel lineNo out name v lines :
  NAME name = true ->
  parse_lines (S fuel) lineNo out ((name +:+ String "=" (quoted v)) :: lines) =
  parse_lines fuel (S lineNo) (JsObj.assign name v out) lines.
Proof.
  intros Hn. destruct (NAME_chars name Hn) as [Hc Hne]. cbn [parse_lines].
  rewrite trim_name, match_entry, Hn by done.
  assert (Htrim : Str.trim (name +:+ String "=" (quoted v)) = name +:+ String "=" (quoted v)).
  { unfold Str.trim. rewrite trim_name by done. unfold quoted.
    change (String "=" (String double_quote (escape v +:+ String double_quote "")))
      with (("=" +:+ String double_quote (escape v)) +:+ String double_quote "").
    rewrite <- app_assoc_str. by apply trim_end_nonspace. }
  rewrite Htrim. destruct name as [|c name]; [done|]. rewrite app_cons_str.
  assert (Hhash : Str.starts_with "#" (String c (name +:+ String "=" (quoted v))) = false).
  { unfold name_chars in Hc. cbn [Str.all] in Hc. apply andb_true_iff in Hc as [Hc _]. cbn [Str.starts_with].
    destruct (name_char c Hc) as (_ & _ & E & _). rewrite Ascii.eqb_sym, E. done. }
  rewrite Hhash. unfold quoted. change (String.eqb (String c _) "") with false.
  change (is_quote double_quote) with true. cbv beta iota zeta delta [orb negb].
  assert (Hread : readQuoted (escape v +:+ String double_quote "") double_quote lines = Some (v, "", lines))
    by (destruct lines; cbn [readQuoted]; by rewrite scan_escape).
  rewrite Hread. change (Str.trim "") with "". cbn [String.eqb negb andb].
  by rewrite Nat.sub_diag, Nat.add_0_r.
Qed.

Lemma parse_entries env : forall fuel lineNo out,
  length env < fuel -> Forall (fun kv => NAME kv.1 = true) env ->
  parse_lines fuel lineNo out (map entry_line env ++ [""]) =
  Ok (foldl (fun out kv => JsObj.assign kv.1 kv.2 out) out env).
Proof.
  induction env as [|[name v] env IH]; intros fuel lineNo out Hf; cbn in Hf.
  - intros _. destruct fuel as [|fuel]; [lia|]. cbn. by destruct fuel.
  - intros [Hn Henv]%Forall_cons. destruct fuel as [|fuel]; [lia|]. cbn [map app foldl].
    change (entry_line (name, v)) with (name +:+ String "=" (quoted v)). rewrite parse_entry by done.
    apply IH; [lia|done].
Qed.

(** ** Lines *)

Lemma any_LF_escape v x : Str.any (Ascii.eqb LF) x = false -> Str.any (Ascii.eqb LF) (escape v +:+ x) = false.
Proof.
  intros Hx. induction v as [|c v IH]; [done|]. cbn [escape]. rewrite app_assoc_str, StrFacts.any_app, IH, orb_false_r.
  destruct c as [[] [] [] [] [] [] [] []]; reflexivity.
Qed.

Lemma entry_no_LF name v : NAME name = true -> Str.any (Ascii.eqb LF) (name +:+ String "=" (quoted v)) = false.
Proof.
  intros Hn. destruct (NAME_chars name Hn) as [Hc _]. rewrite StrFacts.any_app. apply orb_false_iff. split.
  - revert Hc. clear. unfold name_chars. induction name as [|c s IH]; cbn; [done|]. rewrite andb_true_iff. intros [Hc Hs].
    rewrite IH, orb_false_r by done. destruct (name_char c Hc) as (_ & _ & _ & E). by rewrite Ascii.eqb_sym.
  - unfold quoted. cbn [Str.any]. change (Ascii.eqb LF "=") with false. change (Ascii.eqb LF double_quote) with false.
    by apply any_LF_escape.
Qed.

Lemma drop_cr_app s c : Ascii.eqb c CR = false -> drop_cr (s +:+ String c "") = s +:+ String c "".
Proof.
  intros Hc. induction s as [|d s IH]; [cbn; by rewrite Hc|]. rewrite app_cons_str. cbn [drop_cr]. rewrite IH.
  by destruct s.
Qed.

Lemma drop_crs_entries env :
  drop_crs (map entry_line env ++ [""]) = map entry_line env ++ [""].
Proof.
  induction env as [|[name v] env IH]; [done|]. cbn [map app drop_crs]. rewrite IH.
  assert (E : drop_cr (entry_line (name, v)) = entry_line (name, v)).
  { unfold entry_line. cbn [fst snd].
    change ("=" +:+ String double_quote (escape v +:+ String double_quote ""))
      with (("=" +:+ String double_quote (escape v)) +:+ String double_quote "").
    rewrite <- app_assoc_str. by apply drop_cr_app. }
  rewrite E. by destruct env.
Qed.

Lemma foldl_assign_fresh env : forall out : list (string * string),
  NoDup (out.*1 ++ env.*1) -> Forall (fun kv => kv.1 <> "__proto__") env ->
  foldl (fun out kv => JsObj.assign kv.1 kv.2 out) out env = out ++ env.
Proof.
  induction env as [|[k v] env IH]; intros out Hnd Hp; [by rewrite app_nil_r|]. cbn [foldl fst snd].
  apply Forall_cons in Hp as [Hk Hp]. cbn [fst] in Hk. apply String.eqb_neq in Hk. unfold JsObj.assign. rewrite Hk.
  assert (Hnew : k ∉ out.*1).
  { intros Hin. cbn in Hnd. apply NoDup_app in Hnd as (_ & Hd & _). apply (Hd k Hin). by left. }
  assert (Eput : JsMap.put k v out = out ++ [(k, v)]).
  { clear -Hnew. induction out as [|[k' v'] out IH]; [done|]. cbn in *. apply not_elem_of_cons in Hnew as [Hne Hn].
    rewrite decide_False by done. by rewrite IH. }
  rewrite Eput, IH; [by rewrite <- app_assoc| |done]. by rewrite fmap_app, <- app_assoc.
Qed.

(** What is written is read back: values of any characters, line breaks,
    quotes and backslashes among them, written in double quotes with the escapes
    the reader expands, are read back exactly, in order. *)
Theorem parseEnvFile_roundtrip env :
  NoDup env.*1 -> Forall (fun kv => NAME kv.1 = true /\ kv.1 <> "__proto__") env ->
  parseEnvFile (serialize env) = Ok env.
Proof.
  intros Hnd Hok. assert (Hnames : Forall (fun kv => NAME kv.1 = true) env) by (eapply Forall_impl; [exact Hok|by intros ? []]).
  unfold parseEnvFile, serialize, split_lines. rewrite StrFacts.split_join.
  - rewrite drop_crs_entries, parse_entries; [|rewrite length_app, length_map; cbn; lia|done].
    rewrite foldl_assign_fresh; [done|done|]. eapply Forall_impl; [exact Hok|by intros ? []].
  - by destruct env.
  - apply Forall_app. split; [|by constructor]. apply Forall_map. eapply Forall_impl; [exact Hnames|].
    intros [name v] Hn. by apply entry_no_LF.
Qed.

Definition pem : string := "-----BEGIN" +:+ String LF (String double_quote (String backslash "x")).

Lemma parseEnvFile_roundtrip_witness :
  parseEnvFile (serialize [("KEY", pem); ("export", "1")]) = Ok [("KEY", pem); ("export", "1")].
Proof.
  apply (parseEnvFile_roundtrip [("KEY", pem); ("export", "1")]).
  - cbn. apply NoDup_cons. split; [set_solver|]. apply NoDup_singleton.
  - repeat (apply Forall_cons; split; [by split|]). constructor.
Defined.

(** ** Errors *)

Definition error_line (e : env_error) : nat :=
  match e with NotNameValue n | BadName n | NeverClosed n _ | TextAfterQuote n _ => n end.

(** What an error says of the text of a line: a valid name at most. *)
Definition discreet (e : env_error) : bool :=
  match e with NotNameValue _ | BadName _ => true | NeverClosed _ name | TextAfterQuote _ name => NAME name end.

Lemma readQuoted_shorter lines : forall segment quote value after rest,
  readQuoted segment quote lines = Some (value, after, rest) -> length rest <= length lines.
Proof.
  induction lines as [|line lines IH]; intros segment quote value after rest; cbn [readQuoted];
    destruct (scan_segment quote segment) as [v a|v]; try (by intros [= _ _ <-]).
  destruct (readQuoted line quote lines) as [[[v' a'] r']|] eqn:E; [|done]. intros [= _ _ <-].
  apply IH in E. cbn. lia.
Qed.

Lemma parse_lines_error fuel : forall lineNo out lines e,
  parse_lines fuel lineNo out lines = Err e ->
  discreet e = true /\ lineNo <= error_line e < lineNo + length lines.
Proof.
  induction fuel as [|fuel IH]; intros lineNo out [|raw lines] e; cbn [parse_lines]; try done.
  assert (Hnext : forall out', parse_lines fuel (S lineNo) out' lines = Err e ->
    discreet e = true /\ lineNo <= error_line e < lineNo + length (raw :: lines)).
  { intros out' [H1 H2]%IH. split; [done|]. cbn [length]. lia. }
  destruct (String.eqb _ "" || _); [apply Hnext|].
  destruct (match_line (Str.trim_start raw)) as [[name rest]|]; [|intros [= <-]; cbn; split; [done|lia]].
  destruct (NAME name) eqn:Hn; cbn [negb]; [|intros [= <-]; cbn; split; [done|lia]].
  destruct rest as [|quote segment]; [apply Hnext|]. destruct (is_quote quote); [|apply Hnext].
  destruct (readQuoted segment quote lines) as [[[value after] lines']|] eqn:Er; [|intros [= <-]; cbn; split; [done|lia]].
  destruct (negb _ && negb _); [intros [= <-]; cbn; split; [done|lia]|].
  intros [H1 H2]%IH. apply readQuoted_shorter in Er. split; [done|]. cbn [length]. lia.
Qed.

(** A file that is refused is refused discreetly: the error names a line
    of the file and at most a text that is itself a valid variable name, never
    a value or a line that did not parse. *)
Theorem parseEnvFile_error text e :
  parseEnvFile text = Err e -> discreet e = true /\ 1 <= error_line e <= length (split_lines text).
Proof. intros [H1 H2]%parse_lines_error. split; [done|lia]. Qed.

Lemma parseEnvFile_error_witness :
  discreet (TextAfterQuote 2 "TOKEN") = true /\
  1 <= 2 <= length (split_lines ("# file" +:+ String LF ("TOKEN='ab'c"))).
Proof.
  exact (parseEnvFile_error ("# file" +:+ String LF ("TOKEN='ab'c")) (TextAfterQuote 2 "TOKEN") eq_refl).
Defined.

(** ** Flags *)

Definition entry_name (entry : string) : string :=
  match Str.index_of "=" entry with Some eq => Str.take eq entry | None => entry end.
Definition entry_value (processEnv : string -> option string) (entry : string) : option string :=
  match Str.index_of "=" entry with Some eq => Some (Str.drop (S eq) entry) | None => processEnv entry end.

Lemma resolve_entry_Ok processEnv index out entry out' :
  resolve_entry processEnv index out entry = Ok out' ->
  NAME (entry_name entry) = true /\
  exists v, entry_value processEnv entry = Some v /\ out' = JsObj.assign (entry_name entry) v out.
Proof.
  unfold resolve_entry, entry_name, entry_value. destruct (Str.index_of "=" entry) as [eq|].
  - destruct (NAME _); [|done]. intros [= <-]. split; [done|by eexists].
  - destruct (NAME entry); [|done]. cbn [negb]. destruct (processEnv entry); [|done]. intros [= <-]. split; [done|by eexists].
Qed.

(** The last entry of a name. *)
Definition last_for (name : string) (entries : list string) : option string :=
  List.find (fun e => String.eqb (entry_name e) name) (rev entries).

Lemma find_app_last {A} (p : A -> bool) l k :
  List.find p (l ++ k) = match List.find p l with Some x => Some x | None => List.find p k end.
Proof. induction l as [|x l IH]; cbn; [done|]. by destruct (p x). Qed.

Lemma resolve_from_get processEnv entries : forall index out out' name,
  name <> "__proto__" -> resolve_from processEnv index out entries = Ok out' ->
  JsMap.get name out' =
  match last_for name entries with Some e => entry_value processEnv e | None => JsMap.get name out end.
Proof.
  induction entries as [|entry entries IH]; intros index out out' name Hp; cbn [resolve_from]; [by intros [= <-]|].
  unfold rbind. destruct (resolve_entry processEnv index out entry) as [out1|e] eqn:E; [|done].
  intros H. rewrite (IH _ _ _ name Hp H). unfold last_for. cbn [rev]. rewrite find_app_last.
  destruct (List.find _ (rev entries)); [done|]. cbn [List.find].
  apply resolve_entry_Ok in E as (Hn & v & Hv & ->). destruct (String.eqb_spec (entry_name entry) name) as [->|Hne].
  - rewrite JsObj.get_assign, decide_True by done. done.
  - unfold JsObj.assign. destruct (String.eqb _ "__proto__"); [done|]. apply JsMap.get_put_ne. congruence.
Qed.

(** The flags, resolved: a name has the value of its last entry, which is
    what follows the first [=] or, without one, what this shell has for it; and
    where no entry names it, the file's. *)
Theorem resolveEnvFlags_spec entries fromFile processEnv out name :
  resolveEnvFlags entries fromFile processEnv = Ok out -> name <> "__proto__" ->
  JsMap.get name out =
  match last_for name entries with Some e => entry_value processEnv e | None => JsMap.get name fromFile end.
Proof. intros H Hp. by apply (resolve_from_get processEnv entries 1). Qed.

Lemma resolveEnvFlags_spec_witness :
  exists out, resolveEnvFlags ["A=1"; "B"; "A=2=3"] [("C", "f"); ("B", "f")] (fun _ => Some "shell") = Ok out /\
    JsMap.get "A" out = Some "2=3" /\ JsMap.get "B" out = Some "shell" /\ JsMap.get "C" out = Some "f".
Proof.
  eexists. split; [reflexivity|].
  split; [apply (resolveEnvFlags_spec ["A=1"; "B"; "A=2=3"] [("C", "f"); ("B", "f")] (fun _ => Some "shell")); done|].
  split; [apply (resolveEnvFlags_spec ["A=1"; "B"; "A=2=3"] [("C", "f"); ("B", "f")] (fun _ => Some "shell")); done|].
  apply (resolveEnvFlags_spec ["A=1"; "B"; "A=2=3"] [("C", "f"); ("B", "f")] (fun _ => Some "shell")); done.
Defined.

(** A pasted token is not echoed: a listing is the same whatever the names
    it does not show are, as long as there are as many. *)
Theorem describeEnvNames_hides names names' :
  List.filter isConventionalEnvName names = List.filter isConventionalEnvName names' -> length names = length names' ->
  describeEnvNames names = describeEnvNames names'.
Proof. intros E L. unfold describeEnvNames. by rewrite E, L. Qed.

Lemma describeEnvNames_hides_witness :
  describeEnvNames ["PATH"; "ghp_abc"] = describeEnvNames ["sk_live"; "PATH"].
Proof. apply (describeEnvNames_hides ["PATH"; "ghp_abc"] ["sk_live"; "PATH"]); reflexivity. Defined.

End EnvFile.
