(* ===== verification/Container.v ===== *)
(** * Booting a sandbox's container
      (packages/docker-orchestrator/src/container.ts, and the cgroup decision
      of packages/docker-orchestrator/src/doctor.ts)

    [startContainer] decides everything Docker is asked for: which ports are
    published and where, which capabilities and devices the container gets,
    which limits, and which part of the environment `docker inspect` may show.
    Docker, the kernel probe and the semantic-fs sidecar are arguments. *)
From S2P Require Import Prelude JsNumber Json JsonParse Utf8 Manifest Resources Paths Secrets.

Module Container.
Import Json.

(** ** What a manifest asks for *)

Definition BROWSER_PORTS : list (string * string) := [("vnc", "5900"); ("novnc", "6080")].
Definition TERMINAL_PORT : string := "7681".
Definition HTTP_RPC_CONTAINER_PORT : string := "7300".

Definition declares (prefix : string) (m : Manifest.BerthManifest) : bool :=
  existsb (Str.starts_with prefix) (Manifest.m_capabilities m).
Definition declaresBrowserCapability : Manifest.BerthManifest -> bool := declares "browser:".
Definition declaresTerminalCapability : Manifest.BerthManifest -> bool := declares "terminal:".
Definition declaresMeshCapability : Manifest.BerthManifest -> bool := declares "network:peer:".
Definition needsBrowserPorts (m : Manifest.BerthManifest) : bool :=
  declaresBrowserCapability m && Manifest.x_browser (Manifest.m_expose m).
Definition needsTerminalPort (m : Manifest.BerthManifest) : bool :=
  declaresTerminalCapability m && Manifest.x_terminal (Manifest.m_expose m).

(** [Math.min] and [Math.round] of finite numbers. *)
Definition less (x y : JsNumber.jsnum) : bool :=
  match x, y with
  | JsNumber.Fin m1 e1, JsNumber.Fin m2 e2 =>
      let e := Z.min e1 e2 in (m1 * 2 ^ (e1 - e) <? m2 * 2 ^ (e2 - e))%Z
  | JsNumber.Inf b, JsNumber.Inf c => b && negb c
  | JsNumber.Inf b, JsNumber.Fin _ _ => b
  | JsNumber.Fin _ _, JsNumber.Inf c => negb c
  | _, _ => false
  end.
Definition min_num (x y : JsNumber.jsnum) : JsNumber.jsnum :=
  match x, y with
  | JsNumber.NaN, _ | _, JsNumber.NaN => JsNumber.NaN
  | _, _ => if less y x then y else x
  end.
Definition round_num (x : JsNumber.jsnum) : JsNumber.jsnum :=
  match x with
  | JsNumber.Fin m e =>
      if (0 <=? e)%Z then x else JsNumber.of_Z ((m + 2 ^ (- e - 1)) / 2 ^ (- e))
  | _ => x
  end.

Definition containerResources (manifests : list Manifest.BerthManifest) (hostCpus : option JsNumber.jsnum)
    : Resources.SandboxResources :=
  let sandbox := Resources.sandboxResources (map Manifest.m_resources manifests) in
  match Resources.s_cpu sandbox, hostCpus with
  | Some cpu, Some host =>
      if JsNumber.positive host then
        {| Resources.s_cpu := Some (min_num cpu host); Resources.s_memoryMb := Resources.s_memoryMb sandbox;
           Resources.s_pids := Resources.s_pids sandbox; Resources.s_gpu := Resources.s_gpu sandbox |}
      else sandbox
  | _, _ => sandbox
  end.

(** The value of one variable in an image's own list. *)
Definition imageEnvValue (image_env : option (list string)) (name : string) : option string :=
  entries ← image_env;
  entry ← List.find (Str.starts_with (name +:+ "=")) entries;
  Some (Str.drop (S (String.length name)) entry).

(** ** Cgroups of the apps (doctor.ts) *)

Record CgroupProbe := { v2 : bool; nsdelegate : bool }.

Inductive delegation : Type :=
| Delegate
| Disabled            (* BERTH_DISABLE_APP_CGROUPS=1 *)
| NotProbed
| NotV2 (runtime : option string)
| NoNsdelegate
| TooOldDocker.

Definition delegates (d : delegation) : bool := match d with Delegate => true | _ => false end.

Definition cgroupDelegationVerdict (disable_env : option string) (cgroup : option CgroupProbe) (runtime : option string)
    : delegation :=
  if bool_decide (disable_env = Some "1") then Disabled
  else match cgroup with
       | None => NotProbed
       | Some c => if negb (v2 c) then NotV2 runtime else if negb (nsdelegate c) then NoNsdelegate else Delegate
       end.

Definition appCgroupsRequired (value : option string) : bool :=
  bool_decide (value = Some "1") || bool_decide (value = Some "true").

(** The reason to refuse. *)
Definition appCgroupsRefusal (required : bool) (d : delegation) : option delegation :=
  if negb required || delegates d then None else Some d.

(** ** Options *)

Record BindMount := { hostPath : string; containerPath : string; readOnly : bool }.
Record App := { a_name : string; a_workingDir : string; a_manifest : Manifest.BerthManifest }.
Record HttpRpc := { authToken : string; rpcApp : option string }.

Record StartContainerOptions := {
  image : string;
  o_name : string;
  manifest : Manifest.BerthManifest;
  bindMount : option BindMount;
  o_workingDir : option string;
  appStateVolume : option string;
  extraBinds : list string;
  o_env : list (string * string);
  o_apps : option (list App);
  network : option string;
  meshCoordinatorUrl : option string;
  httpRpc : option HttpRpc;
  o_publishHost : option string;
  o_runtime : option string;
  extraSecurityOpt : list string;
  secretsRunDir : string
}.

(** [x] and not the empty string, as [if (x)] asks. *)
Definition nonempty (x : option string) : option string :=
  match x with Some s => if String.eqb s "" then None else Some s | None => None end.

(** [explicit ?? process.env.NAME], the empty string being unset. *)
Definition resolvePublishHost (explicit from_env : option string) : string :=
  or_default "127.0.0.1" (nonempty (match explicit with Some s => Some s | None => from_env end)).
Definition resolveRuntime (explicit from_env : option string) : option string :=
  nonempty (match explicit with Some s => Some s | None => from_env end).

(** [options.apps && options.apps.length > 0 ? some : of the manifest] *)
Definition any_app (p : Manifest.BerthManifest -> bool) (o : StartContainerOptions) : bool :=
  match o_apps o with
  | Some ((_ :: _) as apps) => existsb (fun a => p (a_manifest a)) apps
  | _ => p (manifest o)
  end.

(** ** What Docker is asked for *)

Record Device := { PathOnHost : string; PathInContainer : string }.
Definition device (path : string) : Device := {| PathOnHost := path; PathInContainer := path |}.

Record CreateOptions := {
  Name : string;
  Image : string;
  WorkingDir : string;
  Env : list (string * string);
  PortBindings : list (string * string);     (* container port, host interface *)
  Binds : list string;
  Devices : list Device;
  CapAdd : list string;
  SecurityOpt : list string;
  NanoCpus : option JsNumber.jsnum;
  Memory : option JsNumber.jsnum;
  PidsLimit : JsNumber.jsnum;
  GpuCount : option JsNumber.jsnum;
  Runtime : option string;
  Network : option string;
  ExtraHosts : list string
}.

Definition WRITABLE_CGROUPS_OPT : string := "writable-cgroups=true".

(** ** The sidecar *)

Record Sidecar := { sandboxBinds : list string; sandboxEnv : list (string * string) }.

Record SidecarRequest := { sidecarBinds : list string; appUidMap : string }.

Definition SIDECAR_EXPORT_DIR : string := "/berth-fs".
Definition VAR_PREFIX : string := "/var/berth/".

(** A restored snapshot's binds, re-aimed at the sidecar. *)
Definition sidecar_bind (bind : string) : option string :=
  match Str.split ":" bind with
  | host :: target :: rest =>
      if Str.starts_with VAR_PREFIX target then
        Some (Str.join ":" (host :: (SIDECAR_EXPORT_DIR +:+ "/var/" +:+ Str.drop (String.length VAR_PREFIX) target) :: rest))
      else None
  | _ => None
  end.

Definition uid_entry (i : nat) (name : string) : string := name +:+ "=" +:+ JsNumber.to_string (10000 + Z.of_nat i).

Definition sidecar_request (o : StartContainerOptions) : SidecarRequest :=
  {| sidecarBinds := omap sidecar_bind (extraBinds o);
     appUidMap := Str.join "," (imap uid_entry
       (match o_apps o with Some apps => map a_name apps | None => [Manifest.m_name (manifest o)] end)) |}.

(** ** The boot *)

Definition CONTAINER_SECRETS_PATH : string := "/run/berth/secrets.env".
Definition CONTAINER_APP_SECRETS_DIR : string := "/run/berth-secrets.d".

Definition apps_json (apps : list App) : string :=
  JsonParse.stringify (JArr (map (fun a => JObj [("name", JStr (a_name a)); ("workingDir", JStr (a_workingDir a))]) apps)).

(** [if (v) env.NAME = v], the value already tested. *)
Definition assign_opt (name : string) (v : option string) (e : list (string * string)) : list (string * string) :=
  match v with Some v => JsObj.assign name v e | None => e end.

(** The environment before the sidecar is decided; [terminal] and [vnc] are
    the fresh credentials of the ports that are published. *)
Definition base_env (o : StartContainerOptions) (terminal vnc : option string) : list (string * string) :=
  let e := o_env o in
  let e := match o_apps o with
           | Some ((_ :: _) as apps) => JsObj.assign "BERTH_APPS" (apps_json apps) e
           | _ => e
           end in
  let e := JsObj.assign "BERTH_MESH_PEER_NAME" (o_name o) e in
  let e := match bindMount o with
           | Some b => JsObj.assign "BERTH_DEV_SOURCE_MOUNT" (containerPath b) e
           | None => JsMap.remove "BERTH_DEV_SOURCE_MOUNT" e
           end in
  let e := assign_opt "BERTH_MESH_COORDINATOR_URL" (nonempty (meshCoordinatorUrl o)) e in
  let e := match httpRpc o with
           | Some r =>
               assign_opt "BERTH_HTTP_RPC_APP" (nonempty (rpcApp r))
                 (JsObj.assign "BERTH_HTTP_RPC_TOKEN" (authToken r)
                   (JsObj.assign "BERTH_HTTP_RPC_PORT" HTTP_RPC_CONTAINER_PORT e))
           | None => e
           end in
  let e := assign_opt "BERTH_TERMINAL_CREDENTIAL" terminal e in
  assign_opt "BERTH_VNC_PASSWORD" vnc e.

(** How /context is served. *)
Inductive posture : Type :=
| BySidecar (s : Sidecar)
| NoContext
| InSandbox.

Inductive boot_event : Type :=
| NetworkEnsured (name : string)
| SidecarStarted (r : SidecarRequest)
| SecretsWritten (path : string)
| CreateCalled (c : CreateOptions)
| ContainerStarted
| SidecarStopped
| SecretsRemoved.

Inductive boot_error : Type :=
| CgroupsRefused (why : delegation)
| NetworkError (message : string)
| SecretName (name : string)          (* a name no shell can represent *)
| CreateError (message : string)
| StartError (message : string).

(** What [startContainer] finds outside: the process's environment, the probe,
    the sidecar, the processor count, and what Docker answers. *)
Record World := {
  process_env : string -> option string;
  probe : option CgroupProbe;
  image_env : option (list string);
  terminal_secret : string;
  vnc_secret : string;
  networks : list string;
  create_network : result string unit;    (* a 409 counts as created *)
  start_sidecar : SidecarRequest -> option Sidecar;
  host_cpus : option JsNumber.jsnum;
  createContainer : CreateOptions -> result string unit;
  start : result string unit
}.

Definition ensureNetwork (w : World) (name : string) : result string (list boot_event) :=
  if existsb (String.eqb name) (networks w) then Ok []
  else match create_network w with Ok _ => Ok [NetworkEnsured name] | Err m => Err m end.

Definition context_posture (w : World) (o : StartContainerOptions) : list boot_event * posture :=
  if bool_decide (process_env w "BERTH_NO_SEMANTIC_FS" = Some "1") then ([], NoContext)
  else if bool_decide (process_env w "BERTH_DISABLE_FS_SIDECAR" = Some "1") then ([], InSandbox)
  else match start_sidecar w (sidecar_request o) with
       | Some s => ([SidecarStarted (sidecar_request o)], BySidecar s)
       | None => ([], NoContext)
       end.

Definition devices_of (p : posture) (mesh : bool) : list Device :=
  (match p with InSandbox => [device "/dev/fuse"] | _ => [] end) ++ (if mesh then [device "/dev/net/tun"] else []).
Definition capAdd_of (p : posture) (mesh : bool) : list string :=
  (match p with InSandbox => ["SYS_ADMIN"] | _ => [] end) ++ (if mesh then ["NET_ADMIN"] else []).
Definition securityOpt_of (p : posture) (o : StartContainerOptions) (d : delegation) : list string :=
  (match p with InSandbox => ["apparmor:unconfined"] | _ => [] end) ++ extraSecurityOpt o ++
  (if delegates d then [WRITABLE_CGROUPS_OPT] else []).

Definition delegation_text (d : delegation) : string :=
  match d with
  | Delegate => "delegated"
  | Disabled => "off: BERTH_DISABLE_APP_CGROUPS=1"
  | NotProbed => "off: the kernel probe did not run, so cgroup delegation could not be checked"
  | NotV2 runtime =>
      "off: the container's /sys/fs/cgroup is not cgroup v2" +:+
      match nonempty runtime with
      | Some r => " under the " +:+ String dq_char (r +:+ String dq_char " runtime")
      | None => ""
      end
  | NoNsdelegate =>
      "off: the host's cgroup2 mount has no nsdelegate, so a writable cgroup namespace would let root in the sandbox raise the sandbox's own limits"
  | TooOldDocker => "off: this Docker daemon does not support writable-cgroups"
  end.

(** The whole environment, the secrets still in it. *)
Definition full_env (o : StartContainerOptions) (terminal vnc : option string) (p : posture) (d : delegation)
    : list (string * string) :=
  let e := base_env o terminal vnc in
  let e := match p with NoContext => JsObj.assign "BERTH_NO_SEMANTIC_FS" "1" e | _ => e end in
  let e := JsObj.assign "BERTH_DAEMON_MEMORY_RESERVE_MB" "256" e in
  let e := JsObj.assign "BERTH_DEFAULT_APP_PIDS" "1024" e in
  JsObj.assign "BERTH_APP_CGROUPS" (delegation_text d) e.

Definition app_declarations (o : StartContainerOptions) : list Secrets.AppSecretsDeclaration :=
  match o_apps o with
  | Some apps => map (fun a => {| Secrets.app_name := a_name a; Secrets.app_secrets := Manifest.m_secrets (a_manifest a) |}) apps
  | None => [{| Secrets.app_name := Manifest.m_name (manifest o); Secrets.app_secrets := Manifest.m_secrets (manifest o) |}]
  end.

Definition declared_names (o : StartContainerOptions) : list string := mjoin (map Secrets.app_secrets (app_declarations o)).

Definition working_dir (o : StartContainerOptions) : string :=
  match o_workingDir o with
  | Some d => d
  | None => match bindMount o with Some b => containerPath b | None => "/app" end
  end.

Definition bind_list (o : StartContainerOptions) : list string :=
  (match bindMount o with
   | Some b => [hostPath b +:+ ":" +:+ containerPath b +:+ (if readOnly b then ":ro" else "")]
   | None => []
   end) ++
  (match nonempty (appStateVolume o) with Some v => [v +:+ ":" +:+ working_dir o +:+ "/.berth"] | None => [] end) ++
  extraBinds o.

(** The container ports to publish. *)
Definition published (browser terminal rpc : bool) : list string :=
  (if browser then map (fun port => port.2 +:+ "/tcp") BROWSER_PORTS else []) ++
  (if terminal then [TERMINAL_PORT +:+ "/tcp"] else []) ++
  (if rpc then [HTTP_RPC_CONTAINER_PORT +:+ "/tcp"] else []).

Definition manifests_of (o : StartContainerOptions) : list Manifest.BerthManifest :=
  match o_apps o with Some apps => map a_manifest apps | None => [manifest o] end.

Definition resources_of (w : World) (o : StartContainerOptions) : Resources.SandboxResources :=
  let ms := manifests_of o in
  containerResources ms
    (if forallb (fun m => bool_decide (is_Some (Manifest.r_cpu (Manifest.m_resources m)))) ms then host_cpus w else None).

(** The files for the secrets, written in turn: the binds and the variables
    they add. *)
Definition write_secrets (umask : Z) (o : StartContainerOptions) (p : Secrets.PerAppSecretPartition) (plain : list (string * string))
    (h : Secrets.host) : Secrets.host * list boot_event * result boot_error (list string * list (string * string)) :=
  let '(h, ev1, r1) :=
    match Secrets.shared p with
    | [] => (h, [], Ok ([], plain))
    | _ :: _ =>
        match Secrets.writeContainerSecretsFile umask (o_name o) (Secrets.shared p) (secretsRunDir o) h with
        | (h, Ok path) =>
            (h, [SecretsWritten path],
             Ok ([path +:+ ":" +:+ CONTAINER_SECRETS_PATH +:+ ":ro"], JsObj.assign "BERTH_SECRETS_FILE" CONTAINER_SECRETS_PATH plain))
        | (h, Err n) => (h, [], Err (SecretName n))
        end
    end in
  match r1 with
  | Err e => (h, ev1, Err e)
  | Ok (binds, plain) =>
      match Secrets.writePerAppSecretsFiles umask (o_name o) (Secrets.perApp p) (secretsRunDir o) h with
      | (h, Ok None) => (h, ev1, Ok (binds, plain))
      | (h, Ok (Some dir)) =>
          (h, ev1 ++ [SecretsWritten dir],
           Ok (binds ++ [dir +:+ ":" +:+ CONTAINER_APP_SECRETS_DIR +:+ ":ro"],
               JsObj.assign "BERTH_APP_SECRETS_DIR" CONTAINER_APP_SECRETS_DIR plain))
      | (h, Err n) => (h, ev1, Err (SecretName n))
      end
  end.

(** [Object.assign(plain, more)] *)
Definition assign_all (plain more : list (string * string)) : list (string * string) :=
  foldl (fun e kv => JsObj.assign kv.1 kv.2 e) plain more.

Definition create_options (w : World) (o : StartContainerOptions) (d : delegation) (p : posture)
    (secret_binds : list string) (plain : list (string * string)) : CreateOptions :=
  let res := resources_of w o in
  let mesh := any_app declaresMeshCapability o in
  {| Name := o_name o; Image := image o; WorkingDir := working_dir o;
     Env := match p with BySidecar s => assign_all plain (sandboxEnv s) | _ => plain end;
     PortBindings :=
       map (fun port => (port, resolvePublishHost (o_publishHost o) (process_env w "BERTH_PUBLISH_HOST")))
         (published (any_app needsBrowserPorts o) (any_app needsTerminalPort o) (bool_decide (is_Some (httpRpc o))));
     Binds := bind_list o ++ (match p with BySidecar s => sandboxBinds s | _ => [] end) ++ secret_binds;
     Devices := devices_of p mesh;
     CapAdd := capAdd_of p mesh;
     SecurityOpt := securityOpt_of p o d;
     NanoCpus := (fun cpu => round_num (JsNumber.mul cpu (JsNumber.of_Z 1000000000))) <$> Resources.s_cpu res;
     Memory := (fun mb => JsNumber.mul (JsNumber.mul mb (JsNumber.of_Z 1024)) (JsNumber.of_Z 1024)) <$> Resources.s_memoryMb res;
     PidsLimit := Resources.s_pids res;
     GpuCount := match Resources.s_gpu res with Some g => if JsNumber.falsy g then None else Some g | None => None end;
     Runtime := resolveRuntime (o_runtime o) (process_env w "BERTH_RUNTIME");
     Network := nonempty (network o);
     ExtraHosts := ["host.docker.internal:host-gateway"] |}.

(** The second attempt, for a daemon that does not know the option. *)
Definition without_cgroups (c : CreateOptions) : CreateOptions :=
  {| Name := Name c; Image := Image c; WorkingDir := WorkingDir c;
     Env := map (fun kv => if Str.starts_with "BERTH_APP_CGROUPS=" (kv.1 +:+ "=" +:+ kv.2)
                           then ("BERTH_APP_CGROUPS", delegation_text TooOldDocker) else kv) (Env c);
     PortBindings := PortBindings c; Binds := Binds c; Devices := Devices c; CapAdd := CapAdd c;
     SecurityOpt := List.filter (fun opt => negb (String.eqb opt WRITABLE_CGROUPS_OPT)) (SecurityOpt c);
     NanoCpus := NanoCpus c; Memory := Memory c; PidsLimit := PidsLimit c; GpuCount := GpuCount c;
     Runtime := Runtime c; Network := Network c; ExtraHosts := ExtraHosts c |}.

Definition create (w : World) (required : bool) (d : delegation) (p : posture) (c : CreateOptions)
    : list boot_event * result boot_error unit :=
  match createContainer w c with
  | Ok _ => ([CreateCalled c], Ok tt)
  | Err m =>
      if negb (delegates d) || negb (Str.includes "writable-cgroups" (Str.to_lower m)) then ([CreateCalled c], Err (CreateError m))
      else match appCgroupsRefusal required TooOldDocker with
           | Some why =>
               ([CreateCalled c] ++ (match p with BySidecar _ => [SidecarStopped] | _ => [] end) ++ [SecretsRemoved],
                Err (CgroupsRefused why))
           | None =>
               let again := without_cgroups c in
               ([CreateCalled c; CreateCalled again],
                match createContainer w again with Ok _ => Ok tt | Err m => Err (CreateError m) end)
           end
  end.

(** The credentials handed back with the running container. *)
Record Credentials := { c_terminal : option string; c_vnc : option string }.

Definition credentials_of (w : World) (o : StartContainerOptions) : Credentials :=
  {| c_terminal := if any_app needsTerminalPort o then Some ("berth:" +:+ terminal_secret w) else None;
     c_vnc := if any_app needsBrowserPorts o then Some (vnc_secret w) else None |}.

Definition startContainer (umask : Z) (w : World) (o : StartContainerOptions) (h : Secrets.host)
    : Secrets.host * list boot_event * result boot_error Credentials :=
  let d := cgroupDelegationVerdict (process_env w "BERTH_DISABLE_APP_CGROUPS") (probe w)
    (resolveRuntime (o_runtime o) (process_env w "BERTH_RUNTIME")) in
  let required := appCgroupsRequired
    (match JsMap.get "BERTH_REQUIRE_APP_CGROUPS" (o_env o) with
     | Some v => Some v
     | None => imageEnvValue (image_env w) "BERTH_REQUIRE_APP_CGROUPS"
     end) in
  match appCgroupsRefusal required d with
  | Some why => (h, [], Err (CgroupsRefused why))
  | None =>
      match match nonempty (network o) with Some n => ensureNetwork w n | None => Ok [] end with
      | Err m => (h, [], Err (NetworkError m))
      | Ok ev0 =>
          let creds := credentials_of w o in
          let '(ev1, p) := context_posture w o in
          let parts := Secrets.partitionSecretEnv (full_env o (c_terminal creds) (c_vnc creds) p d) (declared_names o) in
          let split := Secrets.partitionSecretsPerApp (Secrets.secret parts) (app_declarations o) in
          let '(h, ev2, r) := write_secrets umask o split (Secrets.plain parts) h in
          match r with
          | Err e => (h, ev0 ++ ev1 ++ ev2, Err e)
          | Ok (secret_binds, plain) =>
              let '(ev3, created) := create w required d p (create_options w o d p secret_binds plain) in
              match created with
              | Err e => (h, ev0 ++ ev1 ++ ev2 ++ ev3, Err e)
              | Ok _ =>
                  match start w with
                  | Ok _ => (h, ev0 ++ ev1 ++ ev2 ++ ev3 ++ [ContainerStarted], Ok creds)
                  | Err m => (h, ev0 ++ ev1 ++ ev2 ++ ev3, Err (StartError m))
                  end
              end
          end
      end
  end.

(** ** After the boot *)

Record Ports := { vnc : option JsNumber.jsnum; novnc : option JsNumber.jsnum; terminal : option JsNumber.jsnum;
                  rpc_port : option JsNumber.jsnum }.

(** [binding?.[0]?.HostPort], as a number. *)
Definition hostPort (binding : option (list string)) : option JsNumber.jsnum :=
  match binding with
  | Some (p :: _) => if String.eqb p "" then None else Some (JsNumber.Number p)
  | _ => None
  end.

Definition number_set (n : option JsNumber.jsnum) : bool := match n with Some x => negb (JsNumber.falsy x) | None => false end.

Definition mapped_ports (mapped : string -> option (list string)) : Ports :=
  {| vnc := hostPort (mapped "5900/tcp"); novnc := hostPort (mapped "6080/tcp");
     terminal := hostPort (mapped (TERMINAL_PORT +:+ "/tcp")); rpc_port := hostPort (mapped (HTTP_RPC_CONTAINER_PORT +:+ "/tcp")) |}.

(** One inspection after the other, at most [attempts]. *)
Fixpoint waitForPortMappings (browser term rpc : bool) (inspects : list (string -> option (list string))) (attempts : nat) : Ports :=
  match attempts, inspects with
  | S attempts, mapped :: inspects =>
      let ports := mapped_ports mapped in
      if (negb browser || number_set (vnc ports) && number_set (novnc ports)) &&
         (negb term || number_set (terminal ports)) && (negb rpc || number_set (rpc_port ports))
      then ports else waitForPortMappings browser term rpc inspects attempts
  | _, _ => {| vnc := None; novnc := None; terminal := None; rpc_port := None |}
  end.

(** ** Container logs *)

Definition byte_at (n : nat) (s : string) : nat :=
  match String.get n s with Some c => Str.code c | None => 0 end.

(** [readUInt32BE] *)
Definition readUInt32BE (n : nat) (s : string) : N :=
  ((N.of_nat (byte_at n s) * 256 + N.of_nat (byte_at (n + 1) s)) * 256 + N.of_nat (byte_at (n + 2) s)) * 256
  + N.of_nat (byte_at (n + 3) s).

(** The frames from the current offset on: the payloads, and whether a header
    that is none was met. *)
Fixpoint frames (fuel : nat) (s : string) : list string * bool :=
  match fuel with
  | O => ([], true)
  | S fuel =>
      if String.length s <? 8 then ([], true)
      else if 2 <? byte_at 0 s then ([], false)
      else
        let len := readUInt32BE 4 s in
        let rest := Str.drop 8 s in
        if (N.of_nat (String.length rest) <? len)%N then ([], true)
        else
          let '(more, ok) := frames fuel (Str.drop (N.to_nat len) rest) in
          (Utf8.toString (Str.take (N.to_nat len) rest) :: more, ok)
  end.

Definition demultiplexLogs (buffer : string) : string :=
  let '(chunks, ok) := frames (String.length buffer) buffer in
  match chunks with
  | [] => Utf8.toString buffer
  | _ => if ok then foldr String.append "" chunks else Utf8.toString buffer
  end.

(** ** Taking it down *)

Inductive stop_event : Type := StopSidecar (name : string) | Stop | Remove | RemoveSecrets (name : string).

(** [name] is what inspect gave, [status] the failure of [stop]. *)
Definition stopContainer (name : option string) (status : option (option nat)) : list stop_event * bool :=
  let name := match name with
              | Some n => nonempty (Some (if Str.starts_with "/" n then Str.drop 1 n else n))
              | None => None
              end in
  let first := match name with Some n => [StopSidecar n] | None => [] end in
  match status with
  | Some code =>
      if bool_decide (code = Some 304)
      then (first ++ [Stop; Remove] ++ (match name with Some n => [RemoveSecrets n] | None => [] end), true)
      else (first ++ [Stop], false)
  | None => (first ++ [Stop; Remove] ++ (match name with Some n => [RemoveSecrets n] | None => [] end), true)
  end.

(** ** What every created container is *)

Lemma write_secrets_plain umask o p pl h h' ev binds plain' :
  write_secrets umask o p pl h = (h', ev, Ok (binds, plain')) ->
  (forall c, CreateCalled c ∉ ev) /\
  (forall n, n ∈ plain'.*1 -> n ∈ pl.*1 \/ n = "BERTH_SECRETS_FILE" \/ n = "BERTH_APP_SECRETS_DIR").
Proof.
  assert (Hassign : forall k v (e : list (string * string)) n, n ∈ (JsObj.assign k v e).*1 -> n ∈ e.*1 \/ n = k).
  { intros k v e n. unfold JsObj.assign. destruct (String.eqb k "__proto__"); [by left|]. rewrite JsMap.keys_put.
    case_decide; [by left|]. intros [?|?%list_elem_of_singleton]%elem_of_app; auto. }
  unfold write_secrets.
  assert (Hfirst : forall pl1 e1, (forall n, n ∈ pl1.*1 -> n ∈ pl.*1 \/ n = "BERTH_SECRETS_FILE") ->
    (forall c, CreateCalled c ∉ e1) ->
    forall hh b1, (match Secrets.writePerAppSecretsFiles umask (o_name o) (Secrets.perApp p) (secretsRunDir o) hh with
      | (h, Ok None) => (h, e1, Ok (b1, pl1))
      | (h, Ok (Some dir)) => (h, e1 ++ [SecretsWritten dir],
           Ok (b1 ++ [dir +:+ ":" +:+ CONTAINER_APP_SECRETS_DIR +:+ ":ro"],
               JsObj.assign "BERTH_APP_SECRETS_DIR" CONTAINER_APP_SECRETS_DIR pl1))
      | (h, Err n) => (h, e1, Err (SecretName n)) end) = (h', ev, Ok (binds, plain')) ->
    (forall c, CreateCalled c ∉ ev) /\
    (forall n, n ∈ plain'.*1 -> n ∈ pl.*1 \/ n = "BERTH_SECRETS_FILE" \/ n = "BERTH_APP_SECRETS_DIR")).
  { intros pl1 e1 Hpl He hh b1. destruct (Secrets.writePerAppSecretsFiles _ _ _ _ hh) as [h2 [[dir|]|n]]; [| |done].
    - intros [= <- <- <- <-]. split.
      + intros c [H|H%list_elem_of_singleton]%elem_of_app; [by apply (He c)|done].
      + intros n [H| ->]%Hassign; [destruct (Hpl n H); auto|auto].
    - intros [= <- <- <- <-]. split; [done|]. intros n H. destruct (Hpl n H); auto. }
  destruct (Secrets.shared p) as [|kv l].
  - apply Hfirst; [by left|by intros c ?%elem_of_nil].
  - destruct (Secrets.writeContainerSecretsFile _ _ _ _ h) as [h1 [path|n]]; [|done].
    apply Hfirst; [intros n [?| ->]%Hassign; auto|by intros c ?%list_elem_of_singleton].
Qed.

Lemma not_created_first w o ev p c : context_posture w o = (ev, p) -> CreateCalled c ∉ ev.
Proof.
  unfold context_posture. case_bool_decide; [by intros [= <- _] ?%elem_of_nil|].
  case_bool_decide; [by intros [= <- _] ?%elem_of_nil|].
  destruct (start_sidecar w _); intros [= <- _]; [by intros ?%list_elem_of_singleton|by intros ?%elem_of_nil].
Qed.

Lemma not_created_network w n ev c : ensureNetwork w n = Ok ev -> CreateCalled c ∉ ev.
Proof.
  unfold ensureNetwork. destruct (existsb _ _); [by intros [= <-] ?%elem_of_nil|].
  destruct (create_network w); [|done]. by intros [= <-] ?%list_elem_of_singleton.
Qed.

Lemma create_calls w required d p c x :
  CreateCalled x ∈ (create w required d p c).1 -> x = c \/ x = without_cgroups c /\ delegates d = true.
Proof.
  unfold create. destruct (createContainer w c) as [u|m]; cbn [fst]; [intros [= ->]%list_elem_of_singleton; by left|].
  destruct (delegates d) eqn:Ed; cbn [negb orb]; [|intros [= ->]%list_elem_of_singleton; by left].
  destruct (negb (Str.includes _ _)); [intros [= ->]%list_elem_of_singleton; by left|].
  destruct (appCgroupsRefusal required TooOldDocker); cbn [fst].
  - intros [H|H]%elem_of_app.
    + apply list_elem_of_singleton in H as [= ->]. by left.
    + destruct p; cbn in H; set_solver.
  - intros [[= ->]|[[= ->]|H%elem_of_nil]%elem_of_cons]%elem_of_cons; [by left|by right|done].
Qed.

(** What the environment of a created container holds before the sidecar's. *)
Definition plain_of (w : World) (o : StartContainerOptions) (p : posture) (d : delegation) : list (string * string) :=
  Secrets.plain (Secrets.partitionSecretEnv
    (full_env o (c_terminal (credentials_of w o)) (c_vnc (credentials_of w o)) p d) (declared_names o)).

Lemma start_creates umask w o h x :
  CreateCalled x ∈ (startContainer umask w o h).1.2 ->
  exists d p binds plain c,
    d = cgroupDelegationVerdict (process_env w "BERTH_DISABLE_APP_CGROUPS") (probe w)
          (resolveRuntime (o_runtime o) (process_env w "BERTH_RUNTIME")) /\
    p = (context_posture w o).2 /\ c = create_options w o d p binds plain /\
    (x = c \/ x = without_cgroups c /\ delegates d = true) /\
    (forall n, n ∈ plain.*1 -> n ∈ (plain_of w o p d).*1 \/ n = "BERTH_SECRETS_FILE" \/ n = "BERTH_APP_SECRETS_DIR").
Proof.
  unfold startContainer. set (d := cgroupDelegationVerdict _ _ _).
  destruct (appCgroupsRefusal _ d); [by intros ?%elem_of_nil|].
  destruct (match nonempty (network o) with Some n => ensureNetwork w n | None => Ok [] end) as [ev0|m] eqn:En;
    [|by intros ?%elem_of_nil].
  assert (H0 : CreateCalled x ∉ ev0).
  { destruct (nonempty (network o)); [by apply (not_created_network w s)|]. injection En as <-. by intros ?%elem_of_nil. }
  destruct (context_posture w o) as [ev1 p] eqn:Ep. pose proof (not_created_first w o ev1 p x Ep) as H1.
  cbv zeta. fold (plain_of w o p d). set (split := Secrets.partitionSecretsPerApp _ _).
  destruct (write_secrets umask o split (plain_of w o p d) h) as [[h2 ev2] [[binds plain]|e]] eqn:Ew.
  - destruct (write_secrets_plain _ _ _ _ _ _ _ _ _ Ew) as [H2 Hplain].
    pose proof (create_calls w (appCgroupsRequired (match JsMap.get "BERTH_REQUIRE_APP_CGROUPS" (o_env o) with
      | Some v => Some v | None => imageEnvValue (image_env w) "BERTH_REQUIRE_APP_CGROUPS" end))
      d p (create_options w o d p binds plain) x) as Hc.
    destruct (create w _ d p (create_options w o d p binds plain)) as [ev3 created]. cbn [fst] in Hc.
    intros H. exists d, p, binds, plain, (create_options w o d p binds plain).
    split_and!; [done|done|done| |done]. apply Hc.
    destruct created; [destruct (start w)|]; cbn [fst snd] in H; rewrite ?elem_of_app in H; try tauto.
    destruct H as [?|[?|[?|[?|H%list_elem_of_singleton]]]]; [done|done|by destruct (H2 x)|done|done].
    all: destruct H as [?|[?|[?|?]]]; [done|done|by destruct (H2 x)|done].
  - intros H. exfalso. cbn [fst snd] in H. rewrite !elem_of_app in H. destruct H as [?|[?|H]]; [done|done|].
    revert Ew H. unfold write_secrets.
    destruct (Secrets.shared split) as [|kv l].
    + destruct (Secrets.writePerAppSecretsFiles _ _ _ _ _) as [h3 [[?|]|?]]; intros [= <- <- <-]; by intros ?%elem_of_nil.
    + destruct (Secrets.writeContainerSecretsFile _ _ _ _ _) as [h3 [path|?]]; [|intros [= <- <- <-]; by intros ?%elem_of_nil].
      destruct (Secrets.writePerAppSecretsFiles _ _ _ _ _) as [h4 [[?|]|?]]; intros [= <- <- <-]; by intros ?%list_elem_of_singleton.
Qed.

(** The operator asked for the mount inside the sandbox, and did not turn the
    semantic file system off. *)
Definition in_sandbox_asked (w : World) : Prop :=
  process_env w "BERTH_DISABLE_FS_SIDECAR" = Some "1" /\ process_env w "BERTH_NO_SEMANTIC_FS" <> Some "1".

Lemma context_posture_in_sandbox w o : (context_posture w o).2 = InSandbox <-> in_sandbox_asked w.
Proof.
  unfold context_posture, in_sandbox_asked. case_bool_decide as H1; [by split; [|intros [_ ?]]|].
  case_bool_decide as H2; [done|]. split; [by destruct (start_sidecar w _)|by intros [? _]].
Qed.

(** The browser's debugging port is none of these. *)
Lemma published_ports b t r port : port ∈ published b t r ->
  (b = true /\ (port = "5900/tcp" \/ port = "6080/tcp")) \/ (t = true /\ port = "7681/tcp") \/ (r = true /\ port = "7300/tcp").
Proof. destruct b, t, r; cbn; set_solver. Qed.

(** What holds of the first attempt holds of the second. *)
Ltac created :=
  intros (d & p & binds & plain & made & Hd & Hp & Hc & Hx & Hplain)%start_creates.

(** [C18] No boot hands a sandbox more than was asked for. A container Docker is
    asked to create has CAP_SYS_ADMIN and /dev/fuse exactly when the operator
    asked for the mount inside the sandbox - a sidecar that fails never leads
    there - and NET_ADMIN and the tun device exactly when an app declares a
    peer network; it has no other capability or device; and a writable cgroup
    namespace only if the probe saw cgroup v2 with nsdelegate, or the caller
    passed the option itself. *)
Theorem container_posture umask w o h c :
  CreateCalled c ∈ (startContainer umask w o h).1.2 ->
  ("SYS_ADMIN" ∈ CapAdd c <-> in_sandbox_asked w) /\
  (device "/dev/fuse" ∈ Devices c <-> in_sandbox_asked w) /\
  ("NET_ADMIN" ∈ CapAdd c <-> any_app declaresMeshCapability o = true) /\
  (device "/dev/net/tun" ∈ Devices c <-> any_app declaresMeshCapability o = true) /\
  (forall cap, cap ∈ CapAdd c -> cap = "SYS_ADMIN" \/ cap = "NET_ADMIN") /\
  (forall dev, dev ∈ Devices c -> dev = device "/dev/fuse" \/ dev = device "/dev/net/tun") /\
  (WRITABLE_CGROUPS_OPT ∈ SecurityOpt c -> WRITABLE_CGROUPS_OPT ∈ extraSecurityOpt o \/
     exists cg, probe w = Some cg /\ v2 cg = true /\ nsdelegate cg = true).
Proof.
  created.
  assert (Hcaps : CapAdd c = capAdd_of p (any_app declaresMeshCapability o) /\
    Devices c = devices_of p (any_app declaresMeshCapability o) /\
    (WRITABLE_CGROUPS_OPT ∈ SecurityOpt c -> WRITABLE_CGROUPS_OPT ∈ securityOpt_of p o d)).
  { destruct Hx as [-> |[-> _]]; rewrite Hc; cbn; split_and!; try done.
    intros [_ ?]%list_elem_of_In%filter_In. done. }
  destruct Hcaps as (-> & -> & Hsec). pose proof (context_posture_in_sandbox w o) as Hin. rewrite <- Hp in Hin.
  unfold capAdd_of, devices_of, securityOpt_of in *. split_and!.
  - rewrite <- Hin. destruct p, (any_app _ o); cbn; set_solver.
  - rewrite <- Hin. unfold device. destruct p, (any_app _ o); cbn; set_solver.
  - destruct p, (any_app _ o); cbn; set_solver.
  - unfold device. destruct p, (any_app _ o); cbn; set_solver.
  - destruct p, (any_app _ o); cbn; set_solver.
  - destruct p, (any_app _ o); cbn; set_solver.
  - intros [H|[H|H]%elem_of_app]%Hsec%elem_of_app; [destruct p; cbn in H; set_solver|by left|right].
    destruct (delegates d) eqn:Ed; [|by apply elem_of_nil in H]. subst d. revert Ed. unfold cgroupDelegationVerdict.
    case_bool_decide; [done|]. destruct (probe w) as [cg|]; [|done]. exists cg.
    destruct (v2 cg), (nsdelegate cg); done.
Qed.

(** Every published port is bound to the one interface the operator chose,
    which is loopback when nobody chose; and only a browser's VNC ports, a
    terminal and the RPC bridge are ever published, each only if it was asked
    for and has a credential in the environment's secret part. *)
Theorem container_ports umask w o h c port host :
  CreateCalled c ∈ (startContainer umask w o h).1.2 -> (port, host) ∈ PortBindings c ->
  host = resolvePublishHost (o_publishHost o) (process_env w "BERTH_PUBLISH_HOST") /\
  (o_publishHost o = None -> nonempty (process_env w "BERTH_PUBLISH_HOST") = None -> host = "127.0.0.1") /\
  ((port = "5900/tcp" \/ port = "6080/tcp") /\ c_vnc (credentials_of w o) = Some (vnc_secret w) \/
   port = "7681/tcp" /\ c_terminal (credentials_of w o) = Some ("berth:" +:+ terminal_secret w) \/
   port = "7300/tcp" /\ is_Some (httpRpc o)).
Proof.
  created.
  assert (E : PortBindings c = map (fun port => (port, resolvePublishHost (o_publishHost o) (process_env w "BERTH_PUBLISH_HOST")))
    (published (any_app needsBrowserPorts o) (any_app needsTerminalPort o) (bool_decide (is_Some (httpRpc o)))))
    by (by destruct Hx as [-> |[-> _]]; rewrite Hc).
  rewrite E. intros (q & [= <- <-] & Hq)%list_elem_of_In%in_map_iff. apply list_elem_of_In, published_ports in Hq.
  split_and!; [done| |].
  - intros -> Hn. unfold resolvePublishHost. by rewrite Hn.
  - unfold credentials_of. cbn. destruct Hq as [[-> ?]|[[-> ?]|[Hr ?]]]; [by left|by right; left|right; right].
    by apply bool_decide_eq_true in Hr.
Qed.

(** ** The environment `docker inspect` shows *)

Lemma assign_keys k v (e : list (string * string)) n : n ∈ (JsObj.assign k v e).*1 -> n ∈ e.*1 \/ n = k.
Proof.
  unfold JsObj.assign. destruct (String.eqb k "__proto__"); [by left|]. rewrite JsMap.keys_put.
  case_decide; [by left|]. intros [?|?%list_elem_of_singleton]%elem_of_app; auto.
Qed.

Lemma partition_plain declared e : forall acc n,
  n ∈ (Secrets.plain (foldl (Secrets.partition_one declared) acc e)).*1 ->
  n ∈ (Secrets.plain acc).*1 \/ (n ∉ declared) /\ Secrets.isSecretEnvName n = false.
Proof.
  induction e as [|[k v] e IH]; intros acc n; cbn [foldl]; [by left|]. intros [H|H]%IH; [|by right].
  unfold Secrets.partition_one in H. destruct (bool_decide (k ∈ declared) || Secrets.isSecretEnvName k) eqn:E;
    cbn [Secrets.plain] in H; [by left|]. apply assign_keys in H as [?| ->]; [by left|right].
  by apply orb_false_iff in E as [?%bool_decide_eq_false ?].
Qed.

Lemma assign_all_keys more : forall (e : list (string * string)) n, n ∈ (assign_all e more).*1 -> n ∈ e.*1 \/ n ∈ more.*1.
Proof.
  unfold assign_all. induction more as [|[k v] more IH]; intros e n; cbn [foldl]; [by left|].
  intros [[?| ->]%assign_keys|?]%IH; [by left|right; by left|right; by right].
Qed.

(** The names a boot adds after the split, none of which carries a secret: where
    the secret files are, whether cgroups were delegated, and the sidecar's. *)
Definition delivery_name (w : World) (o : StartContainerOptions) (n : string) : Prop :=
  n = "BERTH_SECRETS_FILE" \/ n = "BERTH_APP_SECRETS_DIR" \/ n = "BERTH_APP_CGROUPS" \/
  exists s, start_sidecar w (sidecar_request o) = Some s /\ n ∈ (sandboxEnv s).*1.

(** No secret reaches `docker inspect`. Whatever the caller's environment
    and the apps' manifests say, a variable in a created container's environment
    has neither a credential's name nor one that an app declares as a secret;
    the generated terminal, VNC and RPC credentials are of the first kind. *)
Theorem container_env_no_secret umask w o h c n v :
  CreateCalled c ∈ (startContainer umask w o h).1.2 -> (n, v) ∈ Env c ->
  (Secrets.isSecretEnvName n = false /\ (n ∉ declared_names o)) \/ delivery_name w o n.
Proof.
  created. intros Hin.
  assert (Hn : n = "BERTH_APP_CGROUPS" \/ n ∈ (Env (create_options w o d p binds plain)).*1).
  { destruct Hx as [-> |[-> _]]; rewrite Hc in Hin; [right; by apply (list_elem_of_fmap_2 fst) in Hin|].
    cbn [Env without_cgroups] in Hin. apply list_elem_of_In, in_map_iff in Hin as (kv & E & Hin).
    destruct (Str.starts_with _ _); [injection E as <- _; by left|]. subst kv. right.
    apply list_elem_of_In in Hin. by apply (list_elem_of_fmap_2 fst) in Hin. }
  destruct Hn as [-> |Hn]; [right; unfold delivery_name; auto|].
  assert (Hcase : n ∈ plain.*1 \/ exists s, start_sidecar w (sidecar_request o) = Some s /\ n ∈ (sandboxEnv s).*1).
  { cbn [Env create_options] in Hn. destruct p as [s| |]; [|by left..].
    apply assign_all_keys in Hn as [?|?]; [by left|right]. exists s. split; [|done].
    revert Hp. unfold context_posture. case_bool_decide; [done|]. case_bool_decide; [done|].
    destruct (start_sidecar w _); [by intros [= ->]|done]. }
  destruct Hcase as [Hpl|?]; [|right; unfold delivery_name; auto].
  destruct (Hplain n Hpl) as [H|[?|?]]; [|right; unfold delivery_name; auto..]. left.
  apply partition_plain in H as [?%elem_of_nil|[H1 H2]]; [done|]. split; [done|]. contradict H1.
  by apply JsSet.elem_of_of_list.
Qed.

(** A strict boot that cannot be met leaves nothing behind: with
    BERTH_REQUIRE_APP_CGROUPS set and no delegation, no network, sidecar, file
    or container is made. *)
Theorem strict_boot_refused umask w o h :
  JsMap.get "BERTH_REQUIRE_APP_CGROUPS" (o_env o) = Some "1" ->
  (forall cg, probe w = Some cg -> v2 cg && nsdelegate cg = false) ->
  exists why, startContainer umask w o h = (h, [], Err (CgroupsRefused why)) /\ delegates why = false.
Proof.
  intros Hr Hp. unfold startContainer. rewrite Hr.
  assert (Hd : delegates (cgroupDelegationVerdict (process_env w "BERTH_DISABLE_APP_CGROUPS") (probe w)
    (resolveRuntime (o_runtime o) (process_env w "BERTH_RUNTIME"))) = false).
  { unfold cgroupDelegationVerdict. case_bool_decide; [done|]. destruct (probe w) as [cg|]; [|done].
    specialize (Hp cg eq_refl). by destruct (v2 cg), (nsdelegate cg). }
  unfold appCgroupsRefusal. rewrite Hd. eexists. by split.
Qed.

(** ** A boot *)

Definition demo_manifest (caps secrets : list string) : Manifest.BerthManifest :=
  {| Manifest.m_name := "notes"; Manifest.m_version := "1.0.0"; Manifest.m_description := "";
     Manifest.m_runtime := Manifest.Node; Manifest.m_capabilities := caps; Manifest.m_exports := [];
     Manifest.m_on_install := []; Manifest.m_on_agent_ready := [];
     Manifest.m_expose := {| Manifest.x_browser := true; Manifest.x_terminal := true; Manifest.x_preview := false |};
     Manifest.m_governs := false; Manifest.m_governance := {| Manifest.exempt := false |};
     Manifest.m_resources := {| Manifest.r_cpu := None; Manifest.r_memory_mb := None; Manifest.r_gpu := None; Manifest.r_pids := None |};
     Manifest.m_secrets := secrets |}.

Definition demo_options (apps : option (list App)) (caps secrets : list string) (env : list (string * string))
    : StartContainerOptions :=
  {| image := "berth/notes"; o_name := "box"; manifest := demo_manifest caps secrets; bindMount := None; o_workingDir := None;
     appStateVolume := None; extraBinds := ["/snap/data:/var/berth/context"]; o_env := env; o_apps := apps; network := None;
     meshCoordinatorUrl := None; httpRpc := Some {| authToken := "t0ken"; rpcApp := None |}; o_publishHost := None;
     o_runtime := None; extraSecurityOpt := []; secretsRunDir := "/run/me" |}.

Definition demo_sidecar : Sidecar :=
  {| sandboxBinds := ["/mnt:/context:rslave"]; sandboxEnv := [("BERTH_SEMANTIC_FS_EXTERNAL", "1")] |}.

(** The daemon refuses an option it does not know, or everything. *)
Definition demo_world (answer : CreateOptions -> result string unit) : World :=
  {| process_env := fun _ => None; probe := Some {| v2 := true; nsdelegate := true |}; image_env := None;
     terminal_secret := "aa"; vnc_secret := "bb"; networks := []; create_network := Ok tt;
     start_sidecar := fun _ => Some demo_sidecar; host_cpus := None; createContainer := answer; start := Ok tt |}.

Definition old_daemon (c : CreateOptions) : result string unit :=
  if existsb (String.eqb WRITABLE_CGROUPS_OPT) (SecurityOpt c) then Err "invalid --security-opt: Writable-CGroups" else Ok tt.

Definition no_files : Secrets.host := {| Secrets.files := ∅; Secrets.dirs := ∅ |}.

Definition created_in (evs : list boot_event) : list CreateOptions :=
  omap (fun e => match e with CreateCalled c => Some c | _ => None end) evs.

Lemma created_in_spec evs c : c ∈ created_in evs -> CreateCalled c ∈ evs.
Proof.
  unfold created_in. intros (e & He & E)%list_elem_of_omap. destruct e; try done. by injection E as ->.
Qed.

Definition demo_boot : list boot_event :=
  (startContainer 18 (demo_world old_daemon) (demo_options None ["terminal:spawn:bash"] ["DB_URL"] [("DB_URL", "x"); ("A_KEY", "y"); ("LANG", "C")])
     no_files).1.2.

Lemma container_posture_witness :
  exists c, CreateCalled c ∈ demo_boot /\ ("SYS_ADMIN" ∈ CapAdd c <-> in_sandbox_asked (demo_world old_daemon)).
Proof.
  destruct (created_in demo_boot) as [|c l] eqn:E; [vm_compute in E; discriminate E|].
  assert (Hc : CreateCalled c ∈ demo_boot) by (apply created_in_spec; rewrite E; left).
  exists c. split; [exact Hc|]. exact (proj1 (container_posture _ _ _ _ c Hc)).
Defined.

Lemma container_ports_witness :
  exists c, CreateCalled c ∈ demo_boot /\ ("7681/tcp", "127.0.0.1") ∈ PortBindings c /\
    "127.0.0.1" = resolvePublishHost None None.
Proof.
  destruct (created_in demo_boot) as [|c l] eqn:E; [vm_compute in E; discriminate E|].
  assert (Hc : CreateCalled c ∈ demo_boot) by (apply created_in_spec; rewrite E; left).
  assert (Hp : ("7681/tcp", "127.0.0.1") ∈ PortBindings c)
    by (vm_compute in E; injection E as <- _; vm_compute; left).
  exists c. split; [exact Hc|]. split; [exact Hp|].
  exact (proj1 (container_ports _ _ _ _ c _ _ Hc Hp)).
Defined.

Lemma container_env_no_secret_witness :
  exists c, CreateCalled c ∈ demo_boot /\ ("LANG", "C") ∈ Env c /\
    (Secrets.isSecretEnvName "LANG" = false /\ ("LANG" ∉ ["DB_URL"]) \/
     delivery_name (demo_world old_daemon) (demo_options None ["terminal:spawn:bash"] ["DB_URL"] [("DB_URL", "x"); ("A_KEY", "y"); ("LANG", "C")]) "LANG").
Proof.
  destruct (created_in demo_boot) as [|c l] eqn:E; [vm_compute in E; discriminate E|].
  assert (Hc : CreateCalled c ∈ demo_boot) by (apply created_in_spec; rewrite E; left).
  assert (Hv : ("LANG", "C") ∈ Env c) by (vm_compute in E; injection E as <- _; vm_compute; left).
  exists c. split; [exact Hc|]. split; [exact Hv|]. exact (container_env_no_secret _ _ _ _ c _ _ Hc Hv).
Defined.

Lemma strict_boot_refused_witness :
  exists why, startContainer 18
    {| process_env := fun _ => None; probe := None; image_env := None; terminal_secret := "aa"; vnc_secret := "bb"; networks := [];
       create_network := Ok tt; start_sidecar := fun _ => None; host_cpus := None; createContainer := fun _ => Ok tt; start := Ok tt |}
    (demo_options None [] [] [("BERTH_REQUIRE_APP_CGROUPS", "1")]) no_files = (no_files, [], Err (CgroupsRefused why)) /\
    delegates why = false.
Proof. apply strict_boot_refused; [reflexivity|]. intros cg H. discriminate H. Defined.

(** An empty list of apps is read two ways: the ports and the mesh are
    then decided by the manifest, the secrets by nobody, so a name the manifest
    declares under [secrets:] reaches the environment `docker inspect` shows. *)
Theorem empty_apps_leak :
  let boot apps := (startContainer 18 (demo_world (fun _ => Ok tt)) (demo_options apps [] ["DB_URL"] [("DB_URL", "x")]) no_files).1.2 in
  existsb (fun c => bool_decide (("DB_URL", "x") ∈ Env c)) (created_in (boot (Some []))) = true /\
  existsb (fun c => bool_decide (("DB_URL", "x") ∈ Env c)) (created_in (boot None)) = false.
Proof. vm_compute. by split. Qed.

(** A container Docker refuses to create leaves its sidecar running and
    its secrets on the host. *)
Theorem failed_create_leaves :
  let '(h, evs, r) := startContainer 18 (demo_world (fun _ => Err "No such image")) (demo_options None [] [] [("A_KEY", "y")]) no_files in
  r = Err (CreateError "No such image") /\ (SidecarStopped ∉ evs) /\ (SecretsRemoved ∉ evs) /\
  (exists q, SidecarStarted q ∈ evs) /\ is_Some (Secrets.files h !! "/run/me/box/secrets.env").
Proof.
  vm_compute. split_and!; [done|set_solver|set_solver| |by eexists]. eexists. left.
Qed.

(** ** Logs *)

Definition byte (n : N) : ascii := ascii_of_N n.

Definition header (stream : nat) (len : N) : string :=
  String (ascii_of_nat stream) (String (byte 0) (String (byte 0) (String (byte 0)
    (String (byte (len / 16777216)) (String (byte (len / 65536 mod 256)) (String (byte (len / 256 mod 256))
      (String (byte (len mod 256)) ""))))))).

Definition frame (f : nat * string) : string := header f.1 (N.of_nat (String.length f.2)) +:+ f.2.

Lemma code_byte n : (n < 256)%N -> Str.code (byte n) = N.to_nat n.
Proof. intros H. unfold Str.code, byte, nat_of_ascii. by rewrite N_ascii_embedding. Qed.

Lemma base256 n : (n / 256 * 256 + n mod 256 = n)%N.
Proof. pose proof (N.div_mod' n 256). lia. Qed.

Lemma header_length stream len x :
  (len < 4294967296)%N -> readUInt32BE 4 (header stream len +:+ x) = len.
Proof.
  intros Hlen. unfold readUInt32BE, byte_at, header. rewrite !app_cons_str. cbn [String.get Nat.add].
  assert (H3 : (len / 16777216 < 256)%N) by (apply N.Div0.div_lt_upper_bound; lia).
  rewrite !code_byte by (done || apply N.mod_lt; lia). rewrite !N2Nat.id.
  assert (E2 : (len / 65536 = len / 256 / 256)%N) by (by rewrite N.Div0.div_div).
  assert (E3 : (len / 16777216 = len / 65536 / 256)%N) by (by rewrite N.Div0.div_div).
  rewrite E3, base256, E2, base256. apply base256.
Qed.

Lemma header_size stream len : String.length (header stream len) = 8.
Proof. done. Qed.

Lemma frames_encoded fs : forall fuel,
  length fs < fuel ->
  Forall (fun f => f.1 <= 2 /\ (N.of_nat (String.length f.2) < 4294967296)%N) fs ->
  frames fuel (foldr String.append "" (map frame fs)) = (map (fun f => Utf8.toString f.2) fs, true).
Proof.
  induction fs as [|[stream payload] fs IH]; intros fuel Hf; [destruct fuel; [cbn in Hf; lia|reflexivity]|].
  intros [[Hs Hl] Hfs]%Forall_cons. destruct fuel as [|fuel]; [lia|]. cbn [map foldr fst snd length] in *.
  unfold frame at 1. cbn [fst snd]. rewrite app_assoc_str. set (rest := foldr String.append "" (map frame fs)).
  set (len := N.of_nat (String.length payload)) in *. cbn [frames].
  rewrite length_app_str, header_size. cbn [Nat.ltb Nat.leb plus].
  assert (Hb : byte_at 0 (header stream len +:+ payload +:+ rest) = stream).
  { unfold byte_at, header. rewrite !app_cons_str. cbn [String.get]. unfold Str.code. apply nat_ascii_embedding. lia. }
  rewrite Hb.
  rewrite header_length by done. change 8 with (String.length (header stream len)). rewrite StrFacts.drop_app.
  replace (N.of_nat (String.length (payload +:+ rest)) <? len)%N with false
    by (symmetry; apply N.ltb_ge; rewrite length_app_str; lia).
  unfold len. rewrite Nat2N.id, StrFacts.drop_app, StrFacts.take_app. unfold rest. rewrite IH; [|lia|done].
  clear Hb. by destruct stream as [|[|[|stream]]]; [..|lia].
Qed.

Lemma length_encoded fs : 8 * length fs <= String.length (foldr String.append "" (map frame fs)).
Proof.
  induction fs as [|f fs IH]; [cbn; lia|]. cbn [map foldr length]. unfold frame at 1.
  rewrite !length_app_str, header_size. lia.
Qed.

(** The log Docker multiplexes is put back together: frames of any sizes,
    on any of the three streams, give their payloads in order. *)
Theorem demultiplexLogs_frames fs :
  Forall (fun f => f.1 <= 2 /\ (N.of_nat (String.length f.2) < 4294967296)%N) fs ->
  demultiplexLogs (foldr String.append "" (map frame fs)) = foldr String.append "" (map (fun f => Utf8.toString f.2) fs).
Proof.
  intros Hfs. unfold demultiplexLogs. destruct fs as [|f fs]; [reflexivity|].
  pose proof (length_encoded (f :: fs)) as Hlen. rewrite frames_encoded; [done| |done].
  revert Hlen. generalize (String.length (foldr String.append "" (map frame (f :: fs)))). cbn [length]. lia.
Qed.

Lemma demultiplexLogs_frames_witness :
  demultiplexLogs (frame (1, "ready") +:+ frame (2, " err")) = "ready err".
Proof.
  apply (demultiplexLogs_frames [(1, "ready"); (2, " err")]).
  repeat (apply Forall_cons; split; [by split; cbn; lia|]). apply Forall_nil_2.
Defined.

End Container.
