(* ===== verification/Git.v ===== *)
(** * The git app (apps/git/src/index.ts)

    Every command the app gives git, in order, as a trace: its directory, its
    arguments and the remote it may talk to, which decides who gets the token.
    Git itself, the disk and the URL parser are arguments; a handler's run is a
    computation that appends to the trace and may throw. *)
From S2P Require Import Prelude JsNumber Paths Url Trace.

Module Git.
Import NodePath Trace.

(** ** Remotes and commands *)

Inductive Remote : Type :=
| Https (host : string)
| Local (path : string).

Record Call := { cwd : string; args : list string; remote : option Remote }.

Inductive git_error : Type :=
| DanglingLink (path : string)
| OutsideWorkspace (path : string)
| UrlDash
| NotAUrl (url : string)
| CredentialsInUrl
| NotPlainUrl (url : string)
| NotGranted (hostname : string)
| NotHttps (url : string)
| PathOnDisk (url : string)
| BadHost (host : string)
| NoRepository (repo : string)
| NotARepository (repo : string)
| NotTheTop (repo : string)
| GitDirOutside (repo : string)
| BorrowsObjects (repo file : string)
| RepeatedConfig (keys : list string)
| RefusedConfig (keys : list string)
| NoOrigin
| ManyOrigins
| BadBranch (name : string)
| NoPaths
| NoMessage
| NoBranch (name : string)
| GitFailed (command message : string)
| Other.

(** What the app runs in. *)
Class Machine := {
  env : string -> option string;
  process_cwd : string;
  exists_ : string -> bool;                       (* existsSync *)
  lstat : string -> bool;                         (* lstatSync does not throw *)
  realpath : string -> option string;             (* realpathSync *)
  fileURLToPath : string -> option string;
  git_home : string;
  granted : string -> option bool;                (* requestCapability; None when it rejects *)
  run_git : list Call -> Call -> result string (string * string)
}.

Section git.
Context `{machine : Machine, parser : UrlParser}.

Abbreviation M := (@Trace.M Call git_error).

(** ** Paths *)

Definition workspaceRoot : result git_error string :=
  let root := resolve process_cwd [or_default "/workspace" (env "BERTH_WORKSPACE_ROOT")] in
  if exists_ root then match realpath root with Some r => Ok r | None => Err Other end else Ok root.

Definition under (root full : string) : bool := String.eqb full root || Str.starts_with (root +:+ "/") full.

Definition basename (path : string) : string := List.last (List.filter (fun w => negb (String.eqb w "")) (Str.split slash path)) "".

(** The loop of [realPath]: up to what exists. [fuel] is the length of the
    path: [dirname] makes it shorter. *)
Fixpoint existing_part (fuel : nat) (existing : string) (rest : list string) : string * list string :=
  if lstat existing then (existing, rest)
  else match fuel with
       | O => (existing, rest)
       | S fuel =>
           let up := dirname existing in
           if String.eqb up existing then (existing, rest) else existing_part fuel up (basename existing :: rest)
       end.

Definition realPath (path : string) : result git_error string :=
  let '(existing, rest) := existing_part (String.length path) path [] in
  match realpath existing with
  | Some p => Ok (join (p :: rest))
  | None => Err (DanglingLink path)
  end.

Definition inWorkspace (path : string) : result git_error string :=
  let? root := workspaceRoot in
  let? full := realPath (resolve process_cwd [root; path]) in
  if under root full then Ok full else Err (OutsideWorkspace path).

(** ** Remotes *)

Definition scheme_char (c : ascii) : bool :=
  Str.is_lower c || Str.is_upper c || Str.is_digit c || Ascii.eqb c "+" || Ascii.eqb c "." || Ascii.eqb c "-".

(** The scheme before [://], in lower case. *)
Definition scheme_of (url : string) : option string :=
  match url with
  | String c _ =>
      if Str.is_lower c || Str.is_upper c then
        let '(s, r) := JsNumber.span scheme_char url in
        if Str.starts_with "://" r then Some (Str.to_lower s) else None
      else None
  | EmptyString => None
  end.

Definition host_char (c : ascii) : bool :=
  Str.is_lower c || Str.is_upper c || Str.is_digit c || Ascii.eqb c "." || Ascii.eqb c "-".

(** The end of the plain URL: nothing, or a path without spaces and backslashes. *)
Definition plain_path (s : string) : bool :=
  match s with
  | EmptyString => true
  | String c r => Ascii.eqb c "/" && Str.all (fun d => negb (Str.is_space d || Ascii.eqb d (ascii_of_nat 92))) r
  end.

(** [https://] (any case), a plain host, a port, a path. *)
Definition plain_url (url : string) : bool :=
  Str.starts_with "https://" (Str.to_lower (Str.take 8 url)) &&
  let '(h, r) := JsNumber.span host_char (Str.drop 8 url) in
  negb (String.eqb h "") &&
  match r with
  | String c r' =>
      if Ascii.eqb c ":" then
        let '(p, r'') := JsNumber.span Str.is_digit r' in negb (String.eqb p "") && plain_path r''
      else plain_path r
  | EmptyString => true
  end.

(** A colon before any slash. *)
Definition scp_style (url : string) : bool :=
  Str.includes ":" (JsNumber.span (fun c => negb (Ascii.eqb c "/")) url).1.

Definition localRemotesAllowed : bool := bool_decide (env "BERTH_GIT_LOCAL_REMOTES" = Some "1").

Definition checkRemote (url base : string) : result git_error Remote :=
  if Str.starts_with "-" url then Err UrlDash
  else
    let on_disk path :=
      if negb localRemotesAllowed then Err (PathOnDisk url)
      else
        let? real := realPath path in
        let? root := workspaceRoot in
        if under root real then Ok (Local real) else Err (OutsideWorkspace url) in
    let scheme := scheme_of url in
    if bool_decide (scheme = Some "https") then
      match new_URL url with
      | None => Err (NotAUrl url)
      | Some u =>
          if negb (String.eqb (username u) "") || negb (String.eqb (password u) "") then Err CredentialsInUrl
          else if negb (plain_url url) then Err (NotPlainUrl url)
          else match granted ("network:host:" +:+ Str.to_lower (hostname u)) with
               | None => Err Other
               | Some false => Err (NotGranted (hostname u))
               | Some true => Ok (Https (Str.to_lower (u_host u)))
               end
      end
    else if bool_decide (scheme = Some "file") then
      match fileURLToPath url with Some path => on_disk path | None => Err Other end
    else if bool_decide (is_Some scheme) || scp_style url then Err (NotHttps url)
    else on_disk (resolve process_cwd [base; url]).

(** ** How git is run *)

(** A host name, and a port. *)
Definition helper_host (host : string) : bool :=
  let '(h, r) := JsNumber.span (fun c => Str.is_lower c || Str.is_digit c || Ascii.eqb c "." || Ascii.eqb c "-") host in
  negb (String.eqb h "") &&
  match r with
  | String c r' => Ascii.eqb c ":" && negb (String.eqb r' "") && Str.all Str.is_digit r'
  | EmptyString => true
  end.

Definition dq : string := String (ascii_of_nat 34) "".

Definition credentialHelper (host : string) : result git_error string :=
  if negb (helper_host host) then Err (BadHost host)
  else Ok ("!f() { test " +:+ dq +:+ "$1" +:+ dq +:+ " = get || exit 0; p=; h=; while IFS= read -r l; do case " +:+ dq +:+ "$l" +:+ dq +:+
    " in protocol=*) p=" +:+ dq +:+ "${l#protocol=}" +:+ dq +:+ ";; host=*) h=" +:+ dq +:+ "${l#host=}" +:+ dq +:+ ";; " +:+ dq +:+ dq +:+
    ") break;; esac; done; test " +:+ dq +:+ "$p" +:+ dq +:+ " = https && test " +:+ dq +:+ "$h" +:+ dq +:+ " = " +:+ host +:+
    " || exit 0; echo username=x-access-token; echo " +:+ dq +:+ "password=$GIT_TOKEN" +:+ dq +:+ "; }; f").

(** [if (env.NAME)] *)
Definition set_env (name : string) : option string :=
  match env name with Some s => if String.eqb s "" then None else Some s | None => None end.

Definition setting (s : string) : list string := ["-c"; s].

Definition baseArgs (cwd : string) (remote : option Remote) : result git_error (list string) :=
  let args :=
    mjoin (map setting
      (["protocol.allow=never"; "protocol.https.allow=always"] ++
       (match remote with Some (Local _) => ["protocol.file.allow=always"] | _ => [] end) ++
       ["core.hooksPath=/dev/null"; "core.fsmonitor=false"; "core.pager=cat"; "core.editor=false"; "sequence.editor=false";
        "core.sshCommand=false"; "commit.gpgSign=false"; "tag.gpgSign=false"; "push.gpgSign=false"; "log.showSignature=false";
        "submodule.recurse=false"; "fetch.recurseSubmodules=false"; "push.recurseSubmodules=no"; "gc.auto=0";
        "maintenance.auto=false"; "safe.bareRepository=explicit"; "safe.directory=" +:+ cwd; "init.defaultBranch=main";
        "advice.detachedHead=false"] ++
       (match set_env "BERTH_EGRESS_PROXY_URL" with Some p => ["http.proxy=" +:+ p] | None => [] end) ++
       ["credential.helper="])) in
  match remote, set_env "GIT_TOKEN" with
  | Some (Https host), Some _ => let? helper := credentialHelper host in Ok (args ++ setting ("credential.helper=" +:+ helper))
  | _, _ => Ok args
  end.

Definition put_env (name : string) (o : list (string * string)) : list (string * string) :=
  match set_env name with Some v => JsMap.put name v o | None => o end.

Definition gitEnv (root : string) (remote : option Remote) : list (string * string) :=
  let author := or_default "Berth agent" (env "GIT_AUTHOR_NAME") in
  let email := or_default "agent@berth.invalid" (env "GIT_AUTHOR_EMAIL") in
  let out := [("PATH", or_default "/usr/local/bin:/usr/bin:/bin" (env "PATH")); ("HOME", git_home); ("LC_ALL", "C");
              ("GIT_CONFIG_NOSYSTEM", "1"); ("GIT_CONFIG_GLOBAL", "/dev/null"); ("GIT_TERMINAL_PROMPT", "0");
              ("GIT_CEILING_DIRECTORIES", root); ("GIT_AUTHOR_NAME", author); ("GIT_AUTHOR_EMAIL", email);
              ("GIT_COMMITTER_NAME", author); ("GIT_COMMITTER_EMAIL", email)] in
  let out := foldl (fun o name => put_env name o) out ["TMPDIR"; "SSL_CERT_FILE"; "SSL_CERT_DIR"; "GIT_SSL_CAINFO"] in
  match remote with Some (Https _) => put_env "GIT_TOKEN" out | _ => out end.

(** What [explain] adds to git's own words. *)
Inductive advice : Type := ProxyRefused | NeedsToken | NoAdvice.
Definition explain (stderr : string) : advice :=
  let s := Str.to_lower stderr in
  if Str.includes "connect tunnel failed, response 403" s || Str.includes "received http code 403 from proxy" s then ProxyRefused
  else if Str.includes "terminal prompts disabled" s || Str.includes "could not read username" s || Str.includes "authentication failed" s
  then NeedsToken else NoAdvice.

(** [git()]: the settings are computed first, and may throw. *)
Definition git (cwd : string) (args : list string) (remote : option Remote) : M (string * string) :=
  match baseArgs cwd remote, workspaceRoot with
  | Ok _, Ok _ =>
      let call := {| cwd := cwd; args := args; remote := remote |} in
      emit call (fun t =>
        match run_git t call with
        | Ok out => Ok out
        | Err message => Err (GitFailed (or_default "" (head args)) message)
        end)
  | Err e, _ | _, Err e => fail e
  end.

(** ** A repository's configuration *)

(** [key] in lower case is [prefix], something on one line, [suffix]. *)
Definition section_key (prefix : string) (suffixes : list string) (key : string) : bool :=
  let k := Str.to_lower key in
  existsb (fun suffix =>
    Str.starts_with prefix k && Str.ends_with suffix k &&
    (String.length prefix + String.length suffix <? String.length k) &&
    Str.all (fun c => negb (Str.is_line_terminator c))
      (Str.take (String.length k - String.length prefix - String.length suffix) (Str.drop (String.length prefix) k))) suffixes.

Definition one_of (keys : list string) (key : string) : bool := existsb (String.eqb (Str.to_lower key)) keys.

Definition allowed_config (key : string) : bool :=
  one_of ["core.repositoryformatversion"; "core.filemode"; "core.bare"; "core.logallrefupdates"; "core.ignorecase";
          "core.precomposeunicode"; "core.symlinks"] key ||
  section_key "remote." [".url"; ".fetch"] key ||
  section_key "branch." [".remote"; ".merge"] key ||
  one_of ["extensions.objectformat"; "extensions.refstorage"] key ||
  one_of ["user.name"; "user.email"] key.

(** The name of a remote in a key: between [remote.] and the last dot. *)
Definition remote_name (key : string) : option string :=
  if Str.starts_with "remote." (Str.to_lower key) then
    let r := Str.drop 7 key in
    match Str.last_index_of "." r with
    | Some i =>
        let name := Str.take i r in
        if negb (String.eqb name "") && negb (String.eqb (Str.drop (S i) r) "") &&
           Str.all (fun c => negb (Str.is_line_terminator c)) name
        then Some name else None
    | None => None
    end
  else None.

Definition word_char (c : ascii) : bool :=
  Str.is_lower c || Str.is_upper c || Str.is_digit c || Ascii.eqb c "_" || Ascii.eqb c "-".

Definition plain_remote (name : string) : bool :=
  match name with
  | String c r => word_char c && Str.all (fun d => word_char d || Ascii.eqb d ".") r
  | EmptyString => false
  end.

Definition is_url_key (key : string) : bool := section_key "remote." [".url"] key.

(** The keys of [git config --list -z]. *)
Definition NUL : ascii := ascii_of_nat 0.
Definition LF : ascii := ascii_of_nat 10.
Definition config_keys (stdout : string) : list string :=
  map (fun entry => or_default "" (head (Str.split LF entry)))
    (List.filter (fun entry => negb (String.eqb entry "")) (Str.split NUL stdout)).

Definition refused_keys (keys : list string) : list string :=
  JsSet.of_list (List.filter (fun key => negb (allowed_config key)) keys) ++
  List.filter (fun key => match remote_name key with Some name => negb (plain_remote name) | None => false end) (JsSet.of_list keys).

(** The keys given more than once. *)
Fixpoint repeated_in (seen keys : list string) : list string :=
  match keys with
  | [] => []
  | k :: keys => if existsb (String.eqb k) seen then k :: repeated_in seen keys else repeated_in (seen ++ [k]) keys
  end.

Definition check_config (stdout : string) : result git_error unit :=
  let keys := config_keys stdout in
  let repeated := JsSet.of_list (repeated_in [] (List.filter is_url_key keys)) in
  match repeated with
  | _ :: _ => Err (RepeatedConfig repeated)
  | [] => match refused_keys keys with [] => Ok tt | refused => Err (RefusedConfig refused) end
  end.

Definition lines_of (s : string) : list string := Str.split LF s.

Definition nonempty_lines (s : string) : list string := List.filter (fun l => negb (String.eqb l "")) (lines_of s).

Fixpoint borrowed (commonDir : string) (files : list string) : option string :=
  match files with
  | [] => None
  | file :: files => if exists_ (join [commonDir; "objects"; "info"; file]) then Some file else borrowed commonDir files
  end.

Definition checkedRepo (repo : string) : M string :=
  dir ← lift (inWorkspace repo);
  if negb (exists_ dir) then fail (NoRepository repo)
  else
    where_ ← or_fail (git dir ["rev-parse"; "--path-format=absolute"; "--show-toplevel"; "--absolute-git-dir"; "--git-common-dir"] None)
                (NotARepository repo);
    match mapM realpath (lines_of (Str.trim where_.1)) with
    | None => fail Other
    | Some paths =>
        if negb (bool_decide (paths !! 0 = Some dir)) then fail (NotTheTop repo)
        else
          root ← lift (workspaceRoot);
          match paths !! 1 with
          | None => fail Other
          | Some gitDir =>
              if negb (under root gitDir) then fail (GitDirOutside repo)
              else match paths !! 2 with
                   | None => fail Other
                   | Some commonDir =>
                       if negb (under root commonDir) then fail (GitDirOutside repo)
                       else match borrowed commonDir ["alternates"; "http-alternates"] with
                            | Some file => fail (BorrowsObjects repo file)
                            | None =>
                                out ← git dir ["config"; "--local"; "--list"; "-z"] None;
                                _ ← lift (check_config out.1); mret dir
                            end
                   end
          end
    end.

Definition origin (dir : string) : M (Remote * string) :=
  out ← or_fail (git dir ["remote"; "get-url"; "--all"; "--push"; "origin"] None) NoOrigin;
  match nonempty_lines out.1 with
  | [url] =>
      remote ← lift (checkRemote url dir);
      mret (remote, match remote with Local path => path | Https _ => url end)
  | _ => fail ManyOrigins
  end.

Definition branch_char (c : ascii) : bool := word_char c || Ascii.eqb c "." || Ascii.eqb c "/".

Definition BRANCH (name : string) : bool :=
  match name with
  | String c _ => negb (Ascii.eqb c "-" || Ascii.eqb c "+" || Ascii.eqb c "." || Ascii.eqb c "/") && Str.all branch_char name &&
                  (String.length name <=? 200)
  | EmptyString => false
  end.

Definition branchName (name : string) : result git_error string :=
  if negb (BRANCH name) || Str.includes ".." name || Str.ends_with ".lock" name then Err (BadBranch name) else Ok name.

Definition head_ (dir : string) : M string :=
  out ← or_value (git dir ["rev-parse"; "--verify"; "-q"; "HEAD"] None) ("", ""); mret (Str.trim out.1).
Definition currentBranch (dir : string) : M string :=
  out ← git dir ["branch"; "--show-current"] None; mret (Str.trim out.1).

(** ** Exports *)

Record Cloned := { path : string; branch : string; head_sha : string }.

Definition clone (url dir : string) : M Cloned :=
  root ← lift workspaceRoot;
  target ← lift (inWorkspace dir);
  remote ← lift (checkRemote url root);
  _ ← git root ["clone"; "--no-checkout"; "--"; match remote with Local p => p | Https _ => url end; target] (Some remote);
  repo ← checkedRepo target;
  h ← head_ repo;
  _ ← (if String.eqb h "" then mret tt else _ ← git repo ["reset"; "--hard"; "-q"; "HEAD"] None; mret tt);
  b ← currentBranch repo;
  h ← head_ repo;
  mret {| path := relative process_cwd root repo; branch := b; head_sha := h |}.

Record Change := { c_path : string; c_status : string }.
Record Status := { s_branch : string; ahead : JsNumber.jsnum; behind : JsNumber.jsnum; changes : list Change }.

(** [+digits -digits] at the start, and its first occurrence. *)
Definition counts_at (s : string) : option (string * string) :=
  match s with
  | String c r =>
      if Ascii.eqb c "+" then
        let '(a, r) := JsNumber.span Str.is_digit r in
        if String.eqb a "" || negb (Str.starts_with " -" r) then None
        else let b := (JsNumber.span Str.is_digit (Str.drop 2 r)).1 in if String.eqb b "" then None else Some (a, b)
      else None
  | EmptyString => None
  end.
Fixpoint counts (s : string) : option (string * string) :=
  match counts_at s with
  | Some m => Some m
  | None => match s with String _ r => counts r | EmptyString => None end
  end.

Definition from_field (n : nat) (line : string) : string := Str.join " " (skipn n (Str.split " " line)).
Definition TAB : ascii := ascii_of_nat 9.

Definition status_text (xy : string) : string :=
  let t := Str.trim (Str.map (fun c => if Ascii.eqb c "." then " "%char else c) xy) in
  if String.eqb t "" then xy else t.

Definition status_line (st : Status) (line : string) : Status :=
  let add c := {| s_branch := s_branch st; ahead := ahead st; behind := behind st; changes := changes st ++ [c] |} in
  if Str.starts_with "# branch.head " line then
    {| s_branch := Str.drop 14 line; ahead := ahead st; behind := behind st; changes := changes st |}
  else if Str.starts_with "# branch.ab " line then
    match counts line with
    | Some (a, b) => {| s_branch := s_branch st; ahead := JsNumber.Number a; behind := JsNumber.Number b; changes := changes st |}
    | None => st
    end
  else if Str.starts_with "1 " line || Str.starts_with "2 " line then
    let xy := or_default "" (Str.split " " line !! 1) in
    let path := if Str.starts_with "2 " line then or_default "" (head (Str.split TAB (from_field 9 line))) else from_field 8 line in
    add {| c_path := path; c_status := status_text xy |}
  else if Str.starts_with "? " line then add {| c_path := Str.drop 2 line; c_status := "untracked" |}
  else if Str.starts_with "u " line then add {| c_path := from_field 10 line; c_status := "conflict" |}
  else st.

Definition parse_status (stdout : string) : Status :=
  foldl status_line {| s_branch := ""; ahead := JsNumber.of_Z 0; behind := JsNumber.of_Z 0; changes := [] |} (lines_of stdout).

Definition status (repo : string) : M Status :=
  dir ← checkedRepo repo;
  out ← git dir ["status"; "--porcelain=v2"; "--branch"; "--untracked-files=all"] None;
  mret (parse_status out.1).

Definition MAX_DIFF_CHARS : nat := Z.to_nat 200000.

Definition diff (repo : string) (staged : bool) : M (string * bool) :=
  dir ← checkedRepo repo;
  out ← git dir (["diff"; "--no-ext-diff"; "--no-textconv"] ++ (if staged then ["--cached"] else [])) None;
  mret (Str.take MAX_DIFF_CHARS out.1, (MAX_DIFF_CHARS <? String.length out.1)).

(** [Math.min(Math.max(1, Math.floor(limit) || 20), 500)] *)
Definition log_count (limit : JsNumber.jsnum) : Z :=
  match limit with
  | JsNumber.NaN => 20
  | JsNumber.Inf neg => if neg then 1 else 500
  | JsNumber.Fin m e => let n := JsNumber.floor m e in Z.min (Z.max 1 (if (n =? 0)%Z then 20 else n)) 500
  end.

Record Commit := { sha : string; author : string; date : string; subject : string }.
Definition US : ascii := ascii_of_nat 31.
Definition parse_commit (line : string) : Commit :=
  let f := Str.split US line in
  {| sha := or_default "" (f !! 0); author := or_default "" (f !! 1); date := or_default "" (f !! 2);
     subject := or_default "" (f !! 3) |}.

Definition log (repo : string) (limit : JsNumber.jsnum) : M (list Commit) :=
  dir ← checkedRepo repo;
  out ← git dir ["log"; "-n" +:+ JsNumber.to_string (log_count limit); "--date=iso-strict"; "--format=%H%x1f%an%x1f%ad%x1f%s"] None;
  mret (map parse_commit (nonempty_lines out.1)).

Definition branch_export (repo name : string) (create : bool) : M string :=
  dir ← checkedRepo repo;
  name ← lift (branchName name);
  _ ← git dir (["switch"] ++ (if create then ["-c"] else []) ++ [name]) None;
  currentBranch dir.

Definition add (repo : string) (paths : list string) : M (list string) :=
  match paths with
  | [] => fail NoPaths
  | _ =>
      dir ← checkedRepo repo;
      _ ← git dir (["add"; "--"] ++ paths) None;
      out ← git dir ["diff"; "--no-ext-diff"; "--no-textconv"; "--cached"; "--name-only"] None;
      mret (nonempty_lines out.1)
  end.

Definition commit (repo message : string) : M (string * string) :=
  if String.eqb (Str.trim message) "" then fail NoMessage
  else
    dir ← checkedRepo repo;
    out ← git dir ["commit"; "-m"; message] None;
    sha ← head_ dir;
    mret (sha, or_default "" (head (lines_of out.1))).

Definition push (repo branch : string) : M string :=
  dir ← checkedRepo repo;
  name ← lift (branchName branch);
  o ← origin dir;
  sha ← or_fail (git dir ["rev-parse"; "--verify"; "-q"; "refs/heads/" +:+ name] None) (NoBranch name);
  out ← git dir ["push"; "--"; o.2; "refs/heads/" +:+ name +:+ ":refs/heads/" +:+ name] (Some o.1);
  _ ← git dir ["update-ref"; "refs/remotes/origin/" +:+ name; Str.trim sha.1] None;
  _ ← git dir ["config"; "--local"; "branch." +:+ name +:+ ".remote"; "origin"] None;
  _ ← git dir ["config"; "--local"; "branch." +:+ name +:+ ".merge"; "refs/heads/" +:+ name] None;
  mret (Str.trim (out.1 +:+ out.2)).

Definition pull (repo : string) : M (string * string) :=
  dir ← checkedRepo repo;
  o ← origin dir;
  fetched ← git dir ["fetch"; "--refmap="; "--"; o.2; "+refs/heads/*:refs/remotes/origin/*"] (Some o.1);
  again ← checkedRepo repo;
  merged ← git again ["merge"; "--ff-only"; "@{upstream}"] None;
  h ← head_ dir;
  mret (Str.trim (fetched.1 +:+ fetched.2 +:+ merged.1 +:+ merged.2), h).

Inductive request : Type :=
| Clone (url dir : string)
| StatusOf (repo : string)
| Diff (repo : string) (staged : bool)
| Log (repo : string) (limit : JsNumber.jsnum)
| Branch (repo name : string) (create : bool)
| Add (repo : string) (paths : list string)
| CommitTo (repo message : string)
| Push (repo branch : string)
| Pull (repo : string).

(** The calls of one export's handler. *)
Definition handle (r : request) : M unit :=
  match r with
  | Clone url dir => _ ← clone url dir; mret tt
  | StatusOf repo => _ ← status repo; mret tt
  | Diff repo staged => _ ← diff repo staged; mret tt
  | Log repo limit => _ ← log repo limit; mret tt
  | Branch repo name create => _ ← branch_export repo name create; mret tt
  | Add repo paths => _ ← add repo paths; mret tt
  | CommitTo repo message => _ ← commit repo message; mret tt
  | Push repo branch => _ ← push repo branch; mret tt
  | Pull repo => _ ← pull repo; mret tt
  end.

Lemma emits_git cwd args remote (P : Call -> Prop) :
  P {| cwd := cwd; args := args; remote := remote |} -> emits (git cwd args remote) P (fun _ => True).
Proof.
  intros HP. unfold git. destruct (baseArgs cwd remote); [|by apply emits_fail].
  destruct workspaceRoot; [|by apply emits_fail]. apply emits_one; [done|]. intros t. by destruct (run_git _ _).
Qed.

(** ** The commands *)

(** What git is given for a remote that was checked. *)
Definition checked (r : option Remote) (target : string) : Prop :=
  exists rem url base, r = Some rem /\ checkRemote url base = Ok rem /\
    target = match rem with Local p => p | Https _ => url end.

Definition fixed_commands : list (list string) :=
  [["rev-parse"; "--path-format=absolute"; "--show-toplevel"; "--absolute-git-dir"; "--git-common-dir"];
   ["config"; "--local"; "--list"; "-z"]; ["rev-parse"; "--verify"; "-q"; "HEAD"]; ["reset"; "--hard"; "-q"; "HEAD"];
   ["branch"; "--show-current"]; ["remote"; "get-url"; "--all"; "--push"; "origin"];
   ["status"; "--porcelain=v2"; "--branch"; "--untracked-files=all"]; ["diff"; "--no-ext-diff"; "--no-textconv"];
   ["diff"; "--no-ext-diff"; "--no-textconv"; "--cached"]; ["diff"; "--no-ext-diff"; "--no-textconv"; "--cached"; "--name-only"];
   ["merge"; "--ff-only"; "@{upstream}"]].

(** Every command line the app makes: what a caller chose is a branch name that
    was checked, or stands after [--] or [-m]; and only a clone, a fetch and a
    push have a remote. *)
Inductive command : option Remote -> list string -> Prop :=
| cmd_fixed l : l ∈ fixed_commands -> command None l
| cmd_clone r src dir : checked r src -> command r ["clone"; "--no-checkout"; "--"; src; dir]
| cmd_fetch r src : checked r src -> command r ["fetch"; "--refmap="; "--"; src; "+refs/heads/*:refs/remotes/origin/*"]
| cmd_push r src n : checked r src -> branchName n = Ok n ->
    command r ["push"; "--"; src; "refs/heads/" +:+ n +:+ ":refs/heads/" +:+ n]
| cmd_switch n : branchName n = Ok n -> command None ["switch"; n]
| cmd_create n : branchName n = Ok n -> command None ["switch"; "-c"; n]
| cmd_add paths : command None ("add" :: "--" :: paths)
| cmd_commit message : command None ["commit"; "-m"; message]
| cmd_tip n : branchName n = Ok n -> command None ["rev-parse"; "--verify"; "-q"; "refs/heads/" +:+ n]
| cmd_update n sha : branchName n = Ok n -> command None ["update-ref"; "refs/remotes/origin/" +:+ n; sha]
| cmd_remote n : branchName n = Ok n -> command None ["config"; "--local"; "branch." +:+ n +:+ ".remote"; "origin"]
| cmd_merge n : branchName n = Ok n -> command None ["config"; "--local"; "branch." +:+ n +:+ ".merge"; "refs/heads/" +:+ n]
| cmd_log k : (1 <= k <= 500)%Z -> command None ["log"; "-n" +:+ JsNumber.to_string k; "--date=iso-strict"; "--format=%H%x1f%an%x1f%ad%x1f%s"].

Definition in_workspace (dir : string) : Prop := exists root, workspaceRoot = Ok root /\ under root dir = true.

Definition call_ok (c : Call) : Prop := command (remote c) (args c) /\ in_workspace (cwd c).

Lemma inWorkspace_ok path dir : inWorkspace path = Ok dir -> in_workspace dir.
Proof.
  unfold inWorkspace, rbind, in_workspace. destruct workspaceRoot as [root|]; [|done].
  destruct (realPath _) as [full|]; [|done]. destruct (under root full) eqn:E; [|done]. intros [= <-]. by exists root.
Qed.

Lemma root_ok root : workspaceRoot = Ok root -> in_workspace root.
Proof. intros E. exists root. split; [done|]. unfold under. by rewrite String.eqb_refl. Qed.

Lemma fixed_ok dir l : in_workspace dir -> l ∈ fixed_commands -> call_ok {| cwd := dir; args := l; remote := None |}.
Proof. intros Hd Hl. split; [by apply cmd_fixed|done]. Qed.

Ltac fixed_git := apply emits_git, fixed_ok; [done|unfold fixed_commands; set_solver].

Lemma emits_checkedRepo repo : emits (checkedRepo repo) call_ok in_workspace.
Proof.
  unfold checkedRepo. eapply emits_bind; [apply emits_lift, inWorkspace_ok|]. intros dir Hd. cbv beta.
  destruct (negb (exists_ dir)); [apply emits_fail|].
  eapply emits_bind; [apply emits_or_fail; fixed_git|]. intros where_ _. cbv beta.
  destruct (mapM realpath _) as [paths|]; [|apply emits_fail].
  destruct (negb _); [apply emits_fail|]. eapply (emits_bind _ _ _ (fun _ => True)); [by apply emits_lift|]. intros root _. cbv beta.
  destruct (paths !! 1); [|apply emits_fail]. destruct (negb _); [apply emits_fail|].
  destruct (paths !! 2); [|apply emits_fail]. destruct (negb _); [apply emits_fail|].
  destruct (borrowed _ _); [apply emits_fail|].
  eapply emits_bind; [fixed_git|]. intros out _. cbv beta.
  eapply (emits_bind _ _ _ (fun _ => True)); [by apply emits_lift|]. intros _ _. by apply emits_ret.
Qed.

Lemma emits_origin dir :
  in_workspace dir -> emits (origin dir) call_ok (fun o => checked (Some o.1) o.2).
Proof.
  intros Hd. unfold origin. eapply emits_bind; [apply emits_or_fail; fixed_git|]. intros out _. cbv beta.
  destruct (nonempty_lines out.1) as [|url [|? ?]]; try apply emits_fail.
  eapply (emits_bind _ _ _ (fun r => checkRemote url dir = Ok r)); [by apply emits_lift|]. intros r Hr. apply emits_ret.
  by exists r, url, dir.
Qed.

Lemma emits_head dir : in_workspace dir -> emits (head_ dir) call_ok (fun _ => True).
Proof.
  intros Hd. unfold head_. eapply emits_bind; [apply emits_or_value; [fixed_git|done]|]. intros out _. by apply emits_ret.
Qed.

Lemma emits_currentBranch dir : in_workspace dir -> emits (currentBranch dir) call_ok (fun _ => True).
Proof. intros Hd. unfold currentBranch. eapply emits_bind; [fixed_git|]. intros out _. by apply emits_ret. Qed.

Lemma branchName_ok n m : branchName n = Ok m -> m = n /\ branchName n = Ok n.
Proof. unfold branchName. destruct (_ || _); [done|]. by intros [= ->]. Qed.

Lemma log_count_bounds limit : (1 <= log_count limit <= 500)%Z.
Proof. destruct limit as [|[]|m e]; cbn; [lia..|]. destruct (JsNumber.floor m e =? 0)%Z; lia. Qed.

Lemma to_unit {A} (m : M A) (P : Call -> Prop) (Q : A -> Prop) : emits m P Q -> emits (_ ← m; mret tt) P (fun _ => True).
Proof. intros Hm. eapply emits_bind; [exact Hm|]. intros a _. by apply emits_ret. Qed.

(** A command in a checked directory. *)
Lemma emits_call dir l r : in_workspace dir -> command r l -> emits (git dir l r) call_ok (fun _ => True).
Proof. intros Hd Hc. by apply emits_git. Qed.

Lemma emits_push repo b : emits (push repo b) call_ok (fun _ => True).
Proof.
  unfold push. eapply emits_bind; [apply emits_checkedRepo|]. intros dir Hd. cbv beta.
  eapply emits_bind; [apply emits_lift; intros n Hn; exact (branchName_ok b n Hn)|]. intros n [-> Hn]. cbv beta.
  eapply emits_bind; [by apply emits_origin|]. intros [r target] Hr. cbn [fst snd] in *.
  eapply emits_bind; [apply emits_or_fail, emits_call; [done|by constructor]|]. intros tip _. cbv beta.
  eapply emits_bind; [apply emits_call; [done|by apply cmd_push]|]. intros out _. cbv beta.
  eapply emits_bind; [apply emits_call; [done|by apply cmd_update]|]. intros _ _. cbv beta.
  eapply emits_bind; [apply emits_call; [done|by apply cmd_remote]|]. intros _ _. cbv beta.
  eapply emits_bind; [apply emits_call; [done|by apply cmd_merge]|]. intros _ _. by apply emits_ret.
Qed.

Lemma emits_pull repo : emits (pull repo) call_ok (fun _ => True).
Proof.
  unfold pull. eapply emits_bind; [apply emits_checkedRepo|]. intros dir Hd. cbv beta.
  eapply emits_bind; [by apply emits_origin|]. intros [r target] Hr. cbn [fst snd] in *.
  eapply emits_bind; [apply emits_call; [done|by apply cmd_fetch]|]. intros fetched _. cbv beta.
  eapply emits_bind; [apply emits_checkedRepo|]. intros again Ha. cbv beta.
  eapply emits_bind; [fixed_git|]. intros merged _. cbv beta.
  eapply emits_bind; [by apply emits_head|]. intros h _. by apply emits_ret.
Qed.

Lemma emits_clone url dir : emits (clone url dir) call_ok (fun _ => True).
Proof.
  unfold clone. eapply emits_bind; [apply emits_lift; intros root Hr; exact (conj Hr (root_ok root Hr))|].
  intros root [Hroot Hd]. cbv beta.
  eapply (emits_bind _ _ _ (fun _ => True)); [by apply emits_lift|]. intros target _. cbv beta.
  eapply (emits_bind _ _ _ (fun r => checkRemote url root = Ok r)); [by apply emits_lift|]. intros r Hr. cbv beta.
  eapply emits_bind; [apply emits_call; [done|apply cmd_clone; by exists r, url, root]|]. intros _ _. cbv beta.
  eapply emits_bind; [apply emits_checkedRepo|]. intros repo Hrepo. cbv beta.
  eapply emits_bind; [by apply emits_head|]. intros h _. cbv beta.
  eapply (emits_bind _ _ _ (fun _ => True)).
  { destruct (String.eqb h ""); [by apply emits_ret|]. eapply emits_bind; [fixed_git|]. intros _ _. by apply emits_ret. }
  intros _ _. cbv beta. eapply emits_bind; [by apply emits_currentBranch|]. intros b _. cbv beta.
  eapply emits_bind; [by apply emits_head|]. intros h2 _. by apply emits_ret.
Qed.

Lemma emits_handle r : emits (handle r) call_ok (fun _ => True).
Proof.
  destruct r as [url dir|repo|repo staged|repo limit|repo name create|repo paths|repo message|repo b|repo]; cbn [handle];
    apply (to_unit _ _ (fun _ => True)).
  - apply emits_clone.
  - unfold status. eapply emits_bind; [apply emits_checkedRepo|]. intros dir Hd. cbv beta.
    eapply emits_bind; [fixed_git|]. intros out _. by apply emits_ret.
  - unfold diff. eapply emits_bind; [apply emits_checkedRepo|]. intros dir Hd. cbv beta.
    eapply emits_bind; [destruct staged; fixed_git|]. intros out _. by apply emits_ret.
  - unfold log. eapply emits_bind; [apply emits_checkedRepo|]. intros dir Hd. cbv beta.
    eapply emits_bind; [apply emits_call; [done|apply cmd_log, log_count_bounds]|]. intros out _. by apply emits_ret.
  - unfold branch_export. eapply emits_bind; [apply emits_checkedRepo|]. intros dir Hd. cbv beta.
    eapply emits_bind; [apply emits_lift; intros n Hn; exact (branchName_ok name n Hn)|]. intros n [-> Hn]. cbv beta.
    eapply emits_bind; [apply emits_call; [done|destruct create; by constructor]|]. intros _ _. cbv beta.
    by apply emits_currentBranch.
  - unfold add. destruct paths as [|q paths]; [apply emits_fail|]. eapply emits_bind; [apply emits_checkedRepo|].
    intros dir Hd. cbv beta. eapply emits_bind; [apply emits_call; [done|apply cmd_add]|]. intros _ _. cbv beta.
    eapply emits_bind; [fixed_git|]. intros out _. by apply emits_ret.
  - unfold commit. destruct (String.eqb _ ""); [apply emits_fail|]. eapply emits_bind; [apply emits_checkedRepo|].
    intros dir Hd. cbv beta. eapply emits_bind; [apply emits_call; [done|apply cmd_commit]|]. intros out _. cbv beta.
    eapply emits_bind; [by apply emits_head|]. intros h _. by apply emits_ret.
  - apply emits_push.
  - apply emits_pull.
Qed.

Lemma handle_calls r c : c ∈ (handle r []).1 -> call_ok c.
Proof. intros Hc. pose proof (emits_run _ _ _ (emits_handle r)) as Hall. rewrite Forall_forall in Hall. by apply Hall. Qed.

(** Every command git is given, by any export, however git, the disk and
    the policy answer, runs in a directory of the workspace and is one of the
    app's own: what the caller chose is a checked branch name, or stands where
    git reads no options, and only a clone, a fetch and a push may reach a
    remote, naming it by the very text that was checked. *)
Theorem git_calls r c :
  c ∈ (handle r []).1 -> command (remote c) (args c) /\ in_workspace (cwd c).
Proof.
  intros Hc. exact (handle_calls r c Hc).
Qed.

Lemma checkRemote_https url base host :
  checkRemote url base = Ok (Https host) ->
  exists u, new_URL url = Some u /\ username u = "" /\ password u = "" /\ plain_url url = true /\
    granted ("network:host:" +:+ Str.to_lower (hostname u)) = Some true /\ host = Str.to_lower (u_host u).
Proof.
  unfold checkRemote. destruct (Str.starts_with "-" url); [done|]. cbv zeta.
  assert (Hdisk : forall path, (if negb localRemotesAllowed then Err (PathOnDisk url)
    else let? real := realPath path in let? root := workspaceRoot in
      if under root real then Ok (Local real) else Err (OutsideWorkspace url)) = Ok (Https host) -> False).
  { intros path. destruct (negb localRemotesAllowed); [done|]. unfold rbind. destruct (realPath path); [|done].
    destruct workspaceRoot; [|done]. by destruct (under _ _). }
  case_bool_decide.
  - destruct (new_URL url) as [u|]; [|done]. destruct (String.eqb_spec (username u) ""), (String.eqb_spec (password u) ""); try done.
    cbn [negb orb]. destruct (plain_url url); [|done]. cbn [negb].
    destruct (granted _) as [[]|] eqn:Hg; try done. intros [= <-]. by exists u.
  - case_bool_decide; [destruct (fileURLToPath url); [by intros ?%Hdisk|done]|].
    destruct (bool_decide _ || _); [done|]. by intros ?%Hdisk.
Qed.

Lemma get_fixed_env root r :
  JsMap.get "GIT_TOKEN" (gitEnv root r) = match r with Some (Https _) => set_env "GIT_TOKEN" | _ => None end.
Proof.
  unfold gitEnv. cbn [foldl]. unfold put_env.
  set (base := [("PATH", _); _; _; _; _; _; _; _; _; _; _]). assert (Hb : JsMap.get "GIT_TOKEN" base = None) by reflexivity.
  assert (Hput : forall name o, name <> "GIT_TOKEN" ->
    JsMap.get "GIT_TOKEN" (match set_env name with Some v => JsMap.put name v o | None => o end) = JsMap.get "GIT_TOKEN" o).
  { intros name o Hne. destruct (set_env name); [|done]. apply JsMap.get_put_ne. congruence. }
  set (out := match set_env "GIT_SSL_CAINFO" with Some v => _ | None => _ end).
  assert (Ho : JsMap.get "GIT_TOKEN" out = None) by (unfold out; rewrite !Hput by done; exact Hb).
  destruct r as [[h|q]|]; [|done..]. destruct (set_env "GIT_TOKEN") as [v|] eqn:Ev; [apply JsMap.get_put_eq|done].
Qed.

(** [C31] The token goes nowhere but to the checked remote: a command that has
    GIT_TOKEN in its environment names, where git reads no options, a plain
    https URL without credentials whose host berth.yml lists, and the credential
    helper it is given answers for that URL's host. *)
Theorem token_confined r c root token :
  c ∈ (handle r []).1 -> JsMap.get "GIT_TOKEN" (gitEnv root (remote c)) = Some token ->
  exists url u, url ∈ args c /\ new_URL url = Some u /\ username u = "" /\ password u = "" /\ plain_url url = true /\
    granted ("network:host:" +:+ Str.to_lower (hostname u)) = Some true /\
    remote c = Some (Https (Str.to_lower (u_host u))).
Proof.
  intros Hc. rewrite get_fixed_env.
  assert (Hcmd : command (remote c) (args c)).
  { by apply (handle_calls r c). }
  destruct (remote c) as [[host|q]|] eqn:Er; [|done..]. intros _.
  assert (Hch : exists src, checked (Some (Https host)) src /\ src ∈ args c).
  { inversion Hcmd; subst; eexists; (split; [eassumption|set_solver]). }
  destruct Hch as (src & (rem & url & base & [= <-] & Hchk & ->) & Hin).
  apply checkRemote_https in Hchk as (u & H1 & H2 & H3 & H4 & H5 & ->). exists url, u. by split_and!.
Qed.

Lemma branch_safe n : branchName n = Ok n ->
  Str.all branch_char n = true /\ Str.starts_with "-" n = false /\ Str.any (fun c => Ascii.eqb c "+" || Ascii.eqb c ":") n = false.
Proof.
  unfold branchName. destruct (BRANCH n) eqn:E; [|done]. intros _. destruct n as [|c n]; [done|]. cbn [BRANCH] in E.
  rewrite !andb_true_iff in E. destruct E as [[E1 E2] _]. split_and!; [done| |].
  - cbn [Str.starts_with]. apply negb_true_iff in E1. rewrite !orb_false_iff in E1. destruct E1 as [[[E1 _] _] _].
    by rewrite Ascii.eqb_sym, E1.
  - rewrite StrFacts.any_negb_all. apply negb_false_iff. revert E2. apply StrFacts.all_impl.
    intros d Hd. apply negb_true_iff. destruct d as [[] [] [] [] [] [] [] []]; vm_compute in Hd |- *; done.
Qed.

(** A push is never forced: its refspec is one branch to the same branch,
    with no plus sign and no colon but the one between them. *)
Theorem push_never_forced r c rest :
  c ∈ (handle r []).1 -> args c = "push" :: rest ->
  exists target n, rest = ["--"; target; "refs/heads/" +:+ n +:+ ":refs/heads/" +:+ n] /\
    Str.any (fun d => Ascii.eqb d "+" || Ascii.eqb d ":") n = false /\ Str.starts_with "-" n = false.
Proof.
  intros Hc Ha.
  assert (Hcmd : command (remote c) (args c)).
  { by apply (handle_calls r c). }
  rewrite Ha in Hcmd. inversion Hcmd; subst.
  - unfold fixed_commands in *. set_solver.
  - destruct (branch_safe n) as (_ & Hd & Hp); [done|]. by exists src, n.
Qed.

(** ** Configuration *)

Lemma NoDup_repeated keys : forall seen,
  repeated_in seen keys = [] <-> NoDup keys /\ (forall k, k ∈ keys -> k ∉ seen).
Proof.
  induction keys as [|k keys IH]; intros seen; cbn [repeated_in].
  { split; [split; [constructor|intros k ?%elem_of_nil; done]|done]. }
  destruct (existsb (String.eqb k) seen) eqn:E.
  - split; [done|]. intros [_ H]. apply existsb_exists in E as (k' & Hk' & ->%String.eqb_eq). exfalso.
    apply (H k'); [by left|by apply list_elem_of_In].
  - assert (Hk : k ∉ seen).
    { intros Hin. assert (existsb (String.eqb k) seen = true); [|congruence]. apply existsb_exists. exists k.
      split; [by apply list_elem_of_In|apply String.eqb_refl]. }
    rewrite IH, NoDup_cons. split.
    + intros [Hnd H]. split_and!; [|done|].
      * intros Hin. apply (H k Hin). apply elem_of_app. right. by left.
      * intros k' [->|Hin]%elem_of_cons; [done|]. specialize (H k' Hin). rewrite elem_of_app in H. tauto.
    + intros [[Hn Hnd] H]. split; [done|]. intros k' Hin [?|?%list_elem_of_singleton]%elem_of_app; [|congruence].
      by apply (H k'); [right|].
Qed.

Lemma of_list_nil (l : list string) : JsSet.of_list l = [] <-> l = [].
Proof.
  split; [|by intros ->]. intros E. destruct l as [|x l]; [done|].
  assert (Hx : x ∈ JsSet.of_list (x :: l)) by (apply JsSet.elem_of_of_list; by left). rewrite E in Hx. by apply elem_of_nil in Hx.
Qed.

Lemma filter_nil {A} (f : A -> bool) l : List.filter f l = [] <-> Forall (fun x => f x = false) l.
Proof.
  induction l as [|x l IH]; [done|]. cbn. rewrite Forall_cons. destruct (f x) eqn:E; [split; [done|by intros [? _]]|].
  rewrite IH. tauto.
Qed.

(** A repository's configuration is accepted exactly when every key is one
    of those git writes itself when it clones, every remote has a plain name,
    and no remote has two URLs. *)
Theorem check_config_spec stdout :
  let keys := config_keys stdout in
  check_config stdout = Ok tt <->
  Forall (fun k => allowed_config k = true) keys /\
  Forall (fun k => forall name, remote_name k = Some name -> plain_remote name = true) keys /\
  NoDup (List.filter is_url_key keys).
Proof.
  cbv zeta. unfold check_config. set (keys := config_keys stdout).
  pose proof (NoDup_repeated (List.filter is_url_key keys) []) as Hrep.
  assert (Hrep' : repeated_in [] (List.filter is_url_key keys) = [] <-> NoDup (List.filter is_url_key keys)).
  { rewrite Hrep. split; [by intros [? _]|]. intros ?. split; [done|]. intros k _. apply not_elem_of_nil. }
  clear Hrep. destruct (JsSet.of_list (repeated_in [] _)) as [|x l] eqn:Eset.
  2:{ split; [done|]. intros (_ & _ & Hnd). apply Hrep' in Hnd. by rewrite Hnd in Eset. }
  rewrite of_list_nil in Eset. assert (Hnd : NoDup (List.filter is_url_key keys)) by (by apply Hrep').
  destruct (refused_keys keys) as [|y m] eqn:Eref.
  - unfold refused_keys in Eref. apply app_eq_nil in Eref as [E1 E2]. rewrite of_list_nil, filter_nil in E1.
    rewrite filter_nil in E2. split; [|done]. intros _. split_and!; [| |done].
    + eapply Forall_impl; [exact E1|]. intros k Hk. by apply negb_false_iff in Hk.
    + rewrite Forall_forall in *. intros k Hk name Hname. specialize (E2 k (proj2 (JsSet.elem_of_of_list k keys) Hk)).
      cbn in E2. rewrite Hname in E2. by apply negb_false_iff in E2.
  - split; [done|]. intros (H1' & H2' & _). exfalso. assert (Hnil : refused_keys keys = []); [|congruence].
    rewrite !Forall_forall in *. unfold refused_keys.
    assert (E1 : JsSet.of_list (List.filter (fun key => negb (allowed_config key)) keys) = []).
    { apply of_list_nil, filter_nil, Forall_forall. intros k Hk. apply negb_false_iff. by apply H1'. }
    rewrite E1. apply filter_nil, Forall_forall. intros k Hk. rewrite JsSet.elem_of_of_list in Hk.
    destruct (remote_name k) as [name|] eqn:En; [|done]. apply negb_false_iff. by apply (H2' k).
Qed.

(** ** Status *)

Lemma split_fields fs x : Forall (fun w => Str.any (Ascii.eqb " ") w = false) fs ->
  Str.split " " (foldr (fun w s => w +:+ String " " s) x fs) = fs ++ Str.split " " x.
Proof. induction 1 as [|w fs Hw _ IH]; [done|]. cbn [foldr app]. by rewrite StrFacts.split_app, IH. Qed.

Lemma skipn_length_app {A} (l k : list A) : skipn (length l) (l ++ k) = k.
Proof. induction l as [|x l IH]; [done|]. apply IH. Qed.

(** A changed file is reported under its own name, spaces and all: of an
    ordinary entry, everything after the eighth field is the path. *)
Theorem status_path st xy f path :
  length f = 6 -> Forall (fun w => Str.any (Ascii.eqb " ") w = false) (xy :: f) ->
  changes (status_line st (foldr (fun w s => w +:+ String " " s) path ("1" :: xy :: f))) =
  changes st ++ [{| c_path := path; c_status := status_text xy |}].
Proof.
  intros Hlen Hf. set (line := foldr _ path ("1" :: xy :: f)).
  assert (Hsplit : Str.split " " line = ("1" :: xy :: f) ++ Str.split " " path) by (apply split_fields; by constructor).
  unfold status_line. unfold from_field. rewrite Hsplit.
  change (Str.starts_with "# branch.head " line) with false. change (Str.starts_with "# branch.ab " line) with false.
  change (Str.starts_with "1 " line) with true. change (Str.starts_with "2 " line) with false. cbv beta iota zeta delta [orb].
  cbn [changes]. do 2 f_equal. replace 8 with (length ("1" :: xy :: f)) by (cbn; by rewrite Hlen).
  rewrite skipn_length_app. pose proof (StrFacts.join_split " " path) as ->. done.
Qed.

End git.

(** ** Witnesses *)

Definition demo_url : URL :=
  {| protocol := "https:"; username := ""; password := ""; hostname := "github.com"; u_host := "github.com"; u_port := None;
     pathname := "/o/r.git"; u_search := ""; searchParams := []; href := "https://github.com/o/r.git" |}.

#[local] Instance demo_parser : UrlParser :=
  {| new_URL := fun s => if String.eqb s (href demo_url) then Some demo_url else None; new_URL_base := fun _ _ => None |}.

(** One repository at /workspace/r, whose origin is the demo URL. *)
Definition demo_git (args : list string) : result string (string * string) :=
  let lf := String LF "" in
  match args with
  | ["rev-parse"; "--path-format=absolute"; "--show-toplevel"; "--absolute-git-dir"; "--git-common-dir"] =>
      Ok ("/workspace/r" +:+ lf +:+ "/workspace/r/.git" +:+ lf +:+ "/workspace/r/.git", "")
  | ["config"; "--local"; "--list"; "-z"] =>
      Ok ("core.bare" +:+ lf +:+ "false" +:+ String NUL ("remote.origin.url" +:+ lf +:+ href demo_url), "")
  | ["remote"; "get-url"; "--all"; "--push"; "origin"] => Ok (href demo_url +:+ lf, "")
  | _ => Ok ("", "")
  end.

#[local] Instance demo_machine : Machine :=
  {| env := fun name => if String.eqb name "GIT_TOKEN" then Some "t0ken" else None; process_cwd := "/app";
     exists_ := fun p => existsb (String.eqb p) ["/workspace"; "/workspace/r"]; lstat := fun _ => true; realpath := Some;
     fileURLToPath := fun _ => None; git_home := "/tmp/h"; granted := fun c => Some (String.eqb c "network:host:github.com");
     run_git := fun _ c => demo_git (args c) |}.

Definition demo_push : Call :=
  {| cwd := "/workspace/r"; args := ["push"; "--"; "https://github.com/o/r.git"; "refs/heads/main:refs/heads/main"];
     remote := Some (Https "github.com") |}.

Lemma demo_pushes : demo_push ∈ (handle (Push "r" "main") []).1.
Proof. apply list_elem_of_In. vm_compute. tauto. Qed.

Lemma git_calls_witness :
  demo_push ∈ (handle (Push "r" "main") []).1 /\ command (remote demo_push) (args demo_push) /\ in_workspace (cwd demo_push).
Proof. split; [exact demo_pushes|]. exact (git_calls (Push "r" "main") demo_push demo_pushes). Defined.

Lemma token_confined_witness :
  JsMap.get "GIT_TOKEN" (gitEnv "/workspace" (remote demo_push)) = Some "t0ken" /\
  exists url u, url ∈ args demo_push /\ new_URL url = Some u /\ username u = "" /\ password u = "" /\ plain_url url = true /\
    granted ("network:host:" +:+ Str.to_lower (hostname u)) = Some true /\
    remote demo_push = Some (Https (Str.to_lower (u_host u))).
Proof.
  assert (E : JsMap.get "GIT_TOKEN" (gitEnv "/workspace" (remote demo_push)) = Some "t0ken") by (vm_compute; reflexivity).
  split; [exact E|]. exact (token_confined (Push "r" "main") demo_push "/workspace" "t0ken" demo_pushes E).
Defined.

Lemma push_never_forced_witness :
  exists target n, ["--"; "https://github.com/o/r.git"; "refs/heads/main:refs/heads/main"] =
      ["--"; target; "refs/heads/" +:+ n +:+ ":refs/heads/" +:+ n] /\
    Str.any (fun d => Ascii.eqb d "+" || Ascii.eqb d ":") n = false /\ Str.starts_with "-" n = false.
Proof. exact (push_never_forced (Push "r" "main") demo_push _ demo_pushes eq_refl). Defined.

Lemma status_path_witness :
  let st := parse_status "" in
  changes (status_line st "1 .M N... 100644 100644 100644 ab cd my file") = [{| c_path := "my file"; c_status := "M" |}].
Proof.
  apply (status_path (parse_status "") ".M" ["N..."; "100644"; "100644"; "100644"; "ab"; "cd"] "my file"); [reflexivity|].
  repeat constructor.
Defined.

End Git.
