(* ===== verification/Agent.v ===== *)
(** * The agent loop (experimental/agents/src: agent.ts, context.ts,
      guardrails.ts, structured-output.ts)

    A run asks a model, runs the tools it asks for, compacts the history when it
    grows, saves checkpoints and ends with an answer or an error. The model, the
    tools, the stores and the clock are arguments that see everything the run has
    done so far; what the run does is its trace. *)
From S2P Require Import Prelude JsNumber Json JsonParse Trace.

Module Agent.
Import Json Trace.

(** ** Messages (types.ts) *)

Inductive AgentRole : Type := User | Assistant | ToolRole.
Record ToolCall := { call_id : string; call_name : string; input : json }.
Record ToolResult := { res_id : string; res_name : string; output : json }.
Record AgentMessage := {
  role : AgentRole; text : option string; toolCalls : option (list ToolCall); toolResult : option ToolResult
}.

Definition user_message (s : string) : AgentMessage := {| role := User; text := Some s; toolCalls := None; toolResult := None |}.
Definition assistant_message (s : string) : AgentMessage :=
  {| role := Assistant; text := Some s; toolCalls := None; toolResult := None |}.
Definition call_message (s : option string) (calls : list ToolCall) : AgentMessage :=
  {| role := Assistant; text := s; toolCalls := Some calls; toolResult := None |}.
Definition result_message (call : ToolCall) (out : json) : AgentMessage :=
  {| role := ToolRole; text := None; toolCalls := None;
     toolResult := Some {| res_id := call_id call; res_name := call_name call; output := out |} |}.

Inductive LLMStopReason : Type := End_ | ToolCalls | Length | ContentFilter | Refusal | OtherReason.
Record LLMTurn := { t_text : option string; t_toolCalls : list ToolCall; stopReason : option LLMStopReason; usage : option (Z * Z) }.

Record Tool := { tool_name : string; description : string; inputSchema : json }.

(** An entry of [AgentRunResult.toolCalls]. *)
Record Executed := { e_name : string; e_input : json; e_result : json }.

(** ** Context compaction (context.ts) *)

Record ContextPolicy := {
  maxInputTokens : option Z; reserveTokens : option Z; keepRecentMessages : option Z; summarize : bool
}.

Definition DEFAULT_RESERVE_TOKENS : Z := 1024.
Definition DEFAULT_KEEP_RECENT : Z := 6.
Definition SUMMARY_PREFIX : string := "[earlier conversation, summarized]".

(** [Math.ceil(text.length / 4)] *)
Definition estimateTokens (s : string) : Z := ((Z.of_nat (String.length s) + 3) / 4)%Z.

Definition sum_Z (l : list Z) : Z := foldr Z.add 0%Z l.

Definition estimateMessageTokens (m : AgentMessage) : Z :=
  (match text m with Some s => estimateTokens s | None => 0 end +
   sum_Z (map (fun c => estimateTokens (call_name c) + estimateTokens (JsonParse.stringify (input c))) (or_default [] (toolCalls m))) +
   match toolResult m with
   | Some r => estimateTokens (res_name r) + estimateTokens (JsonParse.stringify (output r))
   | None => 0
   end + 4)%Z.

Definition estimateFixedTokens (system : option string) (tools : list Tool) : Z :=
  (match system with Some s => estimateTokens s | None => 0 end +
   sum_Z (map (fun t => estimateTokens (tool_name t) + estimateTokens (description t) +
                        estimateTokens (JsonParse.stringify (inputSchema t))) tools))%Z.

Definition is_tool (m : AgentMessage) : bool := match role m with ToolRole => true | _ => false end.

Fixpoint boundaries_from (i : nat) (messages : list AgentMessage) : list nat :=
  match messages with
  | [] => []
  | m :: messages => if is_tool m then boundaries_from (S i) messages else i :: boundaries_from (S i) messages
  end.
Definition groupBoundaries (messages : list AgentMessage) : list nat := boundaries_from 0 messages.

(** The loop over the candidate cuts. *)
Fixpoint choose_cut (perMessage : list Z) (budget : Z) (starts : list nat) (cut : nat) : nat :=
  match starts with
  | [] => cut
  | start :: starts =>
      if (sum_Z (drop start perMessage) <=? budget)%Z then start else choose_cut perMessage budget starts start
  end.

(** Where [compactMessages] cuts; [None] when it leaves the history alone. *)
Definition compaction_cut (messages : list AgentMessage) (fixedTokens : Z) (policy : ContextPolicy) : option nat :=
  match maxInputTokens policy with
  | None => None
  | Some max =>
      let budget := (max - or_default DEFAULT_RESERVE_TOKENS (reserveTokens policy) - fixedTokens)%Z in
      let keepRecent := or_default DEFAULT_KEEP_RECENT (keepRecentMessages policy) in
      let perMessage := map estimateMessageTokens messages in
      if (sum_Z perMessage <=? budget)%Z then None
      else
        let starts := List.filter (fun i => (Z.of_nat i <? Z.max 0 (Z.of_nat (length messages) - keepRecent))%Z)
                        (groupBoundaries messages) in
        match choose_cut perMessage budget starts 0 with O => None | cut => Some cut end
  end.

Definition emergencyBudget (messages : list AgentMessage) (fixedTokens : Z) : Z :=
  ((sum_Z (map estimateMessageTokens messages) + fixedTokens) / 2)%Z.

(** ** Errors *)

Inductive error_kind : Type :=
| Overflow                       (* ContextLengthExceededError *)
| Abort                          (* isAbortError, but for RunAborted *)
| Tripwire                       (* GuardrailTripwireError *)
| RunTimeout
| RunAborted
| Truncated (reason : LLMStopReason) (partialText : string)
| StructuredOutput (rawText : string)
| MaxTurnsExceeded (executed : list Executed) (partialText : option string)
| CheckpointStoreMissing
| CheckpointNotFound (runId : string)
| OtherError.

(** Anything thrown, with what [err instanceof Error ? err.message : String(err)] is. *)
Record error := { kind : error_kind; message : string }.

Definition isAbortError (e : error) : bool := match kind e with Abort | RunAborted => true | _ => false end.
Definition isRefusal (e : error) : bool := match kind e with Tripwire => true | _ => false end.
Definition isOverflow (e : error) : bool := match kind e with Overflow => true | _ => false end.

(** How a computation stops: the fuel is the model's own. *)
Inductive stop : Type := Threw (e : error) | OutOfFuel.

(** ** Structured output (structured-output.ts) *)

Record issue := { i_path : list json; i_message : string }.

(** [path.map(String).join(".")]; [None] when it throws. *)
Definition formatZodIssues (issues : list issue) : option string :=
  texts ← mapM (fun i => path ← mapM js_string (i_path i);
                         let p := Str.join "." path in
                         Some ((if String.eqb p "" then "(root)" else p) +:+ ": " +:+ i_message i)) issues;
  Some (Str.join "; " texts).

Definition zod_issue (v : json) : option issue :=
  match v with
  | JObj _ =>
      match oprop "path" v, oprop "message" v with
      | JArr path, JStr m => Some {| i_path := path; i_message := m |}
      | _, _ => None
      end
  | _ => None
  end.

(** What the response schema says of a value: the data, or the issues. *)
Definition Schema : Type := json -> result (list issue) json.

(** The em dash, one code unit. *)
Definition dash : string := String (ascii_of_nat 151) "".

Definition structuredOutputRepairPrompt (error : string) : string :=
  "Your previous response could not be parsed as valid JSON matching the required schema:" +:+ String (ascii_of_nat 10) error +:+
  String (ascii_of_nat 10) (String (ascii_of_nat 10)
    "Respond again with ONLY corrected JSON matching the schema " +:+ dash +:+ " no prose, no markdown code fences.").

(** ** Guardrails (guardrails.ts) *)

(** What a guardrail says of a text: it may throw; a triggered one has a
    message or none. *)
Inductive GuardrailResult : Type := Passed | Tripped (message : option string).

Definition GuardrailTripwireError (stage guardrailMessage : string) : error :=
  {| kind := Tripwire; message := stage +:+ " guardrail tripped: " +:+ guardrailMessage |}.

(** ** What a run does *)

Inductive CheckpointStatus : Type := Running | Done | Errored.
Record CheckpointedRun := {
  c_status : CheckpointStatus; turnCount : nat; c_messages : list AgentMessage; c_toolCalls : list Executed;
  c_text : option string
}.

Inductive step_kind : Type := LlmTurn (usage : option (Z * Z)) | ToolStep (toolName : string) | ContextCompaction (droppedMessages : nat).
Record AgentStepEvent := { turn : nat; s_kind : step_kind; s_error : option string; payload : option (json * json) }.

Inductive event : Type :=
| Asked (messages : list AgentMessage)                 (* llm.chat or chatStream *)
| Invoked (call : ToolCall)                            (* tool.invoke *)
| Traced (e : AgentStepEvent)
| Saved (c : CheckpointedRun)
| Summarized (dropped : list AgentMessage)
| SessionRead
| SessionAdded (items : list AgentMessage).

(** A guardrail sees what the run has done, since it may ask a model. *)
Definition Guardrail : Type := list event -> string -> result error GuardrailResult.

Record AgentOptions := {
  name : string; systemPrompt : option string; tools : list Tool; maxTurns : nat; checkpointStore : bool; tracer : bool;
  tracePayloads : bool; inputGuardrails : list Guardrail; outputGuardrails : list Guardrail; timeoutMs : option Z;
  toolTimeoutMs : option Z; context : ContextPolicy
}.

(** The world a run is in, each part a function of what has happened. A failing
    call of a store or a tracer throws. *)
Class World := {
  chat : list event -> list AgentMessage -> result error LLMTurn;
  invoke : list event -> ToolCall -> result error json;        (* within [withToolTimeout] *)
  cancelled : list event -> option error;                      (* what [throwIfCancelled] throws *)
  store_fails : list event -> CheckpointedRun -> option error;
  tracer_fails : list event -> AgentStepEvent -> option error;
  summary_of : list event -> list AgentMessage -> result error string;
  session_items : list event -> result error (list AgentMessage);
  session_fails : list event -> list AgentMessage -> option error;
  json_parse : string -> result string json;                   (* the value, or the message of the SyntaxError *)
  redact : json -> json
}.

Section agent.
Context {world : World} (agent : AgentOptions).

Abbreviation RunM := (@M event stop).

Definition throw {A} (e : error) : RunM A := fail (Threw e).
Definition or_throw {A} (r : result error A) : result stop A := match r with Ok a => Ok a | Err e => Err (Threw e) end.
Definition may_throw (o : option error) : option stop := match o with Some e => Some (Threw e) | None => None end.

(** [cancellation.throwIfCancelled()] *)
Definition throwIfCancelled : RunM unit :=
  c ← asks cancelled; match c with Some e => throw e | None => mret tt end.

Fixpoint run_guardrails (t : list event) (guardrails : list Guardrail) (text stage : string) : result error unit :=
  match guardrails with
  | [] => Ok tt
  | g :: guardrails =>
      match g t text with
      | Err e => Err e
      | Ok (Tripped m) => Err (GuardrailTripwireError stage (or_default "no reason given" m))
      | Ok Passed => run_guardrails t guardrails text stage
      end
  end.
Definition runGuardrails (guardrails : list Guardrail) (text stage : string) : RunM (result error unit) :=
  asks (fun t => run_guardrails t guardrails text stage).

Definition parseStructuredOutput (text : string) (schema : Schema) : RunM (result string json) :=
  match json_parse text with
  | Err e => mret (Err ("response is not valid JSON: " +:+ e))
  | Ok v =>
      match schema v with
      | Ok data => mret (Ok data)
      | Err issues =>
          match formatZodIssues issues with
          | Some e => mret (Err e)
          | None => throw {| kind := OtherError; message := "Cannot convert object to primitive value" |}
          end
      end
  end.

(** [None] when it throws. *)
Definition formatToolInputError (message : string) : option string :=
  match json_parse message with
  | Ok (JArr (x :: l)) => match mapM zod_issue (x :: l) with Some issues => formatZodIssues issues | None => Some message end
  | _ => Some message
  end.

Definition UnknownToolError (toolName : string) : error :=
  let available := map tool_name (tools agent) in
  {| kind := OtherError;
     message := match available with
                | [] => "no such tool " +:+ String dq_char toolName +:+ String dq_char ""
                | _ => "no such tool " +:+ String dq_char toolName +:+ String dq_char " " +:+ dash +:+ " available: " +:+
                       Str.join ", " available
                end |}.

Definition error_result (e : string) : json := JObj [("error", JStr e)].

Definition compactMessages (messages : list AgentMessage) (fixedTokens : Z) (policy : ContextPolicy) :
    RunM (option (list AgentMessage * nat)) :=
  match compaction_cut messages fixedTokens policy with
  | None => mret None
  | Some cut =>
      let dropped := take cut messages in
      let kept := drop cut messages in
      if negb (summarize policy) then mret (Some (kept, length dropped))
      else
        summary ← emit (Summarized dropped) (fun t => or_throw (summary_of t dropped));
        mret (Some (user_message (SUMMARY_PREFIX +:+ String (ascii_of_nat 10) summary) :: kept, length dropped))
  end.

(** Tool calls of the last assistant turn that have none that no result answers. *)
Definition has_calls (m : AgentMessage) : bool :=
  match role m, toolCalls m with Assistant, Some (_ :: _) => true | _, _ => false end.
Definition answered_ids (messages : list AgentMessage) : list string :=
  omap (fun m => match role m with ToolRole => res_id <$> toolResult m | _ => None end) messages.
Definition pendingToolCalls (messages : list AgentMessage) : list ToolCall :=
  match List.find has_calls (rev messages) with
  | None => []
  | Some m => List.filter (fun c => negb (existsb (String.eqb (call_id c)) (answered_ids messages))) (or_default [] (toolCalls m))
  end.

(** The arguments of [loop]. *)
Record LoopArgs := {
  initialMessages : list AgentMessage; initialExecuted : list Executed; startTurn : nat; runId : option string;
  responseSchema : option Schema; maxRepairAttempts : option nat; session : bool; sessionBaseline : nat
}.

(** What the closures of [loopWith] share and change. *)
Record Loop := { messages : list AgentMessage; executed : list Executed; repairAttempts : nat; contextRetried : bool }.

Section loop.
Context (args : LoopArgs).

Definition run_named : bool := match runId args with Some (String _ _) => true | _ => false end.

Definition checkpoint (turn : nat) (status : CheckpointStatus) (txt : option string) (s : Loop) : RunM unit :=
  if negb (checkpointStore agent) || negb run_named then mret tt
  else
    let c := {| c_status := status; turnCount := turn; c_messages := messages s; c_toolCalls := executed s; c_text := txt |} in
    attempt (Saved c) (fun t => may_throw (store_fails t c)).

Definition trace (e : AgentStepEvent) : RunM unit :=
  if negb (tracer agent) || negb run_named then mret tt
  else attempt (Traced e) (fun t => may_throw (tracer_fails t e)).

(** A call's result, and the error it is, if it is one. *)
Definition call_tool (call : ToolCall) (turn : nat) (turnText : option string) (s : Loop) : RunM (json * option string) :=
  match List.find (fun t => String.eqb (tool_name t) (call_name call)) (tools agent) with
  | None => let e := message (UnknownToolError (call_name call)) in mret (error_result e, Some e)
  | Some _ =>
      r ← emit (Invoked call) (fun t => Ok (invoke t call));
      match r with
      | Ok v => mret (v, None)
      | Err err =>
          if isRefusal err then checkpoint turn Errored turnText s ;; throw err
          else
            c ← asks cancelled;
            if bool_decide (is_Some c) then checkpoint turn Errored turnText s ;; throwIfCancelled ;; throw err
            else match formatToolInputError (message err) with
                 | Some e => mret (error_result e, Some e)
                 | None => throw {| kind := OtherError; message := "Cannot convert object to primitive value" |}
                 end
      end
  end.

Definition runToolCall (call : ToolCall) (turn : nat) (turnText : option string) (s : Loop) : RunM Loop :=
  out ← call_tool call turn turnText s;
  trace {| turn := turn; s_kind := ToolStep (call_name call); s_error := out.2;
           payload := if tracePayloads agent then Some (redact (input call), redact out.1) else None |} ;;
  mret {| messages := messages s ++ [result_message call out.1];
          executed := executed s ++ [{| e_name := call_name call; e_input := input call; e_result := out.1 |}];
          repairAttempts := repairAttempts s; contextRetried := contextRetried s |}.

Definition with_messages (ms : list AgentMessage) (s : Loop) : Loop :=
  {| messages := ms; executed := executed s; repairAttempts := repairAttempts s; contextRetried := contextRetried s |}.
Definition push (m : AgentMessage) (s : Loop) : Loop := with_messages (messages s ++ [m]) s.

Definition persistSession (s : Loop) : RunM unit :=
  if negb (session args) then mret tt
  else let items := drop (sessionBaseline args) (messages s) in
       attempt (SessionAdded items) (fun t => may_throw (session_fails t items)).

Definition guardOutput (txt : string) (turn : nat) (s : Loop) : RunM unit :=
  r ← runGuardrails (outputGuardrails agent) txt "output";
  match r with Ok _ => mret tt | Err e => checkpoint turn Errored (Some txt) s ;; throw e end.

(** The outstanding calls of a resumed run. *)
Fixpoint run_pending (calls : list ToolCall) (s : Loop) : RunM Loop :=
  match calls with
  | [] => mret s
  | call :: calls => s ← runToolCall call (startTurn args) None s; run_pending calls s
  end.

(** The calls of one turn, with a checkpoint after each but the last. *)
Fixpoint run_calls (calls : list ToolCall) (turn : nat) (turnText : option string) (s : Loop) : RunM Loop :=
  match calls with
  | [] => mret s
  | call :: calls =>
      s ← runToolCall call turn turnText s;
      (match calls with [] => mret tt | _ => checkpoint turn Running None s end) ;;
      run_calls calls turn turnText s
  end.

Record AgentRunResult := { r_text : string; r_toolCalls : list Executed; data : option json }.

Definition finish (txt : string) (turn : nat) (data : option json) (s : Loop) : RunM AgentRunResult :=
  guardOutput txt turn s ;;
  let s := push (assistant_message txt) s in
  persistSession s ;;
  checkpoint turn Done (Some txt) s ;;
  mret {| r_text := txt; r_toolCalls := executed s; data := data |}.

(** The last assistant message with text. *)
Definition last_text (ms : list AgentMessage) : option string :=
  match List.find (fun m => match role m, text m with Assistant, Some (String _ _) => true | _, _ => false end) (rev ms) with
  | Some m => text m
  | None => None
  end.

Definition max_turns_error (s : Loop) : error :=
  {| kind := MaxTurnsExceeded (executed s) (last_text (messages s));
     message := "Agent " +:+ String dq_char (name agent) +:+ String dq_char " exceeded its maxTurns (" +:+
       JsNumber.to_string (Z.of_nat (maxTurns agent)) +:+ ") without reaching a final answer. It made " +:+
       JsNumber.to_string (Z.of_nat (length (executed s))) +:+ " tool call(s). Raise maxTurns, or narrow the task." |}.

Definition stop_reason_text (r : LLMStopReason) : string :=
  match r with End_ => "end" | ToolCalls => "tool_calls" | Length => "length" | ContentFilter => "content_filter"
             | Refusal => "refusal" | OtherReason => "other" end.

Definition truncated_error (r : LLMStopReason) (partial : string) : error :=
  {| kind := Truncated r partial;
     message := match r with
       | Length => "Agent " +:+ String dq_char (name agent) +:+ String dq_char
           " got a response cut off at the model's token limit, not a finished answer. Raise maxTokens on the provider, or shorten the input."
       | _ => "Agent " +:+ String dq_char (name agent) +:+ String dq_char " got no usable answer: the provider reported " +:+
           String dq_char (stop_reason_text r) +:+ String dq_char "."
       end |}.

(** A reason that makes a turn's output no answer. *)
Definition untrusted (r : option LLMStopReason) : option LLMStopReason :=
  match r with Some Length => Some Length | Some ContentFilter => Some ContentFilter | Some Refusal => Some Refusal | _ => None end.

Definition DEFAULT_MAX_REPAIR_ATTEMPTS : nat := 2.

(** [parseStructuredOutput] failed for the last time. *)
Definition structured_error (e txt : string) : error :=
  {| kind := StructuredOutput txt;
     message := "Agent " +:+ String dq_char (name agent) +:+ String dq_char " failed to produce output matching responseSchema after " +:+
       JsNumber.to_string (Z.of_nat (or_default DEFAULT_MAX_REPAIR_ATTEMPTS (maxRepairAttempts args))) +:+ " repair attempt(s): " +:+ e |}.

Definition fixed_tokens : Z := estimateFixedTokens (systemPrompt agent) (tools agent).

(** Compaction before a call. *)
Definition compact (turn : nat) (s : Loop) : RunM Loop :=
  c ← compactMessages (messages s) fixed_tokens (context agent);
  match c with
  | None => mret s
  | Some (ms, dropped) =>
      trace {| turn := turn; s_kind := ContextCompaction dropped; s_error := None; payload := None |} ;;
      mret (with_messages ms s)
  end.

(** Compaction after the model found the request too long; [None] when nothing
    could be dropped. *)
Definition emergency (turn : nat) (s : Loop) : RunM (option Loop) :=
  c ← compactMessages (messages s) fixed_tokens
        {| maxInputTokens := Some (emergencyBudget (messages s) fixed_tokens); reserveTokens := reserveTokens (context agent);
           keepRecentMessages := keepRecentMessages (context agent); summarize := summarize (context agent) |};
  match c with
  | None => mret None
  | Some (ms, dropped) =>
      trace {| turn := turn; s_kind := ContextCompaction dropped;
               s_error := Some "recovered from a provider context-length error"; payload := None |} ;;
      mret (Some {| messages := ms; executed := executed s; repairAttempts := repairAttempts s; contextRetried := true |})
  end.

(** A failed call of the model that is not retried. *)
Definition llm_failed {A} (turn : nat) (err : error) : RunM A :=
  trace {| turn := turn; s_kind := LlmTurn None; s_error := Some (message err); payload := None |} ;;
  (if isAbortError err then throwIfCancelled else mret tt) ;;
  throw err.

(** What a turn makes the loop do next. *)
Inductive next : Type := Return (r : AgentRunResult) | Continue (s : Loop).

(** From a turn of the model to the end of the body. *)
Definition use_turn (n : nat) (tu : LLMTurn) (s : Loop) : RunM next :=
  trace {| turn := n; s_kind := LlmTurn (usage tu); s_error := None; payload := None |} ;;
  match untrusted (stopReason tu) with
  | Some r =>
      checkpoint n Errored (t_text tu) s ;;
      throw (truncated_error r (or_default "" (t_text tu)))
  | None =>
      match t_toolCalls tu with
      | [] =>
          let txt := or_default "" (t_text tu) in
          match responseSchema args with
          | Some schema =>
              parsed ← parseStructuredOutput txt schema;
              match parsed with
              | Ok d => (r ← finish txt n (Some d) s; mret (Return r))
              | Err e =>
                  if or_default DEFAULT_MAX_REPAIR_ATTEMPTS (maxRepairAttempts args) <=? repairAttempts s then
                    checkpoint n Errored (Some txt) s ;;
                    throw (structured_error e txt)
                  else
                    let s := {| messages := messages s ++ [assistant_message txt; user_message (structuredOutputRepairPrompt e)];
                                executed := executed s; repairAttempts := S (repairAttempts s); contextRetried := contextRetried s |} in
                    checkpoint (S n) Running None s ;;
                    mret (Continue s)
              end
          | None => (r ← finish txt n None s; mret (Return r))
          end
      | calls =>
          s ← run_calls calls n (t_text tu) (push (call_message (t_text tu) calls) s);
          checkpoint (S n) Running None s ;;
          mret (Continue s)
      end
  end.

(** The loop. A turn is repeated at most once in a run, so [fuel] greater than
    the turns left and one is enough. *)
Fixpoint turns (fuel : nat) (n : nat) (s : Loop) : RunM AgentRunResult :=
  match fuel with
  | O => fail OutOfFuel
  | S fuel =>
      if maxTurns agent <=? n then
        checkpoint (maxTurns agent) Errored None s ;; throw (max_turns_error s)
      else
        throwIfCancelled ;;
        s ← compact n s;
        r ← emit (Asked (messages s)) (fun t => Ok (chat t (messages s)));
        match r with
        | Ok tu =>
            x ← use_turn n tu s;
            match x with Return r => mret r | Continue s => turns fuel (S n) s end
        | Err err =>
            if isOverflow err && negb (contextRetried s) then
              again ← emergency n s;
              match again with Some s => turns fuel n s | None => llm_failed n err end
            else llm_failed n err
        end
  end.

Definition loopWith : RunM AgentRunResult :=
  let s := {| messages := initialMessages args; executed := initialExecuted args; repairAttempts := 0; contextRetried := false |} in
  let pending := pendingToolCalls (messages s) in
  s ← run_pending pending s;
  (match pending with [] => mret tt | _ => checkpoint (startTurn args) Running None s end) ;;
  turns (maxTurns agent - startTurn args + 2) (startTurn args) s.
End loop.

(** ** [run] and [resume] *)

Record RunOptions := { o_runId : option string; o_session : bool; o_schema : option Schema; o_maxRepairAttempts : option nat }.

Definition run (inp : string) (opts : RunOptions) : RunM AgentRunResult :=
  g ← runGuardrails (inputGuardrails agent) inp "input";
  match g with
  | Err e => throw e
  | Ok _ =>
      prior ← (if o_session opts then emit SessionRead (fun t => or_throw (session_items t)) else mret []);
      loopWith {| initialMessages := prior ++ [user_message inp]; initialExecuted := []; startTurn := 0; runId := o_runId opts;
                  responseSchema := o_schema opts; maxRepairAttempts := o_maxRepairAttempts opts; session := o_session opts;
                  sessionBaseline := length prior |}
  end.

(** [load] is what [checkpointStore.load(runId)] gives. *)
Definition resume (load : result error (option CheckpointedRun)) (id : string) (opts : RunOptions) : RunM AgentRunResult :=
  if negb (checkpointStore agent) then
    throw {| kind := CheckpointStoreMissing;
             message := "Agent " +:+ String dq_char (name agent) +:+ String dq_char " has no checkpoint store configured " +:+ dash +:+
               " pass { checkpoint } when constructing it to resume a run" |}
  else match load with
       | Err e => throw e
       | Ok None => throw {| kind := CheckpointNotFound id;
                             message := "no checkpoint found for run " +:+ String dq_char id +:+ String dq_char "" |}
       | Ok (Some c) =>
           match c_status c with
           | Done => mret {| r_text := or_default "" (c_text c); r_toolCalls := c_toolCalls c; data := None |}
           | _ =>
               loopWith {| initialMessages := c_messages c; initialExecuted := c_toolCalls c; startTurn := turnCount c;
                           runId := Some id; responseSchema := o_schema opts; maxRepairAttempts := o_maxRepairAttempts opts;
                           session := false; sessionBaseline := 0 |}
           end
       end.

(** [withTools]: what the new agent is made of; what is not passed on takes the
    constructor's default. *)
Definition withTools (extraTools : list Tool) : AgentOptions :=
  {| name := name agent; systemPrompt := systemPrompt agent; tools := tools agent ++ extraTools; maxTurns := maxTurns agent;
     checkpointStore := checkpointStore agent; tracer := tracer agent; tracePayloads := false;
     inputGuardrails := inputGuardrails agent; outputGuardrails := outputGuardrails agent; timeoutMs := None;
     toolTimeoutMs := None;
     context := {| maxInputTokens := None; reserveTokens := None; keepRecentMessages := None; summarize := false |} |}.

End agent.


(** ** Histories *)

Definition calls_of (m : AgentMessage) : list ToolCall :=
  match role m with Assistant => or_default [] (toolCalls m) | _ => [] end.

(** The calls that are still to be answered, in order; [None] once a result
    answers no call, or something is said while a call has no result. *)
Definition open_step (o : option (list string)) (m : AgentMessage) : option (list string) :=
  open ← o;
  match role m with
  | ToolRole =>
      match toolResult m, open with
      | Some r, id :: open => if String.eqb id (res_id r) then Some open else None
      | _, _ => None
      end
  | _ => match open with [] => Some (map call_id (calls_of m)) | _ => None end
  end.
Definition opens (ms : list AgentMessage) : option (list string) := foldl open_step (Some []) ms.

(** What every vendor asks of a request: each tool call is followed by its
    result, in order, before anything else is said. *)
Definition complete (ms : list AgentMessage) : Prop := opens ms = Some [].

(** A history a run can be resumed from. *)
Definition resumable (ms : list AgentMessage) : Prop :=
  opens ms = Some (map call_id (pendingToolCalls ms)) /\ NoDup (map call_id (pendingToolCalls ms)).

Lemma foldl_open_None ms : foldl open_step None ms = None.
Proof. by induction ms. Qed.

Lemma opens_app a b : opens (a ++ b) = foldl open_step (opens a) b.
Proof. unfold opens. apply foldl_app. Qed.

Lemma opens_snoc ms m : opens (ms ++ [m]) = open_step (opens ms) m.
Proof. by rewrite opens_app. Qed.

Lemma not_tool_open o m l : is_tool m = false -> open_step o m = Some l -> o = Some [] /\ l = map call_id (calls_of m).
Proof. unfold is_tool. destruct o as [[|]|]; cbn; destruct (role m); cbn; intros H; try done; intros [= <-]; done. Qed.

(** Cutting a history where something is said loses no call and no result. *)
Lemma opens_boundary ms i m o : opens ms = Some o -> ms !! i = Some m -> is_tool m = false -> opens (drop i ms) = Some o.
Proof.
  intros Ho Hi Hm. rewrite <- (take_drop i ms), opens_app in Ho.
  rewrite (drop_S ms m i Hi) in *. cbn [foldl] in Ho.
  destruct (open_step (opens (take i ms)) m) as [l|] eqn:E; [|by rewrite foldl_open_None in Ho].
  destruct (not_tool_open _ _ _ Hm E) as [E0 ->]. rewrite E0 in E. unfold opens. cbn [foldl]. by rewrite E.
Qed.

Lemma elem_of_boundaries ms : forall i j, j ∈ boundaries_from i ms -> exists m, i <= j /\ ms !! (j - i) = Some m /\ is_tool m = false.
Proof.
  induction ms as [|m ms IH]; intros i j Hj; cbn [boundaries_from] in Hj; [by apply elem_of_nil in Hj|].
  assert (Hmore : j ∈ boundaries_from (S i) ms -> exists m', i <= j /\ (m :: ms) !! (j - i) = Some m' /\ is_tool m' = false).
  { intros (m' & Hle & Hl & Ht)%IH. exists m'. split; [lia|]. replace (j - i) with (S (j - S i)) by lia. done. }
  destruct (is_tool m) eqn:E; [by apply Hmore|]. apply elem_of_cons in Hj as [->|Hj]; [|by apply Hmore].
  exists m. rewrite Nat.sub_diag. by split_and!.
Qed.

Lemma choose_cut_in tokens budget starts : forall cut, choose_cut tokens budget starts cut = cut \/ choose_cut tokens budget starts cut ∈ starts.
Proof.
  induction starts as [|x l IH]; intros cut; cbn [choose_cut]; [by left|].
  destruct (_ <=? budget)%Z; [right; by left|]. destruct (IH x) as [->|Hin]; right; [by left|by right].
Qed.

Lemma compaction_cut_boundary ms f p cut : compaction_cut ms f p = Some cut ->
  0 < cut /\ cut ∈ groupBoundaries ms /\
  (Z.of_nat cut < Z.max 0 (Z.of_nat (length ms) - or_default DEFAULT_KEEP_RECENT (keepRecentMessages p)))%Z.
Proof.
  unfold compaction_cut. destruct (maxInputTokens p) as [max|]; [|done]. cbv zeta. destruct (_ <=? _)%Z; [done|].
  set (starts := List.filter _ _). pose proof (choose_cut_in (map estimateMessageTokens ms)
    (max - or_default DEFAULT_RESERVE_TOKENS (reserveTokens p) - f)%Z starts 0) as Hc.
  destruct (choose_cut _ _ _ _) as [|k]; [done|]. intros [= <-]. destruct Hc as [?|Hin]; [lia|].
  unfold starts in Hin. apply list_elem_of_In, filter_In in Hin as [H1 H2].
  apply Z.ltb_lt in H2. split_and!; [lia|by apply list_elem_of_In|exact H2].
Qed.

Lemma cut_opens ms f p cut o : opens ms = Some o -> compaction_cut ms f p = Some cut -> opens (drop cut ms) = Some o.
Proof.
  intros Ho (_ & Hb & _)%compaction_cut_boundary. apply elem_of_boundaries in Hb as (m & _ & Hl & Hm).
  rewrite Nat.sub_0_r in Hl. by eapply opens_boundary.
Qed.

(** *** Pending calls *)

Lemma pending_result ms m r : role m = ToolRole -> toolResult m = Some r ->
  pendingToolCalls (ms ++ [m]) = List.filter (fun c => negb (String.eqb (call_id c) (res_id r))) (pendingToolCalls ms).
Proof.
  intros Hr Hm. unfold pendingToolCalls. rewrite rev_app_distr. cbn [rev app List.find]. unfold has_calls at 1. rewrite Hr.
  destruct (List.find has_calls (rev ms)) as [a|]; [|done]. unfold answered_ids. rewrite omap_app. cbn [omap list_omap].
  rewrite Hr, Hm. cbn [fmap option_fmap option_map]. generalize (or_default [] (toolCalls a)). intros l.
  induction l as [|c l IH]; [done|]. cbn [List.filter]. rewrite existsb_app. cbn [existsb]. rewrite orb_false_r, negb_orb.
  destruct (existsb _ _); cbn [negb andb List.filter]; rewrite IH; [done|]. by destruct (String.eqb _ (res_id r)).
Qed.

Lemma pending_said ms m : is_tool m = false -> calls_of m = [] -> pendingToolCalls (ms ++ [m]) = pendingToolCalls ms.
Proof.
  intros Hm Hc. assert (Hr : role m <> ToolRole) by (unfold is_tool in Hm; by destruct (role m)).
  unfold pendingToolCalls. rewrite rev_app_distr. cbn [rev app List.find].
  assert (has_calls m = false) as ->.
  { unfold has_calls, calls_of in *. destruct (role m); try done. by destruct (toolCalls m) as [[|]|]. }
  destruct (List.find has_calls (rev ms)) as [a|]; [|done]. unfold answered_ids. rewrite omap_app. cbn [omap list_omap].
  destruct (role m); try done; by rewrite app_nil_r.
Qed.

Lemma pending_calls ms txt calls : calls <> [] -> (forall c, c ∈ calls -> call_id c ∉ answered_ids ms) ->
  pendingToolCalls (ms ++ [call_message txt calls]) = calls.
Proof.
  intros Hne Hfresh. unfold pendingToolCalls. rewrite rev_app_distr. cbn [rev app List.find].
  assert (has_calls (call_message txt calls) = true) as -> by (by destruct calls).
  cbn [call_message toolCalls or_default]. unfold answered_ids. rewrite omap_app. cbn. rewrite app_nil_r.
  fold (answered_ids ms). clear Hne. induction calls as [|c calls IH]; [done|]. cbn [List.filter].
  rewrite IH by (intros c' Hc'; apply Hfresh; by right).
  destruct (existsb (String.eqb (call_id c)) (answered_ids ms)) eqn:E; [|done].
  apply existsb_exists in E as (x & Hx & Heq). apply String.eqb_eq in Heq. subst x. exfalso.
  apply (Hfresh c); [by left|]. by apply list_elem_of_In.
Qed.

Lemma pending_has_calls ms m : has_calls m = true -> forall c, c ∈ pendingToolCalls (ms ++ [m]) -> call_id c ∈ map call_id (calls_of m).
Proof.
  intros Hm c. unfold pendingToolCalls. rewrite rev_app_distr. cbn [rev app List.find]. rewrite Hm.
  intros [Hc _]%list_elem_of_In%filter_In. apply list_elem_of_In, in_map_iff. exists c. split; [done|].
  unfold has_calls in Hm. unfold calls_of. by destruct (role m).
Qed.

(** What is pending is what a history leaves open. *)
Lemma pending_open ms : forall o, opens ms = Some o -> forall c, c ∈ pendingToolCalls ms -> call_id c ∈ o.
Proof.
  induction ms as [|m ms IH] using rev_ind; intros o; [intros _ c Hc; by apply elem_of_nil in Hc|].
  rewrite opens_snoc. destruct (is_tool m) eqn:Em.
  - destruct (opens ms) as [open|] eqn:Eo; [|done]. cbn. unfold is_tool in Em. destruct (role m) eqn:Er; try done.
    destruct (toolResult m) as [r|] eqn:Et; [|done]. destruct open as [|id open]; [done|].
    destruct (String.eqb_spec id (res_id r)) as [->|]; [|done]. intros [= <-] c Hc.
    rewrite (pending_result ms m r Er Et) in Hc. apply list_elem_of_In, filter_In in Hc as [Hc Hn].
    apply list_elem_of_In, (IH _ eq_refl), elem_of_cons in Hc as [Hc|?]; [|done].
    rewrite Hc, String.eqb_refl in Hn. done.
  - intros Ho. destruct (not_tool_open _ _ _ Em Ho) as [E0 ->]. intros c Hc.
    destruct (has_calls m) eqn:Eh; [by eapply pending_has_calls|]. exfalso.
    rewrite (pending_said ms m Em) in Hc; [by apply (IH [] E0) in Hc; apply elem_of_nil in Hc|].
    unfold has_calls, calls_of in *. destruct (role m); try done. by destruct (toolCalls m) as [[|]|].
Qed.

Lemma complete_pending ms : complete ms -> pendingToolCalls ms = [].
Proof.
  intros H. destruct (pendingToolCalls ms) as [|c l] eqn:E; [done|]. exfalso.
  apply (elem_of_nil (call_id c)). apply (pending_open ms [] H). rewrite E. by left.
Qed.

Lemma complete_resumable ms : complete ms -> resumable ms.
Proof. intros H. unfold resumable. rewrite (complete_pending ms H). split; [done|constructor]. Qed.

Lemma complete_said ms m : complete ms -> is_tool m = false -> calls_of m = [] -> complete (ms ++ [m]).
Proof. intros H Hm Hc. unfold complete. rewrite opens_snoc, H. cbn. unfold is_tool in Hm. rewrite Hc. by destruct (role m). Qed.

Lemma opens_answer ms call ids out : opens ms = Some (call_id call :: ids) -> opens (ms ++ [result_message call out]) = Some ids.
Proof. intros H. rewrite opens_snoc, H. cbn. by rewrite String.eqb_refl. Qed.

End Agent.
