(* ===== verification/AgentFacts.v ===== *)
(** * What a run of the agent does

    Theorems about [Agent]: what is sent to the model, what survives a crash,
    that a run ends, and what an answer has passed. *)
From stdpp Require Import sorting.
From S2P Require Import Prelude JsNumber Json JsonParse Trace Agent.

Module AgentFacts.
Import Json Trace Agent.

Section run.
Context {world : World} (agent : AgentOptions) (args : LoopArgs).

(** ** Parts of a run that only talk to stores *)

(** Events that are no request, no call of a tool and no checkpoint. *)
Definition quiet (e : event) : bool :=
  match e with Traced _ | Summarized _ | SessionRead | SessionAdded _ => true | _ => false end.

(** What the model's own stop satisfies. *)
Section parts.
Context (I R : list event -> Prop) (Q : stop -> Prop).
Hypothesis R_I : forall t, R t -> I t.
Hypothesis R_quiet : forall t e, quiet e = true -> R t -> R (t ++ [e]).
Hypothesis Q_threw : forall e, Q (Threw e).

Lemma hoare_throw {A} e (Post : A -> list event -> Prop) : hoare I Q R (throw e) Post.
Proof. by apply hoare_fail. Qed.

Lemma hoare_attempt_quiet e fails : quiet e = true ->
  hoare I Q R (attempt e (fun t => may_throw (fails t))) (fun _ => R).
Proof.
  intros He. apply hoare_attempt. intros t Ht. split; [by apply R_I|].
  unfold may_throw. destruct (fails t); [apply Q_threw|]. split; [apply R_I|]; by apply R_quiet.
Qed.

Lemma hoare_same {A} (a : A) : hoare I Q R (mret a) (fun x t => R t /\ x = a).
Proof. apply hoare_ret. intros t Ht. split; [by apply R_I|done]. Qed.

Lemma trace_quiet e : hoare I Q R (trace agent args e) (fun _ => R).
Proof.
  unfold trace. destruct (_ || _); [|by apply hoare_attempt_quiet].
  eapply hoare_conseq; [apply (hoare_same tt)|done|by intros ? ? []].
Qed.

Lemma throwIfCancelled_quiet : hoare I Q R throwIfCancelled (fun _ => R).
Proof.
  unfold throwIfCancelled. apply hoare_asks_bind. intros [e|].
  - apply hoare_fail; [intros t [Ht _]; by apply R_I|apply Q_threw].
  - apply hoare_ret. intros t [Ht _]. split; [by apply R_I|done].
Qed.

Lemma compactMessages_quiet ms fixed policy :
  hoare I Q R (compactMessages ms fixed policy) (fun c t => R t /\
    forall new n, c = Some (new, n) -> exists cut, compaction_cut ms fixed policy = Some cut /\ n = length (take cut ms) /\
      (new = drop cut ms \/ exists summary, new = user_message summary :: drop cut ms)).
Proof.
  unfold compactMessages. destruct (compaction_cut ms fixed policy) as [cut|] eqn:Ec.
  2:{ apply hoare_ret. intros t Ht. split; [by apply R_I|done]. }
  cbv zeta. destruct (negb (summarize policy)).
  - apply hoare_ret. intros t Ht. split; [by apply R_I|]. split; [done|]. intros new n [= <- <-]. exists cut. by split_and!; [..|left].
  - eapply hoare_bind.
    + apply (hoare_emit _ _ _ _ _ (fun _ => R)). intros t Ht. split_and!; [by apply R_I|by apply R_I, R_quiet|].
      unfold or_throw. destruct (summary_of _ _); [by apply R_quiet|apply Q_threw].
    + intros summary. apply hoare_ret. intros t Ht. split; [by apply R_I|]. split; [done|]. intros new n [= <- <-].
      exists cut. split_and!; [done..|right]. by eexists.
Qed.

Lemma persistSession_quiet s : hoare I Q R (persistSession args s) (fun _ => R).
Proof.
  unfold persistSession. destruct (negb _); [|by apply hoare_attempt_quiet].
  eapply hoare_conseq; [apply (hoare_same tt)|done|by intros ? ? []].
Qed.

End parts.

(** A checkpoint: nothing happens without a store or a run's name. *)
Lemma checkpoint_hoare (I R Post : list event -> Prop) (Q : stop -> Prop) turn status txt s :
  (forall e, Q (Threw e)) -> (forall t, R t -> I t) ->
  (let c := {| c_status := status; turnCount := turn; c_messages := messages s; c_toolCalls := executed s; c_text := txt |} in
   forall t, R t -> I (t ++ [Saved c]) /\ Post (t ++ [Saved c])) ->
  (checkpointStore agent && run_named args = false -> forall t, R t -> Post t) ->
  hoare I Q R (checkpoint agent args turn status txt s) (fun _ => Post).
Proof.
  intros HQ Hi Hs Hno. unfold checkpoint. rewrite <- negb_andb. destruct (checkpointStore agent && run_named args); cbn [negb].
  - apply hoare_attempt. intros t Ht. split; [by apply Hi|]. unfold may_throw. destruct (store_fails _ _); [apply HQ|by apply Hs].
  - apply hoare_ret. intros t Ht. split; [by apply Hi|by apply Hno].
Qed.

(** ** A rule for the loop

    An invariant of a run says what holds at the top of a turn, once the model
    has answered or failed, between two calls of tools and at the end; its laws
    are about single steps. *)

Definition saved (turn : nat) (status : CheckpointStatus) (txt : option string) (s : Loop) : event :=
  Saved {| c_status := status; turnCount := turn; c_messages := messages s; c_toolCalls := executed s; c_text := txt |}.

Definition after (call : ToolCall) (out : json) (s : Loop) : Loop :=
  {| messages := messages s ++ [result_message call out];
     executed := executed s ++ [{| e_name := call_name call; e_input := input call; e_result := out |}];
     repairAttempts := repairAttempts s; contextRetried := contextRetried s |}.

Definition repaired (txt e : string) (s : Loop) : Loop :=
  {| messages := messages s ++ [assistant_message txt; user_message (structuredOutputRepairPrompt e)];
     executed := executed s; repairAttempts := S (repairAttempts s); contextRetried := contextRetried s |}.

Definition retried (ms : list AgentMessage) (s : Loop) : Loop :=
  {| messages := ms; executed := executed s; repairAttempts := repairAttempts s; contextRetried := true |}.

Definition known (call : ToolCall) : bool :=
  match List.find (fun t => String.eqb (tool_name t) (call_name call)) (tools agent) with Some _ => true | None => false end.

(** What compaction may leave of [ms]. *)
Definition compacted (ms new : list AgentMessage) : Prop :=
  exists f p cut, compaction_cut ms f p = Some cut /\ (new = drop cut ms \/ exists summary, new = user_message summary :: drop cut ms).

Definition stores : bool := checkpointStore agent && run_named args.

Record Invariant (I : list event -> Prop) := {
  Pending : list ToolCall -> Loop -> list event -> Prop;
  Turn : nat -> Loop -> list event -> Prop;
  Answered : nat -> Loop -> LLMTurn -> list event -> Prop;
  Failed : nat -> Loop -> list event -> Prop;
  Calls : nat -> list ToolCall -> bool -> Loop -> list event -> Prop;
  Finishing : nat -> string -> option json -> Loop -> list event -> Prop;
  Finished : AgentRunResult -> list event -> Prop;

  pending_I c s t : Pending c s t -> I t;
  turn_I n s t : Turn n s t -> I t;
  answered_I n s tu t : Answered n s tu t -> I t;
  failed_I n s t : Failed n s t -> I t;
  calls_I n c b s t : Calls n c b s t -> I t;
  finishing_I n x d s t : Finishing n x d s t -> I t;
  finished_I r t : Finished r t -> I t;

  pending_quiet c s t e : quiet e = true -> Pending c s t -> Pending c s (t ++ [e]);
  turn_quiet n s t e : quiet e = true -> Turn n s t -> Turn n s (t ++ [e]);
  answered_quiet n s tu t e : quiet e = true -> Answered n s tu t -> Answered n s tu (t ++ [e]);
  failed_quiet n s t e : quiet e = true -> Failed n s t -> Failed n s (t ++ [e]);
  calls_quiet n c b s t e : quiet e = true -> Calls n c b s t -> Calls n c b s (t ++ [e]);
  finishing_quiet n x d s t e : quiet e = true -> Finishing n x d s t -> Finishing n x d s (t ++ [e]);

  pending_invoked call rest s t : known call = true -> Pending (call :: rest) s t ->
    I (t ++ [Invoked call]) /\ I ((t ++ [Invoked call]) ++ [saved (startTurn args) Errored None s]) /\
    forall out, Pending rest (after call out s) (t ++ [Invoked call]);
  pending_unknown call rest s t out : known call = false -> Pending (call :: rest) s t -> Pending rest (after call out s) t;
  pending_saved s t : Pending [] s t -> pendingToolCalls (initialMessages args) <> [] ->
    I (t ++ [saved (startTurn args) Running None s]) /\ Turn (startTurn args) s (t ++ [saved (startTurn args) Running None s]);
  pending_done s t : Pending [] s t -> stores = false \/ pendingToolCalls (initialMessages args) = [] -> Turn (startTurn args) s t;

  turn_max n s t : maxTurns agent <= n -> Turn n s t -> I (t ++ [saved (maxTurns agent) Errored None s]);
  turn_compacted n s t ms : Turn n s t -> compacted (messages s) ms -> Turn n (with_messages ms s) t;
  turn_asked n s t : n < maxTurns agent -> Turn n s t ->
    I (t ++ [Asked (messages s)]) /\
    match chat t (messages s) with
    | Ok tu => Answered n s tu (t ++ [Asked (messages s)])
    | Err _ => Failed n s (t ++ [Asked (messages s)])
    end;
  failed_retried n s t ms : contextRetried s = false -> Failed n s t -> compacted (messages s) ms -> Turn n (retried ms s) t;

  answered_error n s tu t txt : Answered n s tu t -> I (t ++ [saved n Errored txt s]);
  answered_repaired n s tu t e : Answered n s tu t -> t_toolCalls tu = [] ->
    let s' := repaired (or_default "" (t_text tu)) e s in
    (I (t ++ [saved (S n) Running None s']) /\ Turn (S n) s' (t ++ [saved (S n) Running None s'])) /\ (stores = false -> Turn (S n) s' t);
  answered_calls n s tu t : Answered n s tu t -> t_toolCalls tu <> [] ->
    Calls n (t_toolCalls tu) true (push (call_message (t_text tu) (t_toolCalls tu)) s) t;
  answered_finishing n s tu t d : Answered n s tu t -> untrusted (stopReason tu) = None -> t_toolCalls tu = [] ->
    run_guardrails t (outputGuardrails agent) (or_default "" (t_text tu)) "output" = Ok tt ->
    match responseSchema args, d with
    | Some schema, Some v => exists j, json_parse (or_default "" (t_text tu)) = Ok j /\ schema j = Ok v
    | None, None => True
    | _, _ => False
    end ->
    Finishing n (or_default "" (t_text tu)) d (push (assistant_message (or_default "" (t_text tu))) s) t;

  calls_invoked n call rest s t txt : known call = true -> Calls n (call :: rest) true s t ->
    I (t ++ [Invoked call]) /\ I ((t ++ [Invoked call]) ++ [saved n Errored txt s]) /\
    forall out, Calls n rest false (after call out s) (t ++ [Invoked call]);
  calls_unknown n call rest s t out : known call = false -> Calls n (call :: rest) true s t -> Calls n rest false (after call out s) t;
  calls_between n call rest s t : Calls n (call :: rest) false s t ->
    (I (t ++ [saved n Running None s]) /\ Calls n (call :: rest) true s (t ++ [saved n Running None s])) /\
    (stores = false -> Calls n (call :: rest) true s t);
  calls_end n b s t : Calls n [] b s t ->
    (I (t ++ [saved (S n) Running None s]) /\ Turn (S n) s (t ++ [saved (S n) Running None s])) /\ (stores = false -> Turn (S n) s t);

  finishing_saved n x d s t : Finishing n x d s t ->
    let r := {| r_text := x; r_toolCalls := executed s; data := d |} in
    (I (t ++ [saved n Done (Some x) s]) /\ Finished r (t ++ [saved n Done (Some x) s])) /\ (stores = false -> Finished r t)
}.

Section rule.
Context (I : list event -> Prop) (V : Invariant I) (Q : stop -> Prop).
Hypothesis Q_threw : forall e, Q (Threw e).

Lemma checkpoint_saves (R Post : list event -> Prop) turn status txt s :
  (forall t, R t -> I t) ->
  (forall t, R t -> (I (t ++ [saved turn status txt s]) /\ Post (t ++ [saved turn status txt s])) /\ (stores = false -> Post t)) ->
  hoare I Q R (checkpoint agent args turn status txt s) (fun _ => Post).
Proof.
  intros HI H. apply checkpoint_hoare; [done..| |].
  - intros c t Ht. exact (proj1 (H t Ht)).
  - intros Hn t Ht. exact (proj2 (H t Ht) Hn).
Qed.

(** A checkpoint before throwing. *)
Lemma checkpoint_throws {A} (R : list event -> Prop) (m : @M event stop A) turn status txt s (Post : A -> list event -> Prop) :
  (forall t, R t -> I t) -> (forall t, R t -> I (t ++ [saved turn status txt s])) ->
  hoare I Q I m Post -> hoare I Q R (checkpoint agent args turn status txt s ;; m) Post.
Proof.
  intros HI H Hm. apply (hoare_bind _ _ _ _ _ (fun _ => I)); [|by intros _].
  apply checkpoint_saves; [done|]. intros t Ht. split; [split; by apply H|by intros _; apply HI].
Qed.

Lemma throw_I {A} e (Post : A -> list event -> Prop) : hoare I Q I (throw e) Post.
Proof. by apply hoare_fail. Qed.

Lemma I_throwIfCancelled {A} e (Post : A -> list event -> Prop) : hoare I Q I (throwIfCancelled ;; throw e) Post.
Proof.
  apply (hoare_bind _ _ _ _ _ (fun _ => I)); [|intros _; apply throw_I]. unfold throwIfCancelled. apply hoare_asks_bind. intros [e'|].
  - apply hoare_fail; [by intros t []|apply Q_threw].
  - apply hoare_ret. by intros t [Ht _].
Qed.

Lemma runToolCall_hoare (B : list event -> Prop) (A : Loop -> list event -> Prop) call turn txt s :
  (forall t, B t -> I t) -> (forall s t, A s t -> I t) ->
  (forall s t e, quiet e = true -> A s t -> A s (t ++ [e])) ->
  (known call = true -> forall t, B t -> I (t ++ [Invoked call]) /\ I ((t ++ [Invoked call]) ++ [saved turn Errored txt s]) /\
     forall out, A (after call out s) (t ++ [Invoked call])) ->
  (known call = false -> forall t out, B t -> A (after call out s) t) ->
  hoare I Q B (runToolCall agent args call turn txt s) A.
Proof.
  intros HB HA Hq Hk Hu. unfold runToolCall.
  apply (hoare_bind _ _ _ _ _ (fun out t => A (after call out.1 s) t)).
  - unfold call_tool. unfold known in *. destruct (List.find _ _) as [tool|].
    2:{ apply hoare_ret. intros t Ht. split; [by apply HB|by apply Hu]. }
    specialize (Hk eq_refl). clear Hu.
    set (Mid := fun t' => exists t, B t /\ t' = t ++ [Invoked call]).
    assert (HMid : forall t, Mid t -> I t) by (intros t' (t & Ht & ->); by apply Hk).
    apply (hoare_bind _ _ _ _ _ (fun _ => Mid)).
    { apply hoare_emit. intros t Ht. split_and!; [by apply HB|by apply Hk|by exists t]. }
    intros [v|err].
    { apply hoare_ret. intros t Hm. split; [by apply HMid|]. destruct Hm as (t0 & Ht & ->). by apply Hk. }
    destruct (isRefusal err).
    { apply checkpoint_throws; [done| |apply throw_I]. intros t' (t & Ht & ->). by apply Hk. }
    apply hoare_asks_bind. intros c. destruct (bool_decide (is_Some c)).
    { apply checkpoint_throws; [intros t [Ht _]; by apply HMid| |apply I_throwIfCancelled].
      intros t' [(t & Ht & ->) _]. by apply Hk. }
    destruct (formatToolInputError (message err)) as [e|].
    + apply hoare_ret. intros t [Hm _]. split; [by apply HMid|]. destruct Hm as (t0 & Ht & ->). by apply Hk.
    + apply hoare_fail; [intros t [Hm _]; by apply HMid|apply Q_threw].
  - intros [out e]. cbn [fst snd]. apply (hoare_bind _ _ _ _ _ (fun _ => A (after call out s))).
    + apply (trace_quiet I (A (after call out s))); [apply HA|apply Hq|done].
    + intros _. apply hoare_ret. intros t Ht. split; [by eapply HA|done].
Qed.

Lemma run_pending_hoare calls : forall s, hoare I Q (Pending I V calls s) (run_pending agent args calls s) (fun s' => Pending I V [] s').
Proof.
  induction calls as [|call calls IH]; intros s; cbn [run_pending].
  - apply hoare_ret. intros t Ht. split; [by eapply pending_I|done].
  - eapply hoare_bind; [|intros s'; apply IH]. apply runToolCall_hoare.
    + intros t Ht. by eapply pending_I.
    + intros s' t Ht. by eapply pending_I.
    + intros s' t e He Ht. by apply pending_quiet.
    + intros Hk t Ht. by eapply pending_invoked.
    + intros Hk t out Ht. by eapply pending_unknown.
Qed.

Lemma run_calls_hoare n txt calls : forall s,
  hoare I Q (fun t => match calls with [] => exists b, Calls I V n [] b s t | _ => Calls I V n calls true s t end)
    (run_calls agent args calls n txt s)
    (fun s' t => (exists b, Calls I V n [] b s' t) /\ contextRetried s' = contextRetried s).
Proof.
  induction calls as [|call calls IH]; intros s; cbn [run_calls].
  - apply hoare_ret. intros t Ht. split; [|done]. destruct Ht as [b Ht]. by eapply calls_I.
  - apply (hoare_bind _ _ _ _ _ (fun s' t => Calls I V n calls false s' t /\ contextRetried s' = contextRetried s)).
    + apply runToolCall_hoare.
      * intros t Ht. by eapply calls_I.
      * intros s' t [Ht _]. by eapply calls_I.
      * intros s' t e He [Ht ?]. split; [by apply calls_quiet|done].
      * intros Hk t Ht. destruct (calls_invoked I V n call calls s t txt Hk Ht) as (H1 & H2 & H3). by split_and!.
      * intros Hk t out Ht. split; [by eapply calls_unknown|done].
    + intros s'. set (R := fun t => match calls with [] => exists b, Calls I V n [] b s' t | _ => Calls I V n calls true s' t end).
      apply (hoare_bind _ _ _ _ _ (fun _ t => R t /\ contextRetried s' = contextRetried s)).
      * unfold R. destruct calls as [|call' calls].
        -- apply hoare_ret. intros t [Ht ?]. split; [by eapply calls_I|]. split; [by exists false|done].
        -- apply checkpoint_saves; [intros t [Ht _]; by eapply calls_I|]. intros t [Ht ?].
           destruct (calls_between I V n call' calls s' t Ht) as [[H1 H2] H3]. by split_and!; auto.
      * intros _ t [Ht <-]. exact (IH s' t Ht).
Qed.

(** Nothing is written by looking at the world. *)
Lemma runGuardrails_hoare {B} (R : list event -> Prop) gs txt stage (f : result error unit -> @M event stop B) Post :
  (forall r, hoare I Q (fun t => R t /\ run_guardrails t gs txt stage = r) (f r) Post) ->
  hoare I Q R (runGuardrails gs txt stage ≫= f) Post.
Proof. intros Hf. by apply hoare_asks_bind. Qed.

Lemma finish_hoare n tu s d :
  untrusted (stopReason tu) = None -> t_toolCalls tu = [] ->
  match responseSchema args, d with
  | Some schema, Some v => exists j, json_parse (or_default "" (t_text tu)) = Ok j /\ schema j = Ok v
  | None, None => True
  | _, _ => False
  end ->
  hoare I Q (Answered I V n s tu) (finish agent args (or_default "" (t_text tu)) n d s) (Finished I V).
Proof.
  intros Hu Hc Hd. unfold finish. set (txt := or_default "" (t_text tu)). set (s' := push (assistant_message txt) s).
  apply (hoare_bind _ _ _ _ _ (fun _ => Finishing I V n txt d s')).
  { unfold guardOutput. apply runGuardrails_hoare. intros [[]|e].
    - apply hoare_ret. intros t [Ht Hg]. split; [by eapply answered_I|by eapply answered_finishing].
    - apply checkpoint_throws; [intros t [Ht _]; by eapply answered_I| |apply throw_I].
      intros t [Ht _]. by eapply answered_error. }
  intros _. apply (hoare_bind _ _ _ _ _ (fun _ => Finishing I V n txt d s')).
  { apply persistSession_quiet; [intros t Ht; by eapply finishing_I|intros t e He; by apply finishing_quiet|done]. }
  intros _. eapply (hoare_bind _ _ _ _ _ (fun _ => Finished I V {| r_text := txt; r_toolCalls := executed s'; data := d |})).
  { apply checkpoint_saves; [intros t Ht; by eapply finishing_I|]. intros t Ht. by apply (finishing_saved I V n). }
  intros _. apply hoare_ret. intros t Ht. split; [by eapply finished_I|done].
Qed.

Lemma compact_hoare n s : hoare I Q (Turn I V n s) (compact agent args n s) (fun s' t => Turn I V n s' t /\ contextRetried s' = contextRetried s).
Proof.
  unfold compact. eapply hoare_bind.
  { apply (compactMessages_quiet I (Turn I V n s)); [intros t Ht; by eapply turn_I|intros t e He; by apply turn_quiet|done]. }
  intros [[ms dropped]|].
  - apply (hoare_bind _ _ _ _ _ (fun _ => Turn I V n (with_messages ms s))).
    + eapply hoare_conseq; [apply (trace_quiet I (Turn I V n (with_messages ms s)))| |done].
      * intros t Ht. by eapply turn_I.
      * intros t e He. by apply turn_quiet.
      * done.
      * intros t [Ht Hc]. destruct (Hc _ _ eq_refl) as (cut & E1 & _ & E2). eapply turn_compacted; [done|]. by eexists _, _, cut.
    + intros _. apply hoare_ret. intros t Ht. split; [by eapply turn_I|done].
  - apply hoare_ret. intros t [Ht _]. split; [by eapply turn_I|done].
Qed.

Lemma emergency_hoare n s : contextRetried s = false ->
  hoare I Q (Failed I V n s) (emergency agent args n s)
    (fun o t => match o with Some s' => Turn I V n s' t /\ contextRetried s' = true | None => Failed I V n s t end).
Proof.
  intros Hr. unfold emergency. eapply hoare_bind.
  { apply (compactMessages_quiet I (Failed I V n s)); [intros t Ht; by eapply failed_I|intros t e He; by apply failed_quiet|done]. }
  intros [[ms dropped]|].
  - apply (hoare_bind _ _ _ _ _ (fun _ => Turn I V n (retried ms s))).
    + eapply hoare_conseq; [apply (trace_quiet I (Turn I V n (retried ms s)))| |done].
      * intros t Ht. by eapply turn_I.
      * intros t e He. by apply turn_quiet.
      * done.
      * intros t [Ht Hc]. destruct (Hc _ _ eq_refl) as (cut & E1 & _ & E2). eapply failed_retried; [done..|]. by eexists _, _, cut.
    + intros _. apply hoare_ret. intros t Ht. split; [by eapply turn_I|done].
  - apply hoare_ret. intros t [Ht _]. split; [by eapply failed_I|done].
Qed.

Lemma llm_failed_hoare {A} n s err (Post : A -> list event -> Prop) : hoare I Q (Failed I V n s) (llm_failed agent args n err) Post.
Proof.
  unfold llm_failed. apply (hoare_bind _ _ _ _ _ (fun _ => Failed I V n s)).
  { apply trace_quiet; [intros t Ht; by eapply failed_I|intros t e He; by apply failed_quiet|done]. }
  intros _. apply (hoare_bind _ _ _ _ _ (fun _ => Failed I V n s)).
  { destruct (isAbortError err).
    - apply throwIfCancelled_quiet; [intros t Ht; by eapply failed_I|done].
    - apply hoare_ret. intros t Ht. split; [by eapply failed_I|done]. }
  intros _. apply hoare_fail; [intros t Ht; by eapply failed_I|done].
Qed.

(** The model gets another chance at the schema, or the run ends. *)
Lemma repair_hoare n s tu e : t_toolCalls tu = [] -> let txt := or_default "" (t_text tu) in
  hoare I Q (Answered I V n s tu)
    (if or_default DEFAULT_MAX_REPAIR_ATTEMPTS (maxRepairAttempts args) <=? repairAttempts s then
       checkpoint agent args n Errored (Some txt) s ;; throw (structured_error agent args e txt)
     else checkpoint agent args (S n) Running None (repaired txt e s) ;; mret (Continue (repaired txt e s)))
    (fun x t => match x with
                | Return r => Finished I V r t
                | Continue s' => Turn I V (S n) s' t /\ contextRetried s' = contextRetried s
                end).
Proof.
  intros Hc txt. destruct (_ <=? _).
  - apply checkpoint_throws; [intros t Ht; by eapply answered_I|intros t Ht; by eapply answered_error|apply throw_I].
  - apply (hoare_bind _ _ _ _ _ (fun _ => Turn I V (S n) (repaired txt e s))).
    + apply checkpoint_saves; [intros t Ht; by eapply answered_I|]. intros t Ht. by apply answered_repaired.
    + intros _. apply hoare_ret. intros t Ht. split; [by eapply turn_I|done].
Qed.

(** A turn's output is an answer, or the loop goes on. *)
Lemma use_turn_hoare n s tu :
  hoare I Q (Answered I V n s tu) (use_turn agent args n tu s)
    (fun x t => match x with
                | Return r => Finished I V r t
                | Continue s' => Turn I V (S n) s' t /\ contextRetried s' = contextRetried s
                end).
Proof.
  unfold use_turn. apply (hoare_bind _ _ _ _ _ (fun _ => Answered I V n s tu)).
  { apply trace_quiet; [intros t Ht; by eapply answered_I|intros t e He; by apply answered_quiet|done]. }
  intros _. destruct (untrusted (stopReason tu)) as [r|] eqn:Eu.
  { apply checkpoint_throws; [intros t Ht; by eapply answered_I|intros t Ht; by eapply answered_error|apply throw_I]. }
  destruct (t_toolCalls tu) as [|call calls] eqn:Ec.
  - destruct (responseSchema args) as [schema|] eqn:Es.
    + unfold parseStructuredOutput. cbv zeta. destruct (json_parse _) as [j|e] eqn:Ej; [|by apply hoare_ret_bind, repair_hoare].
      destruct (schema j) as [d|issues] eqn:Ed.
      * apply hoare_ret_bind. eapply hoare_bind; [apply finish_hoare; [done..|]; rewrite Es; by exists j|].
        intros r. apply hoare_ret. intros t Ht. split; [by eapply finished_I|done].
      * destruct (formatZodIssues issues) as [e|]; [by apply hoare_ret_bind, repair_hoare|].
        apply hoare_fail_bind; [intros t Ht; by eapply answered_I|done].
    + eapply hoare_bind; [apply finish_hoare; [done..|]; by rewrite Es|].
      intros r. apply hoare_ret. intros t Ht. split; [by eapply finished_I|done].
  - set (s' := push _ s). eapply hoare_bind.
    + eapply hoare_conseq; [apply (run_calls_hoare n (t_text tu) (call :: calls) s')| |done].
      intros t Ht. cbn beta iota. unfold s'. rewrite <- Ec. apply answered_calls; [done|by rewrite Ec].
    + intros s2. apply (hoare_bind _ _ _ _ _ (fun _ t => Turn I V (S n) s2 t /\ contextRetried s2 = contextRetried s)).
      * apply checkpoint_saves; [intros t [[b Ht] _]; by eapply calls_I|]. intros t [[b Ht] Hr].
        destruct (calls_end I V n b s2 t Ht) as [[H1 H2] H3]. by split_and!; auto.
      * intros _. apply hoare_ret. intros t [Ht Hr]. split; [by eapply turn_I|done].
Qed.

Lemma turns_hoare fuel : forall n s, maxTurns agent - n + (if contextRetried s then 0 else 1) < fuel ->
  hoare I Q (Turn I V n s) (turns agent args fuel n s) (Finished I V).
Proof.
  induction fuel as [|fuel IH]; intros n s Hfuel; [lia|]. cbn [turns].
  destruct (Nat.leb_spec (maxTurns agent) n) as [Hmax|Hlt].
  { apply checkpoint_throws; [intros t Ht; by eapply turn_I|intros t Ht; by eapply turn_max|apply throw_I]. }
  apply (hoare_bind _ _ _ _ _ (fun _ => Turn I V n s)).
  { apply throwIfCancelled_quiet; [intros t Ht; by eapply turn_I|done]. }
  intros _. eapply hoare_bind; [apply compact_hoare|]. intros s1. cbv beta.
  apply (hoare_bind _ _ _ _ _ (fun r t => contextRetried s1 = contextRetried s /\
    match r with Ok tu => Answered I V n s1 tu t | Err _ => Failed I V n s1 t end)).
  { apply hoare_emit. intros t [Ht Hr]. destruct (turn_asked I V n s1 t Hlt Ht) as [H1 H2].
    split_and!; [by eapply turn_I|done|done|by destruct (chat t (messages s1))]. }
  intros [tu|err].
  - eapply hoare_bind.
    + intros t [Hr Ht]. destruct (use_turn_hoare n s1 tu t Ht) as (new & E & Hi & HP). exists new. split_and!; [done..|].
      instantiate (1 := fun x t => match x with Return r => Finished I V r t
        | Continue s' => Turn I V (S n) s' t /\ contextRetried s' = contextRetried s end).
      destruct (use_turn agent args n tu s1 t).2 as [[]|]; [done|by rewrite <- Hr|done].
    + intros [r|s2].
      * apply hoare_ret. intros t Ht. split; [by eapply finished_I|done].
      * intros t [Ht Hr]. apply IH; [|done]. rewrite Hr. destruct (contextRetried s); lia.
  - destruct (isOverflow err && negb (contextRetried s1)) eqn:Eo.
    + apply andb_true_iff in Eo as [_ Eo%negb_true_iff].
      apply (hoare_bind _ _ _ _ _ (fun o t => contextRetried s = false /\
        match o with Some s' => Turn I V n s' t /\ contextRetried s' = true | None => Failed I V n s1 t end)).
      * intros t [Hr Ht]. destruct (emergency_hoare n s1 Eo t Ht) as (new & E & Hi & HP). exists new. split_and!; [done..|].
        destruct (emergency agent args n s1 t).2 as [[]|]; [split; [congruence|done]..|done].
      * intros [s2|].
        -- intros t (Hr & Ht & Hr2). apply IH; [|done]. rewrite Hr2. rewrite Hr in Hfuel. lia.
        -- eapply hoare_conseq; [apply (llm_failed_hoare n s1)|by intros t []|done].
    + eapply hoare_conseq; [apply (llm_failed_hoare n s1)|by intros t []|done].
Qed.

Definition start_state : Loop :=
  {| messages := initialMessages args; executed := initialExecuted args; repairAttempts := 0; contextRetried := false |}.

(** The whole run; the fuel is enough, so it never stops for lack of it. *)
Lemma loopWith_hoare :
  hoare I Q (Pending I V (pendingToolCalls (initialMessages args)) start_state) (loopWith agent args) (Finished I V).
Proof.
  unfold loopWith. cbv zeta. change {| messages := _; executed := _; repairAttempts := 0; contextRetried := false |} with start_state.
  eapply hoare_bind; [apply run_pending_hoare|]. intros s. cbv beta.
  apply (hoare_bind _ _ _ _ _ (fun _ => Turn I V (startTurn args) s)).
  - cbn [start_state messages]. destruct (pendingToolCalls (initialMessages args)) as [|c l] eqn:Ep.
    + apply hoare_ret. intros t Ht. split; [by eapply pending_I|]. apply pending_done; [done|by right].
    + apply checkpoint_saves; [intros t Ht; by eapply pending_I|]. intros t Ht. split.
      * apply pending_saved; [done|by rewrite Ep].
      * intros Hs. apply pending_done; [done|by left].
  - intros _. apply turns_hoare. destruct (contextRetried s); lia.
Qed.

End rule.

(** ** Histories: what is sent, and what is saved *)

(** A model gives the calls of a turn ids of their own. *)
Definition fresh_ids : Prop := forall t ms tu, chat t ms = Ok tu ->
  NoDup (map call_id (t_toolCalls tu)) /\ forall c, c ∈ t_toolCalls tu -> call_id c ∉ answered_ids ms.

Section histories.
(** [F] is what is assumed for the checkpoints. *)
Context (F : Prop).
Hypothesis F_fresh : F -> fresh_ids.

Definition history_ok (e : event) : Prop :=
  match e with Asked ms => complete ms | Saved c => F -> resumable (c_messages c) | _ => True end.

(** The calls that are left, with the history they are left in. *)
Definition left_open (rest : list ToolCall) (s : Loop) : Prop :=
  opens (messages s) = Some (map call_id rest) /\ (F -> pendingToolCalls (messages s) = rest /\ NoDup (map call_id rest)).

Lemma history_snoc t e : Forall history_ok t -> history_ok e -> Forall history_ok (t ++ [e]).
Proof. intros Ht He. apply Forall_app. split; [done|]. by constructor. Qed.

Lemma history_quiet t e : quiet e = true -> Forall history_ok t -> Forall history_ok (t ++ [e]).
Proof. intros He Ht. apply history_snoc; [done|]. by destruct e. Qed.

Lemma history_saved t turn status txt s : Forall history_ok t -> (F -> resumable (messages s)) ->
  Forall history_ok (t ++ [saved turn status txt s]).
Proof. intros Ht Hs. by apply history_snoc. Qed.

Lemma left_open_resumable rest s : left_open rest s -> F -> resumable (messages s).
Proof. intros [Ho HF] [Hp Hn]%HF. unfold resumable. by rewrite Hp. Qed.

Lemma left_open_after call rest out s : left_open (call :: rest) s -> left_open rest (after call out s).
Proof.
  intros [Ho HF]. split; [by apply opens_answer|]. intros [Hp Hn]%HF. cbn [after messages map] in *.
  apply NoDup_cons in Hn as [Hc Hn]. split; [|done].
  rewrite (pending_result (messages s) (result_message call out) _ eq_refl eq_refl), Hp. cbn [List.filter res_id].
  rewrite String.eqb_refl. cbn [negb]. clear -Hc. induction rest as [|c rest IH]; [done|]. cbn [List.filter map] in *.
  apply not_elem_of_cons in Hc as [Hne Hc]. rewrite (proj2 (String.eqb_neq _ _)) by congruence. cbn [negb]. by rewrite IH.
Qed.

Lemma left_open_nil s : left_open [] s -> complete (messages s).
Proof. by intros [Ho _]. Qed.

Lemma left_open_calls s tu : complete (messages s) -> t_toolCalls tu <> [] ->
  (F -> NoDup (map call_id (t_toolCalls tu)) /\ forall c, c ∈ t_toolCalls tu -> call_id c ∉ answered_ids (messages s)) ->
  left_open (t_toolCalls tu) (push (call_message (t_text tu) (t_toolCalls tu)) s).
Proof.
  intros Hc Hne HF. split.
  - cbn [push with_messages messages]. rewrite opens_snoc, Hc. done.
  - intros [Hn Hfr]%HF. split; [|done]. by apply pending_calls.
Qed.

Lemma compacted_complete ms new : complete ms -> compacted ms new -> complete new.
Proof.
  intros Hc (f & p & cut & Hcut & [->|[summary ->]]); [by eapply cut_opens|].
  unfold complete, opens. cbn [foldl open_step mbind option_bind role user_message calls_of].
  exact (cut_opens ms f p cut [] Hc Hcut).
Qed.

Lemma complete_repaired txt e s : complete (messages s) -> complete (messages (repaired txt e s)).
Proof.
  intros Hc. cbn [repaired messages].
  change [assistant_message txt; user_message ?x] with ([assistant_message txt] ++ [user_message x]). rewrite app_assoc.
  by apply complete_said; [apply complete_said|..].
Qed.

Lemma complete_answer txt s : complete (messages s) -> complete (messages (push (assistant_message txt) s)).
Proof. intros Hc. by apply complete_said. Qed.

Lemma asked_answered t s : Forall history_ok t -> complete (messages s) ->
  match chat t (messages s) with
  | Ok tu => Forall history_ok (t ++ [Asked (messages s)]) /\ complete (messages s) /\
      (F -> NoDup (map call_id (t_toolCalls tu)) /\ forall c, c ∈ t_toolCalls tu -> call_id c ∉ answered_ids (messages s))
  | Err _ => Forall history_ok (t ++ [Asked (messages s)]) /\ complete (messages s)
  end.
Proof.
  intros Ht Hc. destruct (chat t (messages s)) as [tu|] eqn:E; split_and!; [by apply history_snoc|done| |by apply history_snoc|done].
  intros HF. by eapply F_fresh.
Qed.

Definition histories : Invariant (Forall history_ok).
Proof.
  refine {|
    Pending := fun rest s t => Forall history_ok t /\ left_open rest s;
    Turn := fun _ s t => Forall history_ok t /\ complete (messages s);
    Answered := fun _ s tu t => Forall history_ok t /\ complete (messages s) /\
      (F -> NoDup (map call_id (t_toolCalls tu)) /\ forall c, c ∈ t_toolCalls tu -> call_id c ∉ answered_ids (messages s));
    Failed := fun _ s t => Forall history_ok t /\ complete (messages s);
    Calls := fun _ rest _ s t => Forall history_ok t /\ left_open rest s;
    Finishing := fun _ _ _ s t => Forall history_ok t /\ complete (messages s);
    Finished := fun _ t => Forall history_ok t |};
    try (by intros; destruct_and?); try (by intros; destruct_and?; split_and?; [apply history_quiet|..]).
  all: try subst s'; intros; destruct_and?; split_and?; intros; split_and?;
    repeat first [done | apply history_saved | apply history_snoc | by eapply left_open_after | by eapply left_open_resumable
                 | by apply left_open_nil | by apply complete_resumable | by apply complete_repaired | by apply complete_answer
                 | by eapply compacted_complete | by apply left_open_calls
                 | by intros; eapply left_open_resumable | by intros; apply complete_resumable, complete_repaired
                 | by intros; apply complete_resumable ].
  by apply asked_answered.
Defined.

End histories.


(** ** Crashes: what is recorded *)

Definition known_name (x : string) : bool :=
  match List.find (fun t => String.eqb (tool_name t) x) (tools agent) with Some _ => true | None => false end.

(** The calls in a log that are of tools there are. *)
Definition recorded (l : list Executed) : list (string * json) :=
  map (fun e => (e_name e, e_input e)) (List.filter (fun e => known_name (e_name e)) l).

(** The calls of tools that were made. *)
Definition invoked (t : list event) : list (string * json) :=
  omap (fun e => match e with Invoked c => Some (call_name c, input c) | _ => None end) t.

(** The log a resumed run would find. *)
Definition last_saved (t : list event) : list Executed :=
  foldl (fun log e => match e with Saved c => c_toolCalls c | _ => log end) (initialExecuted args) t.

(** All but the last [k] calls that were made are in the last checkpoint. *)
Definition durable (k : nat) (t : list event) : Prop :=
  exists rest, length rest <= k /\ recorded (last_saved t) ++ rest = recorded (initialExecuted args) ++ invoked t.

Definition logged (s : Loop) (t : list event) : Prop :=
  recorded (executed s) = recorded (initialExecuted args) ++ invoked t.

Lemma invoked_snoc t e : invoked (t ++ [e]) = invoked t ++ match e with Invoked c => [(call_name c, input c)] | _ => [] end.
Proof. unfold invoked. rewrite omap_app. by destruct e. Qed.

Lemma last_saved_snoc t e : last_saved (t ++ [e]) = match e with Saved c => c_toolCalls c | _ => last_saved t end.
Proof. unfold last_saved. by rewrite foldl_app. Qed.

Lemma durable_mono t : durable 0 t -> durable 1 t.
Proof. intros (rest & Hl & E). exists rest. split; [lia|done]. Qed.

Lemma durable_other k t e : match e with Saved _ | Invoked _ => False | _ => True end -> durable k t -> durable k (t ++ [e]).
Proof.
  intros He (rest & Hl & E). exists rest. rewrite invoked_snoc, last_saved_snoc. destruct e; try done; by rewrite app_nil_r.
Qed.

Lemma logged_other s t e : match e with Invoked _ => False | _ => True end -> logged s t -> logged s (t ++ [e]).
Proof. intros He E. unfold logged. rewrite invoked_snoc. destruct e; try done; by rewrite app_nil_r. Qed.

Lemma durable_saved turn status txt s t : logged s t -> durable 0 (t ++ [saved turn status txt s]).
Proof. intros E. exists []. rewrite invoked_snoc, last_saved_snoc, !app_nil_r. split; [done|exact E]. Qed.

Lemma logged_invoked call out s t : known call = true -> logged s t -> logged (after call out s) (t ++ [Invoked call]).
Proof.
  intros Hk E. unfold logged, recorded in *. rewrite invoked_snoc, app_assoc, <- E. cbn [after executed].
  rewrite List.filter_app, map_app. cbn [List.filter e_name]. unfold known in Hk. unfold known_name. by destruct (List.find _ _).
Qed.

Lemma logged_unknown call out s t : known call = false -> logged s t -> logged (after call out s) t.
Proof.
  intros Hk E. unfold logged, recorded in *. rewrite <- E. cbn [after executed].
  rewrite List.filter_app, map_app. cbn [List.filter e_name]. unfold known in Hk. unfold known_name.
  destruct (List.find _ _); [done|]. by rewrite app_nil_r.
Qed.

Lemma durable_invoked call t : durable 0 t -> durable 1 (t ++ [Invoked call]).
Proof.
  intros (rest & Hl & E). destruct rest; [|cbn in Hl; lia]. rewrite app_nil_r in E.
  exists [(call_name call, input call)]. split; [done|]. by rewrite invoked_snoc, last_saved_snoc, E, app_assoc.
Qed.

Definition safe (s : Loop) (t : list event) : Prop := durable 0 t /\ logged s t.

Lemma safe_quiet s t e : quiet e = true -> safe s t -> safe s (t ++ [e]).
Proof. intros He [Hd Hl]. split; [apply durable_other|apply logged_other]; by destruct e. Qed.

Lemma safe_saved turn status txt s t : logged s t -> safe s (t ++ [saved turn status txt s]).
Proof. intros Hl. split; [by apply durable_saved|by apply logged_other]. Qed.

Lemma safe_I s t : safe s t -> durable 1 t.
Proof. intros [Hd _]. by apply durable_mono. Qed.

Lemma durable_saved_1 turn status txt s t : logged s t -> durable 1 (t ++ [saved turn status txt s]).
Proof. intros Hl. by apply durable_mono, durable_saved. Qed.

Lemma durable_bound b t : durable (if b : bool then 0 else 1) t -> durable 1 t.
Proof. destruct b; [apply durable_mono|done]. Qed.

(** A call that ends the run is the one that is not in the log. *)
Lemma invoked_error call turn txt s t : logged s t -> durable 1 ((t ++ [Invoked call]) ++ [saved turn Errored txt s]).
Proof.
  intros Hl. exists [(call_name call, input call)]. split; [done|].
  rewrite invoked_snoc, last_saved_snoc, app_nil_r, invoked_snoc, app_assoc. f_equal. exact Hl.
Qed.

Definition durability (Hstores : stores = true) (Hpending : pendingToolCalls (initialMessages args) = []) : Invariant (durable 1).
Proof.
  refine {|
    Pending := fun rest s t => rest = [] /\ safe s t;
    Turn := fun _ s t => safe s t;
    Answered := fun _ s _ t => safe s t;
    Failed := fun _ s t => safe s t;
    Calls := fun _ rest b s t => durable (if b then 0 else 1) t /\ logged s t;
    Finishing := fun _ _ _ s t => safe s t;
    Finished := fun r t => durable 0 t /\ recorded (r_toolCalls r) = recorded (initialExecuted args) ++ invoked t |}.
  all: try congruence; intros; subst; destruct_and?; try done; try (by eapply safe_I); try (by eapply durable_bound);
    try (by apply durable_mono); try (by apply safe_quiet); try (by split; [|apply safe_quiet]).
  all: repeat match goal with H : safe _ _ |- _ => destruct H end.
  all: try (split; [apply durable_other; by destruct e|apply logged_other; by destruct e]).
  all: split_and?; intros; split_and?; try congruence;
    repeat first [done | by apply durable_saved_1 | by apply durable_saved | by apply invoked_error | by apply safe_saved
      | by apply durable_mono, durable_invoked | by apply durable_invoked | by apply logged_invoked | by apply logged_unknown
      | by apply durable_other | by apply logged_other].
  - by apply durable_mono, durable_other.
  - destruct (chat t (messages s)); by split; [apply durable_other|apply logged_other].
  - by apply durable_mono.
Defined.


(** ** The end of a run *)

Definition asked_count (t : list event) : nat := length (List.filter (fun e => match e with Asked _ => true | _ => false end) t).

Lemma asked_count_snoc t e : asked_count (t ++ [e]) = asked_count t + match e with Asked _ => 1 | _ => 0 end.
Proof. unfold asked_count. rewrite List.filter_app, length_app. by destruct e. Qed.

Definition budget : nat := maxTurns agent - startTurn args + 1.

(** The requests made so far and those that may follow, [left] turns and a
    retry. *)
Definition within (left : nat) (s : Loop) (t : list event) : Prop :=
  asked_count t + left + (if contextRetried s then 0 else 1) <= budget.

Lemma within_other left s t e : match e with Asked _ => False | _ => True end -> within left s t -> within left s (t ++ [e]).
Proof. unfold within. rewrite asked_count_snoc. destruct e; try done; intros _; lia. Qed.

Definition termination : Invariant (fun t => asked_count t <= budget).
Proof.
  refine {|
    Pending := fun _ s t => within (maxTurns agent - startTurn args) s t;
    Turn := fun n s t => within (maxTurns agent - n) s t;
    Answered := fun n s _ t => within (maxTurns agent - S n) s t;
    Failed := fun n s t => within (maxTurns agent - S n) s t;
    Calls := fun n _ _ s t => within (maxTurns agent - S n) s t;
    Finishing := fun _ _ _ s t => within 0 s t;
    Finished := fun _ t => asked_count t <= budget |};
    try (by intros; apply within_other; [destruct e|]).
  all: unfold within; intros; cbv zeta; split_and?; intros; try (destruct (chat _ _)); rewrite ?asked_count_snoc;
    cbn [saved contextRetried after with_messages push repaired retried] in *; try lia.
  match goal with H : contextRetried _ = false, H' : _ |- _ => rewrite H in H'; lia end.
Defined.

(** [C40] A run ends: it asks the model at most once for each turn it has left,
    and once more after a request that was too long; and no run stops for lack
    of fuel. *)
Theorem run_terminates :
  let '(t, r) := loopWith agent args [] in
  asked_count t <= maxTurns agent - startTurn args + 1 /\ r <> Err OutOfFuel.
Proof.
  assert (Hq : forall e, Threw e <> OutOfFuel) by done.
  pose proof (hoare_run _ _ _ _ _ (loopWith_hoare _ termination (fun s => s <> OutOfFuel) Hq)) as Hrun.
  destruct (loopWith agent args []) as [t r]. cbn [fst snd] in Hrun. destruct Hrun as (_ & Ht & Hr).
  { cbn. unfold within, budget. cbn. lia. }
  split; [exact Ht|]. intros ->. by apply Hr.
Qed.

(** ** Answers *)

(** The model's last turn, and nothing asked since. *)
Definition last_turn (t : list event) (tu : LLMTurn) : Prop :=
  exists t1 ms t2, t = t1 ++ Asked ms :: t2 /\ Forall (fun e => match e with Asked _ => False | _ => True end) t2 /\ chat t1 ms = Ok tu.

(** [x] is an answer the run may give: the text of the model's last turn, which
    was neither cut off nor suppressed, asked for no tool, and passed every
    guardrail; [d] is what it parses to, under the schema if there is one. *)
Definition acceptable (x : string) (d : option json) (t : list event) : Prop :=
  exists tu t' later, last_turn t tu /\ untrusted (stopReason tu) = None /\ t_toolCalls tu = [] /\ x = or_default "" (t_text tu) /\
    t = t' ++ later /\ run_guardrails t' (outputGuardrails agent) x "output" = Ok tt /\
    match responseSchema args, d with
    | Some schema, Some v => exists j, json_parse x = Ok j /\ schema j = Ok v
    | None, None => True
    | _, _ => False
    end.

Definition recorded_done (r : AgentRunResult) (t : list event) : Prop :=
  stores = true -> exists t0 c, t = t0 ++ [Saved c] /\ c_status c = Done /\ c_text c = Some (r_text r) /\ c_toolCalls c = r_toolCalls r.

Lemma last_turn_snoc t tu e : match e with Asked _ => False | _ => True end -> last_turn t tu -> last_turn (t ++ [e]) tu.
Proof.
  intros He (t1 & ms & t2 & -> & Ha & Hc). exists t1, ms, (t2 ++ [e]). rewrite <- app_assoc. split_and!; [done| |done].
  apply Forall_app. split; [done|]. by constructor.
Qed.

Lemma acceptable_snoc x d t e : match e with Asked _ => False | _ => True end -> acceptable x d t -> acceptable x d (t ++ [e]).
Proof.
  intros He (tu & t' & later & Hl & H1 & H2 & H3 & -> & H4 & H5). exists tu, t', (later ++ [e]).
  split_and!; try done; [by apply last_turn_snoc|by rewrite app_assoc].
Qed.

Definition answers : Invariant (fun _ => True).
Proof.
  refine {|
    Pending := fun _ _ _ => True;
    Turn := fun _ _ _ => True;
    Answered := fun _ _ tu t => last_turn t tu;
    Failed := fun _ _ _ => True;
    Calls := fun _ _ _ _ _ => True;
    Finishing := fun _ x d _ t => acceptable x d t;
    Finished := fun r t => acceptable (r_text r) (data r) t /\ recorded_done r t |}; try done.
  - intros n s tu t e He. apply last_turn_snoc. by destruct e.
  - intros n x d s t e He. apply acceptable_snoc. by destruct e.
  - intros n s t _ _. split; [done|]. destruct (chat t (messages s)) as [tu|] eqn:E; [|done]. exists t, (messages s), []. by split_and!.
  - intros n s tu t d Hl Hu Hc Hg Hd. exists tu, t, []. split_and!; try done. by rewrite app_nil_r.
  - intros n x d s t Ha. cbv zeta. split; [split; [done|split]|intros Hs; split].
    + by apply acceptable_snoc.
    + intros _. by eexists t, _.
    + done.
    + intros Hs'. congruence.
Defined.

(** [C16] What a run returns was checked: it is the text of the model's last
    turn, which the provider did not report as cut off, filtered or refused and
    which asked for no tool; every output guardrail passed it; with a response
    schema it parsed and the data is what the schema made of it; and when there
    is a store the last thing done was to record it, finished, with all calls. *)
Theorem answer_checked res :
  (loopWith agent args []).2 = Ok res ->
  let t := (loopWith agent args []).1 in acceptable (r_text res) (data res) t /\ recorded_done res t.
Proof.
  intros Hr. destruct (hoare_run _ _ _ _ _ (loopWith_hoare _ answers (fun _ => True) (fun _ => Logic.I))) as (_ & _ & Hf); [done|].
  by rewrite Hr in Hf.
Qed.

End run.

(** ** Compaction *)

(** The estimated size of what a cut at [j] leaves. *)
Definition remaining (ms : list AgentMessage) (j : nat) : Z := sum_Z (drop j (map estimateMessageTokens ms)).
Definition allowance (f : Z) (p : ContextPolicy) (max : Z) : Z := (max - or_default DEFAULT_RESERVE_TOKENS (reserveTokens p) - f)%Z.

(** A place to cut: something is said there, and it is not in the protected tail. *)
Definition candidate (ms : list AgentMessage) (p : ContextPolicy) (j : nat) : Prop :=
  j ∈ groupBoundaries ms /\
  (Z.of_nat j < Z.max 0 (Z.of_nat (length ms) - or_default DEFAULT_KEEP_RECENT (keepRecentMessages p)))%Z.

Lemma boundaries_sorted ms : forall i, StronglySorted lt (boundaries_from i ms).
Proof.
  induction ms as [|m ms IH]; intros i; cbn [boundaries_from]; [constructor|].
  destruct (is_tool m); [apply IH|]. constructor; [apply IH|]. apply Forall_forall. intros j Hj.
  apply elem_of_boundaries in Hj as (_ & Hle & _). lia.
Qed.

Lemma filter_sorted (f : nat -> bool) l : StronglySorted lt l -> StronglySorted lt (List.filter f l).
Proof.
  induction 1 as [|x l Hs IH Hx]; cbn [List.filter]; [constructor|]. destruct (f x); [|done]. constructor; [done|].
  rewrite Forall_forall in *. intros y [Hy _]%list_elem_of_In%filter_In. apply Hx. by apply list_elem_of_In.
Qed.

Lemma choose_cut_spec tokens b starts : forall cut,
  choose_cut tokens b starts cut = cut /\ starts = [] \/
  exists l r, starts = l ++ choose_cut tokens b starts cut :: r /\ Forall (fun j => (b < sum_Z (drop j tokens))%Z) l /\
    ((sum_Z (drop (choose_cut tokens b starts cut) tokens) <= b)%Z \/ r = []).
Proof.
  induction starts as [|x starts IH]; intros cut; cbn [choose_cut]; [by left|right].
  destruct (Z.leb_spec (sum_Z (drop x tokens)) b) as [Hfit|Hbig].
  - exists [], starts. split_and!; [done|constructor|by left].
  - destruct (IH x) as [[E ->]|(l & r & E & Hl & Hr)].
    + rewrite E. exists [], []. split_and!; [done|constructor|by right].
    + exists (x :: l), r. split_and!; [|by constructor|done]. cbn [app]. by f_equal.
Qed.

Lemma sorted_split (l r : list nat) x j : StronglySorted lt (l ++ x :: r) -> j ∈ l ++ x :: r ->
  (j < x -> j ∈ l) /\ (x < j -> j ∈ r).
Proof.
  intros Hs Hj. apply elem_of_app in Hj as [Hl|Hr].
  - split; [done|]. intros Hlt. pose proof (StronglySorted_app_1_elem_of _ l (x :: r) j x Hs Hl (list_elem_of_here _ _)). lia.
  - apply StronglySorted_app_1_r, StronglySorted_inv in Hs as [_ Hs]. rewrite Forall_forall in Hs.
    apply elem_of_cons in Hr as [->|Hr]; [lia|]. specialize (Hs j Hr). split; [lia|done].
Qed.

Lemma elem_of_candidates ms p j :
  j ∈ List.filter (fun i => (Z.of_nat i <? Z.max 0 (Z.of_nat (length ms) - or_default DEFAULT_KEEP_RECENT (keepRecentMessages p)))%Z)
        (groupBoundaries ms) <-> candidate ms p j.
Proof. unfold candidate. rewrite !list_elem_of_In, filter_In, Z.ltb_lt. done. Qed.

(** Compaction drops as little as it may. It leaves a history that fits
    alone; it cuts only where something is said and outside the protected tail,
    at the first such place that makes the history fit, or at the last one when
    none does; and it gives up only when there is no such place but the start. *)
Theorem compaction_spec ms f p max :
  maxInputTokens p = Some max ->
  match compaction_cut ms f p with
  | None => (remaining ms 0 <= allowance f p max)%Z \/ forall j, candidate ms p j -> j = 0
  | Some cut =>
      (allowance f p max < remaining ms 0)%Z /\ 0 < cut /\ candidate ms p cut /\
      (forall j, candidate ms p j -> j < cut -> (allowance f p max < remaining ms j)%Z) /\
      ((remaining ms cut <= allowance f p max)%Z \/ forall j, candidate ms p j -> j <= cut)
  end.
Proof.
  intros Hmax. unfold compaction_cut, allowance. rewrite Hmax. cbv zeta. set (b := (max - _ - f)%Z).
  change (sum_Z (map estimateMessageTokens ms)) with (remaining ms 0).
  destruct (Z.leb_spec (remaining ms 0) b) as [Hfit|Hbig]; [by left|].
  set (starts := List.filter _ _). set (tokens := map estimateMessageTokens ms).
  assert (Hs : StronglySorted lt starts) by apply filter_sorted, boundaries_sorted.
  assert (Hc : forall j, j ∈ starts <-> candidate ms p j) by (intros j; apply elem_of_candidates).
  destruct (choose_cut_spec tokens b starts 0) as [[E1 E2]|(l & r & E1 & Hl & Hr)].
  { rewrite E1. right. intros j Hj%Hc. rewrite E2 in Hj. by apply elem_of_nil in Hj. }
  destruct (choose_cut tokens b starts 0) as [|k] eqn:Ek; rewrite E1 in Hs.
  - right. intros j Hj%Hc. rewrite E1 in Hj. destruct (sorted_split l r 0 j Hs Hj) as [_ H2].
    destruct Hr as [Hr| ->]; [change (remaining ms 0 <= b)%Z in Hr; lia|].
    destruct j; [done|]. specialize (H2 ltac:(lia)). by apply elem_of_nil in H2.
  - rewrite Forall_forall in Hl. split_and!; [done|lia| | |].
    + apply Hc. rewrite E1. apply elem_of_app. right. by left.
    + intros j Hj%Hc Hlt. rewrite E1 in Hj. apply Hl. by apply (sorted_split l r (S k) j Hs Hj).
    + destruct Hr as [Hr| ->]; [by left|right]. intros j Hj%Hc. rewrite E1 in Hj.
      destruct (sorted_split l [] (S k) j Hs Hj) as [_ H2]. destruct (decide (S k < j)) as [Hlt|]; [|lia].
      specialize (H2 Hlt). by apply elem_of_nil in H2.
Qed.

(** ** Sessions, ids and limits *)

(** A tool, and an agent that has it, compacts to [max] tokens and keeps no
    tail. *)
Definition demo_tool : Tool := {| tool_name := "save"; description := ""; inputSchema := JNull |}.
Definition demo_agent (max : option Z) : AgentOptions :=
  {| name := "a"; systemPrompt := None; tools := [demo_tool]; maxTurns := 5; checkpointStore := true; tracer := false;
     tracePayloads := false; inputGuardrails := []; outputGuardrails := []; timeoutMs := None; toolTimeoutMs := Some 1000%Z;
     context := {| maxInputTokens := max; reserveTokens := Some 0%Z; keepRecentMessages := None; summarize := false |} |}.

Definition demo_call (id : string) (n : Z) : ToolCall := {| call_id := id; call_name := "save"; input := JNum n |}.
Definition asks_for (calls : list ToolCall) : LLMTurn := {| t_text := None; t_toolCalls := calls; stopReason := None; usage := None |}.
Definition says (s : string) : LLMTurn := {| t_text := Some s; t_toolCalls := []; stopReason := Some End_; usage := None |}.

(** A world whose model answers from a script and whose session has [items]. *)
Definition demo_world (script : list LLMTurn) (items : list AgentMessage) : World :=
  {| chat := fun t _ => Ok (nth (asked_count t) script (says "done")); invoke := fun _ c => Ok (input c);
     cancelled := fun _ => None; store_fails := fun _ _ => None; tracer_fails := fun _ _ => None;
     summary_of := fun _ _ => Ok ""; session_items := fun _ => Ok items; session_fails := fun _ _ => None;
     json_parse := fun _ => Err ""; redact := id |}.

Definition demo_opts (id : option string) (session : bool) : RunOptions :=
  {| o_runId := id; o_session := session; o_schema := None; o_maxRepairAttempts := None |}.

Definition added (t : list event) : list AgentMessage := mjoin (omap (fun e => match e with SessionAdded l => Some l | _ => None end) t).
Definition requests (t : list event) : list (list AgentMessage) := omap (fun e => match e with Asked ms => Some ms | _ => None end) t.
Definition checkpoints (t : list event) : list CheckpointedRun := omap (fun e => match e with Saved c => Some c | _ => None end) t.

(** A text of [n] characters. *)
Definition long (n : nat) : string := foldr (fun _ s => String "x" s) "" (seq 0 n).

(** Eight messages of a session, the first two long. *)
Definition demo_session : list AgentMessage :=
  [user_message (long 400); assistant_message (long 400); user_message "b"; assistant_message "c"; user_message "d";
   assistant_message "e"; user_message "f"; assistant_message "g"].

(** A session is damaged by the first run that compacts: what is added to it is
    cut off the compacted history by the length the history had before. Here a
    run that called a tool adds its result without the call, and the question
    is lost; every later run of the session sends a request that no vendor
    accepts. *)
Theorem session_damaged :
  let t := (run (world := demo_world [asks_for [demo_call "c1" 1]] demo_session) (demo_agent (Some 112%Z)) "q" (demo_opts None true) []).1 in
  let session := demo_session ++ added t in
  let t' := (run (world := demo_world [] session) (demo_agent None) "r" (demo_opts None true) []).1 in
  opens demo_session = Some [] /\ added t = [result_message (demo_call "c1" 1) (JNum 1); assistant_message "done"] /\
  Forall (fun ms => opens ms = None) (requests t') /\ requests t' <> [].
Proof. vm_compute. split_and!; try done. by repeat constructor. Qed.

(** With ids that start again in each turn, as the Gemini provider makes them
    when the service sends none, a run that stopped between two calls is not
    resumed: the second call looks answered, so it is never made and the
    request is malformed. *)
Theorem reused_ids_lose_call :
  let turn n := asks_for [demo_call "call_0" n; demo_call "call_1" (n + 1)] in
  let w := demo_world [turn 1%Z; turn 3%Z] [] in
  let t := (run (world := w) (demo_agent None) "q" (demo_opts (Some "id") false) []).1 in
  exists c, checkpoints t !! 2 = Some c /\ c_status c = Running /\ length (c_toolCalls c) = 3 /\
    let t' := (resume (world := w) (demo_agent None) (Ok (Some c)) "id" (demo_opts (Some "id") false) []).1 in
    requests t' !! 0 = Some (c_messages c) /\ opens (c_messages c) = Some ["call_1"] /\ pendingToolCalls (c_messages c) = [].
Proof. vm_compute. eexists. by split_and!. Qed.

(** A resumed run makes the outstanding calls without a checkpoint between
    them: a second crash makes it repeat them all. *)
Theorem resume_repeats_calls :
  let calls := [demo_call "1" 1; demo_call "2" 2; demo_call "3" 3] in
  let c := {| c_status := Running; turnCount := 0; c_messages := [user_message "q"; call_message None calls];
              c_toolCalls := []; c_text := None |} in
  let t := (resume (world := demo_world [] []) (demo_agent None) (Ok (Some c)) "id" (demo_opts (Some "id") false) []).1 in
  exists later s, t = map Invoked calls ++ Saved s :: later.
Proof. vm_compute. by eexists _, _. Qed.

(** An agent given more tools, as a manager is, has none of its own limits. *)
Lemma withTools_drops_limits agent extra :
  toolTimeoutMs (withTools agent extra) = None /\ timeoutMs (withTools agent extra) = None /\
  maxInputTokens (context (withTools agent extra)) = None.
Proof. done. Qed.

(** ** Witnesses *)

Definition demo_args : LoopArgs :=
  {| initialMessages := [user_message "q"]; initialExecuted := []; startTurn := 0; runId := Some "id"; responseSchema := None;
     maxRepairAttempts := None; session := false; sessionBaseline := 0 |}.
#[local] Instance demo : World := demo_world [asks_for [demo_call "1" 1; demo_call "2" 2]; says "ok"] [].



Lemma answer_checked_witness :
  exists res, (loopWith (demo_agent None) demo_args []).2 = Ok res /\ r_text res = "ok" /\
    acceptable (demo_agent None) demo_args "ok" None (loopWith (demo_agent None) demo_args []).1.
Proof.
  eexists. split; [vm_compute; reflexivity|]. split; [reflexivity|].
  exact (proj1 (answer_checked (demo_agent None) demo_args {| r_text := "ok"; r_toolCalls := _; data := None |} eq_refl)).
Defined.

Lemma compaction_spec_witness :
  compaction_cut demo_session 10 (context (demo_agent (Some 112%Z))) = Some 1 /\
  forall j, candidate demo_session (context (demo_agent (Some 112%Z))) j -> j <= 1.
Proof.
  pose proof (compaction_spec demo_session 10 (context (demo_agent (Some 112%Z))) 112 eq_refl) as H.
  assert (E : compaction_cut demo_session 10 (context (demo_agent (Some 112%Z))) = Some 1) by (vm_compute; reflexivity).
  split; [exact E|]. rewrite E in H. destruct H as (_ & _ & _ & _ & [Hr|Hr]); [|exact Hr].
  exfalso. vm_compute in Hr. apply Hr. reflexivity.
Defined.

End AgentFacts.
