(* ===== verification/Providers.v ===== *)
(** * Provider errors and fallback chains (experimental/agents/src: errors.ts,
      providers/fallback.ts)

    What a vendor's library throws is classified into what a caller can act on,
    and a chain of providers goes on to the next one only for the errors another
    provider may not make. *)
From S2P Require Import Prelude JsNumber.

Module Providers.

(** ** Errors *)

(** What anything thrown looks like to the code: its text, and the fields it is
    asked for when it is an object. A status is an integer. *)
Record raw := {
  r_text : string;                          (* err instanceof Error ? err.message : String(err) *)
  r_object : bool;                          (* typeof err is object, and not null *)
  r_name : option string;
  r_code : option string;                   (* a code that is a string *)
  r_status : option Z;                      (* a status that is a number *)
  retry_after : option string               (* the header, if there are headers *)
}.

Inductive error_class : Type :=
| RateLimitError (retryAfterMs : option JsNumber.jsnum)
| ContextLengthExceededError
| ProviderAuthError
| ProviderUnavailableError
| ProviderRequestInvalidError
| PlainProviderError.

Record ProviderError := { class : error_class; provider : string; message : string; status : option Z }.

Definition retriable (e : ProviderError) : bool :=
  match class e with
  | RateLimitError _ | ProviderAuthError | ProviderUnavailableError | PlainProviderError => true
  | ContextLengthExceededError | ProviderRequestInvalidError => false
  end.

(** Thrown: an error that was classified already, or anything else. *)
Inductive thrown : Type := Classified (e : ProviderError) | Raw (r : raw).

(** The [name] and [code] of a classified error are its class's. *)
Definition isAbortError (e : thrown) : bool :=
  match e with
  | Classified _ => false
  | Raw r =>
      r_object r &&
      (bool_decide (r_name r = Some "AbortError") || bool_decide (r_name r = Some "APIUserAbortError") ||
       bool_decide (r_code r = Some "ABORT_ERR") || bool_decide (r_code r = Some "ERR_CANCELED"))
  end.

Definition CONTEXT_LENGTH_PATTERNS : list string :=
  ["context_length_exceeded"; "context length exceeded"; "maximum context length"; "too many tokens"; "prompt is too long";
   "input is too long"; "exceeds the maximum"; "reduce the length"; "request too large"].
Definition RATE_LIMIT_PATTERNS : list string := ["rate limit"; "rate_limit"; "quota"; "too many requests"; "overloaded"].

Definition mentions (patterns : list string) (r : raw) : bool := existsb (fun p => Str.includes p (Str.to_lower (r_text r))) patterns.

(** What the platform's clock and date parser say. *)
Class Clock := { Date_parse : string -> option Z; now : Z }.

Definition field {A} (r : raw) (f : raw -> option A) : option A := if r_object r then f r else None.

Section providers.
Context {clock : Clock}.

Definition retryAfterMs (r : raw) : option JsNumber.jsnum :=
  match field r retry_after with
  | None | Some EmptyString => None
  | Some text =>
      match JsNumber.Number text with
      | JsNumber.Fin m e => Some (JsNumber.mul (JsNumber.Fin m e) (JsNumber.of_Z 1000))
      | _ => match Date_parse text with
             | Some date => Some (JsNumber.of_Z (Z.max 0 (date - now)))
             | None => None
             end
      end
  end.

Definition classifyProviderError (err : thrown) (provider : string) : ProviderError :=
  match err with
  | Classified e => e
  | Raw r =>
      let status := field r r_status in
      let transportCode := field r r_code in
      let make c := {| class := c; provider := provider; message := r_text r; status := status |} in
      let at_least n := match status with Some s => (n <=? s)%Z | None => false end in
      if mentions CONTEXT_LENGTH_PATTERNS r then make ContextLengthExceededError
      else if bool_decide (status = Some 429%Z) || mentions RATE_LIMIT_PATTERNS r then make (RateLimitError (retryAfterMs r))
      else if bool_decide (status = Some 401%Z) || bool_decide (status = Some 403%Z) then make ProviderAuthError
      else if at_least 500%Z || bool_decide (is_Some transportCode) then make ProviderUnavailableError
      else if at_least 400%Z then make ProviderRequestInvalidError
      else make PlainProviderError
  end.

(** [call] is what the wrapped call gives. *)
Definition withProviderErrors {A} (provider : string) (call : result thrown A) : result thrown A :=
  match call with
  | Ok a => Ok a
  | Err err => if isAbortError err then Err err else Err (Classified (classifyProviderError err provider))
  end.

(** ** Fallback chains *)

(** A provider, and what its call gives if it is made. *)
Record LLMProvider (A : Type) := { name : string; call : result thrown A }.
Arguments name {A} _.
Arguments call {A} _.

Definition wrapProviderErrors {A} (p : LLMProvider A) : LLMProvider A :=
  {| name := name p; call := withProviderErrors (name p) (call p) |}.

Definition shouldFallThrough (err : thrown) : bool := match err with Classified e => retriable e | Raw _ => true end.

Inductive chain_event : Type := Called (name : string) | FellBack (err : thrown) (failed next : string).

(** [custom] is the caller's own [shouldFallThrough]. *)
Fixpoint withFallback {A} (custom : option (thrown -> string -> bool)) (providers : list (LLMProvider A)) :
    list chain_event * option (result thrown A) :=
  match providers with
  | [] => ([], None)
  | p :: more =>
      match call p with
      | Ok a => ([Called (name p)], Some (Ok a))
      | Err err =>
          if isAbortError err then ([Called (name p)], Some (Err err))
          else match more with
               | [] => ([Called (name p)], Some (Err err))
               | next :: _ =>
                   if negb (match custom with Some f => f err (name p) | None => shouldFallThrough err end)
                   then ([Called (name p)], Some (Err err))
                   else let '(evs, r) := withFallback custom more in
                        (Called (name p) :: FellBack err (name p) (name next) :: evs, r)
               end
      end
  end.

(** [None] when the constructor throws. *)
Definition createFallbackProvider {A} (custom : option (thrown -> string -> bool)) (providers : list (LLMProvider A)) :
    option (list chain_event * option (result thrown A)) :=
  match providers with [] => None | _ => Some (withFallback custom providers) end.

(** ** Properties *)

(** What decides whether another provider is worth trying. *)
Lemma retriable_spec r p :
  retriable (classifyProviderError (Raw r) p) = false <->
  mentions CONTEXT_LENGTH_PATTERNS r = true \/
  mentions RATE_LIMIT_PATTERNS r = false /\ field r r_code = None /\
  exists s, field r r_status = Some s /\ (400 <= s < 500)%Z /\ s <> 401%Z /\ s <> 403%Z /\ s <> 429%Z.
Proof.
  cbn [classifyProviderError]. destruct (mentions CONTEXT_LENGTH_PATTERNS r); [cbn; split; [by left|done]|].
  destruct (mentions RATE_LIMIT_PATTERNS r).
  { rewrite orb_true_r. cbn. split; [done|]. by intros [?|[? _]]. }
  rewrite orb_false_r. destruct (field r r_code) as [c|] eqn:Ec.
  { rewrite (bool_decide_eq_true_2 (is_Some (Some c))), orb_true_r by done.
    destruct (bool_decide _); [cbn; naive_solver|]. destruct (bool_decide _ || bool_decide _); cbn; naive_solver. }
  rewrite (bool_decide_eq_false_2 (is_Some None)), orb_false_r by (by intros [? ?]).
  destruct (field r r_status) as [s|]; [|repeat rewrite bool_decide_eq_false_2 by done; cbn; naive_solver].
  destruct (decide (s = 429%Z)) as [->|H1]; [cbn; naive_solver|]. rewrite (bool_decide_eq_false_2 (Some s = Some 429%Z)) by congruence.
  destruct (decide (s = 401%Z)) as [->|H2]; [cbn; naive_solver|]. rewrite (bool_decide_eq_false_2 (Some s = Some 401%Z)) by congruence.
  destruct (decide (s = 403%Z)) as [->|H3]; [cbn; naive_solver|]. rewrite (bool_decide_eq_false_2 (Some s = Some 403%Z)) by congruence.
  cbn [orb]. destruct (Z.leb_spec 500 s); [cbn; split; [done|]; intros [?|(_ & _ & s' & [= <-] & ? & _)]; [done|lia]|].
  destruct (Z.leb_spec 400 s); cbn.
  - split; [|done]. intros _. right. split_and!; [done..|]. exists s. split_and!; [done|lia..].
  - split; [done|]. intros [?|(_ & _ & s' & [= <-] & ? & _)]; [done|lia].
Qed.

(** An error of the service's own that says which parameter is wrong - a status
    of 400, and a [code] - is taken for a failure of the connection, which
    another provider is tried for. *)
Lemma coded_request_falls_through p text c s :
  mentions CONTEXT_LENGTH_PATTERNS {| r_text := text; r_object := true; r_name := None; r_code := Some c; r_status := Some s; retry_after := None |} = false ->
  retriable (classifyProviderError (Raw {| r_text := text; r_object := true; r_name := None; r_code := Some c; r_status := Some s; retry_after := None |}) p) = true.
Proof.
  intros Hm. apply not_false_iff_true. rewrite retriable_spec, Hm. cbn. intros [?|(_ & ? & _)]; done.
Qed.

(** Classifying twice changes nothing. *)
Lemma withProviderErrors_idem {A} p q (c : result thrown A) :
  withProviderErrors q (withProviderErrors p c) = withProviderErrors p c.
Proof. destruct c as [a|err]; cbn; [done|]. destruct (isAbortError err) eqn:E; cbn; [by rewrite E|done]. Qed.

Section chain.
Context {A : Type} (custom : option (thrown -> string -> bool)).

Definition goes_on (err : thrown) (p : LLMProvider A) : bool :=
  match custom with Some f => f err (name p) | None => shouldFallThrough err end.

(** The providers that are called, when the first [n] fail in a way the chain
    goes on after. *)
Definition fell (p : LLMProvider A) (err : thrown) : Prop := call p = Err err /\ isAbortError err = false /\ goes_on err p = true.

Definition calls_made (evs : list chain_event) : list string :=
  omap (fun e => match e with Called n => Some n | _ => None end) evs.

Definition fallbacks (evs : list chain_event) : list thrown :=
  omap (fun e => match e with FellBack err _ _ => Some err | _ => None end) evs.

(** A chain calls its providers in order, each once, and stops at the
    first that answers, at the first cancellation whatever the caller's rule
    says, at the first error the rule stops at, or at the last provider; what
    that one gave is the result, unchanged, and every error before it was
    reported and one the rule goes on after. *)
Theorem fallback_spec providers :
  providers <> [] ->
  exists before p after errs, providers = before ++ p :: after /\ Forall2 fell before errs /\
    (withFallback custom providers).2 = Some (call p) /\
    calls_made (withFallback custom providers).1 = map name before ++ [name p] /\
    fallbacks (withFallback custom providers).1 = errs /\
    match call p with
    | Ok _ => True
    | Err err => isAbortError err = true \/ after = [] \/ goes_on err p = false
    end.
Proof.
  induction providers as [|p more IH]; [done|]. intros _. cbn [withFallback]. fold (goes_on) in *.
  destruct (call p) as [a|err] eqn:Ec; [by exists [], p, more, []; rewrite Ec; split_and!|].
  destruct (isAbortError err) eqn:Ea; [exists [], p, more, []; rewrite Ec; split_and!; try done; by left|].
  destruct more as [|next more]; [exists [], p, [], []; rewrite Ec; split_and!; try done; by right; left|].
  change (match custom with Some f => f err (name p) | None => shouldFallThrough err end) with (goes_on err p).
  destruct (goes_on err p) eqn:Eg; cbn [negb].
  2:{ exists [], p, (next :: more), []. rewrite Ec. split_and!; try done. by right; right. }
  destruct (IH ltac:(done)) as (before & p' & after & errs & E & Hf & Hr & Hc & He & Hend).
  destruct (withFallback custom (next :: more)) as [evs r]. cbn [fst snd] in *. subst r.
  exists (p :: before), p', after, (err :: errs). split_and!; [by rewrite E|by constructor|done| | |done].
  - cbn. f_equal. exact Hc.
  - cbn. f_equal. exact He.
Qed.
End chain.

(** A chain of wrapped providers does not try another one for a request none
    would take. *)
Lemma wrapped_chain_stops {A} (p : LLMProvider A) r more :
  call p = Err (Raw r) -> isAbortError (Raw r) = false -> mentions CONTEXT_LENGTH_PATTERNS r = true ->
  (withFallback None (wrapProviderErrors p :: more)).2 =
    Some (Err (Classified (classifyProviderError (Raw r) (name p)))) /\
  calls_made (withFallback None (wrapProviderErrors p :: more)).1 = [name p].
Proof.
  intros Hc Ha Hm. cbn [withFallback wrapProviderErrors call name]. rewrite Hc. cbn [withProviderErrors]. rewrite Ha.
  cbn [isAbortError shouldFallThrough]. assert (retriable (classifyProviderError (Raw r) (name p)) = false) as ->.
  { apply retriable_spec. by left. }
  by destruct more.
Qed.

End providers.
Arguments name {A} _.
Arguments call {A} _.

Definition demo_down : raw :=
  {| r_text := "socket hang up"; r_object := true; r_name := Some "Error"; r_code := Some "ECONNRESET"; r_status := None; retry_after := None |}.

Lemma fallback_spec_witness :
  let chain : list (LLMProvider nat) := [{| name := "a"; call := Err (Raw demo_down) |}; {| name := "b"; call := Ok 7 |}; {| name := "c"; call := Ok 8 |}] in
  exists before p after errs, chain = before ++ p :: after /\ Forall2 (fell None) before errs /\
    (withFallback None chain).2 = Some (call p) /\ calls_made (withFallback None chain).1 = map name before ++ [name p] /\
    call p = Ok 7.
Proof.
  intros chain. destruct (fallback_spec None chain ltac:(discriminate)) as (before & p & after & errs & E & Hf & Hr & Hc & _ & _).
  exists before, p, after, errs. split; [exact E|]. split; [exact Hf|]. split; [exact Hr|]. split; [exact Hc|].
  assert (E7 : (withFallback None chain).2 = Some (Ok 7)) by (vm_compute; reflexivity).
  rewrite E7 in Hr. injection Hr as Hr. symmetry. exact Hr.
Defined.

End Providers.
