(* ===== verification/Explain.v ===== *)
(** * Explaining an app's error (packages/cli/src/util/capability-errors.ts)

    What [berth mcp] tells the agent about an app's raw error: whether it reads
    as a refusal of the sandbox, and which line of the manifest would grant the
    access. An explanation is a value with the parts of the printed lines, the
    fixed wording left out. *)
From S2P Require Import Prelude JsNumber Json Paths Glob Capability Policy.

Module Explain.
Import Capability.

Inductive EnforcementStatus : Type :=
| Enforced
| PartiallyEnforced
| NotEnforced
| Unknown.

Record ExplainContext := {
  appName : string;
  capabilities : list string;      (* of the manifest *)
  manifestPath : string;
  enforcement : EnforcementStatus
}.

(** ** [FS_ERROR]

    [/(?:^|\()(E[A-Z]+): ([^,]+), ([a-z0-9_]+) '([^']+)'(?: -> '([^']+)')?/]. No
    class holds the character that follows it, so each group ends where its
    class does. *)

Record FsError := { code : string; description : string; syscall : string; target : string }.

(** One class, at least one character, and the literal after it. *)
Definition group (p : ascii -> bool) (lit s : string) : option (string * string) :=
  let '(a, r) := JsNumber.span p s in
  if negb (nonempty a) then None
  else if Str.starts_with lit r then Some (a, Str.drop (String.length lit) r) else None.

Definition quote_char : ascii := "'".

Definition parse_fs (s : string) : option FsError :=
  match s with
  | String "E" s1 =>
      '(code, s2) ← group Str.is_upper ": " s1;
      '(description, s3) ← group (fun c => negb (Ascii.eqb "," c)) ", " s2;
      '(syscall, s4) ← group (fun c => Str.is_lower c || Str.is_digit c || Ascii.eqb "_" c) " '" s3;
      '(target, _) ← group (fun c => negb (Ascii.eqb quote_char c)) "'" s4;
      Some {| code := String "E" code; description := description; syscall := syscall; target := target |}
  | _ => None
  end.

Fixpoint after_paren (s : string) : option FsError :=
  match s with
  | EmptyString => None
  | String c s' =>
      if Ascii.eqb c "(" then
        match parse_fs s' with Some e => Some e | None => after_paren s' end
      else after_paren s'
  end.

(** [FS_ERROR.exec(raw)] *)
Definition FS_ERROR (raw : string) : option FsError :=
  match parse_fs raw with Some e => Some e | None => after_paren raw end.

(** ** Denials of the filesystem *)

Definition WRITE_SYSCALLS : list string :=
  ["mkdir"; "rmdir"; "unlink"; "rename"; "write"; "truncate"; "ftruncate"; "symlink"; "link";
   "copyfile"; "chmod"; "chown"; "utimes"; "futimes"; "mkdtemp"; "appendfile"].

Definition READ_SYSCALLS : list string :=
  ["read"; "readlink"; "readdir"; "scandir"; "stat"; "lstat"; "fstat"; "realpath"].

(** The [denied-by:] line. *)
Inductive denied_by : Type :=
| TheKernel
| PartialRuleset
| NotThePolicy
| CannotTell
| TheVfs.

Definition enforcementLine (e : EnforcementStatus) : denied_by :=
  match e with
  | Enforced => TheKernel
  | PartiallyEnforced => PartialRuleset
  | NotEnforced => NotThePolicy
  | Unknown => CannotTell
  end.

(** The [fix:] line and the capability lines beneath it. *)
Inductive fix_line : Type :=
| WriteElsewhere                                   (* EROFS *)
| NoneAvailable (target : string)
| NotMissing (wanted : list string)
| AddLines (missing : list string) (ambiguous : bool).

Definition underAllowedPrefix (target : string) : bool :=
  existsb (fun prefix => String.eqb target prefix || Str.starts_with (prefix +:+ "/") target)
    ALLOWED_FILESYSTEM_SCOPE_PREFIXES.

Definition scopeFor (target : string) : string :=
  let dir := NodePath.dirname target in
  match List.find (fun p => String.eqb target p || Str.starts_with (p +:+ "/") target)
          ALLOWED_FILESYSTEM_SCOPE_PREFIXES with
  | None => dir
  | Some prefix => if String.length dir <? String.length prefix then prefix else dir
  end.

(** [manifest.capabilities.some((granted) => matchesCapability(granted, requested))] *)
Definition declares (ctx : ExplainContext) (requested : string) : result capability_error bool :=
  some_matches (capabilities ctx) requested.

(** [wanted.filter((capability) => !declares(ctx.manifest, capability))] *)
Fixpoint undeclared (ctx : ExplainContext) (wanted : list string) : result capability_error (list string) :=
  match wanted with
  | [] => Ok []
  | c :: rest =>
      let? d := declares ctx c in
      let? m := undeclared ctx rest in
      Ok (if d then m else c :: m)
  end.

Definition action_of (syscall : string) : option string :=
  if existsb (String.eqb syscall) WRITE_SYSCALLS then Some "write"
  else if existsb (String.eqb syscall) READ_SYSCALLS then Some "read"
  else None.

Definition fs_capability (action scope : string) : string := "filesystem:" +:+ action +:+ ":" +:+ scope.

Definition wanted_for (action : option string) (scope : string) : list string :=
  match action with
  | Some a => [fs_capability a scope]
  | None => [fs_capability "write" scope; fs_capability "read" scope]
  end.

Inductive explained : Type :=
| Untouched (raw : string)
| FsDenial (raw : string) (e : FsError) (by_ : denied_by) (fix_ : fix_line)
| NetworkDenial (raw : string) (by_ : denied_by) (declared : list string) (port : option string).

(** ** Denials of the network *)

Definition word_char (c : ascii) : bool :=
  Str.is_digit c || Str.is_lower c || Str.is_upper c || Ascii.eqb c "_".

Definition word_at_start (s : string) : bool :=
  match s with String c _ => word_char c | EmptyString => false end.

(** [\bw\b] at the start of [s], which follows the character [prev]; [w] is made
    of word characters. *)
Definition word_here (prev : bool) (w s : string) : bool :=
  negb prev && Str.starts_with w s && negb (word_at_start (Str.drop (String.length w) s)).

(** The words of [ws] found anywhere, each with what the rest of the pattern
    says of the text after it. *)
Fixpoint find_word (ws : list string) (k : string -> bool) (prev : bool) (s : string) : bool :=
  existsb (fun w => word_here prev w s && k (Str.drop (String.length w) s)) ws ||
  match s with
  | EmptyString => false
  | String c s' => find_word ws k (word_char c) s'
  end.

Fixpoint first_line (s : string) : string :=
  match s with
  | EmptyString => EmptyString
  | String c s' => if Str.is_line_terminator c then EmptyString else String c (first_line s')
  end.

(** [/\b(ECONNREFUSED|...)\b/.test(raw) || /\b(EACCES|EPERM)\b.*\bconnect\b/.test(raw)] *)
Definition is_network (raw : string) : bool :=
  find_word ["ECONNREFUSED"; "ENETUNREACH"; "EHOSTUNREACH"; "EAI_AGAIN"; "ENOTFOUND"] (fun _ => true) false raw ||
  find_word ["EACCES"; "EPERM"]
    (fun rest => find_word ["connect"] (fun _ => true) true (first_line rest)) false raw.

(** [/:(\d{1,5})\b/.exec(raw)?.[1]] *)
Fixpoint find_port (s : string) : option string :=
  match s with
  | EmptyString => None
  | String c s' =>
      if Ascii.eqb c ":" then
        let '(digits, rest) := JsNumber.span Str.is_digit s' in
        if nonempty digits && (String.length digits <=? 5) && negb (word_at_start rest)
        then Some digits else find_port s'
      else find_port s'
  end.

Definition explainNonFsError (raw : string) (ctx : ExplainContext) : explained :=
  if negb (is_network raw) then Untouched raw
  else NetworkDenial raw (enforcementLine (enforcement ctx))
         (List.filter (Str.starts_with "network:") (capabilities ctx)) (find_port raw).

Definition explainAppError (raw : string) (ctx : ExplainContext) : result capability_error explained :=
  match FS_ERROR raw with
  | None => Ok (explainNonFsError raw ctx)
  | Some e =>
      if negb (existsb (String.eqb (code e)) ["EACCES"; "EPERM"; "EROFS"]) then Ok (Untouched raw)
      else if String.eqb (code e) "EROFS" then Ok (FsDenial raw e TheVfs WriteElsewhere)
      else
        let by_ := enforcementLine (enforcement ctx) in
        let action := action_of (syscall e) in
        if negb (underAllowedPrefix (target e)) then Ok (FsDenial raw e by_ (NoneAvailable (target e)))
        else
          let wanted := wanted_for action (scopeFor (target e)) in
          let? missing := undeclared ctx wanted in
          match missing with
          | [] => Ok (FsDenial raw e by_ (NotMissing wanted))
          | _ => Ok (FsDenial raw e by_ (AddLines missing (match action with None => true | _ => false end)))
          end
  end.

(** The first line of the printed text. *)
Definition HEADER : string := "BERTH CAPABILITY DENIAL".
Definition starts_denial (x : explained) : bool :=
  match x with Untouched raw => Str.starts_with HEADER raw | _ => true end.

(** ** [enforcementFromContainerLogs] *)

Definition MARKER : string :=
  String Json.dq_char ("ruleset" +:+ String Json.dq_char (":" +:+ String Json.dq_char "")).

(** The first match of ["ruleset":"(\w+)"]. *)
Fixpoint audit_ruleset (s : string) : option string :=
  match s with
  | EmptyString => None
  | String _ s' =>
      if Str.starts_with MARKER s then
        match group word_char (String Json.dq_char "") (Str.drop (String.length MARKER) s) with
        | Some (status, _) => Some status
        | None => audit_ruleset s'
        end
      else audit_ruleset s'
  end.

(** [/\[agent-init\] restricted .*\(FullyEnforced\)/] *)
Fixpoint restricted_line (s : string) : bool :=
  (Str.starts_with "[agent-init] restricted " s &&
   Str.includes "(FullyEnforced)" (first_line (Str.drop 24 s))) ||
  match s with EmptyString => false | String _ s' => restricted_line s' end.

Definition enforcementFromContainerLogs (logs : string) : EnforcementStatus :=
  let fallback :=
    if Str.includes "[agent-init] NOT RESTRICTED" logs then NotEnforced
    else if restricted_line logs then Enforced else Unknown in
  match audit_ruleset logs with
  | Some "FullyEnforced" => Enforced
  | Some "PartiallyEnforced" => PartiallyEnforced
  | Some "NotEnforced" => NotEnforced
  | _ => fallback
  end.

(** ** Examples from the tests *)

Definition ex_ctx : ExplainContext :=
  {| appName := "filesystem"; capabilities := ["filesystem:read:/workspace"; "filesystem:write:/workspace"];
     manifestPath := "apps/filesystem/berth.yml"; enforcement := Enforced |}.

Definition fix_of (raw : string) : option fix_line :=
  match explainAppError raw ex_ctx with Ok (FsDenial _ _ _ f) => Some f | _ => None end.

Example ex_fixes :
  fix_of "EACCES: permission denied, open '/etc/x.txt'" = Some (NoneAvailable "/etc/x.txt") /\
  fix_of "outside /workspace. (EACCES: permission denied, open '/etc/x.txt')" = Some (NoneAvailable "/etc/x.txt") /\
  fix_of "EACCES: permission denied, mkdir '/tmp/scratch/run-1'" = Some (AddLines ["filesystem:write:/tmp/scratch"] false) /\
  fix_of "EACCES: permission denied, open '/context/notes/a.md'" =
    Some (AddLines ["filesystem:write:/context/notes"; "filesystem:read:/context/notes"] true) /\
  fix_of "EACCES: permission denied, mkdir '/workspace/data'" = Some (NotMissing ["filesystem:write:/workspace"]) /\
  fix_of "EROFS: read-only file system, open '/workspace/apps/x'" = Some WriteElsewhere /\
  fix_of "ENOENT: no such file or directory, open '/workspace/missing.txt'" = None /\
  explainAppError "connect ECONNREFUSED 127.0.0.1:8090" ex_ctx =
    Ok (NetworkDenial "connect ECONNREFUSED 127.0.0.1:8090" TheKernel [] (Some "8090")).
Proof. by vm_compute. Qed.

(** ** Lemmas *)

Lemma get_any p s k c : Str.any p s = false -> String.get k s = Some c -> p c = false.
Proof.
  revert k; induction s as [|d s IH]; intros k; [done|]. cbn [Str.any].
  rewrite orb_false_iff. intros [Hd Hs]. destruct k as [|k]; cbn; [by intros [= <-]|eauto].
Qed.

Lemma get_beyond s k : String.get k s = None -> S k <= String.length s <-> False.
Proof.
  intros E. split; [|done]. revert k E. induction s as [|c s IH]; intros k E Hk; cbn [String.length] in Hk; [lia|].
  destruct k as [|k]; [done|]. apply (IH k E). lia.
Qed.

(** [dirname] scanning back over a last segment finds the slash before it. *)
Lemma dirname_end_last d f k b :
  Str.any (Ascii.eqb slash) f = false -> 0 < String.length d -> k <= String.length f ->
  (k = 0 -> b = false) ->
  NodePath.dirname_end (d +:+ "/" +:+ f) (String.length d + k) b = Some (String.length d).
Proof.
  intros Hf Hd. revert b; induction k as [|k IH]; intros b Hk Hb.
  - rewrite Nat.add_0_r, Hb by done. pose proof (Stdlib.Strings.String.append_correct2 d ("/" +:+ f) 0) as Hg.
    cbn [Nat.add] in Hg. change (String.append d) with (fun t => d +:+ t) in Hg. cbn beta in Hg.
    destruct (String.length d) as [|n]; [lia|]. cbn [NodePath.dirname_end]. rewrite <- Hg. done.
  - pose proof (Stdlib.Strings.String.append_correct2 d ("/" +:+ f) (S k)) as Hg. rewrite Nat.add_comm in Hg.
    rewrite Nat.add_succ_r in Hg |- *. cbn [NodePath.dirname_end].
    change (String.append d) with (fun t => d +:+ t) in Hg. cbn beta in Hg. rewrite <- Hg.
    change (String.get (S k) ("/" +:+ f)) with (String.get k f).
    destruct (String.get k f) as [c|] eqn:E.
    + pose proof (get_any _ _ _ _ Hf E) as Hc. rewrite Ascii.eqb_sym in Hc. unfold NodePath.slash.
      unfold slash in Hc. rewrite Hc. apply IH; [lia|done].
    + by rewrite (get_beyond f k E) in Hk.
Qed.

Lemma dirname_last d f :
  Str.any (Ascii.eqb slash) f = false -> f <> "" -> 0 < String.length d ->
  NodePath.isAbsolute (d +:+ "/" +:+ f) = true -> String.length d <> 1 ->
  NodePath.dirname (d +:+ "/" +:+ f) = d.
Proof.
  intros Hf Hne Hd Habs Hd1. unfold NodePath.dirname. rewrite Habs.
  destruct (d +:+ "/" +:+ f) as [|c s] eqn:E; [by destruct d|]. rewrite <- E.
  rewrite !length_app_str. cbn [String.length]. destruct f as [|c' f]; [done|].
  replace (String.length d + (1 + String.length (String c' f)) - 1)
    with (String.length d + String.length (String c' f)) by lia.
  rewrite dirname_end_last; [|done|done|lia|done].
  apply Nat.eqb_neq in Hd1. rewrite Hd1, andb_false_r. apply StrFacts.take_app.
Qed.

(** The scope of a target that needs nothing resolved: an allowed directory at
    or above it. *)
Lemma join_snoc segs f : segs <> [] -> Str.join "/" (segs ++ [f]) = Str.join "/" segs +:+ "/" +:+ f.
Proof.
  intros Hne. induction segs as [|w segs IH]; [done|]. destruct segs as [|w' segs]; [done|].
  cbn [app]. change (Str.join "/" (w :: w' :: segs ++ [f])) with (w +:+ "/" +:+ Str.join "/" ((w' :: segs) ++ [f])).
  rewrite IH by done. change (Str.join "/" (w :: w' :: segs)) with (w +:+ "/" +:+ Str.join "/" (w' :: segs)).
  by rewrite !app_assoc_str.
Qed.

(** A canonical path is one name beneath the root, or one beneath another canonical path. *)
Lemma canonical_cases p :
  canonical p ->
  (exists f, p = "/" +:+ f /\ Str.any (Ascii.eqb slash) f = false /\ f <> "") \/
  (exists d f, p = d +:+ "/" +:+ f /\ canonical d /\ good_segment f).
Proof.
  intros (segs & Hne & -> & Hall). destruct (exists_last Hne) as (segs' & f & ->).
  apply Forall_app in Hall as [Hall Hf]. rewrite Forall_singleton in Hf.
  destruct (decide (segs' = [])) as [->|Hne'].
  - left. exists f. destruct Hf as (?&_&_&?&_). done.
  - right. exists ("/" +:+ Str.join "/" segs'), f. rewrite join_snoc by done. split_and!; [done| |done].
    by exists segs'.
Qed.

Lemma canonical_length p : canonical p -> 2 <= String.length p.
Proof.
  intros (q & -> & _ & _ & _ & Hq)%canonical_facts. destruct q; [done|]. cbn. lia.
Qed.

Lemma prefix_str p r d x : p +:+ r = d +:+ x -> String.length p <= String.length d -> exists y, d = p +:+ y.
Proof.
  revert d; induction p as [|c p IH]; intros d H Hl; [by exists d|].
  destruct d as [|c' d]; [cbn in Hl; lia|]. rewrite !app_cons_str in H. injection H as -> H.
  cbn in Hl. destruct (IH d H) as [y ->]; [lia|]. by exists y.
Qed.

Lemma dirname_top f : Str.any (Ascii.eqb slash) f = false -> f <> "" -> NodePath.dirname ("/" +:+ f) = "/".
Proof.
  intros Hf Hne. rewrite app_cons_str, app_empty_str. unfold NodePath.dirname.
  enough (forall i b, NodePath.dirname_end (String "/" f) i b = None) as -> by done.
  intros i; induction i as [|i IH]; intros b; [done|]. cbn [NodePath.dirname_end String.get].
  destruct (String.get i f) as [c|] eqn:E; [|apply IH].
  pose proof (get_any _ _ _ _ Hf E) as Hc. rewrite Ascii.eqb_sym in Hc. unfold NodePath.slash.
  unfold slash in Hc. rewrite Hc. apply IH.
Qed.

(** The scope of a fix line: an allowed directory at or above the target. *)
Lemma scopeFor_spec t :
  canonical t -> underAllowedPrefix t = true ->
  canonical (scopeFor t) /\ under_allowed (scopeFor t) /\ beneath (scopeFor t) t.
Proof.
  intros Hc Hu. unfold scopeFor, underAllowedPrefix in *.
  destruct (List.find _ _) as [pre|] eqn:E.
  2:{ apply existsb_exists in Hu as (p & Hp & Hb). by rewrite (find_none _ _ E p Hp) in Hb. }
  apply find_some in E as [Hin Hpre]. apply list_elem_of_In in Hin. change (isWithin t pre = true) in Hpre.
  assert (canonical pre) as Hcp.
  { clear -Hin. repeat (apply elem_of_cons in Hin as [->|Hin]); [..|by apply elem_of_nil in Hin].
    all: apply canonical_of_segments; by vm_compute. }
  rewrite isWithin_spec in Hpre.
  destruct (String.length (NodePath.dirname t) <? String.length pre) eqn:Hlen.
  { split_and!; [done| |done]. exists pre. split; [done|]. by left. }
  apply Nat.ltb_ge in Hlen. apply canonical_length in Hcp.
  destruct (canonical_cases t Hc) as [(f & -> & Hf & Hne)|(d & f & -> & Hd & Hf)].
  - rewrite dirname_top in Hlen by done. cbn [String.length] in Hlen. lia.
  - pose proof (canonical_length d Hd) as Hl. assert (Hf' := Hf). destruct Hf' as (Hne & _ & _ & Hsl & _).
    assert (NodePath.dirname (d +:+ "/" +:+ f) = d) as Hdir.
    { apply dirname_last; [done..|lia| |lia]. destruct Hd as (? & _ & -> & _). done. }
    rewrite Hdir in *. split_and!; [done| |right; by exists f].
    exists pre. split; [done|]. destruct Hpre as [Heq|[r Hr]].
    + apply (f_equal String.length) in Heq. rewrite !length_app_str in Heq. cbn [String.length] in Heq. lia.
    + destruct (decide (String.length pre = String.length d)) as [Hel|Hnl].
      * left. by apply app_inj_length_str in Hr as [-> _].
      * right. rewrite <- (app_assoc_str pre) in Hr. destruct (prefix_str (pre +:+ "/") r d ("/" +:+ f)) as [y ->].
        -- done.
        -- rewrite length_app_str. cbn [String.length]. lia.
        -- exists y. by rewrite app_assoc_str.
Qed.

(** A declared capability the matcher reads as its documentation says. *)
Definition plain_grant (g : string) : bool :=
  match parseCapability g with Ok p => Glob.no_quest (scope p) | Err _ => false end.

Lemma plain_grants l :
  forallb plain_grant l = true ->
  Forall (fun g => exists gp, parseCapability g = Ok gp /\ Glob.no_quest (scope gp) = true) l.
Proof.
  rewrite forallb_forall, Forall_forall. intros H g Hg%list_elem_of_In%H. unfold plain_grant in Hg.
  destruct (parseCapability g) as [p|]; [eauto|done].
Qed.

Lemma fs_capability_parse a sc :
  Str.any (Ascii.eqb colon) a = false ->
  parseCapability (fs_capability a sc) = Ok {| namespace := "filesystem"; action := a; scope := sc |}.
Proof. intros Ha. apply parseCapability_spec. done. Qed.

Lemma wanted_for_elem action sc c :
  c ∈ wanted_for action sc -> (forall a, action = Some a -> a = "write" \/ a = "read") ->
  exists a, (a = "write" \/ a = "read") /\ c = fs_capability a sc.
Proof.
  destruct action as [a|]; cbn [wanted_for].
  - intros ->%list_elem_of_singleton H. exists a. auto.
  - intros [->|[->|[]%elem_of_nil]%elem_of_cons]%elem_of_cons _; eauto.
Qed.

Lemma action_of_cases sys a : action_of sys = Some a -> a = "write" \/ a = "read".
Proof. unfold action_of. repeat case_match; naive_solver. Qed.

Lemma write_or_read_colon a : a = "write" \/ a = "read" -> Str.any (Ascii.eqb colon) a = false.
Proof. by intros [->| ->]. Qed.

(** With plain grants every check answers, and the lines left are the ones nothing covers. *)
Lemma undeclared_spec ctx wanted :
  forallb plain_grant (capabilities ctx) = true ->
  Forall (fun c => exists a sc, (a = "write" \/ a = "read") /\ c = fs_capability a sc) wanted ->
  exists m, undeclared ctx wanted = Ok m /\
    forall c, c ∈ m <-> c ∈ wanted /\ declares ctx c = Ok false.
Proof.
  intros Hg%plain_grants. induction 1 as [|c l (a & sc & Ha%write_or_read_colon & ->) _ (m & Hm & IH)]; cbn [undeclared].
  - exists []. split; [done|]. intros c. split; [by intros ?%elem_of_nil|by intros [?%elem_of_nil _]].
  - destruct (some_matches_spec (capabilities ctx) _ _ (fs_capability_parse a sc Ha) Hg) as (b & Hb & _).
    unfold declares at 1. rewrite Hb, Hm. cbn [rbind]. eexists; split; [done|]. intros c.
    destruct b; rewrite ?elem_of_cons, IH; unfold declares; naive_solver congruence.
Qed.

Lemma declares_added ctx a sc :
  forallb plain_grant (capabilities ctx) = true -> a = "write" \/ a = "read" ->
  Glob.one_line sc = true -> Glob.no_quest sc = true ->
  declares {| appName := appName ctx; capabilities := capabilities ctx ++ [fs_capability a sc];
              manifestPath := manifestPath ctx; enforcement := enforcement ctx |} (fs_capability a sc) = Ok true.
Proof.
  intros Hg Ha%write_or_read_colon Hl Hq. unfold declares; cbn [capabilities].
  pose proof (fs_capability_parse a sc Ha) as Hp.
  destruct (some_matches_spec (capabilities ctx ++ [fs_capability a sc]) _ _ Hp) as (b & Hb & Hspec).
  { apply plain_grants. rewrite forallb_app, Hg. cbn [forallb]. unfold plain_grant. rewrite Hp. cbn [scope]. by rewrite Hq. }
  rewrite Hb. f_equal. apply Hspec. exists (fs_capability a sc). split; [set_solver|].
  rewrite (matchesCapability_ok _ _ _ _ Hp Hp Hq). cbn [namespace action scope]. rewrite !String.eqb_refl. f_equal.
  by apply Glob.compile_escaped_spec, Glob.glob_matches_refl.
Qed.

Lemma wanted_for_forms sys sc :
  Forall (fun c => exists a sc, (a = "write" \/ a = "read") /\ c = fs_capability a sc) (wanted_for (action_of sys) sc).
Proof.
  apply Forall_forall. intros c Hin. apply wanted_for_elem in Hin as (a & ? & ->); [eauto|apply action_of_cases].
Qed.

(** With plain grants an explanation is always found. *)
Lemma explain_total raw ctx :
  forallb plain_grant (capabilities ctx) = true -> exists x, explainAppError raw ctx = Ok x.
Proof.
  intros Hg. unfold explainAppError. destruct (FS_ERROR raw) as [e|]; [|eauto].
  destruct (negb _); [eauto|]. destruct (String.eqb _ _); [eauto|]. destruct (negb _); [eauto|].
  destruct (undeclared_spec ctx _ Hg (wanted_for_forms (syscall e) (scopeFor (target e)))) as (m & Hm & _).
  rewrite Hm. cbn [rbind]. destruct m; eauto.
Qed.

(** A printed capability line is worth adding. When the error of a call is
    explained with lines to add, the manifest grants none of them; the scope each
    names is one the schema accepts for reading, and is the target itself or a
    directory above it; and the manifest with the line added grants it, so the
    same error is not answered with the same line twice. *)
Theorem fix_lines_work raw ctx e by_ missing ambiguous :
  forallb plain_grant (capabilities ctx) = true ->
  explainAppError raw ctx = Ok (FsDenial raw e by_ (AddLines missing ambiguous)) ->
  canonical (target e) -> Glob.one_line (target e) = true -> Glob.no_quest (target e) = true ->
  missing <> [] /\
  forall c, c ∈ missing ->
    exists a sc, (a = "write" \/ a = "read") /\ c = fs_capability a sc /\
      declares ctx c = Ok false /\
      filesystemScopeIssue sc = None /\ beneath sc (target e) /\
      declares {| appName := appName ctx; capabilities := capabilities ctx ++ [c];
                  manifestPath := manifestPath ctx; enforcement := enforcement ctx |} c = Ok true.
Proof.
  intros Hg Hx Hc Hl Hq. unfold explainAppError in Hx.
  destruct (FS_ERROR raw) as [e'|] eqn:He; [|unfold explainNonFsError in Hx; destruct (is_network raw); cbn in Hx; congruence].
  destruct (negb _); [done|]. destruct (String.eqb _ _); [done|].
  destruct (underAllowedPrefix (target e')) eqn:Hu; [|done]. cbn [negb] in Hx.
  destruct (undeclared_spec ctx _ Hg (wanted_for_forms (syscall e') (scopeFor (target e')))) as (m & Hm & Hspec). rewrite Hm in Hx. cbn [rbind] in Hx.
  destruct m as [|c0 m]; [done|]. injection Hx as -> _ <- _. split; [done|].
  intros c Hin. apply Hspec in Hin as [Hin Hno].
  apply wanted_for_elem in Hin as (a & Ha & ->); [|apply action_of_cases].
  destruct (scopeFor_spec (target e) Hc Hu) as (Hsc & Hsu & Hb).
  exists a, (scopeFor (target e)). split_and!; try done.
  - eapply filesystemScopeIssue_complete; [by left|done..].
  - assert (Glob.one_line (scopeFor (target e)) = true /\ Glob.no_quest (scopeFor (target e)) = true) as [Hl' Hq'].
    { unfold Glob.one_line, Glob.no_quest in *. destruct Hb as [Hb|[r Hb]]; [by rewrite <- Hb|].
      rewrite Hb, StrFacts.all_app in Hl. rewrite Hb, StrFacts.any_app, negb_orb in Hq.
      apply andb_true_iff in Hl as [? _], Hq as [? _]. done. }
    by apply declares_added.
Qed.

(** The grants the kernel was given reach further than the check of a fix line
    sees. A manifest that may write anywhere beneath /workspace is told to add a
    line for a directory beneath it, where the comment says an error on a
    declared path is not answered with another manifest line. *)
Definition workspace_ctx : ExplainContext :=
  {| appName := "notes"; capabilities := ["filesystem:write:/workspace"]; manifestPath := "berth.yml";
     enforcement := Enforced |}.

Theorem covered_path_told_to_add :
  (exists e, explainAppError "EACCES: permission denied, mkdir '/workspace/data/x'" workspace_ctx =
    Ok (FsDenial "EACCES: permission denied, mkdir '/workspace/data/x'" e TheKernel
          (AddLines ["filesystem:write:/workspace/data"] false))) /\
  (forall mesh cwd deps name,
    "/workspace" ∈ Policy.writePaths
      (Policy.compileCapabilityPolicy mesh cwd deps name (capabilities workspace_ctx))) /\
  beneath "/workspace" "/workspace/data/x".
Proof.
  split_and!.
  - eexists. by vm_compute.
  - intros. unfold Policy.compileCapabilityPolicy; cbn [Policy.writePaths].
    rewrite (Policy.compile_collect mesh Policy.a_writePaths _ (Policy.grant_writePaths mesh)).
    right. eexists _, _. split; [by left|]. split; [by vm_compute|]. left. done.
  - right. by exists "data/x".
Qed.

(** A line the schema then refuses: a write scope inside node_modules. *)
Theorem node_modules_line_refused :
  (exists e, explainAppError "EACCES: permission denied, mkdir '/app/node_modules/.cache/x'" workspace_ctx =
    Ok (FsDenial "EACCES: permission denied, mkdir '/app/node_modules/.cache/x'" e TheKernel
          (AddLines ["filesystem:write:/app/node_modules/.cache"] false))) /\
  capabilityIssue "filesystem:write:/app/node_modules/.cache" = Some (InsideNodeModules "/app/node_modules/.cache").
Proof. split; [eexists|]; by vm_compute. Qed.

(** An app's own text can pass for a denial: it is left untouched, and starts as
    one does. *)
Theorem denial_text_can_be_forged ctx :
  explainAppError "BERTH CAPABILITY DENIAL: disk full" ctx = Ok (Untouched "BERTH CAPABILITY DENIAL: disk full") /\
  starts_denial (Untouched "BERTH CAPABILITY DENIAL: disk full") = true.
Proof. done. Qed.

(** ** Witnesses *)

Lemma fix_lines_work_witness :
  exists missing, missing <> [] /\ forall c, c ∈ missing -> exists a sc, c = fs_capability a sc /\ filesystemScopeIssue sc = None.
Proof.
  set (raw := "EACCES: permission denied, open '/context/notes/a.md'").
  destruct (explainAppError raw ex_ctx) as [x|] eqn:E; [|by vm_compute in E].
  assert (E' := E). vm_compute in E'. injection E' as <-.
  destruct (fix_lines_work raw ex_ctx _ _ _ _ eq_refl E) as [H1 H2].
  - by apply (canonical_of_segments "context/notes/a.md").
  - done.
  - done.
  - eexists. split; [exact H1|]. intros c (a & sc & _ & ? & _ & ? & _)%H2. eauto.
Defined.

End Explain.
