(* ===== verification/RunAudit.v ===== *)
(** * The audit of a CLI run (packages/cli/src/util/run-audit.ts)

    The record [berth mcp] writes for each tool call and for the boot of the
    sandbox, and the reading back of the boot evidence a run recorded for
    itself. The fixed wording of a reason is a constructor; an evidence is the
    JSON value read back from the log, which holds no undefined. *)
From S2P Require Import Prelude Json Attest.

Module RunAudit.
Import Json.

Definition TOOL_CALL_ACTION : string := "tool.call".
Definition SANDBOX_BOOT_ACTION : string := "sandbox.boot".

(** ** [auditReason] *)

Definition MAX_REASON_CHARS : nat := 300.

(** [raw.split(/\r?\n/, 1)[0]] *)
Fixpoint first_line (s : string) : string :=
  match s with
  | EmptyString => EmptyString
  | String c s' =>
      if Ascii.eqb c (ascii_of_nat 10) then EmptyString
      else match s' with
           | String d _ =>
               if Ascii.eqb c (ascii_of_nat 13) && Ascii.eqb d (ascii_of_nat 10) then EmptyString
               else String c (first_line s')
           | EmptyString => String c EmptyString
           end
  end.

Definition is_control (c : ascii) : bool := Str.in_range 0 31 c || (Str.code c =? 127).

(** [.replace(/[\u0000-\u001f\u007f]/g, " ").trim()] *)
Definition clean (s : string) : string := Str.trim (Str.map (fun c => if is_control c then " "%char else c) s).

(** The text kept, and how many characters were not. *)
Record AuditReason := { kept : string; not_recorded : nat }.

Definition auditReason (raw : string) : AuditReason :=
  let cleaned := clean (first_line raw) in
  if String.length cleaned <=? MAX_REASON_CHARS then {| kept := cleaned; not_recorded := 0 |}
  else {| kept := Str.take MAX_REASON_CHARS cleaned; not_recorded := String.length cleaned - MAX_REASON_CHARS |}.

(** ** The record of a tool call *)

Record RunAuditOptions := { runId : string; sessionId : string; app : string; containerName : string; via : string }.

Record ToolCallOutcome := {
  o_export : string;
  o_input : json;
  o_durationMs : Z;
  o_result : json;                            (* undefined when absent *)
  o_error : option string;
  o_denied : bool;
  o_reportedDeniedPaths : list string;        (* empty when absent *)
  o_unanswered : option (string * bool);      (* the reason, and whether the session ended *)
  o_notSent : bool
}.

Inductive decision : Type := Allowed | Denied.

Inductive reason : Type :=
| CancelledBeforeSent
| SessionEnded
| NoAnswer (why : AuditReason)
| AppError (why : AuditReason)
| AppReported (n : nat).

(** [meta.outcome], present when the call's own outcome is not known to be an answer. *)
Inductive outcome_mark : Type := OutcomeUnknown | OutcomeNotSent.

Record AuditEvent := {
  e_action : string;
  e_target : string;
  e_decision : decision;
  e_reason : option reason;
  e_input : json;
  e_output : option json;
  e_durationMs : Z;
  e_options : RunAuditOptions;                (* runId, bridge, via, container *)
  e_failed : bool;
  e_outcome : option outcome_mark;
  e_interrupted : bool;
  e_reportedDeniedPaths : list string
}.

(** The event [createRunAudit(options).toolCall(outcome)] hands to the sink. *)
Definition toolCall (options : RunAuditOptions) (o : ToolCallOutcome) : AuditEvent :=
  let reason :=
    if o_notSent o then Some CancelledBeforeSent
    else match o_unanswered o with
         | Some (why, interrupted) => Some (if interrupted then SessionEnded else NoAnswer (auditReason why))
         | None =>
             match o_error o with
             | Some e => Some (AppError (auditReason e))
             | None => match o_reportedDeniedPaths o with [] => None | ps => Some (AppReported (length ps)) end
             end
         end in
  let unanswered := match o_unanswered o with Some _ => true | None => false end in
  let errored := match o_error o with Some _ => true | None => false end in
  {| e_action := TOOL_CALL_ACTION;
     e_target := app options +:+ "." +:+ o_export o;
     e_decision := if o_denied o then Denied else Allowed;
     e_reason := reason;
     e_input := o_input o;
     e_output := if negb errored && negb unanswered && negb (o_notSent o) then Some (o_result o) else None;
     e_durationMs := o_durationMs o;
     e_options := options;
     e_failed := unanswered || (errored && negb (o_denied o));
     e_outcome := if o_notSent o then Some OutcomeNotSent else if unanswered then Some OutcomeUnknown else None;
     e_interrupted := match o_unanswered o with Some (_, i) => i | None => false end;
     e_reportedDeniedPaths := o_reportedDeniedPaths o |}.

(** ** Reading the boot evidence back *)

Record AuditRecord := { r_action : string; r_meta : json }.

Definition LEGACY_SESSION : string := "(unrecorded)".

Definition isBootEvidence (value : json) : bool :=
  match value with
  | JObj _ =>
      Attest.is_string (oprop "bootId" value) && Attest.is_string (oprop "containerName" value) &&
      Attest.is_string (oprop "imageTag" value) && Attest.is_string (oprop "imageDigest" value) &&
      match oprop "rulesetReports" value with JArr _ => true | _ => false end &&
      match oprop "policies" value with JArr _ => true | _ => false end &&
      match oprop "doctorProbe" value with
      | JObj _ | JArr _ => Attest.is_string (oprop "status" (oprop "doctorProbe" value))
      | _ => false
      end
  | _ => false
  end.

Definition nullish (v : json) : json := match v with JUndef => JNull | _ => v end.

(** The text compared: the boot, the container, the image, the policies, the
    rulesets and the isolation. *)
Definition bootIdentity (evidence : json) : string :=
  render (JArr [oprop "bootId" evidence; oprop "containerName" evidence; oprop "imageTag" evidence;
                oprop "imageDigest" evidence; oprop "policies" evidence; oprop "rulesetReports" evidence;
                nullish (oprop "isolation" evidence)]).

#[local] Arguments bootIdentity : simpl never.

Definition session_of (r : AuditRecord) : string :=
  match oprop "bridge" (r_meta r) with JStr s => s | _ => LEGACY_SESSION end.
Definition evidence_of (r : AuditRecord) : json := oprop "evidence" (r_meta r).
Definition is_call (r : AuditRecord) : bool := String.eqb (r_action r) TOOL_CALL_ACTION.
Definition is_boot (r : AuditRecord) : bool :=
  String.eqb (r_action r) SANDBOX_BOOT_ACTION && isBootEvidence (evidence_of r).

(** [typeof meta.container === "string" && meta.container !== meta.evidence.containerName] *)
Definition other_container (r : AuditRecord) : bool :=
  match oprop "container" (r_meta r) with
  | JStr c => negb (Attest.is_str (oprop "containerName" (evidence_of r)) c)
  | _ => false
  end.

Inductive problem : Type :=
| OtherContainer (session : string)
| Uncovered (sessions : list string)
| SpansBoots (boots : list string)
| DifferentEvidence.

Inductive RecordedBoot : Type :=
| Evidence (e : json)
| Problem (p : problem).

(** The loop over the records: the boot of each session and the sessions with
    calls, or the problem it returns with. *)
Fixpoint scan (boots : list (string * json)) (calls : list string) (records : list AuditRecord)
    : problem + (list (string * json) * list string) :=
  match records with
  | [] => inr (boots, calls)
  | r :: rest =>
      let session := session_of r in
      let calls := if is_call r then JsSet.add session calls else calls in
      if negb (is_boot r) then scan boots calls rest
      else if other_container r then inl (OtherContainer session)
      else scan (JsMap.put session (evidence_of r) boots) calls rest
  end.

Definition boot_id (e : json) : string := match oprop "bootId" e with JStr s => s | _ => "" end.

Definition recordedBootEvidence (runRecords : list AuditRecord) : option RecordedBoot :=
  match scan [] [] runRecords with
  | inl p => Some (Problem p)
  | inr (boots, calls) =>
      match last boots with
      | None => None
      | Some (_, evidence) =>
          let uncovered := List.filter (fun s => negb (JsMap.has s boots)) calls in
          let ids := JsSet.of_list (map (fun b => boot_id b.2) boots) in
          if negb (length uncovered =? 0) then Some (Problem (Uncovered uncovered))
          else if 1 <? length ids then Some (Problem (SpansBoots ids))
          else if existsb (fun b => negb (String.eqb (bootIdentity b.2) (bootIdentity evidence))) boots
          then Some (Problem DifferentEvidence)
          else Some (Evidence evidence)
      end
  end.

(** ** What the evidence of a run means *)

(** The last well-formed boot record of a session. *)
Definition boot_of (rs : list AuditRecord) (session : string) : option json :=
  last (map evidence_of (List.filter (fun r => is_boot r && String.eqb (session_of r) session) rs)).

(** No boot record names a container other than its session's. *)
Definition consistent (rs : list AuditRecord) : Prop :=
  Forall (fun r => is_boot r = true -> other_container r = false) rs.

(** An evidence the whole run ran in. *)
Definition covers (rs : list AuditRecord) (e : json) : Prop :=
  consistent rs /\
  (exists session, boot_of rs session = Some e) /\
  (forall r, r ∈ rs -> is_call r = true -> exists e', boot_of rs (session_of r) = Some e') /\
  (forall session e', boot_of rs session = Some e' -> bootIdentity e' = bootIdentity e).

(** ** Lemmas *)

Definition step_boot (boots : list (string * json)) (r : AuditRecord) : list (string * json) :=
  if is_boot r then JsMap.put (session_of r) (evidence_of r) boots else boots.
Definition step_calls (calls : list string) (r : AuditRecord) : list string :=
  if is_call r then JsSet.add (session_of r) calls else calls.

Lemma scan_spec rs boots calls :
  match scan boots calls rs with
  | inl _ => ~ consistent rs
  | inr (b, c) => consistent rs /\ b = foldl step_boot boots rs /\ c = foldl step_calls calls rs
  end.
Proof.
  unfold consistent. revert boots calls; induction rs as [|r rs IH]; intros boots calls; cbn [scan foldl].
  { by split; [constructor|]. }
  fold (step_calls calls r). specialize (IH (step_boot boots r) (step_calls calls r)). revert IH.
  assert (step_boot boots r = if is_boot r then JsMap.put (session_of r) (evidence_of r) boots else boots) as -> by done.
  destruct (is_boot r) eqn:Hb; cbn [negb].
  - destruct (other_container r) eqn:Ho.
    + intros _ [H _]%Forall_cons. specialize (H Hb). congruence.
    + destruct (scan _ _ rs) as [p|[b c]]; rewrite Forall_cons; tauto.
  - destruct (scan _ _ rs) as [p|[b c]]; rewrite Forall_cons, Hb; naive_solver.
Qed.

Lemma step_calls_spec rs calls s :
  s ∈ foldl step_calls calls rs <-> s ∈ calls \/ exists r, r ∈ rs /\ is_call r = true /\ session_of r = s.
Proof.
  revert calls; induction rs as [|r rs IH]; intros calls; cbn [foldl].
  { split; [by left|]. intros [?|(r & ?%elem_of_nil & _)]; done. }
  rewrite IH. unfold step_calls. setoid_rewrite elem_of_cons.
  destruct (is_call r) eqn:E; rewrite ?JsSet.elem_of_add; split.
  - intros [[->|?]|(r' & ? & ? & ?)]; eauto 7.
  - intros [?|(r' & [->|?] & ? & <-)]; eauto 7.
  - intros [?|(r' & ? & ? & ?)]; eauto 7.
  - intros [?|(r' & [->|?] & ? & <-)]; eauto 7; congruence.
Qed.

Lemma step_boot_spec rs boots s :
  JsMap.get s (foldl step_boot boots rs) =
    match boot_of rs s with Some e => Some e | None => JsMap.get s boots end.
Proof.
  revert boots; induction rs as [|r rs IH] using rev_ind; intros boots; [done|].
  rewrite foldl_app. cbn [foldl]. unfold boot_of, step_boot.
  rewrite List.filter_app, map_app. cbn [List.filter]. destruct (is_boot r); cbn [andb].
  - rewrite JsMap.get_put. destruct (String.eqb_spec (session_of r) s) as [->|Hne].
    + rewrite decide_True by done. cbn [map]. by rewrite last_snoc.
    + rewrite decide_False by done. rewrite app_nil_r. apply IH.
  - rewrite app_nil_r. apply IH.
Qed.

Lemma step_boot_nodup rs boots : NoDup boots.*1 -> NoDup (foldl step_boot boots rs).*1.
Proof.
  revert boots; induction rs as [|r rs IH]; intros boots H; [done|]. cbn [foldl]. apply IH.
  unfold step_boot. case_match; auto with berth.
Qed.

Lemma boot_of_elem rs s e :
  boot_of rs s = Some e <-> (s, e) ∈ foldl step_boot [] rs.
Proof.
  assert (NoDup (foldl step_boot [] rs).*1) as Hnd by (apply step_boot_nodup, NoDup_nil_2).
  pose proof (step_boot_spec rs [] s) as Hg. split.
  - intros H. rewrite H in Hg. by apply JsMap.get_elem_of.
  - intros H. apply JsMap.elem_of_get in H; [|done]. rewrite H in Hg. cbn in Hg. by destruct (boot_of rs s).
Qed.

Lemma calls_covered rs :
  List.filter (fun s => negb (JsMap.has s (foldl step_boot [] rs))) (foldl step_calls [] rs) = [] <->
  (forall r, r ∈ rs -> is_call r = true -> exists e', boot_of rs (session_of r) = Some e').
Proof.
  assert (forall s, JsMap.has s (foldl step_boot [] rs) = true <-> exists e, boot_of rs s = Some e) as Hhas.
  { intros s. unfold JsMap.has. rewrite step_boot_spec. cbn. destruct (boot_of rs s); naive_solver. }
  split.
  - intros H r Hr Hc. apply Hhas. destruct (JsMap.has _ _) eqn:E; [done|].
    assert (session_of r ∈ List.filter (fun s => negb (JsMap.has s (foldl step_boot [] rs))) (foldl step_calls [] rs)) as Hin.
    { apply list_elem_of_In, filter_In. rewrite E. split; [|done]. apply list_elem_of_In, step_calls_spec. eauto. }
    rewrite H in Hin. by apply elem_of_nil in Hin.
  - intros H. destruct (List.filter _ _) as [|s l] eqn:E; [done|]. exfalso.
    assert (In s (s :: l)) as Hin by by left. rewrite <- E in Hin.
    apply filter_In in Hin as [Hin%list_elem_of_In Hs]. apply step_calls_spec in Hin as [[]%elem_of_nil|(r & Hr & Hc & <-)].
    destruct (H r Hr Hc) as [e' He']. apply negb_true_iff in Hs. assert (JsMap.has (session_of r) (foldl step_boot [] rs) = true) by (apply Hhas; eauto).
    congruence.
Qed.

Lemma bootIdentity_bootId e e' :
  isBootEvidence e = true -> isBootEvidence e' = true -> bootIdentity e = bootIdentity e' -> boot_id e = boot_id e'.
Proof.
  unfold isBootEvidence, bootIdentity, boot_id. destruct e as [| | | | | |o]; try done.
  destruct e' as [| | | | | |o']; try done. intros H H'. 
  destruct (oprop "bootId" (JObj o)) eqn:E; try done. destruct (oprop "bootId" (JObj o')) eqn:E'; try done.
  cbn [render]. intros Hi. apply cons_inj_str in Hi. cbn [map Str.join render] in Hi.
  rewrite !app_assoc_str in Hi. by apply quote_inj in Hi as [-> _].
Qed.

Lemma boot_of_valid rs s e : boot_of rs s = Some e -> isBootEvidence e = true.
Proof.
  unfold boot_of. intros (r & -> & Hr)%last_Some_elem_of%list_elem_of_fmap.
  apply list_elem_of_In, filter_In in Hr as [_ Hr]. unfold is_boot in Hr. by bools.
Qed.

Lemma one_id (l : list string) x : NoDup l -> (forall y, y ∈ l -> y = x) -> length l <= 1.
Proof.
  intros Hnd H. destruct l as [|a [|b l]]; cbn; [lia..|]. exfalso.
  apply NoDup_cons in Hnd as [Hn _]. apply Hn. rewrite (H a) by set_solver. rewrite (H b) by set_solver. by left.
Qed.

Lemma all_take p n s : Str.all p s = true -> Str.all p (Str.take n s) = true.
Proof.
  revert n; induction s as [|c s IH]; intros [|n]; cbn; try done.
  rewrite !andb_true_iff. intros [? ?]; auto.
Qed.

Lemma all_trim p s : Str.all p s = true -> Str.all p (Str.trim s) = true.
Proof.
  intros H. unfold Str.trim. assert (Str.all p (Str.trim_start s) = true) as Hs.
  { induction s as [|c s IH]; cbn in *; [done|]. bools. case_match; cbn; by rewrite ?andb_true_iff; auto. }
  revert Hs. generalize (Str.trim_start s). clear. intros s. induction s as [|c s IH]; cbn; [done|].
  rewrite andb_true_iff. intros [Hc Hs]. specialize (IH Hs). destruct (Str.trim_end s).
  - destruct (Str.is_space c); cbn; by rewrite ?Hc.
  - cbn in *. by rewrite Hc, IH.
Qed.

Lemma clean_printable s : Str.all (fun c => negb (is_control c)) (clean s) = true.
Proof.
  apply all_trim. induction s as [|c s IH]; [done|]. cbn. rewrite IH, andb_true_r.
  destruct (is_control c) eqn:E; [done|]. by rewrite E.
Qed.

(** What a reason keeps of an error: at most 300 characters, no control
    character and so one line, and the count of what was cut. *)
Theorem auditReason_spec raw :
  String.length (kept (auditReason raw)) <= MAX_REASON_CHARS /\
  Str.all (fun c => negb (is_control c)) (kept (auditReason raw)) = true /\
  kept (auditReason raw) = Str.take MAX_REASON_CHARS (clean (first_line raw)) /\
  String.length (kept (auditReason raw)) + not_recorded (auditReason raw) = String.length (clean (first_line raw)).
Proof.
  unfold auditReason. pose proof (clean_printable (first_line raw)) as Hp.
  destruct (Nat.leb_spec (String.length (clean (first_line raw))) MAX_REASON_CHARS) as [Hle|Hgt]; cbn [kept not_recorded].
  - split_and!; [done|done|by rewrite StrFacts.take_ge|lia].
  - rewrite StrFacts.length_take. split_and!; [lia|by apply all_take|done|lia].
Qed.

(** [C23] The boot a run is attested with is the boot its calls ran in. The
    evidence found is the last one some session recorded; every session with a
    call recorded one, all of them describe the same boot, container, image,
    policies and rulesets, and no record names another container than its own.
    When the answer is a problem no evidence is like that, and nothing is
    answered only when no session recorded a boot. *)
Theorem recordedBootEvidence_spec rs :
  match recordedBootEvidence rs with
  | None => consistent rs /\ forall session, boot_of rs session = None
  | Some (Evidence e) => covers rs e
  | Some (Problem _) => ~ exists e, covers rs e
  end.
Proof.
  unfold recordedBootEvidence. pose proof (scan_spec rs [] []) as Hscan.
  destruct (scan [] [] rs) as [p|[boots calls]]; [by intros (e & Hc & _)|].
  destruct Hscan as (Hcons & -> & ->). pose proof (boot_of_elem rs) as Hel. pose proof (calls_covered rs) as Hcov.
  set (boots := foldl step_boot [] rs) in *. destruct (last boots) as [[s e]|] eqn:El.
  2:{ split; [done|]. intros s. apply last_None in El. destruct (boot_of rs s) as [e|] eqn:E; [|done].
      apply Hel in E. rewrite El in E. by apply elem_of_nil in E. }
  assert (boot_of rs s = Some e) as Hse by (by apply Hel, last_Some_elem_of).
  destruct (List.filter _ _) as [|u us]; cbn [length Nat.eqb negb].
  2:{ intros (e' & _ & _ & Hc & _). apply Hcov in Hc. done. }
  destruct (1 <? length _) eqn:Hids.
  { intros (e' & _ & _ & _ & Hsame). apply Nat.ltb_lt in Hids.
    enough (length (JsSet.of_list (map (fun b => boot_id b.2) boots)) <= 1) by lia.
    apply (one_id _ (boot_id e)); [apply JsSet.NoDup_of_list|]. intros y Hy.
    rewrite JsSet.elem_of_of_list in Hy. apply list_elem_of_fmap in Hy as ([s2 e2] & -> & Hin). apply Hel in Hin. cbn [snd].
    apply bootIdentity_bootId; [by eapply boot_of_valid|by eapply boot_of_valid|].
    by rewrite (Hsame _ _ Hin), (Hsame _ _ Hse). }
  destruct (existsb _ boots) eqn:Hd.
  - intros (e' & _ & _ & _ & Hsame). apply existsb_exists in Hd as ([s' e''] & Hin%list_elem_of_In & Hne).
    apply Hel in Hin. cbn in Hne. apply negb_true_iff, String.eqb_neq in Hne. apply Hne.
    by rewrite (Hsame _ _ Hin), (Hsame _ _ Hse).
  - split_and!; [done|eauto|by apply Hcov|]. intros s' e' He'%Hel.
    apply not_true_iff_false in Hd. destruct (String.eqb_spec (bootIdentity e') (bootIdentity e)) as [|Hne]; [done|].
    exfalso. apply Hd, existsb_exists. exists (s', e'). split; [by apply list_elem_of_In|]. cbn.
    by apply negb_true_iff, String.eqb_neq.
Qed.

End RunAudit.
