(* ===== verification/McpCall.v ===== *)
(** * A tool call of [berth mcp] (packages/cli/src/util/mcp-call.ts)

    What becomes of a call, from the client's arguments to its answer and its
    audit record, and the end of the session. Calls run at the same time: each
    event is what one of them, the client or the session's end does next, and
    the handler's code between two [await]s is one step. *)
From S2P Require Import Prelude Json Attest Manifest Glob Capability Explain RunAudit LineRpc.

Module McpCall.
Import Json RunAudit Explain Capability.

(** ** The wait for an answer *)

Definition TIMEOUT_MS_GRACE : Z := 15000.

Definition rpcTimeoutFor (args : json) (callTimeoutMs : Z) : Z :=
  match oprop "timeout_ms" args with
  | JNum own => if (0 <? own)%Z then Z.max callTimeoutMs (own + TIMEOUT_MS_GRACE) else callTimeoutMs
  | _ => callTimeoutMs
  end.

(** ** Refusals an app reports inside a successful call *)

Record ReportedDenial := { d_path : string; d_line : string }.

Definition MAX_REPORTED_DENIALS : nat := 10.
Definition MAX_REPORTED_CHARS : nat := 200.

Definition clean (text : string) : string := Str.take MAX_REPORTED_CHARS (RunAudit.clean text).

Fixpoint collect_denials (out : list ReportedDenial) (entries : list json) : list ReportedDenial :=
  match entries with
  | [] => out
  | entry :: rest =>
      match oprop "path" entry, oprop "line" entry with
      | JStr path, JStr line =>
          if negb (Str.starts_with "/" path) then collect_denials out rest
          else
            let out := out ++ [{| d_path := clean path; d_line := clean line |}] in
            if length out =? MAX_REPORTED_DENIALS then out else collect_denials out rest
      | _, _ => collect_denials out rest
      end
  end.

Definition reportedDenials (result : json) : list ReportedDenial :=
  match oprop "denials" result with JArr l => collect_denials [] l | _ => [] end.

Definition exportReportsDenials (exports : list Manifest.ExportSpec) (exportName : string) : bool :=
  match List.find (fun e => String.eqb (Manifest.e_name e) exportName) exports with
  | Some e =>
      match Manifest.e_output e with
      | Some o => match JsMap.get "denials" o with Some Manifest.TArray => true | _ => false end
      | None => false
      end
  | None => false
  end.

(** ** One call *)

Record RpcResponse := { error : option string; result : json }.

(** How [ctx.call] settles. *)
Inductive ending : Type :=
| Answered (response : RpcResponse)
| RpcNotSent
| Rejected (reason : string).

(** The client of the line protocol, as the [ctx.call] of a microVM or a container. *)
Definition ending_of (why : LineRpc.outcome -> string) (o : LineRpc.outcome) : ending :=
  match o with
  | LineRpc.Resolved response =>
      Answered {| error := match oprop "error" response with JStr s => Some s | _ => None end;
                  result := oprop "result" response |}
  | LineRpc.NotSent => RpcNotSent
  | o => Rejected (why o)
  end.

Inductive text : Type :=
| CancelledBeforeCall
| CancelledBeforeWritten
| NoAnswerMayHaveRun (reason : string)
| ExplainedError (x : explained)
| ResultText (s : string)
| DenialsNote (denials : list ReportedDenial).

Record ToolResult := { isError : bool; content : list text }.

(** What the handler keeps of a call between its [await]s. *)
Record Call := {
  k_export : string;
  k_input : json;
  k_startedAt : Z;
  k_reportsDenials : bool
}.

Inductive status : Type :=
| NeverSent (res : ToolResult)          (* cancelled before it was taken on *)
| Waiting (c : Call)
| Returned (c : Call) (e : ending) (res : ToolResult)
| Threw (c : Call) (e : ending) (err : Capability.capability_error).

Inductive phase : Type := Serving | AwaitingPending | Interrupting | Stopping | Exited.

Record Bridge := {
  calls : gmap nat status;
  inFlight : list (nat * Call);
  queue : list (nat * Call);            (* what [interruptAll] has still to record *)
  records : list (nat * AuditEvent);
  at_phase : phase
}.

Inductive event : Type :=
| Begin (k : nat) (c : Call) (aborted : bool)
| Settles (k : nat) (e : ending) (now : Z)
| ShutDown (urgent : bool) (now : Z)
| PendingDone (now : Z)                 (* the pending writes landed, or their time is up *)
| RecordLanded (now : Z)                (* [interruptAll] goes on to the next call *)
| StopDone.

Section bridge.
Context (ctx : ExplainContext) (audit : option RunAuditOptions) (describes : bool).

(** [response.error] is truthy. *)
Definition truthy_error (r : RpcResponse) : option string :=
  match error r with Some e => if String.eqb e "" then None else Some e | None => None end.

Definition resultFor (r : RpcResponse) : Prelude.result Capability.capability_error ToolResult :=
  match truthy_error r with
  | Some e => let? x := explainAppError e ctx in Ok {| isError := true; content := [ExplainedError x] |}
  | None => Ok {| isError := false; content := [ResultText (render (nullish (result r)))] |}
  end.

Definition not_sent_outcome (c : Call) (now : Z) : ToolCallOutcome :=
  {| o_export := k_export c; o_input := k_input c; o_durationMs := (now - k_startedAt c)%Z; o_result := JUndef;
     o_error := None; o_denied := false; o_reportedDeniedPaths := []; o_unanswered := None; o_notSent := true |}.

Definition unanswered_outcome (c : Call) (now : Z) (reason : string) (interrupted : bool) : ToolCallOutcome :=
  {| o_export := k_export c; o_input := k_input c; o_durationMs := (now - k_startedAt c)%Z; o_result := JUndef;
     o_error := None; o_denied := false; o_reportedDeniedPaths := []; o_unanswered := Some (reason, interrupted);
     o_notSent := false |}.

Definition error_outcome (c : Call) (now : Z) (e : string) (x : explained) : ToolCallOutcome :=
  {| o_export := k_export c; o_input := k_input c; o_durationMs := (now - k_startedAt c)%Z; o_result := JUndef;
     o_error := Some e; o_denied := starts_denial x; o_reportedDeniedPaths := []; o_unanswered := None;
     o_notSent := false |}.

Definition denials_of (c : Call) (r : RpcResponse) : list ReportedDenial :=
  if k_reportsDenials c then reportedDenials (result r) else [].

Definition result_outcome (c : Call) (now : Z) (r : RpcResponse) : ToolCallOutcome :=
  {| o_export := k_export c; o_input := k_input c; o_durationMs := (now - k_startedAt c)%Z; o_result := result r;
     o_error := None; o_denied := false; o_reportedDeniedPaths := map d_path (denials_of c r); o_unanswered := None;
     o_notSent := false |}.

Definition set_status (k : nat) (st : status) (s : Bridge) : Bridge :=
  {| calls := <[k := st]> (calls s); inFlight := inFlight s; queue := queue s; records := records s; at_phase := at_phase s |}.
Definition set_inFlight (l : list (nat * Call)) (s : Bridge) : Bridge :=
  {| calls := calls s; inFlight := l; queue := queue s; records := records s; at_phase := at_phase s |}.
Definition set_queue (l : list (nat * Call)) (s : Bridge) : Bridge :=
  {| calls := calls s; inFlight := inFlight s; queue := l; records := records s; at_phase := at_phase s |}.
Definition set_phase (p : phase) (s : Bridge) : Bridge :=
  {| calls := calls s; inFlight := inFlight s; queue := queue s; records := records s; at_phase := p |}.

(** [runAudit?.toolCall(outcome)] *)
Definition record (k : nat) (o : ToolCallOutcome) (s : Bridge) : Bridge :=
  match audit with
  | Some options =>
      {| calls := calls s; inFlight := inFlight s; queue := queue s;
         records := records s ++ [(k, toolCall options o)]; at_phase := at_phase s |}
  | None => s
  end.

(** [handleToolCall] up to the answer of the app. *)
Definition begin_call (k : nat) (c : Call) (aborted : bool) (s : Bridge) : Bridge :=
  if aborted then set_status k (NeverSent {| isError := true; content := [CancelledBeforeCall] |}) s
  else set_status k (Waiting c) (set_inFlight (inFlight s ++ [(k, c)]) s).

(** The rest of it, whichever way [ctx.call] settled. *)
Definition settle_call (k : nat) (c : Call) (e : ending) (now : Z) (s : Bridge) : Bridge :=
  let still := JsMap.has k (inFlight s) in
  let s := set_inFlight (JsMap.remove k (inFlight s)) s in
  let returned res s := set_status k (Returned c e res) s in
  match e with
  | RpcNotSent =>
      returned {| isError := true; content := [CancelledBeforeWritten] |}
        (if still then record k (not_sent_outcome c now) s else s)
  | Rejected reason =>
      returned {| isError := true; content := [NoAnswerMayHaveRun reason] |}
        (if still then record k (unanswered_outcome c now reason false) s else s)
  | Answered r =>
      if negb still then
        match resultFor r with Ok res => returned res s | Err err => set_status k (Threw c e err) s end
      else
        match truthy_error r with
        | Some raw =>
            match explainAppError raw ctx with
            | Ok x => returned {| isError := true; content := [ExplainedError x] |} (record k (error_outcome c now raw x) s)
            | Err err => set_status k (Threw c e err) s
            end
        | None =>
            let denials := denials_of c r in
            let note := if negb (length denials =? 0) && describes then [DenialsNote denials] else [] in
            returned {| isError := false; content := ResultText (render (nullish (result r))) :: note |}
              (record k (result_outcome c now r) s)
        end
  end.

(** One turn of the loop of [interruptAll]; past its last call, [stop] is called. *)
Definition next_interrupted (now : Z) (s : Bridge) : Bridge :=
  match queue s with
  | [] => set_phase Stopping s
  | (k, c) :: rest => record k (unanswered_outcome c now "the session ended" true) (set_queue rest s)
  end.

Definition interrupt (now : Z) (s : Bridge) : Bridge :=
  next_interrupted now (set_phase Interrupting (set_queue (inFlight s) (set_inFlight [] s))).

Definition step (s : Bridge) (ev : event) : Bridge :=
  match at_phase s with
  | Exited => s
  | p =>
      match ev with
      | Begin k c aborted =>
          match calls s !! k with Some _ => s | None => begin_call k c aborted s end
      | Settles k e now =>
          match calls s !! k with Some (Waiting c) => settle_call k c e now s | _ => s end
      | ShutDown urgent now =>
          match p with
          | Serving => if urgent then interrupt now s else set_phase AwaitingPending s
          | AwaitingPending => if urgent then interrupt now s else s
          | _ => s
          end
      | PendingDone now => match p with AwaitingPending => interrupt now s | _ => s end
      | RecordLanded now => match p with Interrupting => next_interrupted now s | _ => s end
      | StopDone => match p with Stopping => set_phase Exited s | _ => s end
      end
  end.

Definition init : Bridge := {| calls := ∅; inFlight := []; queue := []; records := []; at_phase := Serving |}.
Definition run (evs : list event) : Bridge := foldl step init evs.

End bridge.

(** ** What an app can put in front of an agent *)

Lemma starts_slash_clean path : Str.starts_with "/" path = true -> Str.starts_with "/" (clean path) = true.
Proof.
  intros [t ->]%StrFacts.starts_with_spec. unfold clean, RunAudit.clean. rewrite app_cons_str, app_empty_str.
  set (u := Str.map (fun c => if is_control c then " "%char else c) t).
  change (Str.map (fun c => if is_control c then " "%char else c) (String "/" t)) with (String "/" u).
  unfold Str.trim. change (Str.trim_start (String "/" u)) with (String "/" u).
  cbn [Str.trim_end]. destruct (Str.trim_end u); done.
Qed.

Definition bounded_denial (d : ReportedDenial) : Prop :=
  Str.starts_with "/" (d_path d) = true /\
  String.length (d_path d) <= MAX_REPORTED_CHARS /\ String.length (d_line d) <= MAX_REPORTED_CHARS /\
  Str.all (fun c => negb (is_control c)) (d_path d) = true /\ Str.all (fun c => negb (is_control c)) (d_line d) = true.

Lemma clean_bounded t :
  String.length (clean t) <= MAX_REPORTED_CHARS /\ Str.all (fun c => negb (is_control c)) (clean t) = true.
Proof. unfold clean. rewrite StrFacts.length_take. split; [lia|]. apply all_take, clean_printable. Qed.

Lemma collect_denials_bounded entries out :
  length out < MAX_REPORTED_DENIALS -> Forall bounded_denial out ->
  length (collect_denials out entries) <= MAX_REPORTED_DENIALS /\ Forall bounded_denial (collect_denials out entries).
Proof.
  revert out; induction entries as [|entry rest IH]; intros out Hl Hf; [by split; [apply Nat.lt_le_incl|]|].
  cbn [collect_denials]. destruct (oprop "path" entry) as [| | | |path| |]; auto.
  destruct (oprop "line" entry) as [| | | |line| |]; auto.
  destruct (Str.starts_with "/" path) eqn:Hs; cbn [negb]; auto.
  assert (Forall bounded_denial (out ++ [{| d_path := clean path; d_line := clean line |}])) as Hf'.
  { apply Forall_app_2; [done|]. apply Forall_singleton. pose proof (clean_bounded path). pose proof (clean_bounded line).
    split_and!; cbn; [by apply starts_slash_clean|tauto..]. }
  rewrite length_app. cbn [length]. destruct (Nat.eqb_spec (length out + 1) MAX_REPORTED_DENIALS) as [He|He].
  - split; [|done]. rewrite length_app. cbn [length]. lia.
  - apply IH; [|done]. rewrite length_app. cbn [length]. lia.
Qed.

(** Whatever an app returns, at most ten refusals are taken from it, each an
    absolute path and a line of at most 200 characters without control characters. *)
Theorem reportedDenials_bounded result :
  length (reportedDenials result) <= MAX_REPORTED_DENIALS /\ Forall bounded_denial (reportedDenials result).
Proof.
  unfold reportedDenials. destruct (oprop "denials" result) as [| | | | |l|]; try (split; [apply Nat.le_0_l|constructor]).
  apply collect_denials_bounded; [unfold MAX_REPORTED_DENIALS; cbn; lia|constructor].
Qed.

(** ** What a record says of its call *)

Section audited.
Context (ctx : ExplainContext) (options : RunAuditOptions) (describes : bool).
Abbreviation step := (step ctx (Some options) describes).
Abbreviation run := (run ctx (Some options) describes).

(** The outcome recorded for a call that ended by itself. *)
Inductive told (c : Call) (now : Z) : ending -> ToolCallOutcome -> Prop :=
| told_not_sent : told c now RpcNotSent (not_sent_outcome c now)
| told_no_answer reason : told c now (Rejected reason) (unanswered_outcome c now reason false)
| told_error r raw x :
    truthy_error r = Some raw -> explainAppError raw ctx = Ok x ->
    told c now (Answered r) (error_outcome c now raw x)
| told_result r : truthy_error r = None -> told c now (Answered r) (result_outcome c now r).

Definition call_of (st : status) : option Call :=
  match st with NeverSent _ => None | Waiting c | Returned c _ _ | Threw c _ _ => Some c end.

(** A record is of a call that was taken on, and either says the session ended
    first or tells how the call ended. *)
Definition truthful (s : Bridge) (k : nat) (ev : AuditEvent) : Prop :=
  exists c st now, calls s !! k = Some st /\ call_of st = Some c /\
    (ev = toolCall options (unanswered_outcome c now "the session ended" true) \/
     exists e res o, st = Returned c e res /\ told c now e o /\ ev = toolCall options o).

(** Where a call that was taken on is accounted for. *)
Definition ledger (s : Bridge) : list nat := (inFlight s).*1 ++ (queue s).*1 ++ (records s).*1.

Definition taken_on (s : Bridge) (k : nat) : Prop := exists c, (st ← calls s !! k; call_of st) = Some c.

Record Inv (s : Bridge) : Prop := {
  i_nodup : NoDup (ledger s);
  i_ledger k : k ∈ ledger s <-> taken_on s k;
  i_queue : at_phase s <> Interrupting -> queue s = [];
  i_calls k c : (k, c) ∈ inFlight s \/ (k, c) ∈ queue s -> (st ← calls s !! k; call_of st) = Some c;
  i_flight k c : (k, c) ∈ inFlight s -> calls s !! k = Some (Waiting c);
  i_truth k ev : (k, ev) ∈ records s -> truthful s k ev
}.

Lemma keys_remove {A} k (l : list (nat * A)) :
  NoDup l.*1 -> JsMap.has k l = true -> l.*1 ≡ₚ k :: (JsMap.remove k l).*1.
Proof.
  unfold JsMap.has, JsMap.remove. induction l as [|[k' a] l IH]; [done|]. cbn [JsMap.get]. rewrite fmap_cons, NoDup_cons. cbn [fst].
  intros [Hk Hnd] H. destruct (decide (k = k')) as [->|Hne].
  - rewrite filter_cons_False by (cbn; tauto). constructor. f_equiv.
    rewrite filter_Forall; [done|]. apply Forall_forall. intros [k2 b] Hin Heq. cbn in Heq. apply Hk.
    apply list_elem_of_fmap. exists (k2, b). done.
  - rewrite filter_cons_True by (cbn; congruence). rewrite fmap_cons. cbn [fst].
    rewrite (IH Hnd H). apply perm_swap.
Qed.

Lemma has_elem {A} k (l : list (nat * A)) : JsMap.has k l = true <-> k ∈ l.*1.
Proof.
  unfold JsMap.has. destruct (JsMap.get k l) as [a|] eqn:E.
  - split; [|done]. intros _. apply list_elem_of_fmap. exists (k, a). split; [done|by apply JsMap.get_elem_of].
  - split; [done|]. by apply JsMap.get_None in E.
Qed.

Lemma init_inv : Inv init.
Proof.
  split; cbn; try done.
  - apply NoDup_nil_2.
  - intros k. unfold taken_on. cbn. rewrite lookup_empty. cbn. split; [by intros ?%elem_of_nil|by intros []].
  - by intros k c [?%elem_of_nil|?%elem_of_nil].
  - by intros k c ?%elem_of_nil.
  - by intros k c ?%elem_of_nil.
Qed.

Lemma ledger_move (a b c : list nat) k : a ++ (k :: b) ++ c ≡ₚ a ++ b ++ (c ++ [k]).
Proof. f_equiv. cbn. rewrite app_assoc. apply Permutation_cons_append. Qed.

(** A call that ends keeps its place in the ledger, and the records their truth. *)
Lemma taken_on_returned s s' k c st :
  calls s' = <[k := st]> (calls s) -> calls s !! k = Some (Waiting c) -> call_of st = Some c ->
  forall k', (st ← calls s' !! k'; call_of st) = (st ← calls s !! k'; call_of st).
Proof.
  intros -> Hk Hst k'. destruct (decide (k' = k)) as [->|Hne].
  - by rewrite lookup_insert_eq, Hk.
  - by rewrite lookup_insert_ne.
Qed.

Lemma truthful_returned s s' k c e res k' ev :
  calls s' = <[k := Returned c e res]> (calls s) -> calls s !! k = Some (Waiting c) ->
  truthful s k' ev -> truthful s' k' ev.
Proof.
  intros Hs Hk (c' & st & now & Hst & Hc & Hev). unfold truthful. rewrite Hs.
  destruct (decide (k' = k)) as [->|Hne].
  - rewrite Hk in Hst. injection Hst as <-. injection Hc as <-. rewrite lookup_insert_eq.
    exists c, (Returned c e res), now. split_and!; [done..|]. destruct Hev as [?|(? & ? & ? & [=] & _)]. by left.
  - exists c', st, now. by rewrite lookup_insert_ne.
Qed.

(** The two ways a call ends: it was in flight and is recorded, or the session's
    end has recorded it, or will. *)
Lemma settle_recorded s k c e res o now :
  Inv s -> calls s !! k = Some (Waiting c) -> JsMap.has k (inFlight s) = true -> told c now e o ->
  Inv (set_status k (Returned c e res) (record (Some options) k o (set_inFlight (JsMap.remove k (inFlight s)) s))).
Proof.
  intros [Hnd Hl Hq Hc Hf Ht] Hk Hhas Ho.
  set (s' := set_status _ _ _). assert (ledger s' ≡ₚ ledger s) as Hp.
  { unfold ledger; cbn. rewrite fmap_app. cbn. symmetry. rewrite (keys_remove k (inFlight s)).
    - cbn. rewrite Permutation_cons_append, <- !app_assoc. f_equiv.
    - unfold ledger in Hnd. by apply NoDup_app in Hnd as [? _].
    - done. }
  assert (calls s' = <[k := Returned c e res]> (calls s)) as Hs by done.
  pose proof (taken_on_returned s s' k c _ Hs Hk eq_refl) as Hto. split.
  - by rewrite Hp.
  - intros k'. rewrite Hp, Hl. unfold taken_on. by setoid_rewrite Hto.
  - done.
  - intros k' c' Hin. rewrite Hto. apply Hc. cbn in Hin. destruct Hin as [Hin|]; [left|by right].
    by apply list_elem_of_filter in Hin as [_ ?].
  - intros k' c' Hin. cbn in Hin. apply list_elem_of_filter in Hin as [Hne Hin].
    rewrite Hs, lookup_insert_ne by (cbn in Hne; congruence). by apply Hf.
  - intros k' ev Hin. cbn in Hin. apply elem_of_app in Hin as [Hin|Hin].
    + eapply truthful_returned; eauto.
    + apply list_elem_of_singleton in Hin. injection Hin as -> ->. exists c, (Returned c e res), now.
      rewrite Hs, lookup_insert_eq. split_and!; [done..|]. right. eauto 6.
Qed.

Lemma remove_unheld {A} k (l : list (nat * A)) : JsMap.has k l = false -> JsMap.remove k l = l.
Proof.
  intros H. unfold JsMap.remove. apply filter_Forall, Forall_forall. intros [k' a] Hin Heq. cbn in Heq. subst k'.
  apply not_true_iff_false in H. apply H, has_elem, list_elem_of_fmap. by exists (k, a).
Qed.

Lemma settle_unrecorded s k c e res :
  Inv s -> calls s !! k = Some (Waiting c) -> JsMap.has k (inFlight s) = false ->
  Inv (set_status k (Returned c e res) (set_inFlight (JsMap.remove k (inFlight s)) s)).
Proof.
  intros [Hnd Hl Hq Hc Hf Ht] Hk Hhas. rewrite remove_unheld by done. set (s' := set_status _ _ _).
  assert (calls s' = <[k := Returned c e res]> (calls s)) as Hs by done.
  pose proof (taken_on_returned s s' k c _ Hs Hk eq_refl) as Hto. split.
  - done.
  - intros k'. change (ledger s') with (ledger s). rewrite Hl. unfold taken_on. by setoid_rewrite Hto.
  - done.
  - intros k' c' Hin. rewrite Hto. by apply Hc.
  - intros k' c' Hin. rewrite Hs. destruct (decide (k' = k)) as [->|Hne]; [|rewrite lookup_insert_ne by done; by apply Hf].
    exfalso. apply not_true_iff_false in Hhas. apply Hhas, has_elem, list_elem_of_fmap. by exists (k, c').
  - intros k' ev Hin. eapply truthful_returned; [exact Hs|done|by apply Ht].
Qed.

Hypothesis (plain : forallb plain_grant (capabilities ctx) = true).

Lemma settle_inv s k c e now :
  Inv s -> calls s !! k = Some (Waiting c) -> Inv (settle_call ctx (Some options) describes k c e now s).
Proof.
  intros H Hk. unfold settle_call. destruct (JsMap.has k (inFlight s)) eqn:Hhas; cbn [negb].
  - destruct e as [r| |reason]; [|by eapply settle_recorded; eauto using told..].
    destruct (truthy_error r) as [raw|] eqn:Hr.
    + destruct (explain_total raw ctx plain) as [x Hx]. rewrite Hx. eapply settle_recorded; eauto using told.
    + eapply settle_recorded; eauto using told.
  - destruct e as [r| |reason]; [|by apply settle_unrecorded..].
    unfold resultFor. destruct (truthy_error r) as [raw|].
    + destruct (explain_total raw ctx plain) as [x Hx]. rewrite Hx. cbn [rbind]. by apply settle_unrecorded.
    + by apply settle_unrecorded.
Qed.

Lemma begin_inv s k c aborted : Inv s -> calls s !! k = None -> Inv (begin_call k c aborted s).
Proof.
  intros [Hnd Hl Hq Hc Hf Ht] Hk. unfold begin_call.
  assert (Hto : forall st k', k' <> k -> (st' ← <[k := st]> (calls s) !! k'; call_of st') = (st' ← calls s !! k'; call_of st')).
  { intros st k' Hne. by rewrite lookup_insert_ne. }
  assert (Hno : k ∉ ledger s) by (rewrite Hl; unfold taken_on; rewrite Hk; by intros []).
  assert (Hin : forall k' c', (k', c') ∈ inFlight s \/ (k', c') ∈ queue s -> k' <> k).
  { intros k' c' Hin ->. apply Hc in Hin. by rewrite Hk in Hin. }
  assert (Htr : forall st s', calls s' = <[k := st]> (calls s) -> forall k' ev, (k', ev) ∈ records s -> truthful s' k' ev).
  { intros st s' Hs k' ev Hr. destruct (Ht _ _ Hr) as (c' & st' & n & Hst & ? & ?). exists c', st', n.
    rewrite Hs, lookup_insert_ne by (intros <-; congruence). done. }
  destruct aborted; split; cbn; try done.
  - intros k'. change (ledger _) with (ledger s). rewrite Hl. unfold taken_on. cbn.
    destruct (decide (k' = k)) as [->|Hne]; [rewrite lookup_insert_eq, Hk; cbn; naive_solver|by setoid_rewrite Hto].
  - intros k' c' H. rewrite Hto by eauto. by apply Hc.
  - intros k' c' H. rewrite lookup_insert_ne by (apply not_eq_sym; eauto). by apply Hf.
  - intros k' ev Hr. by eapply Htr.
  - unfold ledger; cbn. rewrite fmap_app. cbn. rewrite <- (app_assoc _ [k]). cbn. rewrite <- Permutation_middle.
    constructor; done.
  - intros k'. unfold ledger; cbn. rewrite fmap_app. cbn. rewrite <- (app_assoc _ [k]). cbn. rewrite <- Permutation_middle, elem_of_cons.
    fold (ledger s). rewrite Hl. unfold taken_on; cbn.
    destruct (decide (k' = k)) as [->|Hne]; [rewrite lookup_insert_eq; cbn; naive_solver|setoid_rewrite Hto; naive_solver].
  - intros k' c' H. destruct (decide (k' = k)) as [->|Hne].
    + rewrite lookup_insert_eq. cbn. destruct H as [[H|H%list_elem_of_singleton]%elem_of_app|H].
      * exfalso. by eapply Hin; eauto. 
      * congruence.
      * exfalso. by eapply Hin; eauto.
    + rewrite Hto by done. apply Hc. destruct H as [[H|H%list_elem_of_singleton]%elem_of_app|H]; [by left|congruence|by right].
  - intros k' c' [H|H%list_elem_of_singleton]%elem_of_app.
    + rewrite lookup_insert_ne by (apply not_eq_sym; eauto). by apply Hf.
    + injection H as -> ->. by rewrite lookup_insert_eq.
  - intros k' ev Hr. by eapply Htr.
Qed.

Lemma phase_inv s p : Inv s -> queue s = [] -> Inv (set_phase p s).
Proof. intros [Hnd Hl Hq Hc Hf Ht] H0. by split. Qed.

Lemma next_inv s now : Inv s -> at_phase s = Interrupting -> Inv (next_interrupted (Some options) now s).
Proof.
  intros H Hp. unfold next_interrupted. destruct (queue s) as [|[k c] rest] eqn:E; [by apply phase_inv|].
  destruct H as [Hnd Hl Hq Hc Hf Ht]. set (s' := record _ _ _ _).
  assert (ledger s ≡ₚ ledger s') as Hperm.
  { unfold ledger; cbn. rewrite E, fmap_app. cbn. apply ledger_move. }
  split.
  - by rewrite <- Hperm.
  - intros k'. by rewrite <- Hperm, Hl.
  - done.
  - intros k' c' Hin. apply Hc. cbn in Hin. rewrite E. destruct Hin; [by left|right; by right].
  - done.
  - intros k' ev [Hin|Hin%list_elem_of_singleton]%elem_of_app; [by apply Ht|]. injection Hin as -> ->.
    assert (Hk : (st ← calls s !! k; call_of st) = Some c) by (apply Hc; right; rewrite E; by left).
    apply bind_Some in Hk as (st & Hst & Hk). exists c, st, now. split_and!; [done..|by left].
Qed.

Lemma interrupt_inv s now : Inv s -> at_phase s <> Interrupting -> Inv (interrupt (Some options) now s).
Proof.
  intros [Hnd Hl Hq Hc Hf Ht] Hp. apply next_inv; [|done]. split; cbn; try done.
  - revert Hnd. unfold ledger; cbn. by rewrite Hq.
  - intros k. change (taken_on _ k) with (taken_on s k). rewrite <- Hl. unfold ledger; cbn. by rewrite Hq.
  - intros k c [Hin|Hin]; [by apply elem_of_nil in Hin|]. apply Hc. by left.
  - by intros k c ?%elem_of_nil.
Qed.

Lemma bridge_step_inv s ev : Inv s -> Inv (step s ev).
Proof.
  intros H. assert (Hq := i_queue s H). unfold McpCall.step. destruct (at_phase s) eqn:Hp; [..|done].
  all: destruct ev as [k c aborted|k e now|urgent now|now|now|].
  all: try (destruct (calls s !! k) as [[]|] eqn:Hk; auto using begin_inv, settle_inv; done).
  all: try done.
  all: try (destruct urgent).
  all: try (apply interrupt_inv; [done|by rewrite Hp]).
  all: try (apply phase_inv; [done|by apply Hq]).
  all: try (by apply next_inv).
  all: try done.
Qed.

Lemma bridge_run_inv evs : Inv (run evs).
Proof.
  unfold McpCall.run. rewrite <- (rev_involutive evs). induction (rev evs) as [|e l IH]; [apply init_inv|].
  cbn [rev]. rewrite foldl_app. by apply bridge_step_inv.
Qed.

(** A call taken on before the session's end is not in flight after it. *)
Definition serving (s : Bridge) : Prop := at_phase s = Serving \/ at_phase s = AwaitingPending.
Definition left_behind (k : nat) (s : Bridge) : Prop := taken_on s k /\ (serving s \/ k ∉ (inFlight s).*1).

Lemma remove_keys_subseteq {A} k k' (l : list (nat * A)) : k ∉ l.*1 -> k ∉ (JsMap.remove k' l).*1.
Proof.
  intros H ([k2 a] & -> & Hin)%list_elem_of_fmap. apply list_elem_of_filter in Hin as [_ Hin].
  apply H, list_elem_of_fmap. by exists (k2, a).
Qed.

Lemma settle_shape k c e now s :
  exists st rs, call_of st = Some c /\
    settle_call ctx (Some options) describes k c e now s =
      {| calls := <[k := st]> (calls s); inFlight := JsMap.remove k (inFlight s); queue := queue s; records := rs;
         at_phase := at_phase s |}.
Proof.
  unfold settle_call, resultFor.
  destruct (JsMap.has k (inFlight s)), e as [r| |reason]; cbn [negb]; try (eexists _, _; split; [|reflexivity]; done).
  - destruct (truthy_error r); [destruct (explainAppError _ ctx)|]; eexists _, _; (split; [|reflexivity]); done.
  - destruct (truthy_error r); [destruct (explainAppError _ ctx)|]; eexists _, _; (split; [|reflexivity]); done.
Qed.

Lemma left_settle k k' c e now s :
  calls s !! k' = Some (Waiting c) -> left_behind k s ->
  left_behind k (settle_call ctx (Some options) describes k' c e now s).
Proof.
  intros Hk [Hto Hs]. destruct (settle_shape k' c e now s) as (st & rs & Hst & ->). split.
  - unfold taken_on in *. cbn. destruct (decide (k = k')) as [->|Hne]; [rewrite lookup_insert_eq; cbn; eauto|].
    by rewrite lookup_insert_ne.
  - destruct Hs as [Hs|Hs]; [by left|right]. by apply remove_keys_subseteq.
Qed.

Lemma left_begin k k' c aborted s :
  calls s !! k' = None -> left_behind k s -> left_behind k (begin_call k' c aborted s).
Proof.
  intros Hk [Hto Hs]. assert (k' <> k) as Hne by (intros ->; unfold taken_on in Hto; rewrite Hk in Hto; by destruct Hto).
  unfold begin_call, left_behind, taken_on in *. destruct aborted; cbn; rewrite lookup_insert_ne by done.
  - done.
  - split; [done|]. destruct Hs as [Hs|Hs]; [by left|right]. rewrite fmap_app, elem_of_app. cbn.
    rewrite list_elem_of_singleton. naive_solver.
Qed.

Lemma left_next k now s : left_behind k s -> k ∉ (inFlight s).*1 -> left_behind k (next_interrupted (Some options) now s).
Proof. intros [Hto _] Hs. unfold next_interrupted. destruct (queue s) as [|[k' c] rest]; (split; [done|by right]). Qed.

Lemma left_interrupt k now s : left_behind k s -> left_behind k (interrupt (Some options) now s).
Proof.
  intros [Hto _]. apply left_next; [split; [done|right]|]; cbn; by intros ?%elem_of_nil.
Qed.

Lemma step_left_behind k s ev : left_behind k s -> left_behind k (step s ev).
Proof.
  intros H. unfold McpCall.step. destruct (at_phase s) eqn:Hp; [..|done].
  all: destruct ev as [k' c aborted|k' e now|urgent now|now|now|].
  all: try (destruct (calls s !! k') as [[]|] eqn:Hk; auto using left_begin, left_settle; done).
  all: try destruct urgent.
  all: auto using left_interrupt.
  all: destruct H as [Hto [[Hs|Hs]|Hs]]; try congruence.
  all: try (by apply left_next; [split; [done|by right]|]).
  all: try (split; [done|by right]).
  all: try (split; [done|left; by right]).
Qed.

Lemma run_left_behind pre post k :
  taken_on (run pre) k -> serving (run pre) -> left_behind k (run (pre ++ post)).
Proof.
  intros Hto Hs. induction post as [|e post IH] using rev_ind; [rewrite app_nil_r; split; [done|by left]|].
  rewrite app_assoc. unfold McpCall.run in *. rewrite (foldl_app _ (pre ++ post)). cbn [foldl]. by apply step_left_behind.
Qed.


End audited.

(** ** Where a call goes unrecorded *)

Definition ex_options : RunAuditOptions :=
  {| runId := "run-1"; sessionId := "bridge-a"; app := "filesystem"; containerName := "berth-dev-filesystem"; via := "mcp" |}.
Definition ex_call : Call :=
  {| k_export := "write_file"; k_input := JObj [("path", JStr "a")]; k_startedAt := 5; k_reportsDenials := false |}.
Definition ex_run := run ex_ctx (Some ex_options) true.

(** A call that arrives while the sandbox is being stopped is sent like any
    other, and the process exits with no record of it. *)
Theorem late_call_unrecorded :
  let s := ex_run [Begin 0 ex_call false; ShutDown true 9; RecordLanded 9; Begin 1 ex_call false; StopDone] in
  at_phase s = Exited /\ calls s !! 1 = Some (Waiting ex_call) /\ (records s).*1 = [0].
Proof. by vm_compute. Qed.

(** A manifest the schema accepts whose grant does not compile to a regular
    expression: explaining a refusal throws, after the call was taken out of
    flight and before it is recorded. *)
Definition odd_ctx : ExplainContext :=
  {| appName := "notes"; capabilities := ["filesystem:write:/workspace/a???"]; manifestPath := "berth.yml"; enforcement := Enforced |}.

Theorem denied_call_unrecorded :
  let r := {| error := Some "EACCES: permission denied, mkdir '/tmp/x/y'"; result := JUndef |} in
  let s := run odd_ctx (Some ex_options) true [Begin 0 ex_call false; Settles 0 (Answered r) 9; ShutDown true 9; StopDone] in
  forallb (fun c => CapabilityString c && match capabilityIssue c with None => true | _ => false end) (capabilities odd_ctx) = true /\
  at_phase s = Exited /\ records s = [] /\
  calls s !! 0 = Some (Threw ex_call (Answered r) (Capability.InvalidRegExp Glob.NothingToRepeat)).
Proof. by vm_compute. Qed.


End McpCall.
