(* ===== verification/BootSession.v ===== *)
(** * The sandbox of a session (packages/cli/src/util/mcp-sandbox.ts)

    [startBackgroundSandbox]: sessions of [berth mcp] that look for the
    container of one name, claim the name, boot it or attach to it, and stop it.
    Several sessions run at once over one Docker. Each event is the answer to
    what a session is waiting for, or something Docker did meanwhile; the code
    up to the next [await] is one step. *)
From S2P Require Import Prelude.

Module BootSession.

Inductive failure : Type :=
| SessionEnded                (* SandboxNotReadyError from [stopped()] *)
| NoBoot                      (* booting isn't allowed *)
| NameConflict                (* Docker's 409 *)
| StepFailed.                 (* a step rejected *)

(** What [ready]'s function is waiting for. *)
Inductive pc : Type :=
| Finding (waited : bool)     (* find() *)
| FindingAgain                (* find(), with the claim *)
| Sleeping                    (* claimPollMs *)
| Attaching                   (* waitReady() of a container found *)
| Connecting                  (* connect(container, false) *)
| Booting                     (* boot() *)
| WaitingReady                (* waitReady() of the container booted *)
| ConnectingOwn               (* connect(container, true) *)
| CleaningUp (err : failure)  (* stopByName() of the catch *)
| Ready (bootedHere : bool)
| Failed (err : failure)
| Dead.                       (* the process is gone *)

(** What [stop()] is waiting for. *)
Inductive stop_pc : Type :=
| NotStopped
| StopFirst (wasStarting : bool)
| Settling
| StopSecond
| StopDone.

Inductive SandboxState : Type := Starting | IsReady | HasFailed | IsStopped.

Record Session := {
  at_ : pc;
  owns : bool;
  state : SandboxState;
  aborted : bool;
  stopping : stop_pc;
  allowBoot : bool
}.

(** Who made what Docker has under the name. *)
Inductive maker : Type := By (i : nat) | Elsewhere.

Record World := {
  sessions : gmap nat Session;
  claim : option nat;
  container : option maker;
  sidecar : option maker
}.

Inductive event : Type :=
| Start (i : nat) (allow : bool)
| Found (i : nat)                   (* find() answers with what is there *)
| FindFails (i : nat)
| Tick (i : nat)
| MakesSidecar (i : nat)            (* inside boot(): any sidecar of that name is replaced *)
| MakesContainer (i : nat)          (* inside boot(): refused when the name is taken *)
| Answers (i : nat) (ok : bool)     (* boot, waitReady or connect *)
| Cleaned (i : nat)                 (* the stopByName() of the catch is done *)
| Stop (i : nat)
| StopCleaned (i : nat)             (* the stopByName() of stop() is done *)
| SettleOver (i : nat)
| Dies (i : nat)                    (* the process is gone, and its claim with it *)
| Others (c : bool).                (* the container appears, or disappears, by other hands *)

Definition with_pc (p : pc) (s : Session) : Session :=
  {| at_ := p; owns := owns s; state := state s; aborted := aborted s; stopping := stopping s; allowBoot := allowBoot s |}.
Definition with_owns (b : bool) (s : Session) : Session :=
  {| at_ := at_ s; owns := b; state := state s; aborted := aborted s; stopping := stopping s; allowBoot := allowBoot s |}.
Definition with_stopping (p : stop_pc) (s : Session) : Session :=
  {| at_ := at_ s; owns := owns s; state := state s; aborted := aborted s; stopping := p; allowBoot := allowBoot s |}.

Definition put (i : nat) (s : Session) (w : World) : World :=
  {| sessions := <[i := s]> (sessions w); claim := claim w; container := container w; sidecar := sidecar w |}.
Definition set_claim (c : option nat) (w : World) : World :=
  {| sessions := sessions w; claim := c; container := container w; sidecar := sidecar w |}.
(** [release?.()] *)
Definition release (i : nat) (w : World) : World :=
  set_claim (if bool_decide (claim w = Some i) then None else claim w) w.
(** What [stopByName()] does: the sidecar and the container of that name go. *)
Definition stopByName (w : World) : World :=
  {| sessions := sessions w; claim := claim w; container := None; sidecar := None |}.

(** [ready] settles, and with it the state of a session still starting. *)
Definition settled (p : pc) (s : Session) : Session :=
  {| at_ := p; owns := owns s;
     state := match state s with
              | Starting => match p with Ready _ => IsReady | _ => HasFailed end
              | st => st
              end;
     aborted := aborted s; stopping := stopping s; allowBoot := allowBoot s |}.

(** [attach(container, stillBooting)] up to its first [await]. *)
Definition attach (i : nat) (s : Session) (stillBooting : bool) (w : World) : World :=
  if stillBooting then put i (with_pc Attaching s) w
  else if aborted s then put i (settled (Failed SessionEnded) s) w
  else put i (with_pc Connecting s) w.

(** The catch of the boot. *)
Definition failed_boot (i : nat) (s : Session) (err : failure) (w : World) : World :=
  match err with
  | NameConflict => release i (put i (settled (Failed err) (with_owns false s)) w)
  | _ => put i (with_pc (CleaningUp err) s) w
  end.

(** [stopped()], and the next step of the boot when it returns. *)
Definition go_on (i : nat) (s : Session) (next : World) (w : World) : World :=
  if aborted s then failed_boot i s SessionEnded w else next.

Definition found (i : nat) (s : Session) (w : World) : World :=
  match at_ s with
  | Finding waited =>
      if aborted s then put i (settled (Failed SessionEnded) s) w
      else match container w with
           | Some _ => attach i s waited w
           | None =>
               if negb (allowBoot s) then put i (settled (Failed NoBoot) s) w
               else match claim w with
                    | None => set_claim (Some i) (put i (with_pc FindingAgain s) w)
                    | Some _ => put i (with_pc Sleeping s) w
                    end
           end
  | FindingAgain =>
      match container w with
      | None => put i (with_pc Booting (with_owns true s)) w
      | Some _ => attach i s false (release i w)
      end
  | _ => w
  end.

Definition answers (i : nat) (s : Session) (ok : bool) (w : World) : World :=
  match at_ s with
  | Booting => if ok then go_on i s (put i (with_pc WaitingReady s) w) w else failed_boot i s StepFailed w
  | WaitingReady => if ok then go_on i s (put i (with_pc ConnectingOwn s) w) w else failed_boot i s StepFailed w
  | ConnectingOwn =>
      if ok then go_on i s (release i (put i (settled (Ready true) s) w)) w else failed_boot i s StepFailed w
  | Attaching =>
      if negb ok then put i (settled (Failed StepFailed) s) w
      else if aborted s then put i (settled (Failed SessionEnded) s) w
      else put i (with_pc Connecting s) w
  | Connecting => put i (settled (if ok then Ready false else Failed StepFailed) s) w
  | _ => w
  end.

Definition makes (i : nat) (s : Session) (is_container : bool) (w : World) : World :=
  match at_ s with
  | Booting =>
      if negb is_container then
        {| sessions := sessions w; claim := claim w; container := container w; sidecar := Some (By i) |}
      else match container w with
           | None => {| sessions := sessions w; claim := claim w; container := Some (By i); sidecar := sidecar w |}
           | Some _ => failed_boot i s NameConflict w
           end
  | _ => w
  end.

(** [stop()] up to its first [await]; a second call returns the first one's promise. *)
Definition stop (i : nat) (s : Session) (w : World) : World :=
  match stopping s with
  | NotStopped =>
      let wasStarting := match state s with Starting => true | _ => false end in
      put i {| at_ := at_ s; owns := owns s; state := IsStopped; aborted := true;
               stopping := if owns s then StopFirst wasStarting else StopDone; allowBoot := allowBoot s |} w
  | _ => w
  end.

Definition step (w : World) (e : event) : World :=
  let on i f := match sessions w !! i with Some s => f s | None => w end in
  match e with
  | Start i allow =>
      match sessions w !! i with
      | Some _ => w
      | None => put i {| at_ := Finding false; owns := false; state := Starting; aborted := false;
                         stopping := NotStopped; allowBoot := allow |} w
      end
  | Found i => on i (fun s => found i s w)
  | FindFails i =>
      on i (fun s => match at_ s with
                     | Finding _ => put i (settled (Failed StepFailed) s) w
                     | FindingAgain => release i (put i (settled (Failed StepFailed) s) w)
                     | _ => w
                     end)
  | Tick i =>
      on i (fun s => match at_ s with
                     | Sleeping => put i (if aborted s then settled (Failed SessionEnded) s else with_pc (Finding true) s) w
                     | _ => w
                     end)
  | MakesSidecar i => on i (fun s => makes i s false w)
  | MakesContainer i => on i (fun s => makes i s true w)
  | Answers i ok => on i (fun s => answers i s ok w)
  | Cleaned i =>
      on i (fun s => match at_ s with
                     | CleaningUp err => release i (put i (settled (Failed err) s) (stopByName w))
                     | _ => w
                     end)
  | Stop i => on i (fun s => stop i s w)
  | StopCleaned i =>
      on i (fun s => match stopping s with
                     | StopFirst wasStarting =>
                         put i (with_stopping (if wasStarting then Settling else StopDone) s) (stopByName w)
                     | StopSecond => put i (with_stopping StopDone s) (stopByName w)
                     | _ => w
                     end)
  | SettleOver i =>
      on i (fun s => match stopping s with Settling => put i (with_stopping StopSecond s) w | _ => w end)
  | Dies i =>
      on i (fun s => release i (put i (with_stopping StopDone (with_pc Dead
                       {| at_ := at_ s; owns := owns s; state := state s; aborted := true; stopping := stopping s;
                          allowBoot := allowBoot s |})) w))
  | Others appears =>
      {| sessions := sessions w; claim := claim w;
         container := match container w with
                      | None => if appears then Some Elsewhere else None
                      | c => if appears then c else None
                      end;
         sidecar := sidecar w |}
  end.

Definition init : World := {| sessions := ∅; claim := None; container := None; sidecar := None |}.
Definition run (evs : list event) : World := foldl step init evs.

(** ** The wait of one call *)

Inductive wait_event : Type :=
| ReadyResolves
| ReadyRejects (err : failure)
| WaitOver                    (* waitMs *)
| ClientAborts.

Inductive wait_outcome : Type :=
| GetsSandbox
| CancelledCall
| StillStarting
| NotStarted (err : failure).

(** [whenReady]: the first thing that happens settles it. *)
Definition whenReady (signalAborted : bool) (evs : list wait_event) : option wait_outcome :=
  if signalAborted then Some CancelledCall
  else match evs with
       | [] => None
       | ReadyResolves :: _ => Some GetsSandbox
       | ReadyRejects err :: _ => Some (NotStarted err)
       | WaitOver :: _ => Some StillStarting
       | ClientAborts :: _ => Some CancelledCall
       end.

(** ** Lemmas *)

Definition booting (p : pc) : Prop :=
  match p with Booting | WaitingReady | ConnectingOwn | CleaningUp _ => True | _ => False end.
Definition holds (p : pc) : Prop := p = FindingAgain \/ booting p.

Definition made (w : World) (i : nat) : Prop := container w = Some (By i) \/ sidecar w = Some (By i).

(** Why what a session made may still be there: it is booting, or it is ready and
    not stopped yet, or Docker refused it the name, or it died. *)
Definition excused (s : Session) : Prop :=
  booting (at_ s) \/ (at_ s = Ready true /\ (stopping s = NotStopped \/ exists b, stopping s = StopFirst b)) \/
  at_ s = Failed NameConflict \/ at_ s = Dead.

Record ok (w : World) (i : nat) (s : Session) : Prop := {
  ok_claim : holds (at_ s) <-> claim w = Some i;
  ok_owns : booting (at_ s) \/ at_ s = Ready true -> owns s = true;
  ok_abort : aborted s = false -> stopping s = NotStopped;
  ok_made : made w i -> excused s;
  ok_own : booting (at_ s) -> forall j, container w = Some (By j) -> j = i
}.

Record Inv (w : World) : Prop := {
  i_ok i s : sessions w !! i = Some s -> ok w i s;
  i_claim i : claim w = Some i -> is_Some (sessions w !! i);
  i_made i : made w i -> is_Some (sessions w !! i)
}.

(** A step of one session leaves the others as they were. *)
Lemma frame w w' i s s' :
  Inv w -> sessions w !! i = Some s -> sessions w' = <[i := s']> (sessions w) ->
  (claim w' = claim w \/ claim w = None /\ claim w' = Some i \/ claim w = Some i /\ claim w' = None) ->
  (container w' = container w \/ container w' = None \/ container w' = Some (By i) /\ claim w = Some i) ->
  (sidecar w' = sidecar w \/ sidecar w' = None \/ sidecar w' = Some (By i)) ->
  ok w' i s' -> Inv w'.
Proof.
  intros [Hok Hcl Hm] Hs Hs' Hc Hk Hd Hi. split.
  - intros j sj. rewrite Hs'. destruct (decide (j = i)) as [->|Hne].
    + rewrite lookup_insert_eq. by intros [= <-].
    + rewrite lookup_insert_ne by done. intros Hj. destruct (Hok j sj Hj) as [H1 H2 H3 H4 H5]. split; [|done..| |].
      * rewrite H1. naive_solver congruence.
      * intros H. apply H4. unfold made in *. naive_solver congruence.
      * intros Hb k Hck. apply H5; [done|]. destruct Hk as [Hk|[Hk|[Hk Hi']]]; [congruence..|].
        assert (claim w = Some j) by (apply H1; by right). congruence.
  - intros j Hj. rewrite Hs'. destruct (decide (j = i)) as [->|Hne]; [by rewrite lookup_insert_eq|].
    rewrite lookup_insert_ne by done. apply Hcl. naive_solver congruence.
  - intros j Hj. rewrite Hs'. destruct (decide (j = i)) as [->|Hne]; [by rewrite lookup_insert_eq|].
    rewrite lookup_insert_ne by done. apply Hm. unfold made in *. naive_solver congruence.
Qed.

Lemma release_own i w : claim w = Some i -> claim (release i w) = None.
Proof. intros H. unfold release; cbn. by rewrite H, bool_decide_true. Qed.

Ltac leaf :=
  try congruence; eauto;
  repeat match goal with
  | |- context [bool_decide ?P] => destruct (bool_decide_reflect P)
  | H : context [bool_decide ?P] |- _ => destruct (bool_decide_reflect P)
  end; simplify_eq; try (intuition (try congruence; eauto)).

Ltac crush :=
  cbn in *; unfold holds, booting, made, excused in *; cbn in *;
  try (split; unfold holds, booting, made, excused; cbn);
  intuition leaf.

Ltac by_frame H Hs := eapply (frame _ _ _ _ _ H Hs); [reflexivity|..]; crush.

Lemma found_inv w i s : Inv w -> sessions w !! i = Some s -> Inv (found i s w).
Proof.
  intros H Hs. destruct (i_ok w H i s Hs) as [H1 H2 H3 H4 H5]. destruct s as [p o st a sp al]. unfold found; cbn [at_ aborted allowBoot].
  destruct p as [waited| | | | | | | |err|b|err|]; try done.
  - destruct a; [by_frame H Hs|]. destruct (container w) eqn:Hc.
    + unfold attach. destruct waited; by_frame H Hs.
    + destruct al; cbn [negb]; [|by_frame H Hs]. destruct (claim w) eqn:Hcl; by_frame H Hs.
  - destruct (container w) eqn:Hc; [|by_frame H Hs].
    unfold attach. cbn [aborted]. destruct a; by_frame H Hs.
Qed.

Lemma failed_boot_inv w i s err :
  Inv w -> sessions w !! i = Some s -> at_ s = Booting \/ at_ s = WaitingReady \/ at_ s = ConnectingOwn ->
  Inv (failed_boot i s err w).
Proof.
  intros H Hs Hp. destruct (i_ok w H i s Hs) as [H1 H2 H3 H4 H5]. destruct s as [p o st a sp al].
  unfold failed_boot. destruct err; by_frame H Hs.
Qed.

Lemma answers_inv w i s b : Inv w -> sessions w !! i = Some s -> Inv (answers i s b w).
Proof.
  intros H Hs. unfold answers, go_on.
  destruct (at_ s) eqn:Hp; try done; try (destruct b; [destruct (aborted s) eqn:Ha|]); cbn [negb];
    try (apply failed_boot_inv; by auto).
  all: destruct (i_ok w H i s Hs) as [H1 H2 H3 H4 H5]; destruct s as [p o st a sp al]; cbn in Hp; subst p.
  all: by_frame H Hs.
Qed.

Lemma makes_inv w i s b : Inv w -> sessions w !! i = Some s -> Inv (makes i s b w).
Proof.
  intros H Hs. unfold makes. destruct (at_ s) eqn:Hp; try done.
  destruct b; cbn [negb]; [destruct (container w) eqn:Hc; [apply failed_boot_inv; by auto|]|].
  all: destruct (i_ok w H i s Hs) as [H1 H2 H3 H4 H5]; destruct s as [p o st a sp al]; cbn in Hp; subst p.
  all: assert (claim w = Some i) by (apply H1; by right).
  all: eapply (frame _ _ i _ _ H Hs); [symmetry; by apply insert_id|..]; crush.
Qed.

Lemma stop_inv w i s : Inv w -> sessions w !! i = Some s -> Inv (stop i s w).
Proof.
  intros H Hs. unfold stop. destruct (stopping s) eqn:Hp; try done.
  destruct (i_ok w H i s Hs) as [H1 H2 H3 H4 H5]. destruct s as [p o st a sp al]. cbn in Hp; subst sp.
  eapply (frame _ _ _ _ _ H Hs); [reflexivity|cbn; auto..|]. split; cbn in *.
  - done.
  - done.
  - done.
  - intros Hm. destruct (H4 Hm) as [?|[[? _]|?]]; [by left| |right; right; done]. cbn in *.
    rewrite H2 by by right. right; left; eauto.
  - done.
Qed.

Lemma settled_find_inv w i s : Inv w -> sessions w !! i = Some s ->
  at_ s = Sleeping \/ (exists b, at_ s = Finding b) ->
  Inv (put i (if aborted s then settled (Failed SessionEnded) s else with_pc (Finding true) s) w) /\
  Inv (put i (settled (Failed StepFailed) s) w).
Proof.
  intros H Hs Hp. destruct (i_ok w H i s Hs) as [H1 H2 H3 H4 H5]. destruct s as [p o st a sp al]. cbn in Hp.
  assert (p = Sleeping \/ exists b, p = Finding b) as [->|[b ->]] by done; split; destruct a; by_frame H Hs.
Qed.

Lemma stop_cleaned_inv w i s sp : Inv w -> sessions w !! i = Some s -> stopping s <> NotStopped -> sp <> NotStopped ->
  Inv (put i (with_stopping sp s) (stopByName w)) /\
  (stopping s = Settling -> Inv (put i (with_stopping sp s) w)).
Proof.
  intros H Hs Hn Hn'. destruct (i_ok w H i s Hs) as [H1 H2 H3 H4 H5]. destruct s as [p o st a sp0 al].
  split; [|intros ?]; by_frame H Hs; naive_solver.
Qed.

Lemma start_inv w i al : Inv w -> sessions w !! i = None ->
  Inv (put i {| at_ := Finding false; owns := false; state := Starting; aborted := false; stopping := NotStopped;
                allowBoot := al |} w).
Proof.
  intros [Hok Hcl Hm] Hs. split; cbn.
  - intros j s. destruct (decide (j = i)) as [->|Hne].
    + rewrite lookup_insert_eq. intros [= <-]. split; cbn; try done.
      * split; [by intros [?|[]]|]. intros Hc. destruct (Hcl i Hc). congruence.
      * by intros [[]|?].
      * intros Hi. destruct (Hm i Hi). congruence.
    + rewrite lookup_insert_ne by done. intros Hj. by destruct (Hok j s Hj).
  - intros j Hj. destruct (decide (j = i)) as [->|Hne]; [by rewrite lookup_insert_eq|].
    rewrite lookup_insert_ne by done. by apply Hcl.
  - intros j Hj. destruct (decide (j = i)) as [->|Hne]; [by rewrite lookup_insert_eq|].
    rewrite lookup_insert_ne by done. by apply Hm.
Qed.

Lemma others_inv w b : Inv w -> Inv (step w (Others b)).
Proof.
  intros [Hok Hcl Hm]. split; cbn.
  - intros j s Hj. destruct (Hok j s Hj) as [H1 H2 H3 H4 H5]. split; [done..| |]; unfold made in *; cbn.
    + intros [Hc|Hc]; apply H4; [left|by right]. destruct (container w) as [m|], b; congruence.
    + intros Hb k Hk. apply H5; [done|]. destruct (container w) as [m|], b; congruence.
  - done.
  - intros j [Hc|Hc]; cbn in Hc; apply Hm; [left|by right]. destruct (container w) as [m|], b; congruence.
Qed.

Lemma step_inv w e : Inv w -> Inv (step w e).
Proof.
  intros H. destruct e as [i al|i|i|i|i|i|i b|i|i|i|i|i|b]; cbn [step].
  1: { destruct (sessions w !! i) as [s|] eqn:Hs; [done|]. by apply start_inv. }
  12: { by apply others_inv. }
  all: destruct (sessions w !! i) as [s|] eqn:Hs; [|done].
  all: eauto using found_inv, answers_inv, makes_inv, stop_inv.
  - destruct (at_ s) eqn:Hp; try done; [apply settled_find_inv; [done..|right; eauto]|].
    destruct (i_ok w H i s Hs) as [H1 H2 H3 H4 H5]. destruct s as [p o st a sp al]. cbn in Hp. subst p. by_frame H Hs.
  - destruct (at_ s) eqn:Hp; try done. apply settled_find_inv; [done..|by left].
  - destruct (at_ s) eqn:Hp; try done.
    destruct (i_ok w H i s Hs) as [H1 H2 H3 H4 H5]. destruct s as [p o st a sp al]. cbn in Hp. subst p. by_frame H Hs.
  - destruct (stopping s) eqn:Hp; try done; apply (stop_cleaned_inv w i s); try done; try congruence. by destruct wasStarting.
  - destruct (stopping s) eqn:Hp; try done. apply stop_cleaned_inv; try done; congruence.
  - destruct (i_ok w H i s Hs) as [H1 H2 H3 H4 H5]. destruct s as [p o st a sp al]. by_frame H Hs.
Qed.

Lemma run_inv evs : Inv (run evs).
Proof.
  unfold run. induction evs as [|e evs IH] using rev_ind.
  - split; cbn; [intros i s; by rewrite lookup_empty|done|by intros i [?|?]].
  - rewrite foldl_app. by apply step_inv.
Qed.


(** [stop()] never waits for the boot: whatever the boot is doing, the answers to
    its own steps and the end of its wait finish it. *)
Theorem stop_finishes w i s :
  sessions w !! i = Some s -> stopping s <> NotStopped ->
  exists s', sessions (foldl step w [StopCleaned i; SettleOver i; StopCleaned i]) !! i = Some s' /\
    stopping s' = StopDone /\ at_ s' = at_ s.
Proof.
  intros Hs Hn. destruct s as [p o st a sp al]. cbn in Hn. cbn [foldl]. unfold step at 3. rewrite Hs. cbn [stopping].
  destruct sp as [|[]| | |]; try done; repeat (cbn; rewrite ?lookup_insert_eq, ?Hs); eexists; split_and!; reflexivity.
Qed.

(** ** Where sessions still meet *)

(** The second [stopByName] of a stopped session, by name like the first, runs
    after its boot has let go of the claim: a session that boots in between
    loses its container to it. *)
Definition boots (i : nat) : list event := [Start i true; Found i; Found i; MakesSidecar i; MakesContainer i].

Theorem second_stop_hits_successor :
  let before := [Start 0 true; Found 0; Found 0; MakesSidecar 0; Stop 0; StopCleaned 0; Answers 0 false; Cleaned 0; SettleOver 0]
                ++ boots 1 ++ [Answers 1 true; Answers 1 true; Answers 1 true] in
  container (run before) = Some (By 1) /\
  (at_ <$> sessions (run before) !! 1) = Some (Ready true) /\
  container (run (before ++ [StopCleaned 0])) = None.
Proof. by vm_compute. Qed.

(** A session that looks for the first time while another is booting attaches to
    a container nobody has seen ready. *)
Theorem attaches_before_ready :
  let evs := boots 0 ++ [Answers 0 true; Start 1 true; Found 1] in
  (at_ <$> sessions (run evs) !! 0) = Some WaitingReady /\ (at_ <$> sessions (run evs) !! 1) = Some Connecting.
Proof. by vm_compute. Qed.

(** A session stopped between its claim and its decision boots after it was stopped. *)
Theorem boots_after_stop :
  let evs := [Start 0 true; Found 0; Stop 0; Found 0] in
  (stopping <$> sessions (run evs) !! 0) = Some StopDone /\ (at_ <$> sessions (run evs) !! 0) = Some Booting.
Proof. by vm_compute. Qed.


End BootSession.
