(* ===== verification/Cancellation.v ===== *)
(** * Cancelling a run (experimental/agents/src/cancellation.ts)

    The signals of a run, the race of a tool call against its timeout and the
    run's end, and the sleep a cancellation cuts short. What happens (a timer
    that fires, a caller that aborts, a tool that answers) is an event; the
    listeners and timers left behind are part of the state. *)
From S2P Require Import Prelude.

Module Cancellation.

Section cancellation.
Context {R V : Type}.        (* the caller's reasons and the tool's errors; what a tool answers *)

Inductive reason : Type :=
| RunTimeout (agentName : string) (timeoutMs : Z)
| RunAborted (agentName : string)
| ToolTimeout (toolName : string) (timeoutMs : Z)
| Other (r : R).

(** ** The signals of one run *)

Record RunCancellation := {
  agentName : string;
  timeoutMs : option Z;
  timedOut : bool;
  run_signal : option reason;       (* the controller's: aborted, and why *)
  timer : bool;                     (* pending *)
  listening : bool                  (* [onCallerAbort] on the caller's signal *)
}.

Inductive run_event : Type :=
| Deadline
| CallerAborts (r : R)
| Dispose.

(** [controller.abort(r)]: the first reason stays. *)
Definition abort (r : reason) (s : option reason) : option reason :=
  match s with Some _ => s | None => Some r end.

(** [callerSignal]: absent, or with the reason it is aborted for. No state when
    the run has neither a signal nor a deadline. *)
Definition createRunCancellation (agentName : string) (callerSignal : option (option R)) (timeoutMs : option Z)
    : option RunCancellation :=
  match callerSignal, timeoutMs with
  | None, None => None
  | _, _ =>
      Some {| agentName := agentName; timeoutMs := timeoutMs; timedOut := false;
              run_signal := match callerSignal with Some (Some r) => Some (Other r) | _ => None end;
              timer := match timeoutMs with Some _ => true | None => false end;
              listening := match callerSignal with Some None => true | _ => false end |}
  end.

Definition run_step (c : RunCancellation) (e : run_event) : RunCancellation :=
  match e with
  | Deadline =>
      if timer c then
        {| agentName := agentName c; timeoutMs := timeoutMs c; timedOut := true;
           run_signal := abort (RunTimeout (agentName c) (or_default 0%Z (timeoutMs c))) (run_signal c);
           timer := false; listening := listening c |}
      else c
  | CallerAborts r =>
      if listening c then
        {| agentName := agentName c; timeoutMs := timeoutMs c; timedOut := timedOut c;
           run_signal := abort (Other r) (run_signal c); timer := timer c; listening := false |}
      else c
  | Dispose =>
      {| agentName := agentName c; timeoutMs := timeoutMs c; timedOut := timedOut c; run_signal := run_signal c;
         timer := false; listening := false |}
  end.

(** [None] when it returns. *)
Definition throwIfCancelled (c : RunCancellation) : option reason :=
  if timedOut c then Some (RunTimeout (agentName c) (or_default 0%Z (timeoutMs c)))
  else match run_signal c with Some _ => Some (RunAborted (agentName c)) | None => None end.

Fixpoint before_dispose (evs : list run_event) : list run_event :=
  match evs with
  | [] => []
  | Dispose :: _ => []
  | e :: evs => e :: before_dispose evs
  end.

Definition is_deadline (e : run_event) : bool := match e with Deadline => true | _ => false end.
Definition is_abort (e : run_event) : bool := match e with CallerAborts _ => true | _ => false end.

Lemma disposed_stays c evs :
  timer c = false -> listening c = false ->
  timedOut (foldl run_step c evs) = timedOut c /\ run_signal (foldl run_step c evs) = run_signal c /\
  agentName (foldl run_step c evs) = agentName c /\ timeoutMs (foldl run_step c evs) = timeoutMs c.
Proof.
  revert c; induction evs as [|e evs IH]; intros c Ht Hl; [done|]. cbn [foldl].
  assert (timer (run_step c e) = false /\ listening (run_step c e) = false /\ timedOut (run_step c e) = timedOut c /\
          run_signal (run_step c e) = run_signal c /\ agentName (run_step c e) = agentName c /\
          timeoutMs (run_step c e) = timeoutMs c) as (H1 & H2 & <- & <- & <- & <-).
  { destruct e; cbn; rewrite ?Ht, ?Hl; done. }
  by apply IH.
Qed.

Lemma run_tracks evs c :
  timedOut (foldl run_step c evs) = timedOut c || (timer c && existsb is_deadline (before_dispose evs)) /\
  (is_Some (run_signal (foldl run_step c evs)) <->
     is_Some (run_signal c) \/ (timer c && existsb is_deadline (before_dispose evs) = true) \/
     (listening c && existsb is_abort (before_dispose evs) = true)) /\
  agentName (foldl run_step c evs) = agentName c /\ timeoutMs (foldl run_step c evs) = timeoutMs c.
Proof.
  revert c; induction evs as [|e evs IH]; intros c.
  { cbn. rewrite !andb_false_r, orb_false_r. naive_solver. }
  cbn [foldl]. destruct e as [|r|].
  - destruct (IH (run_step c Deadline)) as (H1 & H2 & H3 & H4). rewrite H1, H2, H3, H4. cbn [run_step before_dispose existsb is_deadline is_abort].
    destruct (timer c) eqn:Ht; cbn; rewrite ?Ht, ?andb_true_r, ?orb_true_r; cbn; [|done].
    split_and!; [done|..|done|done]. unfold abort. destruct (run_signal c); naive_solver.
  - destruct (IH (run_step c (CallerAborts r))) as (H1 & H2 & H3 & H4). rewrite H1, H2, H3, H4. cbn [run_step before_dispose existsb is_deadline is_abort orb].
    destruct (listening c) eqn:Ht; cbn; rewrite ?Ht; cbn; [|done].
    split_and!; [done|..|done|done]. unfold abort. destruct (run_signal c); naive_solver.
  - destruct (disposed_stays (run_step c Dispose) evs) as (H1 & H2 & H3 & H4); [done..|]. rewrite H1, H2, H3, H4. cbn.
    rewrite !andb_false_r, orb_false_r. naive_solver.
Qed.

(** Which cancellation a run reports. Until it is disposed of: its timeout when
    the deadline passed, whether or not the caller aborted too; an abort when
    only the caller did, before the run or during it; nothing otherwise. What
    comes after [dispose()] changes nothing. *)
Theorem throwIfCancelled_spec name signal ms c evs :
  createRunCancellation name signal ms = Some c ->
  throwIfCancelled (foldl run_step c evs) =
    match ms with
    | Some t => if existsb is_deadline (before_dispose evs) then Some (RunTimeout name t)
                else match signal with
                     | Some (Some _) => Some (RunAborted name)
                     | Some None => if existsb is_abort (before_dispose evs) then Some (RunAborted name) else None
                     | None => None
                     end
    | None => match signal with
              | Some (Some _) => Some (RunAborted name)
              | Some None => if existsb is_abort (before_dispose evs) then Some (RunAborted name) else None
              | None => None
              end
    end.
Proof.
  intros Hc. unfold throwIfCancelled. destruct (run_tracks evs c) as (-> & H & -> & ->).
  destruct (run_signal (foldl run_step c evs)); destruct signal as [[r0|]|], ms as [t|]; try done;
    injection Hc as <-; cbn in *;
    repeat (match goal with
            | H : context [existsb ?p ?l] |- _ => destruct (existsb p l)
            | |- context [existsb ?p ?l] => destruct (existsb p l)
            end; cbn in *); try done;
    exfalso; unfold is_Some in *; naive_solver.
Qed.

(** ** The race of a tool call *)

Record Race := {
  settled : option (result reason V);
  tool_signal : option reason;       (* what the tool sees *)
  race_timer : option Z;             (* pending *)
  onRunAbort : bool;                 (* the listener [finally] removes *)
  onReject : bool                    (* the listener that rejects the race *)
}.

Inductive tool_event : Type :=
| Resolves (v : V)
| Rejects (e : R)
| TimerFires
| RunAborts (r : reason).

(** [Promise.race] settles once; then the [finally] runs. *)
Definition settle (o : result reason V) (s : Race) : Race :=
  match settled s with
  | Some _ => s
  | None => {| settled := Some o; tool_signal := tool_signal s; race_timer := None; onRunAbort := false; onReject := onReject s |}
  end.

(** [withToolTimeout] up to its [await], with a timeout or a signal. *)
Definition begin_race (timeoutMs : option Z) (signal : option (option reason)) : Race :=
  {| settled := None;
     tool_signal := match signal with Some (Some r) => Some r | _ => None end;
     race_timer := timeoutMs;
     onRunAbort := match signal with Some None => true | _ => false end;
     onReject := match signal with Some None => true | _ => false end |}.

Definition race_step (toolName : string) (s : Race) (e : tool_event) : Race :=
  match e with
  | Resolves v => settle (Ok v) s
  | Rejects e => settle (Err (Other e)) s
  | TimerFires =>
      match race_timer s with
      | Some t =>
          settle (Err (ToolTimeout toolName t))
            {| settled := settled s; tool_signal := abort (ToolTimeout toolName t) (tool_signal s); race_timer := None;
               onRunAbort := onRunAbort s; onReject := onReject s |}
      | None => s
      end
  | RunAborts r =>
      if onReject s then
        settle (Err r)
          {| settled := settled s;
             tool_signal := if onRunAbort s then abort r (tool_signal s) else tool_signal s;
             race_timer := race_timer s; onRunAbort := false; onReject := false |}
      else s
  end.

Definition withToolTimeout (toolName : string) (timeoutMs : option Z) (signal : option (option reason)) (evs : list tool_event) : Race :=
  foldl (race_step toolName) (begin_race timeoutMs signal) evs.

(** How an event ends a call that is still waited for. *)
Definition ends (toolName : string) (timeoutMs : option Z) (abortable : bool) (e : tool_event) : option (result reason V) :=
  match e with
  | Resolves v => Some (Ok v)
  | Rejects e => Some (Err (Other e))
  | TimerFires => match timeoutMs with Some t => Some (Err (ToolTimeout toolName t)) | None => None end
  | RunAborts r => if abortable then Some (Err r) else None
  end.

Fixpoint first_end (toolName : string) (timeoutMs : option Z) (abortable : bool) (evs : list tool_event) : option (result reason V) :=
  match evs with
  | [] => None
  | e :: evs =>
      match ends toolName timeoutMs abortable e with Some o => Some o | None => first_end toolName timeoutMs abortable evs end
  end.

Lemma settled_stays name s o evs : settled s = Some o -> settled (foldl (race_step name) s evs) = Some o.
Proof.
  revert s; induction evs as [|e evs IH]; intros s H; [done|]. cbn [foldl]. apply IH.
  destruct e; cbn; unfold settle; rewrite ?H; try done.
  - destruct (race_timer s); cbn; by rewrite ?H.
  - destruct (onReject s); cbn; by rewrite ?H.
Qed.

(** The loop stops waiting at the first event that can end the call: the tool's
    own answer or error, its timeout, or the run's cancellation, provided the
    run was not cancelled already when the call began. *)
Theorem withToolTimeout_spec name timeoutMs signal evs :
  settled (withToolTimeout name timeoutMs signal evs) =
  first_end name timeoutMs (match signal with Some None => true | _ => false end) evs.
Proof.
  unfold withToolTimeout. set (abortable := match signal with Some None => true | _ => false end).
  assert (forall s, settled s = None -> race_timer s = timeoutMs -> onReject s = abortable ->
    settled (foldl (race_step name) s evs) = first_end name timeoutMs abortable evs) as H; [|by apply H].
  induction evs as [|e evs IH]; intros s H1 H2 H3; [done|]. cbn [foldl first_end].
  destruct e as [v|e| |r]; cbn [ends race_step].
  - by apply settled_stays; unfold settle; rewrite H1.
  - by apply settled_stays; unfold settle; rewrite H1.
  - rewrite H2. destruct timeoutMs as [t|]; [|by apply IH]. apply settled_stays. unfold settle; cbn. by rewrite H1.
  - rewrite H3. destruct abortable; [|by apply IH]. apply settled_stays. unfold settle; cbn. by rewrite H1.
Qed.

(** A call whose run was already cancelled when it began, with no timeout of its
    own, is waited for as long as the tool takes, whatever the signal does. *)
Theorem cancelled_run_waits name r evs :
  forallb (fun e => match e with Resolves _ | Rejects _ => false | _ => true end) evs = true ->
  settled (withToolTimeout name None (Some (Some r)) evs) = None.
Proof.
  intros H. unfold withToolTimeout.
  assert (forall s, settled s = None -> race_timer s = None -> onReject s = false ->
    settled (foldl (race_step name) s evs) = None) as Hs; [|by apply Hs].
  induction evs as [|e evs IH]; intros s H1 H2 H3; [done|]. cbn in H. apply andb_true_iff in H as [He H]. cbn [foldl].
  apply IH; [done|destruct e; try done; cbn; by rewrite ?H2, ?H3..].
Qed.

(** A call that answers leaves a listener on the run's signal: [finally] removes
    the one that aborts the tool, and not the one that rejects the race. *)
Theorem answered_call_leaves_listener name timeoutMs v :
  onReject (withToolTimeout name timeoutMs (Some None) [Resolves v]) = true /\
  onRunAbort (withToolTimeout name timeoutMs (Some None) [Resolves v]) = false.
Proof. done. Qed.

(** ** [abortableSleep] *)

Inductive sleep_event : Type := SleepOver | SleepAborted (r : reason).

Definition abortableSleep (signal : option (option reason)) (evs : list sleep_event) : option (result reason unit) :=
  match signal with
  | Some (Some r) => Some (Err r)
  | _ =>
      let abortable := match signal with Some _ => true | None => false end in
      head (omap (fun e => match e with
                           | SleepOver => Some (Ok tt)
                           | SleepAborted r => if abortable then Some (Err r) else None
                           end) evs)
  end.

End cancellation.

Lemma throwIfCancelled_spec_witness :
  throwIfCancelled (foldl run_step
    {| agentName := "a"; timeoutMs := Some 5%Z; timedOut := false; run_signal := None; timer := true; listening := true |}
    [CallerAborts tt; Deadline; Dispose]) = Some (RunTimeout "a" 5).
Proof. exact (throwIfCancelled_spec (R := unit) "a" (Some None) (Some 5%Z) _ [CallerAborts tt; Deadline; Dispose] eq_refl). Defined.

End Cancellation.
