(* ===== verification/Stores.v ===== *)
(** * Sessions and checkpoints (experimental/agents/src/session.ts, checkpoint.ts)

    The stores a run writes its history and its checkpoints through: in memory,
    or as files of a Semantic FS that a resident app reads and writes. A tool
    call of the app is a function of the files and of its own mood: each may
    fail with a message. The messages and the checkpoint are JSON data; the
    reader of JSON is a parameter. *)
From S2P Require Import Prelude Json JsonParse.

Module Stores.
Import Json JsonParse.

(** ** Finding the tools *)

Definition findExportTool (tools : list string) (exportName : string) : option string :=
  List.find (fun name => String.eqb name exportName || Str.ends_with ("__" +:+ exportName) name) tools.

(** The three a store needs; [None] when the constructor throws. *)
Definition store_tools (tools : list string) : option (string * string * string) :=
  w ← findExportTool tools "write_context_file";
  r ← findExportTool tools "read_context_file";
  t ← findExportTool tools "tag_context_file";
  Some (w, r, t).

(** ** [createInMemorySession] *)

Definition createInMemorySession (initial : list json) : list json := initial.
Definition mem_getItems (items : list json) : list json := items.
Definition mem_addItems (newItems items : list json) : list json := items ++ newItems.
Definition mem_clear (items : list json) : list json := [].

(** ** The Semantic FS behind a resident app *)

Record Files := { content : gmap string string; tags : gmap string string }.

(** What the app does with one call: it answers, or fails with a message. *)
Inductive mood : Type := Answers | Fails (message : string).

Definition ENOENT (path : string) : string :=
  "ENOENT: no such file or directory, open '/context/" +:+ path +:+ "'".

Definition read_file (m : mood) (path : string) (fs : Files) : result string string :=
  match m with
  | Fails message => Err message
  | Answers => match content fs !! path with Some text => Ok text | None => Err (ENOENT path) end
  end.

Definition write_file (m : mood) (path text : string) (fs : Files) : result string unit * Files :=
  match m with
  | Fails message => (Err message, fs)
  | Answers => (Ok tt, {| content := <[path := text]> (content fs); tags := tags fs |})
  end.

Definition tag_file (m : mood) (path task : string) (fs : Files) : result string unit * Files :=
  match m with
  | Fails message => (Err message, fs)
  | Answers => (Ok tt, {| content := content fs; tags := <[path := task]> (tags fs) |})
  end.

Section stores.
Context (parse : string -> option json).

(** ** [createSemanticFsSession] *)

Definition session_path (sessionId : string) : string := "agent-sessions/" +:+ sessionId +:+ ".json".

(** [JSON.parse(content) as AgentMessage[]]; what is not an array is left to the caller as it is. *)
Definition getItems (reads : mood) (sessionId : string) (fs : Files) : json :=
  match read_file reads (session_path sessionId) fs with
  | Err _ => JArr []
  | Ok text => match parse text with Some v => v | None => JArr [] end
  end.

(** [...existing]: an array's items; [None] when it throws. A string spreads to its characters. *)
Definition spread (v : json) : option (list json) :=
  match v with
  | JArr l => Some l
  | JStr s => Some (map (fun c => JStr (String c "")) (Stdlib.Strings.String.list_ascii_of_string s))
  | _ => None
  end.

Definition addItems (reads writes tags_ : mood) (sessionId : string) (newItems : list json) (fs : Files)
    : result string unit * Files :=
  match spread (getItems reads sessionId fs) with
  | None => (Err "existing is not iterable", fs)
  | Some existing =>
      match write_file writes (session_path sessionId) (stringify (JArr (existing ++ newItems))) fs with
      | (Ok _, fs) => tag_file tags_ (session_path sessionId) sessionId fs
      | r => r
      end
  end.

Definition clear (writes : mood) (sessionId : string) (fs : Files) : result string unit * Files :=
  write_file writes (session_path sessionId) (stringify (JArr [])) fs.

(** ** [createSemanticFsCheckpointStore] *)

Definition isNotFound (message : string) : bool :=
  let message := Str.to_lower message in
  Str.includes "enoent" message || Str.includes "no such file" message.

Definition run_path (runId : string) : string := "agent-runs/" +:+ runId +:+ ".json".

(** [record.agentName ?? record.kind ?? checkpoint.runId] *)
Definition task_of (checkpoint : json) (runId : string) : json :=
  match oprop "agentName" checkpoint with
  | JUndef | JNull => match oprop "kind" checkpoint with JUndef | JNull => JStr runId | k => k end
  | a => a
  end.

Definition text_of (v : json) : string := match v with JStr s => s | v => stringify v end.

Definition save (writes tags_ : mood) (runId : string) (checkpoint : json) (fs : Files) : result string unit * Files :=
  match write_file writes (run_path runId) (stringify checkpoint) fs with
  | (Ok _, fs) => tag_file tags_ (run_path runId) (text_of (task_of checkpoint runId)) fs
  | r => r
  end.

Inductive load_error : Type := CheckpointReadError (runId : string).

Definition load (reads : mood) (runId : string) (fs : Files) : result load_error (option json) :=
  match read_file reads (run_path runId) fs with
  | Err message => if isNotFound message then Ok None else Err (CheckpointReadError runId)
  | Ok text =>
      match parse text with
      | Some v => Ok (Some v)
      | None => Err (CheckpointReadError runId)
      end
  end.

End stores.

(** ** What the stores promise *)

(** [JSON.parse] reads back what [JSON.stringify] wrote of an object or an array,
    and throws on an object's text cut short. *)
Record json_reader (parse : string -> option json) : Prop := {
  reads_object o : parse (stringify (JObj o)) = Some (JObj (clean_fields o));
  reads_array l : parse (stringify (JArr l)) = Some (JArr (map clean l));
  refuses_torn o p q : p +:+ q = stringify (JObj o) -> q <> "" -> parse p = None
}.

(** A reader of that kind. *)
Definition read_json (s : string) : option json :=
  match parse_value (S (String.length s)) s with Some (v, EmptyString) => Some v | _ => None end.

Lemma read_json_spec : json_reader read_json.
Proof.
  assert (Hr : forall v, follows v "" -> read_json (stringify v) = Some (clean v)).
  { intros v Hv. unfold read_json. rewrite <- (app_nil_r_str (stringify v)) at 2.
    rewrite (reads_all v); [done|lia|done]. }
  split; [by intros; apply Hr|by intros; apply Hr|].
  intros o p q Hp Hq. pose proof (parse_torn o p q Hp Hq) as Hn. unfold read_json.
  destruct p as [|c p]; [done|]. cbn [stringify] in Hp.
  rewrite !app_cons_str in Hp. injection Hp as -> _. revert Hn. unfold parse. rewrite parse_value_obj.
  destruct (parse_seq _ _ p) as [[o' [|]]|]; cbn; done.
Qed.

Lemma isNotFound_ENOENT path : isNotFound (ENOENT path) = true.
Proof. vm_compute. reflexivity. Qed.

(** [C22] A run resumes from what was saved, or is told that it cannot. A saved
    checkpoint loads; a run never saved has none; a checkpoint whose write was
    cut short anywhere, and one whose file cannot be read for a reason that does
    not say the file is missing, is an error and never an absent checkpoint. A
    tag that fails is reported and loses nothing. *)
Theorem checkpoint_store_spec parse (HP : json_reader parse) runId o fs :
  (forall tags_ r fs', save Answers tags_ runId (JObj o) fs = (r, fs') ->
     load parse Answers runId fs' = Ok (Some (JObj (clean_fields o))) /\
     (forall message, tags_ = Fails message -> r = Err message)) /\
  (content fs !! run_path runId = None -> load parse Answers runId fs = Ok None) /\
  (forall p q, content fs !! run_path runId = Some p -> p +:+ q = stringify (JObj o) -> q <> "" ->
     load parse Answers runId fs = Err (CheckpointReadError runId)) /\
  (forall message, isNotFound message = false ->
     load parse (Fails message) runId fs = Err (CheckpointReadError runId)).
Proof.
  split_and!.
  - intros tags_ r fs'. unfold save. pose proof (reads_object parse HP o) as Hr. revert Hr.
    generalize (stringify (JObj o)) as t. intros t Hr H.
    cbn [write_file] in H. destruct tags_; cbn [tag_file] in H; injection H as <- <-.
    all: unfold load, read_file; cbn [content]; rewrite lookup_insert_eq, Hr; split; [done|].
    + done.
    + by intros ? [= ->].
  - intros H. unfold load, read_file. by rewrite H, isNotFound_ENOENT.
  - intros p q H Hp Hq. unfold load, read_file. rewrite H. by rewrite (refuses_torn parse HP o p q).
  - intros message H. unfold load, read_file. by rewrite H.
Qed.

(** A history as a session keeps it: every item added, in order. *)
Fixpoint add_all (parse : string -> option json) (sessionId : string) (turns : list (list json)) (fs : Files) : Files :=
  match turns with
  | [] => fs
  | items :: turns => add_all parse sessionId turns (addItems parse Answers Answers Answers sessionId items fs).2
  end.

Lemma addItems_content parse (HP : json_reader parse) sessionId old items fs :
  getItems parse Answers sessionId fs = JArr old ->
  getItems parse Answers sessionId (addItems parse Answers Answers Answers sessionId items fs).2 = JArr (map clean (old ++ items)).
Proof.
  intros H. unfold addItems. rewrite H. cbn [spread write_file tag_file snd]. unfold getItems, read_file. cbn [content].
  by rewrite lookup_insert_eq, (reads_array parse HP).
Qed.

(** A session in Semantic FS holds what the in-memory one does, for
    items that survive JSON and an app that answers. *)
Theorem session_refines_memory parse (HP : json_reader parse) sessionId turns fs :
  content fs !! session_path sessionId = None -> Forall (Forall (fun v => clean v = v)) turns ->
  getItems parse Answers sessionId (add_all parse sessionId turns fs) =
  JArr (mem_getItems (foldl (fun items newItems => mem_addItems newItems items) (createInMemorySession []) turns)).
Proof.
  intros Hfs Ht. assert (getItems parse Answers sessionId fs = JArr []) as H.
  { unfold getItems, read_file. by rewrite Hfs. }
  unfold createInMemorySession, mem_getItems. clear Hfs. 
  assert (Hold : Forall (fun v => clean v = v) []) by constructor. revert H Hold. generalize (@nil json) as old.
  revert fs; induction Ht as [|items turns Hi Ht IH]; intros fs old H Hold; [done|]. cbn [add_all foldl]. unfold mem_addItems at 2.
  apply IH; [|by apply Forall_app_2]. rewrite (addItems_content parse HP _ _ _ _ H). f_equal.
  assert (Forall (fun v => clean v = v) (old ++ items)) as Ha by by apply Forall_app_2.
  clear -Ha. induction Ha as [|v l Hv Hl IH]; [done|]. cbn. by rewrite Hv, IH.
Qed.

(** One read that fails, for whatever reason, and the whole history is gone: the
    items kept are the ones of that turn. *)
Theorem failed_read_drops_history parse (HP : json_reader parse) sessionId message items fs :
  getItems parse Answers sessionId (addItems parse (Fails message) Answers Answers sessionId items fs).2 = JArr (map clean items).
Proof.
  unfold addItems, getItems at 2. cbn [read_file spread write_file tag_file snd app]. unfold getItems, read_file. cbn [content].
  by rewrite lookup_insert_eq, (reads_array parse HP).
Qed.

(** A daemon that is gone reads as a run that never was: the message of a
    connection to a missing socket has the code of a missing file. *)
Theorem missing_socket_reads_as_absent parse runId fs :
  load parse (Fails "connect ENOENT /run/berth/semantic-fs.sock") runId fs = Ok None.
Proof. done. Qed.

Lemma checkpoint_store_spec_witness :
  load read_json Answers "r1" {| content := {[ run_path "r1" := "{" ]}; tags := ∅ |} = Err (CheckpointReadError "r1").
Proof.
  destruct (checkpoint_store_spec read_json read_json_spec "r1" [("runId", JStr "r1")]
    {| content := {[ run_path "r1" := "{" ]}; tags := ∅ |}) as (_ & _ & H & _).
  eapply H; [by vm_compute|reflexivity|done].
Defined.

Lemma session_refines_memory_witness :
  getItems read_json Answers "s" (add_all read_json "s" [[JStr "a"]; [JStr "b"]] {| content := ∅; tags := ∅ |}) = JArr [JStr "a"; JStr "b"].
Proof.
  apply (session_refines_memory read_json read_json_spec "s" [[JStr "a"]; [JStr "b"]]); [done|repeat constructor].
Defined.

End Stores.
