(* ===== verification/BootEvidence.v ===== *)
(** * The evidence of a boot (packages/docker-orchestrator/src/attest.ts,
    packages/cli/src/vm/evidence.ts and guest-lines.ts)

    What an attestation binds about a boot, read out of the log of a container
    or out of the ports of a microVM. Both logs also carry what the apps print.
    An evidence is a JSON value; the reader of JSON and the wording of a probe's
    reason are parameters. *)
From S2P Require Import Prelude JsNumber Json Attest RunAudit JsonParse.

Module BootEvidence.
Import Json.

Definition LF : ascii := ascii_of_nat 10.

(** ** [demuxLogBuffer]: Docker's frames, as bytes *)

Definition byte_at (i : nat) (b : string) : nat :=
  match String.get i b with Some c => Str.code c | None => 0 end.

Definition readUInt32BE (i : nat) (b : string) : nat :=
  ((byte_at i b * 256 + byte_at (i + 1) b) * 256 + byte_at (i + 2) b) * 256 + byte_at (i + 3) b.

(** The loop from [offset] on, on what is left of the buffer. *)
Fixpoint demux_frames (fuel : nat) (b : string) : string :=
  match fuel with
  | O => ""
  | S fuel =>
      if 8 <=? String.length b then
        let size := readUInt32BE 4 b in
        Str.take size (Str.drop 8 b) +:+ demux_frames fuel (Str.drop (8 + size) b)
      else ""
  end.

Definition is_framed (b : string) : bool :=
  negb ((String.length b <? 8) || (2 <? byte_at 0 b) || negb (byte_at 1 b =? 0) || negb (byte_at 2 b =? 0) || negb (byte_at 3 b =? 0)).

Definition demuxLogBuffer (b : string) : string :=
  if is_framed b then demux_frames (String.length b) b else b.

(** A frame as Docker writes one: the stream, three zero bytes and the length,
    the most significant byte first. *)
Definition chr (n : nat) : ascii := ascii_of_nat n.
Definition frame (st : nat) (payload : string) : string :=
  let n := String.length payload in
  String (chr st) (String (chr 0) (String (chr 0) (String (chr 0)
    (String (chr (n / 256 / 256 / 256)) (String (chr (n / 256 / 256 mod 256)) (String (chr (n / 256 mod 256)) (String (chr (n mod 256)) payload))))))).

Lemma code_chr n : n < 256 -> Str.code (chr n) = n.
Proof. apply nat_ascii_embedding. Qed.

Lemma read_length n : ((n / 256 / 256 / 256 * 256 + n / 256 / 256 mod 256) * 256 + n / 256 mod 256) * 256 + n mod 256 = n.
Proof.
  assert (H : forall m, m / 256 * 256 + m mod 256 = m) by (intros m; rewrite Nat.mul_comm; symmetry; by apply Nat.div_mod).
  by rewrite !H.
Qed.

Fixpoint write_frames (fs : list (nat * string)) : string :=
  match fs with [] => "" | (st, p) :: fs => frame st p +:+ write_frames fs end.
Fixpoint payloads (fs : list (nat * string)) : string :=
  match fs with [] => "" | (_, p) :: fs => p +:+ payloads fs end.

Lemma demux_frame fuel st p rest :
  String.length p / 256 / 256 / 256 < 256 ->
  demux_frames (S fuel) (frame st p +:+ rest) = p +:+ demux_frames fuel rest.
Proof.
  intros Hp. unfold frame. rewrite !app_cons_str. cbn [demux_frames].
  set (n := String.length p) in *. replace (8 <=? _) with true by (symmetry; apply Nat.leb_le; cbn; lia).
  assert (readUInt32BE 4 (String (chr st) (String (chr 0) (String (chr 0) (String (chr 0)
    (String (chr (n / 256 / 256 / 256)) (String (chr (n / 256 / 256 mod 256)) (String (chr (n / 256 mod 256)) (String (chr (n mod 256)) (p +:+ rest)))))))))
    = n) as ->.
  { unfold readUInt32BE, byte_at. cbn [String.get Nat.add].
    rewrite !code_chr; [apply read_length|apply Nat.mod_upper_bound; lia|apply Nat.mod_upper_bound; lia|apply Nat.mod_upper_bound; lia|done]. }
  cbn [Str.drop Nat.add]. subst n. rewrite StrFacts.take_app, StrFacts.drop_app. done.
Qed.

(** Docker's framing is undone: the text of the log is the payloads in order,
    whatever streams they came on. *)
Theorem demux_spec fs :
  fs <> [] -> Forall (fun f => f.1 <= 2 /\ String.length f.2 / 256 / 256 / 256 < 256) fs ->
  demuxLogBuffer (write_frames fs) = payloads fs.
Proof.
  intros Hne Hall. unfold demuxLogBuffer.
  assert (is_framed (write_frames fs) = true) as ->.
  { destruct fs as [|[st p] fs]; [done|]. apply Forall_cons in Hall as [[Hst _] _]. cbn in Hst.
    unfold is_framed, byte_at, frame. cbn [write_frames]. unfold frame. rewrite !app_cons_str. cbn [String.get].
    rewrite !code_chr by lia. replace (2 <? st) with false by (symmetry; apply Nat.ltb_ge; lia).
    replace (_ <? 8) with false by (symmetry; apply Nat.ltb_ge; cbn; lia). done. }
  assert (forall fuel, String.length (write_frames fs) <= fuel -> demux_frames fuel (write_frames fs) = payloads fs) as H; [|by apply H].
  clear Hne. induction Hall as [|[st p] fs [Hst Hp] _ IH]; intros fuel Hf.
  - destruct fuel; done.
  - cbn [write_frames payloads] in *. rewrite length_app_str in Hf. unfold frame in Hf at 1. cbn [String.length] in Hf.
    destruct fuel as [|fuel]; [lia|]. rewrite demux_frame by done. f_equal. apply IH. lia.
Qed.

(** ** Lines of a container's log *)

Definition BOOT_ID_PREFIX : string := "[berth:entrypoint] boot id: ".

(** [line.match(/\[berth:entrypoint\] boot id: (\S+)/)?.[1]] *)
Fixpoint boot_id_in (line : string) : option string :=
  match line with
  | EmptyString => None
  | String _ rest =>
      if Str.starts_with BOOT_ID_PREFIX line then
        match fst (JsNumber.span (fun c => negb (Str.is_space c)) (Str.drop (String.length BOOT_ID_PREFIX) line)) with
        | EmptyString => boot_id_in rest
        | id => Some id
        end
      else boot_id_in rest
  end.

Definition parseBootId (logs : string) : option string :=
  foldl (fun found line => match boot_id_in line with Some id => Some id | None => found end) None (Str.split LF logs).

(** [<sha256> <appName> <path>] *)
Definition policy_line (line : string) : option json :=
  let word s := JsNumber.span (fun c => negb (Str.is_space c)) s in
  let sha := Str.take 64 line in
  if negb (Attest.sha256_text sha) then None
  else match Str.drop 64 line with
       | String " " r1 =>
           let '(app, r2) := word r1 in
           match r2 with
           | String " " r3 =>
               let '(path, r4) := word r3 in
               if negb (String.eqb app "") && negb (String.eqb path "") && String.eqb r4 ""
               then Some (JObj [("sha256", JStr sha); ("app", JStr app); ("path", JStr path)]) else None
           | _ => None
           end
       | _ => None
       end.

Definition parsePolicyLines (output : string) : list json := omap policy_line (Str.split LF output).

(** ** Resource limits *)

Record ResourceLimits := {
  l_status : string;
  l_reason : option string;
  l_controllers : option string;
  l_apps : list (string * (string * list (string * string)))    (* app, cgroup, limits *)
}.

Definition no_limits : ResourceLimits := {| l_status := "unknown"; l_reason := None; l_controllers := None; l_apps := [] |}.

Definition str_of (v : json) : option string := match v with JStr s => Some s | _ => None end.

(** [Object.entries(event.limits)], the values that are strings. *)
Definition limits_of (v : json) : list (string * string) :=
  let entries := match v with
                 | JObj o => o
                 | JArr l => imap (fun i x => (JsNumber.to_string (Z.of_nat i), x)) l
                 | _ => []
                 end in
  foldl (fun limits kv => match kv.2 with JStr s => JsObj.assign kv.1 s limits | _ => limits end) [] entries.

(** One event, with the flag that the delegation has been seen and the apps seen. *)
Definition limit_event (st : ResourceLimits * (bool * list string)) (event : json) : ResourceLimits * (bool * list string) :=
  let '(e, (delegation, seen)) := st in
  if Attest.is_str (oprop "event" event) "cgroup_delegation" && negb delegation then
    ({| l_status := match oprop "status" event with
                    | JStr s => if String.eqb s "active" || String.eqb s "inactive" then s else l_status e
                    | _ => l_status e
                    end;
        l_reason := match oprop "reason" event with JStr s => Some s | _ => l_reason e end;
        l_controllers := match oprop "controllers" event with JStr s => Some s | _ => l_controllers e end;
        l_apps := l_apps e |}, (true, seen))
  else
    match oprop "app" event with
    | JStr app =>
        if Attest.is_str (oprop "event" event) "cgroup_limits_applied" && negb (bool_decide (app ∈ seen)) then
          ({| l_status := l_status e; l_reason := l_reason e; l_controllers := l_controllers e;
              l_apps := l_apps e ++ [(app, (or_default "" (str_of (oprop "cgroup" event)), limits_of (oprop "limits" event)))] |},
           (delegation, JsSet.add app seen))
        else st
    | _ => st
    end.

Definition limits_json (r : ResourceLimits) : json :=
  JObj ([("status", JStr (l_status r))]
        ++ match l_reason r with Some s => [("reason", JStr s)] | None => [] end
        ++ match l_controllers r with Some s => [("controllers", JStr s)] | None => [] end
        ++ [("apps", JArr (map (fun a => JObj [("app", JStr a.1); ("cgroup", JStr a.2.1);
                                               ("limits", JObj (map (fun kv => (kv.1, JStr kv.2)) a.2.2))]) (l_apps r)))]).

Section evidence.
Context (parse : string -> option json).

(** The object of a line that starts like one. *)
Definition event_of (line : string) : option json :=
  let trimmed := Str.trim line in
  if Str.starts_with "{" trimmed then parse trimmed else None.

Definition report (app ruleset bootId : string) (timestamp : json) : json :=
  JObj ([("app", JStr app); ("ruleset", JStr ruleset); ("bootId", JStr bootId)]
        ++ match timestamp with JNum n => [("timestamp", JNum n)] | _ => [] end).

(** An agent-init report of this boot. *)
Definition is_report (bootId : string) (event : json) : bool :=
  Attest.is_str (oprop "source" event) "agent-init" && Attest.is_str (oprop "event" event) "capability_policy_applied" &&
  Attest.is_str (oprop "bootId" event) bootId.

Definition report_of (bootId : string) (event : json) : option (string * json) :=
  if is_report bootId event then
    match oprop "app" event, oprop "ruleset" event with
    | JStr app, JStr ruleset => Some (app, report app ruleset bootId (oprop "timestamp" event))
    | _, _ => None
    end
  else None.

Definition parseRulesetReports (logs bootId : string) : list json :=
  omap (fun line => event ← event_of line; r ← report_of bootId event; Some r.2) (Str.split LF logs).

Definition parseResourceLimits (logs bootId : string) : ResourceLimits :=
  (foldl limit_event (no_limits, (false, []))
     (omap (fun line => event ← event_of line;
                        if Attest.is_str (oprop "source" event) "berth-entrypoint" && Attest.is_str (oprop "bootId" event) bootId
                        then Some event else None) (Str.split LF logs))).1.

(** ** A container's evidence *)

(** What Docker answers: the inspection of the container, the image's, the log
    and the digests printed in the container. *)
Record ContainerFacts := {
  running : bool;
  host_runtime : option string;
  info_image : option string;
  image_inspect : option (list string * option string);   (* RepoDigests and Id, unless it failed *)
  log_text : string;
  policy_output : string
}.

Inductive evidence_error : Type := NotRunning | NoBootId.

Definition image_digest (f : ContainerFacts) : string :=
  match image_inspect f with
  | Some (d :: _, _) => d
  | Some ([], Some id) => if String.eqb id "" then or_default "unknown" (info_image f) else id
  | _ => or_default "unknown" (info_image f)
  end.

(** The policies of the apps that were reported, the first of each. *)
Definition filter_policies (reported : list string) (policies : list json) : list json :=
  (foldl (fun '(out, seen) p =>
            match oprop "app" p with
            | JStr app =>
                if (negb (length reported =? 0) && negb (bool_decide (app ∈ reported))) || bool_decide (app ∈ seen)
                then (out, seen) else (out ++ [p], JsSet.add app seen)
            | _ => (out, seen)
            end) ([], []) policies).1.

Definition app_of (r : json) : option string := str_of (oprop "app" r).

Definition gatherBootEvidence (containerName imageTag : string) (f : ContainerFacts) (doctorProbe : json)
    : result evidence_error json :=
  if negb (running f) then Err NotRunning
  else
    let runtime := match host_runtime f with Some r => if String.eqb r "" then None else Some r | None => None end in
    match parseBootId (log_text f) with
    | None => Err NoBootId
    | Some bootId =>
        let reports := parseRulesetReports (log_text f) bootId in
        let policies := filter_policies (JsSet.of_list (omap app_of reports)) (parsePolicyLines (policy_output f)) in
        Ok (JObj ([("bootId", JStr bootId); ("containerName", JStr containerName); ("imageTag", JStr imageTag);
                   ("imageDigest", JStr (image_digest f))]
                  ++ match runtime with Some r => [("runtime", JStr r)] | None => [] end
                  ++ [("rulesetReports", JArr reports); ("policies", JArr policies); ("doctorProbe", doctorProbe);
                      ("resourceLimits", limits_json (parseResourceLimits (log_text f) bootId))]))
    end.

(** ** A microVM's evidence *)

Definition MAX_GUEST_LINE : Z := 2 ^ 20.

(** [parseObject] *)
Definition parseObject (line : string) : option json :=
  if (MAX_GUEST_LINE <? Z.of_nat (String.length line))%Z then None
  else match parse line with Some (JObj o) => Some (JObj o) | _ => None end.

Definition asControlEvent (v : json) : option json :=
  if Attest.is_str (oprop "source" v) "berth-init" && Attest.is_string (oprop "event" v) then
    match oprop "bootId" v with JUndef | JStr _ => Some v | _ => None end
  else None.

Definition GuestLine : Type := string * string.    (* src, line *)

(** One line as the loop of [vmRulesetReports] takes it: an agent-init report of
    this boot, on the stream of the app it names. *)
Definition own_report (bootId : string) (l : GuestLine) : option (string * json) :=
  if negb (Str.starts_with "{" l.2) then None
  else match parseObject l.2 with
       | Some e =>
           match report_of bootId e with
           | Some (app, r) =>
               if String.eqb app "" || negb (match oprop "ruleset" e with JStr s => negb (String.eqb s "") | _ => false end)
                  || negb (String.eqb app l.1)
               then None else Some (app, r)
           | None => None
           end
       | None => None
       end.

Fixpoint first_reports (bootId : string) (seen : list string) (lines : list GuestLine) : list json :=
  match lines with
  | [] => []
  | l :: rest =>
      match own_report bootId l with
      | Some (app, r) =>
          if bool_decide (app ∈ seen) then first_reports bootId seen rest
          else r :: first_reports bootId (JsSet.add app seen) rest
      | None => first_reports bootId seen rest
      end
  end.

Definition vmRulesetReports (lines : list GuestLine) (bootId : string) : list json := first_reports bootId [] lines.

Definition src_char (c : ascii) : bool := Str.is_lower c || Str.is_digit c || Ascii.eqb c "-".

(** A source in brackets, a space and the line; the source of at most 64 characters, on a line without its
    carriage return. *)
Definition console_line (raw : string) : option GuestLine :=
  let raw := if Str.ends_with (String (ascii_of_nat 13) "") raw then Str.take (String.length raw - 1) raw else raw in
  match raw with
  | String "[" r =>
      let '(src, r1) := JsNumber.span src_char r in
      if (String.length src =? 0) || (64 <? String.length src) then None
      else if Str.starts_with "] " r1 && Str.all (fun c => negb (Str.is_line_terminator c)) (Str.drop 2 r1)
      then Some (src, Str.drop 2 r1) else None
  | _ => None
  end.

Definition consoleLines (text : string) : list GuestLine := omap console_line (Str.split LF text).

Definition vmResourceLimits (events : list json) : ResourceLimits := (foldl limit_event (no_limits, (false, [])) events).1.

(** Members kept only when they are strings that are not empty. *)
Definition nonempty_members (names : list string) (v : json) : list (string * json) :=
  omap (fun k => match oprop k v with JStr s => if String.eqb s "" then None else Some (k, JStr s) | _ => None end) names.

Definition num_or (d : Z) (v : json) : json := match v with JNum n => JNum n | _ => JNum d end.
Definition is_true (v : json) : json := JBool (match v with JBool true => true | _ => false end).
Definition num_member (k : string) (v : json) : list (string * json) :=
  match oprop k v with JNum n => [(k, JNum n)] | _ => [] end.

Record VmRecord := {
  name : string;
  app_names : list string;
  vmConfig : json;
  measurements : json;
  hostSandbox : json
}.

(** The measured apps, as [isolation.apps]; [None] when an entry is null. *)
Definition measured_apps (m : json) : option (list (string * json)) :=
  let apps := match oprop "apps" m with JArr l => l | _ => [] end in
  trees ← mapM (prop "treeSha256") apps;
  if existsb Attest.is_string trees then
    Some [("apps", JArr (omap (fun a =>
      match oprop "treeSha256" a with
      | JStr t => if Attest.sha256_text t then
                    Some (JObj [("tag", JStr (or_default "" (str_of (oprop "tag" a)))); ("treeSha256", JStr t);
                                ("files", num_or 0 (oprop "files" a)); ("bytes", num_or 0 (oprop "bytes" a))])
                  else None
      | _ => None
      end) apps))]
  else Some [].

(** [vmIsolation]: [None] when it throws, and JUndef for undefined. *)
Definition vmIsolation (record : VmRecord) (darwin : bool) : option json :=
  let m := measurements record in
  let k := oprop "kernel" m in
  let r := oprop "rootfs" m in
  match oprop "sha256" k, oprop "sha256" r with
  | JStr ks, JStr rs =>
      let c := vmConfig record in
      let h := hostSandbox record in
      let s := oprop "state" m in
      apps ← measured_apps m;
      Some (JObj ([("kind", JStr "microvm"); ("engine", JStr "libkrun"); ("hypervisor", JStr (if darwin then "hvf" else "kvm"));
        ("kernel", JObj ([("sha256", JStr ks); ("pinned", is_true (oprop "pinned" k))]
                         ++ nonempty_members ["linux"; "configSha256"; "cmdline"] k));
        ("rootfs", JObj ([("sha256", JStr rs); ("pinned", is_true (oprop "pinned" r))]
                         ++ nonempty_members ["fstype"] r ++ [("readOnly", is_true (oprop "readOnly" r))]))]
        ++ match oprop "chunkedSha256" s with
           | JStr d => [("state", JObj [("chunkedSha256", JStr d); ("sizeBytes", num_or 0 (oprop "sizeBytes" s));
                                        ("created", is_true (oprop "created" s))])]
           | _ => []
           end
        ++ [("tsi", JBool (match oprop "tsi" c with JBool false => false | _ => true end)); ("nics", num_or (-1) (oprop "nics" c))]
        ++ match oprop "cpus" c with JNum n => [("vcpus", JNum n)] | _ => [] end
        ++ num_member "memMiB" c
        ++ match oprop "applied" h with
           | JBool b => [("hostSandbox", JObj ([("kind", match oprop "kind" h with JStr s => JStr s | _ => JNull end); ("applied", JBool b)]
                                                ++ nonempty_members ["reason"] h))]
           | _ => []
           end
        ++ apps))
  | _, _ => Some JUndef
  end.

(** Why the probe of a microVM says what it says. *)
Inductive vm_probe_reason : Type :=
| NotMeasured
| NotPinned (sha256 : string)
| NoLsms
| WithoutLandlock (lsm : string)
| PinnedWithLsms (sha256 lsm : string).

Definition comma : ascii := ",".

Definition vmDoctorProbe (isolation : json) (events : list json) : string * vm_probe_reason :=
  let start := List.find (fun e => Attest.is_str (oprop "event" e) "boot_start") events in
  let lsm := match start with Some e => str_of (oprop "lsm" e) | None => None end in
  match isolation with
  | JUndef => ("unknown", NotMeasured)
  | _ =>
      let kernel := oprop "kernel" isolation in
      let sha := or_default "" (str_of (oprop "sha256" kernel)) in
      if negb (Attest.truthy (oprop "pinned" kernel)) then ("unknown", NotPinned sha)
      else match lsm with
           | None | Some EmptyString => ("unknown", NoLsms)
           | Some l =>
               if existsb (String.eqb "landlock") (Str.split comma l) then ("enforcing", PinnedWithLsms sha l)
               else ("unsupported", WithoutLandlock l)
           end
  end.

Fixpoint policy_digests (apps seen : list string) (events : list json) : list json :=
  match events with
  | [] => []
  | e :: rest =>
      match oprop "app" e, oprop "path" e, oprop "sha256" e with
      | JStr app, JStr path, JStr sha =>
          if negb (Attest.is_str (oprop "event" e) "policy_digest") || String.eqb app "" || String.eqb path "" || negb (Attest.sha256_text sha)
             || negb (bool_decide (app ∈ apps)) || bool_decide (app ∈ seen)
          then policy_digests apps seen rest
          else JObj [("app", JStr app); ("path", JStr path); ("sha256", JStr sha)] :: policy_digests apps (seen ++ [app]) rest
      | _, _, _ => policy_digests apps seen rest
      end
  end.

Definition vmPolicyDigests (events : list json) (apps : list string) : list json := policy_digests apps [] events.

Record VmEvidenceInput := {
  record : VmRecord;
  bootId : string;
  controlEvents : list json;
  logLines : list GuestLine;
  consoleText : string;
  darwin : bool
}.

Context (wording : vm_probe_reason -> string).

Definition vmBootEvidence (input : VmEvidenceInput) : option json :=
  let lines := match logLines input with [] => consoleLines (consoleText input) | l => l end in
  isolation ← vmIsolation (record input) (darwin input);
  let rootfs := match oprop "sha256" (oprop "rootfs" isolation) with
                | JStr s => if String.eqb s "" then None else Some s
                | _ => None
                end in
  let '(status, why) := vmDoctorProbe isolation (controlEvents input) in
  Some (JObj ([("bootId", JStr (bootId input)); ("containerName", JStr (name (record input)));
    ("imageTag", JStr (match rootfs with Some r => "rootfs-" +:+ Str.take 12 r +:+ ".erofs" | None => "unknown" end));
    ("imageDigest", JStr (match rootfs with Some r => "sha256:" +:+ r | None => "unknown" end));
    ("runtime", JStr "berth-vmm");
    ("rulesetReports", JArr (vmRulesetReports lines (bootId input)));
    ("policies", JArr (vmPolicyDigests (controlEvents input) (app_names (record input))));
    ("doctorProbe", JObj [("status", JStr status); ("reason", JStr (wording why))]);
    ("resourceLimits", limits_json (vmResourceLimits (controlEvents input)))]
    ++ match isolation with JUndef => [] | i => [("isolation", i)] end)).

(** ** What a report says *)

Definition stream (a : string) (lines : list GuestLine) : list GuestLine := List.filter (fun l => String.eqb l.1 a) lines.

(** The first report on an app's own stream. *)
Definition first_own (bootId : string) (lines : list GuestLine) (a : string) : option (string * json) :=
  head (omap (own_report bootId) (stream a lines)).

Lemma report_of_app id e app r : report_of id e = Some (app, r) -> app_of r = Some app.
Proof.
  unfold report_of. destruct (is_report id e); [|done].
  destruct (oprop "app" e); try done. destruct (oprop "ruleset" e); try done. by intros [= <- <-].
Qed.

Lemma own_report_app id l app r : own_report id l = Some (app, r) -> app = l.1 /\ app_of r = Some app.
Proof.
  unfold own_report. destruct (negb (Str.starts_with "{" l.2)); [done|].
  destruct (parseObject l.2) as [e|]; [|done].
  destruct (report_of id e) as [[app' r']|] eqn:E; [|done].
  destruct (_ || _ || _) eqn:Eb; [done|]. intros [= <- <-]. split; [|by eapply report_of_app].
  apply orb_false_iff in Eb as [_ Eb]. apply negb_false_iff, String.eqb_eq in Eb. done.
Qed.

Lemma stream_cons a l lines :
  stream a (l :: lines) = if String.eqb l.1 a then l :: stream a lines else stream a lines.
Proof. done. Qed.

Lemma first_reports_spec id seen lines r :
  r ∈ first_reports id seen lines <->
  exists a, a ∉ seen /\ first_own id lines a = Some (a, r).
Proof.
  revert seen; induction lines as [|l lines IH]; intros seen; cbn [first_reports].
  { unfold first_own; cbn. split; [by intros ?%elem_of_nil|by intros (a & _ & ?)]. }
  unfold first_own in *. setoid_rewrite stream_cons.
  destruct (own_report id l) as [[app r']|] eqn:El.
  - destruct (own_report_app _ _ _ _ El) as [-> _].
    assert (Hown : forall a, head (omap (own_report id) (if String.eqb l.1 a then l :: stream a lines else stream a lines)) =
              if String.eqb l.1 a then Some (l.1, r') else head (omap (own_report id) (stream a lines))).
    { intros a. destruct (String.eqb l.1 a); [|done]. cbn. by rewrite El. }
    setoid_rewrite Hown. destruct (bool_decide_reflect (l.1 ∈ seen)) as [Hin|Hno].
    + rewrite IH. split; intros (a & Ha & Hr); exists a; (split; [done|]);
        destruct (String.eqb_spec l.1 a) as [Heq|Hne]; congruence.
    + rewrite elem_of_cons, IH. setoid_rewrite JsSet.elem_of_add. split.
      * intros [->|(a & Ha & Hr)]; [exists l.1; by rewrite String.eqb_refl|].
        exists a. destruct (String.eqb_spec l.1 a) as [Heq|Hne]; [exfalso; apply Ha; auto|]. split; [tauto|done].
      * intros (a & Ha & Hr). destruct (String.eqb_spec l.1 a) as [Heq|Hne]; [left; congruence|].
        right. exists a. split; [|done]. intros [->|?]; done.
  - rewrite IH. split; intros (a & Ha & Hr); exists a; (split; [done|]); destruct (String.eqb l.1 a); cbn in *;
      rewrite ?El in *; done.
Qed.

(** Each app has at most one report, the first on its own stream that names it:
    nothing printed on another stream, and nothing printed later, changes it. *)
Lemma vmRulesetReports_spec id lines r :
  r ∈ vmRulesetReports lines id <-> exists a, first_own id lines a = Some (a, r).
Proof.
  unfold vmRulesetReports. rewrite first_reports_spec. split; [naive_solver|].
  intros (a & Ha). exists a. split; [apply not_elem_of_nil|done].
Qed.

Lemma first_own_app id lines a p : first_own id lines a = Some p -> exists r, p = (a, r).
Proof.
  unfold first_own. intros H. destruct p as [app r]. exists r. f_equal.
  apply head_Some_elem_of, list_elem_of_omap in H as (l & Hl & Ho).
  apply own_report_app in Ho as [-> _]. apply list_elem_of_In, filter_In in Hl as [_ Hl]. by apply String.eqb_eq.
Qed.

(** A kernel is said to enforce only when it was measured, is the pinned one and
    reports landlock among its modules. *)
Lemma vmDoctorProbe_enforcing isolation events why :
  vmDoctorProbe isolation events = ("enforcing", why) ->
  Attest.truthy (oprop "pinned" (oprop "kernel" isolation)) = true /\
  exists e lsm, e ∈ events /\ oprop "event" e = JStr "boot_start" /\ oprop "lsm" e = JStr lsm /\
    "landlock" ∈ Str.split comma lsm.
Proof.
  unfold vmDoctorProbe. intros H.
  assert (isolation <> JUndef) as Hn by (by intros ->).
  assert ((if negb (Attest.truthy (oprop "pinned" (oprop "kernel" isolation)))
           then ("unknown", NotPinned (or_default "" (str_of (oprop "sha256" (oprop "kernel" isolation)))))
           else match match List.find (fun e => Attest.is_str (oprop "event" e) "boot_start") events with
                      | Some e => str_of (oprop "lsm" e) | None => None end with
                | None | Some EmptyString => ("unknown", NoLsms)
                | Some l => if existsb (String.eqb "landlock") (Str.split comma l)
                            then ("enforcing", PinnedWithLsms (or_default "" (str_of (oprop "sha256" (oprop "kernel" isolation)))) l)
                            else ("unsupported", WithoutLandlock l)
                end) = ("enforcing", why)) as H'.
  { destruct isolation; done. }
  clear H. destruct (Attest.truthy _); [|done]. split; [done|]. cbn [negb] in H'.
  destruct (List.find _ events) as [e|] eqn:Ef; [|done]. apply find_some in Ef as [Hin He].
  apply Attest.is_str_spec in He. destruct (oprop "lsm" e) as [| | | |lsm| |] eqn:El; try done. cbn [str_of] in H'.
  destruct (existsb (String.eqb "landlock") (Str.split comma lsm)) eqn:Ex; [|by destruct lsm].
  exists e, lsm. split_and!; [by apply list_elem_of_In|done|done|].
  apply existsb_exists in Ex as (w & Hw & <-%String.eqb_eq). by apply list_elem_of_In.
Qed.

Lemma vmIsolation_pinned record_ d i :
  vmIsolation record_ d = Some i -> Attest.truthy (oprop "pinned" (oprop "kernel" i)) = true ->
  oprop "pinned" (oprop "kernel" (measurements record_)) = JBool true.
Proof.
  unfold vmIsolation. destruct (oprop "sha256" (oprop "kernel" (measurements record_))); try (by intros [= <-]).
  destruct (oprop "sha256" (oprop "rootfs" (measurements record_))); try (by intros [= <-]).
  destruct (measured_apps _) as [apps|]; [|done]. cbn [mbind option_bind]. intros [= <-].
  cbn. unfold is_true. by destruct (oprop "pinned" (oprop "kernel" (measurements record_))) as [| |[]| | | |].
Qed.

Definition guest_lines (input : VmEvidenceInput) : list GuestLine :=
  match logLines input with [] => consoleLines (consoleText input) | l => l end.

Lemma stream_app a xs ys : stream a (xs ++ ys) = stream a xs ++ stream a ys.
Proof. apply List.filter_app. Qed.

(** [C24] What an ACTIVE verdict over a microVM's evidence stands on, whatever the
    apps in it print. The kernel that was measured is the pinned one; berth-init
    reported landlock among its modules; there is a report; and where the first
    report on an app's own stream is the one agent-init printed before it started
    the app, agent-init's words were that the app is fully enforced. *)
Theorem vm_attestation_sound input e v :
  vmBootEvidence input = Some e ->
  Attest.deriveEnforcementStatus (match oprop "rulesetReports" e with JArr l => l | _ => [] end) (oprop "doctorProbe" e) = Some v ->
  Attest.status v = "ACTIVE" ->
  oprop "pinned" (oprop "kernel" (measurements (record input))) = JBool true /\
  (exists ev lsm, ev ∈ controlEvents input /\ oprop "event" ev = JStr "boot_start" /\ oprop "lsm" ev = JStr lsm /\
     "landlock" ∈ Str.split comma lsm) /\
  (exists a r, first_own (bootId input) (guest_lines input) a = Some (a, r)) /\
  (forall a before line after r,
     stream a (guest_lines input) = before ++ line :: after ->
     omap (own_report (bootId input)) before = [] ->
     own_report (bootId input) line = Some (a, r) ->
     Attest.fully_enforced r).
Proof.
  unfold vmBootEvidence. fold (guest_lines input). intros He Hv Ha.
  destruct (vmIsolation _ _) as [i|] eqn:Ei; [|done]. cbn [mbind option_bind] in He.
  destruct (vmDoctorProbe i (controlEvents input)) as [st why] eqn:Ep. injection He as <-.
  change (Attest.deriveEnforcementStatus (vmRulesetReports (guest_lines input) (bootId input))
            (JObj [("status", JStr st); ("reason", JStr (wording why))]) = Some v) in Hv.
  destruct (Attest.derive_spec _ _ _ Hv) as (_ & Hact & _). apply Hact in Ha as (Hne & Hall & Hnp & Hnu).
  assert (st = "enforcing") as ->.
  { destruct (String.eqb_spec st "enforcing") as [|Hs]; [done|]. exfalso.
    assert (st = "unknown" \/ st = "unsupported") as [->| ->].
    { clear -Ep Hs. unfold vmDoctorProbe in Ep. destruct i; repeat case_match; simplify_eq; auto. }
    - done.
    - apply Hnp. exists "unsupported". split; [left|done]. }
  destruct (vmDoctorProbe_enforcing _ _ _ Ep) as [Hpin Hlsm].
  split_and!; [by eapply vmIsolation_pinned|done|..].
  - destruct (vmRulesetReports _ _) as [|r rs] eqn:Er; [done|].
    assert (r ∈ vmRulesetReports (guest_lines input) (bootId input)) as Hin by (rewrite Er; by left).
    apply vmRulesetReports_spec in Hin as (a & Hr). eauto.
  - intros a before line after r Hs Hb Hl. rewrite Forall_forall in Hall. apply Hall.
    apply vmRulesetReports_spec. exists a. unfold first_own. rewrite Hs, omap_app, Hb. cbn. by rewrite Hl.
Qed.

(** What an ACTIVE verdict over a container's evidence stands on: every report of
    the boot it names, anywhere in the log, says fully enforced. What an app
    prints for that boot can add reports and take none away. *)
Theorem container_attestation_sound containerName imageTag f probe e v :
  gatherBootEvidence containerName imageTag f probe = Ok e ->
  Attest.deriveEnforcementStatus (match oprop "rulesetReports" e with JArr l => l | _ => [] end) probe = Some v ->
  Attest.status v = "ACTIVE" ->
  running f = true /\
  exists id, parseBootId (log_text f) = Some id /\ oprop "bootId" e = JStr id /\
    (exists line ev app r, line ∈ Str.split LF (log_text f) /\ event_of line = Some ev /\ report_of id ev = Some (app, r)) /\
    forall line ev app r, line ∈ Str.split LF (log_text f) -> event_of line = Some ev -> report_of id ev = Some (app, r) ->
      Attest.fully_enforced r.
Proof.
  unfold gatherBootEvidence. intros He Hv Ha. destruct (running f); [|done]. split; [done|]. cbn [negb] in He.
  destruct (parseBootId (log_text f)) as [id|]; [|done]. exists id.
  set (rs := parseRulesetReports (log_text f) id) in *.
  assert (oprop "bootId" e = JStr id /\ oprop "rulesetReports" e = JArr rs) as [Hid Hrs].
  { destruct (host_runtime f) as [rt|]; [destruct (String.eqb rt "")|]; by injection He as <-. }
  rewrite Hrs in Hv.
  destruct (Attest.derive_spec _ _ _ Hv) as (_ & Hact & _). apply Hact in Ha as (Hne & Hall & _).
  split_and!; [done|done| |].
  - destruct rs as [|r rs'] eqn:Er; [done|]. subst rs. assert (r ∈ parseRulesetReports (log_text f) id) as Hin by (rewrite Er; by left).
    apply list_elem_of_omap in Hin as (line & Hl & Hr). apply bind_Some in Hr as (ev & Hev & Hr).
    apply bind_Some in Hr as ([app r'] & Hr & [= <-]). by exists line, ev, app, r'.
  - intros line ev app r Hl Hev Hr. rewrite Forall_forall in Hall. apply Hall. subst rs.
    apply list_elem_of_omap. exists line. split; [done|]. rewrite Hev. cbn. by rewrite Hr.
Qed.

End evidence.

(** A log of a container: what the entrypoint and agent-init said at boot, and
    two lines the app printed after it. *)
Definition dq : string := String dq_char "".
Definition agent_init_line (id app ruleset : string) : string :=
  JsonParse.stringify (JObj [("source", JStr "agent-init"); ("event", JStr "capability_policy_applied"); ("bootId", JStr id);
                   ("app", JStr app); ("ruleset", JStr ruleset)]).
Definition boot_line (id : string) : string := BOOT_ID_PREFIX +:+ id.
Definition lines (l : list string) : string := Str.join (String LF "") l.

Definition facts (log : string) : ContainerFacts :=
  {| running := true; host_runtime := None; info_image := Some "sha256:0"; image_inspect := None; log_text := log; policy_output := "" |}.
Definition verdict (log : string) : option string :=
  match gatherBootEvidence JsonParse.parse "berth-dev-notes" "notes:dev" (facts log) (JObj [("status", JStr "enforcing")]) with
  | Ok e => Attest.status <$> Attest.deriveEnforcementStatus
              (match oprop "rulesetReports" e with JArr l => l | _ => [] end) (oprop "doctorProbe" e)
  | Err _ => None
  end.

(** In a container the newest boot id wins, and an app's output is in the same
    log: an app whose policy agent-init could not apply prints a boot id of its
    own and a report for it, and the verdict of the boot is ACTIVE. *)
Theorem container_app_forges_boot :
  verdict (lines [boot_line "b1"; agent_init_line "b1" "notes" "NotEnforced"; "notes ready"]) = Some "NOT_ENFORCED" /\
  verdict (lines [boot_line "b1"; agent_init_line "b1" "notes" "NotEnforced"; "notes ready";
                  boot_line "x"; agent_init_line "x" "notes" "FullyEnforced"]) = Some "ACTIVE".
Proof. by vm_compute. Qed.

(** The same boot in a microVM, where the app prints on a stream of its own. *)
Definition ex_input (ruleset : string) (printed : list GuestLine) : VmEvidenceInput :=
  {| record := {| name := "notes-vm"; app_names := ["notes"]; vmConfig := JObj [("nics", JNum 0)];
                  measurements := JObj [("kernel", JObj [("sha256", JStr "k"); ("pinned", JBool true)]);
                                        ("rootfs", JObj [("sha256", JStr "r")])];
                  hostSandbox := JUndef |};
     bootId := "b1";
     controlEvents := [JObj [("event", JStr "boot_start"); ("lsm", JStr "capability,landlock")]];
     logLines := ("notes", agent_init_line "b1" "notes" ruleset) :: printed;
     consoleText := ""; darwin := false |}.

Definition vm_verdict (input : VmEvidenceInput) : option string :=
  e ← vmBootEvidence JsonParse.parse (fun _ => "") input;
  Attest.status <$> Attest.deriveEnforcementStatus (match oprop "rulesetReports" e with JArr l => l | _ => [] end) (oprop "doctorProbe" e).

Example vm_app_cannot_forge :
  vm_verdict (ex_input "FullyEnforced" [("other", "hello")]) = Some "ACTIVE" /\
  vm_verdict (ex_input "NotEnforced" [("notes", agent_init_line "b1" "notes" "FullyEnforced");
                                      ("other", agent_init_line "b1" "notes" "FullyEnforced")]) = Some "NOT_ENFORCED".
Proof. by vm_compute. Qed.

Lemma vm_attestation_sound_witness :
  exists r, own_report JsonParse.parse "b1" ("notes", agent_init_line "b1" "notes" "FullyEnforced") = Some ("notes", r) /\
    Attest.fully_enforced r.
Proof.
  destruct (vmBootEvidence JsonParse.parse (fun _ => "") (ex_input "FullyEnforced" [("other", "hello")])) as [e|] eqn:Ee; [|by vm_compute in Ee].
  destruct (Attest.deriveEnforcementStatus (match oprop "rulesetReports" e with JArr l => l | _ => [] end) (oprop "doctorProbe" e)) as [v|] eqn:Ev.
  2:{ vm_compute in Ee. injection Ee as <-. by vm_compute in Ev. }
  assert (Attest.status v = "ACTIVE") as Ha.
  { assert (Ee' := Ee). vm_compute in Ee'. injection Ee' as <-. vm_compute in Ev. by injection Ev as <-. }
  destruct (vm_attestation_sound JsonParse.parse (fun _ => "") _ e v Ee Ev Ha) as (_ & _ & _ & H).
  destruct (own_report JsonParse.parse "b1" ("notes", agent_init_line "b1" "notes" "FullyEnforced")) as [[a r]|] eqn:Eo; [|by vm_compute in Eo].
  assert (a = "notes") as ->. { vm_compute in Eo. by injection Eo. }
  exists r. split; [done|]. apply (H "notes" [] ("notes", agent_init_line "b1" "notes" "FullyEnforced") [] r); [reflexivity|reflexivity|exact Eo].
Defined.

Lemma container_attestation_sound_witness :
  exists e, gatherBootEvidence JsonParse.parse "c" "i" (facts (lines [boot_line "b1"; agent_init_line "b1" "notes" "FullyEnforced"]))
              (JObj [("status", JStr "enforcing")]) = Ok e /\ oprop "bootId" e = JStr "b1".
Proof.
  set (f := facts _). set (probe := JObj _).
  destruct (gatherBootEvidence JsonParse.parse "c" "i" f probe) as [e|] eqn:Ee; [|by vm_compute in Ee].
  destruct (Attest.deriveEnforcementStatus (match oprop "rulesetReports" e with JArr l => l | _ => [] end) probe) as [v|] eqn:Ev.
  2:{ vm_compute in Ee. injection Ee as <-. by vm_compute in Ev. }
  assert (Attest.status v = "ACTIVE") as Ha.
  { assert (Ee' := Ee). vm_compute in Ee'. injection Ee' as <-. vm_compute in Ev. by injection Ev as <-. }
  destruct (container_attestation_sound JsonParse.parse "c" "i" f probe e v Ee Ev Ha) as (_ & id & Hid & He & _).
  exists e. split; [done|]. rewrite He. vm_compute in Hid. by injection Hid as <-.
Defined.

Lemma demux_spec_witness : demuxLogBuffer (write_frames [(1, "ab"); (2, "c")]) = "abc".
Proof. apply (demux_spec [(1, "ab"); (2, "c")]); [done|]. repeat constructor; cbn; lia. Defined.

End BootEvidence.
