(* ===== verification/Doctor.v ===== *)
(** * What the host can enforce (packages/docker-orchestrator/src/doctor.ts and
    docker-host.ts)

    Which daemon is asked, the probe of the kernel that runs the apps, the report
    of [berth doctor], the cached answer a boot goes by, its banner and its
    cgroup decision. Docker is what its calls answer, one of the answers being
    none at all. The wording of a detail is left out, what it is made from is not;
    titles are left out. *)
From S2P Require Import Prelude JsNumber Json Paths Attest JsonParse BootEvidence Container.

(** Which daemon (docker-host.ts) *)
Module DockerHost.
Import Json.

Inductive Source := DOCKER_HOST | DOCKER_CONTEXT | docker_context | default.

Inductive host_problem :=
| ContextNotFound (context : string)
| NoDockerEndpoint (context : string)
| NotFollowed (context host : string).

Record DockerHostResolution := {
  host : option string;
  source : Source;
  context : option string;
  problem : option host_problem
}.

Section resolve.
(** The environment, the parsed contents of a file (none when it cannot be read
    or parsed), and SHA-256 in hexadecimal. *)
Context (env : string -> option string) (home : string) (read_json : string -> option json) (sha256 : string -> string).

Definition set_var (k : string) : option string :=
  match env k with Some EmptyString => None | v => v end.

Definition configDir : string :=
  match set_var "DOCKER_CONFIG" with Some d => d | None => NodePath.join [home; ".docker"] end.

(** [config.currentContext], JUndef when the file gives none. *)
Definition current_context : json :=
  match set_var "DOCKER_CONTEXT" with
  | Some c => JStr c
  | None =>
      match read_json (NodePath.join [configDir; "config.json"]) with
      | Some config => oprop "currentContext" config
      | None => JUndef
      end
  end.

Definition metaPath (context : string) : string :=
  NodePath.join [configDir; "contexts"; "meta"; sha256 context; "meta.json"].

(** [meta.Endpoints?.docker?.Host]; none when reading it throws. *)
Definition meta_host (context : string) : option json :=
  meta ← read_json (metaPath context);
  endpoints ← prop "Endpoints" meta;
  let docker := match endpoints with JUndef | JNull => JUndef | e => oprop "docker" e end in
  Some (match docker with JUndef | JNull => JUndef | d => oprop "Host" d end).

Definition followed (host : string) : bool := Str.starts_with "unix://" host || Str.starts_with "npipe://" host.

(** [None] when it throws: a context or an endpoint that is no string. *)
Definition resolveDockerHost : option DockerHostResolution :=
  match set_var "DOCKER_HOST" with
  | Some h => Some {| host := Some h; source := DOCKER_HOST; context := None; problem := None |}
  | None =>
      let src := match set_var "DOCKER_CONTEXT" with Some _ => DOCKER_CONTEXT | None => docker_context end in
      if negb (Attest.truthy current_context) || Attest.is_str current_context "default"
      then Some {| host := None; source := default; context := None; problem := None |}
      else match current_context with
           | JStr c =>
               let failed p := Some {| host := None; source := src; context := Some c; problem := Some p |} in
               match meta_host c with
               | None => failed (ContextNotFound c)
               | Some h =>
                   if negb (Attest.truthy h) then failed (NoDockerEndpoint c)
                   else match h with
                        | JStr h =>
                            if followed h then Some {| host := Some h; source := src; context := Some c; problem := None |}
                            else failed (NotFollowed c h)
                        | _ => None
                        end
               end
           | _ => None
           end
  end.

(** The host exported as DOCKER_HOST for every client of the process. *)
Definition exported (r : DockerHostResolution) : option string :=
  match source r with DOCKER_HOST => None | _ => match host r with Some EmptyString => None | h => h end end.

Definition applyDockerContext : option (DockerHostResolution * (string -> option string)) :=
  r ← resolveDockerHost;
  Some (r, match exported r with
           | Some h => fun k => if String.eqb k "DOCKER_HOST" then Some h else env k
           | None => env
           end).

(** The daemon [new Docker()] dials, given the environment. *)
Definition dialed (env' : string -> option string) : option string :=
  match env' "DOCKER_HOST" with Some EmptyString => None | v => v end.

#[local] Ltac fails H Hd Hp := cbn in H; injection H as <- <-; destruct (set_var "DOCKER_CONTEXT"); cbn; (split; [exact Hd|split; [reflexivity|apply Hp]]).

(** Every client of the process dials the host that was resolved, which comes
    from the variable, or is a local socket named by the metadata of the selected
    context; and the default socket is dialed only when no context is selected, or
    the selected one cannot be used, and then the problem says so. *)
Theorem docker_host_resolved r env' :
  applyDockerContext = Some (r, env') ->
  dialed env' = host r /\
  match host r with
  | Some h =>
      set_var "DOCKER_HOST" = Some h \/
      set_var "DOCKER_HOST" = None /\ followed h = true /\
      exists c, context r = Some c /\ current_context = JStr c /\ c <> "default" /\ meta_host c = Some (JStr h)
  | None =>
      set_var "DOCKER_HOST" = None /\
      ((problem r = None <-> Attest.truthy current_context = false \/ current_context = JStr "default"))
  end.
Proof.
  unfold applyDockerContext, resolveDockerHost. intros H.
  destruct (set_var "DOCKER_HOST") as [h|] eqn:Eh.
  { cbn in H. injection H as <- <-. cbn. split; [|by left]. unfold dialed. unfold set_var in Eh.
    destruct (env "DOCKER_HOST") as [[|]|]; by simplify_eq. }
  assert (dialed env = None) as Hd.
  { unfold dialed, set_var in *. by destruct (env "DOCKER_HOST") as [[|]|]. }
  destruct (Attest.truthy current_context) eqn:Et; cbn [negb orb] in H.
  2:{ cbn in H. injection H as <- <-. cbn. split_and!; [done|done|by split; auto]. }
  destruct (Attest.is_str current_context "default") eqn:Ed.
  { cbn in H. injection H as <- <-. apply Attest.is_str_spec in Ed. cbn. split_and!; [done|done|by split; auto]. }
  destruct current_context as [| | | |c| |] eqn:Ec; try done.
  assert (c <> "default") as Hc by (intros ->; done).
  assert (Hp : forall p : host_problem, Some p = None <-> true = false \/ JStr c = JStr "default").
  { intros p. split; [done|]. intros [?|?]; [done|congruence]. }
  destruct (meta_host c) as [h|] eqn:Em; [|fails H Hd Hp].
  destruct (Attest.truthy h) eqn:Eth; [|fails H Hd Hp].
  cbn [negb] in H. destruct h as [| | | |h| |]; try done.
  destruct (followed h) eqn:Ef; [|fails H Hd Hp].
  assert (h <> "") as Hh by (by intros ->).
  destruct h as [|ch h]; [done|].
  destruct (set_var "DOCKER_CONTEXT"); cbn in H; injection H as <- <-; cbn; (split; [done|]); right; split_and!; eauto.
Qed.

End resolve.

Definition ex_env (k : string) : option string := None.
Definition ex_read (path : string) : option json :=
  if String.eqb path "/home/u/.docker/config.json" then Some (JObj [("currentContext", JStr "colima")])
  else if String.eqb path "/home/u/.docker/contexts/meta/c0/meta.json"
  then Some (JObj [("Endpoints", JObj [("docker", JObj [("Host", JStr "unix:///home/u/.colima/docker.sock")])])])
  else None.

Lemma docker_host_resolved_witness :
  exists r env', applyDockerContext ex_env "/home/u" ex_read (fun _ => "c0") = Some (r, env') /\
    host r = Some "unix:///home/u/.colima/docker.sock" /\ dialed env' = host r.
Proof.
  destruct (applyDockerContext ex_env "/home/u" ex_read (fun _ => "c0")) as [[r env']|] eqn:E; [|by vm_compute in E].
  exists r, env'. destruct (docker_host_resolved _ _ _ _ r env' E) as [Hd _].
  split_and!; [done| |done]. vm_compute in E. by injection E as <- <-.
Defined.
End DockerHost.

(** The probe and the report (doctor.ts) *)
Module Doctor.
Import Json.
Import JsNumber.
Import Container(CgroupProbe, v2, nsdelegate, delegation, delegates, cgroupDelegationVerdict, resolveRuntime).

(** What a call to the daemon gives: it may never answer. *)
Inductive answer (A : Type) : Type :=
| Answers (a : A)
| Fails (message : string)
| Silent.
Arguments Answers {A} a.
Arguments Fails {A} message.
Arguments Silent {A}.

(** How an asynchronous function ends: it returns, throws, or waits for ever. *)
Inductive outcome (A : Type) : Type :=
| Done (a : A)
| Throws
| Waits.
Arguments Done {A} a.
Arguments Throws {A}.
Arguments Waits {A}.

Definition then_ {A B} (o : outcome A) (k : A -> outcome B) : outcome B :=
  match o with Done a => k a | Throws => Throws | Waits => Waits end.

Inductive call_error := Said (message : string) | NoAnswer (what : string) | BadContext.

(** [withTimeout] *)
Definition withTimeout {A} (a : answer A) (what : string) : result call_error A :=
  match a with Answers a => Ok a | Fails m => Err (Said m) | Silent => Err (NoAnswer what) end.

Definition DAEMON_TIMEOUT_MS : jsnum := of_Z 10000.

(** [override] of the caller, and the variable as [Number] reads it. *)
Definition daemonTimeoutMs (override : option jsnum) (env : option string) : jsnum :=
  match override with
  | Some ms => ms
  | None =>
      let n := match env with Some v => Number v | None => NaN end in
      if match n with Fin _ _ => positive n | _ => false end then n else DAEMON_TIMEOUT_MS
  end.

(*** The kernel probe *)

Definition MIN_LANDLOCK_ABI : Z := 4.
Definition belowRequiredAbi (abi : json) : bool := match abi with JNum n => (n <? MIN_LANDLOCK_ABI)%Z | _ => false end.

(** The members of the object the probe printed. *)
Definition Probe : Type := list (string * json).
Definition field (k : string) (p : Probe) : json := oprop k (JObj p).

(** [probe.cgroup] as the verdict reads it. *)
Definition cgroup_of (v : json) : option CgroupProbe :=
  if Attest.truthy v then Some {| v2 := Attest.truthy (oprop "v2" v); nsdelegate := Attest.truthy (oprop "nsdelegate" v) |} else None.

Inductive docker_call := Create (image : string) (runtime : option string) | Attach | Start | Wait | Kill | Remove.

(** What the daemon does with a probe container: the calls that fail, and the
    output it printed. *)
Record ProbeRun := {
  pr_create : answer unit;
  pr_attach : answer unit;
  pr_start : answer unit;
  pr_wait : answer unit;      (* silent: it ran into PROBE_TIMEOUT_MS, was killed, and then ended *)
  pr_output : string
}.

(** From the first brace that opens to the last that closes. *)
Definition json_slice (raw : string) : option string :=
  match Str.index_of "{" raw, Str.last_index_of "}" raw with
  | Some s, Some e => if e <=? s then None else Some (Str.take (S e - s) (Str.drop s raw))
  | _, _ => None
  end.

Section doctor.
Context (parse : string -> option json).

(** The result of what the container printed. *)
Definition read_probe (raw : string) : answer Probe :=
  match json_slice raw with
  | None => Fails "probe produced no JSON."
  | Some text => match parse text with Some (JObj p) => Answers p | _ => Fails "not JSON" end
  end.

(** A container that is created is removed, however the probe ends. *)
Definition probeKernel (r : ProbeRun) (image : string) (runtime : option string) : list docker_call * answer Probe :=
  let created := Create image (Container.nonempty runtime) in
  match pr_create r with
  | Fails m => ([created], Fails m)
  | Silent => ([created], Silent)
  | Answers _ =>
      match pr_attach r with
      | Fails m => ([created; Attach; Remove], Fails m)
      | Silent => ([created; Attach], Silent)
      | Answers _ =>
          match pr_start r with
          | Fails m => ([created; Attach; Start; Remove], Fails m)
          | Silent => ([created; Attach; Start], Silent)
          | Answers _ =>
              match pr_wait r with
              | Fails m => ([created; Attach; Start; Wait; Remove], Fails m)
              | Silent => ([created; Attach; Start; Wait; Kill; Remove], read_probe (pr_output r))
              | Answers _ => ([created; Attach; Start; Wait; Remove], read_probe (pr_output r))
              end
          end
      end
  end.

(** A container that was created is removed, unless the daemon stops answering. *)
Theorem probe_container_removed r image rt :
  pr_create r = Answers tt -> (probeKernel r image rt).2 <> Silent -> last (probeKernel r image rt).1 = Some Remove.
Proof.
  unfold probeKernel. intros -> H. destruct (pr_attach r); [|done|done]. destruct (pr_start r); [|done|done]. by destruct (pr_wait r).
Qed.

End doctor.

(*** The daemon; [probe] is what [probeKernel] gives *)

Record DaemonInfo := {
  kernelVersion : option string;
  operatingSystem : option string;
  serverVersion : option string;
  arch : option string;
  securityOptions : option (list string);
  runtimes : list string;              (* the keys of Runtimes *)
  defaultRuntime : option string;
  memTotal : option Z
}.

Record Daemon := {
  ping : answer unit;
  info : answer DaemonInfo;
  listImages : answer (list (list string));   (* the RepoTags of each image *)
  pull : answer unit;
  probe : string -> option string -> answer Probe
}.

Definition no_line_break_to_python : string -> bool :=
  fix go t := Str.starts_with "/python:" t ||
              match t with String c r => negb (Str.is_line_terminator c) && go r | EmptyString => false end.

(** [/^(python|.*\/python):/] *)
Definition is_python (tag : string) : bool := Str.starts_with "python:" tag || no_line_break_to_python tag.

Definition findProbeImage (images : list (list string)) : option string :=
  let tags := mjoin (map (List.filter (fun t => negb (String.eqb t "") && negb (String.eqb t "<none>:<none>"))) images) in
  match List.find (fun t => Str.starts_with "berth/" t || Str.starts_with "berth-agent/" t) tags with
  | Some t => Some t
  | None => List.find is_python tags
  end.

Definition PROBE_FALLBACK_IMAGE : string := "python:3.13-alpine".

Definition pullProbeImage (d : Daemon) : outcome (option string) :=
  match pull d with
  | Answers _ => Done (Some PROBE_FALLBACK_IMAGE)
  | Fails _ => Done None
  | Silent => Waits
  end.

(*** Checks *)

Inductive check_id := docker | memory | landlock | seccomp | fuse | runtime_ | cgroups.
Inductive CheckStatus := ok | warn | fail | unknown.

Inductive not_run := DaemonUnreachable | RuntimeNotRegistered (runtime : string) | Skipped | NoImage.

(** What was observed. *)
Inductive Detail :=
| Reached (i : DaemonInfo)
| Unreachable (why : call_error)
| InVm (bytes : Z)
| NoSeccomp
| Unconfined
| SeccompProfile (option_ : string)
| NoSuchRuntime (runtime : string) (available : list string)
| BootsWith (runtime : string) (default_ : option string)
| DaemonDefault (default_ : option string) (available : list string)
| NotRun (why : not_run)
| ProbeFailed (image : string) (why : call_error)
| BelowAbi (abi : json)
| WriteDenied (abi reason : json)
| WriteNotDenied (abi : json)
| NoSyscalls (reason : json)
| FusePresent
| FuseAbsent
| Cgroups (d : delegation)
| ProbedIn (image : string) (d : Detail)
| LandlockUnknown (d : Detail)
| NothingPassed.

Inductive Remedy :=
| StartDocker | StartContext (p : DockerHost.host_problem) | MoreMemory (desktop : bool) | OwnSeccomp
| InstallGvisor | RegisterRuntime (runtime : string) | TryGvisor | PullOrBuild | NewerKernel | AddLsm | OtherHost | LoadFuse | MountNsdelegate.

Record DoctorCheck := { id : check_id; status : CheckStatus; detail : Detail; remedy : option Remedy }.

Definition check (i : check_id) (s : CheckStatus) (d : Detail) (r : option Remedy) : DoctorCheck :=
  {| id := i; status := s; detail := d; remedy := r |}.

(** [None] when the switch falls through: a status that is none of the three. *)
Definition landlockCheck (p : Probe) : option DoctorCheck :=
  let abi := field "abi" p in
  match field "status" p with
  | JStr "enforcing" =>
      if belowRequiredAbi abi then Some (check landlock fail (BelowAbi abi) (Some NewerKernel))
      else Some (check landlock ok (WriteDenied abi (field "reason" p)) None)
  | JStr "present_not_enforcing" => Some (check landlock fail (WriteNotDenied abi) (Some AddLsm))
  | JStr "unsupported" => Some (check landlock fail (NoSyscalls (field "reason" p)) (Some OtherHost))
  | _ => None
  end.

Definition cgroupsCheck (disable_env : option string) (cgroup : option CgroupProbe) (runtime : option string) : DoctorCheck :=
  let verdict := cgroupDelegationVerdict disable_env cgroup (Container.nonempty runtime) in
  check cgroups (if delegates verdict then ok else match cgroup with Some _ => warn | None => unknown end) (Cgroups verdict)
    (if delegates verdict then None else match cgroup with Some _ => Some MountNsdelegate | None => None end).

Definition MIN_DOCKER_MEMORY_BYTES : Z := 4 * 1024 ^ 3.

Definition memoryCheck (memTotal : option Z) (operatingSystem : string) : option DoctorCheck :=
  match memTotal with
  | None | Some 0%Z => None
  | Some b =>
      if (MIN_DOCKER_MEMORY_BYTES <=? b)%Z then Some (check memory ok (InVm b) None)
      else Some (check memory warn (InVm b) (Some (MoreMemory (Str.includes "docker desktop" (Str.to_lower operatingSystem)))))
  end.

Definition seccompCheck (options_ : list string) : DoctorCheck :=
  match List.find (Str.starts_with "name=seccomp") options_ with
  | None => check seccomp warn NoSeccomp (Some OwnSeccomp)
  | Some o => if Str.includes "profile=unconfined" o then check seccomp warn Unconfined (Some OwnSeccomp)
              else check seccomp ok (SeccompProfile o) None
  end.

Definition has_runtime (i : DaemonInfo) (r : string) : bool := existsb (String.eqb r) (runtimes i).

Definition runtimeCheck (i : DaemonInfo) (runtime : option string) : DoctorCheck :=
  match Container.nonempty runtime with
  | Some r =>
      if negb (has_runtime i r)
      then check runtime_ fail (NoSuchRuntime r (runtimes i)) (Some (if String.eqb r "runsc" then InstallGvisor else RegisterRuntime r))
      else check runtime_ ok (BootsWith r (defaultRuntime i)) None
  | None => check runtime_ ok (DaemonDefault (defaultRuntime i) (runtimes i)) (if has_runtime i "runsc" then Some TryGvisor else None)
  end.

Definition find_check (i : check_id) (checks : list DoctorCheck) : option DoctorCheck :=
  List.find (fun c => match id c, i with
                      | docker, docker | memory, memory | landlock, landlock | seccomp, seccomp | fuse, fuse | runtime_, runtime_
                      | cgroups, cgroups => true
                      | _, _ => false
                      end) checks.

Definition collectReasons (checks : list DoctorCheck) : list Detail :=
  let reasons := omap (fun i =>
    c ← find_check i checks;
    match status c, i with
    | fail, _ => Some (detail c)
    | unknown, landlock => Some (LandlockUnknown (detail c))
    | _, _ => None
    end) [docker; runtime_; landlock; fuse; seccomp] in
  match reasons with [] => [NothingPassed] | l => l end.

(*** The report *)

Record RunDoctorOptions := {
  o_image : option string;
  o_skipProbe : bool;
  o_runtime : option string;
  o_pullProbeImage : option bool
}.

Inductive Verdict := Active | NotActive (why : list Detail) | Unknown (why : list Detail).

Record DoctorReport := {
  enforcementActive : bool;
  enforcementDetermined : bool;
  verdict : Verdict;
  reasons : list Detail;
  checks : list DoctorCheck;
  daemon : option DaemonInfo;
  probeImage : option string
}.

Section report.
(** The environment, and how the daemon was chosen; none when the caller did. *)
Context (env : string -> option string) (endpoint : option DockerHost.DockerHostResolution).

Definition wanted_runtime (explicit : option string) : option string :=
  match explicit with Some r => Some r | None => Container.nonempty (env "BERTH_RUNTIME") end.

Definition context_problem : option DockerHost.host_problem := endpoint ≫= DockerHost.problem.

Definition reach (d : Daemon) : result call_error DaemonInfo :=
  match context_problem with
  | Some _ => Err BadContext
  | None => match withTimeout (ping d) "docker ping" with
            | Ok _ => withTimeout (info d) "docker info"
            | Err e => Err e
            end
  end.

Definition daemon_checks (r : result call_error DaemonInfo) (runtime : option string) : list DoctorCheck :=
  match r with
  | Ok i =>
      [check docker ok (Reached i) None]
      ++ match memoryCheck (memTotal i) (or_default "unknown" (operatingSystem i)) with Some c => [c] | None => [] end
      ++ [seccompCheck (or_default [] (securityOptions i)); runtimeCheck i runtime]
  | Err e =>
      [check docker fail (Unreachable e) (Some (match context_problem with Some p => StartContext p | None => StartDocker end))]
  end.

(** The image to probe in, and whether it was pulled for it. *)
Definition probe_image (o : RunDoctorOptions) (d : Daemon) (reached : bool) : outcome (option string * bool) :=
  let found := match o_image o with
               | Some i => Some i
               | None => if reached then match withTimeout (listImages d) "listing images" with Ok l => findProbeImage l | Err _ => None end
                         else None
               end in
  match Container.nonempty found with
  | None =>
      if reached && negb (o_skipProbe o) && negb (bool_decide (o_pullProbeImage o = Some false))
      then then_ (pullProbeImage d) (fun i => Done (i, match i with Some _ => true | None => false end))
      else Done (found, false)
  | Some _ => Done (found, false)
  end.

Definition unknown_checks (d : Detail) (r : option Remedy) : list DoctorCheck :=
  [check landlock unknown d r; check fuse unknown d r; check cgroups unknown d r].

Definition failed_status (c : option DoctorCheck) : bool :=
  match c with Some c => match status c with fail => true | _ => false end | None => false end.

(** The checks of the probe; they throw when the probe's status is none it has. *)
Definition probe_checks (o : RunDoctorOptions) (d : Daemon) (reached : bool) (runtime : option string) (before : list DoctorCheck)
    (image : option string) (pulled : bool) : outcome (list DoctorCheck) :=
  let runtimeMissing := failed_status (find_check runtime_ before) in
  match Container.nonempty image with
  | Some i =>
      if o_skipProbe o || negb reached || runtimeMissing
      then Done (unknown_checks (NotRun (if negb reached then DaemonUnreachable
                                         else if runtimeMissing then RuntimeNotRegistered (or_default "" runtime)
                                         else Skipped)) None)
      else
        match withTimeout (probe d i runtime) "the kernel probe" with
        | Err e => Done (unknown_checks (ProbeFailed i e) None)
        | Ok p =>
            match landlockCheck p with
            | Some c =>
                let c := if pulled then check (id c) (status c) (ProbedIn i (detail c)) (remedy c) else c in
                let has_fuse := Attest.truthy (field "fuse" p) in
                Done [c;
                      check fuse (if has_fuse then ok else warn) (if has_fuse then FusePresent else FuseAbsent)
                        (if has_fuse then None else Some LoadFuse);
                      cgroupsCheck (env "BERTH_DISABLE_APP_CGROUPS") (cgroup_of (field "cgroup" p)) runtime]
            | None => if pulled then Done (unknown_checks (ProbeFailed i (Said "TypeError")) None) else Throws
            end
        end
  | None =>
      Done (if negb reached then unknown_checks (NotRun DaemonUnreachable) None
            else if runtimeMissing then unknown_checks (NotRun (RuntimeNotRegistered (or_default "" runtime))) None
            else if o_skipProbe o then unknown_checks (NotRun Skipped) None
            else unknown_checks (NotRun NoImage) (Some PullOrBuild))
  end.

Definition is_status (s : CheckStatus) (c : option DoctorCheck) : bool :=
  match c with
  | Some c => match status c, s with ok, ok | warn, warn | fail, fail | unknown, unknown => true | _, _ => false end
  | None => false
  end.

Definition runDoctor (o : RunDoctorOptions) (d : Daemon) : outcome DoctorReport :=
  let runtime := wanted_runtime (o_runtime o) in
  let r := reach d in
  let reached := is_ok r in
  let before := daemon_checks r runtime in
  then_ (probe_image o d reached) (fun '(image, pulled) =>
  then_ (probe_checks o d reached runtime before image pulled) (fun more =>
    let all := before ++ more in
    let ll := find_check landlock all in
    let active := is_status ok ll in
    let determined := is_status ok ll || is_status fail ll in
    let why := if active then [] else collectReasons all in
    Done {| enforcementActive := active; enforcementDetermined := determined;
            verdict := if active then Active else if determined then NotActive why else Unknown why;
            reasons := why; checks := all; daemon := match r with Ok i => Some i | Err _ => None end;
            probeImage := if o_skipProbe o then None else Container.nonempty image |})).

(**** What the report says *)

Lemma memoryCheck_id m os c : memoryCheck m os = Some c -> id c = memory.
Proof. unfold memoryCheck. repeat case_match; by intros [= <-]. Qed.
Lemma seccompCheck_id l : id (seccompCheck l) = seccomp.
Proof. unfold seccompCheck. by repeat case_match. Qed.
Lemma runtimeCheck_id i rt : id (runtimeCheck i rt) = runtime_.
Proof. unfold runtimeCheck. by repeat case_match. Qed.

Lemma find_landlock_before r rt more :
  find_check landlock (daemon_checks r rt ++ more) = find_check landlock more.
Proof.
  assert (forall l, Forall (fun c => id c <> landlock) l -> find_check landlock (l ++ more) = find_check landlock more) as H.
  { induction 1 as [|c l Hc Hl IH]; [done|]. cbn [app find_check List.find]. unfold find_check in *. cbn [List.find].
    destruct (id c); done. }
  apply H. destruct r as [i|e]; [|by repeat constructor]. unfold daemon_checks.
  destruct (memoryCheck _ _) as [c|] eqn:Em; cbn [app]; repeat (apply Forall_cons; split); try done;
    by rewrite ?(memoryCheck_id _ _ _ Em), ?seccompCheck_id, ?runtimeCheck_id.
Qed.

Lemma find_runtime r rt :
  failed_status (find_check runtime_ (daemon_checks r rt)) = true <->
  exists i name, r = Ok i /\ Container.nonempty rt = Some name /\ has_runtime i name = false.
Proof.
  unfold daemon_checks. destruct r as [i|e].
  - assert (find_check runtime_ ([check docker ok (Reached i) None]
      ++ match memoryCheck (memTotal i) (or_default "unknown" (operatingSystem i)) with Some c => [c] | None => [] end
      ++ [seccompCheck (or_default [] (securityOptions i)); runtimeCheck i rt]) = Some (runtimeCheck i rt)) as ->.
    { unfold find_check. destruct (memoryCheck _ _) as [c|] eqn:Em; cbn [app List.find id check];
        rewrite ?(memoryCheck_id _ _ _ Em), seccompCheck_id, runtimeCheck_id; done. }
    unfold runtimeCheck. destruct (Container.nonempty rt) as [name|] eqn:En.
    + destruct (has_runtime i name) eqn:Eh; cbn.
      * split; [done|]. intros (i' & n & [= <-] & [= <-] & ?). congruence.
      * split; [|done]. intros _. by exists i, name.
    + cbn. split; [done|]. by intros (i' & n & _ & ? & _).
  - cbn. split; [done|]. by intros (i & n & ? & _).
Qed.

(** The kernel enforces all that a policy needs. *)
Definition enforces (p : Probe) : bool :=
  Attest.is_str (field "status" p) "enforcing" && negb (belowRequiredAbi (field "abi" p)).
Definition probe_status (p : Probe) : bool :=
  Attest.one_of ["enforcing"; "present_not_enforcing"; "unsupported"] (field "status" p).

(** The probe [runDoctor] went by: of a daemon it reached, in an image it has, and
    under the runtime that sandboxes boot with, which the daemon has. *)
Definition probed (o : RunDoctorOptions) (d : Daemon) (i : string) (pulled : bool) : Prop :=
  let rt := wanted_runtime (o_runtime o) in
  o_skipProbe o = false /\ i <> "" /\ probe_image o d true = Done (Some i, pulled) /\
  exists inf, reach d = Ok inf /\ forall name, Container.nonempty rt = Some name -> has_runtime inf name = true.

Lemma probed_fun o d i pulled i' pulled' : probed o d i pulled -> probed o d i' pulled' -> i = i' /\ pulled = pulled'.
Proof. intros (_ & _ & H & _) (_ & _ & H' & _). rewrite H in H'. by injection H'. Qed.

Lemma nonempty_Some x i : Container.nonempty x = Some i -> x = Some i /\ i <> "".
Proof. unfold Container.nonempty. destruct x as [s|]; [|done]. destruct (String.eqb_spec s ""); [done|]. by intros [= <-]. Qed.

(** [probe_checks] runs the probe exactly when it may. *)
Lemma probe_checks_cases o d image pulled :
  let rt := wanted_runtime (o_runtime o) in
  probe_image o d (is_ok (reach d)) = Done (image, pulled) ->
  (exists i, probed o d i pulled /\
     probe_checks o d (is_ok (reach d)) rt (daemon_checks (reach d) rt) image pulled =
     match withTimeout (probe d i rt) "the kernel probe" with
     | Err e => Done (unknown_checks (ProbeFailed i e) None)
     | Ok p =>
         match landlockCheck p with
         | Some c =>
             let c := if pulled then check (id c) (status c) (ProbedIn i (detail c)) (remedy c) else c in
             let has_fuse := Attest.truthy (field "fuse" p) in
             Done [c; check fuse (if has_fuse then ok else warn) (if has_fuse then FusePresent else FuseAbsent)
                        (if has_fuse then None else Some LoadFuse);
                   cgroupsCheck (env "BERTH_DISABLE_APP_CGROUPS") (cgroup_of (field "cgroup" p)) rt]
         | None => if pulled then Done (unknown_checks (ProbeFailed i (Said "TypeError")) None) else Throws
         end
     end) \/
  ((forall i pulled', ~ probed o d i pulled') /\
   exists why r, probe_checks o d (is_ok (reach d)) rt (daemon_checks (reach d) rt) image pulled = Done (unknown_checks (NotRun why) r)).
Proof.
  intros rt Hi. unfold probe_checks. fold rt.
  assert (Hno : forall i p, probed o d i p -> image = Some i /\ i <> "" /\ o_skipProbe o = false /\ is_ok (reach d) = true /\
            failed_status (find_check runtime_ (daemon_checks (reach d) rt)) = false).
  { intros i p (Hs & Hne & Hpi & inf & Hr & Hrt). rewrite Hr in *. cbn [is_ok] in *. rewrite Hi in Hpi. injection Hpi as -> ->.
    split_and!; try done. destruct (failed_status _) eqn:Ef; [|done].
    apply find_runtime in Ef as (i' & n & [= <-] & Hn & Hh). apply Hrt in Hn. congruence. }
  destruct (Container.nonempty image) as [i|] eqn:En.
  - apply nonempty_Some in En as [-> Hne].
    destruct (o_skipProbe o || negb (is_ok (reach d)) || failed_status _) eqn:Eg.
    + right. split; [|eauto]. intros i' p Hp. apply Hno in Hp as (_ & _ & Hs & Hr & Hf). rewrite Hs, Hr, Hf in Eg. done.
    + left. apply orb_false_iff in Eg as [[Hs Hr]%orb_false_iff Hf]. apply negb_false_iff in Hr.
      exists i. split; [|done]. rewrite Hr in Hi. destruct (reach d) as [inf|] eqn:Er; [|done].
      split_and!; try done. exists inf. split; [done|]. intros n Hn. destruct (has_runtime inf n) eqn:Eh; [done|].
      rewrite (proj2 (find_runtime (Ok inf) rt)) in Hf; [done|]. by exists inf, n.
  - right. split; [|repeat case_match; eauto].
    intros i p Hp. apply Hno in Hp as (-> & Hne & _). unfold Container.nonempty in En.
    by destruct (String.eqb_spec i "").
Qed.

Lemma collectReasons_ne l : collectReasons l <> [].
Proof. unfold collectReasons. by destruct (omap _ _). Qed.

Lemma landlockCheck_spec p :
  match landlockCheck p with
  | Some c => id c = landlock /\ status c = (if enforces p then ok else fail) /\ probe_status p = true
  | None => probe_status p = false /\ enforces p = false
  end.
Proof.
  unfold landlockCheck, enforces, probe_status, Attest.one_of, Attest.is_str.
  destruct (field "status" p) as [| | | |s| |]; try done. cbn [existsb].
  destruct (String.eqb_spec s "enforcing") as [->|H1]; [cbn; by destruct (belowRequiredAbi _)|].
  destruct (String.eqb_spec s "present_not_enforcing") as [->|H2]; [done|].
  destruct (String.eqb_spec s "unsupported") as [->|H3]; [done|]. cbn.
  repeat match goal with |- context [match ?x with _ => _ end] => is_var x; destruct x; try done end.
Qed.

Lemma runDoctor_done o d r :
  runDoctor o d = Done r ->
  exists image pulled more,
    probe_image o d (is_ok (reach d)) = Done (image, pulled) /\
    probe_checks o d (is_ok (reach d)) (wanted_runtime (o_runtime o)) (daemon_checks (reach d) (wanted_runtime (o_runtime o))) image pulled = Done more /\
    enforcementActive r = is_status ok (find_check landlock more) /\
    enforcementDetermined r = is_status ok (find_check landlock more) || is_status fail (find_check landlock more) /\
    reasons r = (if enforcementActive r then [] else collectReasons (checks r)) /\
    verdict r = (if enforcementActive r then Active else if enforcementDetermined r then NotActive (reasons r) else Unknown (reasons r)).
Proof.
  unfold runDoctor. destruct (probe_image _ _ _) as [[image pulled]| |]; [|done|done]. cbn [then_].
  destruct (probe_checks _ _ _ _ _ _ _) as [more| |] eqn:Em; [|done|done]. cbn [then_]. intros [= <-].
  exists image, pulled, more. rewrite find_landlock_before. cbn. by split_and!.
Qed.

Lemma report_active o d r :
  runDoctor o d = Done r ->
  enforcementActive r = true <->
  exists i pulled p, probed o d i pulled /\ probe d i (wanted_runtime (o_runtime o)) = Answers p /\ enforces p = true.
Proof.
  intros Hr. apply runDoctor_done in Hr as (image & pulled & more & Hi & Hm & Ha & _). rewrite Ha.
  destruct (probe_checks_cases o d image pulled Hi) as [(i & Hp & E)|(Hno & why & rem & E)]; cbn zeta in E; rewrite E in Hm.
  2:{ injection Hm as <-. split; [done|]. intros (i & pl & p & Hp & _). by apply Hno in Hp. }
  split.
  - intros Hok. exists i, pulled. destruct (probe d i _) as [p|m|]; cbn [withTimeout] in Hm; [|by injection Hm as <-|by injection Hm as <-].
    exists p. split_and!; [done|done|]. generalize (landlockCheck_spec p). destruct (landlockCheck p) as [c|].
    + intros (Hid & Hst & _). injection Hm as <-.
      destruct pulled; cbn in Hok; rewrite Hid in Hok; cbn in Hok; rewrite Hst in Hok; by destruct (enforces p).
    + intros _. destruct pulled; [|done]. by injection Hm as <-.
  - intros (i' & pl & p & Hp' & Hpr & He). destruct (probed_fun _ _ _ _ _ _ Hp Hp') as [<- <-]. rewrite Hpr in Hm. cbn [withTimeout] in Hm.
    generalize (landlockCheck_spec p). destruct (landlockCheck p) as [c|]; [|intros [_ ?]; congruence].
    intros (Hid & Hst & _). rewrite He in Hst. injection Hm as <-. destruct pulled; cbn; rewrite Hid; cbn; by rewrite Hst.
Qed.

Lemma report_determined o d r :
  runDoctor o d = Done r ->
  enforcementDetermined r = true <->
  exists i pulled p, probed o d i pulled /\ probe d i (wanted_runtime (o_runtime o)) = Answers p /\ probe_status p = true.
Proof.
  intros Hr. apply runDoctor_done in Hr as (image & pulled & more & Hi & Hm & _ & Hd & _). rewrite Hd.
  destruct (probe_checks_cases o d image pulled Hi) as [(i & Hp & E)|(Hno & why & rem & E)]; cbn zeta in E; rewrite E in Hm.
  2:{ injection Hm as <-. split; [done|]. intros (i & pl & p & Hp & _). by apply Hno in Hp. }
  split.
  - intros Hok. exists i, pulled. destruct (probe d i _) as [p|m|]; cbn [withTimeout] in Hm; [|by injection Hm as <-|by injection Hm as <-].
    exists p. split_and!; [done|done|]. generalize (landlockCheck_spec p). destruct (landlockCheck p) as [c|]; [naive_solver|].
    intros _. destruct pulled; [|done]. by injection Hm as <-.
  - intros (i' & pl & p & Hp' & Hpr & He). destruct (probed_fun _ _ _ _ _ _ Hp Hp') as [<- <-]. rewrite Hpr in Hm. cbn [withTimeout] in Hm.
    generalize (landlockCheck_spec p). destruct (landlockCheck p) as [c|]; [|intros [? _]; congruence].
    intros (Hid & Hst & _). injection Hm as <-. destruct pulled; cbn; rewrite Hid; cbn; rewrite Hst; by destruct (enforces p).
Qed.

(** [C25] What [berth doctor] says: that enforcement is active exactly when it ran
    the probe, on the daemon it reached and under the runtime sandboxes boot with,
    and the probe was refused a write on an ABI that has all a policy needs; that
    it is not active only when the probe said otherwise; and that it does not know
    in every other case, with a reason for every answer that is not yes. *)
Theorem doctor_report_spec o d r :
  runDoctor o d = Done r ->
  let rt := wanted_runtime (o_runtime o) in
  (enforcementActive r = true <-> exists i pulled p, probed o d i pulled /\ probe d i rt = Answers p /\ enforces p = true) /\
  (enforcementDetermined r = true <-> exists i pulled p, probed o d i pulled /\ probe d i rt = Answers p /\ probe_status p = true) /\
  verdict r = (if enforcementActive r then Active else if enforcementDetermined r then NotActive (reasons r) else Unknown (reasons r)) /\
  (reasons r = [] <-> enforcementActive r = true).
Proof.
  intros Hr rt. split_and!; [by apply report_active|by apply report_determined|..];
    apply runDoctor_done in Hr as (image & pulled & more & _ & _ & _ & _ & Hw & Hv); [done|].
  rewrite Hw. destruct (enforcementActive r); [done|]. split; [intros H; by apply collectReasons_ne in H|done].
Qed.

(** [berth doctor] answers whatever the daemon does: it waits for ever only
    on the pull of an image to probe in, and throws only on a probe that printed a
    status it does not have. *)
Theorem doctor_answers o d :
  (runDoctor o d = Waits <->
     (exists i, reach d = Ok i) /\ o_skipProbe o = false /\ o_pullProbeImage o <> Some false /\ pull d = Silent /\
     Container.nonempty (match o_image o with
                         | Some i => Some i
                         | None => match withTimeout (listImages d) "listing images" with Ok l => findProbeImage l | Err _ => None end
                         end) = None) /\
  (runDoctor o d = Throws <->
     exists i p, probed o d i false /\ probe d i (wanted_runtime (o_runtime o)) = Answers p /\ probe_status p = false).
Proof.
  assert (Hpi : (probe_image o d (is_ok (reach d)) = Waits <->
     (exists i, reach d = Ok i) /\ o_skipProbe o = false /\ o_pullProbeImage o <> Some false /\ pull d = Silent /\
     Container.nonempty (match o_image o with
                         | Some i => Some i
                         | None => match withTimeout (listImages d) "listing images" with Ok l => findProbeImage l | Err _ => None end
                         end) = None) /\ probe_image o d (is_ok (reach d)) <> Throws).
  { unfold probe_image. destruct (reach d) as [inf|e]; cbn [is_ok].
    - destruct (Container.nonempty _) as [i|] eqn:En; [split; [split; [done|by intros (_ & _ & _ & _ & ?)]|done]|].
      destruct (o_skipProbe o); cbn [andb negb]; [split; [split; [done|by intros (_ & ? & _)]|done]|].
      case_bool_decide as Hb; cbn [andb negb]; [split; [split; [done|by intros (_ & _ & ? & _)]|done]|].
      unfold pullProbeImage. destruct (pull d); cbn; (split; [|done]); (split; [done || eauto 10|by intros (_ & _ & _ & ? & _)]).
    - cbn [andb]. destruct (o_image o) as [i|]; [destruct (Container.nonempty (Some i))|]; cbn;
        (split; [split; [done|by intros ((? & ?) & _)]|done]). }
  destruct Hpi as [Hw Ht]. rewrite <- Hw. unfold runDoctor.
  destruct (probe_image o d (is_ok (reach d))) as [[image pulled]| |] eqn:Ei; cbn [then_]; [|done|].
  - destruct (probe_checks_cases o d image pulled Ei) as [(i & Hp & E)|(Hno & why & rem & E)]; cbn zeta in E; rewrite E.
    + assert (Hthrow : (exists i p, probed o d i false /\ probe d i (wanted_runtime (o_runtime o)) = Answers p /\ probe_status p = false) <->
        pulled = false /\ exists p, probe d i (wanted_runtime (o_runtime o)) = Answers p /\ probe_status p = false).
      { split; [intros (i' & p & Hp' & H)|intros (-> & p & H); eauto].
        destruct (probed_fun _ _ _ _ _ _ Hp Hp') as [<- ->]. eauto. }
      rewrite Hthrow. destruct (probe d i _) as [p|m|]; cbn [withTimeout then_];
        [|split; [done|split; [done|by intros (_ & p & ? & _)]]..].
      generalize (landlockCheck_spec p). destruct (landlockCheck p) as [c|].
      * intros (_ & _ & Hs). cbn [then_]. split; [done|]. split; [done|]. intros (_ & p' & [= <-] & ?). congruence.
      * intros [Hs _]. destruct pulled; cbn [then_]; (split; [done|]).
        { split; [done|by intros [? _]]. }
        split; [intros _; eauto|done].
    + cbn [then_]. split; [done|]. split; [done|]. intros (i & p & Hp & _). by apply Hno in Hp.
  - split; [done|]. split; [done|]. intros (i & p & (_ & _ & H & inf & Hr & _) & _). rewrite Hr in Ei. cbn [is_ok] in Ei. congruence.
Qed.

End report.

(*** At a boot: the cache, the banner and the cgroups *)

Inductive Banner := PartialBanner (abi : json) | NoLandlock (runtime : option string) (reason : json) | NotInLsmStack.

(** What a boot reads and changes: enforcement-cache.json, parsed (none when it
    cannot be read or parsed) and whether it can be written, and the banner. *)
Record Local := {
  cache_file : option json;
  writable : bool;
  bannerPrinted : bool;
  banners : list Banner
}.

Definition with_file (f : option json) (l : Local) : Local :=
  {| cache_file := f; writable := writable l; bannerPrinted := bannerPrinted l; banners := banners l |}.
Definition print_banner (b : Banner) (l : Local) : Local :=
  {| cache_file := cache_file l; writable := writable l; bannerPrinted := true; banners := banners l ++ [b] |}.

Definition readCache (l : Local) : json := or_default (JObj []) (cache_file l).
Definition writeCache (cache : json) (l : Local) : Local := if writable l then with_file (Some cache) l else l.

Definition cache_key (i : DaemonInfo) (runtime : option string) : string :=
  or_default "unknown" (kernelVersion i) +:+ "|" +:+ or_default "unknown" (arch i) +:+
  match Container.nonempty runtime with Some r => "|" +:+ r | None => "" end.

(** The answer of a boot, as its members; those that are undefined are left out
    where it is written. *)
Definition answer_of (v : json) : Probe :=
  List.filter (fun kv => match kv.2 with JUndef => false | _ => true end)
    (map (fun k => (k, oprop k v)) ["status"; "abi"; "reason"; "cgroup"]).
Definition unknown_answer : Probe := [("status", JStr "unknown")].

(** [cache[key] = v] in strict mode; a member of an array is lost when the array
    is written. *)
Definition set_entry (key : string) (v : json) (cache : json) : option json :=
  match cache with
  | JObj o => Some (JObj (JsObj.assign key v o))
  | JArr l => Some (JArr l)
  | _ => None
  end.

Definition truthy_entry (hit : json) (needsCgroup : bool) : bool :=
  Attest.truthy hit && (Attest.truthy (oprop "cgroup" hit) || negb needsCgroup).

Definition enforcementStatusForBoot (d : Daemon) (now image : string) (runtime : option string) (fresh needsCgroup : bool) (l : Local)
    : outcome Probe * Local :=
  match info d with
  | Fails _ => (Done unknown_answer, l)
  | Silent => (Waits, l)
  | Answers i =>
      let key := cache_key i runtime in
      let cache := readCache l in
      let measure :=
        match probe d image runtime with
        | Fails _ => (Done unknown_answer, l)
        | Silent => (Waits, l)
        | Answers p =>
            match set_entry key (JObj (answer_of (JObj p) ++ [("probedAt", JStr now)])) cache with
            | Some cache' => (Done (answer_of (JObj p)), writeCache cache' l)
            | None => (Done unknown_answer, l)
            end
        end in
      if fresh then measure
      else match prop key cache with
           | None => (Throws, l)
           | Some hit => if truthy_entry hit needsCgroup then (Done (answer_of hit), l) else measure
           end
  end.

Definition warnIfEnforcementInactive (env : string -> option string) (d : Daemon) (now image : string) (runtime : option string) (l : Local)
    : outcome unit * Local :=
  if bannerPrinted l || bool_decide (env "BERTH_NO_ENFORCEMENT_BANNER" = Some "1") then (Done tt, l)
  else
    let '(r, l) := enforcementStatusForBoot d now image runtime false false l in
    match r with
    | Waits => (Waits, l)
    | Throws => (Done tt, l)
    | Done p =>
        if Attest.is_str (field "status" p) "enforcing" && belowRequiredAbi (field "abi" p)
        then (Done tt, print_banner (PartialBanner (field "abi" p)) l)
        else if Attest.is_str (field "status" p) "unsupported"
        then (Done tt, print_banner (NoLandlock (Container.nonempty runtime) (field "reason" p)) l)
        else if Attest.is_str (field "status" p) "present_not_enforcing"
        then (Done tt, print_banner NotInLsmStack l)
        else (Done tt, l)
    end.

Definition cgroupDelegationForBoot (env : string -> option string) (d : Daemon) (now image : string) (runtime : option string) (l : Local)
    : outcome delegation * Local :=
  let verdict c rt := cgroupDelegationVerdict (env "BERTH_DISABLE_APP_CGROUPS") c rt in
  if bool_decide (env "BERTH_DISABLE_APP_CGROUPS" = Some "1") then (Done (verdict None None), l)
  else
    let '(r, l) := enforcementStatusForBoot d now image runtime false true l in
    (match r with
     | Done p => Done (verdict (cgroup_of (field "cgroup" p)) (Container.nonempty runtime))
     | Throws => Done (verdict None (Container.nonempty runtime))
     | Waits => Waits
     end, l).

(**** Answers and their members *)

Lemma get_defined (f : string -> json) k ks :
  k ∈ ks ->
  or_default JUndef (JsMap.get k (List.filter (fun kv => match kv.2 with JUndef => false | _ => true end) (map (fun k => (k, f k)) ks))) = f k.
Proof.
  assert (Hout : forall ks, k ∉ ks \/ f k = JUndef ->
    JsMap.get k (List.filter (fun kv : string * json => match kv.2 with JUndef => false | _ => true end) (map (fun k => (k, f k)) ks)) = None).
  { intros l. induction l as [|a l IH]; intros H; [done|]. cbn [map List.filter snd].
    assert (k ∉ l \/ f k = JUndef) as H' by (destruct H as [H|H]; [left; set_solver|by right]).
    destruct (decide (a = k)) as [->|Hne].
    - destruct H as [H|H]; [set_solver|]. rewrite H. by apply IH.
    - destruct (f a); try (by apply IH); cbn [JsMap.get]; (destruct (decide (k = a)); [congruence|by apply IH]). }
  intros Hk. assert (f k = JUndef \/ f k <> JUndef) as [E|E] by (destruct (f k); [by left|by right..]).
  { rewrite Hout by (by right). by rewrite E. }
  induction ks as [|a ks IH]; [by apply elem_of_nil in Hk|]. cbn [map List.filter snd].
  destruct (decide (a = k)) as [->|Hne].
  - destruct (f k) eqn:Ef; try done; cbn [JsMap.get]; (destruct (decide (k = k)); [done|congruence]).
  - assert (k ∈ ks) as Hks by set_solver.
    destruct (f a); try (by apply IH); cbn [JsMap.get]; (destruct (decide (k = a)); [congruence|by apply IH]).
Qed.

Lemma answer_field v k : k ∈ ["status"; "abi"; "reason"; "cgroup"] -> field k (answer_of v) = oprop k v.
Proof. apply (get_defined (fun k => oprop k v)). Qed.

Lemma key_not_proto i rt : cache_key i rt <> "__proto__".
Proof.
  intros H. assert (Str.includes "|" (cache_key i rt) = true) as Hi; [|rewrite H in Hi; done].
  unfold cache_key. apply StrFacts.includes_spec. by eexists _, _.
Qed.

(** A boot that must measure answers what the probe printed, whatever the cache
    holds, as long as the cache is an object. *)
Lemma measured d now image rt needs l o i :
  info d = Answers i -> cache_file l = Some (JObj o) \/ cache_file l = None ->
  (enforcementStatusForBoot d now image rt true needs l).1 =
  match probe d image rt with Answers p => Done (answer_of (JObj p)) | Fails _ => Done unknown_answer | Silent => Waits end.
Proof.
  intros Hi Hc. unfold enforcementStatusForBoot, readCache. rewrite Hi.
  by destruct Hc as [-> | ->]; cbn; destruct (probe d image rt).
Qed.

(** A boot without an entry measures too. *)
Lemma missed d now image rt needs l i v :
  info d = Answers i -> prop (cache_key i rt) (readCache l) = Some v -> truthy_entry v needs = false ->
  enforcementStatusForBoot d now image rt false needs l = enforcementStatusForBoot d now image rt true needs l.
Proof. intros Hi Hv Ht. unfold enforcementStatusForBoot. by rewrite Hi, Hv, Ht. Qed.

(** The banner of a boot agrees with [berth doctor]: where the cache knows
    nothing of the kernel, and both ask it through the same image and runtime, the
    banner is printed exactly when the report says that enforcement is not active. *)
Theorem banner_agrees_with_doctor env endpoint o d r now image inf p l os :
  runDoctor env endpoint o d = Done r ->
  let rt := wanted_runtime env (o_runtime o) in
  probed env endpoint o d image false -> info d = Answers inf -> probe d image rt = Answers p ->
  cache_file l = Some (JObj os) \/ cache_file l = None -> prop (cache_key inf rt) (readCache l) = Some JUndef ->
  bannerPrinted l = false -> env "BERTH_NO_ENFORCEMENT_BANNER" <> Some "1" ->
  (bannerPrinted (warnIfEnforcementInactive env d now image rt l).2 = true <->
   enforcementDetermined r = true /\ enforcementActive r = false).
Proof.
  intros Hr rt Hpr Hi Hp Hc Hk Hb He.
  assert (Ha : enforcementActive r = enforces p).
  { apply Bool.eq_true_iff_eq. rewrite (report_active _ _ _ _ _ Hr). split; [|by eauto 10].
    intros (i & pl & p' & H & Hp' & ?). destruct (probed_fun _ _ _ _ _ _ _ _ Hpr H) as [<- _]. fold rt in Hp'. congruence. }
  assert (Hd : enforcementDetermined r = probe_status p).
  { apply Bool.eq_true_iff_eq. rewrite (report_determined _ _ _ _ _ Hr). split; [|by eauto 10].
    intros (i & pl & p' & H & Hp' & ?). destruct (probed_fun _ _ _ _ _ _ _ _ Hpr H) as [<- _]. fold rt in Hp'. congruence. }
  rewrite Ha, Hd. unfold warnIfEnforcementInactive. rewrite Hb, bool_decide_false by done. cbn [orb].
  destruct (enforcementStatusForBoot d now image rt false false l) as [a l'] eqn:E.
  assert (a = Done (answer_of (JObj p)) /\ bannerPrinted l' = false) as [-> Hb'].
  { rewrite (missed _ _ _ _ _ _ inf JUndef) in E by done. split.
    - change a with ((a, l').1). rewrite <- E. rewrite (measured _ _ _ _ _ _ os inf) by done. by rewrite Hp.
    - change l' with ((a, l').2). rewrite <- E. unfold enforcementStatusForBoot. rewrite Hi, Hp.
      destruct (set_entry _ _ _); [|done]. unfold writeCache. by destruct (writable l). }
  rewrite !answer_field by set_solver. change (oprop "status" (JObj p)) with (field "status" p). change (oprop "abi" (JObj p)) with (field "abi" p).
  unfold enforces, probe_status, Attest.one_of. cbn [existsb].
  destruct (field "status" p) as [| | | |s| |]; cbn; try (rewrite Hb'; split; [done|by intros [? _]]).
  destruct (String.eqb_spec s "enforcing") as [->|H1].
  { destruct (belowRequiredAbi _); cbn; rewrite ?Hb'; naive_solver. }
  destruct (String.eqb_spec s "present_not_enforcing") as [->|H2]; [done|].
  destruct (String.eqb_spec s "unsupported") as [->|H3]; cbn; [done|]. rewrite Hb'. split; [done|by intros [? _]].
Qed.

(** Where an answer comes from. *)
Lemma answer_source d now image rt fresh needs l a l' :
  enforcementStatusForBoot d now image rt fresh needs l = (Done a, l') ->
  a = unknown_answer \/
  exists i, info d = Answers i /\
    ((fresh = false /\ exists v, prop (cache_key i rt) (readCache l) = Some v /\ truthy_entry v needs = true /\ a = answer_of v) \/
     exists p, probe d image rt = Answers p /\ a = answer_of (JObj p)).
Proof.
  unfold enforcementStatusForBoot. destruct (info d) as [i| |]; [|by intros [= <- _]; left|done].
  assert (Hm : forall x, (match probe d image rt with
        | Answers p => match set_entry (cache_key i rt) (x p) (readCache l) with
                       | Some cache' => (Done (answer_of (JObj p)), writeCache cache' l) | None => (Done unknown_answer, l) end
        | Fails _ => (Done unknown_answer, l) | Silent => (Waits, l) end) = (Done a, l') ->
      a = unknown_answer \/ exists p, probe d image rt = Answers p /\ a = answer_of (JObj p)).
  { intros x. destruct (probe d image rt) as [p| |]; [|by intros [= <- _]; left|done].
    destruct (set_entry _ _ _); intros [= <- _]; eauto. }
  destruct fresh; [intros H; apply (Hm (fun p => JObj (answer_of (JObj p) ++ [("probedAt", JStr now)]))) in H as [H|H]; eauto|].
  destruct (prop _ _) as [v|] eqn:Ev; [|done].
  destruct (truthy_entry v needs) eqn:Et; [intros [= <- _]; right; exists i; split; [done|]; left; eauto|].
  intros H; apply (Hm (fun p => JObj (answer_of (JObj p) ++ [("probedAt", JStr now)]))) in H as [H|H]; eauto.
Qed.

(** A sandbox is given a writable cgroup subtree only on the word of a probe, or
    of the cache, that the hierarchy is cgroup v2 mounted with nsdelegate, and not
    when the operator turned it off; and the decision is never an exception. *)
Theorem delegation_sound env d now image rt l dl l' :
  cgroupDelegationForBoot env d now image rt l = (dl, l') ->
  dl <> Throws /\
  (dl = Done Container.Delegate ->
   env "BERTH_DISABLE_APP_CGROUPS" <> Some "1" /\
   exists i v, info d = Answers i /\
     (prop (cache_key i rt) (readCache l) = Some v \/ exists p, probe d image rt = Answers p /\ v = JObj p) /\
     Attest.truthy (oprop "v2" (oprop "cgroup" v)) = true /\ Attest.truthy (oprop "nsdelegate" (oprop "cgroup" v)) = true).
Proof.
  unfold cgroupDelegationForBoot, cgroupDelegationVerdict. case_bool_decide as Hb; [by intros [= <- <-]|].
  destruct (enforcementStatusForBoot d now image rt false true l) as [[a| |] l1] eqn:E; intros [= <- <-]; try done.
  split; [done|]. intros [= Hd]. split; [done|].
  apply answer_source in E as [->|(i & Hi & E)]; [done|]. exists i.
  assert (exists v, a = answer_of v /\ (prop (cache_key i rt) (readCache l) = Some v \/ exists p, probe d image rt = Answers p /\ v = JObj p))
    as (v & -> & Hv) by naive_solver.
  exists v. split_and!; [done|done|..]; rewrite answer_field in Hd by set_solver; unfold cgroup_of in Hd;
    destruct (Attest.truthy (oprop "cgroup" v)); try done; cbn in Hd;
    destruct (Attest.truthy (oprop "v2" _)), (Attest.truthy (oprop "nsdelegate" _)); done.
Qed.

Section attested.
Context (parse : string -> option json).

(** An ACTIVE attestation of a container rests on a probe of this attesting:
    the kernel was asked, in the image and under the runtime of the boot, and said
    it enforces, or at least none of the three things that tell against it; what
    the cache holds plays no part. *)
Theorem attested_kernel_was_probed d now image rt needs l a l' containerName imageTag f e v :
  enforcementStatusForBoot d now image rt true needs l = (Done a, l') ->
  BootEvidence.gatherBootEvidence parse containerName imageTag f (JObj a) = Ok e ->
  Attest.deriveEnforcementStatus (match oprop "rulesetReports" e with JArr r => r | _ => [] end) (oprop "doctorProbe" e) = Some v ->
  Attest.status v = "ACTIVE" ->
  exists p, probe d image rt = Answers p /\ (probe_status p = true -> field "status" p = JStr "enforcing").
Proof.
  intros Ha He Hv Hact.
  assert (oprop "doctorProbe" e = JObj a) as Hp.
  { unfold BootEvidence.gatherBootEvidence in He. destruct (BootEvidence.running f); [|done]. cbn [negb] in He.
    destruct (BootEvidence.parseBootId _) as [id|]; [|done].
    destruct (BootEvidence.host_runtime f) as [r|]; [destruct (String.eqb r "")|]; by injection He as <-. }
  rewrite Hp in Hv. destruct (Attest.derive_spec _ _ _ Hv) as (_ & HA & _). apply HA in Hact as (_ & _ & Hno & Hunk).
  apply answer_source in Ha as [->|(i & _ & [[? _]|(p & Hpr & ->)])]; [done|done|].
  exists p. split; [done|]. intros Hs.
  assert (prop "status" (JObj (answer_of (JObj p))) = Some (field "status" p)) as Hst.
  { change (prop "status" (JObj (answer_of (JObj p)))) with (Some (field "status" (answer_of (JObj p)))).
    by rewrite answer_field by set_solver. }
  unfold probe_status, Attest.one_of in Hs. cbn [existsb] in Hs.
  destruct (Attest.is_str (field "status" p) "enforcing") eqn:E1; [by apply Attest.is_str_spec|].
  exfalso. apply Hno. unfold Attest.probe_not_enforcing. rewrite Hst.
  destruct (Attest.is_str (field "status" p) "present_not_enforcing") eqn:E2.
  { exists "present_not_enforcing". apply Attest.is_str_spec in E2 as ->. split; [set_solver|done]. }
  destruct (Attest.is_str (field "status" p) "unsupported") eqn:E3; [|done].
  exists "unsupported". apply Attest.is_str_spec in E3 as ->. split; [set_solver|done].
Qed.

End attested.

(** A cache file that holds [null] (or a number, a string) parses, and every
    attestation then says the probe is unknown, whatever the kernel answers; with
    [null] no banner is printed either, whatever the kernel is. *)
Theorem null_cache_silences d now image rt needs l i env :
  info d = Answers i -> cache_file l = Some JNull ->
  (enforcementStatusForBoot d now image rt true needs l).1 = (match probe d image rt with Silent => Waits | _ => Done unknown_answer end) /\
  (warnIfEnforcementInactive env d now image rt l).2 = l.
Proof.
  intros Hi Hc. unfold warnIfEnforcementInactive, enforcementStatusForBoot, readCache. rewrite Hi, Hc. cbn.
  split; [by destruct (probe d image rt)|]. by destruct (_ || _).
Qed.

(*** The same kernel version with another command line *)

Definition ex_info : DaemonInfo :=
  {| kernelVersion := Some "6.8.0"; operatingSystem := Some "Ubuntu 24.04"; serverVersion := Some "28.0"; arch := Some "aarch64";
     securityOptions := Some ["name=seccomp,profile=builtin"]; runtimes := ["runc"]; defaultRuntime := Some "runc"; memTotal := Some 8589934592%Z |}.
Definition ex_daemon (status : string) : Daemon :=
  {| ping := Answers tt; info := Answers ex_info; listImages := Answers [["berth/notes:dev-1"]]; pull := Silent;
     probe := fun _ _ => Answers [("abi", JNum 4); ("status", JStr status); ("fuse", JBool true);
                                  ("cgroup", JObj [("v2", JBool true); ("nsdelegate", JBool true)])] |}.
Definition no_env (k : string) : option string := None.
Definition ex_options : RunDoctorOptions := {| o_image := None; o_skipProbe := false; o_runtime := None; o_pullProbeImage := None |}.
Definition fresh_host : Local := {| cache_file := None; writable := true; bannerPrinted := false; banners := [] |}.
(** A boot by a process of its own. *)
Definition boot (d : Daemon) (l : Local) : Local :=
  (warnIfEnforcementInactive no_env d "t" "berth/notes:dev-1" None
     {| cache_file := cache_file l; writable := writable l; bannerPrinted := false; banners := [] |}).2.
Definition verdict_of (d : Daemon) : option bool :=
  match runDoctor no_env None ex_options d with
  | Done r => if enforcementDetermined r then Some (enforcementActive r) else None
  | _ => None
  end.

(** The cache is keyed by the kernel's version, but what it holds depends on the
    kernel's command line too: a user who follows the remedy and adds landlock to
    it is still told that nothing is enforced, and one who boots without it is told
    nothing. *)
Theorem cache_outlives_lsm_change :
  let off := ex_daemon "present_not_enforcing" in
  let on := ex_daemon "enforcing" in
  verdict_of off = Some false /\ verdict_of on = Some true /\
  banners (boot on (boot off fresh_host)) = [NotInLsmStack] /\
  banners (boot off (boot on fresh_host)) = [].
Proof. by vm_compute. Qed.

Lemma doctor_report_spec_witness :
  exists r, runDoctor no_env None ex_options (ex_daemon "enforcing") = Done r /\ enforcementActive r = true /\ reasons r = [].
Proof.
  destruct (runDoctor no_env None ex_options (ex_daemon "enforcing")) as [r| |] eqn:E; [|by vm_compute in E..].
  destruct (doctor_report_spec _ _ _ _ _ E) as (Ha & _ & _ & Hr).
  assert (enforcementActive r = true) as Hact by (vm_compute in E; injection E as <-; reflexivity).
  exists r. split; [reflexivity|]. split; [exact Hact|]. by apply Hr.
Defined.

Lemma banner_agrees_with_doctor_witness :
  bannerPrinted (warnIfEnforcementInactive no_env (ex_daemon "unsupported") "t" "berth/notes:dev-1" None fresh_host).2 = true.
Proof.
  destruct (runDoctor no_env None ex_options (ex_daemon "unsupported")) as [r| |] eqn:E; [|by vm_compute in E..].
  eapply (banner_agrees_with_doctor no_env None ex_options (ex_daemon "unsupported") r "t" "berth/notes:dev-1" ex_info _ fresh_host []);
    [exact E| |reflexivity|reflexivity|right; reflexivity|reflexivity|reflexivity|discriminate|].
  - split; [reflexivity|]. split; [discriminate|]. split; [reflexivity|]. exists ex_info. split; [reflexivity|]. intros n. discriminate.
  - vm_compute in E. injection E as <-. split; reflexivity.
Defined.

Lemma delegation_sound_witness :
  exists i v, info (ex_daemon "enforcing") = Answers i /\ Attest.truthy (oprop "v2" (oprop "cgroup" v)) = true.
Proof.
  destruct (cgroupDelegationForBoot no_env (ex_daemon "enforcing") "t" "i" None fresh_host) as [dl l'] eqn:E.
  destruct (delegation_sound _ _ _ _ _ _ _ _ E) as [_ H].
  destruct H as (_ & i & v & Hi & _ & Hv & _); [vm_compute in E; by injection E as <- _|]. by exists i, v.
Defined.

Lemma attested_kernel_was_probed_witness :
  exists p, probe (ex_daemon "enforcing") "notes:dev" None = Answers p /\ field "status" p = JStr "enforcing".
Proof.
  destruct (enforcementStatusForBoot (ex_daemon "enforcing") "t" "notes:dev" None true false fresh_host) as [[a| |] l'] eqn:Ea;
    [|by vm_compute in Ea..].
  set (f := BootEvidence.facts (BootEvidence.lines [BootEvidence.boot_line "b1"; BootEvidence.agent_init_line "b1" "notes" "FullyEnforced"])).
  destruct (BootEvidence.gatherBootEvidence JsonParse.parse "c" "i" f (JObj a)) as [e|] eqn:Ee.
  2:{ vm_compute in Ea. injection Ea as <- _. by vm_compute in Ee. }
  destruct (Attest.deriveEnforcementStatus (match oprop "rulesetReports" e with JArr r => r | _ => [] end) (oprop "doctorProbe" e)) as [v|] eqn:Ev.
  2:{ vm_compute in Ea. injection Ea as <- _. vm_compute in Ee. injection Ee as <-. by vm_compute in Ev. }
  assert (Attest.status v = "ACTIVE") as Hact.
  { vm_compute in Ea. injection Ea as <- _. vm_compute in Ee. injection Ee as <-. vm_compute in Ev. by injection Ev as <-. }
  destruct (attested_kernel_was_probed JsonParse.parse _ _ _ _ _ _ _ _ _ _ _ _ _ Ea Ee Ev Hact) as (p & Hp & Hs).
  exists p. split; [exact Hp|]. apply Hs. injection Hp as <-. reflexivity.
Defined.

Lemma probe_container_removed_witness :
  last (probeKernel JsonParse.parse {| pr_create := Answers tt; pr_attach := Answers tt; pr_start := Fails "no"; pr_wait := Silent; pr_output := "" |} "i" None).1
  = Some Remove.
Proof. apply probe_container_removed; [reflexivity|discriminate]. Defined.

Lemma null_cache_silences_witness :
  (enforcementStatusForBoot (ex_daemon "enforcing") "t" "i" None true false
     {| cache_file := Some JNull; writable := true; bannerPrinted := false; banners := [] |}).1 = Done unknown_answer.
Proof.
  apply (null_cache_silences (ex_daemon "enforcing") "t" "i" None false
    {| cache_file := Some JNull; writable := true; bannerPrinted := false; banners := [] |} ex_info no_env); reflexivity.
Defined.

End Doctor.
