(* ===== verification/Vm.v ===== *)
(** * The artifacts of a microVM (packages/cli/src/vm: pins.ts, config.ts, artifacts.ts)

    Which kernel, rootfs, berth-vmm and libkrun are pinned, the pins read out of
    a berth-vmm binary, which sandbox a command uses, and how a pinned artifact
    gets to where berth-vmm looks for it. Bytes are strings; SHA-256 is a
    parameter. *)
From S2P Require Import Prelude JsNumber Json Paths Attest.

(** ** pins.ts *)
Module Pins.
Import Json.
Import JsNumber(jsnum, Number, to_integer, span).

Inductive Kind := kernel | rootfs | vmm | layer | libkrun.

Record ArtifactPin := {
  kind : Kind;
  sha256 : string;
  size : Z;
  file : string;
  relPath : string;
  asset : string
}.

Inductive GuestArch := aarch64 | x86_64.

Definition guestArch (arch : string) : option GuestArch :=
  if String.eqb arch "arm64" then Some aarch64 else if String.eqb arch "x64" then Some x86_64 else None.

Record GuestPins := {
  kernel_sha256 : string; kernel_size : Z; kernel_linux : string; kernel_configSha256 : string;
  rootfs_sha256 : string; rootfs_size : Z
}.

Definition GUEST_PINS (a : GuestArch) : GuestPins :=
  match a with
  | aarch64 =>
      {| kernel_sha256 := "8f79e8dae97ebc0ab8fcdc4ad209bb025ec967be82c713503e0612cfdd340ec8"; kernel_size := 23668744;
         kernel_linux := "6.12.109"; kernel_configSha256 := "e3f33c2bd4bffa16e52a066c325967e4bde091f20063e6eb5b81e8a2efac4dc8";
         rootfs_sha256 := "dfb5f6b030ca59884f2466783961169dd2f4d6fb71ff08d30028f67eff29331f"; rootfs_size := 108072960 |}
  | x86_64 =>
      {| kernel_sha256 := "10d4b54c0896668a93f9d26d0a701aac4a14ce813f3ed4d3b4d26e50d7b7b8d1"; kernel_size := 27928992;
         kernel_linux := "6.12.109"; kernel_configSha256 := "6e0fd31c75cd563f8bf650765504d97989316f70e9bbb333fb0230db78fe4283";
         rootfs_sha256 := "af4f3fc0be1429cf324ffc77157c1c2359c641078675c1d6d0d82b746259ac69"; rootfs_size := 108904448 |}
  end.

Definition HOST_GUEST (arch : string) : GuestPins := GUEST_PINS (or_default aarch64 (guestArch arch)).

Definition LIBKRUN_VERSION : string := "1.19.6".

Definition kernelPin (sha : string) (size : Z) : ArtifactPin :=
  {| kind := kernel; sha256 := sha; size := size; file := "Image"; relPath := "kernel/sha256/" +:+ sha +:+ "/Image"; asset := "Image-" +:+ sha |}.
Definition rootfsPin (sha : string) (size : Z) : ArtifactPin :=
  let file := "rootfs-" +:+ sha +:+ ".erofs" in
  {| kind := rootfs; sha256 := sha; size := size; file := file; relPath := "rootfs/" +:+ file; asset := file |}.

(** A layer's pin, its name and the rootfs it was built for. *)
Record LayerPin := { l_pin : ArtifactPin; l_name : string; l_base : string }.
Definition layerPin (name sha : string) (size : Z) (base : string) : LayerPin :=
  let file := "layer-" +:+ name +:+ "-" +:+ sha +:+ ".erofs" in
  {| l_pin := {| kind := layer; sha256 := sha; size := size; file := file; relPath := "layers/" +:+ file; asset := file |};
     l_name := name; l_base := base |}.

Definition PINS (arch : string) : list ArtifactPin :=
  let g := HOST_GUEST arch in [kernelPin (kernel_sha256 g) (kernel_size g); rootfsPin (rootfs_sha256 g) (rootfs_size g)].

Definition releaseTag (k r : string) : string := "vm-artifacts-" +:+ Str.take 8 k +:+ "-" +:+ Str.take 8 r.

Definition VMM_PINS : list (string * (string * Z)) :=
  [("darwin-arm64", ("8a2f4b50d6190f092b2df0e09c1820db37056e520f7177cdda2c80b13bdd8a25", 700608%Z));
   ("linux-arm64", ("c6bffa0328d276b88e3e339b67f8afc915d2e9d0791d4219360a6acc7b56983d", 725632%Z));
   ("linux-x64", ("c57289843cd8e147118e783a0bd1415f4b33b4ed327980fcd67033eb645785ad", 742152%Z))].

Definition vmmPin (platform : string) : option ArtifactPin :=
  p ← JsMap.get platform VMM_PINS;
  Some {| kind := vmm; sha256 := p.1; size := p.2; file := "berth-vmm"; relPath := "bin/berth-vmm";
          asset := "berth-vmm-" +:+ platform +:+ "-" +:+ p.1 |}.

Definition LIBKRUN_PINS : list (string * (string * Z)) :=
  [("darwin-arm64", ("92e728713af2fc723ec67ab76751c3fc83909bab404125cf7459e1ff2fb312da", 4727600%Z));
   ("linux-arm64", ("1806ef7a1ea323fa08f30330fcda5cc2e7102662c307c1ffcc7b302a2e566454", 6324640%Z));
   ("linux-x64", ("ae1f1b6407a13ec8bb9adf4a97c0a0c160c555663fbc713b8a92736c3a75e58e", 6987512%Z))].

(** File, link and extension. *)
Definition libkrunNames (platform : string) : string * (string * string) :=
  if Str.starts_with "darwin-" platform
  then ("libkrun." +:+ LIBKRUN_VERSION +:+ ".dylib", ("libkrun.1.dylib", "dylib"))
  else ("libkrun.so." +:+ LIBKRUN_VERSION, ("libkrun.so.1", "so")).

Definition libkrunPin (platform : string) : option ArtifactPin :=
  p ← JsMap.get platform LIBKRUN_PINS;
  let '(file, (_, ext)) := libkrunNames platform in
  Some {| kind := libkrun; sha256 := p.1; size := p.2; file := file; relPath := "bin/" +:+ file;
          asset := "libkrun-" +:+ platform +:+ "-" +:+ p.1 +:+ "." +:+ ext |}.

(** *** Manifests *)

Definition key_char (c : ascii) : bool := Str.is_lower c || Str.is_digit c || Ascii.eqb c "_".
Definition value_char (c : ascii) : bool := negb (Ascii.eqb c dq_char) && negb (Ascii.eqb c "#").

(** What follows the key, its spaces and the opening quote of a line without
    space at its end: the value, and the closing quote if there is one. *)
Definition value_of (r : string) : option string :=
  let '(v, rest) := span value_char r in
  if String.eqb rest "" || String.eqb rest (String dq_char "") then Some v else None.

(** A key, an equals sign and a value that may be in quotes, with space around
    each: the line's match. *)
Definition manifest_line (line : string) : option (string * string) :=
  let '(k, r) := span key_char (Str.trim line) in
  if String.eqb k "" then None
  else match Str.trim_start r with
       | String "=" r =>
           let r := Str.trim_start r in
           let r := match r with String c r' => if Ascii.eqb c dq_char then r' else r | EmptyString => r end in
           v ← value_of r; Some (k, v)
       | _ => None
       end.

(** [out[k] ??= v]: a name every object inherits is never assigned. *)
Definition assign_once (k v : string) (out : list (string * string)) : list (string * string) :=
  if JsObj.inb k out then out else JsMap.put k v out.

Definition LF : ascii := ascii_of_nat 10.

Definition parse_lines (lines : list string) (out : list (string * string)) : list (string * string) :=
  foldl (fun out line => match manifest_line line with Some (k, v) => assign_once k v out | None => out end) out lines.

Definition parseManifest (text : string) : list (string * string) := parse_lines (Str.split LF text) [].

Definition manifest_byte (c : ascii) : bool := Ascii.eqb c LF || (Str.code c =? 9) || Str.in_range 32 126 c.

(** The suffix of a string from the first place another occurs in it. *)
Fixpoint from (marker s : string) : option string :=
  if Str.starts_with marker s then Some s
  else match s with String _ r => from marker r | EmptyString => None end.

Definition REGION_MAX : nat := 16384.

Definition region (marker bytes : string) : option (list (string * string)) :=
  s ← from marker bytes;
  Some (parseManifest (fst (span manifest_byte (Str.take REGION_MAX s)))).

Definition quoted (s : string) : string := String dq_char (s +:+ String dq_char "").
Definition kernel_marker : string := "name = " +:+ quoted "berth-kernel".
Definition rootfs_marker : string := "name = " +:+ quoted "berth-rootfs".

Definition Manifests : Type := option (list (string * string)) * option (list (string * string)).
Definition manifestsInBinary (bytes : string) : Manifests := (region kernel_marker bytes, region rootfs_marker bytes).

Definition HEX64 : string -> bool := Attest.sha256_text.

Definition integer_of (v : option string) : option Z :=
  match v with Some s => to_integer (Number s) | None => None end.

Definition pinsFromManifests (m : Manifests) : option (ArtifactPin * ArtifactPin) :=
  k ← m.1; r ← m.2;
  ks ← JsMap.get "image_sha256" k; rs ← JsMap.get "image_sha256" r;
  if HEX64 ks && HEX64 rs then
    kn ← integer_of (JsMap.get "image_size" k); rn ← integer_of (JsMap.get "image_size" r);
    Some (kernelPin ks kn, rootfsPin rs rn)
  else None.

(** [/^layer_([a-z]+)_sha256$/] *)
Definition layer_name (key : string) : option string :=
  if Str.starts_with "layer_" key && Str.ends_with "_sha256" key && (13 <? String.length key)%nat then
    let name := Str.take (String.length key - 13) (Str.drop 6 key) in
    if Str.all Str.is_lower name then Some name else None
  else None.

Definition layer_entry (m : list (string * string)) (key : string) : option (string * LayerPin) :=
  name ← layer_name key;
  sha ← JsMap.get key m;
  let base := or_default "" (JsMap.get ("layer_" +:+ name +:+ "_base") m) in
  size ← integer_of (JsMap.get ("layer_" +:+ name +:+ "_size") m);
  if HEX64 sha && HEX64 base then Some (name, layerPin name sha size base) else None.

Definition layerPinsFromManifest (m : option (list (string * string))) : list (string * LayerPin) :=
  let m := or_default [] m in
  foldl (fun out key => match layer_entry m key with Some (n, p) => JsMap.put n p out | None => out end) [] (map fst m).

(** *** What a manifest inside a binary reads as *)

Lemma get_assign_once k v k' out v0 : JsMap.get k' out = Some v0 -> JsMap.get k' (assign_once k v out) = Some v0.
Proof.
  intros H. unfold assign_once. destruct (JsObj.inb k out) eqn:E; [done|]. rewrite JsMap.get_put.
  destruct (decide (k' = k)) as [->|Hne]; [|done]. exfalso. unfold JsObj.inb, JsMap.has in E. by rewrite H in E.
Qed.

Lemma parse_lines_keeps lines out k v : JsMap.get k out = Some v -> JsMap.get k (parse_lines lines out) = Some v.
Proof.
  revert out; induction lines as [|l lines IH]; intros out H; [done|]. cbn [parse_lines foldl] in *. apply IH.
  destruct (manifest_line l) as [[k' v']|]; [by apply get_assign_once|done].
Qed.

(** A manifest ends its last line. *)
Lemma parse_prefix t more k v :
  JsMap.get k (parseManifest (t +:+ String LF "")) = Some v -> JsMap.get k (parseManifest (t +:+ String LF more)) = Some v.
Proof.
  unfold parseManifest. rewrite !StrFacts.split_sep. unfold parse_lines. rewrite !foldl_app. intros H.
  apply parse_lines_keeps. revert H. cbn. done.
Qed.

Lemma take_app_more n s t : String.length s <= n -> Str.take n (s +:+ t) = s +:+ Str.take (n - String.length s) t.
Proof.
  revert n; induction s as [|c s IH]; intros n H; [by rewrite !app_empty_str, Nat.sub_0_r|].
  cbn in H. destruct n as [|n]; [lia|]. rewrite !app_cons_str. cbn [Str.take String.length Nat.sub]. rewrite IH by lia. done.
Qed.

(** A manifest compiled into a binary is read back: whatever text the linker put
    after it, each of its keys reads as it does in the manifest itself. *)
Lemma region_found marker bytes t post k v :
  from marker bytes = Some ((t +:+ String LF "") +:+ post) ->
  Str.all manifest_byte t = true -> String.length t < REGION_MAX ->
  JsMap.get k (parseManifest (t +:+ String LF "")) = Some v ->
  exists m, region marker bytes = Some m /\ JsMap.get k m = Some v.
Proof.
  intros Hf Ht Hl Hk. unfold region. rewrite Hf. cbn [mbind option_bind]. eexists. split; [done|].
  assert (Str.all manifest_byte (t +:+ String LF "") = true) as Ha by (rewrite StrFacts.all_app, Ht; done).
  rewrite take_app_more by (rewrite length_app_str; change (String.length (String LF "")) with 1; lia). rewrite JsNumber.span_prefix by done. cbn [fst].
  rewrite app_assoc_str, app_cons_str, app_empty_str. by apply parse_prefix.
Qed.

(** The pins read out of a berth-vmm are those of the two manifests it was
    built from, each of which names its image and its size. *)
Theorem pins_of_binary bytes tk tr pk pr ks kn rs rn :
  from kernel_marker bytes = Some ((tk +:+ String LF "") +:+ pk) ->
  from rootfs_marker bytes = Some ((tr +:+ String LF "") +:+ pr) ->
  Str.all manifest_byte tk = true -> Str.all manifest_byte tr = true ->
  String.length tk < REGION_MAX -> String.length tr < REGION_MAX ->
  JsMap.get "image_sha256" (parseManifest (tk +:+ String LF "")) = Some ks -> HEX64 ks = true ->
  JsMap.get "image_size" (parseManifest (tk +:+ String LF "")) = Some kn ->
  JsMap.get "image_sha256" (parseManifest (tr +:+ String LF "")) = Some rs -> HEX64 rs = true ->
  JsMap.get "image_size" (parseManifest (tr +:+ String LF "")) = Some rn ->
  pinsFromManifests (manifestsInBinary bytes) =
  (k ← to_integer (Number kn); r ← to_integer (Number rn); Some (kernelPin ks k, rootfsPin rs r)).
Proof.
  intros Fk Fr Ak Ar Lk Lr Hks Xk Hkn Hrs Xr Hrn.
  destruct (region_found _ _ _ _ _ _ Fk Ak Lk Hks) as (mk & Ek & Gks).
  destruct (region_found _ _ _ _ _ _ Fk Ak Lk Hkn) as (mk' & Ek' & Gkn). rewrite Ek in Ek'. injection Ek' as <-.
  destruct (region_found _ _ _ _ _ _ Fr Ar Lr Hrs) as (mr & Er & Grs).
  destruct (region_found _ _ _ _ _ _ Fr Ar Lr Hrn) as (mr' & Er' & Grn). rewrite Er in Er'. injection Er' as <-.
  unfold pinsFromManifests, manifestsInBinary. rewrite Ek, Er. cbn [fst snd mbind option_bind].
  rewrite Gks, Grs, Gkn, Grn. cbn [mbind option_bind]. by rewrite Xk, Xr.
Qed.
End Pins.

(** ** config.ts *)
Module SandboxConfig.
Import Json.

Inductive SandboxRuntime := docker | vm.

Record SandboxHost := { platform : string; arch : string; kvm : bool }.

Definition defaultSandbox (h : SandboxHost) : SandboxRuntime :=
  match Pins.vmmPin (platform h +:+ "-" +:+ arch h) with
  | None => docker
  | Some _ =>
      if String.eqb (platform h) "darwin" then (if String.eqb (arch h) "arm64" then vm else docker)
      else if String.eqb (platform h) "linux" then (if kvm h then vm else docker)
      else docker
  end.

Definition DEFAULT_ARTIFACTS_URL : string :=
  "https://github.com/Ash20pk/BerthOS/releases/download/vm-artifacts-{kernel8}-{rootfs8}/{asset}".

(** [readConfigFile]: the text (none when it cannot be read) and how it parses;
    [Err] when it is not JSON. *)
Definition readConfigFile (text : option (option json)) : result unit json :=
  match text with
  | None => Ok (JObj [])
  | Some None => Err tt
  | Some (Some (JObj o)) => Ok (JObj o)
  | Some (Some _) => Ok (JObj [])
  end.

Inductive chosen_by := Flag | Env | File.

Definition parseSandbox (value : json) (by_ : chosen_by) : result (chosen_by * json) SandboxRuntime :=
  if Attest.is_str value "docker" then Ok docker else if Attest.is_str value "vm" then Ok vm else Err (by_, value).

Definition resolveSandbox (flag env : option string) (file : json) (h : SandboxHost) : result (chosen_by * json) SandboxRuntime :=
  match flag, env with
  | Some (String _ _ as f), _ => parseSandbox (JStr f) Flag
  | _, Some (String _ _ as e) => parseSandbox (JStr e) Env
  | _, _ => if Attest.truthy (oprop "sandbox" file) then parseSandbox (oprop "sandbox" file) File else Ok (defaultSandbox h)
  end.

Definition vm_section (k : string) (file : json) : json :=
  match oprop "vm" file with JUndef | JNull => JUndef | v => oprop k v end.

(** [flag ?? env ?? file ?? default] *)
Definition resolveArtifactsUrl (flag env : option string) (file : json) : json :=
  match flag, env with
  | Some f, _ => JStr f
  | None, Some e => JStr e
  | None, None => match vm_section "artifactsUrl" file with JUndef | JNull => JStr DEFAULT_ARTIFACTS_URL | v => v end
  end.

Definition resolveArtifactsDir (flag env : option string) (file : json) : json :=
  match flag, env with
  | Some f, _ => JStr f
  | None, Some (String _ _ as e) => JStr e
  | None, _ => vm_section "artifactsDir" file
  end.

(** The microVM is the default exactly on Apple silicon, and on Linux with a
    usable /dev/kvm on a processor berth-vmm is published for. *)
Theorem default_sandbox h :
  defaultSandbox h = vm <->
  (platform h = "darwin" /\ arch h = "arm64") \/
  (platform h = "linux" /\ (arch h = "arm64" \/ arch h = "x64") /\ kvm h = true).
Proof.
  unfold defaultSandbox. destruct (String.eqb_spec (platform h) "darwin") as [->|Hd].
  { destruct (String.eqb_spec (arch h) "arm64") as [->|Ha]; [cbn; naive_solver|].
    split; [by destruct (Pins.vmmPin _)|]. intros [[_ ?]|[? _]]; done. }
  destruct (String.eqb_spec (platform h) "linux") as [->|Hl].
  2:{ split; [by destruct (Pins.vmmPin _)|]. intros [[? _]|[? _]]; done. }
  destruct (decide (arch h = "arm64")) as [->|H1]; [cbn; destruct (kvm h); naive_solver|].
  destruct (decide (arch h = "x64")) as [->|H2]; [cbn; destruct (kvm h); naive_solver|].
  assert (Pins.vmmPin ("linux" +:+ "-" +:+ arch h) = None) as ->; [|naive_solver].
  unfold Pins.vmmPin, Pins.VMM_PINS. cbn [JsMap.get].
  rewrite !decide_False; [done|..]; intros E; first [discriminate E | injection E as E; congruence].
Qed.

(** A choice that names no sandbox is an error; one that names one is followed,
    the flag before the environment before the file. *)
Theorem resolve_sandbox flag env file h :
  match resolveSandbox flag env file h with
  | Ok r => flag = Some (match r with docker => "docker" | vm => "vm" end) \/
            (flag = None \/ flag = Some "") /\
            (env = Some (match r with docker => "docker" | vm => "vm" end) \/
             (env = None \/ env = Some "") /\
             (oprop "sandbox" file = JStr (match r with docker => "docker" | vm => "vm" end) \/
              Attest.truthy (oprop "sandbox" file) = false /\ r = defaultSandbox h))
  | Err (b, v) => v <> JStr "docker" /\ v <> JStr "vm"
  end.
Proof.
  assert (Hp : forall v b, match parseSandbox v b with
     | Ok r => v = JStr (match r with docker => "docker" | vm => "vm" end) | Err (_, v') => v' <> JStr "docker" /\ v' <> JStr "vm" end).
  { intros v b. unfold parseSandbox. destruct (Attest.is_str v "docker") eqn:E1; [by apply Attest.is_str_spec in E1|].
    destruct (Attest.is_str v "vm") eqn:E2; [by apply Attest.is_str_spec in E2|].
    split; intros ->; done. }
  assert (Hf : match (if Attest.truthy (oprop "sandbox" file) then parseSandbox (oprop "sandbox" file) File else Ok (defaultSandbox h)) with
     | Ok r => oprop "sandbox" file = JStr (match r with docker => "docker" | vm => "vm" end) \/
               Attest.truthy (oprop "sandbox" file) = false /\ r = defaultSandbox h
     | Err (_, v) => v <> JStr "docker" /\ v <> JStr "vm" end).
  { destruct (Attest.truthy _); [|auto]. specialize (Hp (oprop "sandbox" file) File).
    destruct (parseSandbox _ _) as [r|[b v]]; auto. }
  unfold resolveSandbox. destruct flag as [[|c f]|].
  2:{ specialize (Hp (JStr (String c f)) Flag). destruct (parseSandbox _ _) as [r|[b v]]; [left; by injection Hp as ->|done]. }
  all: destruct env as [[|c' e]|].
  2,5: specialize (Hp (JStr (String c' e)) Env); destruct (parseSandbox _ _) as [r|[b v]];
    [right; split; [auto|]; left; by injection Hp as ->|done].
  all: destruct (if Attest.truthy _ then _ else _) as [r|[b v]]; [|done]; right; split; auto.
Qed.
End SandboxConfig.

(** ** artifacts.ts *)
Module Artifacts.
Import Pins(Kind, kernel, rootfs, vmm, layer, libkrun, ArtifactPin, kind, sha256, size, file, relPath, asset).

Abbreviation Fs := (gmap string string).

Definition artifactPath (pin : ArtifactPin) (root : string) : string := NodePath.join [root; relPath pin].

Definition size_of (fs : Fs) (path : string) : option Z := c ← fs !! path; Some (Z.of_nat (String.length c)).

Definition artifactsPresent (fs : Fs) (root : string) (pins : list ArtifactPin) : bool :=
  forallb (fun pin => bool_decide (size_of fs (artifactPath pin root) = Some (size pin))) pins.

Inductive ArtifactState := Verified (path sha : string) | Missing (path : string) | Mismatch (path sha : string).

Definition sourceCandidates (pin : ArtifactPin) (dir : string) : list string :=
  JsSet.of_list [NodePath.join [dir; relPath pin]; NodePath.join [dir; sha256 pin; file pin]; NodePath.join [dir; file pin];
                 NodePath.join [dir; asset pin]].

Record ReleasePair := { r_kernel : string; r_rootfs : string }.

Definition is_kind (k : Kind) (p : ArtifactPin) : bool :=
  match kind p, k with
  | kernel, kernel | rootfs, rootfs | vmm, vmm | layer, layer | libkrun, libkrun => true
  | _, _ => false
  end.
Definition kind_name (k : Kind) : string :=
  match k with kernel => "kernel" | rootfs => "rootfs" | vmm => "vmm" | layer => "layer" | libkrun => "libkrun" end.

Definition releasePair (arch : string) (pins : list ArtifactPin) : ReleasePair :=
  let sha_of k own := match List.find (is_kind k) pins with Some p => sha256 p | None => own end in
  {| r_kernel := sha_of kernel (Pins.kernel_sha256 (Pins.HOST_GUEST arch)); r_rootfs := sha_of rootfs (Pins.rootfs_sha256 (Pins.HOST_GUEST arch)) |}.

(** [s.replaceAll(t, u)] for a [t] that is not empty and a [u] without dollars. *)
Fixpoint replace_all (fuel : nat) (t u s : string) : string :=
  match fuel with
  | O => s
  | S fuel =>
      if Str.starts_with t s then u +:+ replace_all fuel t u (Str.drop (String.length t) s)
      else match s with String c r => String c (replace_all fuel t u r) | EmptyString => "" end
  end.
Definition replaceAll (t u s : string) : string := replace_all (S (String.length s)) t u s.

Definition expandUrlTemplate (template : string) (pin : ArtifactPin) (release : ReleasePair) : string :=
  replaceAll "{rootfs}" (r_rootfs release)
    (replaceAll "{kernel}" (r_kernel release)
      (replaceAll "{rootfs8}" (Str.take 8 (r_rootfs release))
        (replaceAll "{kernel8}" (Str.take 8 (r_kernel release))
          (replaceAll "{asset}" (asset pin) (replaceAll "{file}" (file pin)
            (replaceAll "{sha256}" (sha256 pin) (replaceAll "{kind}" (kind_name (kind pin)) template))))))).

(** *** A download *)

(** How a body ends; on a failure, how much of it had been written to the file,
    or nothing, not even opening it. *)
Inductive arrival := Completes | Fails (written : option nat) | Stalls (written : option nat).

Record Response := {
  r_status : Z;
  r_has_body : bool;
  r_content_range : option string;
  r_content_length : option string;
  r_body : string;
  r_arrival : arrival
}.

Inductive attempt_error := RefusedDownload | Retry.

(** The numbers of [bytes a-b/c]. *)
Definition content_range (h : string) : option (string * string) :=
  if Str.starts_with "bytes " h then
    let '(a, r1) := JsNumber.span Str.is_digit (Str.drop 6 h) in
    match r1 with
    | String "-" r1 =>
        let '(b, r2) := JsNumber.span Str.is_digit r1 in
        match r2 with
        | String "/" r2 =>
            let '(c, r3) := JsNumber.span Str.is_digit r2 in
            if negb (String.eqb a "") && negb (String.eqb b "") && negb (String.eqb c "") && String.eqb r3 "" then Some (a, c) else None
        | _ => None
        end
    | _ => None
    end
  else None.

Definition same_number (text : string) (n : Z) : bool := JsNumber.eqb (JsNumber.Number text) (JsNumber.of_Z n).

Definition resumes (pin : ArtifactPin) (have : Z) (r : Response) : bool :=
  (r_status r =? 206)%Z &&
  match content_range (or_default "" (r_content_range r)) with
  | Some (a, c) => same_number a have && same_number c (size pin)
  | None => false
  end.

Definition is_finite (x : JsNumber.jsnum) : bool := match x with JsNumber.Fin _ _ => true | _ => false end.

(** [content-length], when it is a number, and not of the rest of the pin. *)
Definition wrong_length (pin : ArtifactPin) (start : Z) (r : Response) : bool :=
  match r_content_length r with
  | None => false
  | Some h => let declared := JsNumber.Number h in
              is_finite declared && negb (JsNumber.eqb (JsNumber.add (JsNumber.of_Z start) declared) (JsNumber.of_Z (size pin)))
  end.

Definition length_of (content : option string) : Z := Z.of_nat (String.length (or_default "" content)).

(** What the file holds after [written] bytes of the body. *)
Definition written_to (content : option string) (start : Z) (body : string) (written : option nat) : option string :=
  match written with
  | None => content
  | Some n => Some ((if (0 <? start)%Z then or_default "" content else "") +:+ Str.take n body)
  end.

(** One attempt, on the file's content: [None] for a request that fails. *)
Definition downloadAttempt (pin : ArtifactPin) (content : option string) (response : option Response)
    : option string * result attempt_error unit :=
  let have := length_of content in
  if (have =? size pin)%Z then (content, Ok tt)
  else match response with
       | None => (content, Err Retry)
       | Some r =>
           if negb ((200 <=? r_status r)%Z && (r_status r <=? 299)%Z) || negb (r_has_body r) then (content, Err Retry)
           else
             let resume := resumes pin have r in
             if (r_status r =? 206)%Z && negb resume then (content, Err Retry)
             else
               let start := if resume then have else 0%Z in
               if wrong_length pin start r then (content, Err RefusedDownload)
               else if (size pin <? start + Z.of_nat (String.length (r_body r)))%Z then
                 (written_to content start (r_body r) (match r_arrival r with Completes => Some (String.length (r_body r)) | Fails w | Stalls w => w end),
                  Err RefusedDownload)
               else match r_arrival r with
                    | Completes => (written_to content start (r_body r) (Some (String.length (r_body r))), Ok tt)
                    | Fails w | Stalls w => (written_to content start (r_body r) w, Err Retry)
                    end
       end.

Definition DOWNLOAD_ATTEMPTS : nat := 4.

(** The server, asked in an attempt for what follows the bytes there are. *)
Definition Server : Type := nat -> Z -> option Response.

(** The loop, with the attempts left; how many were made. *)
Fixpoint attempts (more : nat) (pin : ArtifactPin) (server : Server) (attempt : nat) (content : option string)
    : option string * nat * result attempt_error unit :=
  match more with
  | O => (content, attempt - 1, Err Retry)
  | S more =>
      match downloadAttempt pin content (server attempt (length_of content)) with
      | (content', Ok _) => (content', attempt, Ok tt)
      | (content', Err RefusedDownload) => (content', attempt, Err RefusedDownload)
      | (content', Err Retry) =>
          if DOWNLOAD_ATTEMPTS <=? attempt then (content', attempt, Err Retry) else attempts more pin server (S attempt) content'
      end
  end.

Section install.
Context (H : string -> string) (fileURLToPath : string -> option string).

(** [download]: what is left in the file, and the hash of it. *)
Definition download (fs : Fs) (url : string) (pin : ArtifactPin) (server : Server) : option string * result unit string :=
  if Str.starts_with "file:" url then
    match path ← fileURLToPath url; fs !! path with
    | None => (None, Err tt)
    | Some c => if (Z.of_nat (String.length c) =? size pin)%Z then (Some c, Ok (H c)) else (None, Err tt)
    end
  else
    match attempts DOWNLOAD_ATTEMPTS pin server 1 None with
    | (content, _, Err _) => (content, Err tt)
    | (content, _, Ok _) =>
        match content with
        | None => (None, Err tt)
        | Some c => if (Z.of_nat (String.length c) =? size pin)%Z then (Some c, Ok (H c)) else (Some c, Err tt)
        end
    end.

(** *** Installing *)

Inductive io_op := HashInstalled | Mkdir | Copy | HashCopy | Chmod | Rename.

(** The file operations that succeed, what a copy wrote, and the server of a URL. *)
Record World := {
  io : io_op -> bool;
  copied : string -> option string;
  server_of : string -> Server;
  darwin : bool;
  xattr_status : Z
}.

Record InstallOptions := {
  root : string;
  from : option string;
  urlTemplate : option string;
  release : ReleasePair;
  force : bool;
  pid : string
}.

Inductive event := Chmod755 (content : string) | ClearedQuarantine (content : string) | RenamedInto (dest content : string).
Inductive Source := Installed | Copied (from : string) | Downloaded (url : string).
Inductive install_error := CouldNotInstall | IoError (op : io_op).

Definition truthy_text (o : option string) : option string := match o with Some EmptyString => None | v => v end.

(** [clearQuarantine] and [finish], of a file that holds [content]; none when it throws. *)
Definition finish (w : World) (pin : ArtifactPin) (content : string) : option (list event) :=
  if negb (is_kind vmm pin) then Some []
  else if io w Chmod then Some (Chmod755 content :: (if darwin w then [ClearedQuarantine content] else []))
  else None.

Definition tmp_of (dest : string) (o : InstallOptions) : string := dest +:+ ".partial-" +:+ pid o.

(** [finish] and [rename] of a verified file, the temporary one removed either way. *)
Definition put_in_place (w : World) (fs : Fs) (pin : ArtifactPin) (dest content : string) (src : Source)
    : Fs * list event * result install_error Source :=
  match finish w pin content with
  | None => (fs, [], Err (IoError Chmod))
  | Some ev =>
      if io w Rename then (<[dest := content]> fs, ev ++ [RenamedInto dest content], Ok src)
      else (fs, ev, Err (IoError Rename))
  end.

(** The sources in order, over a file system without the temporary file. *)
Definition from_url (w : World) (fs : Fs) (pin : ArtifactPin) (dest : string) (o : InstallOptions)
    : Fs * list event * result install_error Source :=
  match truthy_text (urlTemplate o) with
  | None => (fs, [], Err CouldNotInstall)
  | Some template =>
      let url := expandUrlTemplate template pin (release o) in
      match download fs url pin (server_of w url) with
      | (Some content, Ok sha) =>
          if String.eqb sha (sha256 pin) then
            (match put_in_place w fs pin dest content (Downloaded url) with
             | (fs, ev, Ok s) => (fs, ev, Ok s)
             | (fs, ev, Err _) => (fs, ev, Err CouldNotInstall)     (* caught, and one of the problems *)
             end)
          else (fs, [], Err CouldNotInstall)
      | _ => (fs, [], Err CouldNotInstall)
      end
  end.

Definition from_dir (w : World) (fs : Fs) (pin : ArtifactPin) (dest : string) (o : InstallOptions)
    : Fs * list event * result install_error Source :=
  match dir ← truthy_text (from o); List.find (fun p => bool_decide (is_Some (fs !! p))) (sourceCandidates pin dir) with
  | None => from_url w fs pin dest o
  | Some source =>
      match copied w source with
      | None => (fs, [], Err (IoError Copy))
      | Some content =>
          if negb (io w HashCopy) then (fs, [], Err (IoError HashCopy))
          else if String.eqb (H content) (sha256 pin) then put_in_place w fs pin dest content (Copied source)
          else from_url w fs pin dest o
      end
  end.

Definition installOne (w : World) (fs : Fs) (pin : ArtifactPin) (o : InstallOptions) : Fs * list event * result install_error Source :=
  let dest := artifactPath pin (root o) in
  let replace :=
    if negb (io w Mkdir) then (fs, [], Err (IoError Mkdir))
    else from_dir w (delete (tmp_of dest o) fs) pin dest o in
  match fs !! dest with
  | Some c =>
      if force o then replace
      else if negb (io w HashInstalled) then (fs, [], Err (IoError HashInstalled))
      else if String.eqb (H c) (sha256 pin) then (fs, [], Ok Installed) else replace
  | None => replace
  end.

Fixpoint installArtifacts (w : World) (fs : Fs) (pins : list ArtifactPin) (o : InstallOptions)
    : Fs * list event * result install_error (list Source) :=
  match pins with
  | [] => (fs, [], Ok [])
  | pin :: pins =>
      match installOne w fs pin o with
      | (fs, ev, Err e) => (fs, ev, Err e)
      | (fs, ev, Ok s) =>
          match installArtifacts w fs pins o with
          | (fs, ev', Ok l) => (fs, ev ++ ev', Ok (s :: l))
          | (fs, ev', Err e) => (fs, ev ++ ev', Err e)
          end
      end
  end.

(** [checkArtifacts] *)
Definition checkArtifacts (fs : Fs) (root : string) (pins : list ArtifactPin) : list ArtifactState :=
  map (fun pin => let path := artifactPath pin root in
                  match fs !! path with
                  | None => Missing path
                  | Some c => if String.eqb (H c) (sha256 pin) then Verified path (H c) else Mismatch path (H c)
                  end) pins.

(** *** What is left at the final path *)

(** Only on verified bytes; and made executable only if they are berth-vmm's. *)
Definition event_ok (pin : ArtifactPin) (dest : string) (e : event) : Prop :=
  match e with
  | Chmod755 c | ClearedQuarantine c => kind pin = vmm /\ H c = sha256 pin
  | RenamedInto d c => d = dest /\ H c = sha256 pin
  end.

Definition verified_at (fs : Fs) (dest : string) (pin : ArtifactPin) : Prop := exists c, fs !! dest = Some c /\ H c = sha256 pin.

Record safe_install {A} (pin : ArtifactPin) (dest tmp : string) (fs fs' : Fs) (ev : list event) (r : result install_error A) : Prop := {
  others_kept : forall p, p <> dest -> p <> tmp -> fs' !! p = fs !! p;
  dest_verified : fs' !! dest = fs !! dest \/ verified_at fs' dest pin;
  ok_verified : is_ok r = true -> verified_at fs' dest pin;
  events_ok : Forall (event_ok pin dest) ev
}.

Lemma tmp_ne dest o : tmp_of dest o <> dest.
Proof.
  unfold tmp_of. intros E. apply (f_equal String.length) in E. rewrite !length_app_str in E. change (String.length ".partial-") with 9 in E. lia.
Qed.

Lemma unchanged_safe {A} pin dest tmp fs (e : install_error) : safe_install (A := A) pin dest tmp fs fs [] (Err e).
Proof. split; [done|by left|done|constructor]. Qed.

Lemma finish_ok w pin content ev dest : finish w pin content = Some ev -> H content = sha256 pin -> Forall (event_ok pin dest) ev.
Proof.
  unfold finish. destruct (is_kind vmm pin) eqn:E; cbn [negb]; [|intros [= <-]; constructor].
  assert (kind pin = vmm) as Hk by (unfold is_kind in E; by destruct (kind pin)).
  destruct (io w Chmod); [|done]. intros [= <-] Hc. constructor; [by split|]. destruct (darwin w); by repeat constructor.
Qed.

Lemma put_in_place_safe w fs pin dest tmp content src fs' ev r :
  put_in_place w fs pin dest content src = (fs', ev, r) -> H content = sha256 pin ->
  safe_install pin dest tmp fs fs' ev r.
Proof.
  unfold put_in_place. intros E Hc. destruct (finish w pin content) as [evs|] eqn:Ef; [|injection E as <- <- <-; apply unchanged_safe].
  assert (He := finish_ok _ _ _ _ dest Ef Hc).
  destruct (io w Rename); injection E as <- <- <-; split; try done; auto.
  - intros p Hd _. by rewrite lookup_insert_ne.
  - right. exists content. by rewrite lookup_insert_eq.
  - intros _. exists content. by rewrite lookup_insert_eq.
  - apply Forall_app. split; [done|]. by repeat constructor.
Qed.

Lemma download_hash fs url pin server content sha : download fs url pin server = (Some content, Ok sha) -> sha = H content.
Proof.
  unfold download. destruct (Str.starts_with "file:" url).
  - destruct (path ← fileURLToPath url; fs !! path) as [c|]; [|done]. destruct (_ =? _)%Z; [|done]. by intros [= <- <-].
  - destruct (attempts _ _ _ _ _) as [[[c|] n] [[]|e]]; try done. destruct (_ =? _)%Z; [|done]. by intros [= <- <-].
Qed.

Lemma from_url_safe w fs pin dest tmp o fs' ev r : from_url w fs pin dest o = (fs', ev, r) -> safe_install pin dest tmp fs fs' ev r.
Proof.
  unfold from_url. intros E. destruct (truthy_text (urlTemplate o)) as [t|]; [|injection E as <- <- <-; apply unchanged_safe].
  destruct (download _ _ _ _) as [[content|] [sha|e]] eqn:Ed; try (injection E as <- <- <-; apply unchanged_safe).
  destruct (String.eqb_spec sha (sha256 pin)) as [->|]; [|injection E as <- <- <-; apply unchanged_safe].
  apply download_hash in Ed.
  destruct (put_in_place _ _ _ _ _ _) as [[fs1 ev1] r1] eqn:Ep. apply (put_in_place_safe _ _ _ _ tmp) in Ep as [Ho Hd Hok He]; [|done].
  destruct r1; injection E as <- <- <-; split; auto.
Qed.

Lemma from_dir_safe w fs pin dest tmp o fs' ev r : from_dir w fs pin dest o = (fs', ev, r) -> safe_install pin dest tmp fs fs' ev r.
Proof.
  unfold from_dir. intros E. destruct (dir ← truthy_text (from o); List.find _ _) as [source|]; [|by eapply from_url_safe].
  destruct (copied w source) as [content|]; [|injection E as <- <- <-; apply unchanged_safe].
  destruct (io w HashCopy); [|injection E as <- <- <-; apply unchanged_safe]. cbn [negb] in E.
  destruct (String.eqb_spec (H content) (sha256 pin)) as [Hc|]; [by eapply put_in_place_safe|by eapply from_url_safe].
Qed.

Lemma safe_from_deleted {A} pin dest tmp fs fs' ev (r : result install_error A) :
  tmp <> dest -> safe_install pin dest tmp (delete tmp fs) fs' ev r -> safe_install pin dest tmp fs fs' ev r.
Proof.
  intros Hne [Ho Hd Hok He]. split; auto.
  - intros p H1 H2. rewrite Ho by done. by rewrite lookup_delete_ne.
  - destruct Hd as [Hd|Hd]; [left|by right]. by rewrite Hd, lookup_delete_ne.
Qed.

Lemma installOne_safe w fs pin o fs' ev r :
  installOne w fs pin o = (fs', ev, r) ->
  let dest := artifactPath pin (root o) in safe_install pin dest (tmp_of dest o) fs fs' ev r.
Proof.
  unfold installOne. intros E. set (dest := artifactPath pin (root o)) in *. cbn zeta.
  assert (Hrep : (if negb (io w Mkdir) then (fs, [], Err (IoError Mkdir)) else from_dir w (delete (tmp_of dest o) fs) pin dest o) = (fs', ev, r) ->
            safe_install pin dest (tmp_of dest o) fs fs' ev r).
  { destruct (io w Mkdir); cbn [negb]; [|intros [= <- <- <-]; apply unchanged_safe].
    intros E'. apply safe_from_deleted; [apply tmp_ne|]. by eapply from_dir_safe. }
  destruct (fs !! dest) as [c|] eqn:Ec; [|by apply Hrep]. destruct (force o); [by apply Hrep|].
  destruct (io w HashInstalled); [|injection E as <- <- <-; apply unchanged_safe]. cbn [negb] in E.
  destruct (String.eqb_spec (H c) (sha256 pin)) as [Hc|]; [|by apply Hrep].
  injection E as <- <- <-. split; [done|by left|intros _; by exists c|constructor].
Qed.

(** The temporary file is gone, whenever installing got as far as to write it. *)
Lemma from_dir_tmp w fs pin dest tmp o fs' ev r :
  from_dir w fs pin dest o = (fs', ev, r) -> tmp <> dest -> fs' !! tmp = fs !! tmp.
Proof.
  intros E Hne. assert (Hp : forall c s fs1 ev1 r1, put_in_place w fs pin dest c s = (fs1, ev1, r1) -> fs1 !! tmp = fs !! tmp).
  { intros c s fs1 ev1 r1. unfold put_in_place. destruct (finish _ _ _); [|by intros [= <- <- <-]].
    destruct (io w Rename); intros [= <- <- <-]; [by rewrite lookup_insert_ne|done]. }
  assert (Hu : from_url w fs pin dest o = (fs', ev, r) -> fs' !! tmp = fs !! tmp).
  { unfold from_url. destruct (truthy_text _); [|by intros [= <- <- <-]].
    destruct (download _ _ _ _) as [[c|] [sha|e1]]; try (by intros [= <- <- <-]).
    destruct (String.eqb _ _); [|by intros [= <- <- <-]].
    destruct (put_in_place _ _ _ _ _ _) as [[fs1 ev1] [s0|e0]] eqn:Ep; intros [= <- <- <-]; by eapply Hp. }
  unfold from_dir in E. destruct (dir ← truthy_text (from o); List.find _ _); [|by apply Hu].
  destruct (copied w _); [|by injection E as <- <- <-].
  destruct (io w HashCopy); [|by injection E as <- <- <-]. cbn [negb] in E.
  destruct (String.eqb _ _); [by eapply Hp|by apply Hu].
Qed.

(** [C26] Whatever the sources serve and wherever an operation fails, an
    installation leaves each artifact's final path as it was or holding bytes of
    the pinned hash, and the latter when it succeeds; it makes executable, and
    clears of its quarantine, only berth-vmm and only bytes of the pinned hash;
    and it touches no other file, its temporary one apart, which is gone. *)
Theorem install_verified w fs pin o fs' ev r :
  installOne w fs pin o = (fs', ev, r) ->
  let dest := artifactPath pin (root o) in
  (fs' !! dest = fs !! dest \/ verified_at fs' dest pin) /\
  (is_ok r = true -> verified_at fs' dest pin) /\
  Forall (event_ok pin dest) ev /\
  (forall p, p <> dest -> p <> tmp_of dest o -> fs' !! p = fs !! p) /\
  (fs' !! tmp_of dest o = None \/ fs' = fs).
Proof.
  intros E dest. destruct (installOne_safe _ _ _ _ _ _ _ E) as [Ho Hd Hok He]. fold dest in Ho, Hd, Hok, He.
  split_and!; auto. revert E. unfold installOne. fold dest.
  assert (Hrep : (if negb (io w Mkdir) then (fs, [], Err (IoError Mkdir)) else from_dir w (delete (tmp_of dest o) fs) pin dest o) = (fs', ev, r) ->
            fs' !! tmp_of dest o = None \/ fs' = fs).
  { destruct (io w Mkdir); cbn [negb]; [|intros [= <- <- <-]; by right].
    intros E'. left. rewrite (from_dir_tmp _ _ _ _ (tmp_of dest o) _ _ _ _ E') by apply tmp_ne. apply lookup_delete_eq. }
  destruct (fs !! dest); [|done]. destruct (force o); [done|].
  destruct (io w HashInstalled); [|intros [= <- <- <-]; by right]. cbn [negb].
  destruct (String.eqb _ _); [intros [= <- <- <-]; by right|done].
Qed.

(** Installing a list of artifacts whose paths do not meet: when it succeeds, all
    of them check. *)
Theorem install_all_verified w pins o : forall fs fs' ev l,
  installArtifacts w fs pins o = (fs', ev, Ok l) ->
  NoDup (map (fun p => artifactPath p (root o)) pins) ->
  (forall p q, p ∈ pins -> q ∈ pins -> tmp_of (artifactPath p (root o)) o <> artifactPath q (root o)) ->
  checkArtifacts fs' (root o) pins = map (fun p => Verified (artifactPath p (root o)) (sha256 p)) pins.
Proof.
  set (path p := artifactPath p (root o)).
  assert (Hkeep : forall pins fs fs' ev r q, installArtifacts w fs pins o = (fs', ev, r) ->
            q ∉ map path pins -> (forall p, p ∈ pins -> tmp_of (path p) o <> q) -> fs' !! q = fs !! q).
  { clear. induction pins as [|pin pins IH]; intros fs fs' ev r q E Hq Ht; cbn [installArtifacts] in E; [by injection E as <- <- <-|].
    cbn [map] in Hq. apply not_elem_of_cons in Hq as [Hq1 Hq2].
    destruct (installOne w fs pin o) as [[fs1 ev1] [s|e]] eqn:E1;
      destruct (installOne_safe _ _ _ _ _ _ _ E1) as [Ho _ _ _];
      assert (fs1 !! q = fs !! q) as Hs by (apply Ho; [done|intros E'; by apply (Ht pin); [left|]]).
    - destruct (installArtifacts w fs1 pins o) as [[fs2 ev2] [l|e]] eqn:E2; injection E as <- <- <-; rewrite <- Hs;
        eapply IH; eauto; intros p Hp; apply Ht; by right.
    - by injection E as <- <- <-. }
  induction pins as [|pin pins IH]; intros fs fs' ev l E Hnd Ht; [done|]. cbn [installArtifacts] in E.
  destruct (installOne w fs pin o) as [[fs1 ev1] [s|e]] eqn:E1; [|done].
  destruct (installArtifacts w fs1 pins o) as [[fs2 ev2] [l'|e]] eqn:E2; [|done]. injection E as <- <- <-.
  destruct (installOne_safe _ _ _ _ _ _ _ E1) as [_ _ Hok _]. destruct (Hok eq_refl) as (c & Hc & Hh).
  cbn [map] in Hnd. apply NoDup_cons in Hnd as [Hni Hnd].
  assert (fs2 !! path pin = Some c) as Hc2.
  { rewrite (Hkeep _ _ _ _ _ _ E2 Hni); [done|]. intros p Hp. apply Ht; [by right|by left]. }
  cbn [checkArtifacts map]. fold (path pin). rewrite Hc2, Hh, String.eqb_refl. f_equal.
  eapply IH; eauto. intros p q Hp Hq. apply Ht; by right.
Qed.

End install.

(** *** What a download gives *)

(** At most four requests, and what a download gives has the pinned size. *)
Theorem download_bounded pin server content n r :
  attempts DOWNLOAD_ATTEMPTS pin server 1 None = (content, n, r) -> 1 <= n <= 4.
Proof.
  enough (forall more k content0, more + k = 5 -> 1 <= k -> attempts more pin server k content0 = (content, n, r) -> 1 <= n <= 4) as H.
  { apply (H 4 1); lia. }
  induction more as [|more IH]; intros k content0 Hk Hk1 E; cbn [attempts] in E; [injection E as <- <- <-; lia|].
  destruct (downloadAttempt _ _ _) as [content1 [u|[]]]; [injection E as <- <- <-; lia..|].
  change DOWNLOAD_ATTEMPTS with 4 in E. destruct (Nat.leb_spec 4 k); [injection E as <- <- <-; lia|].
  eapply IH; [|..|exact E]; lia.
Qed.

(** A server that holds [c], which is of the pinned size, and honours ranges or
    ignores them: each body is a part of [c] from where it says it starts, and a
    body that ends is the rest. *)
Definition part (c : string) (start : nat) (body : string) (a : arrival) : Prop :=
  exists rest, Str.drop start c = body +:+ rest /\ (a = Completes -> rest = "").

Definition range_header (have : Z) (last : string) (size : Z) : string :=
  "bytes " +:+ JsNumber.to_string have +:+ "-" +:+ last +:+ "/" +:+ JsNumber.to_string size.

Definition honest_response (c : string) (have : Z) (r : Response) : Prop :=
  let total := Z.of_nat (String.length c) in
  (r_status r <> 206 /\ part c 0 (r_body r) (r_arrival r) /\
     (r_content_length r = None \/ r_content_length r = Some (JsNumber.to_string total)))%Z \/
  (r_status r = 206 /\ part c (Z.to_nat have) (r_body r) (r_arrival r) /\
     (exists last, r_content_range r = Some (range_header have last total) /\ last <> "" /\ Str.all Str.is_digit last = true) /\
     (r_content_length r = None \/ r_content_length r = Some (JsNumber.to_string (total - have))))%Z.

Definition honest (c : string) (server : Server) : Prop :=
  forall k have r, server k have = Some r -> honest_response c have r.

(** The file so far: nothing, or the beginning of [c]. *)
Definition begins (c : string) (content : option string) : Prop :=
  match content with None => True | Some p => exists rest, c = p +:+ rest end.

Lemma content_range_header have last size :
  (0 <= have)%Z -> (0 <= size)%Z -> last <> "" -> Str.all Str.is_digit last = true ->
  content_range (range_header have last size) = Some (JsNumber.to_string have, JsNumber.to_string size).
Proof.
  intros Hh Hs Hl Hd. destruct (JsNumber.to_string_spec have Hh) as (Hne & Ha & _).
  destruct (JsNumber.to_string_spec size Hs) as (Hne' & Ha' & _).
  unfold content_range, range_header. rewrite StrFacts.starts_with_refl.
  replace (Str.drop 6 ("bytes " +:+ JsNumber.to_string have +:+ "-" +:+ last +:+ "/" +:+ JsNumber.to_string size))
    with (JsNumber.to_string have +:+ String "-" (last +:+ String "/" (JsNumber.to_string size))) by done.
  rewrite JsNumber.span_stops by done. rewrite JsNumber.span_stops by done. rewrite JsNumber.span_all by done.
  apply String.eqb_neq in Hne as ->. apply String.eqb_neq in Hne' as ->. by apply String.eqb_neq in Hl as ->.
Qed.

Lemma same_number_to_string a b : (0 <= a < 2 ^ 53)%Z -> (0 <= b < 2 ^ 53)%Z -> same_number (JsNumber.to_string a) b = bool_decide (a = b).
Proof.
  intros Ha Hb. unfold same_number. apply Bool.eq_true_iff_eq. rewrite bool_decide_eq_true.
  rewrite (JsNumber.eqb_to_integer _ _ b) by (apply JsNumber.to_integer_of_Z; lia).
  rewrite JsNumber.Number_to_string by done. split; congruence.
Qed.

Lemma right_length pin start r total :
  (0 <= start <= total)%Z -> size pin = total -> (total < 2 ^ 53)%Z ->
  r_content_length r = None \/ r_content_length r = Some (JsNumber.to_string (total - start)) ->
  wrong_length pin start r = false.
Proof.
  intros Hs Hsz Hm [Hl|Hl]; unfold wrong_length; rewrite Hl; [done|].
  assert (JsNumber.eqb (JsNumber.add (JsNumber.of_Z start) (JsNumber.Number (JsNumber.to_string (total - start)))) (JsNumber.of_Z (size pin)) = true) as ->;
    [|by rewrite andb_false_r].
  apply (JsNumber.eqb_to_integer _ _ total); [rewrite Hsz; apply JsNumber.to_integer_of_Z; lia|].
  replace total with (start + (total - start))%Z at 2 by lia.
  apply JsNumber.add_integer; [apply JsNumber.to_integer_of_Z; lia|apply JsNumber.Number_to_string; lia|lia].
Qed.

(** What a part of [c] leaves in the file. *)
Lemma written_begins c content start body a w :
  begins c content -> part c start body a -> start = (if (0 <? Z.of_nat start)%Z then String.length (or_default "" content) else 0) ->
  begins c (written_to content (Z.of_nat start) body w).
Proof.
  intros Hb (rest & Hp & _) Hs. unfold written_to. destruct w as [n|]; [|done]. cbn [begins].
  assert (c = (if (0 <? Z.of_nat start)%Z then or_default "" content else "") +:+ Str.drop start c) as Hc.
  { destruct (0 <? Z.of_nat start)%Z eqn:E; [|by rewrite Hs].
    destruct content as [p|]; cbn [or_default] in *; [|rewrite Hs in E; done].
    destruct Hb as [rest' ->]. by rewrite Hs, StrFacts.drop_app. }
  exists (Str.drop n body +:+ rest). etrans; [exact Hc|]. rewrite Hp, app_assoc_str. f_equal.
  by rewrite <- app_assoc_str, StrFacts.take_drop.
Qed.

Lemma written_whole c content start body :
  begins c content -> part c start body Completes -> start = (if (0 <? Z.of_nat start)%Z then String.length (or_default "" content) else 0) ->
  written_to content (Z.of_nat start) body (Some (String.length body)) = Some c.
Proof.
  intros Hb (rest & Hp & Hr) Hs. rewrite (Hr eq_refl), app_nil_r_str in Hp. unfold written_to. f_equal.
  rewrite StrFacts.take_ge by lia. rewrite <- Hp.
  destruct (0 <? Z.of_nat start)%Z eqn:E; [|by rewrite Hs].
  destruct content as [p|]; cbn [or_default] in *; [|rewrite Hs in E; done].
  destruct Hb as [rest' ->]. by rewrite Hs, StrFacts.drop_app.
Qed.

Lemma part_length c start body a : part c start body a -> start <= String.length c -> start + String.length body <= String.length c.
Proof.
  intros (rest & Hp & _) Hs. apply (f_equal String.length) in Hp. rewrite StrFacts.length_drop, length_app_str in Hp. lia.
Qed.

(** One attempt with an honest server: the file goes on beginning like [c], is [c]
    when the attempt ends, and the server is never refused. *)
Lemma honest_attempt pin c content response :
  size pin = Z.of_nat (String.length c) -> (size pin < 2 ^ 53)%Z -> begins c content ->
  (forall r, response = Some r -> honest_response c (length_of content) r) ->
  match downloadAttempt pin content response with
  | (content', Ok _) => content' = content /\ length_of content = size pin \/ content' = Some c
  | (content', Err e) => begins c content' /\ e = Retry
  end.
Proof.
  intros Hsz Hmax Hb Hr. unfold downloadAttempt.
  destruct (Z.eqb_spec (length_of content) (size pin)) as [He|He]; [by left|].
  destruct response as [r|]; [|done]. specialize (Hr r eq_refl).
  destruct (negb _ || _); [done|].
  assert (Hlen : String.length (or_default "" content) <= String.length c).
  { destruct content as [p|]; cbn in *; [|lia]. destruct Hb as [rest ->]. rewrite length_app_str. lia. }
  assert (Hhave : (0 <= length_of content <= size pin)%Z) by (unfold length_of; lia).
  destruct Hr as [(Hst & Hpart & Hcl)|(Hst & Hpart & (last & Hrg & Hl0 & Hld) & Hcl)].
  - assert (resumes pin (length_of content) r = false) as Hres by (unfold resumes; by apply Z.eqb_neq in Hst as ->).
    rewrite Hres. apply Z.eqb_neq in Hst as ->. cbn [andb].
    rewrite (right_length pin 0 r (Z.of_nat (String.length c))) by (rewrite ?Z.sub_0_r; done || lia).
    pose proof (part_length c 0 _ _ Hpart ltac:(lia)) as Hlp.
    destruct (Z.ltb_spec (size pin) (0 + Z.of_nat (String.length (r_body r)))); [lia|].
    change 0%Z with (Z.of_nat 0). destruct (r_arrival r) eqn:Ea.
    + right. by apply written_whole.
    + split; [|done]. by eapply written_begins.
    + split; [|done]. by eapply written_begins.
  - assert (resumes pin (length_of content) r = true) as Hres.
    { unfold resumes. rewrite Hst, Hrg. cbn [or_default]. rewrite content_range_header by (done || lia).
      rewrite !same_number_to_string by lia. rewrite Hsz, !bool_decide_true by done. done. }
    rewrite Hres, Hst. cbn [negb andb Z.eqb].
    rewrite (right_length pin (length_of content) r (Z.of_nat (String.length c))) by (done || lia).
    set (h := String.length (or_default "" content)) in *. change (length_of content) with (Z.of_nat h) in *. rewrite Nat2Z.id in Hpart.
    pose proof (part_length c h _ _ Hpart Hlen) as Hlp.
    destruct (Z.ltb_spec (size pin) (Z.of_nat h + Z.of_nat (String.length (r_body r)))); [lia|].
    assert (Hstart : h = (if (0 <? Z.of_nat h)%Z then h else 0)) by (destruct (Z.ltb_spec 0 (Z.of_nat h)); lia).
    destruct (r_arrival r) eqn:Ea.
    + right. by apply written_whole.
    + split; [|done]. by eapply written_begins.
    + split; [|done]. by eapply written_begins.
Qed.

Lemma begins_whole c content : begins c content -> length_of content = Z.of_nat (String.length c) -> c <> "" -> content = Some c.
Proof.
  intros Hb Hl Hne. unfold length_of in Hl. destruct content as [p|]; cbn in *.
  - destruct Hb as [rest ->]. rewrite length_app_str in Hl. rewrite (length_0_str rest) by lia. by rewrite app_nil_r_str.
  - destruct c; [done|]. cbn in Hl. lia.
Qed.

(** However often the connection breaks, and whether the server honours the
    ranges it is asked for or ignores them, a download from a server that holds
    the artifact gives exactly that artifact, if any of four attempts gets to the
    end, and nothing the server sends is refused. *)
Theorem resumed_download pin c server content n r :
  size pin = Z.of_nat (String.length c) -> (size pin < 2 ^ 53)%Z -> c <> "" -> honest c server ->
  attempts DOWNLOAD_ATTEMPTS pin server 1 None = (content, n, r) ->
  match r with
  | Ok _ => content = Some c
  | Err e => e = Retry /\ n = DOWNLOAD_ATTEMPTS /\ begins c content
  end.
Proof.
  intros Hsz Hmax Hne Hh.
  enough (forall more k content0, more + k = 5 -> 1 <= k <= 4 -> begins c content0 -> attempts more pin server k content0 = (content, n, r) ->
    match r with Ok _ => content = Some c | Err e => e = Retry /\ n = DOWNLOAD_ATTEMPTS /\ begins c content end) as H by (apply (H 4 1); [done|lia|done]).
  induction more as [|more IH]; intros k content0 Hk Hk1 Hb E; [lia|]. cbn [attempts] in E.
  pose proof (honest_attempt pin c content0 (server k (length_of content0)) Hsz Hmax Hb (Hh k (length_of content0))) as Ha.
  destruct (downloadAttempt _ _ _) as [content1 [u|e]].
  - injection E as <- <- <-. destruct Ha as [[-> Hl]|Ha]; [|done]. apply begins_whole; [done|lia|done].
  - destruct Ha as [Hb1 ->]. destruct (Nat.leb_spec DOWNLOAD_ATTEMPTS k) as [Hle|Hgt].
    + injection E as <- <- <-. split_and!; [done| |done]. change DOWNLOAD_ATTEMPTS with 4 in *. lia.
    + eapply IH; [| |exact Hb1|exact E]; [lia|change DOWNLOAD_ATTEMPTS with 4 in Hgt; lia].
Qed.

(** *** Examples *)

Definition ex_manifest (name sha size : string) : string :=
  "name = " +:+ Pins.quoted name +:+ String Pins.LF ("image_sha256 = " +:+ Pins.quoted sha +:+ String Pins.LF ("image_size = " +:+ size)).
Definition ex_kernel : string := ex_manifest "berth-kernel" "8f79e8dae97ebc0ab8fcdc4ad209bb025ec967be82c713503e0612cfdd340ec8" "23668744".
Definition ex_rootfs : string := ex_manifest "berth-rootfs" "dfb5f6b030ca59884f2466783961169dd2f4d6fb71ff08d30028f67eff29331f" "108072960".

Lemma pins_of_binary_witness :
  Pins.pinsFromManifests (Pins.manifestsInBinary ("ELF" +:+ (ex_kernel +:+ String Pins.LF "") +:+ (ex_rootfs +:+ String Pins.LF "") +:+ "text")) =
  Some (Pins.kernelPin "8f79e8dae97ebc0ab8fcdc4ad209bb025ec967be82c713503e0612cfdd340ec8" 23668744,
        Pins.rootfsPin "dfb5f6b030ca59884f2466783961169dd2f4d6fb71ff08d30028f67eff29331f" 108072960).
Proof.
  rewrite (Pins.pins_of_binary _ ex_kernel ex_rootfs ((ex_rootfs +:+ String Pins.LF "") +:+ "text") "text"
    "8f79e8dae97ebc0ab8fcdc4ad209bb025ec967be82c713503e0612cfdd340ec8" "23668744"
    "dfb5f6b030ca59884f2466783961169dd2f4d6fb71ff08d30028f67eff29331f" "108072960").
  all: lazymatch goal with |- (_ < _)%nat => apply Nat.ltb_lt; vm_compute; reflexivity | _ => vm_compute; reflexivity end.
Defined.

(** The release asset of each pin, at the default place. *)
Example default_urls :
  map (fun p => expandUrlTemplate SandboxConfig.DEFAULT_ARTIFACTS_URL p (releasePair "arm64" (Pins.PINS "arm64"))) (Pins.PINS "arm64") =
  map (fun p => "https://github.com/Ash20pk/BerthOS/releases/download/" +:+
                Pins.releaseTag (Pins.kernel_sha256 (Pins.GUEST_PINS Pins.aarch64)) (Pins.rootfs_sha256 (Pins.GUEST_PINS Pins.aarch64)) +:+ "/" +:+ asset p)
      (Pins.PINS "arm64").
Proof. by vm_compute. Qed.

Definition ex_content : string := "rootfs bytes".
Definition ex_pin : ArtifactPin := {| kind := vmm; sha256 := ex_content; size := 12; file := "berth-vmm"; relPath := "bin/berth-vmm"; asset := "berth-vmm-x" |}.

Definition ex_response (have : Z) (body : string) (a : arrival) : Response :=
  if (have =? 0)%Z then {| r_status := 200; r_has_body := true; r_content_range := None; r_content_length := Some "12"; r_body := body; r_arrival := a |}
  else {| r_status := 206; r_has_body := true; r_content_range := Some (range_header have "11" 12);
          r_content_length := Some (JsNumber.to_string (12 - have)); r_body := body; r_arrival := a |}.

(** The connection stalls after five bytes, of which three were written; then it
    gets to the end. *)
Definition ex_server : Server := fun attempt have =>
  if attempt =? 1 then Some (ex_response 0 "rootf" (Stalls (Some 3)))
  else Some (ex_response have (Str.drop (Z.to_nat have) ex_content) Completes).

Lemma ex_honest : honest ex_content ex_server.
Proof.
  intros k have r. unfold ex_server. destruct (k =? 1); intros [= <-].
  - left. split; [done|]. split; [|by right]. by exists "s bytes".
  - unfold ex_response. destruct (Z.eqb_spec have 0) as [->|Hne].
    + left. split; [done|]. split; [by exists ""|by right].
    + right. split; [done|]. split; [exists ""; by rewrite app_nil_r_str|]. split; [by exists "11"|by right].
Qed.

Lemma resumed_download_witness :
  exists n, attempts DOWNLOAD_ATTEMPTS ex_pin ex_server 1 None = (Some ex_content, n, Ok tt).
Proof.
  destruct (attempts DOWNLOAD_ATTEMPTS ex_pin ex_server 1 None) as [[content n] r] eqn:E.
  pose proof (resumed_download ex_pin ex_content ex_server content n r eq_refl ltac:(vm_compute; reflexivity) ltac:(discriminate) ex_honest E) as Hr.
  vm_compute in E. injection E as <- <- <-. exists 2. by rewrite Hr.
Defined.

Lemma download_bounded_witness : exists content n r, attempts DOWNLOAD_ATTEMPTS ex_pin (fun _ _ => None) 1 None = (content, n, r) /\ n <= 4.
Proof.
  destruct (attempts DOWNLOAD_ATTEMPTS ex_pin (fun _ _ => None) 1 None) as [[content n] r] eqn:E.
  exists content, n, r. split; [reflexivity|]. by apply (download_bounded _ _ _ _ _ E).
Defined.

Definition ex_world : World :=
  {| io := fun _ => true; copied := fun _ => Some "something else"; server_of := fun _ => ex_server; darwin := true; xattr_status := 0 |}.
Definition ex_options : InstallOptions :=
  {| root := "/vm"; from := Some "/build"; urlTemplate := Some SandboxConfig.DEFAULT_ARTIFACTS_URL;
     release := {| r_kernel := "k"; r_rootfs := "r" |}; force := false; pid := "7" |}.
Definition ex_fs : gmap string string := {[ "/build/berth-vmm" := "something else"; "/vm/bin/berth-vmm" := "an old build" ]}.
Definition no_file_urls (url : string) : option string := None.

Lemma install_verified_witness :
  exists fs' ev r, installOne (fun c => c) no_file_urls ex_world ex_fs ex_pin ex_options = (fs', ev, r) /\
    verified_at (fun c => c) fs' "/vm/bin/berth-vmm" ex_pin.
Proof.
  assert (Hr : is_ok (installOne (fun c => c) no_file_urls ex_world ex_fs ex_pin ex_options).2 = true) by (vm_compute; reflexivity).
  destruct (installOne (fun c => c) no_file_urls ex_world ex_fs ex_pin ex_options) as [[fs' ev] r] eqn:E.
  destruct (install_verified _ _ _ _ _ _ _ _ _ E) as (_ & Hok & _).
  exists fs', ev, r. split; [reflexivity|]. exact (Hok Hr).
Defined.

Lemma install_all_verified_witness :
  exists fs' ev l, installArtifacts (fun c => c) no_file_urls ex_world ex_fs [ex_pin] ex_options = (fs', ev, Ok l) /\
    checkArtifacts (fun c => c) fs' "/vm" [ex_pin] = [Verified "/vm/bin/berth-vmm" ex_content].
Proof.
  assert (Hr : is_ok (installArtifacts (fun c => c) no_file_urls ex_world ex_fs [ex_pin] ex_options).2 = true) by (vm_compute; reflexivity).
  destruct (installArtifacts (fun c => c) no_file_urls ex_world ex_fs [ex_pin] ex_options) as [[fs' ev] [l|e]] eqn:E; [|discriminate Hr].
  exists fs', ev, l. split; [reflexivity|].
  apply (install_all_verified (fun c => c) no_file_urls ex_world [ex_pin] ex_options ex_fs fs' ev l E).
  - apply NoDup_singleton.
  - intros p q Hp%list_elem_of_singleton Hq%list_elem_of_singleton. subst. vm_compute. discriminate.
Defined.

End Artifacts.
