(* ===== verification/VmSandbox.v ===== *)
(** * A microVM sandbox on the host (packages/cli/src/vm: secrets.ts, control.ts,
    sandbox.ts, guest-lines.ts)

    The disk the environment travels on, the boot as the control port reports it,
    the guest's log over connections that replay it, and the run directory by
    which commands find a VM and stop it. *)
From S2P Require Import Prelude JsNumber Json JsonParse Attest Secrets EnvFile BootEvidence.

(** ** secrets.ts *)
Module SecretsDisk.
Import Json.
Import Secrets(env, AppSecretsDeclaration, PerAppSecretPartition, partitionSecretsPerApp).

Definition SECRETS_MAGIC : string := "BERTHSEC1" +:+ String (ascii_of_nat 10) "".
Definition SECRETS_MAX_BYTES : Z := 2 ^ 20.
Definition SECTOR : nat := 512.

Record VmSecrets := { shared : env; perApp : list (string * env) }.

Definition is_empty {A} (l : list A) : bool := match l with [] => true | _ => false end.

Definition hasSecrets (s : VmSecrets) : bool := negb (is_empty (shared s)) || existsb (fun a => negb (is_empty a.2)) (perApp s).

Definition vmSecrets (e : env) (apps : list AppSecretsDeclaration) : VmSecrets * list (string * string) :=
  let p := partitionSecretsPerApp e apps in
  ({| shared := Secrets.shared p; perApp := Secrets.perApp p |}, Secrets.missing p).

Definition NUL : ascii := ascii_of_nat 0.

Inductive disk_error := NulByte (name : option string) | TooLarge (bytes : nat).

Definition all_entries (s : VmSecrets) : env := shared s ++ mjoin (map snd (perApp s)).

Definition env_json (e : env) : json := JObj (map (fun kv => (kv.1, JStr kv.2)) e).
Definition disk_json (s : VmSecrets) : list (string * json) :=
  [("shared", env_json (shared s)); ("apps", JObj (map (fun a => (a.1, env_json a.2)) (perApp s)))].

Fixpoint zeros (n : nat) : string := match n with O => "" | S n => String NUL (zeros n) end.

(** How many bytes fill the last sector. *)
Definition padding (len : nat) : nat := (SECTOR - len mod SECTOR) mod SECTOR.

Definition encodeSecretsDisk (s : VmSecrets) : result disk_error string :=
  match List.find (fun kv => Str.any (Ascii.eqb NUL) kv.2) (all_entries s) with
  | Some (name, _) => Err (NulByte (if EnvFile.isConventionalEnvName name then Some name else None))
  | None =>
      let body := SECRETS_MAGIC +:+ JsonParse.stringify (JObj (disk_json s)) in
      let size := String.length body + padding (String.length body) in
      if (SECRETS_MAX_BYTES <? Z.of_nat size)%Z then Err (TooLarge (String.length body))
      else Ok (body +:+ zeros (padding (String.length body)))
  end.

(** What the guest reads: the JSON between the magic line and the padding. *)
Definition read_disk (disk : string) : option json :=
  if Str.starts_with SECRETS_MAGIC disk
  then JsonParse.parse (fst (JsNumber.span (fun c => negb (Ascii.eqb c NUL)) (Str.drop (String.length SECRETS_MAGIC) disk)))
  else None.

Lemma zeros_length n : String.length (zeros n) = n.
Proof. induction n as [|n IH]; [done|]. cbn. by rewrite IH. Qed.

Lemma span_zeros s n : Str.any (Ascii.eqb NUL) s = false -> fst (JsNumber.span (fun c => negb (Ascii.eqb c NUL)) (s +:+ zeros n)) = s.
Proof.
  intros H. assert (Str.all (fun c => negb (Ascii.eqb c NUL)) s = true) as Ha.
  { rewrite StrFacts.any_negb_all in H. apply negb_false_iff in H. rewrite <- H. clear. induction s as [|c s IH]; [done|].
    cbn [Str.all]. by rewrite IH, Ascii.eqb_sym. }
  rewrite JsNumber.span_prefix by done. destruct n; cbn; by rewrite app_nil_r_str.
Qed.

Lemma padding_fills len : (len + padding len) mod SECTOR = 0.
Proof.
  unfold padding. change SECTOR with 512. rewrite Nat.Div0.add_mod_idemp_r. rewrite <- Nat.Div0.add_mod_idemp_l.
  replace (len mod 512 + (512 - len mod 512)) with 512; [done|]. pose proof (Nat.mod_upper_bound len 512). lia.
Qed.

Lemma clean_object {A} (f : A -> json) (l : list (string * A)) :
  (forall a, JsonParse.clean (f a) = f a) -> (forall a, is_undef (f a) = false) ->
  JsonParse.clean (JObj (map (fun kv => (kv.1, f kv.2)) l)) = JObj (map (fun kv => (kv.1, f kv.2)) l).
Proof.
  intros Hc Hu. cbn [JsonParse.clean]. f_equal. unfold defined. induction l as [|[k a] l IH]; [done|].
  cbn [map fst snd omap list_omap flat_map app]. rewrite Hu, Hc. cbn. by f_equal.
Qed.

Lemma clean_env e : JsonParse.clean (env_json e) = env_json e.
Proof. by apply (clean_object JStr). Qed.

Lemma clean_apps l : JsonParse.clean (JObj (map (fun a : string * env => (a.1, env_json a.2)) l)) = JObj (map (fun a => (a.1, env_json a.2)) l).
Proof. apply (clean_object env_json); [apply clean_env|done]. Qed.

(** The disk is whole sectors, no more than the sandbox takes, and the guest
    reads back exactly the environment that was written; and it is refused exactly
    for a value with a NUL byte or for its size. *)
Theorem secrets_disk s :
  match encodeSecretsDisk s with
  | Ok disk =>
      String.length disk mod SECTOR = 0 /\ (Z.of_nat (String.length disk) <= SECRETS_MAX_BYTES)%Z /\
      read_disk disk = Some (JObj (disk_json s))
  | Err (NulByte _) => exists k v, (k, v) ∈ all_entries s /\ Str.any (Ascii.eqb NUL) v = true
  | Err (TooLarge n) => (SECRETS_MAX_BYTES < Z.of_nat (n + padding n))%Z
  end.
Proof.
  unfold encodeSecretsDisk. destruct (List.find _ _) as [[k v]|] eqn:Ef.
  { apply find_some in Ef as [Hin Hv]. exists k, v. split; [by apply list_elem_of_In|done]. }
  set (body := SECRETS_MAGIC +:+ _). destruct (Z.ltb_spec SECRETS_MAX_BYTES (Z.of_nat (String.length body + padding (String.length body)))); [done|].
  rewrite length_app_str, zeros_length. split_and!; [apply padding_fills|done|].
  unfold read_disk, body. rewrite app_assoc_str, StrFacts.starts_with_refl, StrFacts.drop_app, span_zeros.
  - rewrite JsonParse.parse_stringify. unfold JsonParse.clean_fields, disk_json.
    cbn [map fst snd is_undef env_json]. fold (env_json (shared s)). rewrite clean_env, clean_apps. done.
  - apply JsonParse.text_only_free; [done|]. apply JsonParse.text_only_stringify.
Qed.
End SecretsDisk.

(** ** control.ts *)
Module Control.
Import Json.

(** One line of the control port, once the connection greets: the boot id and the
    events of that boot. *)
Record Greeting := { bootId : option string; events : list json }.

Definition on_event (g : Greeting) (e : json) : Greeting :=
  match bootId g with
  | None =>
      if Attest.is_str (oprop "event" e) "hello"
      then match oprop "bootId" e with JStr id => {| bootId := Some id; events := events g |} | _ => g end
      else g
  | Some id =>
      if match oprop "bootId" e with JUndef => true | v => Attest.is_str v id end
      then {| bootId := Some id; events := events g ++ [e] |} else g
  end.

(** The objects that arrived, those that are control events. *)
Definition greet (values : list json) : Greeting :=
  foldl on_event {| bootId := None; events := [] |} (omap BootEvidence.asControlEvent values).

Inductive boot_failure := BootFailed (reason : json) | AppRefused (app : string) (reason : json) | AppExited (app : string) | PoweredOff (reason : json)
| ConnectionClosed | Cancelled | TimedOut.

Inductive wait_event := Event (e : json) | Closed | Abort | Timer.

Definition Ready : Type := list (string * option Z).

Definition app_of (e : json) : string := match oprop "app" e with JStr a => a | _ => "?" end.

(** [check], on the apps ready so far: more of them, or the end of the wait. *)
Definition check (appCount : nat) (ready : Ready) (e : json) : Ready + result boot_failure Ready :=
  match oprop "event" e with
  | JStr "app_ready" =>
      let ready := JsMap.put (app_of e) (match oprop "uptimeMs" e with JNum n => Some n | _ => None end) ready in
      if appCount <=? length ready then inr (Ok ready) else inl ready
  | JStr "boot_failed" => inr (Err (BootFailed (oprop "reason" e)))
  | JStr "app_refused" => inr (Err (AppRefused (app_of e) (oprop "reason" e)))
  | JStr "app_exited" => if JsMap.has (app_of e) ready then inl ready else inr (Err (AppExited (app_of e)))
  | JStr "power_off" => inr (Err (PoweredOff (oprop "reason" e)))
  | _ => inl ready
  end.

Definition wait_step (appCount : nat) (ready : Ready) (w : wait_event) : Ready + result boot_failure Ready :=
  match w with
  | Event e => check appCount ready e
  | Closed => inr (Err ConnectionClosed)
  | Abort => inr (Err Cancelled)
  | Timer => inr (Err TimedOut)
  end.

(** How the wait ends: what was replayed is checked first, then what arrives. *)
Fixpoint wait (appCount : nat) (ready : Ready) (l : list wait_event) : option (result boot_failure Ready) :=
  match l with
  | [] => None
  | w :: l => match wait_step appCount ready w with inl ready => wait appCount ready l | inr r => Some r end
  end.

Definition waitForReady (appCount : nat) (replayed : list json) (l : list wait_event) : option (result boot_failure Ready) :=
  wait appCount [] (map Event replayed ++ l).

Definition readyUptimeMs (r : Ready) : Z := foldr Z.max 0%Z (map (fun a => or_default 0%Z a.2) r).

(** *** What ready means *)

Definition is_event (k : string) (w : wait_event) : bool := match w with Event e => Attest.is_str (oprop "event" e) k | _ => false end.
Definition names_app (a : string) (w : wait_event) : bool := match w with Event e => String.eqb (app_of e) a | _ => false end.

(** What ends a boot: anything but an app that reports ready, one that exits after
    it has, and events of other kinds. *)
Definition ends_boot (ready : Ready) (w : wait_event) : bool :=
  match w with
  | Event e => Attest.one_of ["boot_failed"; "app_refused"; "power_off"] (oprop "event" e) ||
               (Attest.is_str (oprop "event" e) "app_exited" && negb (JsMap.has (app_of e) ready))
  | _ => true
  end.

Lemma check_cases n ready e :
  (Attest.is_str (oprop "event" e) "app_ready" = true /\
   check n ready e = (let ready := JsMap.put (app_of e) (match oprop "uptimeMs" e with JNum n => Some n | _ => None end) ready in
                      if n <=? length ready then inr (Ok ready) else inl ready)) \/
  (Attest.is_str (oprop "event" e) "app_ready" = false /\
   if ends_boot ready (Event e) then exists f, check n ready e = inr (Err f) else check n ready e = inl ready).
Proof.
  unfold check, ends_boot, Attest.one_of, Attest.is_str. destruct (oprop "event" e) as [| | | |s| |]; try (right; done).
  destruct (decide (s = "app_ready")) as [->|H1]; [by left|]. right. split; [by apply String.eqb_neq|].
  destruct (decide (s = "boot_failed")) as [->|H2]; [by eexists|].
  destruct (decide (s = "app_refused")) as [->|H3]; [by eexists|].
  destruct (decide (s = "app_exited")) as [->|H4]; [cbn; destruct (JsMap.has _ _); [done|by eexists]|].
  destruct (decide (s = "power_off")) as [->|H5]; [by eexists|].
  cbn [existsb]. rewrite (proj2 (String.eqb_neq _ _) H2), (proj2 (String.eqb_neq _ _) H3), (proj2 (String.eqb_neq _ _) H4), (proj2 (String.eqb_neq _ _) H5).
  cbn [orb andb].
  repeat match goal with |- context [match ?x with _ => _ end] => is_var x; destruct x; try done end.
Qed.

(** Ready is reported only once as many apps as were asked for have each said so,
    with nothing before it that ends a boot. *)
Theorem ready_spec n replayed l r :
  waitForReady n replayed l = Some (Ok r) ->
  n <= length r /\ NoDup r.*1 /\
  (forall a, a ∈ r.*1 -> exists w, w ∈ map Event replayed ++ l /\ is_event "app_ready" w = true /\ names_app a w = true).
Proof.
  unfold waitForReady. generalize (map Event replayed ++ l). intros evs.
  enough (forall ready, NoDup ready.*1 -> wait n ready evs = Some (Ok r) ->
    n <= length r /\ NoDup r.*1 /\
    (forall a, a ∈ r.*1 -> a ∈ ready.*1 \/ exists w, w ∈ evs /\ is_event "app_ready" w = true /\ names_app a w = true)) as H.
  { intros E. destruct (H [] (NoDup_nil_2) E) as (H1 & H2 & H3). split_and!; [done|done|].
    intros a Ha. destruct (H3 a Ha) as [Hn|Hw]; [by apply elem_of_nil in Hn|done]. }
  induction evs as [|w evs IH]; intros ready Hnd E; [done|]. cbn [wait] in E.
  assert (Hsame : forall r', wait n ready evs = Some (Ok r') -> r' = r -> n <= length r /\ NoDup r.*1 /\
    (forall a, a ∈ r.*1 -> a ∈ ready.*1 \/ exists w', w' ∈ w :: evs /\ is_event "app_ready" w' = true /\ names_app a w' = true)).
  { intros r' E' ->. destruct (IH _ Hnd E') as (H1 & H2 & H3). split_and!; [done|done|].
    intros a Ha. destruct (H3 a Ha) as [?|(w' & Hw & ?)]; [by left|]. right. exists w'. split; [by right|done]. }
  destruct w as [e| | |]; try done. cbn [wait_step] in E.
  destruct (check_cases n ready e) as [[He Hc]|[He Hc]].
  - rewrite Hc in E. cbn zeta in E. set (ready' := JsMap.put _ _ ready) in *.
    assert (Hkeys : forall a, a ∈ ready'.*1 -> a ∈ ready.*1 \/ a = app_of e).
    { intros a. unfold ready'. rewrite JsMap.keys_put. case_decide; [by left|]. rewrite elem_of_app, list_elem_of_singleton. tauto. }
    assert (Hnd' : NoDup ready'.*1) by (by apply JsMap.NoDup_put).
    assert (Hw : forall a, a = app_of e -> exists w', w' ∈ Event e :: evs /\ is_event "app_ready" w' = true /\ names_app a w' = true).
    { intros a ->. exists (Event e). split; [by left|]. split; [exact He|apply String.eqb_refl]. }
    destruct (Nat.leb_spec n (length ready')) as [Hn|Hn].
    + injection E as <-. split_and!; [done|done|]. intros a Ha. destruct (Hkeys a Ha) as [?|?]; auto.
    + destruct (IH _ Hnd' E) as (H1 & H2 & H3). split_and!; [done|done|].
      intros a Ha. destruct (H3 a Ha) as [Hk|(w' & Hw' & ?)]; [destruct (Hkeys a Hk); auto|]. right. exists w'. split; [by right|done].
  - destruct (ends_boot ready (Event e)); [destruct Hc as [f Hc]; rewrite Hc in E; done|]. rewrite Hc in E. by eapply Hsame.
Qed.

(** Events that claim another boot are dropped: every event of a connection is of
    the boot it greeted with, or of none. *)
Theorem greeted_events values e :
  e ∈ events (greet values) ->
  exists id, bootId (greet values) = Some id /\ (oprop "bootId" e = JUndef \/ oprop "bootId" e = JStr id) /\
    BootEvidence.asControlEvent e = Some e.
Proof.
  unfold greet. generalize (omap BootEvidence.asControlEvent values) as l, (list_elem_of_omap BootEvidence.asControlEvent values).
  intros l Hl.
  enough (forall l', (forall x, x ∈ l' -> x ∈ l) -> forall g, (forall x, x ∈ events g -> exists id, bootId g = Some id /\ (oprop "bootId" x = JUndef \/ oprop "bootId" x = JStr id) /\ x ∈ l) ->
     forall x, x ∈ events (foldl on_event g l') -> exists id, bootId (foldl on_event g l') = Some id /\ (oprop "bootId" x = JUndef \/ oprop "bootId" x = JStr id) /\ x ∈ l) as H.
  { intros He. destruct (H l (fun _ h => h) {| bootId := None; events := [] |} ltac:(by intros x ?%elem_of_nil) e He) as (id & H1 & H2 & H3).
    exists id. split_and!; [done|done|]. apply Hl in H3 as (v & _ & Hv). unfold BootEvidence.asControlEvent in *.
    destruct (Attest.is_str (oprop "source" v) "berth-init" && Attest.is_string (oprop "event" v)) eqn:E; [|done].
    destruct (oprop "bootId" v) eqn:Eb; try done; injection Hv as <-; rewrite E, Eb; done. }
  induction l' as [|v l' IH]; intros Hin g Hg x Hx; [by apply Hg|]. cbn [foldl] in *. eapply IH; [|..|exact Hx].
  - intros y Hy. apply Hin. by right.
  - intros y Hy. unfold on_event in *. destruct (bootId g) as [id|] eqn:Eid.
    + destruct (match oprop "bootId" v with JUndef => true | v => Attest.is_str v id end) eqn:Ev; [|rewrite Eid; by apply Hg].
      cbn [events bootId] in *. apply elem_of_app in Hy as [Hy|Hy%list_elem_of_singleton].
      * destruct (Hg y Hy) as (id' & [= <-] & ?). eauto.
      * subst y. exists id. split_and!; [done| |apply Hin; by left].
        destruct (oprop "bootId" v) eqn:Eb; auto; right; by apply Attest.is_str_spec in Ev.
    + assert (events g = []) as Hnil. { destruct (events g) as [|z zs] eqn:Ez; [done|]. destruct (Hg z ltac:(rewrite ?Ez; by left)) as (? & ? & _). congruence. }
      destruct (Attest.is_str (oprop "event" v) "hello"); [destruct (oprop "bootId" v)|]; cbn [events] in Hy; rewrite Hnil in Hy; by apply elem_of_nil in Hy.
Qed.
End Control.

(** ** guest-lines.ts and the log of the guest *)
Module LogPump.
Import Json.

Record GuestLogLine := { t : Z; src : string; stream : string; line : string }.

Definition asGuestLogLine (v : json) : option GuestLogLine :=
  match oprop "src" v, oprop "stream" v, oprop "line" v with
  | JStr src, JStr stream, JStr line =>
      Some {| t := match oprop "t" v with JNum n => n | _ => 0%Z end; src := Str.take 64 src; stream := Str.take 16 stream; line := line |}
  | _, _, _ => None
  end.

(** The text two lines of the same millisecond are told apart by. *)
Definition key (l : GuestLogLine) : string * string * string := (src l, stream l, line l).

Record Pump := { lastT : Z; seenAtLastT : list (string * string * string); delivered : list GuestLogLine }.
Definition fresh : Pump := {| lastT := -1; seenAtLastT := []; delivered := [] |}.

Definition on_line (p : Pump) (l : GuestLogLine) : Pump :=
  if (t l <? lastT p)%Z || ((t l =? lastT p)%Z && bool_decide (key l ∈ seenAtLastT p)) then p
  else {| lastT := Z.max (lastT p) (t l);
          seenAtLastT := (if (lastT p <? t l)%Z then [] else seenAtLastT p) ++ [key l];
          delivered := delivered p ++ [l] |}.

Definition pump (p : Pump) (ls : list GuestLogLine) : Pump := foldl on_line p ls.

Definition in_order (ls : list GuestLogLine) : Prop := forall a x b y c, ls = a ++ x :: b ++ y :: c -> (t x <= t y)%Z.
Definition distinct (ls : list GuestLogLine) : Prop := forall a x b y c, ls = a ++ x :: b ++ y :: c -> t x = t y -> key x <> key y.

(** What the pump has seen of a stream in order. *)
Record saw (ls : list GuestLogLine) (p : Pump) : Prop := {
  saw_before : Forall (fun x => (t x <= lastT p)%Z) ls;
  saw_last : Forall (fun x => t x = lastT p -> key x ∈ seenAtLastT p) ls;
  saw_keys : Forall (fun k => exists x, x ∈ ls /\ t x = lastT p /\ key x = k) (seenAtLastT p)
}.

Lemma seen_silent ls p x : saw ls p -> x ∈ ls -> on_line p x = p.
Proof.
  intros [Hb Hl _] Hx. rewrite Forall_forall in Hb, Hl. specialize (Hb x Hx). specialize (Hl x Hx). unfold on_line.
  destruct (Z.ltb_spec (t x) (lastT p)); [done|]. assert (t x = lastT p) as He by lia. rewrite He, Z.eqb_refl.
  by rewrite bool_decide_true by auto.
Qed.

Lemma replay_silent ls p ring : saw ls p -> (forall x, x ∈ ring -> x ∈ ls) -> pump p ring = p.
Proof.
  intros Hs. induction ring as [|x ring IH]; intros Hin; [done|]. cbn [pump foldl].
  rewrite (seen_silent ls p x Hs) by (apply Hin; by left). apply IH. intros y Hy. apply Hin. by right.
Qed.

Lemma new_delivered ls p x :
  saw ls p -> (0 <= t x)%Z -> Forall (fun y => (t y <= t x)%Z /\ (t y = t x -> key y <> key x)) ls -> (lastT p = -1 \/ exists y, y ∈ ls /\ t y = lastT p)%Z ->
  saw (ls ++ [x]) (on_line p x) /\ delivered (on_line p x) = delivered p ++ [x] /\ lastT (on_line p x) = t x.
Proof.
  intros [Hb Hl Hk] H0 Hx Hlast. rewrite Forall_forall in Hx.
  assert (lastT p <= t x)%Z as Hle by (destruct Hlast as [->|(y & Hy & <-)]; [lia|by apply Hx]).
  unfold on_line. destruct (Z.ltb_spec (t x) (lastT p)); [lia|]. cbn [orb].
  assert ((t x =? lastT p)%Z && bool_decide (key x ∈ seenAtLastT p) = false) as ->.
  { destruct (Z.eqb_spec (t x) (lastT p)) as [He|]; [|done]. apply bool_decide_eq_false. intros Hin.
    rewrite Forall_forall in Hk. apply Hk in Hin as (y & Hy & Hty & Hky). destruct (Hx y Hy) as [_ Hne]. apply Hne; congruence. }
  cbn [lastT seenAtLastT delivered]. rewrite Z.max_r by done. split; [|done]. split; cbn [lastT seenAtLastT].
  - apply Forall_app. split; [|by repeat constructor]. rewrite Forall_forall. intros y Hy. by apply Hx.
  - apply Forall_app. split; [|constructor; [|done]; intros _; apply elem_of_app; right; by left].
    rewrite Forall_forall in *. intros y Hy Ht. apply elem_of_app. left.
    destruct (Z.ltb_spec (lastT p) (t x)) as [Hlt|]; [specialize (Hb y Hy); lia|]. apply Hl; [done|lia].
  - apply Forall_app. split.
    + destruct (Z.ltb_spec (lastT p) (t x)) as [Hlt|Hge]; [done|]. rewrite Forall_forall in *. intros k Hkin.
      apply Hk in Hkin as (y & Hy & Hty & Hky). exists y. split_and!; [set_solver|lia|done].
    + constructor; [|done]. exists x. split; [set_solver|done].
Qed.

(** A connection: what berth-init replays of the lines so far, then new ones. *)
Fixpoint sent (conns : list (list GuestLogLine * list GuestLogLine)) : list GuestLogLine :=
  match conns with [] => [] | (ring, new) :: conns => ring ++ new ++ sent conns end.
Fixpoint printed (conns : list (list GuestLogLine * list GuestLogLine)) : list GuestLogLine :=
  match conns with [] => [] | (_, new) :: conns => new ++ printed conns end.
(** What is replayed was printed before. *)
Fixpoint replays (before : list GuestLogLine) (conns : list (list GuestLogLine * list GuestLogLine)) : Prop :=
  match conns with [] => True | (ring, new) :: conns => (forall x, x ∈ ring -> x ∈ before) /\ replays (before ++ new) conns end.

Definition well_timed (ls : list GuestLogLine) : Prop :=
  forall a x b, ls = a ++ x :: b -> (0 <= t x)%Z /\ Forall (fun y => (t y <= t x)%Z /\ (t y = t x -> key y <> key x)) a.

Definition tracks (ls : list GuestLogLine) (p : Pump) : Prop :=
  saw ls p /\ delivered p = ls /\ (lastT p = -1 \/ exists y, y ∈ ls /\ t y = lastT p)%Z.

Lemma new_lines ls new p : tracks ls p -> well_timed (ls ++ new) -> tracks (ls ++ new) (pump p new).
Proof.
  revert ls p; induction new as [|x new IH]; intros ls p (Hs & Hd & Hl) Hw; [by rewrite app_nil_r|].
  destruct (Hw ls x new eq_refl) as [H0 Hx]. destruct (new_delivered ls p x Hs H0 Hx Hl) as (Hs' & Hd' & Hl').
  change (pump p (x :: new)) with (pump (on_line p x) new).
  replace (ls ++ x :: new) with ((ls ++ [x]) ++ new) in * by (by rewrite <- app_assoc). apply IH; [|done].
  split; [exact Hs'|]. split; [by rewrite Hd', Hd|right; exists x; split; [set_solver|done]].
Qed.

(** The saved log of a guest: over any number of connections, each replaying
    some of what was printed before, each line reaches the log and its readers
    once and in order, when the guest's times do not go back and no two lines of
    the same millisecond are equal. *)
Theorem log_delivers_once conns :
  replays [] conns -> well_timed (printed conns) -> delivered (pump fresh (sent conns)) = printed conns.
Proof.
  enough (forall before p, tracks before p -> replays before conns -> well_timed (before ++ printed conns) ->
     delivered (pump p (sent conns)) = before ++ printed conns) as H.
  { intros Hr Hw. apply (H [] fresh); [|done|done]. split_and!; [by split; constructor|done|by left]. }
  induction conns as [|[ring new] conns IH]; intros before p Ht Hr Hw; cbn [sent printed replays] in *.
  { rewrite app_nil_r. apply Ht. }
  destruct Hr as [Hring Hr]. rewrite (app_assoc before new) in Hw |- *. unfold pump. rewrite !foldl_app.
  fold (pump p ring). rewrite (replay_silent before p ring) by (done || apply Ht). fold (pump p new) (pump (pump p new) (sent conns)).
  apply IH; [|done|done]. apply new_lines; [done|]. intros a x b E. apply (Hw a x (b ++ printed conns)). rewrite E. by rewrite <- app_assoc.
Qed.

(** Two equal lines printed within a millisecond are one in the saved log. *)
Theorem equal_lines_lost :
  let l := {| t := 5; src := "notes"; stream := "stdout"; line := "retry" |} in
  delivered (pump fresh [l; l]) = [l].
Proof. reflexivity. Qed.
End LogPump.

(** ** sandbox.ts: the run directory *)
Module Sandbox.

(** vm.json, of which only the pid decides. *)
Record VmRecord := { pid : Z; name : string }.

(** The files of a run directory: berth-vmm.pid, vm.json, the secrets disk and
    the sockets. *)
Record RunDir := { pid_file : option string; vm_json : option VmRecord; secrets : bool; sockets : bool }.
Definition empty_dir : RunDir := {| pid_file := None; vm_json := None; secrets := false; sockets := false |}.

(** The run directories, the processes with their command lines, and the run
    directories whose control socket greets. *)
Record World := { dirs : gmap string RunDir; procs : gmap Z string; greets : string -> bool }.

Definition dir_of (d : string) (w : World) : RunDir := or_default empty_dir (dirs w !! d).
Definition with_dir (d : string) (r : RunDir) (w : World) : World :=
  {| dirs := <[d := r]> (dirs w); procs := procs w; greets := greets w |}.
Definition with_procs (p : gmap Z string) (w : World) : World := {| dirs := dirs w; procs := p; greets := greets w |}.

Definition pidAlive (p : Z) (w : World) : bool := bool_decide (is_Some (procs w !! p)).

Definition isVmmFor (p : Z) (d : string) (w : World) : bool :=
  let cmd := Str.trim (or_default "" (procs w !! p)) in Str.includes "berth-vmm" cmd && Str.includes d cmd.

Definition cleanRunDir (d : string) (w : World) : World :=
  match dirs w !! d with
  | Some _ => with_dir d empty_dir w
  | None => w
  end.

(** [Number(readText(pidPath).trim())], when it is a whole number above zero. *)
Definition read_pid (d : string) (w : World) : option Z :=
  match JsNumber.to_integer (JsNumber.Number (Str.trim (or_default "" (pid_file (dir_of d w))))) with
  | Some p => if (0 <? p)%Z then Some p else None
  | None => None
  end.

Definition pid_text (p : Z) : string := JsNumber.to_string p +:+ String BootEvidence.LF "".

Inductive stale_reason := NoPid | NotRunning | NotOurs | NoRecord.
Inductive found := Absent | Stale (why : stale_reason) | NotAnswering | Found (r : VmRecord).

Definition recorded_pid (d : string) (w : World) : option Z :=
  match vm_json (dir_of d w) with
  | Some r => if (0 <? pid r)%Z then Some (pid r) else None
  | None => read_pid d w
  end.

Definition find (d : string) (w : World) : World * found :=
  let stale why := (cleanRunDir d w, Stale why) in
  match pid_file (dir_of d w), vm_json (dir_of d w) with
  | None, None => (w, Absent)
  | _, record =>
      match recorded_pid d w with
      | None => stale NoPid
      | Some p =>
          if negb (pidAlive p w) then stale NotRunning
          else if negb (isVmmFor p d w) then stale NotOurs
          else match record with
               | None => stale NoRecord
               | Some r => if greets w d then (w, Found r) else (w, NotAnswering)
               end
      end
  end.

Definition kill (p : Z) (w : World) : World := with_procs (delete p (procs w)) w.

Record Stopped := { clean : bool; killed : bool }.

(** [stop] of a sandbox whose record is [r]: [obeys] is whether the process is gone
    in time after a shutdown request, [connected] whether it holds a control
    connection from before. *)
Definition stop (r : VmRecord) (d : string) (connected obeys : bool) (w : World) : World * Stopped :=
  if negb (pidAlive (pid r) w) then (cleanRunDir d w, {| clean := false; killed := false |})
  else
    let asked := connected || greets w d in
    let gone := asked && obeys in
    (cleanRunDir d (kill (pid r) w), {| clean := gone; killed := negb gone |}).

Definition stopByName (d : string) (obeys : bool) (w : World) : World :=
  match find d w with
  | (w, Found r) => (stop r d true obeys w).1
  | (w, _) =>
      let w := match read_pid d w with
               | Some p => if pidAlive p w && isVmmFor p d w then kill p w else w
               | None => w
               end in
      cleanRunDir d w
  end.

(** *** Starting, step by step *)

Record StartOptions := {
  s_name : string;
  s_vmm : string;
  s_shares : list string;
  s_state : option string;
  s_stateSizeMiB : Z;
  s_cpus : Z;
  s_memMiB : Z;
  s_artifactsDir : option string;
  s_env : list string;
  s_secrets : option SecretsDisk.VmSecrets;
  s_extraArgs : list string
}.

Definition with_secrets (o : StartOptions) : bool :=
  match s_secrets o with Some s => SecretsDisk.hasSecrets s | None => false end.

Definition nonzero (flag : string) (n : Z) : list string := if (n =? 0)%Z then [] else [flag; JsNumber.to_string n].

Definition vmm_args (d : string) (o : StartOptions) : list string :=
  ["run"; "--run-dir"; d] ++ mjoin (map (fun s => ["--app"; s]) (s_shares o))
  ++ match s_state o with
     | Some EmptyString | None => []
     | Some s => ["--state"; s] ++ nonzero "--state-size" (s_stateSizeMiB o)
     end
  ++ nonzero "--cpus" (s_cpus o) ++ nonzero "--mem" (s_memMiB o)
  ++ match s_artifactsDir o with Some EmptyString | None => [] | Some a => ["--artifacts"; a] end
  ++ mjoin (map (fun e => ["--env"; e]) (s_env o))
  ++ (if with_secrets o then ["--secrets"; d +:+ "/" +:+ "secrets.img"] else [])
  ++ s_extraArgs o.

Definition command_line (d : string) (o : StartOptions) : string := Str.join " " (s_vmm o :: vmm_args d o).

(** Up to the pid file: the directory is cleaned, the secrets written, berth-vmm
    spawned with the pid the system gave it. *)
Definition start_spawn (d : string) (o : StartOptions) (p : Z) (w : World) : World :=
  let w := with_dir d {| pid_file := None; vm_json := None; secrets := with_secrets o; sockets := false |} w in
  let w := with_procs (<[p := command_line d o]> (procs w)) w in
  with_dir d {| pid_file := Some (pid_text p); vm_json := None; secrets := with_secrets o; sockets := false |} w.

(** Once berth-vmm has printed its lines: vm.json. *)
Definition start_measured (d : string) (o : StartOptions) (p : Z) (w : World) : World :=
  let r := dir_of d w in
  with_dir d {| pid_file := pid_file r; vm_json := Some {| pid := p; name := s_name o |}; secrets := secrets r; sockets := sockets r |} w.

(** Once every app is ready: the secrets disk is removed. *)
Definition start_ready (d : string) (w : World) : World :=
  let r := dir_of d w in
  with_dir d {| pid_file := pid_file r; vm_json := vm_json r; secrets := false; sockets := sockets r |} w.

(** *** What finding and stopping touch *)

Lemma trim_end_line s : Str.all (fun c => negb (Str.is_space c)) s = true -> Str.trim_end (s +:+ String BootEvidence.LF "") = s.
Proof.
  induction s as [|c s IH]; [done|]. cbn [Str.all]. rewrite andb_true_iff. intros [Hc Hs]. rewrite app_cons_str. cbn [Str.trim_end].
  rewrite (IH Hs). apply negb_true_iff in Hc. destruct s; [by rewrite Hc|done].
Qed.

Lemma pid_text_reads p : (0 <= p < 2 ^ 53)%Z -> JsNumber.to_integer (JsNumber.Number (Str.trim (pid_text p))) = Some p.
Proof.
  intros Hp. destruct (JsNumber.to_string_spec p) as (Hne & Hd & _); [lia|].
  assert (Hs : Str.all (fun c => negb (Str.is_space c)) (JsNumber.to_string p) = true).
  { apply (StrFacts.all_impl _ _ _ ) with (2 := Hd). intros c Hc. by rewrite JsNumber.digit_not_space. }
  unfold pid_text, Str.trim.
  assert (Str.trim_start (JsNumber.to_string p +:+ String BootEvidence.LF "") = JsNumber.to_string p +:+ String BootEvidence.LF "") as ->.
  { destruct (JsNumber.to_string p) as [|c s]; [done|]. cbn [Str.all] in Hs. apply andb_true_iff in Hs as [Hc _].
    rewrite app_cons_str. cbn [Str.trim_start]. apply negb_true_iff in Hc. by rewrite Hc. }
  rewrite trim_end_line by done. by apply JsNumber.Number_to_string.
Qed.

Lemma clean_procs d w : procs (cleanRunDir d w) = procs w.
Proof. unfold cleanRunDir. by destruct (dirs w !! d). Qed.
Lemma clean_greets d w : greets (cleanRunDir d w) = greets w.
Proof. unfold cleanRunDir. by destruct (dirs w !! d). Qed.
Lemma clean_dirs d d' w : d' <> d -> dirs (cleanRunDir d w) !! d' = dirs w !! d'.
Proof. intros H. unfold cleanRunDir. destruct (dirs w !! d); [|done]. cbn. by rewrite lookup_insert_ne. Qed.
Lemma clean_dir d w : dir_of d (cleanRunDir d w) = empty_dir.
Proof. unfold cleanRunDir, dir_of. destruct (dirs w !! d) eqn:E; [cbn; by rewrite lookup_insert_eq|by rewrite E]. Qed.

Definition ours (p : Z) (d : string) (w : World) : Prop := isVmmFor p d w = true /\ pidAlive p w = true.

Lemma find_cases d w :
  (find d w = (w, Absent) /\ pid_file (dir_of d w) = None /\ vm_json (dir_of d w) = None) \/
  (exists why, find d w = (cleanRunDir d w, Stale why)) \/
  (exists r, vm_json (dir_of d w) = Some r /\ (0 < pid r)%Z /\ ours (pid r) d w /\
     find d w = (w, if greets w d then Found r else NotAnswering)).
Proof.
  unfold find. destruct (pid_file (dir_of d w)) as [t|] eqn:Ep; destruct (vm_json (dir_of d w)) as [r|] eqn:Ev;
    [| |  |left; done]; right.
  all: unfold recorded_pid; rewrite Ev.
  1,3: destruct (Z.ltb_spec 0 (pid r)) as [Hp|Hp]; [|left; eauto].
  3: destruct (read_pid d w) as [p|]; [|left; eauto].
  all: destruct (pidAlive _ w) eqn:Ea; [|left; eauto]; destruct (isVmmFor _ d w) eqn:Ei; cbn [negb]; [|left; eauto].
  3: left; eauto.
  all: right; exists r; split_and!; try done; by destruct (greets w d).
Qed.

(** Finding a sandbox: it is found only when its record names a live process that
    is this run directory's berth-vmm and the control port greets; one that lives
    and is recorded is never taken for stale; and finding kills nothing and
    touches no other run directory. *)
Theorem find_spec d w w' f :
  find d w = (w', f) ->
  procs w' = procs w /\ (forall d', d' <> d -> dirs w' !! d' = dirs w !! d') /\
  (forall r, f = Found r -> w' = w /\ vm_json (dir_of d w) = Some r /\ ours (pid r) d w /\ greets w d = true) /\
  (forall r, vm_json (dir_of d w) = Some r -> (0 < pid r)%Z -> ours (pid r) d w -> w' = w /\ (f = Found r \/ f = NotAnswering)).
Proof.
  intros E. destruct (find_cases d w) as [(Hf & H1 & H2)|[(why & Hf)|(r & Hv & Hp & Ho & Hf)]]; rewrite Hf in E; injection E as <- <-.
  - split_and!; [done|done|done|]. congruence.
  - split_and!; [apply clean_procs|by intros; apply clean_dirs|done|].
    intros r Hv Hp [Hi Ha]. exfalso. unfold find, recorded_pid in Hf. rewrite Hv in Hf. apply Z.ltb_lt in Hp. rewrite Hp, Ha, Hi in Hf.
    cbn [negb] in Hf. destruct (pid_file (dir_of d w)), (greets w d); done.
  - split_and!; [done|done| |].
    + intros r' Hr. destruct (greets w d); [|done]. injection Hr as <-. done.
    + intros r' Hr _ _. split; [done|]. destruct (greets w d); [left|by right]. congruence.
Qed.


Lemma dir_of_with d r w : dir_of d (with_dir d r w) = r.
Proof. unfold dir_of. cbn. by rewrite lookup_insert_eq. Qed.

(** A VM that is still hashing its artifacts has no vm.json, and finding it, as any
    command of its name does first, takes it for stale: its pid file and its
    secrets disk are removed under it, and stopping by name then leaves it
    running. *)
Theorem booting_vm_orphaned d o p obeys w :
  let w1 := start_spawn d o p w in
  (exists why, (find d w1).2 = Stale why) /\ dir_of d (find d w1).1 = empty_dir /\
  procs (stopByName d obeys w1) = procs w1 /\ is_Some (procs w1 !! p).
Proof.
  cbn zeta. set (w1 := start_spawn d o p w).
  assert (Hv : vm_json (dir_of d w1) = None) by (unfold w1, start_spawn; by rewrite dir_of_with).
  assert (Hf : exists t, pid_file (dir_of d w1) = Some t) by (unfold w1, start_spawn; rewrite dir_of_with; by eexists).
  destruct Hf as [t Hf].
  destruct (find_cases d w1) as [(_ & H & _)|[(why & Hs)|(r & H & _)]]; [congruence| |congruence].
  unfold stopByName. rewrite Hs. cbn [fst snd]. split_and!; [by exists why|apply clean_dir| |].
  - unfold read_pid. rewrite clean_dir. change (JsNumber.to_integer (JsNumber.Number (Str.trim (or_default "" (pid_file empty_dir))))) with (Some 0%Z).
    cbn [Z.ltb Z.compare]. by rewrite !clean_procs.
  - unfold w1, start_spawn. cbn. rewrite lookup_insert_eq. by eexists.
Qed.

(** [stop] of a sandbox held from before does not look whose process the pid is:
    when berth-vmm has exited and the pid is another process's, that one is
    killed. *)
Theorem stop_kills_reused_pid d r cmd connected obeys w :
  procs w !! pid r = Some cmd -> procs (stop r d connected obeys w).1 !! pid r = None.
Proof.
  intros H. unfold stop, pidAlive. rewrite H, bool_decide_true by done. cbn [negb fst]. rewrite clean_procs. apply lookup_delete_eq.
Qed.

(** A run directory is looked for anywhere in the command line, and one name can
    begin another: with a stale record of "notes", whose pid is now the berth-vmm
    of "notes-2", stopping "notes" kills the other sandbox. *)
Definition ex_start (name : string) : StartOptions :=
  {| s_name := name; s_vmm := "/usr/bin/berth-vmm"; s_shares := ["/apps/" +:+ name]; s_state := None; s_stateSizeMiB := 0; s_cpus := 0; s_memMiB := 0;
     s_artifactsDir := None; s_env := []; s_secrets := None; s_extraArgs := [] |}.
Definition ex_dir (name : string) : string := "/home/u/.berth/run/vm/" +:+ name.
Definition ex_world : World :=
  {| dirs := {[ ex_dir "notes" := {| pid_file := Some "7"; vm_json := Some {| pid := 7; name := "notes" |}; secrets := false; sockets := false |} ]};
     procs := ∅; greets := fun _ => false |}.

Theorem longer_name_killed :
  procs (stopByName (ex_dir "notes") true
    (start_measured (ex_dir "notes-2") (ex_start "notes-2") 7 (start_spawn (ex_dir "notes-2") (ex_start "notes-2") 7 ex_world))) !! 7%Z = None.
Proof. by vm_compute. Qed.

(** *** Ports and lines of berth-vmm *)

Record VmmLines := { endpoints : Json.json; vmConfig : Json.json; measurements : Json.json; hostSandbox : Json.json }.
Definition no_lines : VmmLines := {| endpoints := Json.JUndef; vmConfig := Json.JUndef; measurements := Json.JUndef; hostSandbox := Json.JUndef |}.

Definition vmm_line (parse : string -> option Json.json) (out : VmmLines) (line : string) : VmmLines :=
  if negb (Str.starts_with "{" line) then out
  else match BootEvidence.parseObject parse line with
       | None => out
       | Some v =>
           if negb (Attest.is_str (Json.oprop "source" v) "berth-vmm") then out
           else match Json.oprop "event" v with
                | Json.JStr "endpoints" => {| endpoints := v; vmConfig := vmConfig out; measurements := measurements out; hostSandbox := hostSandbox out |}
                | Json.JStr "vm_config" => {| endpoints := endpoints out; vmConfig := v; measurements := measurements out; hostSandbox := hostSandbox out |}
                | Json.JStr "measurements" => {| endpoints := endpoints out; vmConfig := vmConfig out; measurements := v; hostSandbox := hostSandbox out |}
                | Json.JStr "host_sandbox" => {| endpoints := endpoints out; vmConfig := vmConfig out; measurements := measurements out; hostSandbox := v |}
                | _ => out
                end
       end.

Definition readVmmLines (parse : string -> option Json.json) (text : string) : VmmLines :=
  foldl (vmm_line parse) no_lines (Str.split BootEvidence.LF text).

(** The wait ends with both. *)
Definition booted (l : VmmLines) : bool := Attest.truthy (endpoints l) && Attest.truthy (measurements l).

(** [appIndex], over the names of the record's apps. *)
Fixpoint index_of_name (app : string) (i : Z) (names : list string) : option Z :=
  match names with [] => None | n :: names => if String.eqb n app then Some i else index_of_name app (i + 1) names end.
Definition appIndex (names : list string) (app : string) : option Z :=
  if negb (String.eqb app "") && Str.all Str.is_digit app then
    match JsNumber.to_integer (JsNumber.Number app) with
    | Some n => if (n <? Z.of_nat (length names))%Z then Some n else None
    | None => None
    end
  else index_of_name app 0 names.

(** The secrets are on no command line: it is the same whatever their values are. *)
Theorem command_line_no_secrets d o s s' :
  SecretsDisk.hasSecrets s = SecretsDisk.hasSecrets s' ->
  let with_ s := {| s_name := s_name o; s_vmm := s_vmm o; s_shares := s_shares o; s_state := s_state o; s_stateSizeMiB := s_stateSizeMiB o; s_cpus := s_cpus o;
                    s_memMiB := s_memMiB o; s_artifactsDir := s_artifactsDir o; s_env := s_env o; s_secrets := Some s; s_extraArgs := s_extraArgs o |} in
  command_line d (with_ s) = command_line d (with_ s').
Proof. intros H. unfold command_line, vmm_args, with_secrets. cbn. by rewrite H. Qed.

(** *** Examples *)

Definition ex_running : World := start_measured (ex_dir "notes") (ex_start "notes") 7 (start_spawn (ex_dir "notes") (ex_start "notes") 7
  {| dirs := ∅; procs := ∅; greets := fun _ => true |}).

Lemma find_spec_witness : find (ex_dir "notes") ex_running = (ex_running, Found {| pid := 7; name := "notes" |}).
Proof.
  destruct (find (ex_dir "notes") ex_running) as [w' f] eqn:E.
  destruct (find_spec _ _ _ _ E) as (_ & _ & Hf & Hr).
  destruct (Hr {| pid := 7; name := "notes" |} ltac:(vm_compute; reflexivity) ltac:(reflexivity) ltac:(split; vm_compute; reflexivity)) as [-> [->| ->]]; [reflexivity|].
  assert ((find (ex_dir "notes") ex_running).2 = Found {| pid := 7; name := "notes" |}) as Hs by (vm_compute; reflexivity).
  rewrite E in Hs. discriminate Hs.
Defined.


Definition ex_event (k app : string) : Json.json :=
  Json.JObj [("source", Json.JStr "berth-init"); ("event", Json.JStr k); ("app", Json.JStr app); ("bootId", Json.JStr "b1")].

Lemma ready_spec_witness :
  exists r, Control.waitForReady 2 [ex_event "app_ready" "notes"] [Control.Event (ex_event "app_ready" "web")] = Some (Ok r) /\ NoDup r.*1.
Proof.
  destruct (Control.waitForReady 2 [ex_event "app_ready" "notes"] [Control.Event (ex_event "app_ready" "web")]) as [[r|e]|] eqn:E;
    [|by vm_compute in E|by vm_compute in E].
  exists r. split; [reflexivity|]. by destruct (Control.ready_spec _ _ _ _ E) as (_ & H & _).
Defined.

Lemma greeted_events_witness :
  exists id, Control.bootId (Control.greet [ex_event "hello" "x"; ex_event "app_ready" "notes"]) = Some id.
Proof.
  destruct (Control.greeted_events [ex_event "hello" "x"; ex_event "app_ready" "notes"] (ex_event "app_ready" "notes")) as (id & H & _).
  - vm_compute. left.
  - by exists id.
Defined.

Definition ex_line (t : Z) (text : string) : LogPump.GuestLogLine := {| LogPump.t := t; LogPump.src := "notes"; LogPump.stream := "stdout"; LogPump.line := text |}.

Lemma log_delivers_once_witness :
  LogPump.delivered (LogPump.pump LogPump.fresh [ex_line 1 "a"; ex_line 2 "b"; ex_line 2 "b"; ex_line 2 "c"]) = [ex_line 1 "a"; ex_line 2 "b"; ex_line 2 "c"].
Proof.
  apply (LogPump.log_delivers_once [([], [ex_line 1 "a"; ex_line 2 "b"]); ([ex_line 2 "b"], [ex_line 2 "c"])]).
  - split; [by intros x ?%elem_of_nil|]. split; [|done]. intros x Hx%list_elem_of_singleton. subst x. right. left.
  - intros a x b E. destruct a as [|a0 [|a1 [|a2 a]]]; cbn in E; injection E; intros; subst;
      try (by destruct a); (split; [done|]); repeat constructor; cbn; try done; discriminate.
Defined.

End Sandbox.
