(* ===== verification/Crew.v ===== *)
(** * Crews of agents (experimental/agents/src/crew.ts)

    The compositions of agents: a chain, a manager with workers, a fan-out, a
    loop, a branch and a pipeline of state updates. A composition saves which
    step it completed after every step, and a run that starts under the same id
    goes on from there. What an agent, the store or the process does next is a
    function of everything that has happened, so it may differ at every call;
    [retry] is a caller that runs the composition again whenever a run stops
    without an answer. *)
From S2P Require Import Prelude JsNumber Json JsonParse Trace Agent.

Module Crew.
Import Json Trace.

(** ** Agents, checkpoints and what a crew does *)

Record CrewCheckpoint (St : Type) := {
  kind : string; status : Agent.CheckpointStatus; completedSteps : nat; state : St
}.
Arguments kind {St}. Arguments status {St}. Arguments completedSteps {St}. Arguments state {St}.

(** How a run stops without an answer: something is thrown, or the process dies. *)
Inductive stop : Type := Threw (e : Agent.error) | Crashed.

Inductive event (St : Type) : Type :=
| Began                                                             (* [run] is called *)
| Ran (agent : string) (input : string) (runId : option string)     (* an agent is asked *)
| Stepped (index : nat) (input : St)                                (* a pipeline's own function is called *)
| Loaded (key : string)
| Saved (key : string) (checkpoint : CrewCheckpoint St).
Arguments Began {St}. Arguments Ran {St}. Arguments Stepped {St}. Arguments Loaded {St}. Arguments Saved {St}.

(** What a call of [save] comes to; the file store writes before it tags, so a
    save may have written and throw. *)
Inductive save_outcome : Type := Wrote | WroteThenStops (s : stop) | Stops (s : stop).

(** An [Agent], as a crew uses one: its name, and the text its run ends with. *)
Record Member (St : Type) := {
  name : string;
  answer : list (event St) -> string -> option string -> result stop string
}.
Arguments name {St}. Arguments answer {St}.

(** An agent of the library is such a member, in the world each run finds. *)
Definition member_of {St} (agent : Agent.AgentOptions) (w : list (event St) -> Agent.World) : Member St :=
  {| name := Agent.name agent;
     answer t input runId :=
       match (Agent.run (world := w t) agent input
                {| Agent.o_runId := runId; Agent.o_session := false; Agent.o_schema := None;
                   Agent.o_maxRepairAttempts := None |} []).2 with
       | Ok r => Ok (Agent.r_text r)
       | Err (Agent.Threw e) => Err (Threw e)
       | Err Agent.OutOfFuel => Err Crashed
       end |}.

(** What the store and [JSON.parse] do. *)
Class World (St : Type) := {
  load_stops : list (event St) -> option stop;
  save_does : list (event St) -> CrewCheckpoint St -> save_outcome;
  agent_world : Agent.World
}.

Definition checkpointKeyFor (runId : string) : string := "crew__" +:+ runId.

Definition id_char (c : ascii) : bool :=
  Str.is_digit c || Str.is_lower c || Str.is_upper c || Ascii.eqb c "." || Ascii.eqb c "_" || Ascii.eqb c "-".

Definition fanOutRunIdFor (runId agentName : string) (index : nat) : string :=
  runId +:+ ":" +:+ JsNumber.to_string (Z.of_nat index) +:+ ":" +:+
  Str.map (fun c => if id_char c then c else "_"%char) agentName.

Record CrewOptions := { checkpoint : bool; runId : option string }.

(** The last checkpoint written under a key. *)
Fixpoint stored_in {St} (key : string) (revents : list (event St)) : option (CrewCheckpoint St) :=
  match revents with
  | [] => None
  | Saved k c :: revents => if String.eqb k key then Some c else stored_in key revents
  | _ :: revents => stored_in key revents
  end.
Definition stored {St} (key : string) (t : list (event St)) : option (CrewCheckpoint St) := stored_in key (rev t).

Section crew.
Context {St : Type} {world : World St}.

Abbreviation CrewM := (@M (event St) stop).

Definition throw {A} (e : Agent.error) : CrewM A := fail (Threw e).

(** [options.checkpoint && options.runId]: the empty id counts as none. *)
Definition store_key (o : CrewOptions) : option string :=
  if checkpoint o then
    match runId o with Some (String c s) => Some (checkpointKeyFor (String c s)) | _ => None end
  else None.

Definition loadCrewCheckpoint (o : CrewOptions) : CrewM (option (CrewCheckpoint St)) :=
  match store_key o with
  | None => mret None
  | Some key => attempt (Loaded key) load_stops ;; asks (stored key)
  end.

Definition saveCrewCheckpoint (o : CrewOptions) (c : CrewCheckpoint St) : CrewM unit :=
  match store_key o with
  | None => mret tt
  | Some key => fun t =>
      match save_does t c with
      | Wrote => (t ++ [Saved key c], Ok tt)
      | WroteThenStops s => (t ++ [Saved key c], Err s)
      | Stops s => (t, Err s)
      end
  end.

(** [agent.run(input, { runId })] *)
Definition ask (a : Member St) (input : string) (id : option string) : CrewM string :=
  emit (Ran (name a) input id) (fun t => answer a t input id).

(** [parseStructuredOutput]; what it throws, a crew throws. *)
Definition parse_output (text : string) (schema : Agent.Schema) : result stop (result string json) :=
  match (Agent.parseStructuredOutput (world := agent_world) text schema []).2 with
  | Ok r => Ok r
  | Err (Agent.Threw e) => Err (Threw e)
  | Err Agent.OutOfFuel => Err Crashed
  end.

Definition repair_error (callerName : string) (maxRepairAttempts : nat) (e current : string) : Agent.error :=
  {| Agent.kind := Agent.StructuredOutput current;
     Agent.message := callerName +:+ " failed to produce output matching responseSchema after " +:+
       JsNumber.to_string (Z.of_nat maxRepairAttempts) +:+ " repair attempt(s): " +:+ e |}.

(** The [while] loop, from where [more] repair attempts are left. *)
Fixpoint repair_loop (more : nat) (a : Member St) (current : string) (schema : Agent.Schema) (maxRepairAttempts : nat)
    (id : option string) (callerName : string) : CrewM string :=
  parsed ← lift (parse_output current schema);
  match parsed, more with
  | Ok _, _ => mret current
  | Err e, O => throw (repair_error callerName maxRepairAttempts e current)
  | Err e, S more =>
      repaired ← ask a (Agent.structuredOutputRepairPrompt e) id;
      repair_loop more a repaired schema maxRepairAttempts id callerName
  end.
Definition repairStructuredOutput (a : Member St) (text : string) (schema : Agent.Schema) (maxRepairAttempts : nat)
    (id : option string) (callerName : string) : CrewM string :=
  repair_loop maxRepairAttempts a text schema maxRepairAttempts id callerName.

Record StructuredOutputRunOptions := { responseSchema : option Agent.Schema; maxRepairAttempts : option nat }.

(** A loop that may go on from a checkpoint: [done] is what a saved one gives. *)
Definition resume_from (o : CrewOptions) (input : St) (loop : nat -> St -> CrewM St) : CrewM St :=
  prior ← loadCrewCheckpoint o;
  match prior with
  | Some c =>
      match status c with
      | Agent.Done => mret (state c)
      | _ => loop (completedSteps c) (state c)
      end
  | None => loop 0 input
  end.
End crew.

(** ** [Crew.sequential] and [Crew.loopUntil] *)
Section text.
Context {world : World string}.
Abbreviation TextM := (@M (event string) stop).

(** The body of the [for] over the agents that are left, the first being number [i] of [n]. *)
Fixpoint sequential_loop (o : CrewOptions) (s : StructuredOutputRunOptions) (n : nat) (agents : list (Member string))
    (i : nat) (current : string) : TextM string :=
  match agents with
  | [] => mret current
  | a :: agents =>
      text ← ask a current (runId o);
      saveCrewCheckpoint o
        {| kind := "sequential";
           status := if Nat.eqb i (n - 1) && negb (bool_decide (is_Some (responseSchema s))) then Agent.Done else Agent.Running;
           completedSteps := S i; state := text |} ;;
      sequential_loop o s n agents (S i) text
  end.

Definition sequential_repair (o : CrewOptions) (s : StructuredOutputRunOptions) (agents : list (Member string)) (current : string)
    : TextM string :=
  match responseSchema s, last agents with
  | Some schema, Some a =>
      current ← repairStructuredOutput a current schema (or_default 2 (maxRepairAttempts s)) (runId o) "Crew.sequential";
      saveCrewCheckpoint o {| kind := "sequential"; status := Agent.Done; completedSteps := length agents; state := current |} ;;
      mret current
  | _, _ => mret current
  end.

Definition sequential (agents : list (Member string)) (o : CrewOptions) (s : StructuredOutputRunOptions) (input : string)
    : TextM string :=
  resume_from o input (fun startIndex current =>
    current ← sequential_loop o s (length agents) (drop startIndex agents) startIndex current;
    sequential_repair o s agents current).

(** [more] is how many iterations are left. *)
Fixpoint loopUntil_loop (more : nat) (o : CrewOptions) (a : Member string) (until : string -> nat -> bool) (iteration : nat)
    (current : string) : TextM string :=
  match more with
  | O => mret current
  | S more =>
      text ← ask a current (runId o);
      let finished := until text iteration in
      saveCrewCheckpoint o
        {| kind := "loopUntil"; status := if finished then Agent.Done else Agent.Running;
           completedSteps := S iteration; state := text |} ;;
      if finished then mret text else loopUntil_loop more o a until (S iteration) text
  end.

Definition loopUntil (o : CrewOptions) (a : Member string) (until : string -> nat -> bool) (maxIterations : option nat)
    (input : string) : TextM string :=
  let maxIterations := or_default 10 maxIterations in
  resume_from o input (fun startIteration current =>
    loopUntil_loop (maxIterations - startIteration) o a until startIteration current).

(** ** [Crew.route] *)

Definition route (router : Member string) (routes : list (string * Member string)) (fallback : option (Member string))
    (id : option string) (s : StructuredOutputRunOptions) (input : string) : TextM string :=
  let labels := routes.*1 in
  classification ← ask router
    ("Classify the input below into exactly one of these labels: " +:+ Str.join ", " labels +:+ "." +:+
     String (ascii_of_nat 10) "Respond with only the label, nothing else." +:+
     String (ascii_of_nat 10) (String (ascii_of_nat 10) "Input:") +:+ String (ascii_of_nat 10) input) id;
  let answer := Str.trim classification in
  let label := List.find (fun candidate => String.eqb (Str.to_lower candidate) (Str.to_lower answer)) labels in
  let target := match label with
                | Some (String c l) => JsMap.get (String c l) routes
                | _ => fallback
                end in
  match target with
  | None =>
      throw {| Agent.kind := Agent.OtherError;
               Agent.message := "Crew.route: router " +:+ String dq_char (name router) +:+ String dq_char
                 " returned " +:+ String dq_char answer +:+ String dq_char ", which matches none of [" +:+
                 Str.join ", " labels +:+ "] and no fallback was given" |}
  | Some target =>
      result ← ask target input id;
      match responseSchema s with
      | Some schema => repairStructuredOutput target result schema (or_default 2 (maxRepairAttempts s)) id "Crew.route"
      | None => mret result
      end
  end.

(** ** [Crew.parallel] *)

Definition defaultParallelMerge (results : list (string * string)) : string :=
  Str.join (String (ascii_of_nat 10) (String (ascii_of_nat 10) ""))
    (map (fun r => "## " +:+ r.1 +:+ String (ascii_of_nat 10) r.2) results).

(** Every agent is asked before any has answered. *)
Fixpoint ask_all (id : option string) (input : string) (index : nat) (agents : list (Member string))
    : TextM (list (string * result stop string)) :=
  match agents with
  | [] => mret []
  | a :: agents =>
      let child := (fun r => fanOutRunIdFor r (name a) index) <$> id in
      r ← emit (Ran (name a) input child) (fun t => Ok (name a, answer a t input child));
      rs ← ask_all id input (S index) agents;
      mret (r :: rs)
  end.

Fixpoint gather (rs : list (string * result stop string)) : list (string * string) + list stop :=
  match rs with
  | [] => inl []
  | (n, Ok text) :: rs => match gather rs with inl l => inl ((n, text) :: l) | inr es => inr es end
  | (_, Err e) :: rs => match gather rs with inl _ => inr [e] | inr es => inr (e :: es) end
  end.

(** [first] says which of the failures came first. *)
Definition parallel (agents : list (Member string)) (merge : option (list (string * string) -> string)) (id : option string)
    (first : list stop -> stop) (input : string) : TextM string :=
  rs ← ask_all id input 0 agents;
  match gather rs with
  | inl results => mret (or_default defaultParallelMerge merge results)
  | inr es => fail (first es)
  end.
End text.

(** ** [Crew.pipeline] *)
Section pipeline.
Context {V : Type} {world : World (list (string * V))}.
Abbreviation State := (list (string * V)).
Abbreviation PipeM := (@M (event State) stop).

(** [{ ...state, ...update }] *)
Definition spread_into (update state : State) : State := foldl (fun s kv => JsMap.put kv.1 kv.2 s) state update.

(** A step is the caller's own function; its second argument is the run's id. *)
Abbreviation Step := (list (event State) -> State -> option string -> result stop State).

Fixpoint pipeline_loop (o : CrewOptions) (n : nat) (steps : list Step) (i : nat) (st : State) : PipeM State :=
  match steps with
  | [] => mret st
  | step :: steps =>
      update ← emit (Stepped i st) (fun t => step t st (runId o));
      let st := spread_into update st in
      saveCrewCheckpoint o
        {| kind := "pipeline"; status := if Nat.eqb i (n - 1) then Agent.Done else Agent.Running;
           completedSteps := S i; state := st |} ;;
      pipeline_loop o n steps (S i) st
  end.

Definition pipeline (steps : list Step) (o : CrewOptions) (initialState : State) : PipeM State :=
  resume_from o initialState (fun startIndex st => pipeline_loop o (length steps) (drop startIndex steps) startIndex st).
End pipeline.

(** ** [Crew.withManager], [Crew.networked] *)

(** A worker as a tool: its agent, in the world a delegated run finds, and what
    its governor says of a task. A task that is not a string is left to [w_other]. *)
Record Worker := {
  w_agent : Agent.AgentOptions;
  w_world : list Agent.event -> Agent.World;
  w_gate : option (json -> option Agent.error);
  w_other : json -> result Agent.error json
}.

Definition asTool (description : string) (w : Worker) : Agent.Tool :=
  {| Agent.tool_name := Agent.name (w_agent w); Agent.description := description;
     Agent.inputSchema := JObj [("type", JStr "object");
       ("properties", JObj [("task", JObj [("type", JStr "string");
          ("description", JStr "the task to delegate to this agent")])]);
       ("required", JArr [JStr "task"])] |}.

(** The tool's [invoke]: the worker runs the task under no id of its own. *)
Definition worker_invoke (w : Worker) (t : list Agent.event) (input : json) : result Agent.error json :=
  match (match w_gate w with Some gate => gate input | None => None end) with
  | Some refused => Err refused
  | None =>
      match oprop "task" input with
      | JStr task =>
          match (Agent.run (world := w_world w t) (w_agent w) task
                   {| Agent.o_runId := None; Agent.o_session := false; Agent.o_schema := None;
                      Agent.o_maxRepairAttempts := None |} []).2 with
          | Ok r => Ok (JStr (Agent.r_text r))
          | Err (Agent.Threw e) => Err e
          | Err Agent.OutOfFuel => w_other w input
          end
      | v => w_other w v
      end
  end.

(** The tools of the manager come first in its list, so one of them hides a
    worker of the same name, and a worker hides the next of its name. *)
Definition delegating (own : list Agent.Tool) (extra : list (string * (list Agent.event -> json -> result Agent.error json)))
    (w : Agent.World) : Agent.World :=
  {| Agent.chat := Agent.chat (World := w);
     Agent.invoke t call :=
       if existsb (fun tool => String.eqb (Agent.tool_name tool) (Agent.call_name call)) own
       then Agent.invoke (World := w) t call
       else match JsMap.get (Agent.call_name call) extra with
            | Some f => f t (Agent.input call)
            | None => Agent.invoke (World := w) t call
            end;
     Agent.cancelled := Agent.cancelled (World := w);
     Agent.store_fails := Agent.store_fails (World := w);
     Agent.tracer_fails := Agent.tracer_fails (World := w);
     Agent.summary_of := Agent.summary_of (World := w);
     Agent.session_items := Agent.session_items (World := w);
     Agent.session_fails := Agent.session_fails (World := w);
     Agent.json_parse := Agent.json_parse (World := w);
     Agent.redact := Agent.redact (World := w) |}.

Definition manager_run (manager : Agent.AgentOptions) (extraTools : list Agent.Tool)
    (extra : list (string * (list Agent.event -> json -> result Agent.error json))) (id : option string) (input : string)
    (w : Agent.World) : list Agent.event * result Agent.stop string :=
  let '(t, r) := Agent.run (world := delegating (Agent.tools manager) extra w) (Agent.withTools manager extraTools) input
    {| Agent.o_runId := id; Agent.o_session := false; Agent.o_schema := None; Agent.o_maxRepairAttempts := None |} [] in
  (t, match r with Ok r => Ok (Agent.r_text r) | Err e => Err e end).

Definition withManager (manager : Agent.AgentOptions) (workers : list Worker) (id : option string) (input : string)
    (w : Agent.World) : list Agent.event * result Agent.stop string :=
  manager_run manager
    (map (fun worker => asTool ("Delegate a task to the " +:+ String dq_char (Agent.name (w_agent worker)) +:+
                                String dq_char " agent, then return what it reports back.") worker) workers)
    (map (fun worker => (Agent.name (w_agent worker), worker_invoke worker)) workers) id input w.

(** A peer is a tool its sandbox answers. *)
Definition networked (manager : Agent.AgentOptions)
    (peers : list (Agent.Tool * (list Agent.event -> json -> result Agent.error json))) (id : option string) (input : string)
    (w : Agent.World) : list Agent.event * result Agent.stop string :=
  manager_run manager peers.*1 (map (fun p => (Agent.tool_name p.1, p.2)) peers) id input w.

End Crew.
