(* ===== verification/CrewFacts.v ===== *)
(** * What a crew that is run again promises

    The three shapes that save checkpoints are one loop, [checkpointed]. The
    theorems are about [retry]: a caller that starts the crew again under the
    same id whenever a run stops, however it stopped. *)
From S2P Require Import Prelude JsNumber Json JsonParse Trace Agent Crew.

Module CrewFacts.
Import Json Trace Crew.

(** The caller: one run, and [more] runs more while none has answered. *)
Fixpoint retry {St A} (more : nat) (m : @M (event St) stop A) : @M (event St) stop A := fun t =>
  match m (t ++ [Began]), more with
  | (t1, Ok a), _ => (t1, Ok a)
  | (t1, Err e), O => (t1, Err e)
  | (t1, Err _), S more => retry more m t1
  end.

(** How many events there are since the last run began. *)
Fixpoint since_in {St} (revents : list (event St)) : nat :=
  match revents with [] | Began :: _ => 0 | _ :: revents => S (since_in revents) end.
Definition since {St} (t : list (event St)) : nat := since_in (rev t).

(** How often an agent or a step was run. *)
Definition is_run {St} (e : event St) : bool := match e with Ran _ _ _ | Stepped _ _ => true | _ => false end.
Definition runs {St} (t : list (event St)) : nat := length (List.filter is_run t).

Definition plain {St} (e : event St) : Prop := match e with Began | Saved _ _ => False | _ => True end.

Section events.
Context {St : Type}.
Implicit Types (t : list (event St)) (key : string).

Lemma stored_snoc key t e : stored key (t ++ [e]) =
  match e with Saved k c => if String.eqb k key then Some c else stored key t | _ => stored key t end.
Proof. unfold stored. rewrite rev_unit. by destruct e. Qed.
Lemma stored_plain key t e : plain e -> stored key (t ++ [e]) = stored key t.
Proof. rewrite stored_snoc. by destruct e. Qed.
Lemma stored_began key t : stored key (t ++ [Began]) = stored key t.
Proof. by rewrite stored_snoc. Qed.
Lemma stored_saved key t c : stored key (t ++ [Saved key c]) = Some c.
Proof. by rewrite stored_snoc, String.eqb_refl. Qed.
Lemma since_began t : since (t ++ [Began]) = 0.
Proof. unfold since. by rewrite rev_unit. Qed.
Lemma since_snoc t e : e <> Began -> since (t ++ [e]) = S (since t).
Proof. unfold since. rewrite rev_unit. by destruct e. Qed.
Lemma since_plain t e : plain e -> since (t ++ [e]) = S (since t).
Proof. intros He. apply since_snoc. by intros ->. Qed.
Lemma runs_snoc t e : runs (t ++ [e]) = runs t + (if is_run e then 1 else 0).
Proof. unfold runs. rewrite List.filter_app, length_app. cbn. by destruct (is_run e). Qed.
End events.

Lemma bind_ext {T E A B} (m : @M T E A) (f g : A -> @M T E B) t :
  (forall a t, f a t = g a t) -> (m ≫= f) t = (m ≫= g) t.
Proof. intros H. unfold mbind, M_bind. destruct (m t) as [t1 [a|e]]; [apply H|done]. Qed.

Lemma bind_ok {T E A B} (m : @M T E A) (f : A -> @M T E B) t t1 a : m t = (t1, Ok a) -> (m ≫= f) t = f a t1.
Proof. intros H. unfold mbind, M_bind. by rewrite H. Qed.

Lemma bind_assoc {T E A B C} (m : @M T E A) (f : A -> @M T E B) (g : B -> @M T E C) t :
  ((m ≫= f) ≫= g) t = (m ≫= (fun a => f a ≫= g)) t.
Proof. unfold mbind, M_bind. by destruct (m t) as [t1 [a|e]]. Qed.

Lemma hoare_pure {T E A} (I : list T -> Prop) (Q : E -> Prop) (P : Prop) Pre (m : @M T E A) Post :
  (P -> hoare I Q Pre m Post) -> hoare I Q (fun t => P /\ Pre t) m Post.
Proof. intros H t [HP Ht]. by apply (H HP). Qed.

(** ** The loop the three shapes share *)
Section checkpointed.
Context {St : Type} {world : World St} (o : CrewOptions) (key : string) (Hkey : store_key o = Some key).
Context (n : nat) (kd : string) (step : nat -> St -> @M (event St) stop St) (fin : nat -> St -> bool).
Context (tail : St -> @M (event St) stop St).

Fixpoint checkpointed_loop (more i : nat) (cur : St) : @M (event St) stop St :=
  match more with
  | O => tail cur
  | S more =>
      s ← step i cur;
      saveCrewCheckpoint o
        {| kind := kd; status := if fin i s then Agent.Done else Agent.Running; completedSteps := S i; state := s |} ;;
      if fin i s then mret s else checkpointed_loop more (S i) s
  end.
Definition checkpointed (input : St) : @M (event St) stop St :=
  resume_from o input (fun i cur => checkpointed_loop (n - i) i cur).

(** What the steps and the end come to, when each is a function of its input. *)
Context (f : nat -> St -> St) (tail_f : St -> option St).

Fixpoint ideal (more i : nat) (cur : St) : option St :=
  match more with
  | O => tail_f cur
  | S more => let s := f i cur in if fin i s then Some s else ideal more (S i) s
  end.

Context (input : St).

Definition good (t : list (event St)) : Prop :=
  match stored key t with
  | None => True
  | Some c =>
      match status c with
      | Agent.Done => ideal n 0 input = Some (state c)
      | _ => ideal (n - completedSteps c) (completedSteps c) (state c) = ideal n 0 input
      end
  end.

(** How far a run that starts now is from its end. *)
Definition remaining (t : list (event St)) : nat :=
  match stored key t with
  | None => S n
  | Some c => match status c with Agent.Done => 0 | _ => S (n - completedSteps c) end
  end.

Definition within (b : nat) (t : list (event St)) : Prop := good t /\ remaining t <= b.

Lemma within_plain b t e : plain e -> within b t -> within b (t ++ [e]).
Proof. intros He. unfold within, good, remaining. by rewrite (stored_plain key t e He). Qed.
Lemma within_began b t : within b t -> within b (t ++ [Began]).
Proof. unfold within, good, remaining. by rewrite stored_began. Qed.

Context (Hstep : forall i cur t, i < n -> exists e r, step i cur t = (t ++ [e], r) /\ plain e /\ is_run e = true /\ (forall s, r = Ok s -> s = f i cur)).
Context (Htail : forall b cur, hoare (within b) (fun _ => True)
  (fun t => within b t /\ tail_f cur = ideal n 0 input) (tail cur) (fun r t => within b t /\ ideal n 0 input = Some r)).

Lemma hoare_step (I : list (event St) -> Prop) i cur (Pre : list (event St) -> Prop) (Post : St -> list (event St) -> Prop) : i < n ->
  (forall t e, plain e -> is_run e = true -> Pre t -> I t /\ I (t ++ [e]) /\ Post (f i cur) (t ++ [e])) ->
  hoare I (fun _ => True) Pre (step i cur) Post.
Proof.
  intros Hi H t Ht. destruct (Hstep i cur t Hi) as (e & r & E1 & He & Hr & Hs). exists [e]. rewrite E1. cbn [fst snd].
  destruct (H t e He Hr Ht) as (H0 & H1 & H2). split_and!; [done|by apply prefix_one|]. destruct r; [|done].
  by rewrite (Hs _ eq_refl).
Qed.

Lemma hoare_save (I : list (event St) -> Prop) c (Pre : list (event St) -> Prop) (Post : unit -> list (event St) -> Prop) :
  (forall t, Pre t -> I t /\ I (t ++ [Saved key c]) /\ Post tt (t ++ [Saved key c])) ->
  hoare I (fun _ => True) Pre (saveCrewCheckpoint o c) Post.
Proof.
  intros H t Ht. destruct (H t Ht) as (H0 & H1 & H2). unfold saveCrewCheckpoint. rewrite Hkey.
  destruct (save_does t c) as [|s|s]; cbn [fst snd].
  - exists [Saved key c]. split_and!; [done|by apply prefix_one|done].
  - exists [Saved key c]. split_and!; [done|by apply prefix_one|done].
  - exists []. rewrite app_nil_r. split_and!; [done|by apply prefix_nil|done].
Qed.

Lemma within_saved b t i s more :
  ideal (S more) i s = ideal n 0 input -> n - i = S more -> more < b ->
  within b (t ++ [Saved key {| kind := kd; status := if fin i (f i s) then Agent.Done else Agent.Running;
                               completedSteps := S i; state := f i s |}]).
Proof.
  cbn. intros Hi Hn Hb. unfold within, good, remaining. rewrite stored_saved. cbn [status state completedSteps].
  destruct (fin i (f i s)) eqn:Ef.
  - split; [congruence|lia].
  - replace (n - S i) with more by lia. split; [done|lia].
Qed.

(** From any point, a run keeps the checkpoint true and ends as the ideal run does. *)
Lemma loop_within b more : forall i cur, more = n - i -> more <= b ->
  hoare (within b) (fun _ => True) (fun t => within b t /\ ideal more i cur = ideal n 0 input)
    (checkpointed_loop more i cur) (fun r t => within b t /\ ideal n 0 input = Some r).
Proof.
  induction more as [|more IH]; intros i cur Hm Hb; cbn [checkpointed_loop]; [apply Htail|].
  eapply hoare_bind with (Mid := fun s t => s = f i cur /\ within b t /\ ideal (S more) i cur = ideal n 0 input).
  - apply hoare_step; [lia|]. intros t e He Hr [Hw Hi]. pose proof (within_plain b t e He Hw). by split_and!.
  - intros s. apply hoare_pure. intros ->.
    eapply hoare_bind with (Mid := fun _ t => within b t /\ ideal (S more) i cur = ideal n 0 input).
    + apply hoare_save. intros t [Hw Hi]. pose proof (within_saved b t i cur more Hi ltac:(lia) ltac:(lia)). by split_and!.
    + intros _. cbn [ideal]. destruct (fin i (f i cur)) eqn:Ef.
      * apply hoare_ret. intros t [Hw Hi]. by split_and!.
      * apply IH; lia.
Qed.

Lemma resume_within b : n <= b ->
  hoare (within b) (fun _ => True) (within b) (checkpointed input) (fun r t => within b t /\ ideal n 0 input = Some r).
Proof.
  intros Hb. unfold checkpointed, resume_from, loadCrewCheckpoint. rewrite Hkey.
  eapply hoare_bind with (Mid := fun prior t => within b t /\ stored key t = prior).
  - eapply hoare_bind with (Mid := fun _ => within b).
    + apply hoare_attempt. intros t Hw. destruct (load_stops t); [done|].
      pose proof (within_plain b t (Loaded key) I Hw). by split_and!.
    + intros _. by apply hoare_asks.
  - intros [c|].
    + destruct (status c) eqn:Es.
      1,3: eapply hoare_conseq; [apply (loop_within b _ (completedSteps c) (state c) eq_refl); lia| |done];
        intros t [[Hg Hr] Hst]; (split; [by split|]); unfold good in Hg; rewrite Hst, Es in Hg; exact Hg.
      apply hoare_ret. intros t [[Hg Hr] Hst]. split; [by split|]. split; [by split|].
      unfold good in Hg. by rewrite Hst, Es in Hg.
    + eapply hoare_conseq; [apply (loop_within b (n - 0) 0 input eq_refl); lia| |done].
      intros t [Hw _]. rewrite Nat.sub_0_r. by split.
Qed.
Lemma retry_within b more : n <= b ->
  hoare (within b) (fun _ => True) (within b) (retry more (checkpointed input)) (fun r t => within b t /\ ideal n 0 input = Some r).
Proof.
  intros Hb. induction more as [|more IH]; intros t Ht; cbn [retry].
  all: destruct (resume_within b Hb (t ++ [Began]) (within_began b t Ht)) as (new & E1 & Hi & HP).
  all: destruct (checkpointed input (t ++ [Began])) as [t1 [a|e]]; cbn [fst snd] in *; subst t1; rewrite <- !app_assoc in *.
  all: assert (Hp : forall pre post, [Began] ++ new = pre ++ post -> within b (t ++ pre)).
  1,3,5,7: apply prefix_app; [by apply prefix_one; [|apply within_began]|]; exact Hi.
  1-3: by exists ([Began] ++ new).
  destruct (IH (t ++ [Began] ++ new)) as (new2 & E2 & Hi2 & HP2).
  { apply (Hp _ []). by rewrite app_nil_r. }
  exists (([Began] ++ new) ++ new2). split_and!; [|by apply prefix_app|].
  - rewrite E2. by rewrite <- !app_assoc.
  - revert HP2. by rewrite <- !app_assoc.
Qed.

(** *** A run that is left alone for a while gets further *)
Context (d : nat) (Hd : 3 <= d).
Context (Hload : forall t, load_stops t <> None -> d <= since t).
Context (Hsave : forall t c, save_does t c <> Wrote -> d <= since t).
Context (Hlive : forall i cur t e, i < n -> (step i cur t).2 = Err e -> d <= since t).
Context (Htail_live : forall cur t, since t = 1 -> within (S n) t -> tail_f cur = ideal n 0 input -> exists r, (tail cur t).2 = Ok r).

Lemma loop_progress i cur t : since t = 1 -> within (S n) t -> ideal (n - i) i cur = ideal n 0 input ->
  let r := checkpointed_loop (n - i) i cur t in (exists a, r.2 = Ok a) \/ (good r.1 /\ remaining r.1 <= n - i /\ 0 < n - i).
Proof.
  intros Ht Hw Hi. destruct (n - i) as [|more] eqn:En; cbn [checkpointed_loop]; [left; by apply Htail_live|].
  destruct (Hstep i cur t ltac:(lia)) as (e & r & E1 & He & Hr & Hs).
  destruct r as [s|e1]; [|specialize (Hlive i cur t e1 ltac:(lia)); rewrite E1 in Hlive; specialize (Hlive eq_refl); lia].
  rewrite (Hs s eq_refl) in E1. cbv zeta. rewrite (bind_ok _ _ _ _ _ E1).
  set (c := {| kind := kd; status := if fin i (f i cur) then Agent.Done else Agent.Running |}).
  assert (E3 : saveCrewCheckpoint o c (t ++ [e]) = ((t ++ [e]) ++ [Saved key c], Ok tt)).
  { unfold saveCrewCheckpoint. rewrite Hkey. destruct (save_does (t ++ [e]) c) as [|s1|s1] eqn:Esv; [done| |].
    all: assert (d <= since (t ++ [e])) by (eapply Hsave; by rewrite Esv); rewrite since_plain in *; [lia|done]. }
  rewrite (bind_ok _ _ _ _ _ E3).
  pose proof (within_saved (S more) (t ++ [e]) i cur more Hi ltac:(lia) ltac:(lia)) as Hw'. fold c in Hw'.
  destruct (fin i (f i cur)) eqn:Ef; [left; by eexists|]. right.
  destruct (loop_within (S more) more (S i) (f i cur) ltac:(lia) ltac:(lia) ((t ++ [e]) ++ [Saved key c])) as (new & E2 & Hn & _).
  { split; [done|]. cbn [ideal] in Hi. by rewrite Ef in Hi. }
  rewrite E2. destruct (Hn new []) as [Hg Hr']; [by rewrite app_nil_r|]. split_and!; [done..|lia].
Qed.

Lemma run_progress t : good t ->
  let r := checkpointed input (t ++ [Began]) in
  (exists a, r.2 = Ok a) \/ (good r.1 /\ S (remaining r.1) <= remaining t /\ 1 < remaining t).
Proof.
  intros Hg. assert (Hw : within (S n) t).
  { split; [done|]. unfold remaining. destruct (stored key t) as [c|]; [destruct (status c)|]; lia. }
  unfold checkpointed, resume_from, loadCrewCheckpoint. rewrite Hkey.
  destruct (load_stops (t ++ [Began])) as [e|] eqn:El.
  { pose proof (Hload (t ++ [Began])) as H. rewrite El, since_began in H. specialize (H ltac:(done)). lia. }
  unfold mbind, M_bind, attempt, asks. rewrite El.
  set (t1 := (t ++ [Began]) ++ [Loaded key]).
  assert (Hs1 : since t1 = 1) by (unfold t1; by rewrite since_plain, since_began).
  assert (Hw1 : within (S n) t1) by (by apply within_plain, within_began).
  assert (E1 : stored key t1 = stored key t) by (unfold t1; by rewrite stored_plain, stored_began). rewrite E1.
  unfold good, remaining in Hg |- *. destruct (stored key t) as [c|].
  - destruct (status c) eqn:Es; [|left; by eexists|].
    all: destruct (loop_progress (completedSteps c) (state c) t1 Hs1 Hw1 Hg) as [?|(? & Hr & ?)]; [by left|right; split; [done|]].
    all: unfold remaining in Hr; lia.
  - destruct (loop_progress 0 input t1 Hs1 Hw1 ltac:(by rewrite Nat.sub_0_r)) as [?|(? & Hr & ?)]; [by left|right; split; [done|]].
    unfold remaining in Hr. lia.
Qed.

Lemma retry_returns more : forall t, good t -> remaining t <= S more -> exists a, (retry more (checkpointed input) t).2 = Ok a.
Proof.
  induction more as [|more IH]; intros t Hg Hr; cbn [retry].
  all: pose proof (run_progress t Hg) as Hp; destruct (checkpointed input (t ++ [Began])) as [t1 [a|e]]; [by eexists|].
  all: destruct Hp as [[? [=]]|(Hg1 & Hr1 & Hr2)]; cbn [fst snd] in *.
  - lia.
  - apply IH; [done|lia].
Qed.
End checkpointed.

(** ** Work is not repeated *)
Section work.
Context {St : Type} {world : World St} (o : CrewOptions) (key : string) (Hkey : store_key o = Some key).
Context (n : nat) (kd : string) (step : nat -> St -> @M (event St) stop St) (fin : nat -> St -> bool).
Context (tail : St -> @M (event St) stop St) (input : St).
Context (Hrun : forall i cur t, i < n -> exists e r, step i cur t = (t ++ [e], r) /\ plain e /\ is_run e = true).


(** The runs so far and those that are left. *)
Definition work (t : list (event St)) : nat := runs t + pred (remaining key n t).

Lemma work_plain t e : plain e -> work (t ++ [e]) = work t + (if is_run e then 1 else 0).
Proof. intros He. unfold work, remaining. rewrite (stored_plain key t e He), runs_snoc. lia. Qed.

Context (Htail_work : forall b cur, hoare (fun t => work t <= S b) (fun _ => True) (fun t => work t <= b) (tail cur) (fun _ t => work t <= b)).

Lemma loop_work b more : forall i cur, more = n - i ->
  hoare (fun t => work t <= S b) (fun _ => True) (fun t => work t <= b /\ runs t + more <= b)
    (checkpointed_loop o kd step fin tail more i cur) (fun _ t => work t <= b).
Proof.
  induction more as [|more IH]; intros i cur Hm; cbn [checkpointed_loop].
  { eapply hoare_conseq; [apply (Htail_work b cur)|by intros t [H _]|done]. }
  eapply hoare_bind with (Mid := fun s t => work t <= S b /\ runs t + more <= b).
  - intros t [Hw Hb]. destruct (Hrun i cur t ltac:(lia)) as (e & r & E1 & He & Hr). exists [e]. rewrite E1. cbn [fst snd].
    pose proof (work_plain t e He) as Hw'. rewrite Hr in Hw'. split_and!; [done|apply (prefix_one (fun t => work t <= S b)); lia|].
    destruct r; [|done]. rewrite runs_snoc, Hr. lia.
  - intros s. eapply hoare_bind with (Mid := fun _ t => work t <= b /\ runs t + more <= b).
    + apply (hoare_save o key Hkey). intros t [Hw Hb].
      assert (work (t ++ [Saved key {| kind := kd; status := if fin i s then Agent.Done else Agent.Running; completedSteps := S i; state := s |}]) <= b
              /\ runs (t ++ [Saved key {| kind := kd; status := if fin i s then Agent.Done else Agent.Running; completedSteps := S i; state := s |}]) + more <= b).
      { unfold work, remaining. rewrite stored_saved, runs_snoc. cbn. destruct (fin i s); cbn; lia. }
      split_and!; lia.
    + intros _. destruct (fin i s); [apply hoare_ret; intros t []; split; lia|apply IH; lia].
Qed.

Lemma resume_work b :
  hoare (fun t => work t <= S b) (fun _ => True) (fun t => work t <= b) (checkpointed o n kd step fin tail input) (fun _ t => work t <= b).
Proof.
  unfold checkpointed, resume_from, loadCrewCheckpoint. rewrite Hkey.
  eapply hoare_bind with (Mid := fun prior t => work t <= b /\ stored key t = prior).
  - eapply hoare_bind with (Mid := fun _ t => work t <= b).
    + apply hoare_attempt. intros t Hw. split; [lia|]. destruct (load_stops t); [done|].
      rewrite work_plain; [|done]. cbn. lia.
    + intros _. apply hoare_asks. intros t Hw. split_and!; [lia|done..].
  - intros [c|].
    + destruct (status c) eqn:Es.
      1,3: eapply hoare_conseq; [apply (loop_work b _ (completedSteps c) (state c) eq_refl)| |done];
        intros t [Hw Hst]; (split; [done|]); unfold work, remaining in Hw; rewrite Hst, Es in Hw; cbn in Hw; lia.
      apply hoare_ret. intros t [Hw _]. split; lia.
    + eapply hoare_conseq; [apply (loop_work b (n - 0) 0 input eq_refl)| |done].
      intros t [Hw Hst]. split; [done|]. unfold work, remaining in Hw. rewrite Hst in Hw. cbn in Hw. lia.
Qed.

Lemma retry_work more : forall t b, work t <= b ->
  let r := retry more (checkpointed o n kd step fin tail input) t in work r.1 <= b + more + match r.2 with Ok _ => 0 | Err _ => 1 end.
Proof.
  induction more as [|more IH]; intros t b Hb; cbn [retry].
  all: assert (Hb' : work (t ++ [Began]) <= b) by
    (unfold work, remaining in *; rewrite stored_began, runs_snoc; cbn; lia).
  all: destruct (resume_work b _ Hb') as (new & E1 & Hi & HP).
  all: destruct (checkpointed o n kd step fin tail input (t ++ [Began])) as [t1 [a|e]]; cbn [fst snd] in *; subst t1; [lia|].
  all: specialize (Hi new [] ltac:(by rewrite app_nil_r)).
  - cbn [fst snd]. lia.
  - specialize (IH ((t ++ [Began]) ++ new) (S b) Hi). cbn [fst snd] in *. destruct (retry more _ _) as [t2 [a|e2]]; cbn [fst snd] in *; lia.
Qed.
End work.


Lemma retry_ext {St A} (m m' : @M (event St) stop A) more : (forall t, m t = m' t) -> forall t, retry more m t = retry more m' t.
Proof. intros H. induction more as [|more IH]; intros t; cbn [retry]; rewrite H; [done|]. destruct (m' _) as [t1 [|]]; [done|apply IH]. Qed.

Lemma resume_ext {St} {world : World St} o (input : St) (loop loop' : nat -> St -> @M (event St) stop St) t :
  (forall i cur t, loop i cur t = loop' i cur t) -> resume_from o input loop t = resume_from o input loop' t.
Proof. intros H. unfold resume_from. apply bind_ext. intros [c|] t'; [destruct (status c); [apply H|done|apply H]|apply H]. Qed.

Lemma hoare_tail_ret {St} (I Pre : list (event St) -> Prop) (Post : St -> list (event St) -> Prop) (cur : St) :
  (forall t, Pre t -> I t /\ Post cur t) -> hoare (E:=stop) I (fun _ => True) Pre (mret cur) Post.
Proof. apply hoare_ret. Qed.

(** ** Worlds that leave a run alone for a while *)

(** The store answers every call before the [d]-th event of a run. *)
Record patient {St} {world : World St} (d : nat) : Prop := {
  loads : forall t, load_stops t <> None -> d <= since t;
  saves : forall t c, save_does t c <> Wrote -> d <= since t
}.

(** What is asked says what [said] is when it answers, and does not answer only
    from the [d]-th event of a run on; with [d] = 0 it may always fail to. *)
Definition speaks {St A} (d : nat) (ask : list (event St) -> result stop A) (said : A) : Prop :=
  forall t, match ask t with Ok x => x = said | Err _ => d <= since t end.

(** ** The chain *)
Section sequential.
Context {world : World string} (o : CrewOptions) (s : StructuredOutputRunOptions) (agents : list (Member string)) (input : string).
Context (says : Member string -> string -> string).

Definition seq_step (i : nat) (cur : string) : @M (event string) stop string :=
  match agents !! i with Some a => ask a cur (runId o) | None => mret cur end.
Definition seq_fin (i : nat) (_ : string) : bool :=
  Nat.eqb i (length agents - 1) && negb (bool_decide (is_Some (responseSchema s))).
Definition seq_f (i : nat) (cur : string) : string := match agents !! i with Some a => says a cur | None => cur end.

(** What the repairs come to. *)
Fixpoint repaired (more : nat) (a : Member string) (current : string) (schema : Agent.Schema) : option string :=
  match parse_output current schema, more with
  | Err _, _ => None
  | Ok (Ok _), _ => Some current
  | Ok (Err e), O => None
  | Ok (Err e), S more => repaired more a (says a (Agent.structuredOutputRepairPrompt e)) schema
  end.
Definition seq_tail (cur : string) : option string :=
  match responseSchema s, last agents with
  | Some schema, Some a => repaired (or_default 2 (maxRepairAttempts s)) a cur schema
  | _, _ => Some cur
  end.

(** What a chain of agents says, with nothing saved and nothing going wrong. *)
Definition chain_says : option string := seq_tail (foldl (fun cur a => says a cur) input agents).

Lemma seq_loop more : forall i cur t, more = length agents - i ->
  (sequential_loop o s (length agents) (drop i agents) i cur ≫= sequential_repair o s agents) t
  = checkpointed_loop o "sequential" seq_step seq_fin (sequential_repair o s agents) more i cur t.
Proof.
  induction more as [|more IH]; intros i cur t Hm.
  - by rewrite drop_ge by lia.
  - destruct (lookup_lt_is_Some_2 agents i ltac:(lia)) as [a Ha]. rewrite (drop_S _ _ _ Ha). cbn [sequential_loop checkpointed_loop].
    rewrite bind_assoc.
    replace (seq_step i cur) with (ask a cur (runId o)) by (unfold seq_step; by rewrite Ha). apply bind_ext. intros text t1. rewrite bind_assoc. apply bind_ext.
    intros _ t2. destruct (seq_fin i text) eqn:Ef; [|by apply IH; lia].
    apply andb_true_iff in Ef as [Ei%Nat.eqb_eq Es]. rewrite drop_ge by lia. cbn. unfold sequential_repair.
    destruct (responseSchema s); [discriminate Es|done].
Qed.

Lemma sequential_checkpointed t : sequential agents o s input t
  = checkpointed o (length agents) "sequential" seq_step seq_fin (sequential_repair o s agents) input t.
Proof. apply resume_ext. intros i cur t'. by apply seq_loop. Qed.

Lemma seq_ideal more : forall i cur, more = length agents - i ->
  ideal seq_fin seq_f seq_tail more i cur = seq_tail (foldl (fun cur a => says a cur) cur (drop i agents)).
Proof.
  induction more as [|more IH]; intros i cur Hm.
  - by rewrite drop_ge by lia.
  - destruct (lookup_lt_is_Some_2 agents i ltac:(lia)) as [a Ha]. rewrite (drop_S _ _ _ Ha). cbn [ideal foldl].
    rewrite (IH (S i)) by lia. replace (seq_f i cur) with (says a cur) by (unfold seq_f; by rewrite Ha).
    destruct (seq_fin i _) eqn:Ef; [|done].
    apply andb_true_iff in Ef as [Ei%Nat.eqb_eq Es]. rewrite drop_ge by lia. cbn. unfold seq_tail.
    destruct (responseSchema s); [discriminate Es|done].
Qed.

Context (key : string) (Hkey : store_key o = Some key).
Context (d : nat) (Hsays : forall a cur, a ∈ agents -> speaks d (fun t => answer a t cur (runId o)) (says a cur)).

Lemma said a t cur x : a ∈ agents -> answer a t cur (runId o) = Ok x -> x = says a cur.
Proof. intros Ha Hx. pose proof (Hsays a cur Ha t) as H. cbn in H. by rewrite Hx in H. Qed.

Lemma seq_steps i cur t : i < length agents -> exists e r, seq_step i cur t = (t ++ [e], r) /\ plain e /\ is_run e = true /\
  (forall x, r = Ok x -> x = seq_f i cur).
Proof.
  intros Hi. destruct (lookup_lt_is_Some_2 agents i Hi) as [a Ha]. unfold seq_step, seq_f. rewrite Ha.
  eexists _, _. split; [reflexivity|]. split_and!; [done..|]. intros x. apply said. by eapply list_elem_of_lookup_2.
Qed.

Abbreviation sgood := (good key (length agents) seq_fin seq_f seq_tail input).
Abbreviation swithin := (within key (length agents) seq_fin seq_f seq_tail input).
Abbreviation sideal := (ideal seq_fin seq_f seq_tail (length agents) 0 input).

Lemma repair_within b a schema max : a ∈ agents -> forall more cur,
  hoare (swithin b) (fun _ => True) (swithin b) (repair_loop more a cur schema max (runId o) "Crew.sequential")
    (fun r t => swithin b t /\ repaired more a cur schema = Some r).
Proof.
  intros Ha more. induction more as [|more IH]; intros cur; cbn [repair_loop repaired].
  all: eapply hoare_bind with (Mid := fun p t => parse_output cur schema = Ok p /\ swithin b t);
    [apply hoare_lift; intros t Ht; split; [done|by destruct (parse_output cur schema)]|].
  all: intros [v|e]; apply hoare_pure; intros ->; cbn.
  1,3: by apply hoare_ret.
  - by apply hoare_fail.
  - eapply hoare_bind with (Mid := fun x t => x = says a (Agent.structuredOutputRepairPrompt e) /\ swithin b t);
      [|intros x; apply hoare_pure; intros ->; apply IH].
    apply hoare_emit. intros t Ht. assert (swithin b (t ++ [Ran (name a) (Agent.structuredOutputRepairPrompt e) (runId o)])) by by apply within_plain.
    split_and!; [done..|]. destruct (answer a t _ _) eqn:Ea; [|done]. split; [|done]. by apply said in Ea.
Qed.

Lemma seq_tail_within b cur : hoare (swithin b) (fun _ => True)
  (fun t => swithin b t /\ seq_tail cur = sideal) (sequential_repair o s agents cur) (fun r t => swithin b t /\ sideal = Some r).
Proof.
  assert (E1 : seq_tail cur = match responseSchema s, last agents with
    | Some schema, Some a => repaired (or_default 2 (maxRepairAttempts s)) a cur schema | _, _ => Some cur end) by done.
  rewrite E1. unfold sequential_repair. destruct (responseSchema s) as [schema|], (last agents) as [a|] eqn:Ea.
  2-4: apply hoare_ret; intros t [Hw Hr]; by split_and!.
  eapply hoare_conseq with (Pre := fun t => repaired (or_default 2 (maxRepairAttempts s)) a cur schema = sideal /\ swithin b t);
    [|by intros t [? ?]; split|intros r t H; exact H].
  apply hoare_pure. intros Hr. eapply hoare_bind; [by apply repair_within, last_Some_elem_of|].
  intros x. eapply hoare_conseq with (Pre := fun t => repaired (or_default 2 (maxRepairAttempts s)) a cur schema = Some x /\ swithin b t);
      [|by intros t [? ?]; split|intros r t H; exact H].
  apply hoare_pure. intros Hx. rewrite Hr in Hx. eapply hoare_bind with (Mid := fun _ => swithin b).
  - apply (hoare_save o key Hkey). intros t Ht.
      assert (swithin b (t ++ [Saved key {| kind := "sequential"; status := Agent.Done; completedSteps := length agents; state := x |}])).
      { unfold within, good, remaining. rewrite stored_saved. cbn. split; [done|lia]. }
      by split_and!.
  - intros _. by apply hoare_ret.
Qed.

Lemma seq_live i cur t e : i < length agents -> (seq_step i cur t).2 = Err e -> d <= since t.
Proof.
  intros Hi. destruct (lookup_lt_is_Some_2 agents i Hi) as [a Ha]. unfold seq_step. rewrite Ha. cbn. intros He.
  pose proof (Hsays a cur ltac:(by eapply list_elem_of_lookup_2) t) as H. cbn in H. by rewrite He in H.
Qed.

Lemma repair_live a schema max t0 : a ∈ agents -> forall more cur r t, repaired more a cur schema = Some r ->
  (forall k, k < more -> t0 + k < d) -> since t = t0 ->
  exists t1, repair_loop more a cur schema max (runId o) "Crew.sequential" t = (t1, Ok r) /\ since t1 <= t0 + more.
Proof.
  intros Ha more. revert t0. induction more as [|more IH]; intros t0 cur r t Hr Hd Ht; cbn [repair_loop repaired] in *.
  all: unfold mbind, M_bind, lift; destruct (parse_output cur schema) as [[v|e]|]; try discriminate Hr.
  1,2: injection Hr as <-; exists t; split; [done|lia].
  pose proof (Hsays a (Agent.structuredOutputRepairPrompt e) Ha t) as Hx. cbn in Hx. unfold ask, emit.
  destruct (answer a t _ _) as [x|e1]; [|specialize (Hd 0); lia]. rewrite Hx.
  destruct (IH (S t0) _ r (t ++ [Ran (name a) (Agent.structuredOutputRepairPrompt e) (runId o)]) Hr) as (t1 & E1 & Hs).
  - intros k Hk. specialize (Hd (S k)). lia.
  - rewrite since_plain by done. lia.
  - exists t1. split; [exact E1|lia].
Qed.

Lemma seq_tail_live cur t r : (is_Some (responseSchema s) -> 2 + or_default 2 (maxRepairAttempts s) <= d) -> patient d ->
  since t = 1 -> seq_tail cur = Some r -> exists r', (sequential_repair o s agents cur t).2 = Ok r'.
Proof.
  intros Hd Hp Ht. unfold seq_tail, sequential_repair. destruct (responseSchema s) as [schema|]; [|by eexists].
  specialize (Hd ltac:(by eexists)). destruct (last agents) as [a|] eqn:Ea; [|by eexists]. intros Hr.
  destruct (repair_live a schema (or_default 2 (maxRepairAttempts s)) 1 ltac:(by apply last_Some_elem_of) _ cur r t Hr) as (t1 & E1 & Hs);
    [lia|done|].
  rewrite (bind_ok _ _ _ _ _ E1). unfold mbind, M_bind, saveCrewCheckpoint. rewrite Hkey.
  destruct (save_does t1 _) eqn:Esv; [by eexists| |].
  all: pose proof (saves _ Hp t1 _ ltac:(by rewrite Esv)); lia.
Qed.

Lemma chain_resumes more t r : stored key t = None ->
  (retry more (sequential agents o s input) t).2 = Ok r -> chain_says = Some r.
Proof.
  intros Ht Hr. rewrite (retry_ext _ _ _ sequential_checkpointed) in Hr.
  destruct (retry_within o key Hkey (length agents) "sequential" seq_step seq_fin (sequential_repair o s agents) seq_f seq_tail
    input seq_steps seq_tail_within (S (length agents)) more ltac:(lia) t) as (new & _ & _ & HP).
  { unfold within, good, remaining. rewrite Ht. split; [done|lia]. }
  rewrite Hr in HP. destruct HP as [_ HP]. unfold chain_says. rewrite <- HP. symmetry. apply seq_ideal. lia.
Qed.

Lemma chain_finishes t r : 3 <= d -> (is_Some (responseSchema s) -> 2 + or_default 2 (maxRepairAttempts s) <= d) -> patient d ->
  stored key t = None -> chain_says = Some r -> (retry (length agents) (sequential agents o s input) t).2 = Ok r.
Proof.
  intros Hd Hd' Hp Ht Hr.
  assert (Hi : sideal = Some r) by (rewrite <- Hr; apply seq_ideal; lia).
  destruct (retry_returns o key Hkey (length agents) "sequential" seq_step seq_fin (sequential_repair o s agents) seq_f seq_tail
    input seq_steps seq_tail_within d Hd (loads _ Hp) (saves _ Hp) seq_live) with (more := length agents) (t := t) as [a Ha].
  - intros cur t1 H1 _ Hc. rewrite Hi in Hc. by eapply seq_tail_live.
  - unfold good. by rewrite Ht.
  - unfold remaining. by rewrite Ht.
  - rewrite (retry_ext _ _ _ sequential_checkpointed), Ha. f_equal.
    rewrite <- (retry_ext _ _ _ sequential_checkpointed) in Ha. apply chain_resumes in Ha; [congruence|done].
Qed.
End sequential.

(** ** The shapes that end with their last step *)
Section plain.
Context {St : Type} {world : World St} (o : CrewOptions) (key : string) (Hkey : store_key o = Some key) (kd : string).
Context (n : nat) (step : nat -> St -> @M (event St) stop St) (fin : nat -> St -> bool) (f : nat -> St -> St) (input : St) (d : nat).
Context (Hstep : forall i cur t, i < n -> exists e r, step i cur t = (t ++ [e], r) /\ plain e /\ is_run e = true /\
  match r with Ok s => s = f i cur | Err _ => d <= since t end).

Lemma plain_steps i cur t : i < n -> exists e r, step i cur t = (t ++ [e], r) /\ plain e /\ is_run e = true /\ (forall s, r = Ok s -> s = f i cur).
Proof. intros Hi. destruct (Hstep i cur t Hi) as (e & r & E1 & He & Hr & Hs). exists e, r. split_and!; [done..|]. by intros s ->. Qed.

Lemma plain_tail b cur : hoare (within key n fin f Some input b) (fun _ => True)
  (fun t => within key n fin f Some input b t /\ Some cur = ideal fin f Some n 0 input) (mret (M := @M (event St) stop) cur)
  (fun r t => within key n fin f Some input b t /\ ideal fin f Some n 0 input = Some r).
Proof. apply hoare_ret. intros t [Hw Hr]. by split_and!. Qed.

Lemma plain_resumes more t r : stored key t = None ->
  (retry more (checkpointed o n kd step fin mret input) t).2 = Ok r -> ideal fin f Some n 0 input = Some r.
Proof.
  intros Ht Hr. destruct (retry_within o key Hkey n kd step fin mret f Some input plain_steps plain_tail (S n) more ltac:(lia) t)
    as (new & _ & _ & HP).
  { unfold within, good, remaining. rewrite Ht. split; [done|lia]. }
  rewrite Hr in HP. by destruct HP.
Qed.

Lemma plain_finishes t : 3 <= d -> patient d -> stored key t = None ->
  exists r, (retry n (checkpointed o n kd step fin mret input) t).2 = Ok r /\ ideal fin f Some n 0 input = Some r.
Proof.
  intros Hd Hp Ht.
  destruct (retry_returns o key Hkey n kd step fin mret f Some input plain_steps plain_tail d Hd (loads _ Hp) (saves _ Hp))
    with (more := n) (t := t) as [a Ha].
  - intros i cur t1 e Hi He. destruct (Hstep i cur t1 Hi) as (e1 & r & E1 & _ & _ & Hs). rewrite E1 in He. cbn in He. by subst r.
  - intros cur t1 _ _ _. by eexists.
  - unfold good. by rewrite Ht.
  - unfold remaining. by rewrite Ht.
  - exists a. split; [exact Ha|]. by eapply plain_resumes.
Qed.

End plain.

Lemma plain_work {St} {world : World St} o key (Hkey : store_key o = Some key) n kd (step : nat -> St -> @M (event St) stop St) fin input more t :
  (forall i cur t, i < n -> exists e r, step i cur t = (t ++ [e], r) /\ plain e /\ is_run e = true) -> stored key t = None ->
  let r := retry more (checkpointed o n kd step fin mret input) t in
  runs r.1 <= runs t + n + more + match r.2 with Ok _ => 0 | Err _ => 1 end.
Proof.
  intros Hrun Ht. assert (Hw : work key n t <= runs t + n) by (unfold work, remaining; rewrite Ht; cbn; lia).
  pose proof (retry_work o key Hkey n kd step fin mret input Hrun ltac:(intros; apply hoare_ret; lia) more t _ Hw) as H.
  cbn in *. unfold work in H. lia.
Qed.

(** ** The loop *)
Section loop.
Context {world : World string} (o : CrewOptions) (a : Member string) (until : string -> nat -> bool) (input : string).
Context (says : string -> string).

(** What an agent run again and again says. *)
Fixpoint loop_says (more i : nat) (cur : string) : string :=
  match more with
  | O => cur
  | S more => let s := says cur in if until s i then s else loop_says more (S i) s
  end.

Definition loop_fin (i : nat) (s : string) : bool := until s i.

Lemma loop_checkpointed max t : loopUntil o a until max input t
  = checkpointed o (or_default 10 max) "loopUntil" (fun _ cur => ask a cur (runId o)) loop_fin mret input t.
Proof.
  apply resume_ext. intros i cur t1. generalize (or_default 10 max - i) as more. intros more. revert i cur t1.
  induction more as [|more IH]; intros i cur t1; cbn [loopUntil_loop checkpointed_loop]; [done|].
  apply bind_ext. intros text t2. apply bind_ext. intros _ t3. unfold loop_fin. destruct (until text i); [done|apply IH].
Qed.

Lemma loop_ideal more : forall i cur, ideal loop_fin (fun _ => says) Some more i cur = Some (loop_says more i cur).
Proof.
  induction more as [|more IH]; intros i cur; cbn [ideal loop_says]; [done|]. unfold loop_fin at 1. destruct (until _ _); [done|apply IH].
Qed.

Context (d : nat) (Hsays : forall cur, speaks d (fun t => answer a t cur (runId o)) (says cur)).

Lemma loop_steps n i cur t : i < n -> exists e r, ask a cur (runId o) t = (t ++ [e], r) /\ plain e /\ is_run e = true /\
  match r with Ok x => x = says cur | Err _ => d <= since t end.
Proof. intros _. eexists _, _. split; [reflexivity|]. split_and!; [done..|]. apply Hsays. Qed.
End loop.

(** ** The pipeline *)
Section pipe.
Context {V : Type} {world : World (list (string * V))} (o : CrewOptions).
Context (steps : list (list (event (list (string * V))) -> list (string * V) -> option string -> result stop (list (string * V)))).
Context (input : list (string * V)) (updates : nat -> list (string * V) -> list (string * V)).

(** What the steps make of a state. *)
Definition pipe_says : list (string * V) :=
  foldl (fun st i => spread_into (updates i st) st) input (seq 0 (length steps)).

Definition pipe_step (i : nat) (st : list (string * V)) : @M (event (list (string * V))) stop (list (string * V)) := fun t =>
  (t ++ [Stepped i st], match steps !! i with
                        | Some step => match step t st (runId o) with Ok u => Ok (spread_into u st) | Err e => Err e end
                        | None => Err Crashed
                        end).
Definition pipe_fin (i : nat) (_ : list (string * V)) : bool := Nat.eqb i (length steps - 1).
Definition pipe_f (i : nat) (st : list (string * V)) : list (string * V) := spread_into (updates i st) st.

Lemma pipe_loop more : forall i st t, more = length steps - i ->
  pipeline_loop o (length steps) (drop i steps) i st t = checkpointed_loop o "pipeline" pipe_step pipe_fin mret more i st t.
Proof.
  induction more as [|more IH]; intros i st t Hm.
  - by rewrite drop_ge by lia.
  - destruct (lookup_lt_is_Some_2 steps i ltac:(lia)) as [k Hk]. rewrite (drop_S _ _ _ Hk). cbn [pipeline_loop checkpointed_loop].
    unfold mbind at 1 3, M_bind at 1 3, emit, pipe_step at 1. rewrite Hk.
    destruct (k t st (runId o)) as [u|e]; [|done]. apply bind_ext. intros _ t2.
    fold (pipe_fin i (spread_into u st)). destruct (pipe_fin i (spread_into u st)) eqn:Ef; [|by apply IH; lia].
    apply Nat.eqb_eq in Ef. by rewrite drop_ge by lia.
Qed.

Lemma pipe_checkpointed t : pipeline steps o input t = checkpointed o (length steps) "pipeline" pipe_step pipe_fin mret input t.
Proof. apply resume_ext. intros i cur t'. by apply pipe_loop. Qed.

Lemma pipe_ideal more : forall i st, more = length steps - i ->
  ideal pipe_fin pipe_f Some more i st = Some (foldl (fun st i => spread_into (updates i st) st) st (seq i more)).
Proof.
  induction more as [|more IH]; intros i st Hm; cbn [ideal seq foldl]; [done|].
  destruct (pipe_fin i (pipe_f i st)) eqn:Ef; [|by apply IH; lia].
  apply Nat.eqb_eq in Ef. by replace more with 0 by lia.
Qed.

Context (d : nat) (Hsays : forall i k st, steps !! i = Some k -> speaks d (fun t => k t st (runId o)) (updates i st)).

Lemma pipe_steps i cur t : i < length steps -> exists e r, pipe_step i cur t = (t ++ [e], r) /\ plain e /\ is_run e = true /\
  match r with Ok x => x = pipe_f i cur | Err _ => d <= since t end.
Proof.
  intros Hi. destruct (lookup_lt_is_Some_2 steps i Hi) as [k Hk]. eexists _, _. split; [reflexivity|]. split_and!; [done..|].
  rewrite Hk. pose proof (Hsays i k cur Hk t) as H. cbn in H. destruct (k t cur (runId o)); [by rewrite H|done].
Qed.
End pipe.

(** ** Theorems *)

(** [C3] However often a chain, a loop or a pipeline is stopped, by a crash or
    by an error, at any moment and after any part of a step, and is run again
    under the same id: when a run returns, it returns what one undisturbed run
    would have, provided the agents and steps are functions of their input. *)
Theorem crew_resumes {world : World string} {V} {world' : World (list (string * V))} (o : CrewOptions) key (Hkey : store_key o = Some key) more :
  (forall agents s says input t r, stored key t = None ->
     (forall a cur, a ∈ agents -> speaks 0 (fun t => answer a t cur (runId o)) (says a cur)) ->
     (retry more (sequential agents o s input) t).2 = Ok r -> chain_says s agents input says = Some r) /\
  (forall a until max says input t r, stored key t = None ->
     (forall cur, speaks 0 (fun t => answer a t cur (runId o)) (says cur)) ->
     (retry more (loopUntil o a until max input) t).2 = Ok r -> r = loop_says until says (or_default 10 max) 0 input) /\
  (forall steps updates input t r, stored key t = None ->
     (forall i k st, steps !! i = Some k -> speaks 0 (fun t => k t st (runId o)) (updates i st)) ->
     (retry more (pipeline (V:=V) steps o input) t).2 = Ok r -> r = pipe_says steps input updates).
Proof.
  split_and!.
  - intros agents s says input t r Ht Hs. by apply (chain_resumes o s agents input says key Hkey 0 Hs).
  - intros a until max says input t r Ht Hs Hr. rewrite (retry_ext _ _ _ (loop_checkpointed o a until input max)) in Hr.
    apply (plain_resumes o key Hkey _ _ _ _ (fun _ => says) _ 0) in Hr; [|by intros; eapply loop_steps|done].
    rewrite loop_ideal in Hr. congruence.
  - intros steps updates input t r Ht Hs Hr. rewrite (retry_ext _ _ _ (pipe_checkpointed o steps input)) in Hr.
    apply (plain_resumes o key Hkey _ _ _ _ (pipe_f updates) _ 0) in Hr; [|by intros; eapply pipe_steps|done].
    rewrite (pipe_ideal steps updates (length steps) 0) in Hr by lia. unfold pipe_says. congruence.
Qed.

(** [C2] A crew that is run again gets to its end: when the first three calls
    of every run succeed (and, for a chain with a response schema, as many as
    the repairs take), a chain of [n] agents has answered after [n] + 1 runs,
    and so has a loop of at most [n] turns and a pipeline of [n] steps,
    whatever goes wrong after those calls. *)
Theorem crew_finishes {world : World string} {V} {world' : World (list (string * V))} (o : CrewOptions) key (Hkey : store_key o = Some key) d
    (Hd : 3 <= d) (Hp : patient (world := world) d) (Hp' : patient (world := world') d) :
  (forall agents s says input t r, stored key t = None ->
     (forall a cur, a ∈ agents -> speaks d (fun t => answer a t cur (runId o)) (says a cur)) ->
     (is_Some (responseSchema s) -> 2 + or_default 2 (maxRepairAttempts s) <= d) ->
     chain_says s agents input says = Some r -> (retry (length agents) (sequential agents o s input) t).2 = Ok r) /\
  (forall a until max says input t, stored key t = None ->
     (forall cur, speaks d (fun t => answer a t cur (runId o)) (says cur)) ->
     (retry (or_default 10 max) (loopUntil o a until max input) t).2 = Ok (loop_says until says (or_default 10 max) 0 input)) /\
  (forall steps updates input t, stored key t = None ->
     (forall i k st, steps !! i = Some k -> speaks d (fun t => k t st (runId o)) (updates i st)) ->
     (retry (length steps) (pipeline (V:=V) steps o input) t).2 = Ok (pipe_says steps input updates)).
Proof.
  split_and!.
  - intros agents s says input t r Ht Hs Hd' Hr. by apply (chain_finishes o s agents input says key Hkey d Hs).
  - intros a until max says input t Ht Hs. rewrite (retry_ext _ _ _ (loop_checkpointed o a until input max)).
    destruct (plain_finishes o key Hkey "loopUntil" (or_default 10 max) _ (loop_fin until) (fun _ => says) input d
      (loop_steps o a says d Hs _) t Hd Hp Ht) as (r & E1 & Hr).
    etrans; [exact E1|]. rewrite loop_ideal in Hr. by injection Hr as ->.
  - intros steps updates input t Ht Hs. rewrite (retry_ext _ _ _ (pipe_checkpointed o steps input)).
    destruct (plain_finishes o key Hkey "pipeline" (length steps) _ (pipe_fin steps) (pipe_f updates) input d
      (pipe_steps o steps updates d Hs) t Hd Hp' Ht) as (r & E1 & Hr).
    etrans; [exact E1|]. rewrite (pipe_ideal steps updates (length steps) 0) in Hr by lia. by injection Hr as <-.
Qed.

(** [C39] A step that was saved is not run again: with [more] runs more, a loop
    of at most [n] turns and a pipeline of [n] steps run at most [n] + [more] + 1
    steps in all, one for every run that was stopped, whatever the agents say. *)
Theorem crew_work {world : World string} {V} {world' : World (list (string * V))} (o : CrewOptions) key (Hkey : store_key o = Some key) more :
  (forall a until max input t, stored key t = None ->
     let r := retry more (loopUntil o a until max input) t in
     runs r.1 <= runs t + or_default 10 max + more + match r.2 with Ok _ => 0 | Err _ => 1 end) /\
  (forall steps input t, stored key t = None ->
     let r := retry more (pipeline (V:=V) steps o input) t in
     runs r.1 <= runs t + length steps + more + match r.2 with Ok _ => 0 | Err _ => 1 end).
Proof.
  split.
  - intros a until max input t Ht. cbv zeta. rewrite (retry_ext _ _ _ (loop_checkpointed o a until input max)).
    apply (plain_work o key Hkey); [|done]. intros i cur t1 _. by eexists _, _.
  - intros steps input t Ht. cbv zeta. rewrite (retry_ext _ _ _ (pipe_checkpointed o steps input)).
    apply (plain_work o key Hkey); [|done]. intros i cur t1 _. by eexists _, _.
Qed.

(** A checkpoint is not asked what kind of crew saved it: a chain whose id a
    finished loop had used answers with the loop's answer and asks no agent. *)
Theorem kind_is_not_checked {world : World string} o key agents s input t c :
  store_key o = Some key -> stored key t = Some c -> status c = Agent.Done -> load_stops t = None ->
  sequential agents o s input t = (t ++ [Loaded key], Ok (state c)).
Proof.
  intros Hk Hc Hd Hl. unfold sequential, resume_from, loadCrewCheckpoint. rewrite Hk. unfold mbind, M_bind, attempt, asks.
  rewrite Hl. cbn. rewrite stored_plain by done. by rewrite Hc, Hd.
Qed.

(** ** Ids *)

Lemma id_chars s : Str.any (Ascii.eqb ":") (Str.map (fun c => if id_char c then c else "_"%char) s) = false.
Proof.
  induction s as [|c s IH]; [done|]. cbn [Str.map Str.any]. rewrite IH, orb_false_r.
  destruct (Ascii.eqb_spec ":" (if id_char c then c else "_"%char)) as [E1|]; [|done].
  destruct (id_char c) eqn:Ec; [subst c; vm_compute in Ec; discriminate Ec|discriminate E1].
Qed.

Lemma digits_colonless s : Str.all Str.is_digit s = true -> Str.any (Ascii.eqb ":") s = false.
Proof.
  intros H. rewrite StrFacts.any_negb_all. apply negb_false_iff. revert H. apply StrFacts.all_impl. intros c Hc.
  destruct (Ascii.eqb_spec ":" c) as [<-|]; [vm_compute in Hc; discriminate Hc|done].
Qed.

(** No two runs of a fan-out share an id, nor do those of two fan-outs. *)
Theorem fan_out_ids_distinct r r' a a' i i' : fanOutRunIdFor r a i = fanOutRunIdFor r' a' i' -> r = r' /\ i = i'.
Proof.
  assert (Hi : forall k, Str.split ":" (JsNumber.to_string (Z.of_nat k)) = [JsNumber.to_string (Z.of_nat k)]).
  { intros k. apply StrFacts.split_single, digits_colonless. by destruct (JsNumber.to_string_spec (Z.of_nat k) ltac:(lia)) as (_ & H & _). }
  assert (Hs : forall r a i, Str.split ":" (fanOutRunIdFor r a i) =
    (Str.split ":" r ++ [JsNumber.to_string (Z.of_nat i)]) ++ [Str.map (fun c => if id_char c then c else "_"%char) a]).
  { intros x b k. unfold fanOutRunIdFor. cbn [String.append]. rewrite StrFacts.split_sep, StrFacts.split_sep, Hi.
    rewrite (StrFacts.split_single _ _ (id_chars b)). by rewrite <- app_assoc. }
  intros E1. assert (E2 : Str.split ":" (fanOutRunIdFor r a i) = Str.split ":" (fanOutRunIdFor r' a' i')) by congruence.
  rewrite !Hs in E2. apply app_inj_tail in E2 as [E2 _]. apply app_inj_tail in E2 as [E2 E3]. split.
  - rewrite <- (StrFacts.join_split ":" r), <- (StrFacts.join_split ":" r'). by rewrite E2.
  - apply JsNumber.to_string_inj in E3; lia.
Qed.

(** ** Witnesses *)

(** A world that gives every run [d] calls, and agents that add a word. *)
Definition no_agent_world : Agent.World :=
  {| Agent.chat _ _ := Err {| Agent.kind := Agent.OtherError; Agent.message := "" |};
     Agent.invoke _ _ := Ok JNull; Agent.cancelled _ := None; Agent.store_fails _ _ := None; Agent.tracer_fails _ _ := None;
     Agent.summary_of _ _ := Ok ""; Agent.session_items _ := Ok []; Agent.session_fails _ _ := None;
     Agent.json_parse s := Ok (JStr s); Agent.redact v := v |}.
Definition dies_after {St} (d : nat) : World St :=
  {| load_stops t := if d <=? since t then Some Crashed else None;
     save_does t _ := if d <=? since t then WroteThenStops Crashed else Wrote;
     agent_world := no_agent_world |}.
Definition adds {St} (d : nat) (word : string) : Member St :=
  {| name := "agent"; answer t s _ := if d <=? since t then Err Crashed else Ok (s +:+ word) |}.
Definition demo_options : CrewOptions := {| checkpoint := true; runId := Some "r" |}.
Definition no_schema : StructuredOutputRunOptions := {| responseSchema := None; maxRepairAttempts := None |}.
Definition demo_says (a : Member string) (s : string) : string :=
  match answer a [] s None with Ok x => x | Err _ => "" end.
Definition demo_step {St V} (d : nat) (u : V) : list (event St) -> V -> option string -> result stop V :=
  fun t _ _ => if d <=? since t then Err Crashed else Ok u.

Lemma dies_after_patient {St} d : patient (world := dies_after (St:=St) d) d.
Proof. split; cbn; intros t; destruct (Nat.leb_spec d (since t)); naive_solver. Qed.
Lemma adds_speaks d d' word cur : d' <= d -> 0 < d ->
  speaks d' (fun t => answer (adds (St:=string) d word) t cur (Some "r")) (demo_says (adds d word) cur).
Proof.
  intros Hd Hd0 t. unfold demo_says. cbn. destruct (Nat.leb_spec d 0); [lia|]. destruct (Nat.leb_spec d (since t)); [lia|done].
Qed.

Lemma crew_finishes_witness :
  (retry 2 (sequential (world := dies_after 3) [adds 3 "1"; adds 3 "2"] demo_options no_schema "in") []).2 = Ok "in12" /\
  (retry 4 (loopUntil (world := dies_after 3) demo_options (adds 3 "x") (fun s _ => 4 <=? String.length s) (Some 4) "in") []).2 = Ok "inxx" /\
  (retry 2 (pipeline (world := dies_after 3) [demo_step 3 [("a", 1)]; demo_step 3 [("b", 2)]] demo_options [("a", 0)]) []).2
    = Ok [("a", 1); ("b", 2)].
Proof.
  destruct (crew_finishes (V:=nat) (world := dies_after 3) (world' := dies_after 3) demo_options (checkpointKeyFor "r") eq_refl 3
    ltac:(lia) (dies_after_patient 3) (dies_after_patient 3)) as (H1 & H2 & H3).
  split_and!.
  - apply (H1 [adds 3 "1"; adds 3 "2"] no_schema demo_says); [done| |by intros [? [=]]|vm_compute; reflexivity].
    intros a cur Ha. assert (a = adds 3 "1" \/ a = adds 3 "2") as [->| ->] by set_solver; apply adds_speaks; lia.
  - etrans; [apply (H2 (adds 3 "x") _ (Some 4) (fun s => demo_says (adds 3 "x") s))|vm_compute; reflexivity]; [done|].
    intros cur. apply adds_speaks; lia.
  - etrans; [apply (H3 [demo_step 3 [("a", 1)]; demo_step 3 [("b", 2)]] (fun i _ => match i with O => [("a", 1)] | _ => [("b", 2)] end))|vm_compute; reflexivity]; [done|].
    intros [|[|[|?]]] k st [= <-] t; unfold demo_step; by destruct (Nat.leb_spec 3 (since t)).
Defined.

Lemma crew_resumes_witness :
  (retry 2 (sequential (world := dies_after 3) [adds 3 "1"; adds 3 "2"] demo_options no_schema "in") []).2 = Ok "in12" /\
  chain_says (world := dies_after 3) no_schema [adds 3 "1"; adds 3 "2"] "in" demo_says = Some "in12".
Proof.
  assert (H : (retry 2 (sequential (world := dies_after 3) [adds 3 "1"; adds 3 "2"] demo_options no_schema "in") []).2 = Ok "in12")
    by (vm_compute; reflexivity).
  split; [exact H|].
  apply (proj1 (crew_resumes (V:=nat) (world := dies_after 3) (world' := dies_after 3) demo_options (checkpointKeyFor "r") eq_refl 2)
    [adds 3 "1"; adds 3 "2"] no_schema demo_says "in" []); [done| |exact H].
  intros a cur Ha. assert (a = adds 3 "1" \/ a = adds 3 "2") as [->| ->] by set_solver; apply adds_speaks; lia.
Defined.

Lemma crew_work_witness :
  runs (retry 4 (loopUntil (world := dies_after 3) demo_options (adds 3 "x") (fun s _ => 4 <=? String.length s) (Some 4) "in") []).1 = 3 /\
  runs (retry 4 (loopUntil (world := dies_after 3) demo_options (adds 3 "x") (fun s _ => 4 <=? String.length s) (Some 4) "in") []).1 <= 8.
Proof.
  split; [vm_compute; reflexivity|].
  pose proof (proj1 (crew_work (V:=nat) (world := dies_after 3) (world' := dies_after 3) demo_options (checkpointKeyFor "r") eq_refl 4)
    (adds 3 "x") (fun s _ => 4 <=? String.length s) (Some 4) "in" [] eq_refl) as H.
  etrans; [exact H|]. vm_compute. lia.
Defined.

End CrewFacts.
