(* ===== verification/Wp.v ===== *)
(** * One run of a computation that leaves a trace

    [wp m t Post]: from the trace [t], [m] ends in a trace and a result that
    satisfy [Post]. Where [Trace.hoare] speaks of every moment of every run, this
    walks through one run; the exits of a handler keep their traces, so what a
    failing run leaves behind can be stated. *)
From S2P Require Import Prelude Trace.

Module Wp.
Import Trace.

Section wp.
Context {T E : Type}.

Definition wp {A} (m : @M T E A) (t : list T) (Post : list T -> result E A -> Prop) : Prop := Post (m t).1 (m t).2.

Lemma wp_bind {A B} (m : @M T E A) (f : A -> @M T E B) t (Post : list T -> result E B -> Prop) :
  wp m t (fun t1 r => match r with Ok a => wp (f a) t1 Post | Err e => Post t1 (Err e) end) -> wp (m ≫= f) t Post.
Proof. unfold wp, mbind, M_bind. by destruct (m t) as [t1 [a|e]]. Qed.

Lemma wp_ret {A} (a : A) t (Post : list T -> result E A -> Prop) : Post t (Ok a) -> wp (mret a) t Post.
Proof. done. Qed.
Lemma wp_fail {A} e t (Post : list T -> result E A -> Prop) : Post t (Err e) -> wp (fail e) t Post.
Proof. done. Qed.
Lemma wp_lift {A} (r : result E A) t (Post : list T -> result E A -> Prop) : Post t r -> wp (lift r) t Post.
Proof. done. Qed.
Lemma wp_asks {A} (f : list T -> A) t (Post : list T -> result E A -> Prop) : Post t (Ok (f t)) -> wp (asks f) t Post.
Proof. done. Qed.
Lemma wp_emit {A} e (f : list T -> result E A) t (Post : list T -> result E A -> Prop) : Post (t ++ [e]) (f t) -> wp (emit e f) t Post.
Proof. done. Qed.
Lemma wp_attempt e fails t (Post : list T -> result E unit -> Prop) :
  match fails t with Some err => Post t (Err err) | None => Post (t ++ [e]) (Ok tt) end -> wp (attempt e fails) t Post.
Proof. unfold wp, attempt. by destruct (fails t). Qed.
Lemma wp_conseq {A} (m : @M T E A) t (Post Post' : list T -> result E A -> Prop) :
  wp m t Post -> (forall t1 r, Post t1 r -> Post' t1 r) -> wp m t Post'.
Proof. intros H Hp. by apply Hp. Qed.
Lemma wp_run {A} (m : @M T E A) t (Post : list T -> result E A -> Prop) : wp m t Post -> forall t1 r, m t = (t1, r) -> Post t1 r.
Proof. unfold wp. intros H t1 r E1. by rewrite E1 in H. Qed.
End wp.

(** What a [match] waits for. *)
Ltac destruct_inner x :=
  lazymatch x with
  | match ?y with _ => _ end => destruct_inner y
  | _ => let E := fresh "E" in destruct x eqn:E
  end.

(** One step of a run. *)
Ltac wp_step :=
  lazymatch goal with
  | |- wp (_ ≫= _) _ _ => apply wp_bind
  | |- wp (mret _) _ _ => apply wp_ret
  | |- wp (fail _) _ _ => apply wp_fail
  | |- wp (lift _) _ _ => apply wp_lift
  | |- wp (asks _) _ _ => apply wp_asks
  | |- wp (emit _ _) _ _ => apply wp_emit
  | |- wp (attempt _ _) _ _ => apply wp_attempt
  | |- wp (match ?x with _ => _ end) _ _ => destruct_inner x
  | |- wp ((match ?x with _ => _ end) _) _ _ => destruct_inner x
  | |- match ?x with _ => _ end => destruct_inner x
  end; cbv beta iota.

Ltac wp_steps := repeat wp_step.
End Wp.
