(* ===== verification/Ready.v ===== *)
(** * Polling what is not ready yet (experimental/agents/src/computer.ts)

    [withTimeout] and [withReadyRetry]: every call of a computer's tools goes
    through them. Time is a number of milliseconds; what an attempt comes to, and
    after how long, depends on its number and on the time it starts. *)
From S2P Require Import Prelude JsNumber.
Local Open Scope Z_scope.

Module Ready.

(** What is thrown: only an [Error]'s message can be added to. *)
Record error := { is_Error : bool; message : string }.

(** A call under way: when it settles, if ever, and as what. *)
Record Attempt (A : Type) := { takes : option Z; settles : result error A }.
Arguments takes {A}. Arguments settles {A}.

Definition READY_RETRY_CEILING_MS : Z := 30000.
Definition READY_ATTEMPT_TIMEOUT_MS : Z := 3000.
Definition READY_RETRY_INITIAL_DELAY_MS : Z := 250.

Definition timed_out (ms : Z) : error :=
  {| is_Error := true; message := "attempt timed out after " +:+ JsNumber.to_string ms +:+ "ms" |}.

(** How long the wait is, and what it ends with. The call itself goes on. *)
Definition withTimeout {A} (a : Attempt A) (ms : Z) : Z * result error A :=
  match takes a with
  | Some d => if d <? ms then (d, settles a) else (ms, Err (timed_out ms))
  | None => (ms, Err (timed_out ms))
  end.

(** The arguments of a retry, and the timers: a sleep may last longer than asked. *)
Record Poll (A : Type) := {
  fn : nat -> Z -> Attempt A;
  ceilingMs : Z;
  diagnose : option (Z -> option string);     (* [None] inside when it fails *)
  abort : option (Z -> option string);
  late : nat -> Z
}.
Arguments fn {A}. Arguments ceilingMs {A}. Arguments diagnose {A}. Arguments abort {A}. Arguments late {A}.

Section retry.
Context {A : Type} (p : Poll A).

(** [abort?.()]: an empty reason is none. *)
Definition abort_reason (now : Z) : option string :=
  match abort p with
  | Some f => match f now with Some (String c s) => Some (String c s) | _ => None end
  | None => None
  end.

(** The error that is thrown at the end. *)
Definition final_error (now : Z) (err : error) : error :=
  let detail := match diagnose p with Some f => or_default "" (f now) | None => "" end in
  match detail with
  | String _ _ => if is_Error err then {| is_Error := true; message := message err +:+ detail |} else err
  | EmptyString => err
  end.

(** When each attempt began, when the whole ended, and with what; [None] when
    the fuel is not enough. *)
Fixpoint retry_loop (fuel k : nat) (start now delay : Z) : option (list Z * Z * result error A) :=
  match fuel with
  | O => None
  | S fuel =>
      match abort_reason now with
      | Some reason => Some ([], now, Err {| is_Error := true; message := reason |})
      | None =>
          let '(elapsed, r) := withTimeout (fn p k now) READY_ATTEMPT_TIMEOUT_MS in
          let now1 := now + elapsed in
          match r with
          | Ok v => Some ([now], now1, Ok v)
          | Err err =>
              if ceilingMs p <=? now1 - start then Some ([now], now1, Err (final_error now1 err))
              else
                match retry_loop fuel (S k) start (now1 + (delay + late p k)) (Z.min (delay * 2) 2000) with
                | Some (begun, done_at, r) => Some (now :: begun, done_at, r)
                | None => None
                end
          end
      end
  end.

Definition fuel_for : nat := S (Z.to_nat (ceilingMs p / READY_RETRY_INITIAL_DELAY_MS + 1)).

Definition withReadyRetry (start : Z) : option (list Z * Z * result error A) :=
  retry_loop fuel_for 0 start start READY_RETRY_INITIAL_DELAY_MS.

(** Nothing takes less than no time. *)
Definition clock_ok : Prop :=
  (forall k now d, takes (fn p k now) = Some d -> 0 <= d) /\ (forall k, 0 <= late p k).

Lemma withTimeout_bounds (Hc : clock_ok) k now : let '(e, _) := withTimeout (fn p k now) READY_ATTEMPT_TIMEOUT_MS in 0 <= e <= 3000.
Proof.
  unfold withTimeout, READY_ATTEMPT_TIMEOUT_MS. destruct (takes _) as [d|] eqn:Ed; [|lia]. apply Hc in Ed.
  destruct (Z.ltb_spec d 3000); lia.
Qed.

Lemma fuel_enough start : ceilingMs p - (start - start) <= 250 * (Z.of_nat fuel_for - 1).
Proof.
  unfold fuel_for, READY_RETRY_INITIAL_DELAY_MS. pose proof (Z.div_mod (ceilingMs p) 250 ltac:(lia)).
  pose proof (Z.mod_pos_bound (ceilingMs p) 250 ltac:(lia)).
  rewrite Nat2Z.inj_succ. destruct (Z.le_gt_cases 0 (ceilingMs p / 250 + 1)); [rewrite Z2Nat.id by done; lia|].
  replace (Z.to_nat (ceilingMs p / 250 + 1)) with 0%nat by lia. lia.
Qed.

Lemma retry_total (Hc : clock_ok) fuel : forall k start now delay,
  250 <= delay -> ceilingMs p - (now - start) <= 250 * (Z.of_nat fuel - 1) -> (0 < fuel)%nat ->
  is_Some (retry_loop fuel k start now delay).
Proof.
  induction fuel as [|fuel IH]; intros k start now delay Hd Hf H0; [lia|]. cbn [retry_loop].
  destruct (abort_reason now); [by eexists|]. pose proof (withTimeout_bounds Hc k now) as Hb.
  destruct (withTimeout _ _) as [e [v|err]]; [by eexists|]. destruct (Z.leb_spec (ceilingMs p) (now + e - start)); [by eexists|].
  destruct (IH (S k) start (now + e + (delay + late p k)) (Z.min (delay * 2) 2000)) as [[[bs t] r] ->]; [lia| |lia|by eexists].
  destruct Hc as [_ Hl]. specialize (Hl k). lia.
Qed.

(** Every attempt begins before the ceiling, or a sleep after it at most. *)
Lemma retry_bounds (Hc : clock_ok) L (HL : forall k, late p k <= L) fuel : forall k start now delay begun t r,
  250 <= delay <= 2000 -> start <= now -> now < start + Z.max 1 (ceilingMs p) + 2000 + L ->
  retry_loop fuel k start now delay = Some (begun, t, r) ->
  now <= t <= start + Z.max 1 (ceilingMs p) + 5000 + L /\ Forall (fun b => now <= b <= t) begun.
Proof.
  induction fuel as [|fuel IH]; intros k start now delay begun t r Hd Hs Hn; [done|]. cbn [retry_loop].
  destruct (abort_reason now); [intros [= <- <- <-]; split; [lia|constructor]|].
  pose proof (withTimeout_bounds Hc k now) as Hb. destruct (withTimeout _ _) as [e [v|err]].
  { intros [= <- <- <-]. split; [lia|]. constructor; [lia|constructor]. }
  destruct (Z.leb_spec (ceilingMs p) (now + e - start)).
  { intros [= <- <- <-]. split; [lia|]. constructor; [lia|constructor]. }
  destruct (retry_loop fuel _ _ _ _) as [[[bs t'] r']|] eqn:Er; [|done]. intros [= <- <- <-].
  destruct Hc as [Hc1 Hl]. specialize (Hl k). specialize (HL k). apply IH in Er as [Ht Hbs]; [|lia..].
  split; [lia|]. constructor; [lia|]. eapply Forall_impl; [exact Hbs|]. cbn. lia.
Qed.

(** An attempt that begins at [now] succeeds in time. *)
Definition ready_at (k : nat) (now : Z) (good : A -> Prop) : Prop :=
  exists d v, takes (fn p k now) = Some d /\ d < 3000 /\ settles (fn p k now) = Ok v /\ good v.

Lemma retry_ready (Hc : clock_ok) (good : A -> Prop) T fuel : forall k start now delay begun t r,
  250 <= delay -> (forall k now, T <= now -> ready_at k now good) ->
  (forall k now v, settles (fn p k now) = Ok v -> good v) -> abort p = None -> T + 3000 < start + ceilingMs p ->
  retry_loop fuel k start now delay = Some (begun, t, r) -> exists v, r = Ok v /\ good v.
Proof.
  intros k start now delay begun t r Hd Hr Hg Ha HT. revert k now delay begun t r Hd.
  induction fuel as [|fuel IH]; intros k now delay begun t r Hd; [done|]. cbn [retry_loop].
  assert (Hab : abort_reason now = None) by (unfold abort_reason; by rewrite Ha). rewrite Hab.
  pose proof (withTimeout_bounds Hc k now) as Hb. destruct (withTimeout (fn p k now) _) as [e r1] eqn:Ew.
  assert (Hok : forall v, r1 = Ok v -> good v).
  { intros v ->. unfold withTimeout in Ew. destruct (takes _) as [d|]; [destruct (_ <? _)|]; injection Ew as <- Ew; [by eapply Hg|done..]. }
  destruct r1 as [v|err]; [intros [= <- <- <-]; eauto|].
  assert (Hlt : now < T).
  { destruct (Z.lt_ge_cases now T) as [|Hge]; [done|]. destruct (Hr k now Hge) as (d & v & Hd1 & Hd2 & Hs & _).
    unfold withTimeout, READY_ATTEMPT_TIMEOUT_MS in Ew. rewrite Hd1, (proj2 (Z.ltb_lt d 3000) Hd2), Hs in Ew. discriminate Ew. }
  destruct (Z.leb_spec (ceilingMs p) (now + e - start)); [lia|].
  destruct (retry_loop fuel _ _ _ _) as [[[bs t'] r']|] eqn:Er; [|done]. intros [= <- <- <-].
  eapply IH; [|exact Er]. lia.
Qed.
End retry.


(** A call that takes three seconds or more is made again while it still runs,
    and never answers, however sure it is to succeed. *)
Theorem slow_call_repeated {A} (p : Poll A) start :
  clock_ok p -> 3000 < ceilingMs p -> abort p = None -> (forall k now, match takes (fn p k now) with Some d => 3000 <= d | None => True end) ->
  exists first second begun t e, withReadyRetry p start = Some (first :: second :: begun, t, Err e).
Proof.
  intros Hc H3 Ha Hs.
  assert (Hw : forall k now, withTimeout (fn p k now) READY_ATTEMPT_TIMEOUT_MS = (3000, Err (timed_out 3000))).
  { intros k now. specialize (Hs k now). unfold withTimeout, READY_ATTEMPT_TIMEOUT_MS. destruct (takes _) as [d|]; [|done].
    destruct (Z.ltb_spec d 3000); [lia|done]. }
  assert (Hab : forall now, abort_reason p now = None) by (intros; unfold abort_reason; by rewrite Ha).
  assert (Herr : forall fuel k start now delay begun t r, retry_loop p fuel k start now delay = Some (begun, t, r) ->
    exists first rest e, begun = first :: rest /\ r = Err e).
  { induction fuel as [|fuel IH]; intros k s now delay begun t r; [done|]. cbn [retry_loop]. rewrite Hab, Hw.
    destruct (_ <=? _); [intros [= <- <- <-]; eauto|].
    destruct (retry_loop p fuel _ _ _ _) as [[[bs t'] r']|] eqn:Er; [|done]. intros [= <- <- <-]. apply IH in Er as (? & ? & ? & _ & ->). eauto. }
  destruct (retry_total p Hc (fuel_for p) 0 start start 250 ltac:(lia)) as [[[begun t] r] E1]; [apply fuel_enough|unfold fuel_for; lia|].
  unfold withReadyRetry, READY_RETRY_INITIAL_DELAY_MS. rewrite E1. unfold fuel_for in E1. cbn [retry_loop] in E1.
  rewrite Hab, Hw in E1. destruct (Z.leb_spec (ceilingMs p) (start + 3000 - start)); [lia|].
  destruct (retry_loop p _ 1 _ _ _) as [[[bs t'] r']|] eqn:Er; [|discriminate E1]. injection E1 as <- <- <-.
  apply Herr in Er as (second & rest & e & -> & ->). by eexists _, _, _, _, _.
Qed.

(** A call that fails at once, as one that an app refuses does, is made again
    and again, nineteen times over half a minute. *)
Definition refused : error := {| is_Error := true; message := "a note of that name exists" |}.
Definition refusing : Poll unit :=
  {| fn _ _ := {| takes := Some 5; settles := Err refused |}; ceilingMs := READY_RETRY_CEILING_MS; diagnose := None; abort := None;
     late _ := 0 |}.
Theorem failed_call_repeated :
  exists begun t, withReadyRetry refusing 0 = Some (begun, t, Err refused) /\ length begun = 19%nat.
Proof. eexists _, _. split; vm_compute; reflexivity. Qed.

(** A container that answers from its fourth second on. *)
Definition boots : Poll string :=
  {| fn _ now := if now <? 4000 then {| takes := None; settles := Ok "up" |} else {| takes := Some 20; settles := Ok "up" |};
     ceilingMs := READY_RETRY_CEILING_MS; diagnose := None; abort := None; late _ := 3 |}.


End Ready.
