(* ===== verification/Computer.v ===== *)
(** * Computers an agent boots or joins (experimental/agents/src: computer.ts,
      fleet-computer.ts, resolve-apps.ts, network.ts)

    A computer is a container, or a deployed instance, with the tools of its
    apps. Booting one and taking it down are calls of Docker or of an adapter
    that may fail; what a handle is and what is left behind are the results. *)
From S2P Require Import Prelude JsNumber Json JsonParse Trace Governance Ready Wp.

Module Computer.
Import Json Trace Wp.

(** ** resolve-apps.ts *)

Record Spec := { appDir : string; app : Governance.App }.
Definition spec_name (s : Spec) : string := Governance.name (app s).

Inductive error : Type :=
| NoApps
| ManifestError (message : string)
| DuplicateApp (name : string)
| NotAnApp (httpRpcApp : string)
| BuildFailed (message : string)
| StartFailed (message : string)
| ExitedDuringStartup (detail : string)
| StdioFailed (message : string)
| MultipleGovernors (names : list string)
| NoHttpPort
| NotReady (message : string)
| NoSuchOs | NotRunning
| MissingApps (names : list string)
| NoRpcUrl
| UploadFailed (message : string)
| BringUp (message : string)
| NoSuchTool (name : string).

Section apps.
(** [loadManifest(join(appDir, "berth.yml"))] *)
Context (load : string -> result string Governance.App).

Fixpoint resolve_apps (appDirs : list string) (seen : list string) : result error (list Spec) :=
  match appDirs with
  | [] => Ok []
  | dir :: dirs =>
      match load dir with
      | Err m => Err (ManifestError m)
      | Ok a =>
          if existsb (String.eqb (Governance.name a)) seen then Err (DuplicateApp (Governance.name a))
          else let? rest := resolve_apps dirs (Governance.name a :: seen) in Ok ({| appDir := dir; app := a |} :: rest)
      end
  end.
Definition resolveComputerApps (appDirs : list string) : result error (list Spec) :=
  match appDirs with [] => Err NoApps | _ => resolve_apps appDirs [] end.
End apps.

(** ** Enforcement (computer.ts) *)

Inductive enforcement : Type := Required | Warn.

Definition enforcementRelaxed (opt : option enforcement) (BERTH_ALLOW_UNENFORCED : option string) : bool :=
  match opt with
  | Some Warn => true
  | Some Required => false
  | None => match BERTH_ALLOW_UNENFORCED with Some v => String.eqb v "1" || String.eqb v "true" | None => false end
  end.

(** [{ ...env, ... }] *)
Definition spread (env base : list (string * string)) : list (string * string) :=
  foldl (fun o kv => JsMap.put kv.1 kv.2 o) base env.

Definition computerEnforcementEnv (relaxed : bool) (env : list (string * string)) : list (string * string) :=
  if relaxed then JsMap.put "BERTH_REQUIRE_APP_CGROUPS" "0" (JsMap.put "BERTH_REQUIRE_ENFORCEMENT" "0" (spread env []))
  else spread env [("BERTH_REQUIRE_APP_CGROUPS", "1")].

(** ** Booting *)

(** [httpRpc]: [true], or an object that may name an app. *)
Inductive http_option : Type := HttpOn | HttpFor (app : option string).

Record BootComputerOptions := {
  dirs : list string; network : option string; o_env : list (string * string); o_http : option http_option;
  o_enforcement : option enforcement; o_governance : option Governance.mode
}.

Record StartOptions := {
  s_image : string; s_name : string; s_primary : Spec; s_apps : option (list (string * string));
  s_network : option string; s_env : list (string * string); s_http : option (string * option string)
}.

Inductive event : Type :=
| Built (apps : list Spec) (tag : string)
| Warned
| Started (o : StartOptions)
| StdioOpened | StdioClosed
| Stopped                          (* stopContainer, which may have failed *)
| ImageRemoved (tag : string)
| Called (app export : string).    (* one call of the container *)

Record World := {
  load : string -> result string Governance.App;
  now_ms : Z;                                          (* Date.now() *)
  uuid : string; token : string;
  allow_unenforced : option string;
  build_fails : option string;
  start_ : StartOptions -> result string (option string); (* the published port of the bridge *)
  boot_failure : option string;                        (* formatContainerFailure of what describeContainerFailure found *)
  stdio_fails : option string;
  health : string -> string -> Ready.Poll unit         (* checkHttpRpcHealth, as withReadyRetry polls it *)
}.

Record Computer := {
  c_apps : list Spec; c_tools : list Governance.Tool; c_name : string; c_stdio : bool; c_image : option string;
  ownsLifecycle : bool; httpRpc : option (string * string * option string); governance : option Governance.Gate
}.

Section boot.
Context (w : World).
Abbreviation BootM := (@M event error).

Definition log (e : event) : BootM unit := emit e (fun _ => Ok tt).

(** [buildComputerImage]: the tag, or what the build throws. *)
Definition buildComputerImage (apps : list Spec) : BootM string :=
  match apps with
  | [] => fail NoApps
  | primary :: _ =>
      match build_fails w with
      | Some m => fail (BuildFailed m)
      | None =>
          let tag := "berth-agent/" +:+ spec_name primary +:+ ":" +:+ JsNumber.to_string (now_ms w) in
          log (Built apps tag) ;; mret tag
      end
  end.

Definition resolveGate (apps : list Spec) (m : option Governance.mode) : result error (option Governance.Gate) :=
  match Governance.resolveGovernanceGate (map app apps) m with
  | Ok g => Ok g
  | Err (Governance.MultipleGovernors names) => Err (MultipleGovernors names)
  end.

(** Which app the bridge is for; [undefined] for a computer of one. *)
Definition http_app (apps : list Spec) (o : option http_option) : option string :=
  match o with
  | Some (HttpFor name) => name
  | _ => match apps with primary :: _ :: _ => Some (spec_name primary) | _ => None end
  end.
Definition truthy_name (o : option string) : option string :=
  match o with Some (String c s) => Some (String c s) | _ => None end.

(** Waiting for the bridge; whatever goes wrong takes the container down. *)
Definition bring_up_http (image : string) (stdio : bool) (port : option string) (appName : option string) : BootM (string * string * option string) :=
  let unwind e : BootM (string * string * option string) :=
    (if stdio then log StdioClosed else mret tt) ;; log Stopped ;; log (ImageRemoved image) ;; fail e in
  match truthy_name port with
  | None => unwind NoHttpPort
  | Some port =>
      let url := "http://127.0.0.1:" +:+ port in
      match Ready.withReadyRetry (health w url (token w)) (now_ms w) with
      | Some (_, _, Ok _) => mret (url, token w, appName)
      | Some (_, _, Err e) => unwind (NotReady (Ready.message e))
      | None => unwind (NotReady "")
      end
  end.

Definition boot (o : BootComputerOptions) : BootM Computer :=
  apps ← lift (resolveComputerApps (load w) (dirs o));
  match apps with
  | [] => fail NoApps
  | primary :: others =>
      image ← buildComputerImage apps;
      let containerName := "berth-agent-" +:+ uuid w in
      let requested := bool_decide (is_Some (o_http o)) in
      let httpRpcAppName := http_app apps (o_http o) in
      match truthy_name httpRpcAppName with
      | Some n => if existsb (fun a => String.eqb (spec_name a) n) apps then mret tt else fail (NotAnApp n)
      | None => mret tt
      end ;;
      let relaxed := enforcementRelaxed (o_enforcement o) (allow_unenforced w) in
      (if relaxed then log Warned else mret tt) ;;
      let start := {|
        s_image := image; s_name := containerName; s_primary := primary;
        s_apps := if 1 <? length apps then Some (map (fun a => (spec_name a, "/app/apps/" +:+ spec_name a)) apps) else None;
        s_network := network o; s_env := computerEnforcementEnv relaxed (o_env o);
        s_http := if requested then Some (token w, httpRpcAppName) else None |} in
      port ← emit (Started start) (fun _ => match start_ w start with Ok p => Ok p | Err m => Err (StartFailed m) end);
      match boot_failure w with
      | Some detail => log Stopped ;; log (ImageRemoved image) ;; fail (ExitedDuringStartup detail)
      | None => mret tt
      end ;;
      let stdio := Nat.eqb (length apps) 1 in
      (if stdio then
         match stdio_fails w with Some m => fail (StdioFailed m) | None => log StdioOpened end
       else mret tt) ;;
      gate ← lift (resolveGate apps (o_governance o));
      http ← (if requested then h ← bring_up_http image stdio port httpRpcAppName; mret (Some h) else mret None);
      mret {| c_apps := apps; c_tools := Governance.computerToolsFor (map app apps); c_name := containerName; c_stdio := stdio;
              c_image := Some image; ownsLifecycle := true; httpRpc := http; governance := gate |}
  end.

(** ** Joining one that runs: the record [berth os up] left *)

Record OsAppRecord := { r_name : string; r_appDir : string }.
Record OsStateFile := {
  os_container : string; os_image : string; os_apps : list OsAppRecord; os_http : option (string * string * option string)
}.

(** [running] is what inspecting the container says; [None] when it throws. *)
Definition connect (state : option OsStateFile) (running : option bool) (only : option (list string)) (m : option Governance.mode)
    : result error Computer :=
  match state with
  | None => Err NoSuchOs
  | Some state =>
      match running with
      | Some true =>
          let? records :=
            match only with
            | None => Ok (os_apps state)
            | Some names =>
                match List.filter (fun n => negb (existsb (fun a => String.eqb (r_name a) n) (os_apps state))) names with
                | [] => Ok (List.filter (fun a => existsb (String.eqb (r_name a)) names) (os_apps state))
                | missing => Err (MissingApps missing)
                end
            end in
          let? apps := resolveComputerApps (load w) (map r_appDir records) in
          let? allApps := match only with
                          | Some _ => resolveComputerApps (load w) (map r_appDir (os_apps state))
                          | None => Ok apps
                          end in
          let? gate := resolveGate allApps m in
          Ok {| c_apps := apps; c_tools := Governance.computerToolsFor (map app apps); c_name := os_container state; c_stdio := false;
                c_image := None; ownsLifecycle := false; httpRpc := os_http state; governance := gate |}
      | _ => Err NotRunning
      end
  end.

(** ** Calling and stopping *)

Definition find_tool (c : Computer) (toolName : string) : result error Governance.Tool :=
  match List.find (fun t => String.eqb (Governance.t_name t) toolName) (c_tools c) with
  | Some t => Ok t
  | None => Err (NoSuchTool toolName)
  end.

(** What calling a tool does: the governor is asked first, when there is one. *)
Definition call (c : Computer) (ask : string -> string -> Governance.answer) (toolName : string)
    : result error (list Governance.gate_event * Governance.gate_outcome) :=
  let? t := find_tool c toolName in
  Ok (match governance c with
      | Some g => Governance.gateDispatch g ask (Governance.t_app t) (Governance.t_export t)
      | None => ([Governance.Invoked], Governance.Proceeded)
      end).

(** [stopContainer] may throw, and then the image stays. *)
Definition stop (c : Computer) (stop_fails : option string) : @M event string unit :=
  (if c_stdio c then emit StdioClosed (fun _ => Ok tt) else mret tt) ;;
  if ownsLifecycle c then
    emit Stopped (fun _ => match stop_fails with Some m => Err m | None => Ok tt end) ;;
    match c_image c with Some (String ch i) => emit (ImageRemoved (String ch i)) (fun _ => Ok tt) | _ => mret tt end
  else mret tt.
End boot.

(** ** What a boot leaves behind *)

Definition is_started (e : event) : bool := match e with Started _ => true | _ => false end.
Definition is_stopped (e : event) : bool := match e with Stopped => true | _ => false end.
Definition is_built (e : event) : bool := match e with Built _ _ => true | _ => false end.
Definition is_removed (e : event) : bool := match e with ImageRemoved _ => true | _ => false end.
Definition container_left (t : list event) : bool := existsb is_started t && negb (existsb is_stopped t).
Definition image_left (t : list event) : bool := existsb is_built t && negb (existsb is_removed t).

(** The exits that take nothing down. *)
Definition unguarded (e : error) : bool := match e with StdioFailed _ | MultipleGovernors _ => true | _ => false end.
Definition unguarded_image (e : error) : bool :=
  match e with StdioFailed _ | MultipleGovernors _ | NotAnApp _ | StartFailed _ => true | _ => false end.
Definition not_started (e : error) : bool := match e with StartFailed _ => true | _ => false end.

Lemma resolve_apps_names load dirs : forall seen specs, resolve_apps load dirs seen = Ok specs ->
  NoDup (map spec_name specs) /\ (forall n, n ∈ map spec_name specs -> n ∉ seen) /\ map appDir specs = dirs /\
  Forall (fun s => load (appDir s) = Ok (app s)) specs.
Proof.
  induction dirs as [|dir dirs IH]; intros seen specs; cbn [resolve_apps].
  - intros [= <-]. split_and!; [constructor|by intros n ?%elem_of_nil|done|constructor].
  - destruct (load dir) as [a|m] eqn:El; [|done]. destruct (existsb _ seen) eqn:Es; [done|].
    destruct (resolve_apps load dirs _) as [rest|e] eqn:Er; [|done]. cbn [rbind]. intros [= <-].
    destruct (IH _ _ Er) as (Hn & Hs & Hd & Hf). cbn [map]. unfold spec_name at 1 3. cbn [app appDir].
    assert (Ha : Governance.name a ∉ seen).
    { intros Hin. enough (existsb (String.eqb (Governance.name a)) seen = true) by congruence.
      apply existsb_exists. exists (Governance.name a). split; [by apply list_elem_of_In|apply String.eqb_refl]. }
    split_and!.
    + constructor; [|done]. intros Hin. apply (Hs _ Hin). by left.
    + intros n [->|Hin]%elem_of_cons; [done|]. intros Hin2. apply (Hs _ Hin). by right.
    + by rewrite Hd.
    + by constructor.
Qed.

(** A computer's apps are the directories it was given, in order, under
    different names. *)
Lemma resolveComputerApps_spec load dirs specs : resolveComputerApps load dirs = Ok specs ->
  specs <> [] /\ NoDup (map spec_name specs) /\ map appDir specs = dirs /\ Forall (fun s => load (appDir s) = Ok (app s)) specs.
Proof.
  unfold resolveComputerApps. destruct dirs as [|d ds]; [done|]. intros H. destruct (resolve_apps_names _ _ _ _ H) as (Hn & _ & Hd & Hf).
  split_and!; [|done..]. intros ->. discriminate Hd.
Qed.

Lemma resolveGate_ok apps m g : resolveGate apps m = Ok g -> Governance.resolveGovernanceGate (map app apps) m = Ok g.
Proof. unfold resolveGate. destruct (Governance.resolveGovernanceGate _ m) as [g'|[names]]; [by intros [= ->]|done]. Qed.
Lemma resolveGate_err apps m e : resolveGate apps m = Err e -> exists names, e = MultipleGovernors names.
Proof. unfold resolveGate. destruct (Governance.resolveGovernanceGate _ m) as [g'|[names]]; [done|intros [= <-]; by eexists]. Qed.


(** Two governors are found out when the container runs, and no one stops it. *)
Theorem two_governors_orphan_container w o apps names :
  resolveComputerApps (load w) (dirs o) = Ok apps -> build_fails w = None -> truthy_name (http_app apps (o_http o)) = None ->
  (forall s, exists p, start_ w s = Ok p) -> boot_failure w = None -> stdio_fails w = None ->
  resolveGate apps (o_governance o) = Err (MultipleGovernors names) ->
  let r := boot w o [] in r.2 = Err (MultipleGovernors names) /\ container_left r.1 = true /\ image_left r.1 = true.
Proof.
  intros Ha Hb Hn Hs Hf Ht Hg. cbv zeta.
  assert (Hr : wp (boot w o) [] (fun t r => r = Err (MultipleGovernors names) /\ container_left t = true /\ image_left t = true)).
  { unfold boot. apply wp_bind, wp_lift. rewrite Ha. destruct apps as [|primary others]; [by destruct (resolveComputerApps_spec _ _ _ Ha)|].
    unfold buildComputerImage, log. rewrite Hb, Hn, Hf, Ht. cbv beta zeta. revert Hg. generalize (primary :: others) as apps. intros apps Hg.
    rewrite Hg. wp_steps; try done. all: match goal with H : start_ ?W ?s = Err _ |- _ => destruct (Hs s) as [p Hp]; rewrite Hp in H; discriminate H end. }
  exact Hr.
Qed.

(** ** Joining *)

(** A computer that joins a running one for some of its apps is still
    under its governor: the governor is found among all the apps that run, the
    apps exempt from it are too, the tools are those of the chosen apps, and
    stopping the handle stops nothing. *)
Theorem connect_governed w state only m c : connect w (Some state) (Some true) only m = Ok c ->
  exists allApps,
    resolveComputerApps (load w) (map r_appDir (os_apps state)) = Ok allApps /\
    Governance.resolveGovernanceGate (map app allApps) m = Ok (governance c) /\
    c_tools c = Governance.computerToolsFor (map app (c_apps c)) /\
    map appDir (c_apps c) = map r_appDir (match only with
      | Some names => List.filter (fun a => existsb (String.eqb (r_name a)) names) (os_apps state)
      | None => os_apps state
      end) /\
    (forall fails, (stop c fails []).1 = [] /\ (stop c fails []).2 = Ok tt).
Proof.
  unfold connect. intros H. destruct only as [names|]; cbn [rbind] in H.
  - destruct (List.filter _ names); [|done]. cbn [rbind] in H.
    destruct (resolveComputerApps (load w) (map r_appDir (List.filter _ _))) as [apps|] eqn:Ea; [|done]. cbn [rbind] in H.
    destruct (resolveComputerApps (load w) (map r_appDir (os_apps state))) as [allApps|] eqn:El; [|done]. cbn [rbind] in H.
    destruct (resolveGate allApps m) as [g|] eqn:Eg; [|done]. cbn [rbind] in H. injection H as <-. cbn.
    exists allApps. apply resolveComputerApps_spec in Ea as (_ & _ & Ed & _). split_and!; [done|by apply resolveGate_ok|done..].
  - destruct (resolveComputerApps (load w) (map r_appDir (os_apps state))) as [apps|] eqn:El; [|done]. cbn [rbind] in H.
    destruct (resolveGate apps m) as [g|] eqn:Eg; [|done]. cbn [rbind] in H. injection H as <-. cbn.
    exists apps. apply resolveComputerApps_spec in El as Hl. destruct Hl as (_ & _ & Ed & _). split_and!; [done|by apply resolveGate_ok|done..].
Qed.
(** ** The enforcement of a computer *)

Lemma get_spread k env : NoDup env.*1 -> forall base,
  JsMap.get k (spread env base) = match JsMap.get k env with Some v => Some v | None => JsMap.get k base end.
Proof.
  unfold spread. induction env as [|[k' v] env IH]; intros Hn base; [done|]. apply NoDup_cons in Hn as [Hk Hn]. cbn [foldl fst snd].
  rewrite (IH Hn). cbn [JsMap.get]. destruct (decide (k = k')) as [->|Hne].
  - assert (E1 : JsMap.get k' env = None) by by apply JsMap.get_None. by rewrite E1, JsMap.get_put_eq.
  - destruct (JsMap.get k env); [done|]. by rewrite JsMap.get_put_ne.
Qed.

(** A relaxed computer turns both checks off, over its caller; a strict one
    asks for cgroups of its own unless its caller says otherwise, and leaves
    the enforcement of the image alone. *)
Theorem enforcement_env env : NoDup env.*1 ->
  (let e := computerEnforcementEnv true env in
   JsMap.get "BERTH_REQUIRE_ENFORCEMENT" e = Some "0" /\ JsMap.get "BERTH_REQUIRE_APP_CGROUPS" e = Some "0") /\
  (let e := computerEnforcementEnv false env in
   JsMap.get "BERTH_REQUIRE_ENFORCEMENT" e = JsMap.get "BERTH_REQUIRE_ENFORCEMENT" env /\
   JsMap.get "BERTH_REQUIRE_APP_CGROUPS" e = Some (or_default "1" (JsMap.get "BERTH_REQUIRE_APP_CGROUPS" env))).
Proof.
  intros Hn. unfold computerEnforcementEnv. split; cbv zeta.
  - by rewrite JsMap.get_put_ne, JsMap.get_put_eq, JsMap.get_put_eq by done.
  - rewrite !get_spread by done. split; [by destruct (JsMap.get _ env)|]. by destruct (JsMap.get _ env).
Qed.

(** ** Witnesses *)

Definition demo_app (n : string) (governs : bool) : Governance.App :=
  {| Governance.name := n; Governance.governs := governs; Governance.exempt := false; Governance.exports := ["run"] |}.
Definition demo_world (failure : option string) : World :=
  {| load d := if String.eqb d "apps/guard" then Ok (demo_app "guard" true) else if String.eqb d "apps/notes" then Ok (demo_app "notes" false)
               else Err "no berth.yml";
     now_ms := 1; uuid := "u"; token := "t"; allow_unenforced := None; build_fails := None; start_ _ := Ok None; boot_failure := failure;
     stdio_fails := None; health _ _ := Ready.refusing |}.
Definition demo_boot : BootComputerOptions :=
  {| dirs := ["apps/guard"; "apps/notes"]; network := None; o_env := []; o_http := None; o_enforcement := None; o_governance := None |}.


Definition demo_os : OsStateFile :=
  {| os_container := "berth-os-x"; os_image := "i"; os_http := None;
     os_apps := [{| r_name := "guard"; r_appDir := "apps/guard" |}; {| r_name := "notes"; r_appDir := "apps/notes" |}] |}.
Lemma connect_governed_witness :
  exists c, connect (demo_world None) (Some demo_os) (Some true) (Some ["notes"]) None = Ok c /\
    map spec_name (c_apps c) = ["notes"] /\ (forall fails, (stop c fails []).1 = []).
Proof.
  eexists. split; [vm_compute; reflexivity|]. split; [vm_compute; reflexivity|].
  edestruct (connect_governed (demo_world None) demo_os (Some ["notes"]) None) as (_ & _ & _ & _ & _ & Hs); [vm_compute; reflexivity|].
  intros fails. apply (Hs fails).
Defined.
End Computer.
