(* ===== verification/Fleet.v ===== *)
(** * Remote instances (packages/adapters, experimental/agents/src/fleet-computer.ts)

    An adapter uploads an image, starts instances of it and takes them down;
    there is one for Kubernetes, one for E2B and one for Daytona, and a computer
    is brought up through any of them. What a provider answers is a function of
    what it was asked before; every call is an event. *)
From S2P Require Import Prelude JsNumber Json JsonParse Trace Wp Governance Ready Computer.

Module Fleet.
Import Json Trace Wp.

(** ** adapter-core *)

Inductive DeployStatus : Type := Starting | Running | Stopped | Error_.

Record err := { message : string; reason : option string; code : option Z }.
Definition plain (m : string) : err := {| message := m; reason := None; code := None |}.

Record DeployTarget := {
  imageRef : string; m_name : string; resources : option (option Z * option Z * option Z) (* cpu, memory_mb, gpu *);
  env : list (string * string); region : option string
}.

Definition DEPLOY_CREATE_TIMEOUT_MS : Z := 300000.
Definition DEPLOY_READ_TIMEOUT_MS : Z := 30000.

(** What is asked of a provider. *)
Inductive call : Type :=
| TemplateBuild (image name : string) | SandboxCreate (ref : string) (env : list (string * string)) | SandboxKill (id : string)
| SandboxConnect (id : string) | SandboxIsRunning (id : string) | SandboxList | SandboxHost (id : string) (port : Z)
| RestCall (path id : string) (body : option json)
| SnapshotCreate (name image : string) (region : option string) | DaytonaCreate (snapshot : string) (env : list (string * string))
| DaytonaStop (id : string) | DaytonaGet (id : string) | DaytonaList | PreviewLink (id : string) (port : Z)
| DaytonaFork (id : string) (name : option string) | DaytonaSnapshot (id name : string)
| CreatePod (ns : string) (body : json) | ReadPod (ns name : string) | DeletePod (ns name : string) | ListPods (ns selector : string)
| CreateService (ns : string) (body : json) | ReadService (ns name : string) | DeleteServices (ns selector : string) | ListNodes.

Inductive event : Type :=
| Asked (c : call) (answered : bool)
| Logged (m : string).

(** A call under way: when it settles, if ever, and as what. *)
Definition Attempt : Type := option Z * result err json.

Definition withTimeout (a : Attempt) (ms : Z) (label : string) : result err json :=
  match a.1 with
  | Some d => if (d <? ms)%Z then a.2 else Err (plain (label +:+ " timed out after " +:+ JsNumber.to_string ms +:+ "ms"))
  | None => Err (plain (label +:+ " timed out after " +:+ JsNumber.to_string ms +:+ "ms"))
  end.

Abbreviation FleetM := (@M event err).

(** The handle of an instance: its id, and what its adapter keeps of it. *)
Record DeployHandle (H : Type) := { id : string; kept : H }.
Arguments id {H}. Arguments kept {H}.

(** The interface: what is optional may be missing. *)
Record DeployAdapter (H : Type) := {
  a_name : string;
  upload : DeployTarget -> FleetM string;
  start : string -> DeployTarget -> FleetM (DeployHandle H);
  status : DeployHandle H -> FleetM DeployStatus;
  teardown : DeployHandle H -> FleetM unit;
  rpcUrl : option (DeployHandle H -> Z -> FleetM (option string))
}.
Arguments a_name {H}. Arguments upload {H}. Arguments start {H}. Arguments status {H}. Arguments teardown {H}. Arguments rpcUrl {H}.

(** [a ?? b] on a property that may be missing. *)
Definition str_prop (k : string) (v : json) : option string := match oprop k v with JStr s => Some s | _ => None end.

Section adapters.
(** The provider, and the environment's namespace and ids. *)
Context (sdk : list event -> call -> Attempt).
Context (BERTH_K8S_NAMESPACE : option string) (uuid : list event -> string).

(** A call with a deadline; [None] waits as long as it takes. *)
Definition ask (c : call) (limit : option (Z * string)) : FleetM json := fun t =>
  let r := match limit with Some (ms, label) => withTimeout (sdk t c) ms label | None => (sdk t c).2 end in
  (t ++ [Asked c (is_ok r)], r).

Definition q (s : string) : string := String dq_char (s +:+ String dq_char "").

(** ** adapter-k8s *)

Definition LABEL_SELECTOR : string := "app.kubernetes.io/managed-by=berth".
Definition INSTANCE_LABEL : string := "berth.dev/instance".
Definition namespace : string := or_default "default" BERTH_K8S_NAMESPACE.

Definition resourcesFor (r : option (option Z * option Z * option Z)) : option json :=
  let '(cpu, memoryMb, gpu) := or_default (None, None, None) r in
  match cpu, memoryMb, gpu with
  | None, None, None => None
  | _, _, _ =>
      let quantities := JObj
        (match cpu with Some c => [("cpu", JStr (JsNumber.to_string c))] | None => [] end ++
         match memoryMb with Some m => [("memory", JStr (JsNumber.to_string m +:+ "Mi"))] | None => [] end ++
         match gpu with Some g => [("nvidia.com/gpu", JStr (JsNumber.to_string g))] | None => [] end) in
      Some (JObj [("requests", quantities); ("limits", quantities)])
  end.

Definition POD_DEFAULT_ENV : list (string * string) := [("BERTH_REQUIRE_APP_CGROUPS", "0")].

Definition podSpecFor (t : DeployTarget) (image instanceId : string) : json :=
  JObj [
    ("metadata", JObj [
      ("generateName", JStr (m_name t +:+ "-"));
      ("labels", JObj [("app.kubernetes.io/managed-by", JStr "berth"); ("berth.dev/app-name", JStr (m_name t));
                       (INSTANCE_LABEL, JStr instanceId)])]);
    ("spec", JObj ([
      ("restartPolicy", JStr "Never");
      ("containers", JArr [JObj ([
         ("name", JStr (m_name t)); ("image", JStr image);
         ("env", JArr (map (fun kv => JObj [("name", JStr kv.1); ("value", JStr kv.2)]) (Computer.spread (env t) POD_DEFAULT_ENV)));
         ("securityContext", JObj [("capabilities", JObj [("add", JArr [JStr "SYS_ADMIN"])])]);
         ("volumeMounts", JArr [JObj [("name", JStr "dev-fuse"); ("mountPath", JStr "/dev/fuse")]])] ++
         match resourcesFor (resources t) with Some r => [("resources", r)] | None => [] end)]);
      ("volumes", JArr [JObj [("name", JStr "dev-fuse");
         ("hostPath", JObj [("path", JStr "/dev/fuse"); ("type", JStr "CharDevice")])]])] ++
      match region t with
      | Some (String c r) => [("nodeSelector", JObj [("topology.kubernetes.io/region", JStr (String c r))])]
      | _ => []
      end))].

Definition statusFromPhase (phase : option string) : DeployStatus :=
  match phase with
  | Some p =>
      if String.eqb p "Pending" then Starting
      else if String.eqb p "Running" then Running
      else if String.eqb p "Succeeded" then Stopped
      else if String.eqb p "Failed" then Error_
      else Starting
  | None => Starting
  end.

(** What a Kubernetes handle keeps: its container's name and its instance label. *)
Record K8sKept := { containerName : string; instanceId : string }.

Definition k8s_status (h : DeployHandle K8sKept) : FleetM DeployStatus :=
  pod ← ask (ReadPod namespace (id h)) (Some (DEPLOY_READ_TIMEOUT_MS, "k8s readNamespacedPod(" +:+ q (id h) +:+ ")"));
  mret (statusFromPhase (str_prop "phase" (oprop "status" pod))).

Definition k8s_stop (h : DeployHandle K8sKept) : FleetM unit :=
  ask (DeletePod namespace (id h)) (Some (DEPLOY_READ_TIMEOUT_MS, "k8s deleteNamespacedPod(" +:+ q (id h) +:+ ")")) ;; mret tt.

(** A failure is logged. *)
Definition deleteServices (h : DeployHandle K8sKept) : FleetM unit := fun t =>
  match ask (DeleteServices namespace (INSTANCE_LABEL +:+ "=" +:+ instanceId (kept h)))
          (Some (DEPLOY_READ_TIMEOUT_MS, "k8s deleteCollectionNamespacedService(instance=" +:+ q (instanceId (kept h)) +:+ ")")) t with
  | (t1, Ok _) => (t1, Ok tt)
  | (t1, Err e) => (t1 ++ [Logged (message e)], Ok tt)
  end.

Definition k8s_upload (t : DeployTarget) : FleetM string := mret (imageRef t).

Definition k8s_start (remoteImageRef : string) (t : DeployTarget) : FleetM (DeployHandle K8sKept) :=
  instanceId ← asks (fun tr => Str.join "" (Str.split "-" (uuid tr)));
  pod ← ask (CreatePod namespace (podSpecFor t remoteImageRef instanceId))
          (Some (DEPLOY_CREATE_TIMEOUT_MS, "k8s createNamespacedPod(" +:+ q (m_name t) +:+ ")"));
  match str_prop "name" (oprop "metadata" pod) with
  | Some n => mret {| id := n; kept := {| containerName := m_name t; instanceId := instanceId |} |}
  | None => fail (plain "Cannot read properties of undefined (reading 'name')")
  end.

Definition k8s_teardown (h : DeployHandle K8sKept) : FleetM unit :=
  k8s_stop h ;;
  match instanceId (kept h) with EmptyString => mret tt | _ => deleteServices h end.

Definition pod_handle (pod : json) : option (DeployHandle K8sKept) :=
  match str_prop "name" (oprop "metadata" pod), oprop "containers" (oprop "spec" pod) with
  | Some n, JArr (c :: _) =>
      Some {| id := n; kept := {| containerName := or_default "" (str_prop "name" c);
                instanceId := or_default "" (str_prop INSTANCE_LABEL (oprop "labels" (oprop "metadata" pod))) |} |}
  | _, _ => None
  end.

Definition k8s_list : FleetM (list (DeployHandle K8sKept)) :=
  podList ← ask (ListPods namespace LABEL_SELECTOR) (Some (DEPLOY_READ_TIMEOUT_MS, "k8s listNamespacedPod()"));
  match oprop "items" podList with
  | JArr pods => match mapM pod_handle pods with Some hs => mret hs | None => fail (plain "Cannot read properties of undefined") end
  | _ => fail (plain "podList.items.map is not a function")
  end.

(** The Service of one instance and port: it selects the instance's pod. *)
Definition service_body (serviceName instanceId : string) (port : Z) (type : string) : json :=
  JObj [("metadata", JObj [("name", JStr serviceName)]);
        ("spec", JObj [("selector", JObj [(INSTANCE_LABEL, JStr instanceId)]);
                       ("ports", JArr [JObj [("port", JNum port); ("targetPort", JNum port)]]);
                       ("type", JStr type)])].

Definition already_exists (e : err) : bool :=
  match reason e with Some r => String.eqb r "AlreadyExists" | None => false end ||
  match code e with Some c => Z.eqb c 409 | None => false end.

Definition service_name (kind instanceId : string) (port : Z) : string :=
  "berth-" +:+ kind +:+ "-" +:+ Str.take 12 instanceId +:+ "-" +:+ JsNumber.to_string port.

Definition k8s_previewUrl (h : DeployHandle K8sKept) (port : Z) : FleetM (option string) :=
  match instanceId (kept h) with
  | EmptyString => mret None
  | i =>
      let serviceName := service_name "preview" i port in
      let url := serviceName +:+ "." +:+ namespace +:+ ".svc.cluster.local:" +:+ JsNumber.to_string port in
      fun t =>
        match ask (CreateService namespace (service_body serviceName i port "ClusterIP"))
                (Some (DEPLOY_CREATE_TIMEOUT_MS, "k8s createNamespacedService(" +:+ q serviceName +:+ ")")) t with
        | (t1, Ok _) => (t1, Ok (Some url))
        | (t1, Err e) => if already_exists e then (t1, Ok (Some url)) else (t1 ++ [Logged (message e)], Ok None)
        end
  end.

(** [spec?.ports?.[0]?.nodePort], as it is written in the URL. *)
Definition node_port (service : json) : option Z :=
  match oprop "ports" (oprop "spec" service) with
  | JArr (p :: _) => match oprop "nodePort" p with JNum n => if Z.eqb n 0 then None else Some n | _ => None end
  | _ => None
  end.

Definition addresses (nodeList : json) : list json :=
  match oprop "items" nodeList with
  | JArr nodes => mjoin (map (fun n => match oprop "addresses" (oprop "status" n) with JArr l => l | _ => [] end) nodes)
  | _ => []
  end.
Definition address_of (type : string) (l : list json) : option string :=
  match List.find (fun a => match str_prop "type" a with Some t => String.eqb t type | None => false end) l with
  | Some a => str_prop "address" a
  | None => None
  end.
Definition has_type (type : string) (l : list json) : bool :=
  existsb (fun a => match str_prop "type" a with Some t => String.eqb t type | None => false end) l.

Definition reachableNodeIp : FleetM (option string) :=
  nodeList ← ask ListNodes (Some (DEPLOY_READ_TIMEOUT_MS, "k8s listNode()"));
  let l := addresses nodeList in
  mret (if has_type "ExternalIP" l then address_of "ExternalIP" l else address_of "InternalIP" l).

Definition k8s_rpcUrl (h : DeployHandle K8sKept) (port : Z) : FleetM (option string) :=
  match instanceId (kept h) with
  | EmptyString => mret None
  | i =>
      let serviceName := service_name "rpc" i port in
      created ← (fun t =>
        match ask (CreateService namespace (service_body serviceName i port "NodePort"))
                (Some (DEPLOY_CREATE_TIMEOUT_MS, "k8s createNamespacedService(" +:+ q serviceName +:+ ")")) t with
        | (t1, Ok service) => (t1, Ok (Some (node_port service)))
        | (t1, Err e) =>
            if already_exists e then
              (existing ← ask (ReadService namespace serviceName)
                            (Some (DEPLOY_READ_TIMEOUT_MS, "k8s readNamespacedService(" +:+ q serviceName +:+ ")"));
               mret (Some (node_port existing))) t1
            else (t1 ++ [Logged (message e)], Ok None)
        end);
      match created with
      | None => mret None
      | Some None => emit (Logged "no nodePort") (fun _ => Ok None)
      | Some (Some nodePort) =>
          ip ← reachableNodeIp;
          match ip with
          | Some (String c s) => mret (Some ("http://" +:+ String c s +:+ ":" +:+ JsNumber.to_string nodePort))
          | _ => emit (Logged "no node") (fun _ => Ok None)
          end
      end
  end.

Definition createK8sAdapter : DeployAdapter K8sKept :=
  {| a_name := "k8s"; upload := k8s_upload; start := k8s_start; status := k8s_status; teardown := k8s_teardown; rpcUrl := Some k8s_rpcUrl |}.

(** ** adapter-e2b: the handle keeps nothing but its id *)

Definition handle (i : string) : DeployHandle unit := {| id := i; kept := tt |}.

(** [sandbox.sandboxId ?? sandbox.id] *)
Definition sandbox_id (v : json) : option string :=
  match oprop "sandboxId" v with JNull | JUndef => str_prop "id" v | _ => str_prop "sandboxId" v end.

Definition of_sandbox (v : json) : FleetM (DeployHandle unit) :=
  match sandbox_id v with Some i => mret (handle i) | None => mret (handle "undefined") end.

Definition e2b_upload (t : DeployTarget) : FleetM string :=
  template ← ask (TemplateBuild (imageRef t) (m_name t)) (Some (DEPLOY_CREATE_TIMEOUT_MS, "e2b Template.build(" +:+ q (m_name t) +:+ ")"));
  mret (or_default (imageRef t) (str_prop "templateId" template)).

Definition e2b_start (remoteImageRef : string) (t : DeployTarget) : FleetM (DeployHandle unit) :=
  sandbox ← ask (SandboxCreate remoteImageRef (env t)) (Some (DEPLOY_CREATE_TIMEOUT_MS, "e2b Sandbox.create(" +:+ q remoteImageRef +:+ ")"));
  of_sandbox sandbox.

Definition e2b_status (h : DeployHandle unit) : FleetM DeployStatus :=
  running ← ask (SandboxIsRunning (id h)) (Some (DEPLOY_READ_TIMEOUT_MS, "e2b sandbox.isRunning(" +:+ q (id h) +:+ ")"));
  mret (if Governance.truthy running then Running else Stopped).

Definition e2b_teardown (h : DeployHandle unit) : FleetM unit :=
  ask (SandboxKill (id h)) (Some (DEPLOY_READ_TIMEOUT_MS, "e2b teardown(" +:+ q (id h) +:+ ")")) ;; mret tt.

Definition e2b_connect (i : string) : FleetM (DeployHandle unit) :=
  sandbox ← ask (SandboxConnect i) (Some (DEPLOY_READ_TIMEOUT_MS, "e2b Sandbox.connect(" +:+ q i +:+ ")"));
  of_sandbox sandbox.

Fixpoint e2b_connect_all (l : list json) : FleetM (list (DeployHandle unit)) :=
  match l with
  | [] => mret []
  | s :: l => h ← e2b_connect (or_default "undefined" (sandbox_id s)); hs ← e2b_connect_all l; mret (h :: hs)
  end.
Definition e2b_list : FleetM (list (DeployHandle unit)) :=
  summaries ← ask SandboxList (Some (DEPLOY_READ_TIMEOUT_MS, "e2b Sandbox.list()"));
  match summaries with
  | JArr l => e2b_connect_all l
  | JNull | JUndef => mret []
  | _ => fail (plain "(summaries ?? []).map is not a function")
  end.

(** [previewUrl] and [rpcUrl] alike. *)
Definition e2b_url (h : DeployHandle unit) (port : Z) : FleetM (option string) :=
  host ← ask (SandboxHost (id h) port) None;
  mret (match host with JStr (String c s) => Some ("https://" +:+ String c s) | _ => None end).

Definition e2b_pause (h : DeployHandle unit) : FleetM unit :=
  ask (RestCall "/sandboxes/{sandboxID}/pause" (id h) None) (Some (DEPLOY_READ_TIMEOUT_MS, "e2b pause(" +:+ q (id h) +:+ ")")) ;; mret tt.

Definition e2b_resume (i : string) : FleetM (DeployHandle unit) :=
  ask (RestCall "/sandboxes/{sandboxID}/resume" i (Some (JObj [("autoPause", JBool false); ("timeout", JNum 300)])))
    (Some (DEPLOY_CREATE_TIMEOUT_MS, "e2b resume(" +:+ q i +:+ ")")) ;;
  e2b_connect i.

Definition createE2bAdapter : DeployAdapter unit :=
  {| a_name := "e2b"; upload := e2b_upload; start := e2b_start; status := e2b_status; teardown := e2b_teardown; rpcUrl := Some e2b_url |}.

(** ** adapter-daytona: the handle keeps the sandbox as it was when it was got *)

Definition of_daytona (v : json) : DeployHandle json := {| id := or_default "undefined" (str_prop "id" v); kept := v |}.

Definition daytona_status (h : DeployHandle json) : FleetM DeployStatus :=
  mret (match str_prop "state" (kept h) with Some s => if String.eqb s "started" then Running else Stopped | None => Stopped end).

Definition daytona_upload (t : DeployTarget) : FleetM string :=
  snapshot ← ask (SnapshotCreate (m_name t) (imageRef t) (match region t with Some (String c r) => Some (String c r) | _ => None end))
               (Some (DEPLOY_CREATE_TIMEOUT_MS, "daytona snapshot.create(" +:+ q (m_name t) +:+ ")"));
  mret (or_default (imageRef t) (str_prop "name" snapshot)).

Definition daytona_start (remoteImageRef : string) (t : DeployTarget) : FleetM (DeployHandle json) :=
  sandbox ← ask (DaytonaCreate remoteImageRef (env t)) (Some (DEPLOY_CREATE_TIMEOUT_MS, "daytona create(" +:+ q remoteImageRef +:+ ")"));
  mret (of_daytona sandbox).

Definition daytona_teardown (h : DeployHandle json) : FleetM unit :=
  ask (DaytonaStop (id h)) (Some (DEPLOY_READ_TIMEOUT_MS, "daytona teardown(" +:+ q (id h) +:+ ")")) ;; mret tt.

Definition daytona_connect (i : string) : FleetM (DeployHandle json) :=
  sandbox ← ask (DaytonaGet i) (Some (DEPLOY_READ_TIMEOUT_MS, "daytona get(" +:+ q i +:+ ")"));
  mret (of_daytona sandbox).

Definition daytona_list : FleetM (list (DeployHandle json)) :=
  l ← ask DaytonaList None;
  mret (match l with JArr l => map of_daytona l | _ => [] end).

Definition getPreviewLink (h : DeployHandle json) (port : Z) : FleetM json :=
  ask (PreviewLink (id h) port) (Some (DEPLOY_READ_TIMEOUT_MS, "daytona getPreviewLink(" +:+ JsNumber.to_string port +:+ ")")).

(** [url.searchParams.set("DAYTONA_SANDBOX_AUTH_KEY", token)] on a parsed URL. *)
Context (with_key : string -> string -> option string).

Definition daytona_previewUrl (h : DeployHandle json) (port : Z) : FleetM (option string) :=
  or_value (link ← getPreviewLink h port; mret (str_prop "url" link)) None.

Definition daytona_rpcUrl (h : DeployHandle json) (port : Z) : FleetM (option string) :=
  or_value (link ← getPreviewLink h port;
            match str_prop "token" link, str_prop "url" link with
            | Some (String c token), Some url =>
                match with_key url (String c token) with Some u => mret (Some u) | None => fail (plain "Invalid URL") end
            | Some (String _ _), None => fail (plain "Invalid URL")
            | _, url => mret url
            end) None.

Definition daytona_fork (h : DeployHandle json) (name : option string) : FleetM (DeployHandle json) :=
  forked ← ask (DaytonaFork (id h) name) (Some (DEPLOY_CREATE_TIMEOUT_MS, "daytona fork(" +:+ q (id h) +:+ ")"));
  mret (of_daytona forked).

Definition daytona_snapshot (h : DeployHandle json) (name : string) : FleetM unit :=
  ask (DaytonaSnapshot (id h) name) (Some (DEPLOY_CREATE_TIMEOUT_MS, "daytona createSnapshot(" +:+ q name +:+ ")")) ;; mret tt.

Definition createDaytonaAdapter : DeployAdapter json :=
  {| a_name := "daytona"; upload := daytona_upload; start := daytona_start; status := daytona_status;
     teardown := daytona_teardown; rpcUrl := Some daytona_rpcUrl |}.
End adapters.

(** ** fleet-computer.ts *)

Record DeployComputerOptions := {
  o_port : Z; o_image : string; o_name : string; o_resources : option (option Z * option Z * option Z);
  o_apps : list Governance.App; o_rpcAppName : option string; o_env : list (string * string);
  o_governance : option Governance.mode
}.

Section deploy.
Context {H : Type} (adapter : DeployAdapter H) (authToken : string).

(** One attempt after another of one thing, as [withReadyRetry] makes them, at
    most [fuel] of them: it gives up with the last error. *)
Fixpoint polled {A} (fuel : nat) (m : FleetM A) : FleetM A := fun t =>
  match m t, fuel with
  | (t1, Ok a), _ => (t1, Ok a)
  | (t1, Err e), O => (t1, Err e)
  | (t1, Err _), S fuel => polled fuel m t1
  end.

Definition status_text (s : DeployStatus) : string :=
  match s with Starting => "starting" | Running => "running" | Stopped => "stopped" | Error_ => "error" end.

(** [health]: what the bridge answers on /healthz. *)
Definition bringUpRpcBridge (health : list event -> string -> result err unit) (attempts : nat) (h : DeployHandle H) (port : Z)
    (rpc : DeployHandle H -> Z -> FleetM (option string)) : FleetM string :=
  polled attempts (s ← status adapter h;
                   match s with
                   | Running => mret tt
                   | _ => fail (plain ("instance is " +:+ q (status_text s) +:+ ", not " +:+ q "running" +:+ " yet"))
                   end) ;;
  url ← polled attempts (url ← rpc h port;
                         match url with
                         | Some (String c u) => mret (String c u)
                         | _ => fail (plain "rpcUrl() has no URL for this instance/port yet")
                         end);
  polled attempts (fun t => (t, health t url)) ;;
  mret url.

Definition deploy_target (o : DeployComputerOptions) : DeployTarget :=
  {| imageRef := o_image o; m_name := o_name o; resources := o_resources o; region := None;
     env := Computer.spread
       ([("BERTH_HTTP_RPC_PORT", JsNumber.to_string (o_port o)); ("BERTH_HTTP_RPC_TOKEN", authToken)] ++
        match o_rpcAppName o with Some (String c n) => [("BERTH_HTTP_RPC_APP", String c n)] | _ => [] end)
       (Computer.spread (o_env o) []) |}.

Record HttpBridgeComputer := { b_handle : DeployHandle H; b_tools : list Governance.Tool; b_url : string }.

(** The [try] around everything that follows [start]. *)
Definition or_teardown {A} (h : DeployHandle H) (m : FleetM A) : FleetM A := fun t =>
  match m t with
  | (t1, Ok c) => (t1, Ok c)
  | (t1, Err e) =>
      ((teardown adapter h t1).1,
       Err (plain ("failed to bring up a Computer via the " +:+ q (a_name adapter) +:+ " fleet adapter: " +:+ message e)))
  end.

Definition deploy (o : DeployComputerOptions) (health : list event -> string -> result err unit) (attempts : nat) : FleetM HttpBridgeComputer :=
  match rpcUrl adapter with
  | None => fail (plain ("the " +:+ q (a_name adapter) +:+ " deploy adapter doesn't support rpcUrl()"))
  | Some rpc =>
      remoteImageRef ← upload adapter (deploy_target o);
      h ← start adapter remoteImageRef (deploy_target o);
      or_teardown h
        (url ← bringUpRpcBridge health attempts h (o_port o) rpc;
         match Governance.applyGovernanceGate (o_apps o) (o_apps o) (Governance.computerToolsFor (o_apps o)) with
         | Ok tools => mret {| b_handle := h; b_tools := tools; b_url := url |}
         | Err (Governance.MultipleGovernors _) => fail (plain "multiple governors")
         end)
  end.

(** What a tool of it asks of the bridge: the export, whatever the app. *)
Definition dispatch (tool : Governance.Tool) (input : json) : json :=
  JObj [("export", JStr (Governance.t_export tool)); ("input", input)].

Definition bridge_stop (c : HttpBridgeComputer) : FleetM unit := teardown adapter (b_handle c).
End deploy.

(** ** Bringing a computer up *)

Section up.
Context {H : Type} (adapter : DeployAdapter H) (authToken : string).

Lemma polled_ok {A} fuel : forall (m : FleetM A) t t1 a, polled fuel m t = (t1, Ok a) -> exists t0, m t0 = (t1, Ok a).
Proof.
  induction fuel as [|fuel IH]; intros m t t1 a; cbn [polled]; destruct (m t) as [t' [b|e]] eqn:Em; try done.
  - intros [= <- <-]. by exists t.
  - intros [= <- <-]. by exists t.
  - apply IH.
Qed.

Lemma bind_inv {A B} (m : FleetM A) (f : A -> FleetM B) t t2 b :
  (m ≫= f) t = (t2, Ok b) -> exists t1 a, m t = (t1, Ok a) /\ f a t1 = (t2, Ok b).
Proof. unfold mbind, M_bind. destruct (m t) as [t1 [a|e]]; [|done]. intros Hf. by exists t1, a. Qed.

Lemma or_teardown_inv {A} h (m : FleetM A) t t' r : or_teardown adapter h m t = (t', r) ->
  match r with Ok a => m t = (t', Ok a) | Err _ => exists t3, t' = (teardown adapter h t3).1 end.
Proof. unfold or_teardown. destruct (m t) as [t1 [a|e]]; intros [= <- <-]; [done|by exists t1]. Qed.

(** [C10] A remote computer is up or taken down. A deploy that returns has seen
    the instance running, has a URL of it, and has had an answer from the bridge
    there; a deploy that throws once the instance is started tears that instance
    down last of all. The instance gets the bridge's port and token whatever the
    caller's environment says. *)
Theorem deploy_tears_down o health attempts t t' r : deploy adapter authToken o health attempts t = (t', r) ->
  JsMap.get "BERTH_HTTP_RPC_TOKEN" (env (deploy_target authToken o)) = Some authToken /\
  JsMap.get "BERTH_HTTP_RPC_PORT" (env (deploy_target authToken o)) = Some (JsNumber.to_string (o_port o)) /\
  match r with
  | Ok c =>
      (exists t0 t1, status adapter (b_handle c) t0 = (t1, Ok Running)) /\
      (exists rpc t0 t1, rpcUrl adapter = Some rpc /\ rpc (b_handle c) (o_port o) t0 = (t1, Ok (Some (b_url c)))) /\
      (exists t0, health t0 (b_url c) = Ok tt) /\ b_url c <> ""
  | Err _ =>
      forall t1 ref t2 h, upload adapter (deploy_target authToken o) t = (t1, Ok ref) ->
        start adapter ref (deploy_target authToken o) t1 = (t2, Ok h) -> rpcUrl adapter <> None ->
        exists t3, t' = (teardown adapter h t3).1
  end.
Proof.
  intros Hd. split_and!.
  1,2: unfold deploy_target; cbn [env]; unfold Computer.spread; generalize (foldl (fun o kv => JsMap.put kv.1 kv.2 o) [] (o_env o)) as base; intros base;
    destruct (o_rpcAppName o) as [[|ch n]|]; cbn [app foldl fst snd]; rewrite ?JsMap.get_put_ne by done;
    rewrite ?JsMap.get_put_eq; rewrite ?JsMap.get_put_ne by done; by rewrite ?JsMap.get_put_eq.
  unfold deploy in Hd. destruct (rpcUrl adapter) as [rpc|] eqn:Erpc.
  2: destruct r as [c|e]; [discriminate Hd|done].
  destruct r as [c|e].
  - apply bind_inv in Hd as (t1 & ref & _ & Hd). apply bind_inv in Hd as (t2 & h & _ & Hd). apply or_teardown_inv in Hd as Eb.
    apply bind_inv in Eb as (t4 & url & Eb & Ec). destruct (Governance.applyGovernanceGate _ _ _) as [tools|[names]]; [|discriminate Ec].
    injection Ec as _ <-. unfold bringUpRpcBridge in Eb.
    apply bind_inv in Eb as (t5 & u & Es & Eb). apply bind_inv in Eb as (t6 & url' & Eu & Eb). apply bind_inv in Eb as (t7 & u' & Eh & Eb).
    injection Eb as _ ->. cbn [b_handle b_url].
    apply polled_ok in Es as (t8 & Es). apply bind_inv in Es as (t9 & s & Es & Hs).
    apply polled_ok in Eu as (t10 & Eu). apply bind_inv in Eu as (t11 & url'' & Eu & Hu).
    apply polled_ok in Eh as (t12 & Eh). injection Eh as _ Eh.
    destruct s; try discriminate Hs. destruct url'' as [[|ch u2]|]; try discriminate Hu. injection Hu as _ <-.
    split_and!; [by eexists _, _|by eexists _, _, _|exists t12; by destruct u'|done].
  - intros t1 ref t2 h Hu Hs _. unfold mbind, M_bind in Hd. rewrite Hu, Hs in Hd. by apply or_teardown_inv in Hd.
Qed.

(** The bridge is not told the app: two apps' exports of one name are the same request. *)
Theorem bridge_ignores_app (tool tool' : Governance.Tool) input :
  Governance.t_export tool = Governance.t_export tool' -> dispatch tool input = dispatch tool' input.
Proof. unfold dispatch. by intros ->. Qed.
End up.

(** ** What is left of a Kubernetes deploy *)

(** A Service as the API server keeps it is matched by a label selector through
    its own labels, which stand in its metadata. *)
Definition own_label (body : json) : option string := str_prop INSTANCE_LABEL (oprop "labels" (oprop "metadata" body)).
Definition selected (selector : string) (body : json) : bool :=
  match own_label body with Some i => String.eqb selector (INSTANCE_LABEL +:+ "=" +:+ i) | None => false end.
Definition keep_services (services : list json) (e : event) : list json :=
  match e with
  | Asked (CreateService _ body) true => services ++ [body]
  | Asked (DeleteServices _ selector) true => List.filter (fun b => negb (selected selector b)) services
  | _ => services
  end.
Definition services_after (t : list event) : list json := foldl keep_services [] t.

Lemma services_snoc t e : services_after (t ++ [e]) = keep_services (services_after t) e.
Proof. unfold services_after. by rewrite foldl_app. Qed.

(** Taking an instance down deletes none of its Services: they are made without
    labels of their own, and are asked for by label. *)
Theorem services_outlive_teardown sdk ns name i port type h t :
  service_body name i port type ∈ services_after t -> service_body name i port type ∈ services_after (k8s_teardown sdk ns h t).1.
Proof.
  intros Hin.
  assert (Hk : forall c ok, match c with CreateService _ _ => False | _ => True end ->
    forall t, service_body name i port type ∈ services_after t -> service_body name i port type ∈ services_after (t ++ [Asked c ok])).
  { intros c ok Hc t1 H1. rewrite services_snoc. destruct c; try done; destruct ok; try done. cbn [keep_services].
    apply list_elem_of_In, filter_In. split; [by apply list_elem_of_In|done]. }
  unfold k8s_teardown, k8s_stop, mbind, M_bind, ask. destruct (withTimeout _ _ _) as [v|e]; cbn [fst is_ok mret M_ret]; [|by apply Hk].
  destruct (instanceId (kept h)) eqn:Ei; [by apply Hk|]. unfold deleteServices, ask. destruct (withTimeout _ _ _) as [v2|e2]; cbn [fst is_ok].
  - by apply Hk, Hk.
  - rewrite services_snoc. by apply Hk, Hk.
Qed.

(** A Daytona handle says the state the sandbox was in when it was got: no
    number of polls sees it start. *)
Theorem daytona_status_frozen h fuel t : str_prop "state" (kept h) <> Some "started" ->
  forall A (k : FleetM A), (polled fuel (s ← daytona_status h; match s with Running => k | _ => fail (plain "not running yet") end) t)
    = (t, Err (plain "not running yet")).
Proof.
  intros Hn A k.
  assert (Hs : forall t, (s ← daytona_status h; match s with Running => k | _ => fail (plain "not running yet") end) t = (t, Err (plain "not running yet"))).
  { intros t0. unfold daytona_status, mbind, M_bind, mret, M_ret. destruct (str_prop "state" (kept h)) as [s|]; [|done].
    destruct (String.eqb_spec s "started"); [congruence|done]. }
  induction fuel as [|fuel IH]; cbn [polled]; rewrite Hs; [done|exact IH].
Qed.

(** A provider that accepts everything but never reports the instance running. *)
Definition never_runs (t : list event) (c : call) : Attempt :=
  match c with
  | CreatePod _ _ => (Some 10%Z, Ok (JObj [("metadata", JObj [("name", JStr "agent-x1")])]))
  | ReadPod _ _ => (Some 10%Z, Ok (JObj [("status", JObj [("phase", JStr "Pending")])]))
  | _ => (Some 10%Z, Ok JNull)
  end.
Definition demo_deploy : DeployComputerOptions :=
  {| o_port := 7300; o_image := "img"; o_name := "agent"; o_resources := None; o_apps := []; o_rpcAppName := None; o_env := [];
     o_governance := None |}.

Lemma deploy_tears_down_witness :
  let a := createK8sAdapter never_runs None (fun _ => "1-2") in
  let r := deploy a "tok" demo_deploy (fun _ _ => Ok tt) 2 [] in
  is_ok r.2 = false /\ exists h t3, r.1 = (teardown a h t3).1.
Proof.
  set (a := createK8sAdapter never_runs None (fun _ => "1-2")). cbv zeta.
  destruct (deploy a "tok" demo_deploy (fun _ _ => Ok tt) 2 []) as [t' r] eqn:E1.
  assert (Hr : is_ok r = false) by (change r with (t', r).2; rewrite <- E1; vm_compute; reflexivity).
  destruct (deploy_tears_down a "tok" demo_deploy (fun _ _ => Ok tt) 2 [] t' r E1) as (_ & _ & H).
  split; [exact Hr|]. destruct r as [c|e]; [discriminate Hr|].
  edestruct H as [t3 Ht3]; [vm_compute; reflexivity|vm_compute; reflexivity|done|]. by eexists _, t3.
Defined.
End Fleet.
