(* ===== verification/Network.v ===== *)
(** * Networked agents (experimental/agents/src/network.ts)

    A peer is a computer with one app more, written to disk for the purpose: an
    agent server that runs a loop over its siblings' tools. The program text of
    that server is a template and is not modelled; its manifest, its tool list
    and the way its task tool is reached are. *)
From S2P Require Import Prelude JsNumber Json JsonParse Trace Governance Computer.

Module Network.
Import Json.

Definition DEFAULT_NETWORK_NAME : string := "berth-agent-net".
Definition DEFAULT_FLEET_RPC_PORT : Z := 7300.

Section network.
(** [inputSchemaFor]: the schema of an app's export. *)
Context (inputSchemaFor : string -> string -> json).

Record EmbeddedToolSpec := { e_name : string; e_description : string; e_inputSchema : json; e_app : string; e_export : string }.

Definition q (s : string) : string := String dq_char (s +:+ String dq_char "").

Definition embeddedToolsFor (apps : list Governance.App) : list EmbeddedToolSpec :=
  let namespaced := 1 <? length apps in
  mjoin (map (fun app => map (fun e =>
    {| e_name := if namespaced then Governance.name app +:+ "__" +:+ e else e;
       e_description := "Berth resident app export " +:+ q e +:+ " (from " +:+ Governance.name app +:+ "'s berth.yml)";
       e_inputSchema := inputSchemaFor (Governance.name app) e; e_app := Governance.name app; e_export := e |})
    (Governance.exports app)) apps).

(** What the template embeds, as [JSON.stringify] writes it. *)
Definition embedded_json (s : EmbeddedToolSpec) : json :=
  JObj [("name", JStr (e_name s)); ("description", JStr (e_description s)); ("inputSchema", e_inputSchema s);
        ("appName", JStr (e_app s)); ("exportName", JStr (e_export s))].

(** The manifest, line by line; the dash of its description is one code unit. *)
Definition em_dash : string := String (ascii_of_nat 151) "".
Definition invoke_line (app : Governance.App) : string := "  - app:invoke:" +:+ Governance.name app.
Definition manifest_lines (name : string) (siblingApps : list Governance.App) : list string :=
  ["name: " +:+ name; "version: 0.1.0";
   "description: " +:+ q ("Synthesized by @berthos/agents " +:+ em_dash +:+ " runs an in-container agent loop reachable as a Crew.networked() peer");
   ""; "capabilities:";
   "  # v1 simplification: unrestricted egress rather than a scoped broker " +:+ em_dash +:+ " the";
   "  # existing egress broker only host-matches browser:navigate:* today (see";
   "  # docs/egress-broker-reference.md). Documented follow-up in";
   "  # docs/agents-reference.md.";
   "  - network:connect:*"] ++
  map invoke_line siblingApps ++
  [""; "exports:"; "  - name: run_task"; "    input: { task: string }"; "    output: { text: string }"; ""; "on_install: []"; "on_agent_ready: []"; ""].
Definition renderManifestYaml (name : string) (siblingApps : list Governance.App) : string :=
  Str.join (String (ascii_of_nat 10) "") (manifest_lines name siblingApps).

Definition renderPackageJson (name : string) : json :=
  JObj [("name", JStr name); ("version", JStr "0.1.0"); ("private", JBool true); ("type", JStr "module"); ("main", JStr "dist/index.js");
        ("dependencies", JObj [("@berthos/sdk", JStr "file:./vendor/berth-sdk.tgz"); ("zod", JStr "^3.24.1")])].

(** The app [generateAgentServerApp] writes, as its manifest declares it. *)
Definition agent_server (name : string) : Governance.App :=
  {| Governance.name := name; Governance.governs := false; Governance.exempt := false; Governance.exports := ["run_task"] |}.

Definition agentServerName (peer : string) : string := peer +:+ "-agent-server".

(** [bootNetworkedAgent] without [fleet]: the computer has its siblings' apps
    and then the server. *)
Definition peer_options (load : string -> result string Governance.App) (apps : list string) (serverDir : string)
    (network : option string) (env : list (string * string)) : Computer.BootComputerOptions :=
  {| Computer.dirs := apps ++ [serverDir]; Computer.network := Some (or_default DEFAULT_NETWORK_NAME network); Computer.o_env := env;
     Computer.o_http := None; Computer.o_enforcement := None; Computer.o_governance := None |}.

(** The tool a manager is given: the peer's name, and the call it makes of the computer. *)
Record PeerTool := { p_name : string; p_description : string; p_calls : string }.
Definition peer_tool (name : string) : PeerTool :=
  {| p_name := name;
     p_description := "Delegate a task to the networked " +:+ q name +:+ " agent, running independently in its own computer.";
     p_calls := agentServerName name +:+ "__run_task" |}.

(** ** What a peer can reach, and how it is reached *)

(** Every tool the server is given belongs to an app its manifest may invoke,
    and the manifest invokes no other. *)
Theorem embedded_tools_declared name siblings :
  Forall (fun s => ("  - app:invoke:" +:+ e_app s) ∈ manifest_lines name siblings) (embeddedToolsFor siblings) /\
  (forall line, line ∈ manifest_lines name siblings -> Str.starts_with "  - app:invoke:" line = true -> line ∈ map invoke_line siblings).
Proof.
  split.
  - apply Forall_forall. intros s Hs. apply list_elem_of_join in Hs as (l & Hs & Hl). apply list_elem_of_In, in_map_iff in Hl as (a & <- & Ha).
    apply list_elem_of_In, in_map_iff in Hs as (e & <- & He). cbn [e_app]. unfold manifest_lines. apply elem_of_app. right.
    apply elem_of_app. left. apply list_elem_of_In. apply in_map_iff. by exists a.
  - intros line Hin Hp. unfold manifest_lines in Hin. apply elem_of_app in Hin as [Hin|Hin]; [|apply elem_of_app in Hin as [Hin|Hin]; [done|]].
    all: repeat (apply elem_of_cons in Hin as [->|Hin]; [vm_compute in Hp; discriminate Hp|]); by apply elem_of_nil in Hin.
Qed.

(** The tool of a peer calls a tool its computer has: the siblings are at least
    one, so the server's export is found under its qualified name. *)
Theorem peer_tool_found load apps dir specs name : apps <> [] ->
  Computer.resolveComputerApps load (apps ++ [dir]) = Ok specs -> load dir = Ok (agent_server (agentServerName name)) ->
  exists t, t ∈ Governance.computerToolsFor (map Computer.app specs) /\ Governance.t_name t = p_calls (peer_tool name) /\
    Governance.t_app t = agentServerName name /\ Governance.t_export t = "run_task".
Proof.
  intros Ha Hr Hl. apply Computer.resolveComputerApps_spec in Hr as (_ & _ & Hd & Hf).
  assert (Hin : agent_server (agentServerName name) ∈ map Computer.app specs).
  { assert (Hdir : dir ∈ map Computer.appDir specs) by (rewrite Hd; apply elem_of_app; right; by left).
    apply list_elem_of_In, in_map_iff in Hdir as (s & <- & Hs). rewrite Forall_forall in Hf. specialize (Hf s). rewrite Hf in Hl by by apply list_elem_of_In.
    injection Hl as <-. apply list_elem_of_In, in_map_iff. by exists s. }
  assert (Hlen : Governance.namespaced (map Computer.app specs) = true).
  { unfold Governance.namespaced. apply Nat.ltb_lt. rewrite length_map, <- (length_map Computer.appDir), Hd, length_app. destruct apps; [done|cbn; lia]. }
  unfold Governance.computerToolsFor. rewrite Hlen.
  exists {| Governance.t_name := Governance.toolNameFor (agentServerName name) "run_task" true; Governance.t_app := agentServerName name;
             Governance.t_export := "run_task"; Governance.t_gate := None |}.
  split; [|by split_and!]. apply list_elem_of_join. eexists. split; [|apply list_elem_of_In, in_map_iff; eexists; split; [reflexivity|by apply list_elem_of_In]].
  cbn. left.
Qed.
End network.
End Network.
