(* ===== verification/Snapshot.v ===== *)
(** * Snapshots of a sandbox (packages/docker-orchestrator/src/snapshot.ts)

    A snapshot is a directory: the committed image, two archives and three JSON
    files. Every call of Docker or of the file system may fail, wherever it
    stands; what it did, or that it failed, is an event, and the files are what
    the events left. *)
From S2P Require Import Prelude Json JsonParse Trace Wp Paths Secrets.

Module Snapshot.
Import Json JsonParse Trace Wp NodePath.

(** ** Calls and files *)

Inductive op : Type :=
| Mkdir (path : string) (mode : option Z) | Chmod (path : string) (mode : Z)
| Commit (repo tag : string) | SaveImage (ref path : string) | RemoveImage (ref : string)
| Archive (containerPath path : string) | WriteFile (path text : string) (mode : option Z)
| ReadFile (path : string) | LoadImage (path : string) | Extract (tar dir : string).

Inductive event : Type :=
| Did (o : op)
| Failed (o : op)
| Logged (name : string) (fields : list (string * json)).

Record Outside := {
  fails : list event -> op -> option string;
  torn : list event -> string -> string;           (* what a failed write of a text leaves *)
  now_iso : list event -> string;                  (* new Date().toISOString() *)
  uuid : list event -> string;
  parse : string -> option json;                   (* JSON.parse *)
  pretty : json -> string                          (* JSON.stringify(v, null, 2) *)
}.

Record SnapshotMetadata := {
  s_id : string; s_appName : string; createdAt : string; imageTag : string; contextDataPath : string; contextIndexDbPath : string;
  redactedEnvNames : option (list string)
}.

Definition DEFAULT_CONTEXT_DATA_PATH : string := "/var/berth/context-data".
Definition DEFAULT_CONTEXT_INDEX_DB_PATH : string := "/var/berth/context-index.db".

Record CreateSnapshotOptions := {
  appName : string; manifest : list (string * json); env : list (string * string);
  o_contextDataPath : option string; o_contextIndexDbPath : option string; snapshotsDir : string
}.

Definition metadata_json (m : SnapshotMetadata) : json :=
  JObj ([("id", JStr (s_id m)); ("appName", JStr (s_appName m)); ("createdAt", JStr (createdAt m)); ("imageTag", JStr (imageTag m));
         ("contextDataPath", JStr (contextDataPath m)); ("contextIndexDbPath", JStr (contextIndexDbPath m))] ++
        match redactedEnvNames m with Some l => [("redactedEnvNames", JArr (map JStr l))] | None => [] end).
Definition env_json (e : list (string * string)) : json := JObj (map (fun kv => (kv.1, JStr kv.2)) e).

(** What stands at a path: the text last written there. *)
Definition file_step (w : Outside) (p : string) (acc : list event * option string) (e : event) : list event * option string :=
  let '(t, o) := acc in
  (t ++ [e], match e with
             | Did (WriteFile p' s _) => if String.eqb p' p then Some s else o
             | Failed (WriteFile p' s _) => if String.eqb p' p then Some (torn w t s) else o
             | _ => o
             end).
Definition text_at (w : Outside) (p : string) (t : list event) : option string := (foldl (file_step w p) ([], None) t).2.

Section snapshot.
Context (w : Outside).
Abbreviation SnapM := (@M event string).

Definition call (o : op) : SnapM unit := fun t =>
  match fails w t o with None => (t ++ [Did o], Ok tt) | Some e => (t ++ [Failed o], Err e) end.

Definition logSnapshotEvent (name : string) (fields : list (string * json)) : SnapM unit :=
  emit (Logged name fields) (fun _ => Ok tt).

(** [.catch((err) => log)] *)
Definition or_log (m : SnapM unit) (name : string) (fields : string -> list (string * json)) : SnapM unit := fun t =>
  match m t with
  | (t1, Ok _) => (t1, Ok tt)
  | (t1, Err e) => (t1 ++ [Logged name (fields e)], Ok tt)
  end.

(** [try { ... } catch (err) { log; throw err }] *)
Definition or_log_and_throw {A} (m : SnapM A) (name : string) (fields : string -> list (string * json)) : SnapM A := fun t =>
  match m t with
  | (t1, Ok a) => (t1, Ok a)
  | (t1, Err e) => (t1 ++ [Logged name (fields e)], Err e)
  end.

(** [toISOString().replace(/[:.]/g, "-")] *)
Definition snapshot_id (iso : string) : string :=
  Str.map (fun c => if Ascii.eqb c ":" || Ascii.eqb c "." then "-"%char else c) iso.

Definition metadata_of (o : CreateSnapshotOptions) (id now : string) : SnapshotMetadata :=
  let strippedNames := (Secrets.stripSecretEnv (env o)).2 in
  {| s_id := id; s_appName := appName o; createdAt := now; imageTag := "berth-snapshot-" +:+ appName o +:+ ":" +:+ id;
     contextDataPath := or_default DEFAULT_CONTEXT_DATA_PATH (o_contextDataPath o);
     contextIndexDbPath := or_default DEFAULT_CONTEXT_INDEX_DB_PATH (o_contextIndexDbPath o);
     redactedEnvNames := match strippedNames with [] => None | _ => Some strippedNames end |}.

(** The image and the archives. *)
Definition capture (o : CreateSnapshotOptions) (id dir : string) : SnapM unit :=
  let imageTag := "berth-snapshot-" +:+ appName o +:+ ":" +:+ id in
  call (Mkdir dir (Some 448%Z)) ;;
  call (Chmod dir 448) ;;
  call (Commit ("berth-snapshot-" +:+ appName o) id) ;;
  call (SaveImage imageTag (join [dir; "image.tar"])) ;;
  or_log (call (RemoveImage imageTag)) "snapshot_image_cleanup_failed"
    (fun e => [("appName", JStr (appName o)); ("snapshotId", JStr id); ("imageTag", JStr imageTag); ("error", JStr e)]) ;;
  call (Archive (or_default DEFAULT_CONTEXT_DATA_PATH (o_contextDataPath o)) (join [dir; "context-data.tar"])) ;;
  call (Archive (or_default DEFAULT_CONTEXT_INDEX_DB_PATH (o_contextIndexDbPath o)) (join [dir; "context-index-db.tar"])).

(** The three files. *)
Definition write_files (o : CreateSnapshotOptions) (dir : string) (m : SnapshotMetadata) : SnapM unit :=
  call (WriteFile (join [dir; "metadata.json"]) (pretty w (metadata_json m)) None) ;;
  call (WriteFile (join [dir; "manifest.json"]) (pretty w (JObj (manifest o))) None) ;;
  call (WriteFile (join [dir; "env.json"]) (pretty w (env_json (Secrets.stripSecretEnv (env o)).1)) (Some 384%Z)) ;;
  call (Chmod (join [dir; "env.json"]) 384).

Definition createSnapshot (o : CreateSnapshotOptions) : SnapM (string * string) :=
  id ← asks (fun t => snapshot_id (now_iso w t));
  let dir := join [snapshotsDir o; appName o; id] in
  or_log_and_throw
    (capture o id dir ;;
     now ← asks (now_iso w);
     let m := metadata_of o id now in
     write_files o dir m ;;
     match redactedEnvNames m with
     | Some names => logSnapshotEvent "snapshot_env_redacted"
                       [("appName", JStr (appName o)); ("snapshotId", JStr id); ("redactedEnvNames", JArr (map JStr names))]
     | None => mret tt
     end ;;
     logSnapshotEvent "snapshot_created" [("appName", JStr (appName o)); ("snapshotId", JStr id); ("imageTag", JStr (imageTag m))] ;;
     mret (id, dir))
    "snapshot_create_failed" (fun e => [("appName", JStr (appName o)); ("snapshotId", JStr id); ("error", JStr e)]).

(** [basename] of a path without a trailing slash. *)
Definition basename (p : string) : string := List.last (Str.split slash p) "".

Record RestoredSnapshot := {
  metadata : json; r_manifest : json; r_env : json; contextDataHostDir : string; contextIndexDbHostFile : string; r_redacted : json
}.

(** [JSON.parse(await readFile(path))] *)
Definition read_json (path : string) : SnapM json :=
  call (ReadFile path) ;;
  text ← asks (text_at w path);
  match text with
  | None => fail ("ENOENT: no such file or directory, open '" +:+ path +:+ "'")
  | Some s => match parse w s with Some v => mret v | None => fail "SyntaxError" end
  end.

(** [basename(metadata.contextDataPath)]: what is not a string throws. *)
Definition base_prop (k : string) (m : json) : SnapM string :=
  match oprop k m with JStr s => mret (basename s) | _ => fail "ERR_INVALID_ARG_TYPE" end.

Definition restoreSnapshot (snapshotDir : string) : SnapM RestoredSnapshot :=
  or_log_and_throw
    (metadata ← read_json (join [snapshotDir; "metadata.json"]);
     manifest ← read_json (join [snapshotDir; "manifest.json"]);
     env ← read_json (join [snapshotDir; "env.json"]);
     call (LoadImage (join [snapshotDir; "image.tar"])) ;;
     restoreId ← asks (uuid w);
     let extractDir := join [snapshotDir; "restored"; restoreId; "context-data"] in
     call (Mkdir extractDir None) ;;
     call (Extract (join [snapshotDir; "context-data.tar"]) extractDir) ;;
     base ← base_prop "contextDataPath" metadata;
     let contextDataHostDir := join [extractDir; base] in
     let extractIndexDbDir := join [snapshotDir; "restored"; restoreId; "context-index-db"] in
     call (Mkdir extractIndexDbDir None) ;;
     call (Extract (join [snapshotDir; "context-index-db.tar"]) extractIndexDbDir) ;;
     base ← base_prop "contextIndexDbPath" metadata;
     let contextIndexDbHostFile := join [extractIndexDbDir; base] in
     logSnapshotEvent "snapshot_restored" [("appName", oprop "appName" metadata); ("snapshotId", oprop "id" metadata);
       ("imageTag", oprop "imageTag" metadata); ("restoreId", JStr restoreId)] ;;
     mret {| metadata := metadata; r_manifest := manifest; r_env := env; contextDataHostDir := contextDataHostDir;
             contextIndexDbHostFile := contextIndexDbHostFile;
             r_redacted := match oprop "redactedEnvNames" metadata with JNull | JUndef => JArr [] | l => l end |})
    "snapshot_restore_failed" (fun e => [("snapshotDir", JStr snapshotDir); ("error", JStr e)]).

(** [localeCompare] on the times, which are ISO strings. *)
Definition created (m : json) : string := match oprop "createdAt" m with JStr s => s | _ => "" end.
Fixpoint insert_sorted (m : json) (l : list json) : list json :=
  match l with
  | [] => [m]
  | x :: l => if Str.ltb (created m) (created x) then m :: x :: l else x :: insert_sorted m l
  end.

Definition readable (appDir entry : string) : list event -> option json := fun t =>
  match fails w t (ReadFile (join [appDir; entry; "metadata.json"])), text_at w (join [appDir; entry; "metadata.json"]) t with
  | None, Some s => parse w s
  | _, _ => None
  end.

(** Sorting two or more compares them all: a time that is no string throws. *)
Definition comparable (l : list json) : bool :=
  match l with
  | _ :: _ :: _ => forallb (fun m => match oprop "createdAt" m with JStr _ => true | _ => false end) l
  | _ => true
  end.

(** [entries] is what [readdir] gives, [None] when it throws. *)
Definition listSnapshots (entries : option (list string)) (appDir : string) (t : list event) : option (list json) :=
  match entries with
  | None => Some []
  | Some entries =>
      let results := omap (fun e => readable appDir e t) entries in
      if comparable results then Some (foldl (fun l m => insert_sorted m l) [] results) else None
  end.

Definition snapshotDirFor (appName id snapshotsDir : string) : string := join [snapshotsDir; appName; id].
End snapshot.

(** ** Secrets stay out *)

Definition public (n : string) : bool := negb (Secrets.isSecretEnvName n) && negb (bool_decide (n ∈ Secrets.BOOT_SCOPED_ENV_NAMES)).

(** Two environments that differ in the values of secrets at most. *)
Definition same_public (e e' : list (string * string)) : Prop :=
  Forall2 (fun a b => a.1 = b.1 /\ (public a.1 = true -> a.2 = b.2)) e e'.

Definition boot_scoped (n : string) : bool := bool_decide (n ∈ Secrets.BOOT_SCOPED_ENV_NAMES).
Definition plain_eq (e e' : list (string * string)) : Prop :=
  Forall2 (fun a b => a.1 = b.1 /\ (boot_scoped a.1 = false -> a.2 = b.2)) e e'.

Lemma plain_eq_put k v v' e e' : plain_eq e e' -> (boot_scoped k = false -> v = v') -> plain_eq (JsMap.put k v e) (JsMap.put k v' e').
Proof.
  intros H Hv. induction H as [|[k1 v1] [k2 v2] e e' [Hk Hp] H IH]; cbn [JsMap.put]; [by repeat constructor|].
  cbn in Hk, Hp. subst k2. destruct (decide (k = k1)) as [->|Hne].
  - constructor; [done|exact H].
  - constructor; [done|exact IH].
Qed.

Lemma keys_put_eq {A} (k : string) (v v' : A) e e' : e.*1 = e'.*1 -> (JsMap.put k v e).*1 = (JsMap.put k v' e').*1.
Proof. intros H. by rewrite !JsMap.keys_put, H. Qed.

Lemma partition_same e e' : same_public e e' -> forall acc acc',
  plain_eq (Secrets.plain acc) (Secrets.plain acc') -> (Secrets.secret acc).*1 = (Secrets.secret acc').*1 ->
  let p := foldl (Secrets.partition_one []) acc e in let p' := foldl (Secrets.partition_one []) acc' e' in
  plain_eq (Secrets.plain p) (Secrets.plain p') /\ (Secrets.secret p).*1 = (Secrets.secret p').*1.
Proof.
  intros H. induction H as [|[k v] [k' v'] e e' [Hk Hp] H IH]; intros acc acc' Ha Hs; [done|]. cbn [foldl].
  cbn in Hk, Hp. subst k'. unfold public in Hp.
  apply IH; unfold Secrets.partition_one, JsObj.assign; rewrite bool_decide_eq_false_2 by set_solver; cbn [orb].
  all: destruct (Secrets.isSecretEnvName k); cbn [Secrets.plain Secrets.secret]; try done.
  all: destruct (String.eqb k "__proto__"); try done.
  - apply plain_eq_put; [done|]. intros Hb. apply Hp. unfold boot_scoped in Hb. by rewrite Hb.
  - by apply keys_put_eq.
Qed.

Lemma plain_eq_remove e e' : plain_eq e e' ->
  foldl (fun o name => JsMap.remove name o) e Secrets.BOOT_SCOPED_ENV_NAMES =
  foldl (fun o name => JsMap.remove name o) e' Secrets.BOOT_SCOPED_ENV_NAMES.
Proof.
  intros H. cbn [foldl Secrets.BOOT_SCOPED_ENV_NAMES]. unfold JsMap.remove.
  induction H as [|[k v] [k' v'] e e' [Hk Hp] H IH]; [done|]. cbn in Hk, Hp. subst k'.
  unfold boot_scoped, Secrets.BOOT_SCOPED_ENV_NAMES in Hp.
  destruct (decide (k = "BERTH_SECRETS_FILE")) as [->|H1].
  { by rewrite !(filter_cons_False _ (_, _)) by (cbn; congruence). }
  rewrite !(filter_cons_True (fun kv => kv.1 <> "BERTH_SECRETS_FILE") (_, _)) by done.
  destruct (decide (k = "BERTH_APP_SECRETS_DIR")) as [->|H2].
  { by rewrite !(filter_cons_False _ (_, _)) by (cbn; congruence). }
  rewrite !(filter_cons_True _ (_, _)) by done.
  rewrite Hp by (apply bool_decide_eq_false_2; set_solver). by f_equal.
Qed.

Lemma strip_same e e' : same_public e e' -> Secrets.stripSecretEnv e = Secrets.stripSecretEnv e'.
Proof.
  intros H. unfold Secrets.stripSecretEnv, Secrets.partitionSecretEnv.
  destruct (partition_same e e' H {| Secrets.plain := []; Secrets.secret := [] |} {| Secrets.plain := []; Secrets.secret := [] |}) as [Hp Hs];
    [constructor|done|].
  change (JsSet.of_list []) with (@nil string). cbv zeta. f_equal; [by apply plain_eq_remove|by rewrite Hs].
Qed.

Definition with_env (e : list (string * string)) (o : CreateSnapshotOptions) : CreateSnapshotOptions :=
  {| appName := appName o; manifest := manifest o; env := e; o_contextDataPath := o_contextDataPath o;
     o_contextIndexDbPath := o_contextIndexDbPath o; snapshotsDir := snapshotsDir o |}.

(** [C4] Nothing a snapshot does or writes depends on the value of a secret:
    two environments that differ only in such values, on every path, failing
    ones included, leave the same calls, the same files and the same log. *)
Theorem snapshot_hides_secrets w o e e' t : same_public e e' -> createSnapshot w (with_env e o) t = createSnapshot w (with_env e' o) t.
Proof.
  intros H%strip_same. unfold createSnapshot, capture, write_files, metadata_of, with_env. cbn [env appName manifest snapshotsDir o_contextDataPath o_contextIndexDbPath].
  by rewrite H.
Qed.

(** ** What a snapshot keeps is what it gives back *)

Lemma file_fold_trace w p t : forall acc, (foldl (file_step w p) acc t).1 = acc.1 ++ t.
Proof.
  induction t as [|e t IH]; intros [t0 o]; cbn [foldl fst]; [by rewrite app_nil_r|]. rewrite IH. cbn. by rewrite <- app_assoc.
Qed.
Lemma text_snoc w p t e : text_at w p (t ++ [e]) =
  match e with
  | Did (WriteFile p' s _) => if String.eqb p' p then Some s else text_at w p t
  | Failed (WriteFile p' s _) => if String.eqb p' p then Some (torn w t s) else text_at w p t
  | _ => text_at w p t
  end.
Proof.
  unfold text_at. rewrite foldl_app. cbn [foldl]. pose proof (file_fold_trace w p t ([], None)) as H.
  destruct (foldl (file_step w p) ([], None) t) as [t0 o]. cbn in H. subst t0. done.
Qed.

Definition writes (e : event) : bool := match e with Did (WriteFile _ _ _) | Failed (WriteFile _ _ _) => true | _ => false end.
Lemma text_quiet w p t u : Forall (fun e => writes e = false) u -> text_at w p (t ++ u) = text_at w p t.
Proof.
  induction u as [|e u IH] using rev_ind; [by rewrite app_nil_r|]. intros [Hu He]%Forall_app. apply Forall_inv in He.
  rewrite app_assoc, text_snoc, (IH Hu). destruct e as [[]|[]|]; done.
Qed.

Lemma wp_call w o t (Post : list event -> result string unit -> Prop) :
  (fails w t o = None -> Post (t ++ [Did o]) (Ok tt)) -> (forall e, fails w t o = Some e -> Post (t ++ [Failed o]) (Err e)) -> wp (call w o) t Post.
Proof. intros H1 H2. unfold wp, call. destruct (fails w t o); cbn; auto. Qed.

Lemma wp_or_log m name fields t (Post : list event -> result string unit -> Prop) :
  wp m t (fun t1 r => match r with Ok _ => Post t1 (Ok tt) | Err e => Post (t1 ++ [Logged name (fields e)]) (Ok tt) end) -> wp (or_log m name fields) t Post.
Proof. unfold wp, or_log. by destruct (m t) as [t1 [[]|e]]. Qed.

Lemma wp_or_throw {A} m name fields t (Post : list event -> result string A -> Prop) :
  wp m t (fun t1 r => match r with Ok a => Post t1 (Ok a) | Err e => Post (t1 ++ [Logged name (fields e)]) (Err e) end) -> wp (or_log_and_throw m name fields) t Post.
Proof. unfold wp, or_log_and_throw. by destruct (m t) as [t1 [a|e]]. Qed.

Lemma join_snoc_seg segs a : segs <> [] -> Str.join "/" (segs ++ [a]) = Str.join "/" segs +:+ "/" +:+ a.
Proof.
  induction segs as [|x segs IH]; [done|]. intros _. destruct segs as [|y segs]; [done|].
  change (Str.join "/" ((x :: y :: segs) ++ [a])) with (x +:+ "/" +:+ Str.join "/" ((y :: segs) ++ [a])).
  change (Str.join "/" (x :: y :: segs)) with (x +:+ "/" +:+ Str.join "/" (y :: segs)).
  rewrite IH by done. by rewrite <- !app_assoc_str.
Qed.

Lemma join_cons segs a fs : segs <> [] -> good a -> join (abs_path segs :: a :: fs) = join (abs_path (segs ++ [a]) :: fs).
Proof.
  intros Hs Ha. assert (E1 : abs_path (segs ++ [a]) = abs_path segs +:+ "/" +:+ a).
  { unfold abs_path. by rewrite (join_snoc_seg segs a Hs), <- app_assoc_str. }
  unfold join. rewrite !(filter_cons_True _ (abs_path _)) by done. rewrite (filter_cons_True _ a) by apply Ha.
  f_equal. rewrite E1. destruct (filter _ fs) as [|f l]; [done|].
  change (Str.join "/" (abs_path segs :: a :: f :: l)) with (abs_path segs +:+ "/" +:+ a +:+ "/" +:+ Str.join "/" (f :: l)).
  change (Str.join "/" ((abs_path segs +:+ "/" +:+ a) :: f :: l)) with ((abs_path segs +:+ "/" +:+ a) +:+ "/" +:+ Str.join "/" (f :: l)).
  by rewrite <- !app_assoc_str.
Qed.

Lemma join_file_ne dsegs a b : Forall good dsegs -> good a -> good b -> a <> b -> String.eqb (join [abs_path dsegs; a]) (join [abs_path dsegs; b]) = false.
Proof.
  intros Hd Ha Hb Hn. rewrite !join_abs_path by done. apply String.eqb_neq. intros H. apply abs_path_inj in H.
  - apply app_inj_tail in H as [_ H]. done.
  - apply Forall_app_2; auto.
  - apply Forall_app_2; auto.
Qed.

Lemma good_files : good "metadata.json" /\ good "manifest.json" /\ good "env.json".
Proof. by vm_compute. Qed.

(** The directory of a snapshot. *)
Definition dir_of (segs : list string) (o : CreateSnapshotOptions) (id : string) : list string := segs ++ [appName o; id].

Lemma dir_join segs o id : segs <> [] -> Forall good segs -> good (appName o) -> good id -> snapshotsDir o = abs_path segs ->
  join [snapshotsDir o; appName o; id] = abs_path (dir_of segs o id) /\ Forall good (dir_of segs o id) /\ dir_of segs o id <> [].
Proof.
  intros Hs Hg Ha Hi ->. unfold dir_of. rewrite join_cons, join_abs_path by (done || (apply Forall_app_2; auto)).
  rewrite <- app_assoc. split_and!; [done|apply Forall_app_2; auto|by destruct segs].
Qed.

(** What a snapshot that was created has on disk. *)
Definition snapshot_files (w : Outside) (d : list string) (m : SnapshotMetadata) (mf : list (string * json)) (e : list (string * string)) (t : list event) : Prop :=
  text_at w (join [abs_path d; "metadata.json"]) t = Some (pretty w (metadata_json m)) /\
  text_at w (join [abs_path d; "manifest.json"]) t = Some (pretty w (JObj mf)) /\
  text_at w (join [abs_path d; "env.json"]) t = Some (pretty w (env_json e)).

Lemma created_files w o segs t : segs <> [] -> Forall good segs -> good (appName o) -> (forall t, good (snapshot_id (now_iso w t))) ->
  snapshotsDir o = abs_path segs ->
  wp (createSnapshot w o) t (fun t1 r => match r with
    | Ok (id, dir) => dir = abs_path (dir_of segs o id) /\ good id /\
        exists now, snapshot_files w (dir_of segs o id) (metadata_of o id now) (manifest o) (Secrets.stripSecretEnv (env o)).1 t1
    | Err _ => True
    end).
Proof.
  intros Hs Hg Ha Hi Hd. unfold createSnapshot. apply wp_bind, wp_asks. cbv beta iota.
  set (id := snapshot_id (now_iso w t)). pose proof (Hi t) as Hid. fold id in Hid.
  destruct (dir_join segs o id Hs Hg Ha Hid Hd) as (Hj & Hgd & Hne). rewrite Hj.
  set (d := dir_of segs o id) in *. apply wp_or_throw. apply wp_bind.
  apply (wp_conseq _ _ (fun _ _ => True)); [done|]. intros t1 [[]|e] _; [|done].
  apply wp_bind, wp_asks. cbv beta iota. set (m := metadata_of o id (now_iso w t1)). apply wp_bind. unfold write_files.
  destruct good_files as (G1 & G2 & G3).
  repeat (apply wp_bind; apply wp_call; [intros _|done]). apply wp_call; [intros _|done].
  assert (Hf : snapshot_files w d m (manifest o) (Secrets.stripSecretEnv (env o)).1
    ((((t1 ++ [Did (WriteFile (join [abs_path d; "metadata.json"]) (pretty w (metadata_json m)) None)]) ++
     [Did (WriteFile (join [abs_path d; "manifest.json"]) (pretty w (JObj (manifest o))) None)]) ++
     [Did (WriteFile (join [abs_path d; "env.json"]) (pretty w (env_json (Secrets.stripSecretEnv (env o)).1)) (Some 384%Z))]) ++
     [Did (Chmod (join [abs_path d; "env.json"]) 384)])).
  { unfold snapshot_files. rewrite !text_snoc, !String.eqb_refl, !join_file_ne by done. done. }
  revert Hf. generalize ((((t1 ++ [Did (WriteFile (join [abs_path d; "metadata.json"]) (pretty w (metadata_json m)) None)]) ++
     [Did (WriteFile (join [abs_path d; "manifest.json"]) (pretty w (JObj (manifest o))) None)]) ++
     [Did (WriteFile (join [abs_path d; "env.json"]) (pretty w (env_json (Secrets.stripSecretEnv (env o)).1)) (Some 384%Z))]) ++
     [Did (Chmod (join [abs_path d; "env.json"]) 384)]) as t2. intros t2 Hf.
  assert (Hq : forall t name fields, snapshot_files w d m (manifest o) (Secrets.stripSecretEnv (env o)).1 t ->
    snapshot_files w d m (manifest o) (Secrets.stripSecretEnv (env o)).1 (t ++ [Logged name fields])).
  { intros t0 name fields. unfold snapshot_files. by rewrite !text_snoc. }
  unfold logSnapshotEvent. wp_steps; split_and!; try done; eexists; by repeat apply Hq.
Qed.

Lemma clean_strings l : map clean (map JStr l) = map JStr l.
Proof. rewrite map_map. by apply map_ext. Qed.
Lemma clean_env_fields e : clean_fields (map (fun kv : string * string => (kv.1, JStr kv.2)) e) = map (fun kv => (kv.1, JStr kv.2)) e.
Proof. unfold clean_fields. induction e as [|[k v] e IH]; [done|]. cbn. f_equal. exact IH. Qed.
Lemma clean_metadata m : clean (metadata_json m) = metadata_json m.
Proof. unfold metadata_json. destruct (redactedEnvNames m); cbn; [|done]. by rewrite clean_strings. Qed.

(** What [JSON.stringify] with an indentation writes, [JSON.parse] reads. *)
Definition reads_back (w : Outside) : Prop := forall o, parse w (pretty w (JObj o)) = Some (JObj (clean_fields o)).

Definition flawless (w : Outside) : Prop := forall t o, fails w t o = None.

Lemma wp_read w p v s t (Post : list event -> result string json -> Prop) :
  text_at w p t = Some s -> parse w s = Some v ->
  Post (t ++ [Did (ReadFile p)]) (Ok v) -> (forall t1 e, ~ flawless w -> Post t1 (Err e)) -> wp (read_json w p) t Post.
Proof.
  intros Ht Hp Hok Hbad. unfold read_json. apply wp_bind, wp_call.
  - intros _. apply wp_bind, wp_asks. cbv beta iota. rewrite text_snoc, Ht, Hp. exact Hok.
  - intros e He. apply Hbad. intros Hf. by rewrite Hf in He.
Qed.

(** The paths of a restore under one id. *)
Definition restored (d : list string) (rid kind base : string) : string := join [join [abs_path d; "restored"; rid; kind]; base].

Lemma restored_path d rid kind base : d <> [] -> Forall good d -> good rid -> good kind -> good base ->
  Forall good (d ++ ["restored"; rid; kind; base]) /\ restored d rid kind base = abs_path (d ++ ["restored"; rid; kind; base]).
Proof.
  intros Hn Hd Hr Hk Hb. assert (Hgr : good "restored") by by vm_compute.
  split; [apply Forall_app_2; auto|]. unfold restored.
  rewrite (join_cons d "restored"), (join_cons _ rid) by (done || by intros []%app_eq_nil).
  rewrite join_abs_path, join_abs_path by (repeat apply Forall_app_2; auto). by rewrite <- !app_assoc.
Qed.

Lemma restore_reads w d m mf e t : reads_back w -> snapshot_files w d m mf e t ->
  wp (restoreSnapshot w (abs_path d)) t (fun t1 r => match r with
    | Ok r => metadata r = metadata_json m /\ r_manifest r = JObj (clean_fields mf) /\ r_env r = env_json e /\
              r_redacted r = JArr (map JStr (or_default [] (redactedEnvNames m))) /\
              (exists t0, length t <= length t0 < length t1 /\
                 contextDataHostDir r = restored d (uuid w t0) "context-data" (basename (contextDataPath m)) /\
                 contextIndexDbHostFile r = restored d (uuid w t0) "context-index-db" (basename (contextIndexDbPath m))) /\
              exists u, t1 = t ++ u /\ u <> [] /\ Forall (fun e => writes e = false) u
    | Err _ => ~ flawless w
    end).
Proof.
  intros Hr (H1 & H2 & H3). unfold restoreSnapshot. apply wp_or_throw, wp_bind.
  eapply wp_read; [exact H1|apply Hr| |by intros]. apply wp_bind.
  eapply wp_read; [by rewrite text_snoc|apply Hr| |by intros]. apply wp_bind.
  eapply wp_read; [by rewrite !text_snoc|apply Hr| |by intros]. rewrite clean_env_fields.
  assert (Em : JObj (clean_fields ([("id", JStr (s_id m)); ("appName", JStr (s_appName m)); ("createdAt", JStr (createdAt m)); ("imageTag", JStr (imageTag m));
         ("contextDataPath", JStr (contextDataPath m)); ("contextIndexDbPath", JStr (contextIndexDbPath m))] ++
        match redactedEnvNames m with Some l => [("redactedEnvNames", JArr (map JStr l))] | None => [] end)) = metadata_json m) by apply clean_metadata.
  rewrite Em. clear Em.
  assert (Hd : oprop "contextDataPath" (metadata_json m) = JStr (contextDataPath m)) by done.
  assert (Hx : oprop "contextIndexDbPath" (metadata_json m) = JStr (contextIndexDbPath m)) by done.
  assert (Hn : match oprop "redactedEnvNames" (metadata_json m) with JNull | JUndef => JArr [] | l => l end = JArr (map JStr (or_default [] (redactedEnvNames m)))).
  { unfold metadata_json. by destruct (redactedEnvNames m). }
  unfold base_prop, logSnapshotEvent. rewrite Hd, Hx.
  repeat (lazymatch goal with |- wp (call _ _) _ _ => apply wp_call; [intros _|intros e0 He0 Hf; by rewrite Hf in He0] | _ => wp_step end).
  cbn [metadata r_manifest r_env r_redacted contextDataHostDir contextIndexDbHostFile]. split_and!; try done.
  - eexists. split_and!; [| |reflexivity|reflexivity]; rewrite !length_app; cbn; lia.
  - rewrite <- !app_assoc. eexists. split_and!; [reflexivity|done|]. repeat constructor.
Qed.


(** ** Witnesses *)

Definition demo_outside (f : op -> bool) : Outside :=
  {| fails _ o := if f o then Some "EIO" else None; torn _ _ := ""; now_iso _ := "2026-01-02T03:04:05.006Z"; uuid _ := "u";
     parse := JsonParse.parse; pretty := JsonParse.stringify |}.
Definition demo_snapshot (token : string) : CreateSnapshotOptions :=
  {| appName := "notes"; manifest := [("name", JStr "notes")]; env := [("PATH", "/bin"); ("GITHUB_TOKEN", token)];
     o_contextDataPath := None; o_contextIndexDbPath := None; snapshotsDir := abs_path ["snapshots"] |}.

(** A create that fails once the metadata is written throws, and its directory
    is listed as a snapshot all the same. *)
Definition no_manifest (o : op) : bool :=
  match o with WriteFile p _ _ => Str.ends_with "manifest.json" p | _ => false end.
Theorem failed_create_is_listed :
  let w := demo_outside no_manifest in
  let r := createSnapshot w (demo_snapshot "x") [] in
  r.2 = Err "EIO" /\
  exists m, listSnapshots w (Some ["2026-01-02T03-04-05-006Z"]) "/snapshots/notes" r.1 = Some [m] /\ oprop "appName" m = JStr "notes" /\
    is_ok (restoreSnapshot w (snapshotDirFor "notes" "2026-01-02T03-04-05-006Z" "/snapshots") r.1).2 = false.
Proof. split; [vm_compute; reflexivity|]. eexists. split_and!; vm_compute; reflexivity. Qed.

Lemma snapshot_hides_secrets_witness :
  createSnapshot (demo_outside (fun _ => false)) (demo_snapshot "tok-1") [] = createSnapshot (demo_outside (fun _ => false)) (demo_snapshot "tok-2") [].
Proof.
  apply (snapshot_hides_secrets (demo_outside (fun _ => false)) (demo_snapshot "") [("PATH", "/bin"); ("GITHUB_TOKEN", "tok-1")]
    [("PATH", "/bin"); ("GITHUB_TOKEN", "tok-2")]).
  repeat constructor. cbn [fst snd]. intros H. vm_compute in H. discriminate H.
Defined.

End Snapshot.
