(* ===== verification/ImageCache.v ===== *)
(** * The build cache of images (packages/docker-orchestrator/src/image.ts)

    A build keeps one image per app, target and checkout under a reference of
    its own, and removes what it replaces. What the daemon answers depends on
    what it has been asked so far; a request it carried out is an event. *)
From S2P Require Import Prelude Trace Paths.

Module ImageCache.
Import Trace NodePath.

(** ** Names *)

(** The repository of a tag, and the tag part when there is one. *)
Definition splitTag (tag : string) : string * option string :=
  let repository := List.hd "" (Str.split "@" tag) in
  match Str.last_index_of ":" repository with
  | None => (repository, None)
  | Some colon =>
      if match Str.last_index_of "/" repository with None => true | Some s => s <? colon end
      then (Str.take colon repository, Some (Str.drop (S colon) repository))
      else (repository, None)
  end.

Inductive BuildTarget := dev | production.
Definition target_name (t : BuildTarget) : string := match t with dev => "dev" | production => "production" end.

(** [[A-Za-z0-9_.-]] *)
Definition ref_char (c : ascii) : bool :=
  Str.is_lower c || Str.is_upper c || Str.is_digit c || Ascii.eqb c "_" || Ascii.eqb c "." || Ascii.eqb c "-".
Definition sanitize (s : string) : string := Str.map (fun c => if ref_char c then c else "_"%char) s.

Definition CACHE_REPO : string := "berth-build-cache:".
Definition legacyBuildCacheRef (tag : string) (target : BuildTarget) : string :=
  CACHE_REPO +:+ Str.take 128 (sanitize (target_name target +:+ "-" +:+ (splitTag tag).1)).

Section checkouts.
Context (cwd : string) (realpath : string -> option string) (sha256 : string -> string).

Definition checkoutId (appDir : string) : string :=
  let absolute := resolve cwd [appDir] in
  Str.take 8 (sha256 (or_default absolute (realpath absolute))).

Definition checkoutTag (tag appDir : string) : string :=
  let '(repository, tagPart) := splitTag tag in
  let suffix := "-" +:+ checkoutId appDir in
  repository +:+ ":" +:+ Str.take (128 - String.length suffix) (or_default "latest" tagPart) +:+ suffix.

Definition buildCacheRef (tag : string) (target : BuildTarget) (appDir : string) : string :=
  let suffix := "-" +:+ checkoutId appDir in
  Str.take (128 + String.length CACHE_REPO - String.length suffix) (legacyBuildCacheRef tag target) +:+ suffix.
End checkouts.

(** ** The daemon *)

Definition BUILD_CACHE_LABEL : string := "io.berthos.build-cache".
Definition SWEEP_MIN_AGE_SECONDS : Z := 600.

(** What an inspection or a listing says of an image. *)
Record image := {
  Id : string; ParentId : string; RepoTags : option (list string); Labels : option (list (string * string)); Created : Z
}.

Inductive op := Tag (id repo tag : string) | Remove (ref : string).
Inductive event := Did (o : op) | Warned (message : string).

Record Docker := {
  inspect : list event -> string -> option image;
  listDangling : list event -> string -> option (list image);   (* dangling, with this value of the label *)
  listAll : list event -> option (list image);
  refuses : list event -> op -> option string;
  now : list event -> Z                                          (* seconds *)
}.

Definition label_of (i : image) : option string := Labels i ≫= JsMap.get BUILD_CACHE_LABEL.
Definition tags_of (i : image) : list string := or_default [] (RepoTags i).
Definition nonempty (s : string) : option string := match s with "" => None | _ => Some s end.

Definition by_id (images : list image) : list (string * image) := foldl (fun m i => JsMap.put (Id i) i m) [] images.
Definition count_children (images : list image) : list (string * Z) :=
  foldl (fun m i => match nonempty (ParentId i) with
                    | Some p => JsMap.put p (or_default 0 (JsMap.get p m) + 1)%Z m
                    | None => m
                    end) [] images.

Section retain.
Context (d : Docker).
Abbreviation DockerM := (@M event string).

Definition call (o : op) : DockerM unit := attempt (Did o) (fun t => refuses d t o).

(** *** Removing an image and the parents nothing else needs *)

Definition only_own_tag (id : string) (ownTag : option string) (current : string) (i : image) : bool :=
  forallb (fun t => String.eqb t "<none>:<none>" ||
                    (String.eqb current id && match ownTag with Some o => String.eqb t o | None => false end)) (tags_of i).

(** The [while] loop; running out of fuel throws, and never happens. *)
Fixpoint chain (fuel : nat) (byId : list (string * image)) (id : string) (ownTag : option string)
    (children : list (string * Z)) (current : option string) : DockerM unit :=
  match current with
  | None => mret tt
  | Some current =>
      match fuel with
      | O => fail "out of fuel"
      | S fuel =>
          match JsMap.get current byId with
          | None => mret tt
          | Some image =>
              if (0 <? or_default 0 (JsMap.get current children))%Z then mret tt
              else if negb (only_own_tag id ownTag current image) then mret tt
              else
                removed ← or_value (call (Remove current) ;; mret true) false;
                if (removed : bool) then
                  let parent := nonempty (ParentId image) in
                  chain fuel byId id ownTag
                    (match parent with
                     | Some p => JsMap.put p (or_default 1 (JsMap.get p children) - 1)%Z children
                     | None => children
                     end) parent
                else mret tt
          end
      end
  end.

Definition removeUnsharedChain (id : string) (ownTag : option string) : DockerM unit :=
  images ← asks (listAll d);
  match images with
  | None => mret tt
  | Some images => chain (S (length images)) (by_id images) id ownTag (count_children images) (nonempty id)
  end.

(** *** What a build replaces *)

Fixpoint retire_previous (builtId cacheRef : string) (ids : list (option string)) (retired : list string) : DockerM (list string) :=
  match ids with
  | [] => mret retired
  | id :: ids =>
      match id ≫= nonempty with
      | None => retire_previous builtId cacheRef ids retired
      | Some id =>
          if String.eqb id builtId then retire_previous builtId cacheRef ids retired
          else
            old ← asks (fun t => inspect d t id);
            match old with
            | Some old =>
                if match label_of old with None => true | Some _ => false end then retire_previous builtId cacheRef ids retired
                else if existsb (fun t => negb (String.eqb t cacheRef)) (tags_of old) then retire_previous builtId cacheRef ids retired
                else retire_previous builtId cacheRef ids (retired ++ [id])
            | None => retire_previous builtId cacheRef ids retired
            end
      end
  end.

(** The [for] loop up the parents; [None] is out of fuel. *)
Fixpoint builtOnBerthImage (fuel : nat) (byId : list (string * image)) (cacheRef parentId : string) : option bool :=
  match JsMap.get parentId byId with
  | None => Some false
  | Some parent =>
      if match label_of parent with Some l => String.eqb l cacheRef | None => false end then Some true
      else match fuel with O => None | S fuel => builtOnBerthImage fuel byId cacheRef (ParentId parent) end
  end.

Fixpoint sweep (byId : list (string * image)) (fuel : nat) (builtId cacheRef : string) (cutoff : Z) (dangling : list image)
    (retired : list string) : DockerM (list string) :=
  match dangling with
  | [] => mret retired
  | image :: dangling =>
      if String.eqb (Id image) builtId || (cutoff <? Created image)%Z then sweep byId fuel builtId cacheRef cutoff dangling retired
      else match builtOnBerthImage fuel byId cacheRef (ParentId image) with
           | None => fail "out of fuel"
           | Some true => sweep byId fuel builtId cacheRef cutoff dangling retired
           | Some false => sweep byId fuel builtId cacheRef cutoff dangling (retired ++ [Id image])
           end
  end.

Fixpoint remove_all (ids : list string) : DockerM unit :=
  match ids with [] => mret tt | id :: ids => removeUnsharedChain id None ;; remove_all ids end.

(** The reference older versions used. *)
Definition reclaim_legacy (builtId cacheRef : string) (legacyRef : option string) : DockerM unit :=
  match legacyRef ≫= nonempty with
  | None => mret tt
  | Some legacyRef =>
      if String.eqb legacyRef cacheRef then mret tt
      else
        legacy ← asks (fun t => inspect d t legacyRef);
        match legacy with
        | Some legacy =>
            if negb (String.eqb (Id legacy) builtId) && match label_of legacy with Some l => String.eqb l legacyRef | None => false end
               && forallb (fun t => String.eqb t legacyRef) (tags_of legacy)
            then removeUnsharedChain (Id legacy) (Some legacyRef)
            else mret tt
        | None => mret tt
        end
  end.

Definition retainLatestBuildOrThrow (tag cacheRef : string) (previousIds : list (option string)) (legacyRef : option string) : DockerM unit :=
  built ← asks (fun t => inspect d t tag);
  match built with
  | None => mret tt
  | Some built =>
      let split := or_default 0 (Str.last_index_of ":" cacheRef) in
      call (Tag (Id built) (Str.take split cacheRef) (Str.drop (S split) cacheRef)) ;;
      retired ← retire_previous (Id built) cacheRef (JsSet.of_list previousIds) [];
      dangling ← asks (fun t => or_default [] (listDangling d t cacheRef));
      retired ← match dangling with
                | [] => mret retired
                | _ =>
                    all ← asks (fun t => or_default [] (listAll d t));
                    cutoff ← asks (fun t => now d t - SWEEP_MIN_AGE_SECONDS)%Z;
                    sweep (by_id all) (length all) (Id built) cacheRef cutoff dangling retired
                end;
      remove_all (JsSet.of_list retired) ;;
      reclaim_legacy (Id built) cacheRef legacyRef
  end.

(** A failure is a warning. *)
Definition retainLatestBuild (tag cacheRef : string) (previousIds : list (option string)) (legacyRef : option string) : DockerM unit := fun t =>
  match retainLatestBuildOrThrow tag cacheRef previousIds legacyRef t with
  | (t, Ok _) => (t, Ok tt)
  | (t, Err e) => (t ++ [Warned ("[berth:build] couldn't update the build cache for " +:+ tag +:+ ": " +:+ e)], Ok tt)
  end.

Definition removeImageKeepingCache (tag : string) : DockerM unit := or_value (call (Remove tag)) tt.
End retain.

(** ** Listings *)

Definition parentOf (images : list image) (x : string) : option string :=
  JsMap.get x (by_id images) ≫= fun i => nonempty (ParentId i).
Definition kids (images : list image) (x : string) : list image := filter (fun i => nonempty (ParentId i) = Some x) images.
Definition gone (images : list image) (x : string) (v : list string) : list string := filter (fun y => parentOf images y = Some x) v.

Lemma by_id_snoc images i : by_id (images ++ [i]) = JsMap.put (Id i) i (by_id images).
Proof. unfold by_id. by rewrite foldl_app. Qed.

Lemma by_id_get images x i : JsMap.get x (by_id images) = Some i -> i ∈ images /\ Id i = x.
Proof.
  induction images as [|j images IH] using rev_ind; [done|]. rewrite by_id_snoc, JsMap.get_put. case_decide; subst.
  - intros [= ->]. set_solver.
  - intros [? ?]%IH. set_solver.
Qed.

Lemma by_id_elem images i : NoDup (Id <$> images) -> i ∈ images -> JsMap.get (Id i) (by_id images) = Some i.
Proof.
  induction images as [|j images IH] using rev_ind; [set_solver|]. rewrite fmap_app, NoDup_app, by_id_snoc, JsMap.get_put.
  intros (Hn & Hd & _) [Hi|Hi]%elem_of_app; [|apply list_elem_of_singleton in Hi as ->; by rewrite decide_True].
  rewrite decide_False; [by apply IH|]. intros Hij. apply (Hd (Id i)); [by apply list_elem_of_fmap_2|]. rewrite Hij. set_solver.
Qed.

Lemma kids_snoc images i x :
  kids (images ++ [i]) x = kids images x ++ (if decide (nonempty (ParentId i) = Some x) then [i] else []).
Proof. unfold kids. rewrite filter_app. by cbn; case_decide. Qed.

Lemma count_children_get images x :
  JsMap.get x (count_children images) = match kids images x with [] => None | l => Some (Z.of_nat (length l)) end.
Proof.
  induction images as [|i images IH] using rev_ind; [done|]. rewrite kids_snoc. unfold count_children. rewrite foldl_app.
  fold (count_children images). cbn [foldl]. destruct (nonempty (ParentId i)) as [p|] eqn:Ep.
  - rewrite JsMap.get_put. case_decide as Hd.
    + subst p. rewrite decide_True, IH by done. destruct (kids images x) as [|k l]; [done|]. cbn [or_default app length].
      f_equal. rewrite length_app. cbn. lia.
    + rewrite decide_False, app_nil_r by congruence. done.
  - rewrite decide_False, app_nil_r by done. done.
Qed.

Lemma parentOf_kid images x y : parentOf images y = Some x -> exists i, i ∈ kids images x /\ Id i = y.
Proof.
  unfold parentOf. destruct (JsMap.get y (by_id images)) as [i|] eqn:Ei; [|done]. cbn. intros Hp.
  apply by_id_get in Ei as [? ?]. exists i. split; [|done]. by apply list_elem_of_filter.
Qed.

Lemma gone_le images x v : NoDup v -> length (gone images x v) <= length (kids images x).
Proof.
  intros Hv. rewrite <-(length_fmap Id). apply submseteq_length, NoDup_submseteq; [by apply NoDup_filter|].
  intros y [Hy _]%list_elem_of_filter. apply parentOf_kid in Hy as (i & Hi & <-). by apply list_elem_of_fmap_2.
Qed.

Lemma gone_all images x v z :
  NoDup v -> length (kids images x) <= length (gone images x v) -> parentOf images z = Some x -> z ∈ v.
Proof.
  intros Hv Hl Hz. destruct (decide (z ∈ v)) as [|Hn]; [done|]. exfalso.
  assert (Hc := gone_le images x (z :: v) (NoDup_cons_2 _ _ Hn Hv)).
  unfold gone in Hc. rewrite filter_cons_True in Hc by done. cbn in Hc. fold (gone images x v) in Hc. lia.
Qed.

(** ** The walk up the parents *)

Section walk.
Context (d : Docker) (images : list image).

Definition removals (xs : list string) : list event := map (fun x => Did (Remove x)) xs.

(** The counts, after the images of [v] have gone. *)
Definition counts_ok (children : list (string * Z)) (v : list string) : Prop :=
  forall x, JsMap.get x children =
    match kids images x with [] => None | l => Some (Z.of_nat (length l) - Z.of_nat (length (gone images x v)))%Z end.
(** What goes, goes after everything built on it. *)
Definition children_first (v : list string) : Prop :=
  forall pre c rest, v = pre ++ c :: rest -> forall z, parentOf images z = Some c -> z ∈ pre.

Lemma counts_start : counts_ok (count_children images) [].
Proof. intros x. rewrite count_children_get. destruct (kids images x); [done|]. cbn. by rewrite Z.sub_0_r. Qed.

Lemma counts_none children v x : counts_ok children v -> NoDup v -> (0 <? or_default 0 (JsMap.get x children))%Z = false ->
  forall z, parentOf images z = Some x -> z ∈ v.
Proof.
  intros Hc Hv Hx z Hz. apply (gone_all images x); [done| |done]. rewrite Hc in Hx.
  destruct (kids images x) as [|k l] eqn:E; [cbn; lia|]. apply Z.ltb_ge in Hx. cbn [or_default] in Hx. rewrite <-E in *. lia.
Qed.

Lemma counts_step children v c i : counts_ok children v -> JsMap.get c (by_id images) = Some i ->
  counts_ok (match nonempty (ParentId i) with
             | Some p => JsMap.put p (or_default 1 (JsMap.get p children) - 1)%Z children
             | None => children
             end) (v ++ [c]).
Proof.
  intros Hc Hi x. assert (Hp : parentOf images c = nonempty (ParentId i)) by (unfold parentOf; by rewrite Hi).
  unfold gone. rewrite filter_app, length_app. fold (gone images x v). cbn [filter list_filter].
  destruct (nonempty (ParentId i)) as [p|] eqn:Ep.
  - rewrite JsMap.get_put. case_decide as Hd.
    + subst p. cbn. rewrite decide_True by done. assert (Hk : exists k, k ∈ kids images x).
      { destruct (parentOf_kid images x c) as (k & Hk & _); [by rewrite Hp|by exists k]. }
      rewrite Hc. destruct Hk as [k Hk]. destruct (kids images x) as [|k0 l] eqn:El; [set_solver|]. cbn [or_default length]. f_equal. lia.
    + cbn. rewrite decide_False by congruence. cbn. rewrite Hc. destruct (kids images x); [done|]. f_equal. cbn [length]. lia.
  - cbn. rewrite decide_False by congruence. cbn. rewrite Hc. destruct (kids images x); [done|]. f_equal. cbn [length]. lia.
Qed.

Lemma children_first_new v c : NoDup v -> children_first v ->
  (forall l, last v = Some l -> parentOf images l = Some c) -> c ∉ v.
Proof.
  intros Hv Hf Hl Hc. apply list_elem_of_split in Hc as (pre & rest & ->). rewrite last_app in Hl. cbn [last] in Hl.
  destruct (last (c :: rest)) as [l|] eqn:El; [|by apply last_None in El].
  assert (Hin : l ∈ pre) by (eapply Hf; [done|by apply Hl]).
  apply NoDup_app in Hv as (_ & Hd & _). apply (Hd l Hin). apply last_Some in El as [l' ->]. set_solver.
Qed.

Lemma children_first_snoc v c : children_first v -> (forall z, parentOf images z = Some c -> z ∈ v) -> children_first (v ++ [c]).
Proof.
  intros Hf Hc pre c' rest. destruct rest as [|r rest _] using rev_ind.
  - intros [-> [= <-]]%app_inj_tail. done.
  - rewrite app_comm_cons, app_assoc. intros [-> _]%app_inj_tail. by eapply Hf.
Qed.

Lemma ids_le v : NoDup v -> Forall (fun x => is_Some (JsMap.get x (by_id images))) v -> length v <= length images.
Proof.
  intros Hv Ha. rewrite <-(length_fmap Id images). apply submseteq_length, NoDup_submseteq; [done|].
  intros x Hx. rewrite Forall_forall in Ha. destruct (Ha x Hx) as [i Hi]. apply by_id_get in Hi as [? <-]. by apply list_elem_of_fmap_2.
Qed.

Lemma chain_spec id ownTag fuel : forall children v current t,
  counts_ok children v -> NoDup v -> children_first v -> Forall (fun x => is_Some (JsMap.get x (by_id images))) v ->
  fuel + length v = S (length images) ->
  (forall c, current = Some c -> forall l, last v = Some l -> parentOf images l = Some c) ->
  exists more, chain d fuel (by_id images) id ownTag children current t = (t ++ removals more, Ok tt) /\
    NoDup (v ++ more) /\ children_first (v ++ more) /\
    Forall (fun x => exists i, JsMap.get x (by_id images) = Some i /\ only_own_tag id ownTag x i = true) more.
Proof.
  induction fuel as [|fuel IH]; intros children v current t Hc Hv Hf Ha Hfuel Hcur.
  { pose proof (ids_le v Hv Ha). lia. }
  assert (Hstop : exists more, (t, Ok tt : result string unit) = (t ++ removals more, Ok tt) /\ NoDup (v ++ more) /\ children_first (v ++ more) /\
    Forall (fun x => exists i, JsMap.get x (by_id images) = Some i /\ only_own_tag id ownTag x i = true) more).
  { exists []. by rewrite !app_nil_r. }
  destruct current as [c|]; [|done]. cbn [chain].
  destruct (JsMap.get c (by_id images)) as [i|] eqn:Ei; [|done].
  destruct (0 <? _)%Z eqn:E0; [done|]. destruct (only_own_tag id ownTag c i) eqn:Eo; [|done]. cbn [negb].
  unfold mbind at 1, M_bind at 1, or_value, call, attempt, mbind, M_bind. destruct (refuses d t (Remove c)); [done|]. cbn.
  assert (Hnew : c ∉ v) by (apply children_first_new; [done..|by apply Hcur]).
  destruct (IH _ (v ++ [c]) (nonempty (ParentId i)) (t ++ [Did (Remove c)]) (counts_step _ v c i Hc Ei)) as (more & E1 & H2 & H3 & H4).
  - apply NoDup_app. split_and!; [done|set_solver|apply NoDup_singleton].
  - apply children_first_snoc; [done|]. by eapply counts_none.
  - apply Forall_app; split; [done|]. apply Forall_singleton. by exists i.
  - rewrite length_app. cbn. lia.
  - intros p Hp l. rewrite last_snoc. intros [= <-]. unfold parentOf. by rewrite Ei.
  - unfold mbind, M_bind in E1. rewrite E1. exists (c :: more). rewrite <-!app_assoc in *. split_and!; [done..|].
    constructor; [by exists i|done].
Qed.
End walk.

(** An image somebody needs: it has a tag other than [ownTag], or an image that
    is needed is built on it. *)
Inductive needed (ownTag : option string) (images : list image) : string -> Prop :=
| needed_tagged i t : i ∈ images -> t ∈ tags_of i -> t <> "<none>:<none>" -> ownTag <> Some t -> needed ownTag images (Id i)
| needed_parent i p : i ∈ images -> needed ownTag images (Id i) -> nonempty (ParentId i) = Some p -> needed ownTag images p.

Lemma only_own_tag_spec id ownTag x i t :
  only_own_tag id ownTag x i = true -> t ∈ tags_of i -> t = "<none>:<none>" \/ ownTag = Some t.
Proof.
  unfold only_own_tag. rewrite forallb_forall. intros H Ht%list_elem_of_In%H. apply orb_true_iff in Ht as [Ht|Ht].
  - left. by apply String.eqb_eq.
  - right. apply andb_true_iff in Ht as [_ Ht]. destruct ownTag; [|done]. apply String.eqb_eq in Ht. by subst.
Qed.

(** The walk returns, whatever the daemon lists or refuses; it removes no image
    twice and none that is needed. *)
Lemma removeUnsharedChain_run d id ownTag t : exists removed,
  removeUnsharedChain d id ownTag t = (t ++ removals removed, Ok tt) /\ NoDup removed /\
  forall images, listAll d t = Some images -> NoDup (Id <$> images) -> forall x, needed ownTag images x -> x ∉ removed.
Proof.
  unfold removeUnsharedChain, asks, mbind at 1, M_bind at 1. destruct (listAll d t) as [images|] eqn:El.
  2:{ exists []. rewrite app_nil_r. split_and!; [done|apply NoDup_nil_2|done]. }
  destruct (chain_spec d images id ownTag (S (length images)) (count_children images) [] (nonempty id) t) as (more & E1 & Hn & Hf & Ha).
  - apply counts_start.
  - apply NoDup_nil_2.
  - intros [|? ?] c rest; discriminate.
  - constructor.
  - cbn. lia.
  - done.
  - exists more. split_and!; [done..|]. intros images' [= <-] Hids x Hx.
    cbn [app] in *. rewrite Forall_forall in Ha. induction Hx as [i tag Hi Ht Hnone Hown|i p Hi _ IH Hp]; intros Hin.
    + destruct (Ha _ Hin) as (i' & Ei & Ho). rewrite by_id_elem in Ei by done. injection Ei as <-.
      by destruct (only_own_tag_spec _ _ _ _ _ Ho Ht).
    + apply list_elem_of_split in Hin as (pre & rest & ->). apply IH. apply elem_of_app; left. eapply Hf; [done|].
      unfold parentOf. by rewrite by_id_elem.
Qed.

(** *** What a sweep looks at *)

(** Parents lead somewhere: no image is among its own ancestors. *)
Definition acyclic (all : list image) : Prop :=
  exists rank : string -> nat, forall i p, i ∈ all -> p ∈ all -> ParentId i = Id p -> rank (Id p) < rank (Id i).

Lemma builtOn_returns all cacheRef rank fuel : forall parentId v,
  (forall i p, i ∈ all -> p ∈ all -> ParentId i = Id p -> rank (Id p) < rank (Id i)) ->
  NoDup v -> v ⊆ Id <$> all -> (forall y p, y ∈ v -> p ∈ all -> Id p = parentId -> rank (Id p) < rank y) ->
  fuel + length v = length all -> is_Some (builtOnBerthImage fuel (by_id all) cacheRef parentId).
Proof.
  induction fuel as [|fuel IH]; intros parentId v Hr Hv Hsub Hlt Hl; cbn [builtOnBerthImage];
    (destruct (JsMap.get parentId (by_id all)) as [p|] eqn:Ep; [|by eexists]); (case_match; [by eexists|]);
    apply by_id_get in Ep as [Hp Hid];
    assert (Hnew : NoDup (v ++ [Id p])) by
      (apply NoDup_app; split_and!; [done| |apply NoDup_singleton]; intros y Hy ->%list_elem_of_singleton; specialize (Hlt _ p Hy Hp Hid); lia).
  - exfalso. assert (Hle : length (v ++ [Id p]) <= length (Id <$> all)).
    { apply submseteq_length, NoDup_submseteq; [done|]. intros y [Hy|Hy]%elem_of_app; [by apply Hsub|].
      apply list_elem_of_singleton in Hy as ->. by apply list_elem_of_fmap_2. }
    rewrite length_app, length_fmap in Hle. cbn in Hle. lia.
  - apply (IH _ (v ++ [Id p])); [done|done| | |rewrite length_app; cbn; lia].
    + intros y [Hy|Hy]%elem_of_app; [by apply Hsub|]. apply list_elem_of_singleton in Hy as ->. by apply list_elem_of_fmap_2.
    + intros y q [Hy|Hy]%elem_of_app Hq Eq.
      * transitivity (rank (Id p)); [by apply Hr|by apply (Hlt _ p)].
      * apply list_elem_of_singleton in Hy as ->. by apply Hr.
Qed.

Inductive has_berth_ancestor (all : list image) (cacheRef : string) : string -> Prop :=
| ancestor_here p : JsMap.get (Id p) (by_id all) = Some p -> label_of p = Some cacheRef -> has_berth_ancestor all cacheRef (Id p)
| ancestor_above p : JsMap.get (Id p) (by_id all) = Some p -> has_berth_ancestor all cacheRef (ParentId p) -> has_berth_ancestor all cacheRef (Id p).

Lemma builtOn_false all cacheRef fuel : forall parentId,
  builtOnBerthImage fuel (by_id all) cacheRef parentId = Some false -> ~ has_berth_ancestor all cacheRef parentId.
Proof.
  induction fuel as [|fuel IH]; intros x; cbn [builtOnBerthImage]; (destruct (JsMap.get x (by_id all)) as [p|] eqn:Ep;
    [|intros _ Ha; by inversion Ha; subst; congruence]).
  - by case_match.
  - destruct (label_of p) as [l|] eqn:El.
    + destruct (String.eqb_spec l cacheRef); [done|]. intros Hb%IH Ha. inversion Ha; subst; congruence.
    + intros Hb%IH Ha. inversion Ha; subst; congruence.
Qed.

(** What becomes a candidate for removal. *)
Definition replaced (d : Docker) (builtId cacheRef x : string) : Prop :=
  x <> builtId /\ exists t i, inspect d t x = Some i /\ is_Some (label_of i) /\ Forall (fun t => t = cacheRef) (tags_of i).
Definition orphan (all dangling : list image) (builtId cacheRef : string) (cutoff : Z) (x : string) : Prop :=
  x <> builtId /\ exists i, i ∈ dangling /\ Id i = x /\ (Created i <= cutoff)%Z /\ ~ has_berth_ancestor all cacheRef (ParentId i).

Lemma retire_previous_spec d builtId cacheRef ids : forall retired t (P : string -> Prop),
  Forall P retired -> (forall x, replaced d builtId cacheRef x -> P x) ->
  exists l, retire_previous d builtId cacheRef ids retired t = (t, Ok l) /\ Forall P l.
Proof.
  induction ids as [|id ids IH]; intros retired t P Hr HP; cbn [retire_previous]; [by exists retired|].
  destruct (id ≫= nonempty) as [x|]; [|by apply IH]. destruct (String.eqb_spec x builtId) as [|Hne]; [by apply IH|].
  unfold mbind, M_bind, asks. destruct (inspect d t x) as [old|] eqn:Eo; [|by apply IH].
  destruct (label_of old) as [l|] eqn:El; [|by apply IH].
  destruct (existsb _ (tags_of old)) eqn:Et; [by apply IH|]. apply IH; [|done]. apply Forall_app; split; [done|].
  apply Forall_singleton, HP. split; [done|]. exists t, old. split_and!; [done|by eexists|].
  apply Forall_forall. intros tag Htag%list_elem_of_In. destruct (String.eqb_spec tag cacheRef) as [|Hn]; [done|].
  exfalso. enough (existsb (fun t => negb (String.eqb t cacheRef)) (tags_of old) = true) by congruence.
  apply existsb_exists. exists tag. split; [done|]. by apply negb_true_iff, String.eqb_neq.
Qed.

Lemma sweep_spec all builtId cacheRef cutoff full dangling : forall retired (t : list event) (P : string -> Prop),
  (forall i, i ∈ dangling -> i ∈ full) -> acyclic all ->
  Forall P retired -> (forall x, orphan all full builtId cacheRef cutoff x -> P x) ->
  exists l, sweep (by_id all) (length all) builtId cacheRef cutoff dangling retired t = (t, Ok l) /\ Forall P l.
Proof.
  intros retired t P Hd [rank Hac] Hr HP. revert retired Hr Hd.
  induction dangling as [|i dangling IH]; intros retired Hr Hd; cbn [sweep]; [by exists retired|].
  assert (Hd' : forall i, i ∈ dangling -> i ∈ full) by (intros; apply Hd; set_solver).
  destruct (_ || _)%bool eqn:E0; [by apply IH|]. apply orb_false_iff in E0 as [E0 E1].
  destruct (builtOn_returns all cacheRef rank (length all) (ParentId i) []) as [b Eb];
    [done|apply NoDup_nil_2|set_solver|set_solver|cbn; lia|]. rewrite Eb. destruct b; [by apply IH|].
  apply IH; [|done]. apply Forall_app; split; [done|]. apply Forall_singleton, HP. split.
  - by apply String.eqb_neq.
  - exists i. split_and!; [apply Hd; set_solver|done|by apply Z.ltb_ge|by eapply builtOn_false].
Qed.

(** ** What a build keeps *)

Lemma run_asks {T E A B} (f : list T -> A) (k : A -> @M T E B) t : (asks f ≫= k) t = k (f t) t.
Proof. done. Qed.
Lemma run_ok {T E A B} (m : @M T E A) (k : A -> @M T E B) t t' a : m t = (t', Ok a) -> (m ≫= k) t = k a t'.
Proof. unfold mbind, M_bind. by intros ->. Qed.
Lemma run_err {T E A B} (m : @M T E A) (k : A -> @M T E B) t t' e : m t = (t', Err e) -> (m ≫= k) t = (t', Err e).
Proof. unfold mbind, M_bind. by intros ->. Qed.

Fixpoint linked (images : list image) (b : string) (layers : list string) : Prop :=
  match layers with
  | [] => True
  | p :: layers => (exists i, i ∈ images /\ Id i = b /\ nonempty (ParentId i) = Some p) /\ linked images p layers
  end.

Lemma linked_needed own images b layers : needed own images b -> linked images b layers -> Forall (needed own images) (b :: layers).
Proof.
  revert b; induction layers as [|p layers IH]; intros b Hb Hl; constructor; try done.
  destruct Hl as [(i & Hi & <- & Hp) Hl]. apply IH; [|done]. by eapply needed_parent.
Qed.

Definition untouched (keep : list string) (t : list event) : Prop := forall x, x ∈ keep -> Did (Remove x) ∉ t.

(** What a daemon does: once it has tagged an image, and until it is asked to
    remove it or what it is built on, the image is listed with its tag and its
    parents; ids are distinct and no image is its own ancestor. *)
Record lists_build (d : Docker) (built cacheRef : string) (layers : list string) : Prop := {
  lists_ids t images : listAll d t = Some images -> NoDup (Id <$> images) /\ acyclic images;
  lists_layers t images repo tag : listAll d t = Some images -> Did (Tag built repo tag) ∈ t -> untouched (built :: layers) t ->
    linked images built layers /\ exists i, i ∈ images /\ Id i = built /\ cacheRef ∈ tags_of i
}.

Section keeps.
Context (d : Docker) (built cacheRef repo tg : string) (layers : list string).
Context (Hd : lists_build d built cacheRef layers) (Hcr : cacheRef <> "<none>:<none>").

Definition in_place (t : list event) : Prop := Did (Tag built repo tg) ∈ t /\ untouched (built :: layers) t.

Lemma in_place_app t removed : in_place t -> (forall x, x ∈ built :: layers -> x ∉ removed) -> in_place (t ++ removals removed).
Proof.
  intros [Ht Hu] Hx. split; [apply elem_of_app; by left|]. intros x Hin [H|H]%elem_of_app; [by eapply Hu|].
  unfold removals in H. apply list_elem_of_fmap in H as (y & [= <-] & Hy). by eapply Hx.
Qed.

Lemma chain_keeps id own t : own <> Some cacheRef -> in_place t -> exists removed,
  removeUnsharedChain d id own t = (t ++ removals removed, Ok tt) /\ in_place (t ++ removals removed) /\
  forall x, x ∈ built :: layers -> x ∉ removed.
Proof.
  intros Hown Hp. destruct (removeUnsharedChain_run d id own t) as (removed & E1 & _ & Hn).
  enough (forall x, x ∈ built :: layers -> x ∉ removed) by (exists removed; split_and!; [done|by apply in_place_app|done]).
  intros x Hx Hr. destruct (listAll d t) as [images|] eqn:El.
  - destruct (lists_ids _ _ _ _ Hd _ _ El) as [Hids _]. destruct Hp as [Ht Hu].
    destruct (lists_layers _ _ _ _ Hd _ _ _ _ El Ht Hu) as (Hl & i & Hi & Eb & Htag).
    refine (Hn images eq_refl Hids x _ Hr). refine (proj1 (Forall_forall _ _) (linked_needed own images built layers _ Hl) x Hx).
    rewrite <-Eb. by eapply needed_tagged.
  - unfold removeUnsharedChain, mbind, M_bind, asks in E1. rewrite El in E1. injection E1 as E1.
    apply (f_equal length) in E1. rewrite length_app in E1. destruct removed; [by apply not_elem_of_nil in Hr|]. cbn in E1. lia.
Qed.

Lemma remove_all_keeps ids : forall t, in_place t -> exists removed,
  remove_all d ids t = (t ++ removals removed, Ok tt) /\ in_place (t ++ removals removed) /\
  forall x, x ∈ built :: layers -> x ∉ removed.
Proof.
  induction ids as [|id ids IH]; intros t Hp; cbn [remove_all].
  { exists []. rewrite app_nil_r. split_and!; [done..|set_solver]. }
  destruct (chain_keeps id None t) as (r1 & E1 & Hp1 & Hk1); [done..|].
  destruct (IH _ Hp1) as (r2 & E2 & Hp2 & Hk2). exists (r1 ++ r2).
  assert (Ea : removals (r1 ++ r2) = removals r1 ++ removals r2) by apply map_app.
  unfold mbind, M_bind. rewrite E1, E2, Ea, app_assoc. split_and!; [done..|].
  intros x Hx [H|H]%elem_of_app; [by eapply Hk1|by eapply Hk2].
Qed.

Lemma reclaim_legacy_keeps legacyRef t : in_place t -> exists removed,
  reclaim_legacy d built cacheRef legacyRef t = (t ++ removals removed, Ok tt) /\ forall x, x ∈ built :: layers -> x ∉ removed.
Proof.
  intros Hp. unfold reclaim_legacy.
  assert (Hstop : exists removed, (t, Ok tt : result string unit) = (t ++ removals removed, Ok tt) /\ forall x, x ∈ built :: layers -> x ∉ removed).
  { exists []. rewrite app_nil_r. split; [done|set_solver]. }
  destruct (legacyRef ≫= nonempty) as [l|]; [|done]. destruct (String.eqb_spec l cacheRef) as [|Hne]; [done|].
  unfold mbind, M_bind, asks. destruct (inspect d t l) as [i|]; [|done]. destruct (_ && _)%bool; [|done].
  destruct (chain_keeps (Id i) (Some l) t) as (r & E1 & _ & Hk); [congruence|done|]. by exists r.
Qed.
End keeps.

(** [C7] A finished build is kept whatever it replaces: once the daemon has tagged
    it, the bookkeeping only removes other images, none of them a layer the
    build stands on, and throws nothing; a refused tag is one warning. *)
Theorem retain_keeps_build d tag cacheRef previousIds legacyRef t0 built layers :
  inspect d t0 tag = Some built -> lists_build d (Id built) cacheRef layers -> cacheRef <> "<none>:<none>" ->
  untouched (Id built :: layers) t0 ->
  let split := or_default 0 (Str.last_index_of ":" cacheRef) in
  let move := Tag (Id built) (Str.take split cacheRef) (Str.drop (S split) cacheRef) in
  match refuses d t0 move with
  | Some e => retainLatestBuild d tag cacheRef previousIds legacyRef t0 =
                (t0 ++ [Warned ("[berth:build] couldn't update the build cache for " +:+ tag +:+ ": " +:+ e)], Ok tt)
  | None => exists removed, retainLatestBuild d tag cacheRef previousIds legacyRef t0 = (t0 ++ Did move :: removals removed, Ok tt) /\
              forall x, x ∈ Id built :: layers -> x ∉ removed
  end.
Proof.
  intros Hi Hd Hcr Hu split move. unfold retainLatestBuild, retainLatestBuildOrThrow. rewrite run_asks, Hi. fold split. fold move.
  destruct (refuses d t0 move) as [e|] eqn:Er.
  { by rewrite (run_err _ _ t0 t0 e) by (unfold call, attempt; by rewrite Er). }
  rewrite (run_ok _ _ t0 (t0 ++ [Did move]) tt) by (unfold call, attempt; by rewrite Er).
  assert (Hp : in_place (Id built) (Str.take split cacheRef) (Str.drop (S split) cacheRef) layers (t0 ++ [Did move])).
  { split; [apply elem_of_app; right; by apply list_elem_of_singleton|].
    intros x Hx [H|H]%elem_of_app; [by eapply Hu|]. apply list_elem_of_singleton in H. discriminate H. }
  set (t := t0 ++ [Did move]) in *.
  destruct (retire_previous_spec d (Id built) cacheRef (JsSet.of_list previousIds) [] t (fun _ => True)) as (l & E1 & _); [done..|].
  rewrite (run_ok _ _ _ _ _ E1), run_asks.
  assert (exists l', (match or_default [] (listDangling d t cacheRef) with
                [] => mret l
                | _ =>
                    all ← asks (fun t => or_default [] (listAll d t));
                    cutoff ← asks (fun t => now d t - SWEEP_MIN_AGE_SECONDS)%Z;
                    sweep (by_id all) (length all) (Id built) cacheRef cutoff (or_default [] (listDangling d t cacheRef)) l
                end) t = (t, Ok l')) as [l' E2].
  { destruct (or_default [] (listDangling d t cacheRef)) as [|i dangling]; [by exists l|]. rewrite !run_asks.
    assert (Hac : acyclic (or_default [] (listAll d t))).
    { destruct (listAll d t) as [all|] eqn:El; [by apply (lists_ids _ _ _ _ Hd t)|]. exists (fun _ => 0). set_solver. }
    destruct (sweep_spec (or_default [] (listAll d t)) (Id built) cacheRef (now d t - SWEEP_MIN_AGE_SECONDS) (i :: dangling) (i :: dangling) l t
      (fun _ => True)) as (l' & E2 & _); [done|done|by apply Forall_true|done|]. by exists l'. }
  rewrite (run_ok _ _ _ _ _ E2).
  destruct (remove_all_keeps d (Id built) cacheRef _ _ layers Hd Hcr (JsSet.of_list l') t Hp) as (r1 & E3 & Hp3 & Hk3).
  destruct (reclaim_legacy_keeps d (Id built) cacheRef _ _ layers Hd Hcr legacyRef _ Hp3) as (r2 & E4 & Hk4).
  rewrite (run_ok _ _ _ _ _ E3), E4. exists (r1 ++ r2). split.
  - unfold t, removals. by rewrite map_app, <-!app_assoc.
  - intros x Hx [H|H]%elem_of_app; [by eapply Hk3|by eapply Hk4].
Qed.

(** ** Names of caches *)

Lemma take_plus n s t : Str.take (String.length s + n) (s +:+ t) = s +:+ Str.take n t.
Proof. induction s as [|c s IH]; [done|]. rewrite app_cons_str. cbn. by rewrite IH. Qed.

Lemma all_take_str p n s : Str.all p s = true -> Str.all p (Str.take n s) = true.
Proof. intros H. rewrite <-(StrFacts.take_drop n s), StrFacts.all_app in H. by apply andb_true_iff in H as [? _]. Qed.

Lemma all_sanitize s : Str.all ref_char (sanitize s) = true.
Proof.
  induction s as [|c s IH]; [done|]. change (sanitize (String c s)) with (String (if ref_char c then c else "_"%char) (sanitize s)).
  cbn [Str.all]. rewrite IH, andb_true_r. by destruct (ref_char c) eqn:E.
Qed.

Section names.
Context (cwd : string) (realpath : string -> option string) (sha256 : string -> string).
Context (Hsha : forall s, 8 <= String.length (sha256 s)).
Let checkoutId := checkoutId cwd realpath sha256.
Let buildCacheRef := buildCacheRef cwd realpath sha256.

Lemma checkoutId_length a : String.length (checkoutId a) = 8.
Proof. unfold checkoutId, ImageCache.checkoutId. rewrite StrFacts.length_take. specialize (Hsha (or_default (resolve cwd [a]) (realpath (resolve cwd [a])))). lia. Qed.

Lemma buildCacheRef_eq tag target a :
  buildCacheRef tag target a =
  CACHE_REPO +:+ Str.take 119 (Str.take 128 (sanitize (target_name target +:+ "-" +:+ (splitTag tag).1))) +:+ "-" +:+ checkoutId a.
Proof.
  unfold buildCacheRef, ImageCache.buildCacheRef. rewrite length_app_str. fold checkoutId. rewrite checkoutId_length.
  change (128 + String.length CACHE_REPO - (String.length "-" + 8)) with (String.length CACHE_REPO + 119).
  unfold legacyBuildCacheRef. by rewrite take_plus, app_assoc_str.
Qed.
End names.

(** Builds share a cache reference only when they are of one checkout and one
    target: the id of the checkout is never cut off, however long the name. *)
Theorem buildCacheRef_separates cwd realpath sha256 tag tag' target target' a b :
  (forall s, 8 <= String.length (sha256 s)) ->
  buildCacheRef cwd realpath sha256 tag target a = buildCacheRef cwd realpath sha256 tag' target' b ->
  checkoutId cwd realpath sha256 a = checkoutId cwd realpath sha256 b /\ target = target'.
Proof.
  intros Hs. rewrite !buildCacheRef_eq by done. intros E1%app_inj_r_str. split.
  - assert (Hl : String.length (checkoutId cwd realpath sha256 a) = String.length (checkoutId cwd realpath sha256 b)) by by rewrite !checkoutId_length.
    pose proof (f_equal String.length E1) as El. rewrite !length_app_str, Hl in El.
    apply app_inj_length_str in E1 as [_ E1]; [|lia]. by injection E1.
  - destruct target, target'; try done; cbn in E1; discriminate E1.
Qed.

(** A cache reference is one Docker takes: a tag of at most 128 of the
    characters a tag may have. *)
Theorem buildCacheRef_valid cwd realpath sha256 tag target a :
  (forall s, 8 <= String.length (sha256 s) /\ Str.all Str.is_lower_hex (sha256 s) = true) ->
  exists part, buildCacheRef cwd realpath sha256 tag target a = "berth-build-cache:" +:+ part /\
    String.length part <= 128 /\ Str.all ref_char part = true.
Proof.
  intros Hs. rewrite buildCacheRef_eq by apply Hs. eexists. split; [reflexivity|]. split.
  - rewrite !length_app_str, checkoutId_length by apply Hs. rewrite !StrFacts.length_take. change (String.length "-") with 1. lia.
  - rewrite !StrFacts.all_app. rewrite !all_take_str by (try apply all_take_str; apply all_sanitize). cbn [Str.all ref_char andb].
    unfold checkoutId. apply all_take_str. eapply StrFacts.all_impl; [|apply Hs]. intros c. unfold Str.is_lower_hex, ref_char.
    intros [H|H]%orb_true_iff; [by rewrite H, !orb_true_r|]. unfold Str.in_range in H.
    apply andb_true_iff in H as [H1%Nat.leb_le H2%Nat.leb_le].
    assert (Hl : Str.is_lower c = true) by (apply andb_true_iff; split; apply Nat.leb_le; lia). by rewrite Hl.
Qed.

(** ** Examples *)

#[export] Instance op_eq_dec : EqDecision op.
Proof. solve_decision. Defined.
#[export] Instance event_eq_dec : EqDecision event.
Proof. solve_decision. Defined.

(** A daemon with a base layer, the build that replaces an earlier one, and the
    earlier one. *)
Definition ex_ref : string := "berth-build-cache:dev-notes-1a2b3c4d".
Definition ex_image (id parent : string) (tags : list string) : image :=
  {| Id := id; ParentId := parent; RepoTags := Some tags; Labels := Some [(BUILD_CACHE_LABEL, ex_ref)]; Created := 0 |}.
Definition ex_docker : Docker := {|
  inspect _ r := if String.eqb r "notes:dev" then Some (ex_image "new" "base" ["notes:dev"; ex_ref])
                 else if String.eqb r "old" then Some (ex_image "old" "base" []) else None;
  listDangling _ _ := Some [];
  listAll t := Some ([ex_image "base" "" []; ex_image "new" "base" ["notes:dev"; ex_ref]] ++
                     if decide (Did (Remove "old") ∈ t) then [] else [ex_image "old" "base" []]);
  refuses _ _ := None;
  now _ := 1000%Z
|}.

Lemma ex_docker_lists : lists_build ex_docker "new" ex_ref ["base"].
Proof.
  split.
  - intros t images [= <-]. split; [by case_decide; apply (bool_decide_unpack _); vm_compute|].
    exists (fun x => if String.eqb x "base" then 0 else 1). intros i p Hi Hp.
    assert (Hc : forall j, j ∈ [ex_image "base" "" []; ex_image "new" "base" ["notes:dev"; ex_ref]] ++
                     (if decide (Did (Remove "old") ∈ t) then [] else [ex_image "old" "base" []]) ->
               j = ex_image "base" "" [] \/ (Id j = "new" \/ Id j = "old") /\ ParentId j = "base").
    { intros j. case_decide; rewrite !elem_of_app, !elem_of_cons, ?elem_of_nil; naive_solver. }
    destruct (Hc i Hi) as [->|[[->| ->] ->]], (Hc p Hp) as [->|[[->| ->] _]]; intros Heq; try discriminate Heq; apply (bool_decide_unpack _); vm_compute; exact I.
  - intros t images repo tag [= <-] _ _. split.
    + split; [|done]. eexists. split_and!; [apply list_elem_of_further, list_elem_of_here|done..].
    + eexists. split_and!; [apply list_elem_of_further, list_elem_of_here|done|set_solver].
Qed.

Lemma retain_keeps_build_witness :
  retainLatestBuild ex_docker "notes:dev" ex_ref [Some "old"; None] None [] =
    ([Did (Tag "new" "berth-build-cache" "dev-notes-1a2b3c4d"); Did (Remove "old")], Ok tt) /\
  exists removed, retainLatestBuild ex_docker "notes:dev" ex_ref [Some "old"; None] None [] =
    ([] ++ Did (Tag "new" "berth-build-cache" "dev-notes-1a2b3c4d") :: removals removed, Ok tt) /\
    forall x, x ∈ "new" :: ["base"] -> x ∉ removed.
Proof.
  split; [by vm_compute|].
  apply (retain_keeps_build ex_docker "notes:dev" ex_ref [Some "old"; None] None [] (ex_image "new" "base" ["notes:dev"; ex_ref]) ["base"]).
  - reflexivity.
  - apply ex_docker_lists.
  - discriminate.
  - intros x _ Hx. by apply not_elem_of_nil in Hx.
Defined.

Lemma buildCacheRef_separates_witness :
  checkoutId "/" (fun _ => None) (fun _ => "0123456789abcdef") "/a" = checkoutId "/" (fun _ => None) (fun _ => "0123456789abcdef") "/b" /\ dev = dev.
Proof.
  apply (buildCacheRef_separates "/" (fun _ => None) (fun _ => "0123456789abcdef") "notes:1" "notes:2" dev dev "/a" "/b").
  - intros s. cbn. lia.
  - reflexivity.
Defined.

Lemma buildCacheRef_valid_witness :
  exists part, buildCacheRef "/" (fun _ => None) (fun _ => "0123456789abcdef") "reg:5000/berth/notes:dev" production "/a" = "berth-build-cache:" +:+ part /\
    String.length part <= 128 /\ Str.all ref_char part = true.
Proof. apply (buildCacheRef_valid "/" (fun _ => None) (fun _ => "0123456789abcdef")). intros s. split; [cbn; lia|reflexivity]. Defined.

End ImageCache.
