(* ===== verification/Stage.v ===== *)
(** * What goes into an image (packages/docker-orchestrator/src/image.ts, app-runtime.ts)

    The helpers that choose and prepare the files of a build context: what is
    left out, where the workspace of an app is, the dependency ranges, the
    install script, and the clean-up of a deployed tree. *)
From S2P Require Import Prelude Json Paths Explain Vm.

Module Stage.
Import NodePath.

(** ** Where sources are *)

Section sources.
Context (existsSync : string -> bool).

Definition daemonSourceDir (daemon pkgRoot : string) : string :=
  let sibling := join [pkgRoot; ".."; daemon] in
  if existsSync (join [sibling; if String.eqb daemon "semantic-fs-daemon" then "go.mod" else "Cargo.toml"])
  then sibling else join [pkgRoot; "daemons"; daemon].

Definition pythonSdkSourceDir (pkgRoot : string) : string :=
  let sibling := join [pkgRoot; ".."; "sdk-python"] in
  if existsSync (join [sibling; "berth_sdk"; "__init__.py"]) then sibling else join [pkgRoot; "daemons"; "sdk-python"].

Definition nodeSdkToolsDir (pkgRoot : string) : string := join [pkgRoot; "daemons"; "sdk-node"].

(** [findWorkspaceRoot]: the loop ends at the root, the path that is its own
    directory; each turn shortens the path. *)
Fixpoint find_up (fuel : nat) (dir : string) : option string :=
  if existsSync (join [dir; "pnpm-workspace.yaml"]) then Some dir
  else if String.eqb (dirname dir) dir then None
  else match fuel with O => None | S fuel => find_up fuel (dirname dir) end.
Definition findWorkspaceRoot (startDir : string) : option string := find_up (String.length startDir) startDir.

Definition workspaceRootAbove (appDir : string) : option string :=
  let parent := dirname appDir in
  if String.eqb parent appDir then None else findWorkspaceRoot parent.
End sources.

(** ** What is left out of a copy *)

Definition excludedFromBuildContext (appDir src : string) : bool :=
  Str.includes (join [appDir; "node_modules"]) src || Str.includes (join [appDir; ".berth"]) src.

Definition PYTHON_EXCLUDED_NAMES : list string :=
  [".venv"; "venv"; "__pycache__"; ".git"; ".pytest_cache"; ".mypy_cache"; ".ruff_cache"; ".tox"; ".env"].

Definition excluded_segment (segment : string) : bool :=
  bool_decide (segment ∈ PYTHON_EXCLUDED_NAMES) || Str.starts_with ".env." segment || Str.ends_with ".pyc" segment || Str.ends_with ".pyo" segment.

Definition excludedFromPythonImage (cwd appDir src : string) : bool :=
  let rel := relative cwd appDir src in
  if String.eqb rel "" || Str.starts_with ".." rel then false
  else
    let segments := Str.split slash rel in
    if match segments with s :: _ => String.eqb s "node_modules" || String.eqb s ".berth" | [] => false end then true
    else existsb excluded_segment segments.

(** ** Dependency ranges *)

Definition deps : Type := list (string * string).
Record PackageDeps := { dependencies : option deps; optionalDependencies : option deps; peerDependencies : option deps }.

Definition berthReleaseVersion (release name : string) : option string :=
  if Str.starts_with "@berthos/" name then Some release else None.

Section pin.
Context (versionOf : string -> option string).

Definition WORKSPACE : string := "workspace:".

Definition unpinnable (name spec : string) : string :=
  name +:+ " is " +:+ String Json.dq_char spec +:+ String Json.dq_char
    ", which only means something inside the pnpm workspace it came from; give it a published version range".

(** The range a specifier becomes; [None] leaves it. *)
Definition pin_spec (name spec : string) : result string (option string) :=
  if negb (Str.starts_with WORKSPACE spec) then Ok None
  else
    let range := Str.drop (String.length WORKSPACE) spec in
    if negb (String.eqb range "*") && negb (String.eqb range "^") && negb (String.eqb range "~") then Ok (Some range)
    else match versionOf name with
         | Some version =>
             if String.eqb version "" then Err (unpinnable name spec)
             else Ok (Some (if String.eqb range "*" then version else range +:+ version))
         | None => Err (unpinnable name spec)
         end.

(** The loop over the entries, which are read before any is rewritten. *)
Fixpoint pin_entries (entries acc : deps) (changed : bool) : result string (deps * bool) :=
  match entries with
  | [] => Ok (acc, changed)
  | (name, spec) :: entries =>
      let? r := pin_spec name spec in
      match r with
      | None => pin_entries entries acc changed
      | Some range => pin_entries entries (JsMap.put name range acc) true
      end
  end.

Definition pin_field (o : option deps) (changed : bool) : result string (option deps * bool) :=
  match o with
  | None => Ok (None, changed)
  | Some d => let? r := pin_entries d d changed in Ok (Some r.1, r.2)
  end.

Definition pinWorkspaceSpecs (pkg : PackageDeps) : result string (PackageDeps * bool) :=
  let? a := pin_field (dependencies pkg) false in
  let? b := pin_field (optionalDependencies pkg) a.2 in
  let? c := pin_field (peerDependencies pkg) b.2 in
  Ok ({| dependencies := a.1; optionalDependencies := b.1; peerDependencies := c.1 |}, c.2).
End pin.

(** ** The install script *)

Definition squote : ascii := "'".
Definition newline : string := String (ascii_of_nat 10) "".

(** [value.replace(/'/g, ...)]: every quote becomes ['\''], closing the quoted
    text, an escaped quote, and opening it again. *)
Fixpoint escape_quotes (value : string) : string :=
  match value with
  | EmptyString => ""
  | String c s => if Ascii.eqb c squote then "'\''" +:+ escape_quotes s else String c (escape_quotes s)
  end.
Definition shellQuote (value : string) : string := "'" +:+ escape_quotes value +:+ "'".

Definition on_install_script (on_install : list string) : string :=
  Str.join newline
    (["#!/usr/bin/env bash";
      "# Generated by @berthos/docker-orchestrator's buildImage() from berth.yml's";
      "# on_install list. Do not edit — it is rewritten on every build, and it";
      "# runs as a Docker build layer, never at container boot.";
      "set -euo pipefail";
      ""] ++
     flat_map (fun command => ["printf '[berth:on_install] %s\n' " +:+ shellQuote command +:+ " >&2"; command]) on_install ++
     [""]).

(** ** A deployed tree *)

Inductive tree := File (text : string) | Link (target : string) | Dir (entries : list (string * tree)).

Section tidy.
Context (cwd : string) (realpath : string -> option string) (root stagingDir containerAppRoot : string).

(** [[...new Set([stagingDir, root])].sort((x, y) => y.length - x.length)] *)
Definition spellings : list string :=
  if String.eqb stagingDir root then [stagingDir]
  else if String.length stagingDir <? String.length root then [root; stagingDir] else [stagingDir; root].

Definition respell (text : string) : string :=
  foldl (fun t spelling => Artifacts.replaceAll spelling containerAppRoot t) text spellings.

Definition is_bookkeeping (dir name : string) : bool :=
  (String.eqb name ".modules.yaml" || String.eqb name ".pnpm-workspace-state-v1.json") && Str.ends_with "node_modules" dir.

(** Where the link at [path] leads. *)
Definition link_target (path target : string) : string :=
  let named := resolve cwd [dirname path; target] in or_default named (realpath named).
Definition escapes (t : string) : bool := negb (String.eqb t root) && negb (Str.starts_with (root +:+ "/") t).

Definition basename (p : string) : string := List.last (Str.split slash p) "".

(** The walk, and the removal of the links it collected: what is left of the
    directory at [dir]. *)
Fixpoint tidy (dir : string) (t : tree) : tree :=
  match t with
  | Dir entries =>
      Dir (flat_map (fun '(name, e) =>
        let path := join [dir; name] in
        match e with
        | Link target => if escapes (link_target path target) then [] else [(name, e)]
        | Dir _ => [(name, tidy path e)]
        | File text =>
            if is_bookkeeping dir name then []
            else if String.eqb (basename dir) ".bin" then [(name, File (respell text))]
            else [(name, e)]
        end) entries)
  | _ => t
  end.

Definition makeDeployReproducible (t : tree) : tree := tidy root t.
End tidy.

(** ** The workspace of an app *)

Lemma dirname_abs segs x : Forall good segs -> good x -> dirname (abs_path (segs ++ [x])) = abs_path segs.
Proof.
  intros Hs (Hx & _ & _ & Hc). destruct (decide (segs = [])) as [->|Hne].
  - by apply Explain.dirname_top.
  - unfold abs_path. rewrite Explain.join_snoc by done. rewrite <-app_assoc_str. destruct segs as [|w segs]; [done|].
    inversion Hs as [|? ? (Hw & _) _]; subst.
    assert (Hl : 2 <= String.length ("/" +:+ Str.join "/" (w :: segs))).
    { rewrite length_app_str. cbn [Str.join String.length]. destruct w; [done|]. destruct segs; rewrite ?length_app_str; cbn; lia. }
    apply Explain.dirname_last; [done|done|lia|done|lia].
Qed.

(** The directories at and above one, nearest first. *)
Fixpoint ancestors (rsegs : list string) : list string :=
  abs_path (reverse rsegs) :: match rsegs with [] => [] | _ :: r => ancestors r end.

Lemma length_abs_snoc segs x : good x -> String.length (abs_path segs) < String.length (abs_path (segs ++ [x])).
Proof.
  intros (Hx & _). unfold abs_path. rewrite !length_app_str. apply Nat.add_lt_mono_l. destruct (decide (segs = [])) as [->|Hne].
  - destruct x; [done|cbn; lia].
  - rewrite Explain.join_snoc, !length_app_str by done. destruct x; [done|cbn; lia].
Qed.

Lemma find_up_spec ex rsegs : forall fuel, Forall good rsegs -> String.length (abs_path (reverse rsegs)) <= S fuel ->
  find_up ex fuel (abs_path (reverse rsegs)) = List.find (fun d => ex (join [d; "pnpm-workspace.yaml"])) (ancestors rsegs).
Proof.
  induction rsegs as [|x rsegs IH]; intros fuel Hg Hl.
  - cbn [ancestors List.find]. change (abs_path (reverse [])) with "/". destruct fuel; cbn [find_up]; by case_match.
  - apply Forall_cons in Hg as [Hx Hg]. rewrite reverse_cons in *. cbn [ancestors List.find]. rewrite reverse_cons.
    assert (Hgr : Forall good (reverse rsegs)) by by apply Forall_reverse.
    pose proof (length_abs_snoc (reverse rsegs) x Hx) as Hlt.
    assert (Hne : String.eqb (abs_path (reverse rsegs)) (abs_path (reverse rsegs ++ [x])) = false).
    { apply String.eqb_neq. intros E1. rewrite <-E1 in Hlt. lia. }
    destruct fuel as [|fuel]; cbn [find_up]; (destruct (ex _); [done|]); rewrite dirname_abs, Hne by done.
    + exfalso. unfold abs_path in Hlt at 1. rewrite length_app_str in Hlt. cbn [String.length] in Hlt. lia.
    + apply IH; [done|lia].
Qed.

(** An app's workspace is the nearest directory strictly above it that has a
    [pnpm-workspace.yaml]; one in the app's own directory does not count. *)
Theorem workspaceRootAbove_spec ex segs x : Forall good segs -> good x ->
  workspaceRootAbove ex (abs_path (segs ++ [x])) =
    List.find (fun d => ex (join [d; "pnpm-workspace.yaml"])) (ancestors (reverse segs)).
Proof.
  intros Hs Hx. unfold workspaceRootAbove, findWorkspaceRoot. rewrite dirname_abs by done.
  assert (Hne : String.eqb (abs_path segs) (abs_path (segs ++ [x])) = false).
  { apply String.eqb_neq. intros E1. pose proof (length_abs_snoc segs x Hx) as Hlt. rewrite <-E1 in Hlt. lia. }
  rewrite Hne. rewrite <-(reverse_involutive segs) at 1 2. apply find_up_spec; [by apply Forall_reverse|].
  rewrite reverse_involutive. lia.
Qed.

(** ** Python images *)

Lemma drop_common_prefix a rest : drop_common a (a ++ rest) = ([], rest).
Proof. induction a as [|w a IH]; [by destruct rest|]. cbn. by rewrite String.eqb_refl. Qed.

Lemma starts_dots_join s rest : good s -> Str.starts_with ".." (Str.join "/" (s :: rest)) = Str.starts_with ".." s.
Proof.
  intros (H0 & H1 & H2 & _). destruct rest as [|r rest]; [done|].
  change (Str.join "/" (s :: r :: rest)) with (s +:+ "/" +:+ Str.join "/" (r :: rest)).
  destruct s as [|c [|c' s]]; [done| |by destruct s]. rewrite !app_cons_str. cbn [Str.starts_with]. by rewrite !andb_false_r.
Qed.

(** A Python app's image gets no virtual environment, bytecode, history or local
    credentials, at any depth, and nothing else is left out — but for a path
    whose first name begins with two dots, where nothing is. *)
Theorem excludedFromPythonImage_spec cwd a s rest : Forall good a -> Forall good (s :: rest) ->
  excludedFromPythonImage cwd (abs_path a) (abs_path (a ++ s :: rest)) =
    negb (Str.starts_with ".." s) &&
    (String.eqb s "node_modules" || String.eqb s ".berth" || existsb excluded_segment (s :: rest)).
Proof.
  intros Ha Hs. unfold excludedFromPythonImage. rewrite relative_abs by (try apply Forall_app; done).
  rewrite drop_common_prefix. cbn [fst snd length replicate app].
  inversion Hs as [|? ? Hg _]; subst. rewrite starts_dots_join by done.
  assert (Hne : String.eqb (Str.join "/" (s :: rest)) "" = false).
  { apply String.eqb_neq. destruct Hg as (H0 & _). destruct s; [done|]. by destruct rest. }
  rewrite Hne, split_join_good by done. cbn [orb]. destruct (Str.starts_with ".." s); [done|]. cbn [negb andb].
  by destruct (_ || _)%bool.
Qed.

(** ** Pinned ranges *)

Definition pinned (versionOf : string -> option string) (e : string * string) : string * string :=
  (e.1, match pin_spec versionOf e.1 e.2 with Ok (Some r) => r | _ => e.2 end).
Definition pinnable (versionOf : string -> option string) (e : string * string) : bool := is_ok (pin_spec versionOf e.1 e.2).
Definition is_workspace (e : string * string) : bool := Str.starts_with WORKSPACE e.2.

Lemma put_middle n v v0 (pre post : deps) : n ∉ pre.*1 -> JsMap.put n v (pre ++ (n, v0) :: post) = pre ++ (n, v) :: post.
Proof.
  induction pre as [|[k w] pre IH]; cbn; intros Hn; [by rewrite decide_True|]. rewrite decide_False by set_solver.
  rewrite IH by set_solver. done.
Qed.

Lemma pin_spec_kind vo n s r : pin_spec vo n s = Ok r -> is_Some r <-> Str.starts_with WORKSPACE s = true.
Proof.
  unfold pin_spec. destruct (Str.starts_with WORKSPACE s); cbn [negb]; [|intros [= <-]; split; [by intros [? ?]|done]].
  intros H. split; [done|]. intros _. repeat case_match; simplify_eq; by eexists.
Qed.

Lemma pin_entries_spec vo entries : forall pre changed,
  NoDup (pre ++ entries).*1 ->
  pin_entries vo entries (map (pinned vo) pre ++ entries) changed =
    match List.find (fun e => negb (pinnable vo e)) entries with
    | Some (n, s) => Err (unpinnable n s)
    | None => Ok (map (pinned vo) (pre ++ entries), changed || existsb is_workspace entries)
    end.
Proof.
  induction entries as [|[n s] entries IH]; intros pre changed Hn.
  { cbn. by rewrite !app_nil_r, orb_false_r. }
  cbn [pin_entries List.find existsb]. unfold pinnable at 1, is_workspace at 1. cbn [fst snd].
  assert (Hpre : map (pinned vo) (pre ++ [(n, s)]) = map (pinned vo) pre ++ [pinned vo (n, s)]) by by rewrite map_app.
  assert (Hassoc : pre ++ (n, s) :: entries = (pre ++ [(n, s)]) ++ entries) by by rewrite <-app_assoc.
  destruct (pin_spec vo n s) as [r|e] eqn:Es; cbn [rbind is_ok negb].
  - pose proof (pin_spec_kind _ _ _ _ Es) as Hk. destruct r as [range|].
    + rewrite put_middle.
      2:{ rewrite fmap_app, NoDup_app in Hn. destruct Hn as (_ & Hd & _). intros Hin. apply (Hd n); [|set_solver].
          replace (pre.*1) with ((map (pinned vo) pre).*1); [done|]. clear. induction pre; cbn; congruence. }
      replace (map (pinned vo) pre ++ (n, range) :: entries) with (map (pinned vo) (pre ++ [(n, s)]) ++ entries).
      2:{ rewrite Hpre, <-app_assoc. unfold pinned at 2. cbn [fst snd]. by rewrite Es. }
      rewrite IH by by rewrite <-Hassoc. rewrite <-Hassoc. by rewrite (proj1 Hk), orb_true_r.
    + replace (map (pinned vo) pre ++ (n, s) :: entries) with (map (pinned vo) (pre ++ [(n, s)]) ++ entries).
      2:{ rewrite Hpre, <-app_assoc. unfold pinned at 2. cbn [fst snd]. by rewrite Es. }
      rewrite IH by by rewrite <-Hassoc. rewrite <-Hassoc. destruct (Str.starts_with WORKSPACE s); [|done]. destruct Hk as [_ Hk]. by destruct Hk.
  - unfold pin_spec in Es. repeat case_match; by simplify_eq.
Qed.

(** The entries of one field are pinned one by one, in place: order and names
    stay, a range that names no workspace stays, and the first specifier that
    has no published version is the error. *)
Theorem pin_field_spec vo d changed : NoDup d.*1 ->
  pin_field vo (Some d) changed =
    match List.find (fun e => negb (pinnable vo e)) d with
    | Some (n, s) => Err (unpinnable n s)
    | None => Ok (Some (map (pinned vo) d), changed || existsb is_workspace d)
    end.
Proof. intros Hn. unfold pin_field. pose proof (pin_entries_spec vo d [] changed Hn) as E1. cbn [map app] in E1. rewrite E1. by repeat case_match. Qed.

(** ** Quoting *)

(** How a shell reads one word: quoted text up to the next quote, an escaped
    character, a plain one; a blank ends the word. *)
Fixpoint sh_word (inq : bool) (s : string) : option (string * string) :=
  match s with
  | EmptyString => if inq then None else Some ("", "")
  | String c s' =>
      if inq then
        if Ascii.eqb c squote then sh_word false s'
        else '(w, rest) ← sh_word true s'; Some (String c w, rest)
      else if Ascii.eqb c squote then sh_word true s'
      else if Ascii.eqb c Json.backslash then
        match s' with String c' s'' => '(w, rest) ← sh_word false s''; Some (String c' w, rest) | EmptyString => None end
      else if Str.is_space c then Some ("", s)
      else '(w, rest) ← sh_word false s'; Some (String c w, rest)
  end.

Lemma sh_word_escaped v r w rest : sh_word true r = Some (w, rest) -> sh_word true (escape_quotes v +:+ r) = Some (v +:+ w, rest).
Proof.
  intros Hr. induction v as [|c v IH]; [done|]. cbn [escape_quotes]. destruct (Ascii.eqb_spec c squote) as [->|Hc].
  - rewrite app_assoc_str. rewrite !app_cons_str, app_empty_str. cbn [sh_word].
    change (Ascii.eqb "'" squote) with true. cbn iota. change (Ascii.eqb "\" squote) with false.
    change (Ascii.eqb "\" Json.backslash) with true. cbn iota. rewrite IH. done.
  - rewrite app_cons_str. cbn [sh_word]. apply Ascii.eqb_neq in Hc. rewrite Hc, IH. done.
Qed.

(** A shell reads a quoted command back as one word with exactly that text,
    whatever characters it has, and goes on after it. *)
Theorem shellQuote_word v rest : Str.starts_with " " rest = true -> sh_word false (shellQuote v +:+ rest) = Some (v, rest).
Proof.
  intros [t ->]%StrFacts.starts_with_spec. unfold shellQuote. rewrite !app_assoc_str, !app_cons_str, app_empty_str. cbn [sh_word].
  change (Ascii.eqb "'" squote) with true. cbn iota. rewrite (sh_word_escaped v _ "" (" " +:+ t)); [by rewrite app_nil_r_str|].
  reflexivity.
Qed.

(** ** Reproducible trees *)

(** An entry [e] named [n] in the directory at [d]. *)
Inductive occurs : string -> tree -> string -> string -> tree -> Prop :=
| occurs_here dir es n e : (n, e) ∈ es -> occurs dir (Dir es) dir n e
| occurs_below dir es n sub d n' e : (n, Dir sub) ∈ es -> occurs (join [dir; n]) (Dir sub) d n' e -> occurs dir (Dir es) d n' e.

Section tidied.
Context (cwd : string) (realpath : string -> option string) (root stagingDir containerAppRoot : string).
Let tidy := tidy cwd realpath root stagingDir containerAppRoot.

(** What becomes of an entry. *)
Definition tidied (dir name : string) (e : tree) : option tree :=
  match e with
  | Link target => if escapes root (link_target cwd realpath (join [dir; name]) target) then None else Some e
  | Dir _ => Some (Stage.tidy cwd realpath root stagingDir containerAppRoot (join [dir; name]) e)
  | File text =>
      if is_bookkeeping dir name then None
      else if String.eqb (basename dir) ".bin" then Some (File (respell root stagingDir containerAppRoot text)) else Some e
  end.

Lemma tidy_dir dir es :
  tidy dir (Dir es) = Dir (flat_map (fun '(name, e) => match tidied dir name e with Some e' => [(name, e')] | None => [] end) es).
Proof.
  unfold tidy. cbn [Stage.tidy]. f_equal. apply flat_map_ext. intros [name [text|target|sub]]; cbn; by repeat case_match.
Qed.

Lemma elem_of_tidy dir es n e :
  (n, e) ∈ flat_map (fun '(name, e) => match tidied dir name e with Some e' => [(name, e')] | None => [] end) es <->
  exists e0, (n, e0) ∈ es /\ tidied dir n e0 = Some e.
Proof.
  rewrite list_elem_of_In, in_flat_map. split.
  - intros ([n0 e0] & Hin & H). apply list_elem_of_In in Hin. destruct (tidied dir n0 e0) eqn:Et; [|done].
    destruct H as [[= <- <-]|[]]. by exists e0.
  - intros (e0 & Hin & H). exists (n, e0). split; [by apply list_elem_of_In|]. rewrite H. by left.
Qed.

Lemma occurs_tidy_fwd dir t' d n e : occurs dir t' d n e -> forall t, t' = tidy dir t ->
  exists e0, occurs dir t d n e0 /\ tidied d n e0 = Some e.
Proof.
  induction 1 as [dir es n e Hin|dir es n sub d n' e Hin _ IH]; intros t Et;
    (destruct t as [text|target|es0]; [discriminate Et..|]); rewrite tidy_dir in Et; injection Et as ->;
    apply elem_of_tidy in Hin as (e0 & Hin & Htd).
  - exists e0. split; [by constructor|done].
  - assert (He0 : exists es1, e0 = Dir es1 /\ Dir sub = tidy (join [dir; n]) (Dir es1)).
    { destruct e0 as [text|target|es1]; unfold tidied in Htd; [exfalso; revert Htd; repeat case_match; discriminate..|].
      exists es1. split; [done|]. unfold tidy. congruence. }
    destruct He0 as (es1 & -> & Esub). destruct (IH _ Esub) as (e1 & Ho & Ht). exists e1. split; [by eapply occurs_below|done].
Qed.

Lemma occurs_tidy_bwd dir t d n e0 : occurs dir t d n e0 -> forall e, tidied d n e0 = Some e -> occurs dir (tidy dir t) d n e.
Proof.
  induction 1 as [dir es n e0 Hin|dir es n sub d n' e0 Hin _ IH]; intros e Ht; rewrite tidy_dir.
  - constructor. apply elem_of_tidy. by exists e0.
  - specialize (IH _ Ht). rewrite tidy_dir in IH. eapply occurs_below; [|exact IH]. apply elem_of_tidy. exists (Dir sub). split; [done|].
    transitivity (Some (tidy (join [dir; n]) (Dir sub))); [done|by rewrite tidy_dir].
Qed.
End tidied.

(** What is in a tidied tree: exactly the entries that were there, but for the
    package manager's bookkeeping and the links that lead out of the tree; the
    shims of a [.bin] directory name the app's place in the image, and
    everything else is as it was. *)
Theorem makeDeployReproducible_spec cwd realpath root stagingDir app t d n e :
  occurs root (makeDeployReproducible cwd realpath root stagingDir app t) d n e <->
  exists e0, occurs root t d n e0 /\ tidied cwd realpath root stagingDir app d n e0 = Some e.
Proof.
  split.
  - intros H. by apply (occurs_tidy_fwd cwd realpath root stagingDir app root _ _ _ _ H).
  - intros (e0 & Ho & Ht). by eapply occurs_tidy_bwd.
Qed.

(** ** Examples *)

Example shellQuote_quote : shellQuote "it's" = "'it'\''s'".
Proof. reflexivity. Qed.

Lemma workspaceRootAbove_spec_witness :
  workspaceRootAbove (fun p => String.eqb p "/ws/pnpm-workspace.yaml") (abs_path (["ws"; "apps"] ++ ["git"])) =
    List.find (fun d => String.eqb (join [d; "pnpm-workspace.yaml"]) "/ws/pnpm-workspace.yaml") (ancestors (reverse ["ws"; "apps"])).
Proof.
  apply (workspaceRootAbove_spec (fun p => String.eqb p "/ws/pnpm-workspace.yaml") ["ws"; "apps"] "git").
  - repeat constructor; done.
  - repeat constructor; done.
Defined.

Lemma excludedFromPythonImage_spec_witness :
  excludedFromPythonImage "/" (abs_path ["app"]) (abs_path (["app"] ++ "conf" :: [".env"])) = true.
Proof. refine (eq_trans (excludedFromPythonImage_spec "/" ["app"] "conf" [".env"] _ _) _); [repeat constructor; done..|by vm_compute]. Defined.

(** A name that begins with two dots hides what is below it from the filter. *)
Example dotdot_not_excluded : excludedFromPythonImage "/" "/app" "/app/..data/.env" = false.
Proof. by vm_compute. Qed.

(** A name that only begins like one of the two directories is left out of the copy as well. *)
Example lookalike_excluded : excludedFromBuildContext "/app" "/app/.berthrc" = true.
Proof. by vm_compute. Qed.

Lemma pin_field_spec_witness :
  pin_field (fun n => berthReleaseVersion "1.2.3" n) (Some [("@berthos/sdk", "workspace:^"); ("zod", "^3")]) false =
    Ok (Some [("@berthos/sdk", "^1.2.3"); ("zod", "^3")], true).
Proof.
  refine (eq_trans (pin_field_spec (fun n => berthReleaseVersion "1.2.3" n) [("@berthos/sdk", "workspace:^"); ("zod", "^3")] false _) _).
  - apply (bool_decide_unpack _). vm_compute. exact I.
  - reflexivity.
Defined.

Lemma shellQuote_word_witness : sh_word false (shellQuote "it's; rm -rf /" +:+ " >&2") = Some ("it's; rm -rf /", " >&2").
Proof. apply (shellQuote_word "it's; rm -rf /" " >&2"). reflexivity. Defined.

End Stage.
