(* ===== verification/Lockfile.v ===== *)
(** * The workspace's lockfile (packages/docker-orchestrator/src/image.ts)

    A deploy may rewrite the workspace's [pnpm-lock.yaml]; [withLockfileRestored]
    runs such deploys one at a time and puts the file back. Calls overlap: the
    calls for one workspace, the promise each waits for, the map's entry and
    the file are one state, and what may happen next is an action. *)
From S2P Require Import Prelude.

Module Lockfile.

(** Where a call stands. [Running before handlers]: its deploy is under way,
    from this content of the file ([None]: there was no file, and nothing will be
    put back), with its signal handlers registered or not. *)
Inductive phase := Waiting | Running (before : option string) (handlers : bool) | Settled | Returned.

(** A call and the promise it found in the map. *)
Record deploy := { previous : option nat; at_ : phase }.

Record state := {
  lockfile : option string;
  calls : list deploy;
  entry : option nat;            (* lockfileDeploys.get(workspaceRoot) *)
  dead : bool
}.

Inductive action :=
| Call                                  (* withLockfileRestored *)
| Start (i : nat)                       (* its restoringLockfile begins *)
| Write (i : nat) (f : option string)   (* its deploy rewrites, or removes, the file *)
| Signal (alone : bool)                 (* SIGINT or SIGTERM; [alone]: nobody else listens *)
| Finish (i : nat)                      (* run() has returned or thrown: the finally block *)
| Return (i : nat).                     (* the caller's own finally block *)

Definition settled (p : phase) : bool := match p with Settled | Returned => true | _ => false end.
Definition is_running (p : phase) : bool := match p with Running _ _ => true | _ => false end.

Definition ready (s : state) (c : deploy) : bool :=
  match previous c with
  | None => true
  | Some j => match calls s !! j with Some c' => settled (at_ c') | None => false end
  end.

Definition set_phase (i : nat) (c : deploy) (p : phase) (s : state) : list deploy :=
  <[i := {| previous := previous c; at_ := p |}]> (calls s).

(** The handler puts the file back once, and removes itself; the process goes
    on when somebody else listens. *)
Definition on_signal (alone : bool) (s : state) : state :=
  match list_find (fun c => is_running (at_ c) = true) (calls s) with
  | Some (i, {| previous := p; at_ := Running (Some before) true |}) =>
      {| lockfile := Some before; calls := <[i := {| previous := p; at_ := Running (Some before) false |}]> (calls s);
         entry := entry s; dead := alone |}
  | _ => {| lockfile := lockfile s; calls := calls s; entry := entry s; dead := alone |}
  end.

Definition act (a : action) (s : state) : option state :=
  if dead s then None
  else match a with
  | Call => Some {| lockfile := lockfile s; calls := calls s ++ [{| previous := entry s; at_ := Waiting |}];
                    entry := Some (length (calls s)); dead := false |}
  | Start i =>
      c ← calls s !! i;
      match at_ c with
      | Waiting =>
          if ready s c
          then Some {| lockfile := lockfile s;
                       calls := set_phase i c (Running (lockfile s) (match lockfile s with Some _ => true | None => false end)) s;
                       entry := entry s; dead := false |}
          else None
      | _ => None
      end
  | Write i f =>
      c ← calls s !! i;
      if is_running (at_ c) then Some {| lockfile := f; calls := calls s; entry := entry s; dead := false |} else None
  | Signal alone => Some (on_signal alone s)
  | Finish i =>
      c ← calls s !! i;
      match at_ c with
      | Running before _ =>
          Some {| lockfile := match before with Some b => Some b | None => lockfile s end;
                  calls := set_phase i c Settled s; entry := entry s; dead := false |}
      | _ => None
      end
  | Return i =>
      c ← calls s !! i;
      match at_ c with
      | Settled => Some {| lockfile := lockfile s; calls := set_phase i c Returned s;
                           entry := if decide (entry s = Some i) then None else entry s; dead := false |}
      | _ => None
      end
  end.

Definition idle (s : state) : Prop := Forall (fun c => is_running (at_ c) = false) (calls s).

(** A history of one workspace whose file others last left as [theirs]: they
    edit it only while no deploy runs. *)
Inductive history : string -> state -> Prop :=
| history_start f : history f {| lockfile := Some f; calls := []; entry := None; dead := false |}
| history_act f s a s' : history f s -> act a s = Some s' -> history f s'
| history_edit f f' s : history f s -> idle s -> dead s = false ->
    history f' {| lockfile := Some f'; calls := calls s; entry := entry s; dead := false |}.

(** ** Order *)

Definition settled_at (cs : list deploy) (j : nat) : Prop := exists c, cs !! j = Some c /\ settled (at_ c) = true.
Definition before_settled (cs : list deploy) (i : nat) : Prop := forall j, j < i -> settled_at cs j.

Record ordered (cs : list deploy) (e : option nat) : Prop := {
  entry_last j : e = Some j -> S j = length cs;
  entry_none : e = None -> before_settled cs (length cs);
  started_last i c : cs !! i = Some c -> at_ c <> Waiting -> before_settled cs i;
  previous_none i c : cs !! i = Some c -> previous c = None -> before_settled cs i;
  previous_some i c j : cs !! i = Some c -> previous c = Some j -> S j = i
}.

Lemma settled_at_insert cs i c p j : cs !! i = Some c -> (settled (at_ c) = true -> settled p = true) ->
  settled_at cs j -> settled_at (<[i := {| previous := previous c; at_ := p |}]> cs) j.
Proof.
  intros Hi Hp (c' & Hj & Hs). destruct (decide (i = j)) as [->|Hne].
  - rewrite Hi in Hj. injection Hj as <-. eexists. split; [apply list_lookup_insert_eq; by eapply lookup_lt_Some|by apply Hp].
  - exists c'. by rewrite list_lookup_insert_ne.
Qed.

Lemma ordered_phase cs e i c p : ordered cs e -> cs !! i = Some c -> (settled (at_ c) = true -> settled p = true) ->
  (at_ c = Waiting -> p <> Waiting -> before_settled cs i) ->
  ordered (<[i := {| previous := previous c; at_ := p |}]> cs) e.
Proof.
  intros Ho Hi Hp Hw.
  assert (Hm : forall n, before_settled cs n -> before_settled (<[i := {| previous := previous c; at_ := p |}]> cs) n)
    by (intros n Hn j Hj; apply settled_at_insert; auto).
  assert (Hlook : forall k c', <[i := {| previous := previous c; at_ := p |}]> cs !! k = Some c' ->
    exists c0, cs !! k = Some c0 /\ previous c0 = previous c' /\ (c' = c0 \/ k = i /\ c0 = c /\ at_ c' = p)).
  { intros k c' Hk. apply list_lookup_insert_Some in Hk as [(-> & <- & _)|[? Hk]]; [exists c|exists c']; cbn; auto 6. }
  split.
  - intros j. rewrite length_insert. apply Ho.
  - intros He. rewrite length_insert. by apply Hm, Ho.
  - intros k c' Hk Hc'. apply Hm. destruct (Hlook k c' Hk) as (c0 & H0 & _ & [->|(-> & -> & Ep)]); [by eapply Ho|].
    rewrite Ep in Hc'. destruct (at_ c) eqn:Ea; [by apply Hw| | |]; (eapply (started_last _ _ Ho); [done|by rewrite Ea]).
  - intros k c' Hk Hc'. apply Hm. destruct (Hlook k c' Hk) as (c0 & H0 & Ep & _). eapply (previous_none _ _ Ho); [done|congruence].
  - intros k c' j Hk Hc'. destruct (Hlook k c' Hk) as (c0 & H0 & Ep & _). eapply (previous_some _ _ Ho); [done|congruence].
Qed.

Lemma ordered_entry cs e i c : ordered cs e -> cs !! i = Some c -> settled (at_ c) = true -> ordered cs (if decide (e = Some i) then None else e).
Proof.
  intros Ho Hi Hs. case_decide as Hd; [|done]. split; try apply Ho; [done|]. intros _ j Hj.
  pose proof (entry_last _ _ Ho i Hd) as Hl. destruct (decide (j = i)) as [->|]; [by exists c|].
  eapply (started_last _ _ Ho i c); [done| |lia]. intros E1. by rewrite E1 in Hs.
Qed.

Lemma ordered_call cs e : ordered cs e -> ordered (cs ++ [{| previous := e; at_ := Waiting |}]) (Some (length cs)).
Proof.
  intros Ho. assert (Hm : forall n, before_settled cs n -> before_settled (cs ++ [{| previous := e; at_ := Waiting |}]) n).
  { intros n Hn j Hj. destruct (Hn j Hj) as (c & Hc & Hs). exists c. split; [by apply lookup_app_l_Some|done]. }
  assert (Hlook : forall k c', (cs ++ [{| previous := e; at_ := Waiting |}]) !! k = Some c' ->
    cs !! k = Some c' \/ k = length cs /\ c' = {| previous := e; at_ := Waiting |}).
  { intros k c' [Hk|[Hl Hk]]%lookup_app_Some; [by left|right]. apply list_lookup_singleton_Some in Hk as [? <-]. split; [lia|done]. }
  split.
  - intros j [= <-]. rewrite length_app. cbn. lia.
  - done.
  - intros k c' Hk Hc'. apply Hm. destruct (Hlook k c' Hk) as [H0|[-> ->]]; [by eapply Ho|done].
  - intros k c' Hk Hc'. apply Hm. destruct (Hlook k c' Hk) as [H0|[-> ->]]; [by eapply (previous_none _ _ Ho)|by apply Ho].
  - intros k c' j Hk Hc'. destruct (Hlook k c' Hk) as [H0|[-> ->]]; [by eapply (previous_some _ _ Ho)|by apply Ho].
Qed.

Lemma ready_before s c i : ordered (calls s) (entry s) -> calls s !! i = Some c -> ready s c = true -> before_settled (calls s) i.
Proof.
  intros Ho Hi Hr. unfold ready in Hr. destruct (previous c) as [j|] eqn:Ep; [|by eapply (previous_none _ _ Ho)].
  destruct (calls s !! j) as [c'|] eqn:Ej; [|done]. pose proof (previous_some _ _ Ho _ _ _ Hi Ep) as <-. intros k Hk.
  destruct (decide (k = j)) as [->|]; [by exists c'|]. eapply (started_last _ _ Ho j c'); [done| |lia]. intros E1. by rewrite E1 in Hr.
Qed.

(** ** The file *)

Record kept (f : string) (s : state) : Prop := {
  in_order : ordered (calls s) (entry s);
  while_idle : idle s -> lockfile s = Some f;
  while_running i c b h : calls s !! i = Some c -> at_ c = Running b h -> b = Some f;
  when_dead : dead s = true -> lockfile s = Some f \/ exists i c b, calls s !! i = Some c /\ at_ c = Running b false
}.

Lemma idle_insert (cs : list deploy) (i : nat) c p : Forall (fun c => is_running (at_ c) = false) (<[i := {| previous := previous c; at_ := p |}]> cs) ->
  cs !! i = Some c -> is_running (at_ c) = false -> Forall (fun c => is_running (at_ c) = false) cs.
Proof.
  intros Hf Hi Hc. apply Forall_lookup. intros k c' Hk. destruct (decide (k = i)) as [->|Hne]; [congruence|].
  apply (Forall_lookup_1 (fun c => is_running (at_ c) = false) _ k c' Hf). by rewrite list_lookup_insert_ne.
Qed.

Lemma running_insert (cs : list deploy) (i : nat) (c : deploy) p (k : nat) c' b h :
  <[i := {| previous := previous c; at_ := p |}]> cs !! k = Some c' -> at_ c' = Running b h -> p = Running b h \/ cs !! k = Some c'.
Proof. intros [(-> & <- & _)|[_ Hk]]%list_lookup_insert_Some Ha; [by left|by right]. Qed.

Lemma kept_act f s a s' : kept f s -> act a s = Some s' -> kept f s'.
Proof.
  intros Hk. unfold act. destruct (dead s) eqn:Ed; [done|]. pose proof (in_order _ _ Hk) as Ho.
  destruct a as [|i|i g|alone|i|i]; cbn [mbind option_bind].
  - intros [= <-]. split; cbn; [by apply ordered_call| | |done].
    + intros Hi. apply (while_idle _ _ Hk). unfold idle in *. cbn in Hi. by apply Forall_app in Hi as [? _].
    + intros k c b h [Hc|[_ Hc]]%lookup_app_Some Ha; [by eapply (while_running _ _ Hk)|].
      apply list_lookup_singleton_Some in Hc as [_ <-]. done.
  - destruct (calls s !! i) as [c|] eqn:Ei; [|done]. cbn. destruct (at_ c) eqn:Ea; try done.
    destruct (ready s c) eqn:Er; [|done]. intros [= <-]. pose proof (ready_before _ _ _ Ho Ei Er) as Hb.
    assert (Hidle : idle s).
    { apply Forall_lookup. intros k c' Hc'. destruct (at_ c') eqn:Ea'; try done. exfalso.
      assert (at_ c' <> Waiting) as Hw by congruence. pose proof (started_last _ _ Ho _ _ Hc' Hw) as Hbk.
      destruct (Nat.lt_trichotomy k i) as [H|[->|H]]; [|congruence|].
      - destruct (Hb k H) as (c2 & E2 & Hs). rewrite Hc' in E2. injection E2 as <-. by rewrite Ea' in Hs.
      - destruct (Hbk i H) as (c2 & E2 & Hs). rewrite Ei in E2. injection E2 as <-. by rewrite Ea in Hs. }
    pose proof (while_idle _ _ Hk Hidle) as Hf. split; cbn; [by apply ordered_phase; rewrite ?Ea|done| |done].
    intros k c' b h Hc' Ha. destruct (running_insert _ _ _ _ _ _ _ _ Hc' Ha) as [[= <- <-]|H]; [done|by eapply (while_running _ _ Hk)].
  - destruct (calls s !! i) as [c|] eqn:Ei; [|done]. cbn. destruct (is_running (at_ c)) eqn:Ea; [|done]. intros [= <-].
    split; cbn; [done| |apply Hk|done]. intros Hi. exfalso. pose proof (Forall_lookup_1 _ _ _ _ Hi Ei) as H. cbn in H. congruence.
  - intros [= <-]. unfold on_signal. destruct (list_find _ (calls s)) as [[i c]|] eqn:El.
    + apply list_find_Some in El as (Hi & Hr & _). cbn in Hr.
      assert (Hno : forall k c' b h, calls s !! k = Some c' -> at_ c' = Running b h -> b = Some f) by apply (while_running _ _ Hk).
      destruct c as [p [|[before|] [|]| |]]; cbn in Hr; try done.
      * assert (Some before = Some f) as [= ->] by by eapply Hno.
        split; cbn; [apply (ordered_phase _ _ _ _ _ Ho Hi); cbn; [done|congruence]|done| |by left].
        intros k c' b h Hc' Ha. destruct (running_insert _ _ {| previous := p; at_ := Running (Some f) true |} _ _ _ _ _ Hc' Ha) as [[= <- <-]|H]; [done|by eapply Hno].
      * split; cbn; [done|apply Hk|apply Hk|]. intros _. right. eexists i, _, _. by split.
      * exfalso. by specialize (Hno _ _ _ _ Hi eq_refl).
      * exfalso. by specialize (Hno _ _ _ _ Hi eq_refl).
    + assert (Hidle : idle s).
      { apply list_find_None in El. eapply Forall_impl; [exact El|]. intros c Hc. cbn in Hc. by destruct (is_running (at_ c)). }
      split; cbn; [done|apply Hk|apply Hk|]. intros _. left. by apply Hk.
  - destruct (calls s !! i) as [c|] eqn:Ei; [|done]. cbn. destruct (at_ c) as [|b h| |] eqn:Ea; try done. intros [= <-].
    assert (b = Some f) as -> by by eapply (while_running _ _ Hk). split; cbn; [|done| |done].
    + apply ordered_phase; rewrite ?Ea; try done.
    + intros k c' b h' Hc' Ha. destruct (running_insert _ _ _ _ _ _ _ _ Hc' Ha) as [?|H]; [done|by eapply (while_running _ _ Hk)].
  - destruct (calls s !! i) as [c|] eqn:Ei; [|done]. cbn. destruct (at_ c) eqn:Ea; try done. intros [= <-]. split; cbn; [| | |done].
    + eapply ordered_entry; [apply ordered_phase; rewrite ?Ea; try done| |].
      * apply list_lookup_insert_eq. by eapply lookup_lt_Some.
      * done.
    + intros Hi. apply (while_idle _ _ Hk). eapply idle_insert; [exact Hi|done|by rewrite Ea].
    + intros k c' b h' Hc' Ha. destruct (running_insert _ _ _ _ _ _ _ _ Hc' Ha) as [?|H]; [done|by eapply (while_running _ _ Hk)].
Qed.

Lemma history_kept f s : history f s -> kept f s.
Proof.
  induction 1 as [f|f s a s' _ IH Ha|f f' s _ IH Hi Hd].
  - split; cbn; [|done|done|done]. split; cbn; try done. intros _ j Hj. cbn in Hj. lia.
  - by eapply kept_act.
  - split; cbn; [apply IH|done| |done]. intros i c b h Hc Ha. exfalso. pose proof (Forall_lookup_1 _ _ _ _ Hi Hc) as H. cbn in H. by rewrite Ha in H.
Qed.

(** [C6] However many deploys overlap, at most one rewrites the lockfile at a time,
    and whenever none does the file is what others last made it, so no deploy
    takes another's rewrite for the original. *)
Theorem lockfile_restored f s : history f s ->
  (idle s -> lockfile s = Some f) /\
  forall i j c c', calls s !! i = Some c -> calls s !! j = Some c' -> is_running (at_ c) = true -> is_running (at_ c') = true -> i = j.
Proof.
  intros Hk%history_kept. split; [apply Hk|]. intros i j c c' Hi Hj Hc Hc'. pose proof (in_order _ _ Hk) as Ho.
  assert (Hno : forall i j c c', calls s !! i = Some c -> calls s !! j = Some c' -> is_running (at_ c) = true -> is_running (at_ c') = true -> ~ i < j).
  { intros i' j' c1 c2 Hi' Hj' H1 H2 Hlt. assert (at_ c2 <> Waiting) as Hw by (intros E1; by rewrite E1 in H2).
    destruct (started_last _ _ Ho _ _ Hj' Hw _ Hlt) as (c3 & H3 & Hs). rewrite Hi' in H3. injection H3 as <-. by destruct (at_ c1). }
  destruct (Nat.lt_trichotomy i j) as [H|[->|H]]; [by edestruct (Hno i j)|done|by edestruct (Hno j i)].
Qed.

(** A process a signal ends in the middle of a deploy has put the file back,
    unless that deploy had already had a signal. *)
Theorem lockfile_after_death f s : history f s -> dead s = true ->
  lockfile s = Some f \/ exists i c b, calls s !! i = Some c /\ at_ c = Running b false.
Proof. intros Hk%history_kept. apply Hk. Qed.

(** ** Examples *)

Fixpoint acts (l : list action) (s : state) : option state :=
  match l with [] => Some s | a :: l => s' ← act a s; acts l s' end.

Lemma history_acts f l : forall s s', history f s -> acts l s = Some s' -> history f s'.
Proof.
  induction l as [|a l IH]; intros s s' Hh; cbn [acts]; [by intros [= <-]|]. destruct (act a s) as [s1|] eqn:Ea; [|done]. cbn.
  apply IH. by eapply history_act.
Qed.

Definition fresh (f : string) : state := {| lockfile := Some f; calls := []; entry := None; dead := false |}.
(** Two overlapping deploys: the second starts when the first has put the file back. *)
Definition two_deploys : list action :=
  [Call; Call; Start 0; Write 0 (Some "rewritten"); Finish 0; Start 1; Return 0; Write 1 None; Finish 1; Return 1].

Lemma lockfile_restored_witness : exists s, acts two_deploys (fresh "v1") = Some s /\ lockfile s = Some "v1".
Proof.
  eexists. split; [vm_compute; reflexivity|]. apply (lockfile_restored "v1").
  - apply (history_acts "v1" two_deploys (fresh "v1")); [apply history_start|vm_compute; reflexivity].
  - repeat constructor.
Defined.

Example second_waits : acts [Call; Call; Start 0; Start 1] (fresh "v1") = None.
Proof. reflexivity. Qed.

(** A second signal while somebody else handles them: nothing puts the file back. *)
Example second_signal_leaves_rewrite :
  exists s, acts [Call; Start 0; Signal false; Write 0 (Some "rewritten"); Signal true] (fresh "v1") = Some s /\
    dead s = true /\ lockfile s = Some "rewritten".
Proof. by eexists. Qed.

Lemma lockfile_after_death_witness :
  exists s, acts [Call; Start 0; Write 0 (Some "rewritten"); Signal true] (fresh "v1") = Some s /\
    (lockfile s = Some "v1" \/ exists i c b, calls s !! i = Some c /\ at_ c = Running b false).
Proof.
  eexists. split; [vm_compute; reflexivity|]. apply (lockfile_after_death "v1").
  - apply (history_acts "v1" [Call; Start 0; Write 0 (Some "rewritten"); Signal true] (fresh "v1")); [apply history_start|vm_compute; reflexivity].
  - reflexivity.
Defined.
End Lockfile.
