(* ===== verification/ImageBuild.v ===== *)
(** * Building an image (packages/docker-orchestrator/src/image.ts, app-runtime.ts)

    [buildImage] stages a build context in a directory of its own, has Docker
    build it and removes the directory. Every call of the file system, of a
    package manager or of Docker may fail, wherever it stands, and is an event.
    Deploys that may rewrite a workspace's lockfile are serialized and undone:
    that is a state machine, since calls overlap. *)
From S2P Require Import Prelude Trace Paths Stage ImageCache.

Module ImageBuild.
Import Trace NodePath Stage.

(** ** Calls *)

Inductive selection := Everything | BuildContext (appDir : string) | PythonImage (appDir : string) | Without (part : string).
Definition copies (cwd : string) (f : selection) (src : string) : bool :=
  match f with
  | Everything => true
  | BuildContext appDir => negb (excludedFromBuildContext appDir src)
  | PythonImage appDir => negb (excludedFromPythonImage cwd appDir src)
  | Without part => negb (Str.includes part src)
  end.

Inductive op : Type :=
| Cp (src dst : string) (f : selection) (overwrite : bool) | Rm (path : string) | Mkdir (path : string)
| WriteFile (path text : string) | Chmod (path : string) (mode : Z)
| Deploy (workspaceRoot name dst : string) (frozen : bool)   (* pnpm deploy; unfrozen, under the lock below *)
| Install (manager dir : string)                             (* pnpm or npm install, production only *)
| Tidy (dir containerAppRoot : string)                       (* makeDeployReproducible *)
| Pack (dir : string) | Destroy
| Build (tag : string) (target : ImageCache.BuildTarget) (cacheRef : string) (nocache : bool)
| Retain (tag cacheRef : string) (previousIds : list (option string)) (legacyRef : string).

Inductive event := Made (dir : string) | Did (o : op) | Failed (o : op).

Record Manifest := { m_name : string; runtime : string; on_install : list string }.

(** What the stream of a build reports, and how it ends. *)
Record build_event := { ev_stream : option string; ev_error : option string }.
Inductive stream_end := Finished (err : option string) | AbortedMidway.

Record World := {
  fails : list event -> op -> option string;
  mkdtemp : list event -> result string string;
  existsSync : list event -> string -> bool;
  loadManifest : list event -> string -> result string Manifest;
  read_name : list event -> string -> result string string;                 (* JSON.parse(readFile(path)).name *)
  read_deps : list event -> string -> result string PackageDeps;
  with_deps : list event -> string -> PackageDeps -> string;                (* the file again, with these ranges *)
  read_text : list event -> string -> result string string;
  inspectId : list event -> string -> option string;
  build : list event -> list build_event * stream_end;
  aborted : list event -> bool;
  nocache : bool; release : string; pkgRoot : string; cwd : string;
  realpath : string -> option string; sha256 : string -> string
}.

Record BuildImageOptions := {
  appDir : string; tag : string; target : ImageCache.BuildTarget;
  companions : option (list (string * string));   (* name, appDir *)
  appName : option string; forceCompanionLayout : bool
}.

Definition SCAFFOLD_BUILD_APPROVALS : list (string * bool) := [("protobufjs", true); ("@berthos/sdk", true); ("sharp", false)].
Definition approvals_yaml : string :=
  "allowBuilds:" +:+ newline +:+
  Str.join newline (map (fun '(n, ok) => "  " +:+ Json.Json.quote n +:+ ": " +:+ (if (ok : bool) then "true" else "false")) SCAFFOLD_BUILD_APPROVALS) +:+ newline.

Section build.
Context (w : World).
Abbreviation BuildM := (@M event string).

Definition call (o : op) : BuildM unit := fun t =>
  match fails w t o with None => (t ++ [Did o], Ok tt) | Some e => (t ++ [Failed o], Err e) end.
Definition query {A} (f : list event -> result string A) : BuildM A := fun t => (t, f t).

(** [try { m } catch { k }], [try { m } finally { c }] *)
Definition or_else {A} (m k : BuildM A) : BuildM A := fun t =>
  match m t with (t1, Ok a) => (t1, Ok a) | (t1, Err _) => k t1 end.
Definition finally {A} (m : BuildM A) (c : BuildM unit) : BuildM A := fun t =>
  let '(t1, r) := m t in match c t1 with (t2, Ok _) => (t2, r) | (t2, Err e) => (t2, Err e) end.

Definition throwIfAborted : BuildM unit := query (fun t => if aborted w t then Err "AbortError" else Ok tt).

(** ** Sources *)

Definition deployWorkspaceMember (workspaceRoot name stagingDir : string) : BuildM unit :=
  or_else (call (Deploy workspaceRoot name stagingDir true))
          (call (Rm stagingDir) ;; call (Deploy workspaceRoot name stagingDir false)).

Definition pin_staged (stagingDir : string) : BuildM unit :=
  let stagedPkg := join [stagingDir; "package.json"] in
  there ← asks (fun t => existsSync w t stagedPkg);
  if (there : bool) then
    pkg ← query (fun t => read_deps w t stagedPkg);
    pinned ← lift (pinWorkspaceSpecs (berthReleaseVersion (release w)) pkg);
    if (pinned.2 : bool) then
      text ← asks (fun t => with_deps w t stagedPkg pinned.1);
      call (WriteFile stagedPkg text) ;;
      let workspaceYaml := join [stagingDir; "pnpm-workspace.yaml"] in
      there ← asks (fun t => existsSync w t workspaceYaml);
      if (there : bool) then mret tt else call (WriteFile workspaceYaml approvals_yaml)
    else mret tt
  else mret tt.

Definition stageProductionSource (appDir stagingDir containerAppRoot : string) : BuildM unit :=
  m ← query (fun t => loadManifest w t (join [appDir; "berth.yml"]));
  if String.eqb (runtime m) "python" then call (Cp appDir stagingDir (PythonImage appDir) true)
  else
    root ← asks (fun t => workspaceRootAbove (existsSync w t) appDir);
    match root with
    | Some workspaceRoot =>
        name ← query (fun t => read_name w t (join [appDir; "package.json"]));
        deployWorkspaceMember workspaceRoot name stagingDir ;;
        call (Tidy stagingDir containerAppRoot)
    | None =>
        call (Cp appDir stagingDir (BuildContext appDir) true) ;;
        pin_staged stagingDir ;;
        or_else (call (Install "pnpm" stagingDir)) (call (Install "npm" stagingDir)) ;;
        call (Tidy stagingDir containerAppRoot)
    end.

Definition stageOnInstallScript (appDir stagedAppRoot : string) : BuildM bool :=
  m ← query (fun t => loadManifest w t (join [appDir; "berth.yml"]));
  match on_install m with
  | [] => mret false
  | _ =>
      call (Mkdir (join [stagedAppRoot; ".berth"])) ;;
      call (WriteFile (join [stagedAppRoot; ".berth"; "on-install.sh"]) (on_install_script (on_install m))) ;;
      call (Chmod (join [stagedAppRoot; ".berth"; "on-install.sh"]) 493) ;;
      mret true
  end.

Definition ensureOnInstallContext (stagingDir : string) : BuildM string :=
  let contextDir := join [stagingDir; "on-install"] in
  call (Mkdir contextDir) ;;
  call (WriteFile (join [contextDir; ".keep"]) ("on_install build context — see image.ts's stageDevOnInstallContext()" +:+ newline)) ;;
  mret contextDir.

(** The primary's name is the option's, or the manifest's. *)
Definition primary_name (o : BuildImageOptions) : BuildM string :=
  match appName o with
  | Some n => mret n
  | None => m ← query (fun t => loadManifest w t (join [appDir o; "berth.yml"])); mret (m_name m)
  end.
Definition companions_of (o : BuildImageOptions) : list (string * string) := or_default [] (companions o).

Fixpoint stage_dev_apps (contextDir : string) (apps : list (string * string)) : BuildM unit :=
  match apps with
  | [] => mret tt
  | (name, appDir) :: apps =>
      let stagedAppRoot := join [contextDir; "apps"; name] in
      call (Mkdir stagedAppRoot) ;;
      written ← stageOnInstallScript appDir stagedAppRoot;
      (if (written : bool) then call (Cp appDir stagedAppRoot (BuildContext appDir) false) else call (Rm stagedAppRoot)) ;;
      stage_dev_apps contextDir apps
  end.

Definition stageDevOnInstallContext (o : BuildImageOptions) (stagingDir : string) : BuildM unit :=
  contextDir ← ensureOnInstallContext stagingDir;
  primaryName ← primary_name o;
  stage_dev_apps contextDir ((primaryName, appDir o) :: companions_of o).

Fixpoint stage_runtimes (dir : string) (first : bool) (apps : list (string * string)) : BuildM unit :=
  match apps with
  | [] => mret tt
  | (name, appDir) :: apps =>
      m ← query (fun t => loadManifest w t (join [appDir; "berth.yml"]));
      call (WriteFile (join [dir; name]) (runtime m +:+ newline)) ;;
      (if first then call (WriteFile (join [dir; "_primary"]) (runtime m +:+ newline)) else mret tt) ;;
      stage_runtimes dir false apps
  end.

Definition stageAppRuntimes (stagingDir : string) (apps : list (string * string)) : BuildM unit :=
  let dir := join [stagingDir; "berth-runtime"] in
  call (Mkdir dir) ;; stage_runtimes dir true apps.

Fixpoint stage_apps (stagingDir : string) (apps : list (string * string)) : BuildM unit :=
  match apps with
  | [] => mret tt
  | (name, appDir) :: apps =>
      stageProductionSource appDir (join [stagingDir; "apps"; name]) ("/app/apps/" +:+ name) ;;
      _ ← stageOnInstallScript appDir (join [stagingDir; "apps"; name]);
      stage_apps stagingDir apps
  end.

(** The sources, for either target. *)
Definition stage_sources (o : BuildImageOptions) (stagingDir : string) : BuildM unit :=
  match target o with
  | ImageCache.production =>
      (match companions_of o, forceCompanionLayout o with
       | [], false =>
           stageProductionSource (appDir o) stagingDir "/app" ;;
           _ ← stageOnInstallScript (appDir o) stagingDir; mret tt
       | cs, _ =>
           match appName o ≫= ImageCache.nonempty with
           | None => fail "buildImage: appName is required when companions is non-empty or forceCompanionLayout is set"
           | Some appName => stage_apps stagingDir ((appName, appDir o) :: cs)
           end
       end) ;;
      _ ← ensureOnInstallContext stagingDir; mret tt
  | ImageCache.dev =>
      call (Cp (appDir o) stagingDir (BuildContext (appDir o)) true) ;;
      stageDevOnInstallContext o stagingDir
  end.

(** ** The rest of the context *)

Definition DOCKER_ASSETS_DIR : string := join [pkgRoot w; "docker"].
Definition source_dirs (ex : string -> bool) : list string :=
  [daemonSourceDir ex "context-bus-daemon" (pkgRoot w); daemonSourceDir ex "agent-init" (pkgRoot w);
   daemonSourceDir ex "semantic-fs-daemon" (pkgRoot w); daemonSourceDir ex "mesh-daemon" (pkgRoot w);
   pythonSdkSourceDir ex (pkgRoot w); nodeSdkToolsDir (pkgRoot w)].

Fixpoint require_dirs (dirs : list string) : BuildM unit :=
  match dirs with
  | [] => mret tt
  | dir :: dirs =>
      there ← asks (fun t => existsSync w t dir);
      if (there : bool) then require_dirs dirs
      else fail ("daemon source not found at " +:+ dir +:+ ": this @berthos/docker-orchestrator has neither the repository's packages/ nor a bundled daemons/ copy (run its build, which bundles them)")
  end.

(** [ex] is what existed when the module was loaded. *)
Definition stage_assets (ex : string -> bool) (stagingDir : string) : BuildM unit :=
  call (Cp DOCKER_ASSETS_DIR (join [stagingDir; "docker"]) Everything true) ;;
  require_dirs (source_dirs ex) ;;
  let bus := daemonSourceDir ex "context-bus-daemon" (pkgRoot w) in
  let init := daemonSourceDir ex "agent-init" (pkgRoot w) in
  let mesh := daemonSourceDir ex "mesh-daemon" (pkgRoot w) in
  call (Cp bus (join [stagingDir; "context-bus-daemon"]) (Without (join [bus; "target"])) true) ;;
  call (Cp init (join [stagingDir; "agent-init"]) (Without (join [init; "target"])) true) ;;
  call (Cp (daemonSourceDir ex "semantic-fs-daemon" (pkgRoot w)) (join [stagingDir; "semantic-fs-daemon"]) Everything true) ;;
  call (Cp (join [pythonSdkSourceDir ex (pkgRoot w); "berth_sdk"]) (join [stagingDir; "sdk-python"; "berth_sdk"]) (Without "__pycache__") true) ;;
  call (Cp (nodeSdkToolsDir (pkgRoot w)) (join [stagingDir; "sdk-node"]) Everything true) ;;
  call (Cp mesh (join [stagingDir; "mesh-daemon"]) (Without (join [mesh; "target"])) true) ;;
  dockerfile ← query (fun t => read_text w t (join [DOCKER_ASSETS_DIR; "base.Dockerfile"]));
  call (WriteFile (join [stagingDir; "Dockerfile"]) dockerfile).

(** ** Following the build *)

Definition error_of (e : build_event) : option string := ev_error e ≫= ImageCache.nonempty.
Definition last_error (evs : list build_event) : option string := last (omap error_of evs).

Definition follow (tag : string) (abortedNow : bool) (evs : list build_event) (e : stream_end) : result string unit :=
  let cancelled := "the build of " +:+ tag +:+ " was cancelled" in
  if abortedNow then Err cancelled
  else match e with
       | AbortedMidway => Err cancelled
       | Finished (Some err) => Err err
       | Finished None => match last_error evs with Some err => Err err | None => Ok tt end
       end.

Definition run_build (o : BuildImageOptions) (stagingDir : string) : BuildM unit :=
  let cacheRef := ImageCache.buildCacheRef (cwd w) (realpath w) (sha256 w) (tag o) (target o) (appDir o) in
  previousIds ← asks (fun t => [inspectId w t (tag o); inspectId w t cacheRef]);
  throwIfAborted ;;
  call (Pack stagingDir) ;;
  call (Build (tag o) (target o) cacheRef (nocache w)) ;;
  s ← asks (build w);
  now ← asks (aborted w);
  lift (follow (tag o) now s.1 s.2) ;;
  emit (Did (Retain (tag o) cacheRef previousIds (ImageCache.legacyBuildCacheRef (tag o) (target o)))) (fun _ => Ok tt).

Definition is_pack (e : event) : bool := match e with Did (Pack _) => true | _ => false end.

Definition buildImage (ex : string -> bool) (o : BuildImageOptions) : BuildM unit :=
  throwIfAborted ;;
  stagingDir ← (fun t => match mkdtemp w t with Ok dir => (t ++ [Made dir], Ok dir) | Err e => (t, Err e) end);
  finally
    (stage_sources o stagingDir ;;
     primaryName ← primary_name o;
     stageAppRuntimes stagingDir ((primaryName, appDir o) :: companions_of o) ;;
     stage_assets ex stagingDir ;;
     run_build o stagingDir)
    (packed ← asks (existsb is_pack);
     (if (packed : bool) then emit (Did Destroy) (fun _ => Ok tt) else mret tt) ;;
     call (Rm stagingDir)).
End build.

(** ** Runs *)

Definition grows {A} (m : @M event string A) : Prop := forall t, exists new, (m t).1 = t ++ new.

Lemma grows_here {A} (r : list event -> result string A) : grows (fun t => (t, r t)).
Proof. intros t. exists []. by rewrite app_nil_r. Qed.
Lemma grows_emit {A} e (f : list event -> result string A) : grows (emit e f).
Proof. intros t. by exists [e]. Qed.
Lemma grows_call w o : grows (call w o).
Proof. intros t. unfold call. destruct (fails w t o); by eexists. Qed.
Lemma grows_bind {A B} (m : @M event string A) (k : A -> @M event string B) : grows m -> (forall a, grows (k a)) -> grows (m ≫= k).
Proof.
  intros Hm Hk t. destruct (Hm t) as [n1 E1]. unfold mbind, M_bind. destruct (m t) as [t1 [a|e]]; cbn in *; subst; [|by exists n1].
  destruct (Hk a (t ++ n1)) as [n2 E2]. exists (n1 ++ n2). by rewrite E2, app_assoc.
Qed.
Lemma grows_or_else {A} (m k : @M event string A) : grows m -> grows k -> grows (or_else m k).
Proof.
  intros Hm Hk t. destruct (Hm t) as [n1 E1]. unfold or_else. destruct (m t) as [t1 [a|e]]; cbn in *; subst; [by exists n1|].
  destruct (Hk (t ++ n1)) as [n2 E2]. exists (n1 ++ n2). by rewrite E2, app_assoc.
Qed.

Ltac grow :=
  repeat first
    [ apply grows_bind; [|intros ?] | apply grows_or_else | apply grows_call | apply grows_emit | apply grows_here
    | match goal with |- grows (match ?x with _ => _ end) => destruct x end
    | progress intros ].

Section grow.
Context (w : World).

Lemma grows_source a s c : grows (stageProductionSource w a s c).
Proof. unfold stageProductionSource, deployWorkspaceMember, pin_staged. grow. Qed.
Lemma grows_script a s : grows (stageOnInstallScript w a s).
Proof. unfold stageOnInstallScript. grow. Qed.
Lemma grows_ensure s : grows (ensureOnInstallContext w s).
Proof. unfold ensureOnInstallContext. grow. Qed.
Lemma grows_primary o : grows (primary_name w o).
Proof. unfold primary_name. grow. Qed.
Lemma grows_dev_apps c apps : grows (stage_dev_apps w c apps).
Proof. induction apps as [|[n a] apps IH]; cbn [stage_dev_apps]; [apply grows_here|]. apply grows_bind; [apply grows_call|intros _]. apply grows_bind; [apply grows_script|]. grow. exact IH. Qed.
Lemma grows_apps s apps : grows (stage_apps w s apps).
Proof.
  induction apps as [|[n a] apps IH]; cbn [stage_apps]; [apply grows_here|]. apply grows_bind; [apply grows_source|intros _].
  by apply grows_bind; [apply grows_script|intros _].
Qed.
Lemma grows_runtimes d b apps : grows (stage_runtimes w d b apps).
Proof. revert b; induction apps as [|[n a] apps IH]; intros b; cbn [stage_runtimes]; [apply grows_here|]. grow; apply IH. Qed.
Lemma grows_require dirs : grows (require_dirs w dirs).
Proof. induction dirs as [|d dirs IH]; cbn [require_dirs]; [apply grows_here|]. grow; exact IH. Qed.
Lemma grows_assets ex s : grows (stage_assets w ex s).
Proof. unfold stage_assets. apply grows_bind; [apply grows_call|intros _]. apply grows_bind; [apply grows_require|intros _]. grow. Qed.
Lemma grows_sources o s : grows (stage_sources w o s).
Proof.
  unfold stage_sources, stageDevOnInstallContext. destruct (target o).
  - apply grows_bind; [apply grows_call|intros _]. apply grows_bind; [apply grows_ensure|intros ?].
    apply grows_bind; [apply grows_primary|intros ?]. apply grows_dev_apps.
  - apply grows_bind.
    + assert (Ha : forall cs, grows (match appName o ≫= ImageCache.nonempty with
        | None => fail "buildImage: appName is required when companions is non-empty or forceCompanionLayout is set"
        | Some appName => stage_apps w s ((appName, appDir o) :: cs) end)) by (intros; destruct (_ ≫= _); [apply grows_apps|apply grows_here]).
      destruct (companions_of o); [destruct (forceCompanionLayout o)|]; try apply Ha.
      apply grows_bind; [apply grows_source|intros _]. apply grows_bind; [apply grows_script|intros _]. apply grows_here.
    + intros _. apply grows_bind; [apply grows_ensure|intros _]. apply grows_here.
Qed.
Lemma grows_stageRuntimes s apps : grows (stageAppRuntimes w s apps).
Proof. unfold stageAppRuntimes. apply grows_bind; [apply grows_call|intros _]. apply grows_runtimes. Qed.
Lemma grows_run o s : grows (run_build w o s).
Proof. unfold run_build, throwIfAborted. grow. Qed.

Definition body ex o dir : @M event string unit :=
  stage_sources w o dir ;;
  primaryName ← primary_name w o;
  stageAppRuntimes w dir ((primaryName, appDir o) :: companions_of o) ;;
  stage_assets w ex dir ;;
  run_build w o dir.

Lemma grows_body ex o dir : grows (body ex o dir).
Proof.
  unfold body. apply grows_bind; [apply grows_sources|intros _]. apply grows_bind; [apply grows_primary|intros ?].
  apply grows_bind; [apply grows_stageRuntimes|intros _]. apply grows_bind; [apply grows_assets|intros _]. apply grows_run.
Qed.

(** A run of [buildImage], its way out included. *)
Lemma buildImage_run ex o : exists t r, buildImage w ex o [] = (t, r) /\
  ((t = [] /\ is_ok r = false) \/
   exists dir new r0 (packed : bool), mkdtemp w [] = Ok dir /\ t = Made dir :: new ++ (if packed then [Did Destroy] else []) ++
       match fails w (Made dir :: new ++ (if packed then [Did Destroy] else [])) (Rm dir) with None => [Did (Rm dir)] | Some _ => [Failed (Rm dir)] end /\
     body ex o dir [Made dir] = (Made dir :: new, r0) /\ packed = existsb is_pack (Made dir :: new) /\
     r = match fails w (Made dir :: new ++ (if packed then [Did Destroy] else [])) (Rm dir) with None => r0 | Some e => Err e end).
Proof.
  unfold buildImage, throwIfAborted, query, mbind at 1, M_bind at 1. destruct (aborted w []); [by eexists _, _; split; [done|left]|].
  unfold mbind at 1, M_bind at 1. destruct (mkdtemp w []) as [dir|e] eqn:Em; [|by eexists _, _; split; [done|left]].
  unfold finally. fold (body ex o dir). destruct (grows_body ex o dir ([] ++ [Made dir])) as [new En].
  destruct (body ex o dir ([] ++ [Made dir])) as [t1 r0] eqn:Eb. cbn [fst app] in *. subst t1.
  unfold mbind, M_bind, asks, emit, call. cbn [app]. destruct (existsb is_pack (Made dir :: new)) eqn:Ep; cbn [mret M_ret];
    (eexists _, _; split; [apply surjective_pairing|right]).
  - exists dir, new, r0, true. change ((Made dir :: new) ++ [Did Destroy]) with (Made dir :: new ++ [Did Destroy]).
    destruct (fails w (Made dir :: new ++ [Did Destroy]) (Rm dir)); cbn; split_and!; try done; by rewrite <-app_assoc.
  - exists dir, new, r0, false. cbn [app]. rewrite app_nil_r. by destruct (fails w (Made dir :: new) (Rm dir)).
Qed.
End grow.

(** The build context never outlives the build: once its directory is made, the
    last thing a build does, however it ends, is to remove it; and when even
    that fails the build fails. *)
Theorem buildImage_cleans w ex o t r : buildImage w ex o [] = (t, r) ->
  (t = [] /\ is_ok r = false) \/
  exists dir, head t = Some (Made dir) /\
    (last t = Some (Did (Rm dir)) \/ (last t = Some (Failed (Rm dir)) /\ is_ok r = false)).
Proof.
  intros E1. destruct (buildImage_run w ex o) as (t' & r' & E2 & H). rewrite E1 in E2. injection E2 as <- <-.
  destruct H as [H|(dir & new & r0 & packed & Hmk & -> & _ & _ & ->)]; [by left|right]. exists dir. split; [done|].
  rewrite app_comm_cons, app_assoc, last_app.
  destruct (fails w _ (Rm dir)); cbn; [by right|by left].
Qed.

(** ** What a successful build has done *)

Lemma bind_done {A B} (m : @M event string A) (k : A -> @M event string B) t t2 b :
  (m ≫= k) t = (t2, Ok b) -> exists t1 a, m t = (t1, Ok a) /\ k a t1 = (t2, Ok b).
Proof. unfold mbind, M_bind. destruct (m t) as [t1 [a|e]]; [|done]. intros H. by exists t1, a. Qed.

Lemma call_ok w o t t1 u : call w o t = (t1, Ok u) -> t1 = t ++ [Did o].
Proof. unfold call. destruct (fails w t o); [done|]. by intros [= <-]. Qed.

Lemma grows_in {A} (m : @M event string A) t t1 r e : grows m -> m t = (t1, r) -> e ∈ t -> e ∈ t1.
Proof. intros Hg E1 He. destruct (Hg t) as [new En]. rewrite E1 in En. cbn in En. subst. apply elem_of_app. by left. Qed.

Lemma ensure_ok w s t t1 c : ensureOnInstallContext w s t = (t1, Ok c) ->
  c = join [s; "on-install"] /\ exists text, Did (WriteFile (join [c; ".keep"]) text) ∈ t1.
Proof.
  unfold ensureOnInstallContext. intros (t2 & a & H1%call_ok & H)%bind_done. apply bind_done in H as (t3 & b & H2%call_ok & H).
  injection H as <- <-. split; [done|]. eexists. subst. apply elem_of_app. right. by apply list_elem_of_singleton.
Qed.

Lemma stage_sources_ok w o s t t1 : stage_sources w o s t = (t1, Ok tt) ->
  exists text, Did (WriteFile (join [join [s; "on-install"]; ".keep"]) text) ∈ t1.
Proof.
  unfold stage_sources, stageDevOnInstallContext. destruct (target o).
  - intros (t2 & a & _ & H)%bind_done. apply bind_done in H as (t3 & c & (-> & text & Hk)%ensure_ok & H). exists text.
    eapply grows_in; [|exact H|exact Hk]. apply grows_bind; [apply grows_primary|intros ?; apply grows_dev_apps].
  - intros (t2 & a & _ & H)%bind_done. apply bind_done in H as (t3 & c & (-> & text & Hk)%ensure_ok & H). injection H as <-. by exists text.
Qed.

Lemma runtimes_ok w s p ps t t1 : stageAppRuntimes w s (p :: ps) t = (t1, Ok tt) ->
  exists m t0, loadManifest w t0 (join [p.2; "berth.yml"]) = Ok m /\
    Did (WriteFile (join [join [s; "berth-runtime"]; "_primary"]) (runtime m +:+ newline)) ∈ t1.
Proof.
  destruct p as [n a]. unfold stageAppRuntimes. intros (t2 & ? & _ & H)%bind_done. cbn [stage_runtimes] in H.
  apply bind_done in H as (t3 & m & Hm & H). apply bind_done in H as (t4 & ? & _ & H).
  apply bind_done in H as (t5 & ? & H1%call_ok & H). exists m, t2. unfold query in Hm. injection Hm as _ Hm. split; [done|].
  eapply grows_in; [apply grows_runtimes|exact H|]. subst. apply elem_of_app. right. by apply list_elem_of_singleton.
Qed.

Lemma assets_ok w ex s t t1 : stage_assets w ex s t = (t1, Ok tt) ->
  exists t0 text, read_text w t0 (join [DOCKER_ASSETS_DIR w; "base.Dockerfile"]) = Ok text /\ Did (WriteFile (join [s; "Dockerfile"]) text) ∈ t1.
Proof.
  unfold stage_assets. intros H. do 8 (apply bind_done in H as (? & ? & _ & H)). apply bind_done in H as (t2 & text & Hr & H).
  apply call_ok in H. unfold query in Hr. injection Hr as <- Hr. eexists _, text. split; [exact Hr|]. subst. apply elem_of_app. right. by apply list_elem_of_singleton.
Qed.

(** A build that is reported to have succeeded did: Docker's stream ended, and
    no event of it was an error, even where the stream itself ended well; what
    Docker got was packed after the whole context was staged, the files its
    stages copy for either target among them; and only then is the old build
    retired. *)
Theorem buildImage_sound w ex o t : buildImage w ex o [] = (t, Ok tt) ->
  exists dir pre post text m dockerfile previousIds,
    let cacheRef := ImageCache.buildCacheRef (cwd w) (realpath w) (sha256 w) (tag o) (target o) (appDir o) in
    let built := pre ++ [Did (Pack dir); Did (Build (tag o) (target o) cacheRef (nocache w))] in
    t = built ++ [Did (Retain (tag o) cacheRef previousIds (ImageCache.legacyBuildCacheRef (tag o) (target o)))] ++ post /\
    aborted w built = false /\ (build w built).2 = Finished None /\ Forall (fun e => error_of e = None) (build w built).1 /\
    Did (WriteFile (join [join [dir; "on-install"]; ".keep"]) text) ∈ pre /\
    Did (WriteFile (join [join [dir; "berth-runtime"]; "_primary"]) (runtime m +:+ newline)) ∈ pre /\
    Did (WriteFile (join [dir; "Dockerfile"]) dockerfile) ∈ pre.
Proof.
  intros E1. destruct (buildImage_run w ex o) as (t' & r' & E2 & H). rewrite E1 in E2. injection E2 as <- <-.
  destruct H as [[_ ?]|(dir & new & r0 & packed & Hmk & -> & Hb & _ & Hr)]; [done|].
  destruct (fails w _ (Rm dir)); [done|]. subst r0. revert Hb. generalize [Made dir]. intros t0 Hb.
  unfold body in Hb. apply bind_done in Hb as (t1 & [] & (text & Hk)%stage_sources_ok & Hb).
  apply bind_done in Hb as (t2 & pn & Hp & Hb). apply bind_done in Hb as (t3 & [] & Hrt & Hb).
  destruct (runtimes_ok _ _ _ _ _ _ Hrt) as (m & _ & _ & Hm). apply bind_done in Hb as (t4 & [] & Ha & Hb).
  destruct (assets_ok _ _ _ _ _ Ha) as (_ & df & _ & Hd).
  assert (Hk4 : Did (WriteFile (join [join [dir; "on-install"]; ".keep"]) text) ∈ t4).
  { eapply grows_in; [apply grows_assets|exact Ha|]. eapply grows_in; [apply grows_stageRuntimes|exact Hrt|].
    by eapply grows_in; [apply grows_primary|exact Hp|]. }
  assert (Hm4 := grows_in _ _ _ _ _ (grows_assets w ex dir) Ha Hm).
  unfold run_build in Hb. apply bind_done in Hb as (t5 & ids & [= <- <-] & Hb). apply bind_done in Hb as (t6 & ? & Habort & Hb).
  assert (t6 = t4) as -> by (unfold throwIfAborted, query in Habort; by injection Habort).
  apply bind_done in Hb as (t7 & ? & ->%call_ok & Hb). apply bind_done in Hb as (t8 & ? & ->%call_ok & Hb). rewrite <-app_assoc in Hb. cbn [app] in Hb.
  apply bind_done in Hb as (? & s & [= <- <-] & Hb). apply bind_done in Hb as (? & now & [= <- <-] & Hb).
  apply bind_done in Hb as (? & ? & [= <- Hf] & Hb). unfold emit in Hb. injection Hb as Hb.
  exists dir, t4. eexists _, text, m, df, _. cbn zeta. split_and!.
  - rewrite app_comm_cons, <-Hb, <-!app_assoc. reflexivity.
  - unfold follow in Hf. by destruct (aborted w _).
  - unfold follow in Hf. destruct (aborted w _); [done|]. by destruct ((build w _).2) as [[?|]|].
  - unfold follow in Hf. destruct (aborted w _); [done|]. destruct ((build w _).2) as [[?|]|]; [done| |done].
    unfold last_error in Hf. destruct (last _) eqn:El; [done|]. apply last_None in El.
    apply Forall_forall. intros e He. destruct (error_of e) as [msg|] eqn:Ee; [|done].
    exfalso. apply (not_elem_of_nil msg). rewrite <-El. apply list_elem_of_omap. by exists e.
  - done.
  - done.
  - done.
Qed.

(** ** Where a build writes *)

Lemma join_abs_many segs fs : segs <> [] -> Forall good segs -> Forall good fs -> fs <> [] ->
  join (abs_path segs :: fs) = abs_path (segs ++ fs).
Proof.
  revert segs; induction fs as [|f fs IH]; intros segs Hn Hs Hf Hne; [done|]. apply Forall_cons in Hf as [Hg Hf].
  destruct fs as [|g fs]; [by apply join_abs_path|].
  replace (segs ++ f :: g :: fs) with ((segs ++ [f]) ++ g :: fs) by (by rewrite <-app_assoc).
  rewrite <-IH; [|by destruct segs|by apply Forall_app; split; [|constructor]|done|done].
  assert (Hall : Forall (fun a => a <> "") (g :: fs)) by (eapply Forall_impl; [exact Hf|]; intros x Hx; apply Hx).
  unfold join. rewrite !(filter_cons_True _ _ (g :: fs)) by (apply Hg || done).
  assert (Hfl : filter (fun a => a <> "") (g :: fs) = g :: fs).
  { clear -Hall. induction Hall as [|x l Hx _ IHl]; [done|]. by rewrite filter_cons_True, IHl. }
  assert (Hfl2 : filter (fun a => a <> "") (f :: g :: fs) = f :: g :: fs) by (by rewrite filter_cons_True, Hfl by apply Hg).
  rewrite !filter_cons_True, Hfl by (apply Hg || done).
  f_equal. change (Str.join "/" (abs_path segs :: f :: g :: fs)) with (abs_path segs +:+ "/" +:+ f +:+ "/" +:+ Str.join "/" (g :: fs)).
  change (Str.join "/" (abs_path (segs ++ [f]) :: g :: fs)) with (abs_path (segs ++ [f]) +:+ "/" +:+ Str.join "/" (g :: fs)).
  unfold abs_path at 2. rewrite Explain.Explain.join_snoc by done. unfold abs_path. by rewrite !app_assoc_str.
Qed.

(** The directory or file a call changes. *)
Definition written (o : op) : option string :=
  match o with
  | Cp _ d _ _ | Rm d | Mkdir d | WriteFile d _ | Chmod d _ | Deploy _ _ d _ | Install _ d | Tidy d _ => Some d
  | _ => None
  end.

Section confined.
Context (w : World) (segs : list string) (Hne : segs <> []) (Hsegs : Forall good segs).
Context (Hman : forall t p m, loadManifest w t p = Ok m -> good (m_name m)).

Definition inside (p : string) : Prop := exists l, Forall good l /\ p = abs_path (segs ++ l).
Definition op_inside (o : op) : Prop := match written o with Some d => inside d | None => True end.
Definition within (e : event) : Prop := match e with Did o | Failed o => op_inside o | Made _ => True end.

Definition keeps {A} (R : A -> Prop) (m : @M event string A) : Prop :=
  forall t, Forall within t -> Forall within (m t).1 /\ forall a, (m t).2 = Ok a -> R a.

Lemma inside_root : inside (abs_path segs).
Proof. exists []. by rewrite app_nil_r. Qed.
Lemma inside_join p fs : inside p -> Forall good fs -> fs <> [] -> inside (join (p :: fs)).
Proof.
  intros (l & Hl & ->) Hf Hn. exists (l ++ fs). split; [by apply Forall_app|]. rewrite join_abs_many, app_assoc; [done| | |done|done].
  - by destruct segs.
  - by apply Forall_app.
Qed.

Lemma keeps_here {A} (R : A -> Prop) (r : list event -> result string A) : (forall t a, r t = Ok a -> R a) -> keeps R (fun t => (t, r t)).
Proof. intros H t Ht. split; [done|]. apply H. Qed.
Lemma keeps_emit {A} (R : A -> Prop) e (f : list event -> result string A) : within e -> (forall t a, f t = Ok a -> R a) -> keeps R (emit e f).
Proof. intros He H t Ht. split; [|apply H]. by apply Forall_app; split; [|constructor]. Qed.
Lemma keeps_call (R : unit -> Prop) o : op_inside o -> R tt -> keeps R (call w o).
Proof.
  intros Ho HR t Ht. unfold call. destruct (fails w t o); cbn; (split; [by apply Forall_app; split; [|constructor]|]); [done|by intros [] _].
Qed.
Lemma keeps_bind {A B} (R : A -> Prop) (S : B -> Prop) (m : @M event string A) (k : A -> @M event string B) :
  keeps R m -> (forall a, R a -> keeps S (k a)) -> keeps S (m ≫= k).
Proof.
  intros Hm Hk t Ht. destruct (Hm t Ht) as [H1 H2]. unfold mbind, M_bind. destruct (m t) as [t1 [a|e]]; cbn in *; [|done].
  by apply Hk; [apply H2|].
Qed.
Lemma keeps_or_else {A} (R : A -> Prop) (m k : @M event string A) : keeps R m -> keeps R k -> keeps R (or_else m k).
Proof. intros Hm Hk t Ht. destruct (Hm t Ht) as [H1 H2]. unfold or_else. destruct (m t) as [t1 [a|e]]; cbn in *; [done|by apply Hk]. Qed.
Lemma keeps_then {A B} (S : B -> Prop) (m : @M event string A) (k : @M event string B) : keeps (fun _ => True) m -> keeps S k -> keeps S (m ;; k).
Proof. intros Hm Hk. by eapply keeps_bind. Qed.

Lemma good_lit f : bool_decide (f <> "" /\ f <> "." /\ f <> "..") && negb (Str.any (Ascii.eqb slash) f) = true -> good f.
Proof. intros [H1%bool_decide_eq_true H2%negb_true_iff]%andb_true_iff. unfold good. tauto. Qed.

Ltac inside_tac :=
  cbn [op_inside written]; try exact I; try apply inside_root; try assumption;
  repeat (apply inside_join; [|by repeat (apply Forall_cons; split); first [assumption|by apply good_lit|by apply Forall_nil]|done]);
  try apply inside_root; try assumption.
Ltac keep :=
  repeat first
    [ apply keeps_then | apply keeps_or_else | apply keeps_call; [unfold op_inside; inside_tac|done]
    | apply keeps_emit; [exact I|done] | apply keeps_here; done
    | eapply (keeps_bind (fun _ => True)); [|intros ? _]
    | match goal with |- keeps _ (match ?x with _ => _ end) => destruct x end
    | match goal with |- keeps _ (fun t => call _ _ t) => intros ? ?; apply keeps_call; [unfold op_inside; inside_tac|done|done] end ].

Lemma keeps_source a s c : inside s -> keeps (fun _ => True) (stageProductionSource w a s c).
Proof. intros Hs. unfold stageProductionSource, deployWorkspaceMember, pin_staged. keep. Qed.
Lemma keeps_script a s : inside s -> keeps (fun _ => True) (stageOnInstallScript w a s).
Proof. intros Hs. unfold stageOnInstallScript. keep. Qed.
Lemma keeps_ensure : keeps inside (ensureOnInstallContext w (abs_path segs)).
Proof. unfold ensureOnInstallContext. keep. apply keeps_here. intros t a [= <-]. inside_tac. Qed.

Definition names_good (o : BuildImageOptions) : Prop :=
  (forall n, appName o = Some n -> good n) /\ Forall (fun c => good c.1) (companions_of o).

Lemma keeps_primary o : names_good o -> keeps good (primary_name w o).
Proof.
  intros [Hn _]. unfold primary_name. destruct (appName o) as [n|]; [apply keeps_here; intros ? ? [= <-]; by apply Hn|].
  apply (keeps_bind (fun m => good (m_name m))); [apply keeps_here; intros t m; apply Hman|].
  intros m Hm. apply keeps_here. by intros ? ? [= <-].
Qed.
Lemma keeps_dev_apps c apps : inside c -> Forall (fun a => good a.1) apps -> keeps (fun _ => True) (stage_dev_apps w c apps).
Proof.
  intros Hc. induction 1 as [|[n a] apps Hn _ IH]; cbn [stage_dev_apps]; [by apply keeps_here|]. cbn in Hn.
  assert (Hi : inside (join [c; "apps"; n])) by inside_tac.
  apply keeps_then; [by apply keeps_call|]. eapply keeps_bind; [by apply keeps_script|]. intros b _. keep. exact IH.
Qed.
Lemma keeps_apps apps : Forall (fun a => good a.1) apps -> keeps (fun _ => True) (stage_apps w (abs_path segs) apps).
Proof.
  induction 1 as [|[n a] apps Hn _ IH]; cbn [stage_apps]; [by apply keeps_here|]. cbn in Hn.
  assert (Hi : inside (join [abs_path segs; "apps"; n])) by inside_tac.
  apply keeps_then; [by apply keeps_source|]. eapply keeps_bind; [by apply keeps_script|]. intros _ _. exact IH.
Qed.
Lemma keeps_runtimes d b apps : inside d -> Forall (fun a => good a.1) apps -> keeps (fun _ => True) (stage_runtimes w d b apps).
Proof.
  intros Hd Ha. revert b. induction Ha as [|[n a] apps Hn _ IH]; intros b; cbn [stage_runtimes]; [by apply keeps_here|]. cbn in Hn.
  keep; apply IH.
Qed.
Lemma keeps_require dirs : keeps (fun _ => True) (require_dirs w dirs).
Proof. induction dirs as [|d dirs IH]; cbn [require_dirs]; [by apply keeps_here|]. keep. exact IH. Qed.
Lemma keeps_assets ex : keeps (fun _ => True) (stage_assets w ex (abs_path segs)).
Proof. unfold stage_assets. keep. Qed.

Lemma keeps_sources o : names_good o -> keeps (fun _ => True) (stage_sources w o (abs_path segs)).
Proof.
  intros Hn. unfold stage_sources, stageDevOnInstallContext. pose proof inside_root as Hr. destruct (target o).
  - apply keeps_then; [by keep|]. eapply keeps_bind; [by apply keeps_ensure|]. intros c Hc.
    eapply keeps_bind; [by apply keeps_primary|]. intros n Hg. apply keeps_dev_apps; [done|]. constructor; [done|apply Hn].
  - apply keeps_then.
    + assert (Ha : forall cs, Forall (fun a => good a.1) cs -> keeps (fun _ => True) (match appName o ≫= ImageCache.nonempty with
        | None => fail "buildImage: appName is required when companions is non-empty or forceCompanionLayout is set"
        | Some appName => stage_apps w (abs_path segs) ((appName, appDir o) :: cs) end)).
      { intros cs Hcs. destruct (appName o) as [n|] eqn:En; [|by apply keeps_here]. change (Some n ≫= ImageCache.nonempty) with (ImageCache.nonempty n).
        destruct (ImageCache.nonempty n) as [n'|] eqn:En'; [|by apply keeps_here].
        assert (n' = n) as -> by (destruct n; [done|by injection En']). apply keeps_apps. constructor; [by apply Hn|done]. }
      destruct Hn as [_ Hcs]. destruct (companions_of o) as [|c cs]; [destruct (forceCompanionLayout o)|]; try by apply Ha.
      apply keeps_then; [by apply keeps_source|]. eapply keeps_bind; [by apply keeps_script|]. intros ? _. by apply keeps_here.
    + eapply keeps_bind; [apply keeps_ensure|]. intros ? _. by apply keeps_here.
Qed.

Lemma keeps_body ex o : names_good o -> keeps (fun _ => True) (body w ex o (abs_path segs)).
Proof.
  intros Hn. unfold body. apply keeps_then; [by apply keeps_sources|]. eapply keeps_bind; [by apply keeps_primary|]. intros n Hg.
  apply keeps_then; [unfold stageAppRuntimes; apply keeps_then; [keep|apply keeps_runtimes; [inside_tac|constructor; [done|apply Hn]]]|].
  apply keeps_then; [apply keeps_assets|]. unfold run_build, throwIfAborted. keep.
Qed.
End confined.

(** A build changes nothing outside its own directory: neither the app's source
    nor the package's own files, whatever fails and in whichever order, as long
    as the apps' names are names a manifest takes. *)
Theorem buildImage_confined w ex o t r segs :
  buildImage w ex o [] = (t, r) -> mkdtemp w [] = Ok (abs_path segs) -> segs <> [] -> Forall good segs ->
  (forall t p m, loadManifest w t p = Ok m -> good (m_name m)) -> names_good o ->
  Forall (within segs) t.
Proof.
  intros E1 Hm Hne Hs Hman Hn. destruct (buildImage_run w ex o) as (t' & r' & E2 & H). rewrite E1 in E2. injection E2 as <- <-.
  destruct H as [[-> _]|(dir & new & r0 & packed & Hmk & -> & Hb & _ & _)]; [constructor|]. rewrite Hm in Hmk. injection Hmk as <-.
  destruct (keeps_body w segs Hne Hs Hman ex o Hn [Made (abs_path segs)]) as [Hw _]; [by repeat constructor|].
  rewrite Hb in Hw. cbn [fst] in Hw. rewrite app_comm_cons. apply Forall_app. split; [done|].
  assert (Hr : op_inside segs (Rm (abs_path segs))) by apply inside_root.
  apply Forall_app. split; [destruct packed; by repeat constructor|]. destruct (fails w _ _); by repeat constructor.
Qed.

(** ** Examples *)

(** A Python app outside any workspace, and a daemon that builds. *)
Definition ex_world (errors : list build_event) (rm : option string) : World := {|
  fails _ o := match o with Rm _ => rm | _ => None end;
  mkdtemp _ := Ok "/tmp/berth-build-a1";
  existsSync _ p := negb (Str.includes "pnpm-workspace" p);
  loadManifest _ _ := Ok {| m_name := "notes"; runtime := "python"; on_install := ["pip install x"] |};
  read_name _ _ := Err "ENOENT"; read_deps _ _ := Err "ENOENT"; with_deps _ _ _ := "";
  read_text _ _ := Ok "FROM alpine";
  inspectId _ _ := None;
  build _ := (errors, Finished None);
  aborted _ := false; nocache := false; release := "1.0.0"; pkgRoot := "/pkg"; cwd := "/";
  realpath _ := None; sha256 _ := "0123456789abcdef"
|}.
Definition ex_options : BuildImageOptions := {|
  appDir := "/app"; tag := "berth/notes:dev"; target := ImageCache.dev; companions := None; appName := None; forceCompanionLayout := false
|}.

Lemma ex_manifests errors rm t p m : loadManifest (ex_world errors rm) t p = Ok m -> good (m_name m).
Proof. intros [= <-]. repeat split; done. Qed.

Lemma buildImage_sound_witness : exists (dir : string) (pre : list event) (dockerfile : string),
  (buildImage (ex_world [] None) (fun _ => true) ex_options []).2 = Ok tt /\ Did (WriteFile (join [dir; "Dockerfile"]) dockerfile) ∈ pre.
Proof.
  destruct (buildImage_sound (ex_world [] None) (fun _ => true) ex_options (buildImage (ex_world [] None) (fun _ => true) ex_options []).1)
    as (dir & pre & post & text & m & df & ids & H).
  - vm_compute. reflexivity.
  - exists dir, pre, df. split; [vm_compute; reflexivity|]. by destruct H as (_ & _ & _ & _ & _ & _ & H).
Defined.

Lemma buildImage_cleans_witness :
  let run := buildImage (ex_world [] (Some "EBUSY")) (fun _ => true) ex_options [] in
  (run.1 = [] /\ is_ok run.2 = false) \/
  exists dir, head run.1 = Some (Made dir) /\
    (last run.1 = Some (Did (Rm dir)) \/ (last run.1 = Some (Failed (Rm dir)) /\ is_ok run.2 = false)).
Proof. intros run. apply (buildImage_cleans (ex_world [] (Some "EBUSY")) (fun _ => true) ex_options). apply surjective_pairing. Defined.

Lemma buildImage_confined_witness :
  Forall (within ["tmp"; "berth-build-a1"]) (buildImage (ex_world [] None) (fun _ => true) ex_options []).1.
Proof.
  apply (buildImage_confined (ex_world [] None) (fun _ => true) ex_options _
           (buildImage (ex_world [] None) (fun _ => true) ex_options []).2 ["tmp"; "berth-build-a1"]).
  - apply surjective_pairing.
  - reflexivity.
  - discriminate.
  - repeat constructor; done.
  - intros t p m. apply ex_manifests.
  - split; [discriminate|constructor].
Defined.

(** An error event in a stream that ends well is a failed build. *)
Example error_event_fails :
  (buildImage (ex_world [{| ev_stream := None; ev_error := Some "RUN failed" |}] None) (fun _ => true) ex_options []).2 = Err "RUN failed".
Proof. vm_compute. reflexivity. Qed.
End ImageBuild.
