(* ===== verification/AppLists.v ===== *)
(** * Lists of apps on the command line (packages/cli/src/util: multi-app.ts,
    os-config.ts, workspace.ts)

    The apps that share a container: how they are named, which sets of them one
    container can hold, and what of the host [berth dev] mounts for them. What
    ends the process is an error. *)
From S2P Require Import Prelude Paths Stage.

Module AppLists.
Import NodePath.

Record BerthManifest := { name : string; capabilities : list string }.
Inductive load_error := ManifestValidationError (message : string) | Unreadable (message : string).

Definition load_message (path : string) (e : load_error) : string :=
  match e with ManifestValidationError m => m | Unreadable m => "could not read " +:+ path +:+ ": " +:+ m end.

Definition quoted (s : string) : string := let q := String (ascii_of_nat 34) "" in q +:+ s +:+ q.

(** ** multi-app.ts *)

Record AppSpec := { a_name : string; appDir : string; relPath : string; manifest : BerthManifest }.

Section resolve.
Context (cwd : string) (existsSync : string -> bool) (loadManifest : string -> result load_error BerthManifest).

Fixpoint resolve_companions (workspaceRoot : string) (relPaths : list string) (seen : list string) : result string (list AppSpec) :=
  match relPaths with
  | [] => Ok []
  | relPath :: relPaths =>
      let appDir := join [workspaceRoot; relPath] in
      match loadManifest (join [appDir; "berth.yml"]) with
      | Err e => Err (load_message (join [appDir; "berth.yml"]) e)
      | Ok manifest =>
          if existsb (String.eqb (name manifest)) seen
          then Err ("duplicate app name " +:+ quoted (name manifest) +:+ " among --apps entries")
          else
            let? rest := resolve_companions workspaceRoot relPaths (name manifest :: seen) in
            Ok ({| a_name := name manifest; appDir := appDir; relPath := relPath; manifest := manifest |} :: rest)
      end
  end.

Definition app_paths (appsFlag : string) : list string :=
  filter (fun s => s <> "") (map Str.trim (Str.split "," appsFlag)).

Definition resolveApps (primaryAppDir : string) (appsFlag : option string) (primaryManifest : BerthManifest) : result string (list AppSpec) :=
  let primary relPath := {| a_name := name primaryManifest; appDir := primaryAppDir; relPath := relPath; manifest := primaryManifest |} in
  match appsFlag with
  | None | Some "" => Ok [primary "."]
  | Some appsFlag =>
      match Stage.findWorkspaceRoot existsSync primaryAppDir with
      | None => Err "--apps requires the primary app to be a pnpm workspace member (no pnpm-workspace.yaml found above it)."
      | Some workspaceRoot =>
          let? companions := resolve_companions workspaceRoot (app_paths appsFlag) [name primaryManifest] in
          let rel := relative cwd workspaceRoot primaryAppDir in
          Ok (primary (if String.eqb rel "" then "." else rel) :: companions)
      end
  end.
End resolve.

Definition declaresBrowserCapability (m : BerthManifest) : bool := existsb (Str.starts_with "browser:") (capabilities m).
Definition declaresTerminalCapability (m : BerthManifest) : bool := existsb (Str.starts_with "terminal:") (capabilities m).
Definition declaresMeshCapability (m : BerthManifest) : bool := existsb (Str.starts_with "network:peer:") (capabilities m).
Definition declaresEgressBrokerCapability (m : BerthManifest) : bool :=
  existsb (fun cap => Str.starts_with "browser:navigate:" cap || Str.starts_with "network:host:" cap) (capabilities m).

(** The four checks are one, but for what they look for and call it. *)
Definition at_most_one (declares : BerthManifest -> bool) (label : string) (apps : list AppSpec) : result string unit :=
  match filter (fun a => declares (manifest a) = true) apps with
  | _ :: _ :: _ as l =>
      Err ("at most one app may declare a " +:+ label +:+ " capability when running multiple apps together — found " +:+
           JsNumber.JsNumber.to_string (Z.of_nat (length l)) +:+ ": " +:+ Str.join ", " (map a_name l))
  | _ => Ok tt
  end.
Definition assertAtMostOneBrowserApp : list AppSpec -> result string unit := at_most_one declaresBrowserCapability "browser:*".
Definition assertAtMostOneTerminalApp : list AppSpec -> result string unit := at_most_one declaresTerminalCapability "terminal:*".
Definition assertAtMostOneMeshApp : list AppSpec -> result string unit := at_most_one declaresMeshCapability "network:peer:*".
Definition assertAtMostOneEgressBrokerApp : list AppSpec -> result string unit :=
  at_most_one declaresEgressBrokerCapability "browser:navigate:*/network:host:*".

(** ** os-config.ts *)

Record OsAppSpec := { o_name : string; o_appDir : string; o_manifest : BerthManifest }.
(** The file as parsed: what is no array of apps is [None]. *)
Record OsConfigFileShape := { c_name : option string; c_apps : option (list string); c_network : option string }.
Record ResolvedOsConfig := { r_name : option string; appDirs : list string; r_network : option string }.

Section os.
Context (cwd : string) (loadManifest : string -> result load_error BerthManifest).

(** [read] is the file's text, or what reading it says; [parse] the YAML reader. *)
Definition loadOsConfigFile (read : string -> result string string) (parse : string -> option OsConfigFileShape) (configPath : string)
    : result string ResolvedOsConfig :=
  let absPath := resolve cwd [configPath] in
  match read absPath with
  | Err e => Err ("could not read " +:+ absPath +:+ ": " +:+ e)
  | Ok raw =>
      match parse raw ≫= (fun p => match c_apps p with Some (_ :: _ as apps) => Some (p, apps) | _ => None end) with
      | None => Err (absPath +:+ ": expected an " +:+ quoted "apps:" +:+ " list of at least one resident app directory")
      | Some (p, apps) =>
          Ok {| r_name := c_name p; appDirs := map (fun p => resolve cwd [dirname absPath; p]) apps; r_network := c_network p |}
      end
  end.

Fixpoint resolve_os (appDirs : list string) (seen : list string) : result string (list OsAppSpec) :=
  match appDirs with
  | [] => Ok []
  | appDir :: appDirs =>
      let absAppDir := resolve cwd [appDir] in
      match loadManifest (resolve cwd [absAppDir; "berth.yml"]) with
      | Err e => Err (load_message (resolve cwd [absAppDir; "berth.yml"]) e)
      | Ok manifest =>
          if existsb (String.eqb (name manifest)) seen
          then Err ("duplicate app name " +:+ quoted (name manifest) +:+ " among the apps passed to `berth os`")
          else
            let? rest := resolve_os appDirs (name manifest :: seen) in
            Ok ({| o_name := name manifest; o_appDir := absAppDir; o_manifest := manifest |} :: rest)
      end
  end.
Definition resolveOsApps (appDirs : list string) : result string (list OsAppSpec) := resolve_os appDirs [].
End os.

Definition declaresCapabilityPrefix (m : BerthManifest) (prefixes : list string) : bool :=
  existsb (fun cap => existsb (fun prefix => Str.starts_with prefix cap) prefixes) (capabilities m).

Definition assertAtMostOne (prefixes : list string) (label : string) (apps : list OsAppSpec) : result string unit :=
  match filter (fun a => declaresCapabilityPrefix (o_manifest a) prefixes = true) apps with
  | _ :: _ :: _ as l =>
      Err ("at most one app may declare a " +:+ label +:+ " capability in one `berth os` instance — found " +:+
           JsNumber.JsNumber.to_string (Z.of_nat (length l)) +:+ ": " +:+ Str.join ", " (map o_name l))
  | _ => Ok tt
  end.
Definition os_assertAtMostOneBrowserApp := assertAtMostOne ["browser:"] "browser:*".
Definition os_assertAtMostOneTerminalApp := assertAtMostOne ["terminal:"] "terminal:*".
Definition os_assertAtMostOneMeshApp := assertAtMostOne ["network:peer:"] "network:peer:*".
Definition os_assertAtMostOneEgressBrokerApp := assertAtMostOne ["browser:navigate:"; "network:host:"] "browser:navigate:*/network:host:*".

(** ** workspace.ts *)

Record bind_mount := { hostPath : string; containerPath : string; readOnly : bool }.
Record DevBindMount := { bindMount : bind_mount; extraBinds : list string; workingDir : string; workspaceRoot : string }.
Record DevMountApp := { d_appDir : string; d_relPath : string }.

Definition DEV_STATE_DIR : string := ".berth".
Definition DEV_WORKSPACE_DIR : string := DEV_STATE_DIR +:+ "/dev-workspace".

(** The mount, and the directories made on the host for it. *)
Definition resolveDevBindMount (cwd : string) (existsSync : string -> bool) (appDir : string) (companions : list DevMountApp)
    : DevBindMount * list string :=
  let root := Stage.findWorkspaceRoot existsSync appDir in
  let mountRoot := or_default appDir root in
  let containerRoot := match root with Some _ => "/workspace" | None => "/app" end in
  let primary := {| d_appDir := appDir; d_relPath := match root with Some r => relative cwd r appDir | None => "" end |} in
  let devWorkspaceHostPath := join [mountRoot; DEV_WORKSPACE_DIR] in
  ({| bindMount := {| hostPath := mountRoot; containerPath := containerRoot; readOnly := true |};
      extraBinds := [devWorkspaceHostPath +:+ ":" +:+ containerRoot +:+ "/" +:+ DEV_WORKSPACE_DIR];
      workingDir := if String.eqb (d_relPath primary) "" then containerRoot else join [containerRoot; d_relPath primary];
      workspaceRoot := containerRoot +:+ "/" +:+ DEV_WORKSPACE_DIR |},
   devWorkspaceHostPath :: map (fun app => join [d_appDir app; DEV_STATE_DIR]) (primary :: companions)).

Definition devStatePath (containerRoot relPath : string) : string :=
  if String.eqb relPath "" then containerRoot +:+ "/" +:+ DEV_STATE_DIR else join [containerRoot; relPath; DEV_STATE_DIR].

(** ** The apps of one container *)

Lemma existsb_eqb_false x l : existsb (String.eqb x) l = false <-> x ∉ l.
Proof.
  split.
  - intros H Hin. enough (existsb (String.eqb x) l = true) by congruence. apply existsb_exists. exists x.
    split; [by apply list_elem_of_In|apply String.eqb_refl].
  - intros H. apply not_true_iff_false. intros (y & Hy & ->%String.eqb_eq)%existsb_exists. by apply H, list_elem_of_In.
Qed.

Lemma resolve_companions_names load root rels : forall seen l,
  resolve_companions load root rels seen = Ok l -> NoDup seen -> NoDup (map a_name l ++ seen) /\
  Forall2 (fun rel a => relPath a = rel /\ appDir a = join [root; rel] /\ load (join [appDir a; "berth.yml"]) = Ok (manifest a) /\
                        a_name a = name (manifest a)) rels l.
Proof.
  induction rels as [|rel rels IH]; intros seen l; cbn [resolve_companions]; [intros [= <-]; by split|].
  destruct (load (join [join [root; rel]; "berth.yml"])) as [m|e] eqn:Em; [|done].
  destruct (existsb _ seen) eqn:Es; [done|]. apply existsb_eqb_false in Es.
  destruct (resolve_companions load root rels (name m :: seen)) as [rest|e] eqn:Er; [|done]. intros [= <-] Hn.
  destruct (IH _ _ Er) as [H1 H2]; [by constructor|]. split; [|by constructor]. cbn [map app a_name].
  by rewrite Permutation_middle.
Qed.

(** The apps of a [--apps] list have names of their own, the primary is the
    first, and each companion is the manifest of the directory its entry names
    below the workspace, in the order given. *)
Theorem resolveApps_spec cwd ex load dir flag m l : resolveApps cwd ex load dir flag m = Ok l ->
  NoDup (map a_name l) /\
  exists primary companions, l = primary :: companions /\ manifest primary = m /\ appDir primary = dir /\
    match Stage.findWorkspaceRoot ex dir with
    | Some root => Forall2 (fun rel a => appDir a = join [root; rel] /\ load (join [appDir a; "berth.yml"]) = Ok (manifest a))
                     (app_paths (or_default "" flag)) companions
    | None => companions = []
    end.
Proof.
  assert (Hlone : forall p, app_paths (or_default "" flag) = [] -> p = {| a_name := name m; appDir := dir; relPath := "."; manifest := m |} ->
    NoDup (map a_name [p]) /\ exists primary companions, [p] = primary :: companions /\ manifest primary = m /\ appDir primary = dir /\
    match Stage.findWorkspaceRoot ex dir with
    | Some root => Forall2 (fun rel a => appDir a = join [root; rel] /\ load (join [appDir a; "berth.yml"]) = Ok (manifest a))
                     (app_paths (or_default "" flag)) companions
    | None => companions = []
    end).
  { intros p Hf ->. split; [apply NoDup_singleton|]. eexists _, []. split_and!; try done. rewrite Hf. by destruct (Stage.findWorkspaceRoot ex dir). }
  unfold resolveApps. destruct flag as [flag|]; [|by intros [= <-]; apply Hlone].
  destruct flag as [|c flag]; [by intros [= <-]; apply Hlone|].
  destruct (Stage.findWorkspaceRoot ex dir) as [root|] eqn:Ew; [|done].
  destruct (resolve_companions _ _ _ _) as [cs|e] eqn:Er; [|done]. intros [= <-].
  destruct (resolve_companions_names _ _ _ _ _ Er) as [Hn Hf]; [apply NoDup_singleton|]. split.
  - cbn [map a_name]. by rewrite Permutation_cons_append.
  - eexists _, cs. split_and!; try done. cbn [or_default].
    eapply Forall2_impl; [exact Hf|]. cbn. intros rel b (_ & H1 & H2 & _). done.
Qed.

Lemma at_most_one_ok declares label apps : is_ok (at_most_one declares label apps) = true ->
  forall i j a b, apps !! i = Some a -> apps !! j = Some b -> declares (manifest a) = true -> declares (manifest b) = true -> i = j.
Proof.
  unfold at_most_one. intros H. assert (Hl : length (filter (fun a => declares (manifest a) = true) apps) <= 1).
  { destruct (filter _ apps) as [|x [|y l]]; cbn; [lia|lia|done]. }
  clear H. revert Hl. induction apps as [|x apps IH]; intros Hl i j a b Hi Hj Ha Hb; [done|].
  assert (Hin : forall k c, apps !! k = Some c -> declares (manifest c) = true -> declares (manifest x) = true -> False).
  { intros k c Hk Hc Hx. rewrite filter_cons_True in Hl by done. cbn in Hl.
    assert (Hc' : c ∈ filter (fun a => declares (manifest a) = true) apps) by (apply list_elem_of_filter; split; [done|by eapply list_elem_of_lookup_2]).
    destruct (filter _ apps); [set_solver|cbn in Hl; lia]. }
  destruct i as [|i], j as [|j]; cbn in Hi, Hj; simplify_eq; [done|by exfalso; eapply Hin..|].
  f_equal. eapply IH; [|done..]. rewrite filter_cons in Hl. case_decide; cbn in Hl; lia.
Qed.

(** What a container has one of has one owner: once the four checks have
    passed, no two apps both use the display, the terminal port, the mesh
    interface or the egress broker. *)
Theorem one_owner apps :
  is_ok (assertAtMostOneBrowserApp apps) = true -> is_ok (assertAtMostOneTerminalApp apps) = true ->
  is_ok (assertAtMostOneMeshApp apps) = true -> is_ok (assertAtMostOneEgressBrokerApp apps) = true ->
  forall i j a b, apps !! i = Some a -> apps !! j = Some b ->
    forall prefix, prefix ∈ ["browser:"; "terminal:"; "network:peer:"; "network:host:"] ->
      (exists c, c ∈ capabilities (manifest a) /\ Str.starts_with prefix c = true) ->
      (exists c, c ∈ capabilities (manifest b) /\ Str.starts_with prefix c = true) -> i = j.
Proof.
  intros H1 H2 H3 H4 i j a b Hi Hj prefix Hp (ca & Hca & Ha) (cb & Hcb & Hb).
  assert (Hex : forall (p : string -> bool) m c, c ∈ capabilities m -> p c = true -> existsb p (capabilities m) = true).
  { intros p m c Hc Hpc. apply existsb_exists. exists c. split; [by apply list_elem_of_In|done]. }
  apply list_elem_of_In in Hp. destruct Hp as [<-|[<-|[<-|[<-|[]]]]].
  - eapply (at_most_one_ok _ _ _ H1); [done..| |]; by eapply Hex.
  - eapply (at_most_one_ok _ _ _ H2); [done..| |]; by eapply Hex.
  - eapply (at_most_one_ok _ _ _ H3); [done..| |]; by eapply Hex.
  - eapply (at_most_one_ok _ _ _ H4); [done..| |]; (eapply Hex; [done|]); by apply orb_true_iff; right.
Qed.

(** [berth os] decides as [berth dev] does: the same sets of manifests pass. *)
Theorem os_checks_agree apps :
  is_ok (os_assertAtMostOneBrowserApp apps) = is_ok (assertAtMostOneBrowserApp (map (fun a => {| a_name := o_name a; appDir := o_appDir a; relPath := "."; manifest := o_manifest a |}) apps)) /\
  is_ok (os_assertAtMostOneEgressBrokerApp apps) = is_ok (assertAtMostOneEgressBrokerApp (map (fun a => {| a_name := o_name a; appDir := o_appDir a; relPath := "."; manifest := o_manifest a |}) apps)).
Proof.
  set (conv := fun a => {| a_name := o_name a; appDir := o_appDir a; relPath := "."; manifest := o_manifest a |}).
  assert (Hg : forall prefixes l1 declares l2, (forall m, declaresCapabilityPrefix m prefixes = declares m) ->
    is_ok (assertAtMostOne prefixes l1 apps) = is_ok (at_most_one declares l2 (map conv apps))).
  { intros prefixes l1 declares l2 Hd. unfold assertAtMostOne, at_most_one.
    assert (Hf : filter (fun a => declares (manifest a) = true) (map conv apps) = map conv (filter (fun a => declaresCapabilityPrefix (o_manifest a) prefixes = true) apps)).
    { clear -Hd. induction apps as [|a apps IH]; [done|]. cbn [map]. rewrite !filter_cons, IH. cbn [manifest conv]. rewrite Hd. by case_decide. }
    rewrite Hf. by destruct (filter _ apps) as [|x [|y l]]. }
  assert (Hx : forall (p q : string -> bool) l, (forall x, p x = q x) -> existsb p l = existsb q l).
  { intros p q l Hpq. induction l as [|x l IH]; [done|]. cbn. by rewrite Hpq, IH. }
  split; apply Hg; intros m; apply Hx; intros c; cbn [existsb]; by rewrite orb_false_r.
Qed.

(** ** The mount of a development container *)

(** Everything of the host [berth dev] mounts is read-only but one directory,
    [.berth/dev-workspace], which is where the apps' own data goes, in the
    container as well. *)
Theorem dev_mount_read_only cwd ex dir companions :
  let m := (resolveDevBindMount cwd ex dir companions).1 in
  readOnly (bindMount m) = true /\
  extraBinds m = [join [hostPath (bindMount m); ".berth/dev-workspace"] +:+ ":" +:+ workspaceRoot m] /\
  workspaceRoot m = containerPath (bindMount m) +:+ "/.berth/dev-workspace" /\
  Forall (fun d => exists r, d = join [r; ".berth/dev-workspace"] \/ d = join [r; ".berth"]) (resolveDevBindMount cwd ex dir companions).2.
Proof.
  unfold resolveDevBindMount. cbn. split_and!; try done. constructor; [eexists; by left|]. constructor; [eexists; by right|].
  apply Forall_forall. intros x Hx%list_elem_of_In. apply in_map_iff in Hx as (a & <- & _). eexists. by right.
Qed.

(** ** Examples *)

Definition ex_load (p : string) : result load_error BerthManifest :=
  if String.eqb p "/ws/apps/notes/berth.yml" then Ok {| name := "notes"; capabilities := ["browser:navigate:x"] |} else Err (Unreadable "ENOENT").
Definition ex_primary : BerthManifest := {| name := "git"; capabilities := ["network:host:github.com"] |}.

Lemma resolveApps_spec_witness : exists l,
  resolveApps "/" (fun p => String.eqb p "/ws/pnpm-workspace.yaml") ex_load "/ws/apps/git" (Some " apps/notes,") ex_primary = Ok l /\
  NoDup (map a_name l).
Proof.
  eexists. split; [vm_compute; reflexivity|].
  apply (resolveApps_spec "/" (fun p => String.eqb p "/ws/pnpm-workspace.yaml") ex_load "/ws/apps/git" (Some " apps/notes,") ex_primary).
  vm_compute. reflexivity.
Defined.

Definition ex_app (n : string) (caps : list string) : AppSpec :=
  {| a_name := n; appDir := "/" +:+ n; relPath := n; manifest := {| name := n; capabilities := caps |} |}.
Example two_brokers_refused :
  is_ok (assertAtMostOneEgressBrokerApp [ex_app "a" ["browser:navigate:x"]; ex_app "b" ["network:host:y"]]) = false.
Proof. reflexivity. Qed.
End AppLists.
