(* ===== verification/Knowledge.v ===== *)
(** * Retrieval, evaluations and traces (experimental/agents/src: retrieval.ts,
    eval.ts, tracing.ts)

    What an agent keeps in the files of a Semantic FS besides its checkpoints:
    documents in chunks, the results of evaluation suites, and the steps of its
    runs. The tools are those of [Stores]. *)
From S2P Require Import Prelude JsNumber Json JsonParse Trace Stores.

Module Knowledge.
Import Json JsonParse Trace Stores.

Definition slice (s : string) (a b : nat) : string := Str.take (b - a) (Str.drop a s).

(** ** Chunks (retrieval.ts) *)

(** [s.lastIndexOf(t)], for a [t] that is not empty. *)
Fixpoint last_index (t s : string) : option nat :=
  match s with
  | EmptyString => None
  | String _ s' => match last_index t s' with Some i => Some (S i) | None => if Str.starts_with t s then Some 0 else None end
  end.

Definition blank_line : string := String (ascii_of_nat 10) (String (ascii_of_nat 10) "").
Definition max_index (a b : option nat) : option nat :=
  match a, b with Some x, Some y => Some (max x y) | Some x, None => Some x | None, b => b end.

Section chunks.
Context (trimmed : string) (maxChars overlapChars : nat).

(** Where the chunk that starts at [start] ends. *)
Definition chunk_end (start : nat) : nat :=
  let windowEnd := min (start + maxChars) (String.length trimmed) in
  if windowEnd <? String.length trimmed then
    let window := slice trimmed start windowEnd in
    match max_index (last_index blank_line window) (last_index ". " window) with
    | Some breakIndex => if maxChars <? 2 * breakIndex then start + breakIndex + 1 else windowEnd
    | None => windowEnd
    end
  else windowEnd.

(** The [while] loop; [None] is out of fuel. *)
Fixpoint chunk_loop (fuel start : nat) : option (list string) :=
  if start <? String.length trimmed then
    match fuel with
    | O => None
    | S fuel =>
        let end_ := chunk_end start in
        let chunk := Str.trim (slice trimmed start end_) in
        rest ← (if String.length trimmed <=? end_ then Some []
                else let nextStart := end_ - overlapChars in
                     chunk_loop fuel (if start <? nextStart then nextStart else end_));
        Some (if String.eqb chunk "" then rest else chunk :: rest)
    end
  else Some [].
End chunks.

Definition DEFAULT_CHUNK_MAX_CHARS : nat := 2000.
Definition DEFAULT_CHUNK_OVERLAP_CHARS : nat := 200.

(** Lengths are natural numbers. *)
Definition chunkText (text : string) (o_maxChars o_overlapChars : option nat) : option (list string) :=
  let maxChars := or_default DEFAULT_CHUNK_MAX_CHARS o_maxChars in
  let overlapChars := min (or_default DEFAULT_CHUNK_OVERLAP_CHARS o_overlapChars) (maxChars / 2) in
  let trimmed := Str.trim text in
  if String.eqb trimmed "" then Some []
  else if String.length trimmed <=? maxChars then Some [trimmed]
  else chunk_loop trimmed maxChars overlapChars (String.length trimmed) 0.

(** ** Names *)

(** [/[a-zA-Z0-9._-]/] *)
Definition slug_char (c : ascii) : bool :=
  Str.is_lower c || Str.is_upper c || Str.is_digit c || Ascii.eqb c "." || Ascii.eqb c "_" || Ascii.eqb c "-".

(** [value.replace(/[^a-zA-Z0-9._-]+/g, "-")]: a run of others is one dash. *)
Fixpoint dash_runs (inRun : bool) (s : string) : string :=
  match s with
  | EmptyString => ""
  | String c s =>
      if slug_char c then String c (dash_runs false s)
      else if inRun then dash_runs true s else String "-" (dash_runs true s)
  end.
Fixpoint trim_dashes_start (s : string) : string :=
  match s with String c s' => if Ascii.eqb c "-" then trim_dashes_start s' else s | EmptyString => "" end.
Fixpoint trim_dashes_end (s : string) : string :=
  match s with
  | EmptyString => ""
  | String c s => match trim_dashes_end s with "" => if Ascii.eqb c "-" then "" else String c "" | r => String c r end
  end.
Definition slugify (default value : string) : string :=
  match Str.take 80 (trim_dashes_end (trim_dashes_start (dash_runs false value))) with "" => default | s => s end.

(** ** Ingesting and retrieving (retrieval.ts) *)

Inductive event := Wrote (path content : string) | Tagged (path task : string) (relatedApps : list string).

Record IngestOptions := { pathPrefix : option string; o_task : option string; o_relatedApps : option (list string); chunk : string -> list string }.

Definition INGEST_DIR : string := "ingested".

Section ingest.
Context (fails : list event -> event -> option string).

Definition chunk_path (prefix : string) (n i : nat) : string :=
  if 1 <? n then prefix +:+ "-" +:+ JsNumber.to_string (Z.of_nat i) +:+ ".txt" else prefix +:+ ".txt".

Fixpoint ingest_loop (prefix task : string) (apps : list string) (n i : nat) (chunks : list string) : @M event string (list string) :=
  match chunks with
  | [] => mret []
  | c :: chunks =>
      let path := chunk_path prefix n i in
      attempt (Wrote path c) (fun t => fails t (Wrote path c)) ;;
      attempt (Tagged path task apps) (fun t => fails t (Tagged path task apps)) ;;
      paths ← ingest_loop prefix task apps n (S i) chunks;
      mret (path :: paths)
  end.

Definition ingest (source text : string) (o : IngestOptions) : @M event string (list string) :=
  let chunks := chunk o text in
  let prefix := or_default (INGEST_DIR +:+ "/" +:+ slugify "document" source) (pathPrefix o) in
  ingest_loop prefix (or_default source (o_task o)) (or_default [] (o_relatedApps o)) (length chunks) 0 chunks.
End ingest.

Record hit := { h_path : string; h_task : option string; h_relatedApps : option (list string) }.
Record RetrievedDocument := { d_path : string; d_content : string; d_task : option string; d_relatedApps : option (list string) }.

Definition DEFAULT_TOP_K : Z := 5.

(** [results.slice(0, n)]: a negative [n] counts from the end. *)
Definition slice_to {A} (n : Z) (l : list A) : list A :=
  take (Z.to_nat (if (n <? 0)%Z then Z.of_nat (length l) + n else n)) l.

Definition retrieve (query : string -> result string (list hit)) (read : string -> result string string) (text : string) (topK : option Z)
    : result string (list RetrievedDocument) :=
  let? results := query text in
  Ok (omap (fun h => match read (h_path h) with
                     | Ok content => Some {| d_path := h_path h; d_content := content; d_task := h_task h; d_relatedApps := h_relatedApps h |}
                     | Err _ => None
                     end) (slice_to (or_default DEFAULT_TOP_K topK) results)).

(** ** Evaluation suites (eval.ts) *)

Record AgentRunResult := { text : string; toolCalls : list string }.
Record EvalAssertionResult := { pass : bool; message : string }.
Definition EvalAssertion : Type := AgentRunResult -> result string EvalAssertionResult.
Record EvalCase := { case_name : string; input : string; assertions : list EvalAssertion }.
Record EvalCaseResult := {
  r_name : string; passed : bool; r_input : string; r_text : string; assertionResults : list EvalAssertionResult; error : option string
}.
Record EvalSuiteResult := { total : nat; n_passed : nat; failed : nat; results : list EvalCaseResult }.

(** [Promise.all]: the results, or what the first to fail throws. *)
Fixpoint all_of (l : list (result string EvalAssertionResult)) : result string (list EvalAssertionResult) :=
  match l with [] => Ok [] | r :: l => let? a := r in let? rest := all_of l in Ok (a :: rest) end.

(** One case; [run] is what the agent answers to its input. *)
Definition eval_case (run : string -> result string AgentRunResult) (c : EvalCase) : EvalCaseResult :=
  match (let? r := run (input c) in let? l := all_of (map (fun a => a r) (assertions c)) in Ok (r, l)) with
  | Ok (r, l) => {| r_name := case_name c; passed := forallb pass l; r_input := input c; r_text := text r; assertionResults := l; error := None |}
  | Err e => {| r_name := case_name c; passed := false; r_input := input c; r_text := ""; assertionResults := []; error := Some e |}
  end.

Definition runEvalSuite (run : nat -> string -> result string AgentRunResult) (cases : list EvalCase) : EvalSuiteResult :=
  let results := imap (fun i c => eval_case (run i) c) cases in
  let p := length (filter (fun r => passed r = true) results) in
  {| total := length results; n_passed := p; failed := length results - p; results := results |}.

Definition q (s : string) : string := String dq_char (s +:+ String dq_char "").

Definition containsText (substring : string) : EvalAssertion := fun result =>
  let pass := Str.includes substring (text result) in
  Ok {| pass := pass;
        message := if pass then "contains " +:+ q substring
                   else "expected text to contain " +:+ q substring +:+ ", got: " +:+ quote (text result) |}.

(** [test] and [shown] are the pattern's: whether it matches, how it prints. *)
Definition matchesPattern (test : string -> bool) (shown : string) : EvalAssertion := fun result =>
  let pass := test (text result) in
  Ok {| pass := pass;
        message := if pass then "matches " +:+ shown else "expected text to match " +:+ shown +:+ ", got: " +:+ quote (text result) |}.

Definition calledTool (toolName : string) : EvalAssertion := fun result =>
  let pass := existsb (String.eqb toolName) (toolCalls result) in
  let called := match Str.join ", " (toolCalls result) with "" => "(none)" | s => s end in
  Ok {| pass := pass;
        message := if pass then "called tool " +:+ q toolName
                   else "expected a call to tool " +:+ q toolName +:+ ", got calls: " +:+ called |}.

(** The judge's answer, and what [parseStructuredOutput] makes of it. *)
Definition llmJudge (chat : string -> result string (option string)) (parse : string -> result string (bool * string)) (rubric : string) : EvalAssertion :=
  fun result =>
    let nl := String (ascii_of_nat 10) "" in
    let prompt := "Evaluate the following agent response against this rubric:" +:+ nl +:+ rubric +:+ nl +:+ nl +:+
      "Agent response:" +:+ nl +:+ text result +:+ nl +:+ nl +:+
      "Respond with ONLY JSON matching {" +:+ q "pass" +:+ ": boolean, " +:+ q "reason" +:+ ": string} — no prose, no markdown code fences." in
    let? turn := chat prompt in
    match parse (or_default "" turn) with
    | Err e => Ok {| pass := false; message := "judge response could not be parsed as a verdict: " +:+ e |}
    | Ok (p, reason) => Ok {| pass := p; message := reason |}
    end.

(** *** Their record *)

Definition EVAL_RUNS_DIR : string := "eval-runs".
Definition EVAL_RUN_INDEX_MARKER : string := "eval-run-index".
Definition eval_path (suiteName runId : string) : string :=
  EVAL_RUNS_DIR +:+ "/" +:+ slugify "suite" suiteName +:+ "/" +:+ runId +:+ ".json".

(** The id of a run: the caller's, or the time and six random characters. *)
Definition run_id (o_runId : option string) (now : Z) (random : string) : string :=
  match o_runId with Some id => id | None => JsNumber.to_string now +:+ "-" +:+ random end.
(** The record: the suite's name, the id and the time, then the suite's own fields. *)
Definition eval_record (suiteName runId : string) (timestamp : Z) (suite : list (string * json)) : list (string * json) :=
  foldl (fun o kv => JsMap.put kv.1 kv.2 o) [("suiteName", JStr suiteName); ("runId", JStr runId); ("timestamp", JNum timestamp)] suite.

Definition recordEvalRun (writes tags_ : mood) (suiteName runId : string) (record : list (string * json)) (fs : Files) : result string unit * Files :=
  let path := eval_path suiteName runId in
  match write_file writes path (stringify (JObj record)) fs with
  | (Ok _, fs) => tag_file tags_ path suiteName fs
  | r => r
  end.

Definition readEvalRun (parse : string -> option json) (reads : mood) (suiteName runId : string) (fs : Files) : option json :=
  match read_file reads (eval_path suiteName runId) fs with
  | Ok text => parse text
  | Err _ => None
  end.

Record indexed := { i_path : string; i_task : option string; updatedAt : Z }.
Record listed := { suiteName : string; runId : string; l_updatedAt : Z }.

(** The entry of one hit, if it is one of a run. *)
Definition eval_entry (prefix : string) (h : indexed) : option listed :=
  if Str.starts_with prefix (i_path h) && Str.ends_with ".json" (i_path h) then
    match Str.split "/" (Str.drop (S (String.length EVAL_RUNS_DIR)) (i_path h)) with
    | suiteSlug :: file :: _ =>
        if String.eqb suiteSlug "" || String.eqb file "" then None
        else Some {| suiteName := or_default suiteSlug (i_task h);
                     runId := Str.take (String.length file - String.length ".json") file; l_updatedAt := updatedAt h |}
    | _ => None
    end
  else None.

(** A stable sort, newest first. *)
Fixpoint insert_newest {A} (at_ : A -> Z) (x : A) (l : list A) : list A :=
  match l with [] => [x] | y :: l' => if (at_ y <? at_ x)%Z then x :: l else y :: insert_newest at_ x l' end.
Definition newest_first {A} (at_ : A -> Z) (l : list A) : list A := foldl (fun acc x => insert_newest at_ x acc) [] l.

(** [limit ? l.slice(0, limit) : l] *)
Definition limited {A} (limit : option Z) (l : list A) : list A :=
  match limit with Some n => if (n =? 0)%Z then l else slice_to n l | None => l end.

Definition listEvalRuns (results : list indexed) (suite : option string) (limit : option Z) : list listed :=
  let prefix := match suite with
                | None | Some "" => EVAL_RUNS_DIR +:+ "/"
                | Some s => EVAL_RUNS_DIR +:+ "/" +:+ slugify "suite" s +:+ "/"
                end in
  limited limit (newest_first l_updatedAt (omap (eval_entry prefix) results)).

(** ** Traces (tracing.ts) *)

Definition TRACE_DIR : string := "agent-traces".
Definition TRACE_INDEX_MARKER : string := "agent-trace-index".
Definition trace_path (runId : string) : string := TRACE_DIR +:+ "/" +:+ runId +:+ ".json".

Definition runIdFromPath (path : string) : option string :=
  let prefix := TRACE_DIR +:+ "/" in
  if negb (Str.starts_with prefix path) || negb (Str.ends_with ".json" path) then None
  else Some (slice path (String.length prefix) (String.length path - String.length ".json")).

Section traces.
Context (parse : string -> option json).

(** [emit]: what is saved so far, or nothing when reading it throws; then the
    whole of it again. What is saved and is no array throws. *)
Definition emit_step (reads writes tags_ : mood) (run : string) (event : json) (fs : Files) : result string unit * Files :=
  let path := trace_path run in
  let events := match read_file reads path fs with
                | Ok text => match parse text with Some v => v | None => JArr [] end
                | Err _ => JArr []
                end in
  match events with
  | JArr l =>
      match write_file writes path (stringify (JArr (l ++ [event]))) fs with
      | (Ok _, fs) => tag_file tags_ path run fs
      | r => r
      end
  | _ => (Err "events.push is not a function", fs)
  end.

Definition readAgentTrace (reads : mood) (run : string) (fs : Files) : json :=
  match read_file reads (trace_path run) fs with
  | Ok text => match parse text with Some v => v | None => JArr [] end
  | Err _ => JArr []
  end.
End traces.

Definition listAgentTraces (results : list indexed) (limit : option Z) : list (string * Z) :=
  limited limit (newest_first snd
    (omap (fun h => match runIdFromPath (i_path h) with Some "" | None => None | Some r => Some (r, updatedAt h) end) results)).

(** The fan-out: every tracer gets the step, and none of them can fail the run. *)
Definition combineStepTracers {S} (tracers : list (json -> S -> result string unit * S)) (event : json) (s : S) : result string unit * S :=
  (Ok tt, foldl (fun s tracer => (tracer event s).2) s tracers).

(** ** Chunks cover the text *)

Lemma length_trim_start s : String.length (Str.trim_start s) <= String.length s.
Proof. induction s as [|c s IH]; [done|]. cbn [Str.trim_start]. case_match; cbn [String.length]; lia. Qed.
Lemma length_trim_end s : String.length (Str.trim_end s) <= String.length s.
Proof.
  induction s as [|c s IH]; [done|]. cbn [Str.trim_end]. destruct (Str.trim_end s) as [|d r]; [destruct (Str.is_space c)|]; cbn [String.length] in *; lia.
Qed.
Lemma length_trim s : String.length (Str.trim s) <= String.length s.
Proof. unfold Str.trim. etransitivity; [apply length_trim_end|apply length_trim_start]. Qed.

Lemma length_slice s a b : String.length (slice s a b) <= b - a.
Proof. unfold slice. rewrite StrFacts.length_take. lia. Qed.

Lemma last_index_lt t s i : last_index t s = Some i -> i < String.length s.
Proof.
  revert i. induction s as [|c s IH]; intros i; [done|]. cbn [last_index]. destruct (last_index t s) as [j|].
  - intros [= <-]. specialize (IH j eq_refl). cbn. lia.
  - case_match; [intros [= <-]; cbn; lia|done].
Qed.

Section chunk_facts.
Context (trimmed : string) (maxChars overlapChars : nat) (Hm : 1 <= maxChars) (Ho : overlapChars <= maxChars / 2).
Let len := String.length trimmed.

Lemma chunk_end_spec start : start < len ->
  start < chunk_end trimmed maxChars start <= len /\ chunk_end trimmed maxChars start <= start + maxChars /\
  (chunk_end trimmed maxChars start < len -> start < chunk_end trimmed maxChars start - overlapChars).
Proof.
  intros Hs. pose proof (Nat.div_mod_eq maxChars 2). pose proof (Nat.mod_upper_bound maxChars 2).
  unfold chunk_end. fold len. destruct (Nat.ltb_spec (min (start + maxChars) len) len) as [Hw|Hw]; [|lia].
  set (w := slice trimmed start (min (start + maxChars) len)). pose proof (length_slice trimmed start (min (start + maxChars) len)) as Hl. fold w in Hl.
  destruct (max_index (last_index blank_line w) (last_index ". " w)) as [b|] eqn:Eb; [|lia].
  assert (b < String.length w) as Hb.
  { destruct (last_index blank_line w) as [x|] eqn:E1, (last_index ". " w) as [y|] eqn:E2; cbn in Eb; simplify_eq;
      repeat match goal with H : last_index _ _ = Some _ |- _ => apply last_index_lt in H end; lia. }
  destruct (Nat.ltb_spec maxChars (2 * b)); lia.
Qed.

Lemma chunk_loop_spec fuel : forall start, len <= fuel + start -> exists l,
  chunk_loop trimmed maxChars overlapChars fuel start = Some l /\
  Forall (fun c => c <> "" /\ String.length c <= maxChars) l /\
  forall i, start <= i < len -> exists a b, a <= i < b /\ b <= a + maxChars /\ b <= len /\
    (Str.trim (slice trimmed a b) = "" \/ Str.trim (slice trimmed a b) ∈ l).
Proof.
  induction fuel as [|fuel IH]; intros start Hf; cbn [chunk_loop]; fold len; (destruct (Nat.ltb_spec start len) as [Hs|Hs];
    [|exists []; split_and!; [done|constructor|lia]]); [lia|].
  destruct (chunk_end_spec start Hs) as ([H1 H2] & H3 & H4). set (e := chunk_end trimmed maxChars start) in *.
  assert (Hrest : exists rest, (if len <=? e then Some []
      else chunk_loop trimmed maxChars overlapChars fuel (if start <? e - overlapChars then e - overlapChars else e)) = Some rest /\
    Forall (fun c => c <> "" /\ String.length c <= maxChars) rest /\
    forall i, e <= i < len -> exists a b, a <= i < b /\ b <= a + maxChars /\ b <= len /\
      (Str.trim (slice trimmed a b) = "" \/ Str.trim (slice trimmed a b) ∈ rest)).
  { destruct (Nat.leb_spec len e); [exists []; split_and!; [done|constructor|lia]|].
    rewrite (proj2 (Nat.ltb_lt start (e - overlapChars))) by (apply H4; lia).
    destruct (IH (e - overlapChars)) as (rest & E1 & Hc & Hi); [lia|]. exists rest. split_and!; [done..|]. intros i Hie. apply Hi. lia. }
  destruct Hrest as (rest & -> & Hc & Hi). cbn. eexists. split; [reflexivity|].
  assert (Hlen : String.length (Str.trim (slice trimmed start e)) <= maxChars).
  { etransitivity; [apply length_trim|]. etransitivity; [apply length_slice|]. lia. }
  destruct (String.eqb_spec (Str.trim (slice trimmed start e)) "") as [He|He].
  - split; [done|]. intros i Hie. destruct (decide (i < e)) as [Hlt|]; [|apply Hi; lia]. exists start, e. split_and!; try lia. by left.
  - split; [by constructor|]. intros i Hie. destruct (decide (i < e)) as [Hlt|].
    + exists start, e. split_and!; try lia. right. apply list_elem_of_here.
    + destruct (Hi i) as (a & b & Ha & Hb & Hb' & Hc'); [lia|]. exists a, b. split_and!; try lia.
      destruct Hc' as [?|?]; [by left|right; by apply list_elem_of_further].
Qed.
End chunk_facts.

(** For windows of at least one character the chunker ends, whatever the
    overlap; no chunk is empty or longer than a window, and every character of
    the text is in a window whose text, but for the blanks around it, is one of
    the chunks. *)
Theorem chunkText_covers text o_max o_over : or_default DEFAULT_CHUNK_MAX_CHARS o_max <> 0 ->
  exists l, chunkText text o_max o_over = Some l /\
    Forall (fun c => c <> "" /\ String.length c <= or_default DEFAULT_CHUNK_MAX_CHARS o_max) l /\
    forall i, i < String.length (Str.trim text) -> exists a b, a <= i < b /\ b <= String.length (Str.trim text) /\
      (Str.trim (slice (Str.trim text) a b) = "" \/ Str.trim (slice (Str.trim text) a b) ∈ l \/
       slice (Str.trim text) a b = Str.trim text /\ Str.trim text ∈ l).
Proof.
  intros Hm. unfold chunkText. set (m := or_default DEFAULT_CHUNK_MAX_CHARS o_max) in *. set (tx := Str.trim text).
  destruct (String.eqb_spec tx "") as [E1|Hne]; [exists []; split_and!; [done|constructor|rewrite E1; cbn; lia]|].
  destruct (Nat.leb_spec (String.length tx) m) as [Hl|Hl].
  - exists [tx]. split_and!; [done|by repeat constructor|]. intros i Hi. exists 0, (String.length tx). split_and!; try lia. right. right.
    split; [|apply list_elem_of_here]. unfold slice. rewrite Nat.sub_0_r. apply StrFacts.take_ge. by cbn.
  - destruct (chunk_loop_spec tx m (min (or_default DEFAULT_CHUNK_OVERLAP_CHARS o_over) (m / 2)) ltac:(lia) ltac:(lia) (String.length tx) 0) as (l & E1 & Hc & Hi); [lia|].
    exists l. split_and!; [done..|]. intros i Hlt. destruct (Hi i) as (a & b & Ha & _ & Hb & H); [lia|]. exists a, b. split_and!; try lia. tauto.
Qed.

(** A window of no characters never gets past the start, however long the loop runs. *)
Theorem chunk_loop_stalls trimmed overlapChars fuel : trimmed <> "" -> chunk_loop trimmed 0 overlapChars fuel 0 = None.
Proof.
  intros Hne. assert (Hl : 0 < String.length trimmed) by (destruct trimmed; [done|cbn; lia]).
  assert (He : chunk_end trimmed 0 0 = 0).
  { unfold chunk_end. cbn [Nat.add Nat.min]. rewrite (proj2 (Nat.ltb_lt _ _) Hl). unfold slice. by destruct trimmed. }
  induction fuel as [|fuel IH]; cbn [chunk_loop]; rewrite (proj2 (Nat.ltb_lt _ _) Hl); [done|]. rewrite He.
  rewrite (proj2 (Nat.leb_gt _ _) Hl). replace (0 - overlapChars) with 0 by lia. change (0 <? 0) with false. cbn iota. by rewrite IH.
Qed.

(** ** Suites *)

(** A suite answers for every case, in order and apart from the others: a case
    whose run or whose check throws is a failed one, and the counts add up. *)
Theorem runEvalSuite_spec run cases :
  let s := runEvalSuite run cases in
  total s = length cases /\ n_passed s + failed s = length cases /\
  (forall i c, cases !! i = Some c -> results s !! i = Some (eval_case (run i) c)) /\
  forall i c r, cases !! i = Some c -> results s !! i = Some r ->
    (passed r = true <-> exists answer l, run i (input c) = Ok answer /\ map (fun a => a answer) (assertions c) = map Ok l /\ Forall (fun a => pass a = true) l).
Proof.
  cbn. set (rs := imap (fun i c => eval_case (run i) c) cases).
  assert (Hlen : length rs = length cases) by apply length_imap.
  assert (Hnth : forall i c, cases !! i = Some c -> rs !! i = Some (eval_case (run i) c)) by (intros i c Hc; unfold rs; by rewrite list_lookup_imap, Hc).
  split_and!; [done| |done|].
  - rewrite <-Hlen. pose proof (length_filter (fun r => passed r = true) rs). lia.
  - intros i c r Hc Hr. rewrite (Hnth i c Hc) in Hr. injection Hr as <-. unfold eval_case.
    assert (Hall : forall rs l, all_of rs = Ok l <-> rs = map Ok l).
    { clear. induction rs as [|[a|e] rs IH]; intros l; cbn; [|destruct (all_of rs) as [l'|e] eqn:E1; cbn|].
      - split; [by intros [= <-]|by destruct l].
      - split; [intros [= <-]; cbn; by rewrite (proj1 (IH l') eq_refl)|]. destruct l as [|b l]; [done|]. intros [= -> H]. apply IH in H. by injection H as ->.
      - split; [done|]. destruct l as [|b l]; [done|]. intros [= -> H]. by apply IH in H.
      - split; [done|]. by destruct l. }
    destruct (run i (input c)) as [answer|e]; cbn; [|split; [done|by intros (? & ? & ? & _)]].
    destruct (all_of (map (fun a => a answer) (assertions c))) as [l|e] eqn:El; cbn.
    + apply Hall in El. split.
      * intros Hp. exists answer, l. split_and!; [done..|]. rewrite forallb_forall in Hp. apply Forall_forall. intros a Ha. by apply Hp, list_elem_of_In.
      * intros (answer' & l' & [= <-] & H & Hp). rewrite El in H. assert (l = l') as ->.
        { clear -H. revert l' H. induction l as [|a l IH]; intros [|b l'] H; cbn in H; try done. injection H as -> H. by rewrite (IH l' H). }
        apply forallb_forall. intros a Ha. rewrite Forall_forall in Hp. by apply Hp, list_elem_of_In.
    + split; [done|]. intros (answer' & l' & [= <-] & H & _). apply Hall in H. congruence.
Qed.

(** A recorded run reads back, and nothing of another run is touched. *)
Theorem eval_run_roundtrip parse (HP : json_reader parse) suite run record fs :
  readEvalRun parse Answers suite run (recordEvalRun Answers Answers suite run record fs).2 = Some (JObj (clean_fields record)) /\
  forall p, p <> eval_path suite run -> content (recordEvalRun Answers Answers suite run record fs).2 !! p = content fs !! p.
Proof.
  unfold recordEvalRun, readEvalRun. cbn. split.
  - unfold read_file. cbn [content]. rewrite lookup_insert_eq. apply (reads_object parse HP).
  - intros p Hp. by rewrite lookup_insert_ne.
Qed.

Lemma slug_no_slash b s : Str.any (Ascii.eqb "/") (dash_runs b s) = false.
Proof.
  revert b; induction s as [|c s IH]; intros b; [done|]. cbn [dash_runs]. destruct (slug_char c) eqn:Ec.
  - cbn [Str.any]. rewrite IH, orb_false_r. apply Ascii.eqb_neq. intros <-. discriminate Ec.
  - destruct b; [apply IH|]. cbn [Str.any]. by rewrite IH.
Qed.
Lemma any_take p n s : Str.any p s = false -> Str.any p (Str.take n s) = false.
Proof. intros H. rewrite <-(StrFacts.take_drop n s), StrFacts.any_app in H. by apply orb_false_iff in H as [? _]. Qed.
Lemma slugify_segment default s : Str.any (Ascii.eqb "/") default = false -> default <> "" ->
  Str.any (Ascii.eqb "/") (slugify default s) = false /\ slugify default s <> "".
Proof.
  intros Hd Hn. unfold slugify.
  assert (Hs : forall x, Str.any (Ascii.eqb "/") x = false -> Str.any (Ascii.eqb "/") (trim_dashes_start x) = false).
  { intros x. induction x as [|c x IH]; [done|]. cbn [trim_dashes_start]. case_match; [|done]. cbn. intros [_ Hx]%orb_false_iff. by apply IH. }
  assert (He : forall x, Str.any (Ascii.eqb "/") x = false -> Str.any (Ascii.eqb "/") (trim_dashes_end x) = false).
  { intros x. induction x as [|c x IH]; [done|]. cbn. intros [Hc H]%orb_false_iff. specialize (IH H).
    destruct (trim_dashes_end x) as [|d r]; [destruct (Ascii.eqb c "-")|]; cbn; cbn in IH; by rewrite ?Hc, ?IH. }
  pose proof (any_take _ 80 _ (He _ (Hs _ (slug_no_slash false s)))) as H. by destruct (Str.take 80 _).
Qed.

(** A run recorded under an id without a slash is listed under that id, by the
    whole list and by that of its suite. *)
Theorem eval_run_listed suite run task at_ prefix : run <> "" -> Str.any (Ascii.eqb "/") run = false ->
  prefix = "eval-runs/" \/ prefix = "eval-runs/" +:+ slugify "suite" suite +:+ "/" ->
  eval_entry prefix {| i_path := eval_path suite run; i_task := task; updatedAt := at_ |} =
    Some {| suiteName := or_default (slugify "suite" suite) task; runId := run; l_updatedAt := at_ |}.
Proof.
  intros Hne Hns Hp. destruct (slugify_segment "suite" suite) as [Hs Hs0]; [done..|]. unfold eval_entry. cbn [i_path i_task updatedAt].
  assert (Hpath : eval_path suite run = "eval-runs/" +:+ slugify "suite" suite +:+ "/" +:+ run +:+ ".json") by reflexivity.
  assert (Str.starts_with prefix (eval_path suite run) = true) as ->.
  { apply StrFacts.starts_with_spec. destruct Hp as [->| ->]; [by eexists|]. exists (run +:+ ".json"). rewrite Hpath. by rewrite !app_assoc_str. }
  assert (Str.ends_with ".json" (eval_path suite run) = true) as ->.
  { apply StrFacts.ends_with_spec. exists ("eval-runs/" +:+ slugify "suite" suite +:+ "/" +:+ run). rewrite Hpath. by rewrite !app_assoc_str. }
  cbn [andb]. change (Str.drop (S (String.length EVAL_RUNS_DIR)) (eval_path suite run)) with (slugify "suite" suite +:+ String "/" (run +:+ ".json")).
  assert (Hf : Str.any (Ascii.eqb "/") (run +:+ ".json") = false) by (rewrite StrFacts.any_app, Hns; done).
  rewrite StrFacts.split_app, StrFacts.split_single by done. rewrite (proj2 (String.eqb_neq _ _) Hs0).
  assert (String.eqb (run +:+ ".json") "" = false) as -> by (by destruct run). cbn [orb].
  rewrite length_app_str, Nat.add_sub. by rewrite StrFacts.take_app.
Qed.

(** An id with a slash is listed as another, and a suite named by two dots is
    kept outside the directory of the suites. *)
Example slashed_run_lost :
  eval_entry "eval-runs/" {| i_path := eval_path "s" "ci/42"; i_task := None; updatedAt := 0 |} = Some {| suiteName := "s"; runId := ""; l_updatedAt := 0 |}.
Proof. by vm_compute. Qed.
Example dotdot_suite : eval_path ".." "x" = "eval-runs/../x.json".
Proof. by vm_compute. Qed.

(** ** Traces *)

Fixpoint emit_all (parse : string -> option json) (run : string) (events : list json) (fs : Files) : Files :=
  match events with [] => fs | e :: events => emit_all parse run events (emit_step parse Answers Answers Answers run e fs).2 end.

Lemma emit_step_content parse (HP : json_reader parse) run old e fs :
  readAgentTrace parse Answers run fs = JArr old ->
  readAgentTrace parse Answers run (emit_step parse Answers Answers Answers run e fs).2 = JArr (map clean (old ++ [e])).
Proof.
  unfold readAgentTrace, emit_step. intros ->. cbn [write_file tag_file snd]. unfold read_file. cbn [content].
  by rewrite lookup_insert_eq, (reads_array parse HP).
Qed.

(** The trace of a run reads back whole and in order, for an app that answers. *)
Theorem trace_roundtrip parse (HP : json_reader parse) run events fs :
  content fs !! trace_path run = None -> Forall (fun v => clean v = v) events ->
  readAgentTrace parse Answers run (emit_all parse run events fs) = JArr events.
Proof.
  intros Hfs He. assert (H : readAgentTrace parse Answers run fs = JArr []) by (unfold readAgentTrace, read_file; by rewrite Hfs).
  clear Hfs. assert (Hold : Forall (fun v => clean v = v) []) by constructor. change events with ([] ++ events) at 2. revert H Hold.
  generalize (@nil json) as old. revert fs; induction He as [|e events Hc _ IH]; intros fs old H Hold; cbn [emit_all]; [by rewrite app_nil_r|].
  assert (Ha : Forall (fun v => clean v = v) (old ++ [e])) by (apply Forall_app_2; [done|by constructor]).
  replace (old ++ e :: events) with ((old ++ [e]) ++ events) by (by rewrite <-app_assoc). apply IH; [|done].
  rewrite (emit_step_content parse HP _ _ _ _ H). f_equal. clear -Ha. induction Ha as [|v l Hv _ IHl]; [done|]. cbn. by rewrite Hv, IHl.
Qed.

(** One read that fails and the steps before it are gone. *)
Theorem failed_read_drops_trace parse (HP : json_reader parse) run message e fs :
  readAgentTrace parse Answers run (emit_step parse (Fails message) Answers Answers run e fs).2 = JArr [clean e].
Proof. unfold emit_step. cbn [read_file write_file tag_file snd app]. unfold readAgentTrace, read_file. cbn [content]. by rewrite lookup_insert_eq, (reads_array parse HP). Qed.

Lemma chunkText_covers_witness : exists l, chunkText "ab cd" (Some 2) (Some 1) = Some l /\ Forall (fun c => c <> "" /\ String.length c <= 2) l.
Proof. destruct (chunkText_covers "ab cd" (Some 2) (Some 1)) as (l & E1 & H & _); [cbn [or_default]; lia|]. exists l. exact (conj E1 H). Defined.

Example chunks_of_text : chunkText "ab cd" (Some 2) (Some 1) = Some ["ab"; "b"; "c"; "cd"].
Proof. by vm_compute. Qed.
End Knowledge.
