(* ===== verification/Daemons.v ===== *)
(** * The clients of the sandbox's daemons (packages/sdk/src/semantic-fs,
    packages/sdk/src/context-bus)

    Both speak frames with a length of four bytes over a socket. The client of
    the semantic file system matches answers with calls; what runs outside a
    sandbox gets a stand-in, and inside one without a daemon a client that
    throws. The client of the context bus keeps the topics' handlers. *)
From S2P Require Import Prelude JsNumber Json Container.

Module Daemons.
Import Json.

(** ** Frames *)

Definition be32 (len : N) : string :=
  String (Container.byte (len / 16777216)) (String (Container.byte (len / 65536 mod 256))
    (String (Container.byte (len / 256 mod 256)) (String (Container.byte (len mod 256)) ""))).
Definition frame (payload : string) : string := be32 (N.of_nat (String.length payload)) +:+ payload.

(** The [while] loop of a data handler: the frames that are complete, and what
    stays in the buffer. *)
Fixpoint take_frames (fuel : nat) (readBuffer : string) : list string * string :=
  match fuel with
  | O => ([], readBuffer)
  | S fuel =>
      if String.length readBuffer <? 4 then ([], readBuffer)
      else
        let length_ := Container.readUInt32BE 0 readBuffer in
        let rest := Str.drop 4 readBuffer in
        if (N.of_nat (String.length rest) <? length_)%N then ([], readBuffer)
        else
          let '(frames, remaining) := take_frames fuel (Str.drop (N.to_nat length_) rest) in
          (Str.take (N.to_nat length_) rest :: frames, remaining)
  end.

(** One chunk: its frames, and the buffer after it. *)
Definition on_data (readBuffer chunk : string) : list string * string :=
  let readBuffer := readBuffer +:+ chunk in take_frames (String.length readBuffer) readBuffer.

Fixpoint on_chunks (readBuffer : string) (chunks : list string) : list string * string :=
  match chunks with
  | [] => ([], readBuffer)
  | chunk :: chunks =>
      let '(frames, readBuffer) := on_data readBuffer chunk in
      let '(more, readBuffer) := on_chunks readBuffer chunks in
      (frames ++ more, readBuffer)
  end.

(** ** The client of the semantic file system (semantic-fs/unix-socket.ts) *)

Record RawResult := { path : string; created_by : string; r_task : string; related_apps : option (list string); created_at : Z; updated_at : Z }.
Record RawResponse := { id : string; ok : bool; error : option string; results : option (list RawResult) }.

Inductive outcome :=
| Answered (r : RawResponse)
| TimedOut
| Lost (reason : string)          (* the socket closed or failed while the call waited *)
| CannotSend (reason : string).   (* it had before the call *)

(** What the calls of a client are: those waiting under their ids, those that
    are over; [crashed] is an exception no one catches. *)
Record Client := {
  nextId : nat; pending : list string; over : list (string * outcome); refused : list outcome;
  closedReason : option string; crashed : bool
}.
Definition fresh : Client := {| nextId := 1; pending := []; over := []; refused := []; closedReason := None; crashed := false |}.

Inductive client_event :=
| Call                                  (* a call's frame is written *)
| Frame (r : option RawResponse)        (* a frame arrives; [None]: reading it throws *)
| Timer (id : string)                   (* five seconds after a call *)
| Gone (error : option string).         (* [close]; or [error], with its message *)

Definition gone_reason (e : option string) : string := match e with None => "closed" | Some m => "failed: " +:+ m end.

Definition id_of (n : nat) : string := JsNumber.to_string (Z.of_nat n).

Definition settle (id : string) (o : outcome) (c : Client) : Client :=
  {| nextId := nextId c; pending := filter (fun p => p <> id) (pending c); over := over c ++ [(id, o)]; refused := refused c;
     closedReason := closedReason c; crashed := crashed c |}.

Definition step (c : Client) (e : client_event) : Client :=
  if crashed c then c
  else match e with
  | Call =>
      match closedReason c with
      | Some reason => {| nextId := nextId c; pending := pending c; over := over c; refused := refused c ++ [CannotSend reason];
                          closedReason := closedReason c; crashed := false |}
      | None => {| nextId := S (nextId c); pending := pending c ++ [id_of (nextId c)]; over := over c; refused := refused c;
                   closedReason := None; crashed := false |}
      end
  | Frame None => {| nextId := nextId c; pending := pending c; over := over c; refused := refused c; closedReason := closedReason c; crashed := true |}
  | Frame (Some r) => if decide (id r ∈ pending c) then settle (id r) (Answered r) c else c
  | Timer i => if decide (i ∈ pending c) then settle i TimedOut c else c
  | Gone e =>
      let reason := gone_reason e in
      {| nextId := nextId c; pending := []; over := over c ++ map (fun i => (i, Lost reason)) (pending c); refused := refused c;
         closedReason := match closedReason c with Some r => Some r | None => Some reason end; crashed := false |}
  end.

(** What a call throws. *)
Definition outcome_of (op : string) (o : outcome) : result string RawResponse :=
  let q := String dq_char (op +:+ String dq_char "") in
  match o with
  | Answered r => Ok r
  | TimedOut => Err ("semantic-fs call " +:+ q +:+ " timed out after 5000ms")
  | Lost reason => Err ("semantic-fs control socket " +:+ reason)
  | CannotSend reason => Err ("semantic-fs call " +:+ q +:+ " cannot be sent: the control socket " +:+ reason)
  end.

Record SemanticFsQueryResult := {
  q_path : string; createdBy : option string; task : option string; relatedApps : option (list string); createdAt : Z; updatedAt : Z
}.

Definition nonempty (s : string) : option string := match s with "" => None | _ => Some s end.
Definition of_raw (r : RawResult) : SemanticFsQueryResult :=
  {| q_path := path r; createdBy := nonempty (created_by r); task := nonempty (r_task r); relatedApps := related_apps r;
     createdAt := created_at r; updatedAt := updated_at r |}.

(** The three operations, for any implementation. *)
Record SemanticFsClient := {
  register : string -> result string unit;
  tag : string -> option string -> option (list string) -> result string unit;
  query : string -> option Z -> result string (list SemanticFsQueryResult)
}.

Definition EMBEDDING_MODEL : string := "Xenova/all-MiniLM-L6-v2".
Definition with_embedding (e : option json) (fields : list (string * json)) : list (string * json) :=
  fields ++ match e with Some v => [("embedding", v); ("model", JStr EMBEDDING_MODEL)] | None => [] end.

Definition checked (what : string) (r : result string RawResponse) : result string RawResponse :=
  let? resp := r in if ok resp then Ok resp else Err (or_default (what +:+ " failed") (error resp)).

(** [embedText] gives the vector, as JSON, or nothing; it never throws. *)
Definition createUnixSocketSemanticFs (call : string -> list (string * json) -> result string RawResponse) (embedText : string -> option json) (pid : Z)
    : SemanticFsClient := {|
  register app := let? _ := checked "register" (call "register" [("pid", JNum pid); ("app", JStr app)]) in Ok tt;
  tag path o_task o_apps :=
    let task := or_default "" o_task in
    let relatedApps := or_default [] o_apps in
    let embedding := embedText (Str.trim (task +:+ " " +:+ Str.join " " relatedApps +:+ " " +:+ path)) in
    let? _ := checked "tag" (call "tag" (with_embedding embedding
      [("path", JStr path); ("task", JStr task); ("related_apps", JArr (map JStr relatedApps))])) in Ok tt;
  query text limit :=
    let? resp := checked "query" (call "query" (with_embedding (embedText text) [("text", JStr text); ("limit", JNum (or_default 0 limit)%Z)])) in
    Ok (map of_raw (or_default [] (results resp)))
|}.

Definition createLocalSemanticFs : SemanticFsClient := {| register _ := Ok tt; tag _ _ _ := Ok tt; query _ _ := Ok [] |}.

Definition createUnavailableSemanticFs (socketPath reason : string) : SemanticFsClient :=
  let detail := "semantic-fs daemon is not reachable at " +:+ socketPath +:+ " (" +:+ reason +:+ ")" in
  let q s := String dq_char (s +:+ String dq_char "") in {|
  register _ := Ok tt;
  tag path _ _ := Err ("cannot tag " +:+ q path +:+ ": " +:+ detail +:+
    ". Nothing was stored — treating this as a lost write rather than reporting success.");
  query text _ := Err ("cannot query " +:+ q text +:+ ": " +:+ detail +:+
    ". Returning an empty result set here would be indistinguishable from " +:+ q "nothing matched" +:+ ", which is why this throws instead.")
|}.

(** ** The client of the context bus (context-bus/unix-socket.ts) *)

Inductive sent := SendRegister (app : string) | SendPublish (topic : string) (payload : json) | SendSubscribe (topic : string) | SendUnsubscribe (topic : string).

(** The handlers of each topic, by what identifies them. *)
Definition Subscriptions : Type := list (string * list nat).

Definition subscribe (topic : string) (handler : nat) (subs : Subscriptions) : Subscriptions * list sent :=
  match JsMap.get topic subs with
  | Some hs => (JsMap.put topic (JsSet.add handler hs) subs, [])
  | None => (JsMap.put topic (JsSet.add handler []) (JsMap.put topic [] subs), [SendSubscribe topic])
  end.

(** What [subscribe] returned, called. *)
Definition unsubscribe (topic : string) (handler : nat) (subs : Subscriptions) : Subscriptions * list sent :=
  match JsMap.get topic subs with
  | None => (subs, [])
  | Some hs =>
      match filter (fun h => h <> handler) hs with
      | [] => (JsMap.remove topic subs, [SendUnsubscribe topic])
      | hs => (JsMap.put topic hs subs, [])
      end
  end.

Definition publish (topic : string) (payload : option json) : sent := SendPublish topic (or_default JNull payload).

(** The handlers an event reaches, in order. *)
Definition deliver_event (topic : string) (subs : Subscriptions) : list nat := or_default [] (JsMap.get topic subs).

Inductive bus_op := Subscribe (topic : string) (handler : nat) | Unsubscribe (topic : string) (handler : nat).
Definition bus_step (s : Subscriptions * list sent) (o : bus_op) : Subscriptions * list sent :=
  let '(subs, out) := match o with Subscribe t h => subscribe t h s.1 | Unsubscribe t h => unsubscribe t h s.1 end in
  (subs, s.2 ++ out).

(** ** Frames come out whole *)

Lemma take_frames_fuel fuel : forall fuel' s, String.length s <= fuel -> String.length s <= fuel' -> take_frames fuel s = take_frames fuel' s.
Proof.
  induction fuel as [|fuel IH]; intros fuel' s H1 H2; cbn [take_frames].
  - destruct s; [|cbn in H1; lia]. by destruct fuel'.
  - destruct fuel' as [|fuel']; cbn [take_frames]; [destruct s; [done|cbn in H2; lia]|].
    destruct (Nat.ltb_spec (String.length s) 4); [done|].
    case_match; [done|]. rewrite (IH fuel'); [done|..]; rewrite !StrFacts.length_drop. all: lia.
Qed.

Lemma take_frames_S fuel s : take_frames (S fuel) s =
  if String.length s <? 4 then ([], s)
  else if (N.of_nat (String.length (Str.drop 4 s)) <? Container.readUInt32BE 0 s)%N then ([], s)
  else let '(frames, remaining) := take_frames fuel (Str.drop (N.to_nat (Container.readUInt32BE 0 s)) (Str.drop 4 s)) in
    (Str.take (N.to_nat (Container.readUInt32BE 0 s)) (Str.drop 4 s) :: frames, remaining).
Proof. reflexivity. Qed.

Lemma take_frames_app fuel : forall s more, String.length s <= fuel ->
  take_frames (String.length (s +:+ more)) (s +:+ more) =
  let '(f, l) := take_frames fuel s in let '(f2, l2) := take_frames (String.length (l +:+ more)) (l +:+ more) in (f ++ f2, l2).
Proof.
  assert (Hstop : forall s more, take_frames (String.length (s +:+ more)) (s +:+ more) =
    let '(f2, l2) := take_frames (String.length (s +:+ more)) (s +:+ more) in ([] ++ f2, l2)) by (intros; by destruct (take_frames _ _)).
  induction fuel as [|fuel IH]; intros s more Hl; cbn [take_frames]; [apply Hstop|].
  destruct s as [|a [|b [|c [|d rest]]]]; [apply Hstop..|].
  change (String.length (String a (String b (String c (String d rest)))) <? 4) with false. cbn iota.
  change (Str.drop 4 (String a (String b (String c (String d rest))))) with rest.
  set (n := Container.readUInt32BE 0 (String a (String b (String c (String d rest))))).
  destruct (N.ltb_spec (N.of_nat (String.length rest)) n) as [Hn|Hn]; [apply Hstop|]. rewrite !app_cons_str. cbn [String.length]. rewrite (take_frames_S (S (S (S (String.length (rest +:+ more)))))). cbn [String.length].
  assert (Hn' : Container.readUInt32BE 0 (String a (String b (String c (String d (rest +:+ more))))) = n) by reflexivity. rewrite Hn'.
  change (Str.drop 4 (String a (String b (String c (String d (rest +:+ more)))))) with (rest +:+ more).
  assert (Hge : (S (S (S (S (String.length (rest +:+ more))))) <? 4) = false) by (apply Nat.ltb_ge; lia). rewrite Hge.
  assert (Hlen : (N.of_nat (String.length (rest +:+ more)) <? n)%N = false) by (apply N.ltb_ge; rewrite length_app_str; lia). rewrite Hlen.
  assert (Hsplit : rest = Str.take (N.to_nat n) rest +:+ Str.drop (N.to_nat n) rest) by by rewrite StrFacts.take_drop.
  assert (Ht : Str.take (N.to_nat n) (rest +:+ more) = Str.take (N.to_nat n) rest) by (apply StrFacts.take_app_le; lia).
  assert (Hd : Str.drop (N.to_nat n) (rest +:+ more) = Str.drop (N.to_nat n) rest +:+ more).
  { rewrite Hsplit at 1. rewrite app_assoc_str. assert (Hx : N.to_nat n = String.length (Str.take (N.to_nat n) rest)) by (rewrite StrFacts.length_take; lia).
    rewrite Hx at 1. apply StrFacts.drop_app. }
  rewrite Ht, Hd. cbn in Hl.
  rewrite (take_frames_fuel (S (S (S (String.length (rest +:+ more))))) (String.length (Str.drop (N.to_nat n) rest +:+ more)) (Str.drop (N.to_nat n) rest +:+ more)); [|rewrite !length_app_str, StrFacts.length_drop; lia|done].
  rewrite (IH (Str.drop (N.to_nat n) rest) more) by (rewrite StrFacts.length_drop; lia).
  destruct (take_frames fuel (Str.drop (N.to_nat n) rest)) as [f l]. by destruct (take_frames _ (l +:+ more)) as [f2 l2].
Qed.

Lemma on_chunks_whole chunks : forall buffer,
  take_frames (String.length buffer) buffer = ([], buffer) ->
  on_chunks buffer chunks = take_frames (String.length (buffer +:+ foldr String.append "" chunks)) (buffer +:+ foldr String.append "" chunks).
Proof.
  induction chunks as [|chunk chunks IH]; intros buffer Hb; cbn [on_chunks foldr].
  - by rewrite app_nil_r_str, Hb.
  - unfold on_data. change (String.append chunk (foldr String.append "" chunks)) with (chunk +:+ foldr String.append "" chunks).
    rewrite <-app_assoc_str. rewrite (take_frames_app _ (buffer +:+ chunk) _ (le_n _)).
    destruct (take_frames (String.length (buffer +:+ chunk)) (buffer +:+ chunk)) as [f l] eqn:E1.
    assert (Hl : take_frames (String.length l) l = ([], l)).
    { pose proof (take_frames_app _ (buffer +:+ chunk) "" (le_n _)) as H. rewrite !app_nil_r_str, E1, app_nil_r_str in H.
      destruct (take_frames (String.length l) l) as [f2 l2]. injection H as H ->. apply (f_equal length) in H. rewrite length_app in H. by destruct f2; [|cbn in H; lia]. }
    by rewrite (IH l Hl).
Qed.

Lemma be32_reads len x : (len < 4294967296)%N -> Container.readUInt32BE 0 (be32 len +:+ x) = len.
Proof. exact (Container.header_length 0 len x). Qed.

Lemma take_frames_encoded ps : forall fuel, Forall (fun p => (N.of_nat (String.length p) < 4294967296)%N) ps ->
  String.length (foldr String.append "" (map frame ps)) <= fuel -> take_frames fuel (foldr String.append "" (map frame ps)) = (ps, "").
Proof.
  induction ps as [|p ps IH]; intros fuel Hps Hf; [by destruct fuel|]. apply Forall_cons in Hps as [Hp Hps]. cbn [map foldr] in *.
  change (String.append (frame p) ?x) with (frame p +:+ x) in *. set (rest := foldr String.append "" (map frame ps)) in *.
  unfold frame in *. rewrite app_assoc_str in *. rewrite length_app_str in Hf. change (String.length (be32 (N.of_nat (String.length p)))) with 4 in Hf.
  destruct fuel as [|fuel]; [lia|]. cbn [take_frames]. rewrite length_app_str. change (String.length (be32 (N.of_nat (String.length p)))) with 4.
  change (4 + String.length (p +:+ rest) <? 4) with false. cbn iota. rewrite be32_reads by done.
  change (Str.drop 4 (be32 (N.of_nat (String.length p)) +:+ p +:+ rest)) with (p +:+ rest).
  assert (Hlen : (N.of_nat (String.length (p +:+ rest)) <? N.of_nat (String.length p))%N = false) by (apply N.ltb_ge; rewrite length_app_str; lia).
  rewrite Hlen, Nat2N.id, StrFacts.drop_app, StrFacts.take_app. rewrite IH; [done|done|]. rewrite length_app_str in Hf. lia.
Qed.

(** However the socket cuts the stream, the frames that were written come out
    once each, whole and in order, and nothing is left in the buffer. *)
Theorem frames_roundtrip ps chunks : Forall (fun p => (N.of_nat (String.length p) < 4294967296)%N) ps ->
  foldr String.append "" chunks = foldr String.append "" (map frame ps) -> on_chunks "" chunks = (ps, "").
Proof. intros Hps Hc. rewrite on_chunks_whole by done. rewrite app_empty_str, Hc. by apply take_frames_encoded. Qed.

Lemma frames_roundtrip_witness : on_chunks "" [frame "{}"; Str.take 3 (frame "ok"); Str.drop 3 (frame "ok")] = (["{}"; "ok"], "").
Proof. apply (frames_roundtrip ["{}"; "ok"]); [repeat constructor|reflexivity]. Defined.

(** ** Calls of the semantic file system *)

Record sane (c : Client) : Prop := {
  once : NoDup (pending c ++ (over c).*1);
  issued i : i ∈ pending c ++ (over c).*1 <-> exists n, 1 <= n < nextId c /\ i = id_of n;
  none_waits : is_Some (closedReason c) -> pending c = [];
  some_id : 1 <= nextId c
}.

Lemma id_of_inj a b : id_of a = id_of b -> a = b.
Proof. intros H%JsNumber.to_string_inj; lia. Qed.

Lemma settle_sane i o c : sane c -> i ∈ pending c -> sane (settle i o c).
Proof.
  intros [H1 H2 H3 H4] Hi. assert (Hp : pending c ++ (over c).*1 ≡ₚ filter (fun p => p <> i) (pending c) ++ (over c ++ [(i, o)]).*1).
  { assert (Hq : pending c ≡ₚ i :: filter (fun p => p <> i) (pending c)).
    { apply NoDup_app in H1 as (Hn & _ & _). clear -Hn Hi. induction Hn as [|x l Hx Hn IH]; [by apply not_elem_of_nil in Hi|].
      destruct (decide (x = i)) as [->|Hne].
      - rewrite filter_cons_False by naive_solver. f_equiv. clear -Hx. induction l as [|y l IH]; [done|]. apply not_elem_of_cons in Hx as [? ?].
        rewrite filter_cons_True by congruence. f_equiv. by apply IH.
      - apply elem_of_cons in Hi as [Hi|Hi]; [by symmetry in Hi|]. rewrite filter_cons_True by done. rewrite (IH Hi) at 1. apply perm_swap. }
    rewrite fmap_app. cbn. rewrite Hq at 1. rewrite (app_assoc _ (over c).*1 [i]). by rewrite <-Permutation_cons_append. }
  split; cbn; [by rewrite <-Hp| | |done].
  - intros j. by rewrite <-Hp.
  - intros Hc. by rewrite (H3 Hc).
Qed.

Lemma step_sane c e : sane c -> sane (step c e).
Proof.
  intros Hs. unfold step. destruct (crashed c); [done|]. destruct e as [|[r|]|i|reason].
  - destruct Hs as [H1 H2 H3 H4]. destruct (closedReason c) as [reason|] eqn:Ec; [split; cbn; [done|done|by intros _; apply H3|done]|].
    assert (Hp : pending c ++ (over c).*1 ++ [id_of (nextId c)] ≡ₚ (pending c ++ [id_of (nextId c)]) ++ (over c).*1) by solve_Permutation.
    assert (Hnew : id_of (nextId c) ∉ pending c ++ (over c).*1) by (intros (n & Hn & E1%id_of_inj)%H2; lia).
    split; cbn; [| |by intros [? ?]|lia].
    + rewrite <-Hp, app_assoc. apply NoDup_app. split_and!; [done|set_solver|apply NoDup_singleton].
    + intros j. rewrite <-Hp, app_assoc, elem_of_app, H2, list_elem_of_singleton. split.
      * intros [(n & Hn & ->)| ->]; [exists n|exists (nextId c)]; (split; [lia|done]).
      * intros (n & Hn & ->). destruct (decide (n = nextId c)) as [->|]; [by right|left]. exists n. split; [lia|done].
  - case_decide; [by apply settle_sane|done].
  - by destruct Hs.
  - case_decide; [by apply settle_sane|done].
  - destruct Hs as [H1 H2 H3 H4].
    assert (Hp : pending c ++ (over c).*1 ≡ₚ (over c ++ map (fun i => (i, Lost (gone_reason reason))) (pending c)).*1).
    { rewrite fmap_app. replace ((map (fun i => (i, Lost (gone_reason reason))) (pending c)).*1) with (pending c); [apply Permutation_app_comm|].
      clear. induction (pending c) as [|x l IH]; [done|]. cbn. by f_equal. }
    split; cbn; [by rewrite <-Hp|by intros j; rewrite <-Hp|done|done].
Qed.

(** Every call the client takes on is under an id of its own and is settled at
    most once; once the socket has gone none is left waiting, and from then on
    calls are refused at once. *)
Theorem calls_settle_once evs : let c := foldl step fresh evs in
  NoDup (pending c ++ (over c).*1) /\
  (forall i, i ∈ pending c ++ (over c).*1 <-> exists n, 1 <= n < nextId c /\ i = id_of n) /\
  (forall reason, closedReason c = Some reason -> pending c = [] /\
     (crashed c = false -> step c Call = {| nextId := nextId c; pending := []; over := over c; refused := refused c ++ [CannotSend reason];
                                            closedReason := Some reason; crashed := false |})).
Proof.
  assert (H0 : sane fresh).
  { split; cbn; [apply NoDup_nil_2| |by intros [? ?]|lia]. intros i. split; [by intros ?%not_elem_of_nil|]. intros (n & Hn & _). lia. }
  assert (Hs : sane (foldl step fresh evs)).
  { revert H0. generalize fresh. induction evs as [|e evs IH]; intros c Hc; [done|]. by apply IH, step_sane. }
  cbn. set (c := foldl step fresh evs) in *. split_and!; [apply Hs|apply Hs|]. intros reason Hr.
  assert (Hp : pending c = []) by (apply Hs; by rewrite Hr). split; [done|]. intros Hcr. unfold step. by rewrite Hcr, Hr, Hp.
Qed.

(** A frame that is no JSON ends the process: nothing catches what the handler
    of the socket's data throws. *)
Example bad_frame_crashes : crashed (foldl step fresh [Call; Frame None]) = true.
Proof. reflexivity. Qed.

(** ** Subscriptions *)

Definition listens (topic : string) (b : bool) (s : sent) : bool :=
  match s with
  | SendSubscribe t => if String.eqb t topic then true else b
  | SendUnsubscribe t => if String.eqb t topic then false else b
  | _ => b
  end.
(** Whether the daemon sends the topic's events, after these messages. *)
Definition subscribed (topic : string) (out : list sent) : bool := foldl (listens topic) false out.

Record bus_ok (s : Subscriptions * list sent) : Prop := {
  topics_once : NoDup s.1.*1;
  never_empty t hs : JsMap.get t s.1 = Some hs -> hs <> [];
  in_step t : subscribed t s.2 = bool_decide (is_Some (JsMap.get t s.1))
}.

Lemma subscribed_snoc t out m : subscribed t (out ++ [m]) = listens t (subscribed t out) m.
Proof. unfold subscribed. by rewrite foldl_app. Qed.

Lemma add_nonempty (h : nat) hs : JsSet.add h hs <> [].
Proof. intros E0. assert (Hh : h ∈ JsSet.add h hs) by (apply JsSet.elem_of_add; by left). rewrite E0 in Hh. by apply not_elem_of_nil in Hh. Qed.

Lemma bus_step_ok s o : bus_ok s -> bus_ok (bus_step s o).
Proof.
  intros [H1 H2 H3]. destruct s as [subs out]. cbn [fst snd] in *. unfold bus_step. cbn [fst snd]. destruct o as [topic h|topic h].
  - unfold subscribe. destruct (JsMap.get topic subs) as [hs|] eqn:Et; (split; cbn [fst snd]).
    + by apply JsMap.NoDup_put.
    + intros t hs'. rewrite JsMap.get_put. case_decide; [intros [= <-]; apply add_nonempty|apply H2].
    + intros t. rewrite app_nil_r, H3, JsMap.get_put. case_decide; [subst; by rewrite Et|done].
    + by apply JsMap.NoDup_put, JsMap.NoDup_put.
    + intros t hs'. rewrite !JsMap.get_put. case_decide; [intros [= <-]; apply add_nonempty|apply H2].
    + intros t. rewrite subscribed_snoc, !JsMap.get_put. cbn [listens]. rewrite H3. destruct (String.eqb_spec topic t) as [->|Hne].
      * rewrite decide_True by done. symmetry. apply bool_decide_eq_true_2. by eexists.
      * by rewrite !decide_False by congruence.
  - unfold unsubscribe. destruct (JsMap.get topic subs) as [hs|] eqn:Et; [|split; cbn [fst snd]; [done|done|intros t; by rewrite app_nil_r]].
    destruct (filter (fun x => x <> h) hs) as [|h' hs'] eqn:Ef; (split; cbn [fst snd]).
    + by apply JsMap.NoDup_remove.
    + intros t hs'. destruct (decide (t = topic)) as [->|]; [by rewrite JsMap.get_remove_eq|rewrite JsMap.get_remove_ne by done; apply H2].
    + intros t. rewrite subscribed_snoc. cbn [listens]. rewrite H3. destruct (String.eqb_spec topic t) as [->|Hne].
      * by rewrite JsMap.get_remove_eq.
      * by rewrite JsMap.get_remove_ne by congruence.
    + by apply JsMap.NoDup_put.
    + intros t hs''. rewrite JsMap.get_put. case_decide; [by intros [= <-]|apply H2].
    + intros t. rewrite app_nil_r, H3, JsMap.get_put. case_decide; [subst; by rewrite Et|done].
Qed.

(** The daemon and the client agree at every moment: the daemon has been asked
    for a topic's events exactly while some handler of the topic is registered. *)
Theorem bus_in_step ops t : let s := foldl bus_step ([], []) ops in subscribed t s.2 = bool_decide (deliver_event t s.1 <> []).
Proof.
  cbn. assert (H0 : bus_ok ([], [])) by (split; [apply NoDup_nil_2|done|done]).
  assert (Hs : bus_ok (foldl bus_step ([], []) ops)).
  { revert H0. generalize (@nil (string * list nat), @nil sent). induction ops as [|o ops IH]; intros s Hs; [done|]. by apply IH, bus_step_ok. }
  rewrite (in_step _ Hs). apply bool_decide_ext. unfold deliver_event.
  destruct (JsMap.get t _) as [hs|] eqn:E1; cbn; [|split; [by intros [? ?]|done]]. split; [intros _; by apply (never_empty _ Hs t)|by eexists].
Qed.
End Daemons.
