(* ===== verification/AppRuntime.v ===== *)
(** * An app's process (packages/sdk/src: app.ts, runtime.ts, run-lifecycle.ts,
    check-exports.ts, export-check.ts, stub-value.ts)

    What an app registers, what its runtime checks before it listens and where
    it listens, and the check [berth test] makes of an app's exports. The app's
    own code is a parameter: its registrations, its hooks, its handlers. *)
From S2P Require Import Prelude JsNumber Paths Json Trace Wp Daemons.

Module AppRuntime.
Import Json Trace Wp Daemons.

Definition q (s : string) : string := String dq_char (s +:+ String dq_char "").

(** ** app.ts *)

Section apps.
Context {E : Type}.

Inductive registration := Export (name : string) (def : E) | OnInstall (hook : nat) | OnAgentReady (hook : nat).
Record BerthApp := { exports : list (string * E); onInstallHooks : list nat; onAgentReadyHooks : list nat }.

Definition register_one (app : BerthApp) (r : registration) : result string BerthApp :=
  match r with
  | Export name def =>
      if JsMap.has name (exports app) then Err ("export " +:+ q name +:+ " is already registered")
      else Ok {| exports := JsMap.put name def (exports app); onInstallHooks := onInstallHooks app; onAgentReadyHooks := onAgentReadyHooks app |}
  | OnInstall h => Ok {| exports := exports app; onInstallHooks := onInstallHooks app ++ [h]; onAgentReadyHooks := onAgentReadyHooks app |}
  | OnAgentReady h => Ok {| exports := exports app; onInstallHooks := onInstallHooks app; onAgentReadyHooks := onAgentReadyHooks app ++ [h] |}
  end.

(** [setup] is what the app's code registers, in order. *)
Definition defineApp (setup : list registration) : result string BerthApp :=
  foldl (fun r x => let? app := r in register_one app x) (Ok {| exports := []; onInstallHooks := []; onAgentReadyHooks := [] |}) setup.
End apps.
Arguments registration : clear implicits.
Arguments BerthApp : clear implicits.

(** ** The two lists of exports *)

Definition missing (declared present : list string) : list string := filter (fun n => n ∉ present) (JsSet.of_list declared).

Definition assertExportsMatchManifest (codeExports manifestExports : list string) : result string unit :=
  let missingInCode := missing manifestExports codeExports in
  let missingInManifest := missing codeExports manifestExports in
  match missingInCode, missingInManifest with
  | [], [] => Ok tt
  | _, _ =>
      Err ("exports mismatch between berth.yml and app code — " +:+
           Str.join "; "
             ((match missingInCode with [] => [] | l => ["declared in berth.yml but not implemented: " +:+ Str.join ", " l] end) ++
              (match missingInManifest with [] => [] | l => ["implemented in code but not declared in berth.yml: " +:+ Str.join ", " l] end)))
  end.

(** ** runtime.ts *)

Record Manifest := { m_name : string; m_exports : list string }.

Inductive bus := RealBus | LocalBus.
Inductive fs := RealFs | UnavailableFs (reason : string) | LocalFs.

Inductive event :=
| GotBus (b : bus) | GotFs (f : fs) | Hook (h : nat)
| RpcServer (socketPath : option string)
| HttpServer (port : JsNumber.jsnum) (authToken : string) (tls : option (string * string))
| SaidReady.

Record World := {
  cwd : string;
  env : string -> option string;
  loadManifest : result string Manifest;
  import_app : result string (option (BerthApp unit));
  bus_error : option string; fs_error : option string;       (* of connecting *)
  hook_error : nat -> option string;
  read_file : string -> result string string
}.

Definition set_value (x : option string) : option string := match x with Some "" => None | x => x end.

Section runtime.
Context (w : World).
Abbreviation RunM := (@M event string).

Definition APP_ENTRY : string := or_default (NodePath.join [cwd w; "dist"; "index.js"]) (env w "BERTH_APP_ENTRY").

Definition createContextBus : RunM unit := emit (GotBus (match bus_error w with None => RealBus | Some _ => LocalBus end)) (fun _ => Ok tt).

(** Inside a sandbox a daemon that cannot be reached is a fault. *)
Definition createSemanticFs : fs :=
  match fs_error w with
  | None => RealFs
  | Some reason => match set_value (env w "BERTH_BOOT_ID") with Some _ => UnavailableFs reason | None => LocalFs end
  end.

(** The client an app gets, over the one a connection gives. *)
Definition fs_client (connected : SemanticFsClient) (socketPath : string) (f : fs) : SemanticFsClient :=
  match f with
  | RealFs => connected
  | UnavailableFs reason => createUnavailableSemanticFs socketPath reason
  | LocalFs => createLocalSemanticFs
  end.

Fixpoint run_hooks (hooks : list nat) : RunM unit :=
  match hooks with
  | [] => mret tt
  | h :: hooks => emit (Hook h) (fun _ => match hook_error w h with Some e => Err e | None => Ok tt end) ;; run_hooks hooks
  end.

(** The HTTP listener, when this app is the one to bind it. *)
Definition start_http (name : string) : RunM unit :=
  match JsNumber.Number <$> set_value (env w "BERTH_HTTP_RPC_PORT") with
  | None => mret tt
  | Some port =>
      if JsNumber.falsy port then mret tt
      else if match set_value (env w "BERTH_HTTP_RPC_APP") with None => true | Some app => String.eqb app name end then
        match set_value (env w "BERTH_HTTP_RPC_TOKEN") with
        | None => fail "BERTH_HTTP_RPC_PORT is set but BERTH_HTTP_RPC_TOKEN is not — refusing to listen unauthenticated"
        | Some token =>
            match set_value (env w "BERTH_HTTP_RPC_TLS_CERT"), set_value (env w "BERTH_HTTP_RPC_TLS_KEY") with
            | Some certPath, Some keyPath =>
                cert ← lift (read_file w certPath);
                key ← lift (read_file w keyPath);
                emit (HttpServer port token (Some (cert, key))) (fun _ => Ok tt)
            | None, None => emit (HttpServer port token None) (fun _ => Ok tt)
            | _, _ => fail "BERTH_HTTP_RPC_TLS_CERT and BERTH_HTTP_RPC_TLS_KEY must both be set, or neither — refusing to start half-configured"
            end
        end
      else mret tt
  end.

Definition main : RunM unit :=
  manifest ← lift (loadManifest w);
  app ← lift (import_app w);
  match app with
  | None => fail (APP_ENTRY +:+ " must have a default export from defineApp()")
  | Some app =>
      lift (assertExportsMatchManifest (exports app).*1 (m_exports manifest)) ;;
      createContextBus ;;
      emit (GotFs createSemanticFs) (fun _ => Ok tt) ;;
      run_hooks (onInstallHooks app) ;;
      run_hooks (onAgentReadyHooks app) ;;
      emit (RpcServer (env w "BERTH_RPC_SOCKET")) (fun _ => Ok tt) ;;
      start_http (m_name manifest) ;;
      emit SaidReady (fun _ => Ok tt)
  end.

(** What keeps a process from ending by itself: a server, or a connection. *)
Definition holds_open (e : event) : bool :=
  match e with RpcServer _ | HttpServer _ _ _ | GotBus RealBus | GotFs RealFs => true | _ => false end.

(** The process: what it did, the exit code it has set, and whether it goes on
    ([main]'s failure sets the code and nothing more). *)
Record Process := { did : list event; exitCode : nat; alive : bool }.
Definition run_process : Process :=
  let '(t, r) := main [] in {| did := t; exitCode := match r with Ok _ => 0 | Err _ => 1 end; alive := existsb holds_open t |}.
End runtime.

(** ** run-lifecycle.ts *)

Definition lifecycle_line (capabilities : list string) : string :=
  let needsBrowser := existsb (Str.starts_with "browser:") capabilities in
  let needsEgressBroker := existsb (fun cap => Str.starts_with "browser:navigate:" cap || Str.starts_with "network:host:" cap) capabilities in
  (if needsBrowser then "1" else "0") +:+ "," +:+ (if needsEgressBroker then "1" else "0").

(** ** stub-value.ts *)

(** A schema by its kind. *)
Inductive zod :=
| ZString | ZNumber | ZBoolean | ZArray (of_ : zod) | ZEnum (options : list string) | ZLiteral (v : json)
| ZObject (shape : list (string * zod)) | ZOptional (z : zod) | ZNullable (z : zod) | ZOther.

Definition FIELD_NAME_HINTS : list (string * string) :=
  [("url", "https://example.com"); ("selector", "body"); ("email", "test@example.com"); ("method", "GET")].

Section stub.
(** What a plain object answers for a name it inherits: no string. *)
Context (inherited_value : string -> json).

Definition string_stub (fieldName : option string) : json :=
  match fieldName with
  | None => JStr "berth-test-stub"
  | Some "" => JStr ""
  | Some n =>
      match JsMap.get n FIELD_NAME_HINTS with
      | Some v => JStr v
      | None => if bool_decide (n ∈ JsObj.inherited) then inherited_value n else JStr "berth-test-stub"
      end
  end.

Fixpoint stubValue (z : zod) (fieldName : option string) : json :=
  match z with
  | ZString => string_stub fieldName
  | ZNumber => JNum 1
  | ZBoolean => JBool true
  | ZArray _ => JArr []
  | ZEnum options => match options with v :: _ => JStr v | [] => JNull end
  | ZLiteral v => match v with JUndef => JNull | v => v end
  | ZObject shape =>
      JObj (foldl (fun obj '(key, v) => JsObj.assign key v obj) [] (map (fun '(key, z) => (key, stubValue z (Some key))) shape))
  | ZOptional _ | ZNullable _ => JUndef
  | ZOther => JNull
  end.
End stub.

(** ** export-check.ts, check-exports.ts *)

Inductive throwable := ThrewTypeError (hasCause : bool) | ThrewReferenceError (hasCause : bool) | ThrewOther.
Definition isProgrammingError (e : throwable) : bool :=
  match e with ThrewTypeError c | ThrewReferenceError c => negb c | ThrewOther => false end.
Definition error_name (e : throwable) : string :=
  match e with ThrewTypeError _ => "TypeError" | ThrewReferenceError _ => "ReferenceError" | ThrewOther => "Error" end.

Record ExportDefinition := {
  input : option zod;
  output : option (json -> option string);                  (* what the schema says against a value *)
  handler : json -> result (throwable * string) json
}.
Record ExportResult := { x_export : string; x_ok : bool; x_error : option string; unexercised : option string }.

Definition checkExport (inherited_value : string -> json) (name : string) (def : ExportDefinition) : ExportResult :=
  let input := match input def with Some z => stubValue inherited_value z None | None => JUndef end in
  match handler def input with
  | Err (e, message) =>
      if isProgrammingError e
      then {| x_export := name; x_ok := false; x_error := Some ("threw " +:+ error_name e +:+ ": " +:+ message); unexercised := None |}
      else {| x_export := name; x_ok := true; x_error := None; unexercised := Some message |}
  | Ok result =>
      match output def ≫= (fun o => o result) with
      | None => {| x_export := name; x_ok := true; x_error := None; unexercised := None |}
      | Some message => {| x_export := name; x_ok := false;
                           x_error := Some ("returned output that doesn't match its declared schema: " +:+ message); unexercised := None |}
      end
  end.

Inductive report :=
| Failed (error : string)
| Mismatch (missingInCode missingInManifest : list string) | Results (ok : bool) (results : list ExportResult).

(** The report printed, and the exit code. *)
Definition check_exports (inherited_value : string -> json) (entry : string) (manifest : result string (list string))
    (app : result string (option (BerthApp ExportDefinition))) : report * nat :=
  match manifest, app with
  | Err e, _ | Ok _, Err e => (Failed e, 1)
  | Ok _, Ok None => (Failed (entry +:+ " must have a default export from defineApp()"), 1)
  | Ok manifestExports, Ok (Some app) =>
      let codeExports := (exports app).*1 in
      match missing manifestExports codeExports, missing codeExports manifestExports with
      | [], [] =>
          let results := map (fun '(name, def) => checkExport inherited_value name def) (exports app) in
          let ok := forallb x_ok results in
          (Results ok results, if ok then 0 else 1)
      | a, b => (Mismatch a b, 1)
      end
  end.

(** ** What the runtime promises *)

Lemma elem_of_missing n declared present : n ∈ missing declared present <-> n ∉ present /\ n ∈ declared.
Proof. unfold missing. by rewrite list_elem_of_filter, JsSet.elem_of_of_list. Qed.

Lemma missing_nil declared present : missing declared present = [] <-> forall n, n ∈ declared -> n ∈ present.
Proof.
  split.
  - intros H n Hn. destruct (decide (n ∈ present)) as [|Hnot]; [done|]. assert (Hm : n ∈ missing declared present) by by apply elem_of_missing.
    rewrite H in Hm. by apply not_elem_of_nil in Hm.
  - intros H. destruct (missing declared present) as [|n l] eqn:Ef; [done|].
    assert (Hn : n ∈ missing declared present) by (rewrite Ef; apply list_elem_of_here).
    apply elem_of_missing in Hn as [Hn Hd]. by destruct Hn; apply H.
Qed.

Lemma assert_ok code manifest : assertExportsMatchManifest code manifest = Ok tt <-> forall n, n ∈ code <-> n ∈ manifest.
Proof.
  unfold assertExportsMatchManifest. destruct (missing manifest code) as [|x l] eqn:E1.
  - destruct (missing code manifest) as [|x l] eqn:E2.
    + rewrite missing_nil in E1, E2. split; [intros _ n; split; auto|done].
    + split; [done|]. intros H. exfalso. assert (missing code manifest = []) by (apply missing_nil; intros n; apply H). congruence.
  - split; [done|]. intros H. exfalso. assert (missing manifest code = []) by (apply missing_nil; intros n; apply H). congruence.
Qed.

Lemma defineApp_exports {E} (setup : list (registration E)) app : defineApp setup = Ok app -> NoDup (exports app).*1.
Proof.
  unfold defineApp. assert (H0 : NoDup (exports {| exports := @nil (string * E); onInstallHooks := []; onAgentReadyHooks := [] |}).*1) by apply NoDup_nil_2.
  revert H0. generalize {| exports := @nil (string * E); onInstallHooks := []; onAgentReadyHooks := [] |}.
  induction setup as [|r setup IH]; intros a Ha; cbn [foldl]; [by intros [= <-]|]. cbn [rbind].
  destruct (register_one a r) as [a'|e] eqn:Er.
  - apply IH. destruct r as [n d|h|h]; cbn in Er; [destruct (JsMap.has n (exports a)); [done|]|..]; injection Er as <-; [by apply JsMap.NoDup_put|done..].
  - assert (Hf : foldl (fun r x => let? app := r in register_one app x) (Err e) setup = Err e).
    { clear. induction setup as [|x setup IH]; [done|]. exact IH. }
    by rewrite Hf.
Qed.

Definition is_listener (e : event) : bool := match e with RpcServer _ | HttpServer _ _ _ => true | _ => false end.

Lemma hooks_run w hooks t :
  wp (run_hooks w hooks) t (fun t1 r =>
    (forall e, e ∈ t1 -> is_listener e = true -> e ∈ t) /\ (forall e, e ∈ t -> e ∈ t1) /\
    match r with Ok _ => forall h, h ∈ hooks -> hook_error w h = None | Err _ => True end).
Proof.
  revert t; induction hooks as [|h hooks IH]; intros t; cbn [run_hooks].
  - apply wp_ret. split_and!; [done|done|by intros ? ?%not_elem_of_nil].
  - apply wp_bind, wp_emit. destruct (hook_error w h) as [e|] eqn:Eh.
    + split_and!; [|set_solver|done]. intros e' He Hl. apply elem_of_app in He as [He|He%list_elem_of_singleton]; [done|by subst].
    + eapply wp_conseq; [apply IH|]. cbn beta. intros t1 r (H1 & H2 & H3). split_and!; [|set_solver|].
      * intros e' He Hl. apply H1 in He; [|done]. apply elem_of_app in He as [He|He%list_elem_of_singleton]; [done|by subst].
      * destruct r; [|done]. intros h' [->|H]%elem_of_cons; [done|by apply H3].
Qed.

(** What the HTTP listener, if there is one, was given. *)
Definition http_ok (w : World) (name : string) (e : event) : Prop :=
  match e with
  | HttpServer port token tls =>
      token <> "" /\ env w "BERTH_HTTP_RPC_TOKEN" = Some token /\ JsNumber.falsy port = false /\
      match set_value (env w "BERTH_HTTP_RPC_APP") with Some a => a = name | None => True end /\
      match tls with
      | None => set_value (env w "BERTH_HTTP_RPC_TLS_CERT") = None /\ set_value (env w "BERTH_HTTP_RPC_TLS_KEY") = None
      | Some (cert, key) => exists certPath keyPath,
          set_value (env w "BERTH_HTTP_RPC_TLS_CERT") = Some certPath /\ read_file w certPath = Ok cert /\
          set_value (env w "BERTH_HTTP_RPC_TLS_KEY") = Some keyPath /\ read_file w keyPath = Ok key
      end
  | _ => True
  end.

Lemma set_value_given x v : set_value x = Some v -> x = Some v /\ v <> "".
Proof. by destruct x as [[|c x]|]; cbn; intros [= <-]. Qed.

Lemma start_http_run w name t :
  wp (start_http w name) t (fun t1 r => forall e, e ∈ t1 -> e ∈ t \/ http_ok w name e).
Proof.
  unfold start_http. wp_steps; intros ev Hev; try (by left); apply elem_of_app in Hev as [Hev|Hev%list_elem_of_singleton]; [by left| |by left| |by left| |by left|];
    right; subst ev; cbn [http_ok];
    repeat match goal with H : set_value (env w "BERTH_HTTP_RPC_TOKEN") = Some _ |- _ => apply set_value_given in H as [? ?] end;
    rewrite ?E1; cbn; split_and!; try done; try (by apply String.eqb_eq); by do 2 eexists.
Qed.

Lemma start_http_keeps w name t : wp (start_http w name) t (fun t1 r => forall e, e ∈ t -> e ∈ t1).
Proof. unfold start_http. wp_steps; intros ev Hev; try done; apply elem_of_app; by left. Qed.

(** What must hold before an app listens. *)
Record may_listen (w : World) (manifest : Manifest) (app : BerthApp unit) : Prop := {
  manifest_loads : loadManifest w = Ok manifest;
  code_loads : import_app w = Ok (Some app);
  exports_agree n : n ∈ (exports app).*1 <-> n ∈ m_exports manifest;
  hooks_ran h : h ∈ onInstallHooks app ++ onAgentReadyHooks app -> hook_error w h = None
}.

(** Nothing listens before the code and the manifest agree on the exports and
    every hook has run; over HTTP an app listens only with a token, only when
    it is the one to, and with a certificate and its key or with neither. *)
Theorem runtime_listens w e : e ∈ did (run_process w) -> is_listener e = true ->
  exists manifest app, may_listen w manifest app /\ http_ok w (m_name manifest) e.
Proof.
  assert (H : wp (main w) [] (fun t r => forall e, e ∈ t -> is_listener e = true ->
    exists manifest app, may_listen w manifest app /\ http_ok w (m_name manifest) e)).
  { unfold main. apply wp_bind, wp_lift. destruct (loadManifest w) as [manifest|] eqn:Em; [|by intros ? ?%not_elem_of_nil].
    apply wp_bind, wp_lift. destruct (import_app w) as [[app|]|] eqn:Ea; [|by intros ? ?%not_elem_of_nil..].
    apply wp_bind, wp_lift. destruct (assertExportsMatchManifest _ _) as [[]|] eqn:Ex; [|by intros ? ?%not_elem_of_nil].
    rewrite assert_ok in Ex. unfold createContextBus. apply wp_bind, wp_emit, wp_bind, wp_emit. cbn [Datatypes.app].
    set (t0 := [_; _]). assert (H0 : forall e, e ∈ t0 -> is_listener e = false) by (unfold t0; intros e' [->|[->|[]%not_elem_of_nil]%elem_of_cons]%elem_of_cons; done).
    apply wp_bind. eapply wp_conseq; [apply hooks_run|]. intros t1 r1 (H1 & _ & Hr1). destruct r1 as [[]|]; [|intros e' He Hl; by rewrite (H0 _ (H1 _ He Hl)) in Hl].
    apply wp_bind. eapply wp_conseq; [apply hooks_run|]. intros t2 r2 (H2 & _ & Hr2).
    destruct r2 as [[]|]; [|intros e' He Hl; by rewrite (H0 _ (H1 _ (H2 _ He Hl) Hl)) in Hl].
    assert (Hm : may_listen w manifest app) by (split; [done..|intros h [Hh|Hh]%elem_of_app; auto]).
    apply wp_bind, wp_emit, wp_bind. eapply wp_conseq; [apply start_http_run|]. intros t3 r3 H3.
    assert (Ht3 : forall e, e ∈ t3 -> is_listener e = true -> http_ok w (m_name manifest) e).
    { intros e' He Hl. apply H3 in He as [He|He]; [|done]. apply elem_of_app in He as [He|He%list_elem_of_singleton]; [|by subst].
      by rewrite (H0 _ (H1 _ (H2 _ He Hl) Hl)) in Hl. }
    destruct r3 as [[]|]; [|intros e' He Hl; exists manifest, app; split; [done|by apply Ht3]]. apply wp_emit.
    intros e' He Hl. apply elem_of_app in He as [He|He%list_elem_of_singleton]; [|by subst]. exists manifest, app. split; [done|by apply Ht3]. }
  intros Hin Hl. revert Hin. unfold run_process. destruct (main w []) as [t r] eqn:Er. pose proof (wp_run _ _ _ H t r Er) as Hr. cbn in *. intros Hin. by apply Hr.
Qed.

Definition ex_env (vars : list (string * string)) (n : string) : option string := JsMap.get n vars.
Definition ex_app : BerthApp unit := {| exports := [("run", tt)]; onInstallHooks := [1]; onAgentReadyHooks := [2] |}.
Definition ex_world (vars : list (string * string)) (failing : list nat) : World := {|
  cwd := "/app"; env := ex_env vars; loadManifest := Ok {| m_name := "agent"; m_exports := ["run"] |}; import_app := Ok (Some ex_app);
  bus_error := None; fs_error := Some "connect ENOENT"; hook_error := fun h => if decide (h ∈ failing) then Some "boom" else None;
  read_file := fun p => if String.eqb p "/run/tls.pem" then Ok "PEM" else Err "ENOENT"
|}.

Lemma runtime_listens_witness :
  let w := ex_world [("BERTH_HTTP_RPC_PORT", "8443"); ("BERTH_HTTP_RPC_TOKEN", "secret")] [] in
  did (run_process w) = [GotBus RealBus; GotFs LocalFs; Hook 1; Hook 2; RpcServer None; HttpServer (JsNumber.of_Z 8443) "secret" None; SaidReady] /\
  exists manifest app, may_listen w manifest app /\ http_ok w (m_name manifest) (HttpServer (JsNumber.of_Z 8443) "secret" None).
Proof. split; [vm_compute; reflexivity|]. apply runtime_listens; [vm_compute; repeat constructor|reflexivity]. Defined.

(** Once an app has its connection to the context bus, a failure to start only
    sets the exit code: the connection keeps the process alive, an app that
    neither serves nor ends. *)
Theorem failed_start_lingers w manifest app e :
  loadManifest w = Ok manifest -> import_app w = Ok (Some app) -> (forall n, n ∈ (exports app).*1 <-> n ∈ m_exports manifest) ->
  bus_error w = None -> (main w []).2 = Err e -> exitCode (run_process w) = 1 /\ alive (run_process w) = true.
Proof.
  intros Hm Ha Hx%assert_ok Hb He.
  assert (H : wp (main w) [] (fun t r => GotBus RealBus ∈ t)).
  { unfold main. apply wp_bind, wp_lift. rewrite Hm. apply wp_bind, wp_lift. rewrite Ha. apply wp_bind, wp_lift. rewrite Hx.
    unfold createContextBus. rewrite Hb. apply wp_bind, wp_emit, wp_bind, wp_emit, wp_bind. eapply wp_conseq; [apply hooks_run|].
    intros t1 r1 (_ & H1 & _). assert (G1 : GotBus RealBus ∈ t1) by (apply H1, list_elem_of_here). destruct r1 as [[]|]; [|done].
    apply wp_bind. eapply wp_conseq; [apply hooks_run|]. intros t2 r2 (_ & H2 & _). destruct r2 as [[]|]; [|by apply H2].
    apply wp_bind, wp_emit, wp_bind. eapply wp_conseq; [apply start_http_keeps|]. cbn beta. intros t3 r3 H3.
    assert (G3 : GotBus RealBus ∈ t3) by (apply H3, elem_of_app; left; by apply H2). destruct r3 as [[]|]; [|done].
    apply wp_emit. apply elem_of_app. by left. }
  unfold run_process. destruct (main w []) as [t r] eqn:Er. pose proof (wp_run _ _ _ H t r Er) as Hr. cbn in He. subst r. cbn.
  split; [done|]. apply existsb_exists. exists (GotBus RealBus). split; [by apply list_elem_of_In|done].
Qed.

Lemma failed_start_lingers_witness : let w := ex_world [] [2] in exitCode (run_process w) = 1 /\ alive (run_process w) = true.
Proof. apply (failed_start_lingers _ {| m_name := "agent"; m_exports := ["run"] |} ex_app "boom"); try reflexivity. Defined.

(** With half of the TLS settings the app is already served over its socket
    when the runtime refuses to start. *)
Example half_configured_serves :
  let w := ex_world [("BERTH_HTTP_RPC_PORT", "8443"); ("BERTH_HTTP_RPC_TOKEN", "secret"); ("BERTH_HTTP_RPC_TLS_CERT", "/run/tls.pem");
                     ("BERTH_RPC_SOCKET", "/run/app.sock")] [] in
  exitCode (run_process w) = 1 /\ RpcServer (Some "/run/app.sock") ∈ did (run_process w).
Proof. split; [vm_compute; reflexivity|]. vm_compute. repeat constructor. Qed.

(** ** The check of an app's exports *)

(** [berth test] passes an app exactly when its code and its manifest agree and
    no export of it either fails as a program or answers what its schema
    refuses. *)
Theorem check_exports_spec inherited_value entry manifest app :
  (check_exports inherited_value entry (Ok manifest) (Ok (Some app))).2 = 0 <->
  (forall n, n ∈ (exports app).*1 <-> n ∈ manifest) /\
  (forall name def, (name, def) ∈ exports app ->
     match handler def (match input def with Some z => stubValue inherited_value z None | None => JUndef end) with
     | Ok v => match output def with Some o => o v = None | None => True end
     | Err (e, _) => isProgrammingError e = false
     end).
Proof.
  cbn. destruct (missing manifest (exports app).*1) eqn:E1; [destruct (missing (exports app).*1 manifest) eqn:E2|]; cycle 1.
  - split; [done|]. intros [Hx _]. assert (missing (exports app).*1 manifest = []) by (apply missing_nil; intros n; apply Hx). congruence.
  - split; [done|]. intros [Hx _]. assert (missing manifest (exports app).*1 = []) by (apply missing_nil; intros n; apply Hx). congruence.
  - rewrite missing_nil in E1, E2. cbn.
    assert (Hall : forallb x_ok (map (fun '(name, def) => checkExport inherited_value name def) (exports app)) = true <->
      forall name def, (name, def) ∈ exports app -> x_ok (checkExport inherited_value name def) = true).
    { rewrite forallb_forall. setoid_rewrite in_map_iff. split.
      - intros H name def Hin. apply H. exists (name, def). split; [done|by apply list_elem_of_In].
      - intros H x ([name def] & <- & Hin). by apply H, list_elem_of_In. }
    assert (Hone : forall name def, x_ok (checkExport inherited_value name def) = true <->
      match handler def (match input def with Some z => stubValue inherited_value z None | None => JUndef end) with
      | Ok v => match output def with Some o => o v = None | None => True end
      | Err (e, _) => isProgrammingError e = false
      end).
    { intros name def. unfold checkExport. destruct (handler def _) as [v|[e m]]; [|by destruct (isProgrammingError e)].
      destruct (output def) as [o|]; cbn; [|done]. by destruct (o v). }
    transitivity (forallb x_ok (map (fun '(name, def) => checkExport inherited_value name def) (exports app)) = true).
    { by destruct (forallb _ _). }
    rewrite Hall. setoid_rewrite Hone. split; [intros H; split; [intros n; split; auto|done]|by intros [_ H]].
Qed.

(** A nullable schema is called with [undefined], which it refuses. *)
Example nullable_stub iv : stubValue iv (ZNullable ZString) None = JUndef.
Proof. reflexivity. Qed.
End AppRuntime.
