(* ===== verification/Connector.v ===== *)
(** * Apps made from the description of an API (packages/sdk/src/connector.ts)

    Each operation is an export: its parameters go into the path, the query or
    the body, the credential into a header, read at the time of the request.
    What [fetch] answers is a parameter; strings are encoded as in the code. *)
From S2P Require Import Prelude JsNumber Json JsonParse Url Trace Wp AppRuntime.

Module Connector.
Import Json Trace Wp AppRuntime.

(** ** [encodeURIComponent], and [replace] of the first occurrence *)

Definition HEX : string := "0123456789ABCDEF".
Definition hex (n : nat) : ascii := or_default zero (String.get n HEX).
Definition escaped (n : nat) : string := String "%" (String (hex (n / 16)) (String (hex (n mod 16)) "")).

Definition unreserved (c : ascii) : bool :=
  Str.is_digit c || Str.is_lower c || Str.is_upper c ||
  existsb (Ascii.eqb c) ["-"; "_"; "."; "!"; "~"; "*"; "'"; "("; ")"]%char.

(** A code unit above 127 is two bytes in UTF-8. *)
Definition encode_char (c : ascii) : string :=
  let n := Str.code c in
  if unreserved c then String c ""
  else if n <? 128 then escaped n
  else escaped (192 + n / 64) +:+ escaped (128 + n mod 64).

Fixpoint encodeURIComponent (s : string) : string :=
  match s with "" => "" | String c s => encode_char c +:+ encodeURIComponent s end.

(** [s.replace(t, u)], for a [u] without a dollar sign. *)
Fixpoint replace_first (t u s : string) : string :=
  if Str.starts_with t s then u +:+ Str.drop (String.length t) s
  else match s with "" => "" | String c s => String c (replace_first t u s) end.

(** ** The configuration *)

Inductive auth_type := AuthNone | AuthBearer | AuthHeader.
Record ConnectorAuth := { type_ : auth_type; envVar : option string; headerName : option string }.
Inductive place := InPath | InQuery | InBody.
Inductive param_type := PString | PNumber | PBoolean.
Record ConnectorParam := { in_ : place; p_type : param_type; required : option bool }.
Inductive http_method := GET | POST | PUT | PATCH | DELETE.
Record ConnectorOperation := { export : string; method : http_method; o_path : string; params : list (string * ConnectorParam) }.
Record ConnectorConfig := { baseUrl : string; c_auth : option ConnectorAuth; operations : list ConnectorOperation }.

Inductive ConnectorResult := Answer (status : Z) (data : json) | Stub (note : string).

Definition field_of (p : ConnectorParam) : zod :=
  let field := match p_type p with PNumber => ZNumber | PBoolean => ZBoolean | PString => ZString end in
  match required p with Some false => ZOptional field | _ => field end.

Definition buildInputSchema (params : list (string * ConnectorParam)) : zod :=
  ZObject (foldl (fun shape '(key, p) => JsObj.assign key (field_of p) shape) [] params).

(** ** A request *)

(** [String(value)], for what the schema lets through: the first three cases. *)
Definition js_String (v : json) : string :=
  match v with
  | JStr s => s | JNum n => JsNumber.to_string n | JBool true => "true" | JBool false => "false"
  | _ => JsonParse.stringify v
  end.

Record Parts := { path : string; query : list (string * string); body : list (string * json) }.

Definition put_param (input : list (string * json)) (parts : Parts) (kp : string * ConnectorParam) : Parts :=
  let '(key, param) := kp in
  match JsMap.get key input with
  | None | Some JUndef => parts
  | Some value =>
      match in_ param with
      | InPath => {| path := replace_first (String "{" (key +:+ "}")) (encodeURIComponent (js_String value)) (path parts); query := query parts; body := body parts |}
      | InQuery => {| path := path parts; query := JsMap.put key (js_String value) (query parts); body := body parts |}
      | InBody => {| path := path parts; query := query parts; body := JsObj.assign key value (body parts) |}
      end
  end.

Definition parts_of (operation : ConnectorOperation) (input : list (string * json)) : Parts :=
  foldl (put_param input) {| path := o_path operation; query := []; body := [] |} (params operation).

(** What is sent: the URL the path resolves to, the parameters set on it, and
    the rest. *)
Record Request := { url : URL; set_params : list (string * string); r_method : http_method; headers : list (string * string); sent_body : option string }.

(** An answer, and what its body is as JSON, if it is JSON; the body can be read
    once. *)
Record Response := { status : Z; json_body : option json }.

Section requests.
Context {parser : UrlParser}.
Context (env : string -> option string) (fetch : Request -> result string Response).
Abbreviation ConnM := (@M Request string).

Definition credential (auth : ConnectorAuth) (token : option string) : list (string * string) :=
  match type_ auth, token, set_value (headerName auth) with
  | AuthBearer, Some token, _ => [("Authorization", "Bearer " +:+ token)]
  | AuthHeader, Some token, Some name => JsObj.assign name token []
  | _, _, _ => []
  end.

Definition request_of (auth : ConnectorAuth) (token : option string) (method : http_method) (u : URL) (parts : Parts) : Request :=
  let hasBody := match body parts, method with [], _ | _, GET | _, DELETE => false | _, _ => true end in {|
    url := u; set_params := query parts; r_method := method;
    headers := if hasBody then JsObj.assign "Content-Type" "application/json" (credential auth token) else credential auth token;
    sent_body := if hasBody then Some (JsonParse.stringify (JObj (body parts))) else None
  |}.

(** [await res.json().catch(() => res.text())]: [json] reads the body whether or
    not it is JSON, so that the [text] that follows throws. *)
Definition data_of (res : Response) : result string json :=
  match json_body res with
  | Some data => Ok data
  | None => Err "Body is unusable: Body has already been read"
  end.

(** From the path on, with what the request is authenticated with. *)
Definition call_api (config : ConnectorConfig) (operation : ConnectorOperation) (input : list (string * json))
    (auth : ConnectorAuth) (token : option string) : ConnM ConnectorResult :=
  let parts := parts_of operation input in
  u ← lift (match new_URL_base (path parts) (baseUrl config) with Some u => Ok u | None => Err "Invalid URL" end);
  let request := request_of auth token (method operation) u parts in
  res ← emit request (fun _ => fetch request);
  data ← lift (data_of res);
  mret (Answer (status res) data).

Definition invokeOperation (config : ConnectorConfig) (operation : ConnectorOperation) (input : list (string * json)) : ConnM ConnectorResult :=
  let auth := or_default {| type_ := AuthNone; envVar := None; headerName := None |} (c_auth config) in
  let token := match set_value (envVar auth) with Some name => set_value (env name) | None => None end in
  match type_ auth, token with
  | AuthBearer, None | AuthHeader, None =>
      mret (Stub ("set " +:+ or_default "undefined" (envVar auth) +:+ " for live data — this operation is a no-op stub without it"))
  | _, _ => call_api config operation input auth token
  end.
End requests.

Definition defineConnectorApp (config : ConnectorConfig) : result string (BerthApp ConnectorOperation) :=
  defineApp (map (fun o => Export (export o) o) (operations config) ++ [OnAgentReady 0]).

(** ** What goes into the path stays in its segment *)

Definition harmless (c : ascii) : bool := negb (existsb (Ascii.eqb c) ["/"; "?"; "#"; "\"; "{"; "}"; "$"; ":"; "@"; "&"; "="]%char).

Lemma encode_char_harmless c : Str.all harmless (encode_char c) = true.
Proof. by destruct c as [[] [] [] [] [] [] [] []]. Qed.

Lemma encode_harmless s : Str.all harmless (encodeURIComponent s) = true.
Proof. induction s as [|c s IH]; [done|]. cbn [encodeURIComponent]. by rewrite StrFacts.all_app, encode_char_harmless, IH. Qed.

Definition segments (s : string) : nat := length (Str.split "/" s).

Lemma segments_app a b : S (segments (a +:+ b)) = segments a + segments b.
Proof.
  unfold segments. induction a as [|c a IH]; [by rewrite app_empty_str|]. rewrite app_cons_str. cbn [Str.split].
  destruct (Ascii.eqb c "/"); cbn [length]; [lia|].
  destruct (Str.split "/" (a +:+ b)) eqn:E1; [by apply StrFacts.split_nonempty in E1|].
  destruct (Str.split "/" a) eqn:E2; [by apply StrFacts.split_nonempty in E2|]. cbn [length] in *. lia.
Qed.

Lemma no_slash_segments s : Str.any (Ascii.eqb "/") s = false -> segments s = 1.
Proof. intros H. unfold segments. by rewrite StrFacts.split_single. Qed.

Lemma harmless_any c s : harmless c = false -> Str.all harmless s = true -> Str.any (Ascii.eqb c) s = false.
Proof.
  intros Hc. rewrite StrFacts.any_negb_all. intros H. apply negb_false_iff. revert H. apply StrFacts.all_impl.
  intros d Hd. destruct (Ascii.eqb_spec c d) as [->|]; [congruence|done].
Qed.

(** A replacement that is found puts [u] in [t]'s place. *)
Lemma replace_first_cases t u s : replace_first t u s = s \/ exists a b, s = a +:+ t +:+ b /\ replace_first t u s = a +:+ u +:+ b.
Proof.
  induction s as [|c s IH]; cbn [replace_first].
  - destruct (Str.starts_with t "") eqn:E1; [|by left]. right. apply StrFacts.starts_with_spec in E1 as [b Hb]. exists "", b.
    rewrite !app_empty_str. split; [done|]. f_equal. rewrite Hb. apply StrFacts.drop_app.
  - destruct (Str.starts_with t (String c s)) eqn:E1.
    + right. apply StrFacts.starts_with_spec in E1 as [b Hb]. exists "", b. rewrite !app_empty_str. split; [done|]. rewrite Hb, StrFacts.drop_app. done.
    + destruct IH as [->|(a & b & -> & ->)]; [by left|]. right. by exists (String c a), b.
Qed.

Lemma replace_stays t u s : Str.any (Ascii.eqb "/") t = false -> Str.all harmless u = true ->
  segments (replace_first t u s) = segments s /\
  forall c, harmless c = false -> Str.any (Ascii.eqb c) (replace_first t u s) = true -> Str.any (Ascii.eqb c) s = true.
Proof.
  intros Ht Hu. destruct (replace_first_cases t u s) as [->|(a & b & -> & ->)]; [done|]. split.
  - pose proof (segments_app a (t +:+ b)). pose proof (segments_app t b). pose proof (segments_app a (u +:+ b)). pose proof (segments_app u b).
    pose proof (no_slash_segments t Ht). pose proof (no_slash_segments u (harmless_any "/" u eq_refl Hu)). lia.
  - intros c Hc. rewrite !StrFacts.any_app, (harmless_any c u) by done. rewrite !orb_true_iff. intros [H|[H|H]]; [by left|done|by right; right].
Qed.

Lemma put_param_path input parts kp : Str.any (Ascii.eqb "/") kp.1 = false ->
  segments (path (put_param input parts kp)) = segments (path parts) /\
  forall c, harmless c = false -> Str.any (Ascii.eqb c) (path (put_param input parts kp)) = true -> Str.any (Ascii.eqb c) (path parts) = true.
Proof.
  destruct kp as [key p]. cbn [fst]. intros Hk. unfold put_param. destruct (JsMap.get key input) as [v|]; [|done].
  assert (Ht : Str.any (Ascii.eqb "/") (String "{" (key +:+ "}")) = false) by (cbn; by rewrite StrFacts.any_app, Hk).
  destruct v; try done; (destruct (in_ p); [|done..]); cbn [path]; apply replace_stays; (done || apply encode_harmless).
Qed.

Lemma put_params_path input ps parts : Forall (fun kp => Str.any (Ascii.eqb "/") kp.1 = false) ps ->
  segments (path (foldl (put_param input) parts ps)) = segments (path parts) /\
  forall c, harmless c = false -> Str.any (Ascii.eqb c) (path (foldl (put_param input) parts ps)) = true -> Str.any (Ascii.eqb c) (path parts) = true.
Proof.
  intros Hps. revert parts. induction Hps as [|kp ps Hk Hps IH]; intros parts; [done|]. cbn [foldl].
  destruct (IH (put_param input parts kp)) as [H1 H2]. destruct (put_param_path input parts kp Hk) as [G1 G2].
  split; [by rewrite H1|auto].
Qed.

(** Whatever the caller passes, the path that is requested has the segments of
    the operation's path: a value adds no separator, no query, no fragment, and
    no placeholder that a later value could fill. *)
Theorem path_segments_kept operation input :
  Forall (fun kp => Str.any (Ascii.eqb "/") kp.1 = false) (params operation) ->
  let p := path (parts_of operation input) in
  segments p = segments (o_path operation) /\
  forall c, harmless c = false -> Str.any (Ascii.eqb c) p = true -> Str.any (Ascii.eqb c) (o_path operation) = true.
Proof.
  intros Hps. exact (put_params_path input _ {| path := o_path operation; query := []; body := [] |} Hps).
Qed.

Definition ex_op : ConnectorOperation := {|
  export := "list_issues"; method := GET; o_path := "/repos/{owner}/{repo}/issues";
  params := [("owner", {| in_ := InPath; p_type := PString; required := None |});
             ("repo", {| in_ := InPath; p_type := PString; required := Some false |})]
|}.

Lemma path_segments_kept_witness :
  path (parts_of ex_op [("owner", JStr "a/b?c"); ("repo", JStr "x y")]) = "/repos/a%2Fb%3Fc/x%20y/issues" /\
  segments (path (parts_of ex_op [("owner", JStr "a/b?c"); ("repo", JStr "x y")])) = 5.
Proof. split; [reflexivity|]. destruct (path_segments_kept ex_op [("owner", JStr "a/b?c"); ("repo", JStr "x y")]) as [H _]; [repeat constructor|exact H]. Defined.

(** Two dots are a value like another: the URL they end in drops the segment
    before them, and the request leaves the operation's path. *)
Example dotdot_value : path (parts_of ex_op [("owner", JStr ".."); ("repo", JStr "admin")]) = "/repos/../admin/issues".
Proof. reflexivity. Qed.

(** A parameter of the path that is not required leaves its placeholder. *)
Example placeholder_left : path (parts_of ex_op [("owner", JStr "berth")]) = "/repos/berth/{repo}/issues".
Proof. reflexivity. Qed.

(** ** The request, whole *)

Section spec.
Context {parser : UrlParser} (env : string -> option string) (fetch : Request -> result string Response).
Context (config : ConnectorConfig) (operation : ConnectorOperation) (input : list (string * json)).

Definition auth_of : ConnectorAuth := or_default {| type_ := AuthNone; envVar := None; headerName := None |} (c_auth config).
Definition token_of : option string := match set_value (envVar auth_of) with Some name => set_value (env name) | None => None end.

Record made (request : Request) (r : result string ConnectorResult) : Prop := {
  where_to : new_URL_base (path (parts_of operation input)) (baseUrl config) = Some (url request);
  how : r_method request = method operation;
  with_credential h v : (h, v) ∈ headers request -> (h = "Content-Type" /\ v = "application/json") \/ exists t, token_of = Some t /\
    match type_ auth_of with
    | AuthNone => False
    | AuthBearer => h = "Authorization" /\ v = "Bearer " +:+ t
    | AuthHeader => headerName auth_of = Some h /\ v = t
    end;
  with_body : is_Some (sent_body request) -> method operation <> GET /\ method operation <> DELETE;
  answered : match r with
    | Ok (Answer st data) => exists res, fetch request = Ok res /\ st = status res /\ json_body res = Some data
    | Ok (Stub _) => False
    | Err _ => True
    end
}.

Lemma credential_spec h v : (h, v) ∈ credential auth_of token_of -> exists t, token_of = Some t /\
  match type_ auth_of with
  | AuthNone => False
  | AuthBearer => h = "Authorization" /\ v = "Bearer " +:+ t
  | AuthHeader => headerName auth_of = Some h /\ v = t
  end.
Proof.
  unfold credential. destruct (type_ auth_of), token_of as [t|]; try by intros ?%not_elem_of_nil.
  - intros [= -> ->]%list_elem_of_singleton. by exists t.
  - destruct (set_value (headerName auth_of)) as [n|] eqn:En; [|by intros ?%not_elem_of_nil]. apply set_value_given in En as [En _].
    unfold JsObj.assign. destruct (String.eqb n "__proto__"); [by intros ?%not_elem_of_nil|]. intros [= -> ->]%list_elem_of_singleton. by exists t.
Qed.

Lemma assign_elem {A} k (v : A) o x : x ∈ JsObj.assign k v o -> x = (k, v) \/ x ∈ o.
Proof.
  unfold JsObj.assign. case_match; [by right|]. induction o as [|[k' v'] o IH]; cbn; [intros ->%list_elem_of_singleton; by left|].
  case_decide; rewrite !elem_of_cons; [subst|]; naive_solver.
Qed.

Lemma request_made u r : new_URL_base (path (parts_of operation input)) (baseUrl config) = Some u ->
  let request := request_of auth_of token_of (method operation) u (parts_of operation input) in
  match r with
  | Ok (Answer st data) => exists res, fetch request = Ok res /\ st = status res /\ json_body res = Some data
  | Ok (Stub _) => False
  | Err _ => True
  end -> made request r.
Proof.
  intros Hu request Hr. split; [done|done| |by unfold request, request_of; cbn; destruct (body _), (method operation); intros [? ?]|done].
  intros h v. unfold request, request_of; cbn. match goal with |- context [if ?b then _ else _] => destruct b end; [intros [[= -> ->]|Hin]%assign_elem; [by left|]|intros Hin]; right; by apply credential_spec.
Qed.

Lemma call_api_run : wp (call_api fetch config operation input auth_of token_of) [] (fun sent r =>
  (length sent <= 1) /\ forall request, request ∈ sent -> made request r).
Proof.
  unfold call_api. apply wp_bind, wp_lift. destruct (new_URL_base _ _) as [u|] eqn:Eu; [|split; [cbn; lia|by intros ? ?%not_elem_of_nil]].
  apply wp_bind, wp_emit. destruct (fetch _) as [res|e] eqn:Ef;
    [apply wp_bind, wp_lift; unfold data_of; destruct (json_body res) as [data|] eqn:Ep; [apply wp_ret|]|];
    (split; [cbn; lia|]; intros request ->%list_elem_of_singleton; apply request_made; [done|]); [by exists res|done|done].
Qed.

(** Without its credential an operation calls nothing and says so. Otherwise at
    most one request is made, to what the path resolves to, with the credential
    in its header and nowhere else, and with a body only for a method that has
    one; what is answered is what the API said, read as JSON. *)
Theorem invokeOperation_spec sent r : invokeOperation env fetch config operation input [] = (sent, r) ->
  (token_of = None -> type_ auth_of <> AuthNone -> sent = [] /\ exists note, r = Ok (Stub note)) /\
  (length sent <= 1) /\
  forall request, request ∈ sent -> made request r.
Proof.
  intros Er. assert (H : wp (invokeOperation env fetch config operation input) [] (fun sent r =>
    (token_of = None -> type_ auth_of <> AuthNone -> sent = [] /\ exists note, r = Ok (Stub note)) /\ (length sent <= 1) /\
    forall request, request ∈ sent -> made request r)); [|exact (wp_run _ _ _ H _ _ Er)].
  unfold invokeOperation. fold auth_of. fold token_of. pose proof call_api_run as Hcall.
  destruct (type_ auth_of) eqn:Ea; destruct token_of as [t|] eqn:Et;
    first [ eapply wp_conseq; [exact Hcall|]; intros sent' r' Hc; split; [intros ? ?; congruence|exact Hc]
          | apply wp_ret; split_and!; [intros _ _; split; [done|by eexists]|cbn; lia|by intros ? ?%not_elem_of_nil] ].
Qed.
End spec.

Definition ex_parser : UrlParser := {| new_URL _ := None; new_URL_base p b := Some {| protocol := "https:"; username := ""; password := ""; hostname := "api.example.com";
  u_host := "api.example.com"; u_port := None; pathname := p; u_search := ""; searchParams := []; href := b +:+ p |} |}.
Definition ex_config : ConnectorConfig := {|
  baseUrl := "https://api.example.com"; c_auth := Some {| type_ := AuthBearer; envVar := Some "API_TOKEN"; headerName := None |}; operations := [ex_op] |}.

Lemma invokeOperation_spec_witness :
  let run := @invokeOperation ex_parser (fun n => if String.eqb n "API_TOKEN" then Some "t0" else None) (fun _ => Ok {| status := 200; json_body := Some (JArr []) |})
    ex_config ex_op [("owner", JStr "a"); ("repo", JStr "b")] [] in
  run.2 = Ok (Answer 200 (JArr [])) /\ headers <$> run.1 = [[("Authorization", "Bearer t0")]] /\ length run.1 <= 1.
Proof. split; [cbv; reflexivity|]. split; [reflexivity|]. cbn zeta. eapply (@invokeOperation_spec ex_parser). apply surjective_pairing. Defined.

(** An answer that is no JSON is never returned as text: the fallback reads a
    body that is already read. *)
Example text_answer_throws :
  (@invokeOperation ex_parser (fun _ => Some "t0") (fun _ => Ok {| status := 200; json_body := None |}) ex_config ex_op [] []).2 =
  Err "Body is unusable: Body has already been read".
Proof. reflexivity. Qed.

Lemma put_fresh {A} k (v : A) (m : list (string * A)) : JsMap.has k m = false -> JsMap.put k v m = m ++ [(k, v)].
Proof.
  unfold JsMap.has. induction m as [|[k' v'] m IH]; [done|]. cbn. destruct (decide (k = k')) as [->|Hne]; [done|].
  intros H. by rewrite IH.
Qed.

Lemma not_has_elem {A} k (m : list (string * A)) : JsMap.has k m = false <-> k ∉ m.*1.
Proof. unfold JsMap.has. rewrite <-JsMap.get_None. by destruct (JsMap.get k m). Qed.

Lemma register_operations ops : forall (app : BerthApp ConnectorOperation),
  match foldl (fun r x => let? app := r in register_one app x) (Ok app) (map (fun o => Export (export o) o) ops) with
  | Ok app' => exports app' = exports app ++ map (fun o => (export o, o)) ops /\
      (NoDup (exports app).*1 -> NoDup ((exports app).*1 ++ map export ops))
  | Err e => ~ NoDup ((exports app).*1 ++ map export ops)
  end.
Proof.
  induction ops as [|o ops IH]; intros app; cbn [map foldl]; [by rewrite !app_nil_r|]. cbn [rbind register_one].
  destruct (JsMap.has (export o) (exports app)) eqn:Eh.
  - assert (Hf : foldl (fun r x => let? app := r in register_one app x) (Err ("export " +:+ q (export o) +:+ " is already registered"))
      (map (fun o => Export (export o) o) ops) = Err ("export " +:+ q (export o) +:+ " is already registered")).
    { clear. induction ops as [|x ops IH]; [done|]. exact IH. }
    rewrite Hf. intros (_ & Hd & _)%NoDup_app. apply not_false_iff_true in Eh. apply Eh, not_has_elem. intros Hin.
    exact (Hd _ Hin (list_elem_of_here _ _)).
  - specialize (IH {| exports := JsMap.put (export o) o (exports app); onInstallHooks := onInstallHooks app; onAgentReadyHooks := onAgentReadyHooks app |}).
    rewrite put_fresh in IH by done. cbn [exports] in IH. rewrite fmap_app in IH. cbn in IH.
    destruct (foldl _ _ _) as [app'|e] eqn:Ef; rewrite put_fresh, ?Ef in * by done.
    + destruct IH as [-> H]. split; [by rewrite <-app_assoc|]. intros Hn. rewrite <-app_assoc in H. apply H.
      apply NoDup_app. split_and!; [done| |apply NoDup_singleton]. intros k Hk ->%list_elem_of_singleton. by apply not_has_elem in Eh.
    + by rewrite <-app_assoc in IH.
Qed.

(** An app's exports are its operations, under the names they have; two of one
    name make no app. *)
Theorem defineConnectorApp_spec config :
  match defineConnectorApp config with
  | Ok app => exports app = map (fun o => (export o, o)) (operations config) /\ NoDup (map export (operations config))
  | Err e => ~ NoDup (map export (operations config))
  end.
Proof.
  unfold defineConnectorApp, defineApp. rewrite foldl_app.
  pose proof (register_operations (operations config) {| exports := []; onInstallHooks := []; onAgentReadyHooks := [] |}) as H.
  destruct (foldl _ _ (map _ _)) as [app|e]; cbn in *; [|done]. destruct H as [-> H]. split; [done|apply H, NoDup_nil_2].
Qed.
End Connector.
