(* ===== verification/Terminal.v ===== *)
(** * The terminal app (apps/terminal/src/tmux-controller.ts)

    A shell that a human and an agent share: the environment it is given, the
    one session every call goes through, and the command whose output is cut
    from the screen. tmux, ttyd, the clock and the screen are parameters. *)
From S2P Require Import Prelude JsNumber Json.

Module Terminal.

(** ** The shell and its environment *)

Definition KNOWN_SHELLS : list string := ["sh"; "bash"; "dash"; "ash"; "zsh"; "ksh"; "mksh"; "fish"; "csh"; "tcsh"].

Definition base_name (path : string) : string := List.last (List.filter (fun w => negb (String.eqb w "")) (Str.split "/" path)) "".

Definition isLoginShell (existsSync : string -> bool) (etcShells : option string) (shell : string) : bool :=
  if negb (Str.starts_with "/" shell) || negb (existsSync shell) then false
  else match etcShells with
  | Some text => existsb (fun line => String.eqb (Str.trim line) shell) (Str.split (ascii_of_nat 10) text)
  | None => bool_decide (base_name shell ∈ KNOWN_SHELLS)
  end.

Section shell.
Context (existsSync : string -> bool) (etcShells : option string).

(** [SHELL] is the [process.env.SHELL] of the app. *)
Definition sessionShell (SHELL : option string) : string :=
  match SHELL with
  | Some "" | None => "/bin/sh"
  | Some shell => if isLoginShell existsSync etcShells shell then shell else "/bin/sh"
  end.

Definition SHELL_ENV_ALLOWLIST : list string :=
  ["PATH"; "HOME"; "USER"; "LOGNAME"; "TMPDIR"; "TMUX_TMPDIR"; "XDG_CONFIG_HOME"; "XDG_CACHE_HOME"; "LANG"; "LANGUAGE"; "TERM"; "COLORTERM"; "TZ";
   "BERTH_EGRESS_PROXY_URL"; "HTTP_PROXY"; "HTTPS_PROXY"; "NO_PROXY"; "ALL_PROXY"; "http_proxy"; "https_proxy"; "no_proxy"; "all_proxy";
   "NODE_EXTRA_CA_CERTS"; "SSL_CERT_FILE"; "SSL_CERT_DIR"].

Definition allowed (key : string) : bool := bool_decide (key ∈ SHELL_ENV_ALLOWLIST) || Str.starts_with "LC_" key.

Definition pass (env : list (string * string)) (kv : string * string) : list (string * string) :=
  if allowed kv.1 then JsMap.put kv.1 kv.2 env else env.

Definition shellEnv (source : list (string * string)) (SHELL : option string) : list (string * string) :=
  JsMap.put "SHELL" (sessionShell SHELL) (foldl pass [] source).
End shell.

(** ** The session *)

(** What a caller of [ensureSession] is told. *)
Inductive told := Ready | Failed (error : string).

Inductive phase := Checking | Creating.

(** [session]: the session exists; [ttyds]: the ttyd processes that run;
    [inFlight] with the callers that share it; [settled]: those told. *)
Record State := {
  session : bool; ttyds : nat; ttydStarted : bool;
  inFlight : option phase; waiting : list nat; settled : list (nat * told)
}.
Definition boot : State := {| session := false; ttyds := 0; ttydStarted := false; inFlight := None; waiting := []; settled := [] |}.

Inductive event :=
| EnsureSession (caller : nat)
| Checked (reached : bool)              (* [has-session] answers; tmux may not be reached *)
| Created (error : option string)       (* [new-session] answers; it may fail *)
| TtydExited | TtydFailed               (* the [exit] event; the [error] event of a failed spawn *)
| SessionEnded | SessionMade.           (* by someone else *)

(** [/duplicate session/] *)
Definition is_duplicate (error : string) : bool := Str.includes "duplicate session" error.

Definition settle (t : told) (s : State) : State := {|
  session := session s; ttyds := ttyds s; ttydStarted := ttydStarted s; inFlight := None; waiting := [];
  settled := settled s ++ map (fun c => (c, t)) (waiting s) |}.

(** The end of [startSession]: ttyd, once. *)
Definition start_ttyd (s : State) : State :=
  settle Ready
    (if ttydStarted s then s
     else {| session := session s; ttyds := S (ttyds s); ttydStarted := true; inFlight := inFlight s; waiting := waiting s; settled := settled s |}).

Definition with_session (b : bool) (s : State) : State :=
  {| session := b; ttyds := ttyds s; ttydStarted := ttydStarted s; inFlight := inFlight s; waiting := waiting s; settled := settled s |}.

Definition step (s : State) (e : event) : State :=
  match e, inFlight s with
  | EnsureSession c, _ =>
      {| session := session s; ttyds := ttyds s; ttydStarted := ttydStarted s;
         inFlight := Some (or_default Checking (inFlight s)); waiting := waiting s ++ [c]; settled := settled s |}
  | Checked reached, Some Checking =>
      if reached && session s then start_ttyd s
      else {| session := session s; ttyds := ttyds s; ttydStarted := ttydStarted s; inFlight := Some Creating; waiting := waiting s; settled := settled s |}
  | Created error, Some Creating =>
      match (match error with Some e => Some e | None => if session s then Some "duplicate session: berth-terminal" else None end) with
      | None => start_ttyd (with_session true s)
      | Some e => if is_duplicate e then start_ttyd s else settle (Failed e) s
      end
  | TtydExited, _ => {| session := session s; ttyds := pred (ttyds s); ttydStarted := if ttyds s is O then ttydStarted s else false;
                        inFlight := inFlight s; waiting := waiting s; settled := settled s |}
  | TtydFailed, _ => {| session := session s; ttyds := pred (ttyds s); ttydStarted := ttydStarted s;
                        inFlight := inFlight s; waiting := waiting s; settled := settled s |}
  | SessionEnded, _ => with_session false s
  | SessionMade, _ => with_session true s
  | _, _ => s
  end.

(** The callers, in the order they called. *)
Definition calls (evs : list event) : list nat := omap (fun e => match e with EnsureSession c => Some c | _ => None end) evs.

(** ** A command and its output *)

Fixpoint lastIndexOf (t s : string) : option nat :=
  match s with
  | "" => if String.eqb t "" then Some 0 else None
  | String _ r => match lastIndexOf t r with Some n => Some (S n) | None => if Str.starts_with t s then Some 0 else None end
  end.

Fixpoint indexOf (t s : string) : option nat :=
  if Str.starts_with t s then Some 0 else match s with "" => None | String _ r => S <$> indexOf t r end.

(** [.replace(/^\r?\n/, "").replace(/\s+$/, "")] *)
Definition strip (s : string) : string :=
  Str.trim_end
    match s with
    | String c r =>
        if Ascii.eqb c (ascii_of_nat 10) then r
        else match r with
             | String d r' => if Ascii.eqb c (ascii_of_nat 13) && Ascii.eqb d (ascii_of_nat 10) then r' else s
             | "" => s
             end
    | "" => ""
    end.

(** What one look at the screen gives. *)
Definition output_in (marker sentinel captured : string) : option string :=
  match lastIndexOf marker captured with
  | None => None
  | Some markerIndex =>
      let afterMarker := Str.drop (markerIndex + String.length marker) captured in
      match indexOf sentinel afterMarker with
      | Some sentinelIndex => Some (strip (Str.take sentinelIndex afterMarker))
      | None => None
      end
  end.

Definition marker_of (command sentinel : string) : string := command +:+ "; echo " +:+ sentinel.

Section commands.
(** The [n]th reading of the clock after the first, and the [n]th look. *)
Context (now : nat -> Z) (pane : nat -> string).

Fixpoint poll (fuel n : nat) (timeoutMs : Z) (marker sentinel : string) : option (option string) :=
  match fuel with
  | O => None
  | S fuel =>
      if (now n <? timeoutMs)%Z then
        match output_in marker sentinel (pane n) with
        | Some out => Some (Some out)
        | None => poll fuel (S n) timeoutMs marker sentinel
        end
      else Some None
  end.

Definition runCommand (fuel : nat) (command sentinel : string) (timeoutMs : Z) : option (result string string) :=
  match poll fuel 0 timeoutMs (marker_of command sentinel) sentinel with
  | None => None
  | Some (Some out) => Some (Ok out)
  | Some None => Some (Err ("command timed out after " +:+ JsNumber.to_string timeoutMs +:+ "ms: " +:+ String Json.dq_char (command +:+ String Json.dq_char "")))
  end.
End commands.

(** [sendKeys]: the names it passes on. *)
Fixpoint tokens (s : string) : list string :=
  match s with
  | "" => []
  | String c r =>
      if Str.is_space c then tokens r
      else match tokens r, r with
           | w :: ws, String d _ => if Str.is_space d then String c "" :: w :: ws else String c w :: ws
           | ws, _ => String c "" :: ws
           end
  end.

Definition SESSION_NAME : string := "berth-terminal".
(** What tmux is asked, if it is asked anything. *)
Definition sendKeys (keys : string) : option (list string) :=
  match tokens keys with [] => None | ts => Some (["send-keys"; "-t"; SESSION_NAME] ++ ts) end.

Definition capturePane (fullHistory : bool) : list string :=
  ["capture-pane"; "-t"; SESSION_NAME; "-p"] ++ (if fullHistory then ["-S"; "-"] else []).

Example keys_split : sendKeys " C-c  Up Enter " = Some ["send-keys"; "-t"; "berth-terminal"; "C-c"; "Up"; "Enter"].
Proof. reflexivity. Qed.

(** The credential of ttyd: given by the host, or made once for this boot. *)
Definition credential (provided generated : option string) (randomUUID : string) : string * option string :=
  match provided with
  | Some (String _ _ as p) => (p, generated)
  | _ => match generated with Some (String _ _ as g) => (g, generated) | _ => let g := "berth:" +:+ randomUUID in (g, Some g) end
  end.

Definition ttyd_args (TTYD_PORT credential : string) : list string :=
  ["--credential"; credential; "--writable"; "-p"; TTYD_PORT; "tmux"; "attach"; "-t"; SESSION_NAME].

(** ** The environment keeps the app's own *)

Lemma pass_filter source : forall acc, foldl pass acc source = foldl (fun env kv => JsMap.put kv.1 kv.2 env) acc (List.filter (fun kv => allowed kv.1) source).
Proof.
  induction source as [|kv source IH]; intros acc; [done|]. cbn [foldl List.filter]. unfold pass at 2. destruct (allowed kv.1); cbn [foldl]; apply IH.
Qed.

Lemma put_keys (source : list (string * string)) : forall acc k, k ∈ (foldl (fun env kv => JsMap.put kv.1 kv.2 env) acc source).*1 -> k ∈ acc.*1 \/ k ∈ source.*1.
Proof.
  induction source as [|[k' v] source IH]; intros acc k; cbn [foldl]; [by left|]. intros [H|H]%IH; [|right; by right].
  rewrite JsMap.keys_put in H. cbn in H. case_decide; [by left|]. apply elem_of_app in H as [H|H%list_elem_of_singleton]; [by left|right; subst; left].
Qed.

(** Nothing of the app's environment reaches the shell but what the list names
    and the locale; what else it holds, secrets included, makes no difference,
    and no shell but one that is installed and listed is started. *)
Theorem shellEnv_spec existsSync etcShells source SHELL (env := shellEnv existsSync etcShells source SHELL) :
  (forall k, k ∈ env.*1 -> allowed k = true \/ k = "SHELL") /\
  (forall source', List.filter (fun kv => allowed kv.1) source' = List.filter (fun kv => allowed kv.1) source ->
     shellEnv existsSync etcShells source' SHELL = env) /\
  exists shell, JsMap.get "SHELL" env = Some shell /\ (shell = "/bin/sh" \/ (SHELL = Some shell /\ isLoginShell existsSync etcShells shell = true)).
Proof.
  unfold env, shellEnv. split_and!.
  - intros k Hk. rewrite JsMap.keys_put in Hk. assert (H : k ∈ (foldl pass [] source).*1 \/ k = "SHELL").
    { case_decide; [by left|]. apply elem_of_app in Hk as [Hk|Hk%list_elem_of_singleton]; [by left|by right]. }
    destruct H as [H| ->]; [left|by right]. rewrite pass_filter in H. apply put_keys in H as [H|H]; [by apply not_elem_of_nil in H|].
    apply list_elem_of_fmap in H as ([k' v] & -> & H). by apply list_elem_of_In, List.filter_In in H as [_ H].
  - intros source' Hs. by rewrite !pass_filter, Hs.
  - rewrite JsMap.get_put_eq. eexists. split; [done|]. unfold sessionShell. destruct SHELL as [[|c s]|]; [by left| |by left].
    destruct (isLoginShell existsSync etcShells (String c s)) eqn:E; [by right|by left].
Qed.

(** ** One session, one ttyd *)

Record sane (s : State) (called : list nat) : Prop := {
  one_ttyd : ttyds s <= 1;
  ttyd_known : ttydStarted s = false -> ttyds s = 0;
  flying : inFlight s = None <-> waiting s = [];
  in_order : (settled s).*1 ++ waiting s = called
}.

Lemma settle_keeps t s called : sane s called -> sane (settle t s) called.
Proof.
  intros [H1 H2 H3 H4]. split; cbn; [done|done|done|]. rewrite app_nil_r, fmap_app, <-H4. f_equal. clear. induction (waiting s) as [|c l IH]; [done|]. cbn. by f_equal.
Qed.

Lemma start_ttyd_sane s called : sane s called -> sane (start_ttyd s) called.
Proof.
  intros Hs. apply settle_keeps. destruct (ttydStarted s) eqn:Et; [done|]. destruct Hs as [H1 H2 H3 H4]. split; cbn; [rewrite H2 by done; lia|done|done|done].
Qed.

Lemma session_keeps s e called : sane s called -> sane (step s e) (called ++ calls [e]).
Proof.
  intros Hs. assert (Hf : forall b, sane (with_session b s) called) by (intros b; destruct Hs; by split).
  destruct e as [c|reached|error| | | |]; cbn [calls omap list_omap]; rewrite ?app_nil_r.
  - destruct Hs as [H1 H2 H3 H4]. split; cbn; [done|done|split; [done|by intros [? ?]%app_eq_nil]|by rewrite app_assoc, H4].
  - cbn. destruct (inFlight s) as [[]|] eqn:Ef; [|done..]. case_match; [by apply start_ttyd_sane|]. destruct Hs as [H1 H2 H3 H4].
    split; cbn; [done|done| |done]. split; [done|]. intros Hw. apply H3 in Hw. congruence.
  - cbn. destruct (inFlight s) as [[]|] eqn:Ef; [done| |done]. destruct (match error with Some e => Some e | None => _ end); [|by apply start_ttyd_sane].
    case_match; [by apply start_ttyd_sane|by apply settle_keeps].
  - destruct Hs as [H1 H2 H3 H4]. split; cbn; [lia| |done|done]. destruct (ttyds s) as [|n]; [done|]. intros _. cbn. lia.
  - destruct Hs as [H1 H2 H3 H4]. split; cbn; [lia| |done|done]. intros H%H2. by rewrite H.
  - apply Hf.
  - apply Hf.
Qed.

(** However the calls, tmux and ttyd come in between one another: no more than
    one ttyd runs; the calls are told in the order they came, once each; one
    waits only while an attempt is under way, and the attempt's end leaves the
    next call to make its own. *)
Theorem ensureSession_spec evs : let s := foldl step boot evs in
  ttyds s <= 1 /\ (inFlight s = None <-> waiting s = []) /\ (settled s).*1 ++ waiting s = calls evs /\
  forall c, inFlight s = None -> inFlight (step s (EnsureSession c)) = Some Checking.
Proof.
  assert (H : forall evs s called, sane s called -> sane (foldl step s evs) (called ++ calls evs)).
  { clear. induction evs as [|e evs IH]; intros s called Hs; [by rewrite app_nil_r|]. cbn [foldl].
    replace (called ++ calls (e :: evs)) with ((called ++ calls [e]) ++ calls evs); [by apply IH, session_keeps|].
    unfold calls. rewrite <-app_assoc. f_equal. by destruct e. }
  assert (H0 : sane boot []) by (split; cbn; [lia|done|done|done]). specialize (H evs boot [] H0) as [H1 H2 H3 H4]. cbn zeta.
  split_and!; [done|done|done|]. intros c Hc. cbn. by rewrite Hc.
Qed.

(** A call is told the session is there only if it was, at the attempt's last
    answer, or tmux named it a duplicate. *)
Theorem ready_means_session s e c : (c, Ready) ∈ settled (step s e) -> (c, Ready) ∉ settled s ->
  session (step s e) = true \/ exists error, e = Created (Some error) /\ is_duplicate error = true.
Proof.
  intros Hin Hnot. assert (Hstart : forall s', session (start_ttyd s') = session s') by (intros s'; unfold start_ttyd; by destruct (ttydStarted s')).
  destruct e as [c'|reached|error| | | |]; cbn in Hin |- *; try done.
  - destruct (inFlight s) as [[]|]; [|done..]. destruct (reached && session s) eqn:Er; [|done]. apply andb_true_iff in Er as [_ Es].
    left. transitivity (session s); [exact (Hstart s)|exact Es].
  - destruct (inFlight s) as [[]|]; [done| |done]. destruct error as [err|].
    + destruct (is_duplicate err) eqn:Ed; [right; by exists err|]. cbn in Hin. apply elem_of_app in Hin as [Hin|Hin]; [done|].
      by apply list_elem_of_fmap in Hin as (x & [=] & _).
    + left. destruct (session s) eqn:Es; [transitivity (session s); [exact (Hstart s)|exact Es]|exact (Hstart (with_session true s))].
Qed.

Lemma ready_means_session_witness : session (foldl step boot [EnsureSession 1; EnsureSession 2; Checked true; Created None]) = true /\
  settled (foldl step boot [EnsureSession 1; EnsureSession 2; Checked true; Created None]) = [(1, Ready); (2, Ready)].
Proof.
  split; [|reflexivity].
  destruct (ready_means_session (foldl step boot [EnsureSession 1; EnsureSession 2; Checked true]) (Created None) 1) as [H|(error & [=] & _)];
    [repeat constructor|by apply not_elem_of_nil|exact H].
Defined.

(** A ttyd that could not be started is not tried again. *)
Example failed_ttyd_stays : ttyds (foldl step boot [EnsureSession 1; Checked true; Created None; TtydFailed; EnsureSession 2; Checked true]) = 0.
Proof. reflexivity. Qed.

(** ** The output of a command *)

Lemma lastIndexOf_none t s : Str.includes t s = false -> lastIndexOf t s = None.
Proof.
  induction s as [|c s IH]; cbn [Str.includes lastIndexOf].
  - destruct t as [|d t]; [done|]. intros _. by destruct (String.eqb_spec (String d t) "").
  - intros [H1 H2]%orb_false_iff. rewrite IH by done. by rewrite H1.
Qed.

(** The last place of [t]: nothing further on repeats it. *)
Lemma lastIndexOf_last t a b : t <> "" -> Str.includes t (Str.drop 1 (t +:+ b)) = false -> lastIndexOf t (a +:+ t +:+ b) = Some (String.length a).
Proof.
  intros Ht Hl. induction a as [|c a IH].
  - rewrite app_empty_str. destruct t as [|d t]; [done|]. rewrite app_cons_str in *. cbn [lastIndexOf]. cbn [Str.drop] in Hl.
    assert (Hn : lastIndexOf (String d t) (t +:+ b) = None) by (apply lastIndexOf_none; exact Hl). rewrite Hn.
    change (String d (t +:+ b)) with (String d t +:+ b). by rewrite StrFacts.starts_with_refl.
  - rewrite app_cons_str. cbn [lastIndexOf]. by rewrite IH.
Qed.

Lemma indexOf_first t a b : (forall n, n < String.length a -> Str.starts_with t (Str.drop n (a +:+ t +:+ b)) = false) ->
  indexOf t (a +:+ t +:+ b) = Some (String.length a).
Proof.
  induction a as [|c a IH]; intros H.
  - rewrite app_empty_str. pose proof (StrFacts.starts_with_refl t b) as Hs. destruct (t +:+ b); cbn [indexOf]; by rewrite Hs.
  - rewrite app_cons_str. cbn [indexOf]. pose proof (H 0) as H0. cbn [Str.drop] in H0. rewrite app_cons_str in H0. rewrite H0 by (cbn; lia).
    rewrite IH; [done|]. intros n Hn. specialize (H (S n)). rewrite app_cons_str in H. cbn [Str.drop] in H. apply H. cbn. lia.
Qed.

(** The output of a command is what stands between the last of its lines on the
    screen and the first sentinel after it, however often the line was drawn
    before. *)
Theorem output_between marker sentinel before out after :
  marker <> "" -> Str.includes marker (Str.drop 1 (marker +:+ out +:+ sentinel +:+ after)) = false ->
  (forall n, n < String.length out -> Str.starts_with sentinel (Str.drop n (out +:+ sentinel +:+ after)) = false) ->
  output_in marker sentinel (before +:+ marker +:+ out +:+ sentinel +:+ after) = Some (strip out).
Proof.
  intros Hm Hl Hf. unfold output_in. rewrite lastIndexOf_last by done.
  assert (Hd : Str.drop (String.length before + String.length marker) (before +:+ marker +:+ out +:+ sentinel +:+ after) = out +:+ sentinel +:+ after).
  { rewrite <-length_app_str, <-app_assoc_str. apply StrFacts.drop_app. }
  rewrite Hd, indexOf_first by done. by rewrite StrFacts.take_app.
Qed.

Definition nl : string := String (ascii_of_nat 10) "".
Lemma output_between_witness :
  output_in (marker_of "ls" "bd0123456789") "bd0123456789"
    ("$ ls; echo bd0123456789" +:+ nl +:+ "$ " +:+ marker_of "ls" "bd0123456789" +:+ (nl +:+ "a.txt" +:+ nl) +:+ "bd0123456789" +:+ nl) = Some "a.txt".
Proof.
  change (Some "a.txt") with (Some (strip (nl +:+ "a.txt" +:+ nl))).
  exact (output_between (marker_of "ls" "bd0123456789") "bd0123456789" ("$ ls; echo bd0123456789" +:+ nl +:+ "$ ") (nl +:+ "a.txt" +:+ nl) nl
    ltac:(discriminate) eq_refl ltac:(intros n Hn; cbn in Hn; do 7 (destruct n as [|n]; [reflexivity|]); lia)).
Defined.

(** *** It ends *)

Lemma poll_ends now pane timeoutMs marker sentinel fuel : forall n,
  (forall k, now k + 200 <= now (S k))%Z -> (timeoutMs <= now n + 200 * Z.of_nat fuel)%Z ->
  exists r, poll now pane (S fuel) n timeoutMs marker sentinel = Some r.
Proof.
  induction fuel as [|fuel IH]; intros n Hn Ht.
  - cbn [poll]. assert (Hlt : (now n <? timeoutMs)%Z = false) by (apply Z.ltb_ge; lia). rewrite Hlt. by eexists.
  - cbn [poll] in *. destruct (now n <? timeoutMs)%Z; [|by eexists]. destruct (output_in marker sentinel (pane n)) as [out|]; [by eexists|].
    apply IH; [done|]. specialize (Hn n). lia.
Qed.

Lemma poll_finds now pane fuel n timeoutMs marker sentinel k out :
  (forall j, n <= j < n + k -> output_in marker sentinel (pane j) = None) -> (forall j, n <= j <= n + k -> (now j < timeoutMs)%Z) ->
  output_in marker sentinel (pane (n + k)) = Some out -> k < fuel -> poll now pane fuel n timeoutMs marker sentinel = Some (Some out).
Proof.
  revert n fuel; induction k as [|k IH]; intros n fuel Hnone Htime Hout Hf; (destruct fuel as [|fuel]; [lia|]); cbn [poll].
  - assert (Hlt : (now n <? timeoutMs)%Z = true) by (apply Z.ltb_lt, Htime; lia). rewrite Hlt. rewrite Nat.add_0_r in Hout. by rewrite Hout.
  - assert (Hlt : (now n <? timeoutMs)%Z = true) by (apply Z.ltb_lt, Htime; lia). rewrite Hlt. rewrite Hnone by lia.
    apply IH; [intros j Hj; apply Hnone; lia|intros j Hj; apply Htime; lia|by rewrite Nat.add_succ_r in Hout|lia].
Qed.

(** A clock that advances by the pause ends every command: with its output, if a
    look at the screen within the time shows it, or with the time-out. *)
Theorem runCommand_ends (now : nat -> Z) pane command sentinel timeoutMs :
  (0 <= now 0%nat)%Z -> (forall k : nat, now k + 200 <= now (S k))%Z ->
  let marker := marker_of command sentinel in let fuel := S (Z.to_nat (timeoutMs / 200 + 1)) in
  (exists r, runCommand now pane fuel command sentinel timeoutMs = Some r) /\
  forall k out, (forall j, j < k -> output_in marker sentinel (pane j) = None) -> (now k < timeoutMs)%Z ->
    output_in marker sentinel (pane k) = Some out -> runCommand now pane fuel command sentinel timeoutMs = Some (Ok out).
Proof.
  intros H0 Hn marker fuel.
  assert (Hmono : forall k, (200 * Z.of_nat k <= now k)%Z).
  { induction k as [|k IH]; [lia|]. specialize (Hn k). lia. }
  pose proof (Z.div_mod timeoutMs 200 ltac:(done)) as Hdm. pose proof (Z.mod_pos_bound timeoutMs 200 ltac:(done)) as Hmb. split.
  - destruct (poll_ends now pane timeoutMs marker sentinel (Z.to_nat (timeoutMs / 200 + 1)) 0) as [r Hr]; [done|lia|].
    unfold runCommand. fold marker. fold fuel in Hr. rewrite Hr. destruct r; by eexists.
  - intros k out Hnone Hk Hout. unfold runCommand. fold marker. rewrite (poll_finds now pane fuel 0 timeoutMs marker sentinel k out); [done| | |done|].
    + intros j Hj. apply Hnone. lia.
    + intros j Hj. assert (Hle : (now j <= now k)%Z); [|lia]. destruct Hj as [_ Hj]. cbn in Hj. induction Hj as [|k' Hj IH]; [lia|].
      pose proof (Hn k').
      assert (Hall : forall a b, a <= b -> (now a <= now b)%Z) by (intros a b Hab; induction Hab as [|b Hab IHab]; [lia|specialize (Hn b); lia]).
      apply Hall. lia.
    + unfold fuel. pose proof (Hmono k). lia.
Qed.

Lemma runCommand_ends_witness : exists r, runCommand (fun k => 250 * Z.of_nat k)%Z (fun _ => "") 77 "ls" "bd0123456789" 15000 = Some r.
Proof. apply (runCommand_ends (fun k => 250 * Z.of_nat k)%Z (fun _ => "") "ls" "bd0123456789" 15000); [done|intros k; lia]. Defined.
End Terminal.
